(* ===== verification/_CoqProject ===== *)
-Q . S2P
Prelude.v
JsString.v
Json.v
Calendar.v
Cron.v
CronFacts.v
CronValidate.v
ScheduleSlot.v
Redis.v
WorkflowSlots.v
WorkflowFacts.v
WorkflowRuns.v
Interleave.v
UltrafixLoop.v
UltrafixLoopFacts.v
UltrafixStore.v
UltrafixContinue.v
UltrafixFence.v
UltrafixRun.v
UltrafixResume.v
SlashCommand.v
SlashFacts.v
CiRuns.v
CiSuspend.v
CiOperations.v
CiRules.v
CiRequests.v
CiCancel.v
CiBegin.v
CiAssess.v
CiRestore.v
CiProps.v
RoutingPool.v
RoutingFacts.v
RoutingSession.v
Goals.v
GoalAttempt.v
GoalCheckpoint.v
GoalDeclaration.v
GoalContinuation.v
GoalWorker.v
GoalRecovery.v
GoalControls.v
GoalRules.v
GoalSteps.v
GoalOperatorSteps.v
GoalProps.v
GoalRecovered.v
GoalQueue.v
GoalJobs.v
GoalAttention.v
GoalWitness.v
RunCost.v
RunCostFacts.v
AutoMerge.v
AutoMergeFacts.v
TaskState.v
TaskFacts.v
TaskReconcile.v
TaskReconcileFacts.v
TaskIds.v
PrLock.v
Replacement.v
ReplaceService.v
Lineage.v
ReplaceFacts.v
ReplaceRefine.v
ReplaceProps.v
AgentRuns.v
AgentSchedule.v
AgentStranded.v
Handoff.v
HandoffResume.v
HandoffRecovery.v
HandoffWriter.v
HandoffGuards.v
HandoffRows.v
HandoffOwed.v
Push.v
PushProps.v
