(* ===== verification/Prelude.v ===== *)
(** * ProPR: a verification library of its orchestration core

    ProPR turns GitHub issues and pull request comments into runs of coding agents. A
    daemon polls and schedules, workers take jobs from a BullMQ queue, state lives in Redis
    (keys and Lua scripts) and in a SQL database (Knex statements), and several processes
    act on the same records. The hard part of the program is what it promises when these
    processes interleave or die: that capacity is respected, that a task ends once and on
    evidence, that nothing claimed is lost or run twice, that loops end and spend is
    capped. This library models that core and proves those promises.

    ** How the code is modelled

    A function of the source is a function here, with the source's name where Rocq allows
    it. [throw] is [Throw] of the message in [result] (Prelude). Integers that the source
    keeps in a [number] are [Z]; amounts of money and percentages are rationals (the
    rounding of IEEE doubles is left out); instants are milliseconds since the epoch, with
    the UTC calendar of [Date] in Calendar.v (its range is checked only where Push.v
    normalizes an instant it computed); texts of instants without a zone, which SQLite writes in
    UTC and [new Date] reads in local time, go through the time zone of the environment
    ([local_reading] of Goals.v). Strings are Latin-1 (JsString.v), so that trimming, white
    space and case mapping are the language's on that range; stored settings are values of
    JSON (Json.v).

    Code that talks to a store is a program of Interleave.v: each call is one atomic
    function of the store, and any step of another process may come before it. A theorem
    about [steps], [triple] or [etriple] therefore speaks of every interleaving: the list
    [others] of a world holds arbitrary functions (restricted, where a theorem says so, to
    those that respect an invariant), and every concrete schedule of other processes is one
    such list. A crash is a program that stops after some own step, which is why the safety
    theorems hold after every own step, not only at the end. Serialized values go through
    the class [Serial] ([JSON.stringify] and [JSON.parse] at one type).

    Redis is not part of the repository. Lua scripts are proved against the class
    [RedisServer] of Redis.v (the commands they call, with their documented behaviour; a
    concrete server satisfies the class and runs the examples); keys of one record are a
    record of their values in UltrafixStore.v, TaskState.v and PrLock.v. Statements of the
    database are functions of the tables' relevant columns. GitHub, the clock, settings,
    containers, prices and model catalogues are answers of an environment or parameters.

    ** Parts and files

    - Cron schedules, packages/shared/src/cronSchedule.ts: Cron.v (parser, next occurrence,
      validation), Calendar.v, CronFacts.v and CronValidate.v (the next occurrence is the
      least one; accepted schedules have a next occurrence and never fire twice within 15
      minutes), ScheduleSlot.v ([latestDueSlot] of src/agentRunScheduler.ts).
    - Repository capacity, packages/core/src/workflow/workflowConcurrency.ts:
      WorkflowSlots.v (the four Lua scripts), WorkflowFacts.v (their invariant),
      WorkflowRuns.v (all interleavings of scripts, time, requests, replies and one run's
      [withRepositoryWorkflowSlot]).
    - The Ultrafix review and fix loop, src/jobs/ultrafix*.ts: UltrafixLoop.v (state and
      decisions; the goal and the settings are whatever numbers or values are stored),
      UltrafixLoopFacts.v (it ends; findings and escalation), UltrafixStore.v
      (the Redis record and its scripts), UltrafixContinue.v, UltrafixFence.v and
      UltrafixRun.v (a continuation, its fencing by epochs and what it does),
      UltrafixResume.v (claims, hand-off, takeover and their crash safety).
    - Slash commands, packages/core/src/webhook/slashCommandParser.ts: SlashCommand.v (the
      parser, its metadata, and the loop options of /ultrafix), SlashFacts.v (round trip,
      ranges, precedence).
    - Synthetic agents, packages/shared/src/syntheticAgents.ts and
      packages/core/src/services/syntheticRoutingService.ts: RoutingPool.v (configuration
      and choice of a member), RoutingSession.v (pinning and failover), RoutingFacts.v.
    - Spend caps, packages/core/src/budget/: RunCost.v (cap, tally and the guard as events
      between its awaits, with the tallies it shares with the executions), RunCostFacts.v.
    - Auto-merge, packages/core/src/workflow/autoMergePolicy.ts: AutoMerge.v (policy,
      protected-path globs compiled to a state machine, decision), AutoMergeFacts.v (the
      machine decides the documented language of globs, class by class, for patterns whose
      classes are regular; when a merge is armed).
    - Task state, packages/core/src/utils/workerStateManager.ts and its transition files:
      TaskState.v, TaskFacts.v; the reconciler of stale tasks, src/taskStateReconciler.ts:
      TaskReconcile.v (over the same Redis key and the database), TaskReconcileFacts.v;
      identifiers, packages/shared/src/taskIdentifiers.ts: TaskIds.v.
    - The pull request lock, src/jobs/prProcessingLock.ts: PrLock.v.
    - Task replacement, src/taskReplacement/: Replacement.v (policy and store),
      ReplaceService.v (the service), Lineage.v (the abstract specification: a forest of
      attempts), ReplaceFacts.v, ReplaceRefine.v and ReplaceProps.v (the service refines
      the forest; delivery and recovery).
    - Scheduled agents, packages/core/src/services/agents/agentRun*.ts and
      src/agentRunScheduler.ts: AgentRuns.v (receipts and schedule columns),
      AgentSchedule.v (trigger, schedule sweep, deferred retry, recovery, and their state
      machine), AgentStranded.v (a claimed slot is never lost).
    - Suspending the CI of a pull request during a follow-up, src/jobs/followupCiSuspension*.ts:
      CiRuns.v (workflow selection and runs), CiSuspend.v (record, lease and requests to
      GitHub), CiOperations.v (begin, sweep, restore, release, reconcile), CiRules.v and
      CiRequests.v (what a worker relies on and keeps, evidence, a rule per primitive),
      CiCancel.v, CiBegin.v, CiAssess.v, CiRestore.v (each operation by these rules),
      CiProps.v (no cancelled run is forgotten; requests are guarded; waiting ends).
    - Goals, src/jobs/goal*.ts, src/jobs/processGoalJob.ts, src/goalRecovery.ts,
      packages/api/routes/goalRoutes.ts and packages/core/src/goals/: Goals.v (rows,
      transactions, blockers), GoalAttempt.v (claim, fence and control surface of an
      attempt), GoalCheckpoint.v (publication), GoalDeclaration.v
      (what an agent declares), GoalContinuation.v (checkouts),
      GoalWorker.v (the worker's job), GoalRecovery.v (the sweep), GoalControls.v (the
      operator's requests), GoalAttention.v (what a goal asks of its operator); GoalRules.v
      (the state machine of a goal and what a program may write), GoalSteps.v and
      GoalOperatorSteps.v (every program keeps to it), GoalProps.v (lifecycle, fencing,
      claims, idempotency), GoalRecovered.v (recovery leaves nothing unattended),
      GoalQueue.v and GoalJobs.v (the jobs in the queue follow the goals), GoalWitness.v.

    - Follow-up handoffs, src/jobs/followupHandoff*.ts, prPendingComments.ts,
      prCommentHandoffIntegration.ts and closedPullRequestHandoffs.ts (the durable record of
      a publication a pull request is owed): Handoff.v (the row and its fenced writes,
      claims, the pending list, markers and comment bodies, the requests to GitHub and git),
      HandoffResume.v (resuming it phase by phase), HandoffRecovery.v (passes, operators,
      adoption, settlement and release), HandoffWriter.v (the job's own checkpoints and its
      gate behind a predecessor), HandoffGuards.v (what recovery may publish, and once),
      HandoffRows.v (what each checkpoint of recovery means), HandoffOwed.v (no program
      erases a publication that is owed; two runs).
    - Web push, packages/api/services/webPushDispatcher.ts over the tables of
      packages/core/src/db/migrations/20260802000000, 20260802010000 and 20260824000000:
      Push.v (the tables with their triggers and checks, the dispatcher), PushProps.v (the
      audit trail under the statements the schema admits, the lease behind a request, its
      recorded outcome).

    They meet where the code makes them meet: the scheduler evaluates schedules with
    Cron.v; the reconciler acts through the transitions of TaskState.v and asks the
    replacement service whether a task may end; handoffs are adopted under the lock of
    PrLock.v; replacement attempts get the identifiers of TaskIds.v; the Ultrafix loop, the task state, replacement, agent runs, CI suspension,
    goals, handoffs and push deliveries share the programs of Interleave.v.

    ** What the theorems show

    Safety under interference: capacity is never exceeded and an owner stays counted;
    continuations are fenced by their epoch; a claim or hand-off of a deferred step, a
    replacement decision and a claimed schedule slot survive a crash at any point; task
    updates are atomic, finished tasks stay finished, and tasks are only ended on evidence;
    a run is stopped at its cap once; an owner that heartbeats keeps its lock; a CI run
    ProPR cancelled stays owed a restart until evidence settles it, and nothing is
    cancelled or rerun on stale knowledge; a goal follows its state machine and its jobs
    follow the goal, a superseded attempt writes nothing and an attempt is claimed once; an
    interrupted follow-up is published on fresh evidence, for its own request, and once;
    its checkpoints follow the work, and what is owed is not erased; a push is requested
    under its own lease only, and its attempts are audited. Refinement: the replacement service implements the growth of a forest of bounded lineages.
    Termination and liveness: the Ultrafix loop, failover and the searches return,
    recovery completes what was interrupted and leaves no goal unattended. Functional
    behaviour and equivalences: the
    next occurrence, the latest due slot, the pool member chosen, the glob matcher. Each theorem with
    hypotheses has a witness that evaluates the definitions on a concrete input.

    ** Fuel

    Loops that are not structural take fuel, and a theorem shows it is enough:
    [next_fuel] of Cron.v is one step per minute of the 366 days searched, and every step
    advances at least a minute ([nextCronOccurrence_total]); [latestDueSlot] halves an
    interval shorter than its fuel; failover attempts each member once and then at most one attempt without a member; lock
    acquisition and task updates retry a number of times the source fixes; the lease of a
    CI suspension and the polling of its restoration are bounded by deadlines that the
    clock reaches before the fuel ends ([restoration_ends]); the pages of
    [recoverStuckAgentRuns] and of [dispatchBatch] answer [None] where the fuel given runs
    out.

    ** Not modelled

    Process start-up and timers, GitHub and git, containers and agent command lines,
    prompts, logging and publication to the event bus, the HTTP API, the clients and the
    desktop application: input and output around the modelled decisions. Code units above
    255, IEEE rounding and, but for Push.v, the range of [Date] are outside the models of the
    language.
    Each component's file says what of its sources it leaves out.

    ** Planned

    The dispatch of slash commands, the retry classification of provider failures, the
    review context budget, the page loop of the reconciler, the admission of agent runs,
    waiting in place of a blocked follow-up, and the enrollment of push subscriptions. *)

From stdpp Require Export base decidable list gmap strings pretty sorting.
From Stdlib Require Export ZArith Lia.
From Stdlib Require Ascii.
Export (notations) Stdlib.Strings.Ascii.

Abbreviation ascii := Ascii.ascii (only parsing).

(** ** Results of fallible code

    A TypeScript function that may [throw] returns a [result]: [Ok] of the value
    or [Throw] of the [Error]'s message. *)

Inductive result (A : Type) : Type :=
| Ok (a : A)
| Throw (message : string).
Arguments Ok {A} a.
Arguments Throw {A} message.

#[export] Instance result_ret : MRet result := fun A a => Ok a.
#[export] Instance result_bind : MBind result :=
  fun A B f m => match m with Ok a => f a | Throw e => Throw e end.
#[export] Instance result_fmap : FMap result :=
  fun A B f m => match m with Ok a => Ok (f a) | Throw e => Throw e end.
#[export] Instance result_eq_dec {A} `{EqDecision A} : EqDecision (result A).
Proof. solve_decision. Defined.

(** [xs.map(f)] where [f] may throw: the first exception wins. *)
Fixpoint result_map {A B} (f : A -> result B) (xs : list A) : result (list B) :=
  match xs with
  | [] => Ok []
  | x :: xs => y ← f x; ys ← result_map f xs; mret (y :: ys)
  end.

(** A [for (const x of xs)] loop whose body may throw. *)
Fixpoint result_foldl {A B} (f : B -> A -> result B) (acc : B) (xs : list A) : result B :=
  match xs with
  | [] => Ok acc
  | x :: xs => acc' ← f acc x; result_foldl f acc' xs
  end.

Lemma result_bind_Ok {A B} (m : result A) (f : A -> result B) b :
  m ≫= f = Ok b -> exists a, m = Ok a /\ f a = Ok b.
Proof. destruct m; simpl; [eauto | discriminate]. Qed.

Lemma result_map_Ok {A B} (f : A -> result B) xs ys :
  result_map f xs = Ok ys -> Forall2 (fun x y => f x = Ok y) xs ys.
Proof.
  revert ys; induction xs as [|x xs IH]; intros ys H; simpl in H.
  - injection H as <-. constructor.
  - apply result_bind_Ok in H as (y & Hy & H).
    apply result_bind_Ok in H as (ys' & Hys & H). injection H as <-.
    constructor; auto.
Qed.

Lemma result_foldl_inv {A B} (P : B -> Prop) (f : B -> A -> result B) :
  (forall acc x acc', P acc -> f acc x = Ok acc' -> P acc') ->
  forall xs acc acc', P acc -> result_foldl f acc xs = Ok acc' -> P acc'.
Proof.
  intros Hf xs; induction xs as [|x xs IH]; intros acc acc' Hacc H; simpl in H.
  - congruence.
  - apply result_bind_Ok in H as (acc1 & H1 & H). eauto.
Qed.

(** [inv_result] splits hypotheses about a successful bind. *)
Ltac inv_result :=
  repeat match goal with
  | H : _ ≫= _ = Ok _ |- _ =>
      apply result_bind_Ok in H; destruct H as (? & ? & H)
  | H : mret _ = Ok _ |- _ => injection H as H
  | H : Ok _ = Ok _ |- _ => injection H as H
  | H : Throw _ = Ok _ |- _ => discriminate H
  end.

(** ** Reflection of boolean tests

    [zb] turns every integer comparison that is a hypothesis or a condition of
    the goal into an inequality; [case_bool] splits one condition of the goal or
    of a hypothesis. *)

Lemma Z_leb_true x y : (x <=? y)%Z = true -> (x <= y)%Z.
Proof. apply Z.leb_le. Qed.
Lemma Z_leb_false x y : (x <=? y)%Z = false -> (y < x)%Z.
Proof. apply Z.leb_gt. Qed.
Lemma Z_ltb_true x y : (x <? y)%Z = true -> (x < y)%Z.
Proof. apply Z.ltb_lt. Qed.
Lemma Z_ltb_false x y : (x <? y)%Z = false -> (y <= x)%Z.
Proof. apply Z.ltb_ge. Qed.
Lemma Z_eqb_true x y : (x =? y)%Z = true -> x = y.
Proof. apply Z.eqb_eq. Qed.
Lemma Z_eqb_false x y : (x =? y)%Z = false -> x <> y.
Proof. apply Z.eqb_neq. Qed.

Ltac zb :=
  repeat match goal with
  | H : (_ <=? _)%Z = true |- _ => apply Z_leb_true in H
  | H : (_ <=? _)%Z = false |- _ => apply Z_leb_false in H
  | H : (_ <? _)%Z = true |- _ => apply Z_ltb_true in H
  | H : (_ <? _)%Z = false |- _ => apply Z_ltb_false in H
  | H : (_ =? _)%Z = true |- _ => apply Z_eqb_true in H
  | H : (_ =? _)%Z = false |- _ => apply Z_eqb_false in H
  | H : (_ && _) = true |- _ => apply andb_prop in H; destruct H
  | H : (_ || _) = false |- _ => apply orb_false_elim in H; destruct H
  | H : negb _ = true |- _ => apply negb_true_iff in H
  | H : negb _ = false |- _ => apply negb_false_iff in H
  end.

Ltac case_bool :=
  match goal with
  | |- context [if ?b then _ else _] => let E := fresh "E" in destruct b eqn:E
  | H : context [if ?b then _ else _] |- _ => let E := fresh "E" in destruct b eqn:E
  end.

(** Boolean tests of a decidable proposition, used as conditions in executable
    definitions. *)
Lemma bool_decide_true_iff (P : Prop) `{Decision P} : bool_decide P = true <-> P.
Proof. rewrite bool_decide_eq_true. tauto. Qed.

(** Checking a property of every integer of a range by evaluation. *)
Fixpoint forallb_range (fuel : nat) (from : Z) (p : Z -> bool) : bool :=
  match fuel with
  | O => true
  | S fuel => p from && forallb_range fuel (from + 1) p
  end.

Lemma forallb_range_spec fuel from p :
  forallb_range fuel from p = true ->
  forall z, (from <= z < from + Z.of_nat fuel)%Z -> p z = true.
Proof.
  revert from; induction fuel as [|fuel IH]; intros from H z Hz; [lia|].
  simpl in H. apply andb_prop in H as [H1 H2].
  destruct (decide (z = from)) as [->|]; [done|]. apply (IH (from + 1)%Z); [done|lia].
Qed.

(** ** Stable sorting *)

(** A stable sort ([Array.prototype.sort] with a consistent comparison). *)
Fixpoint insert_by {A} (le : A -> A -> bool) (x : A) (l : list A) : list A :=
  match l with
  | [] => [x]
  | y :: l' => if le x y then x :: l else y :: insert_by le x l'
  end.
Fixpoint sort_by {A} (le : A -> A -> bool) (l : list A) : list A :=
  match l with [] => [] | x :: l => insert_by le x (sort_by le l) end.

Lemma insert_by_perm {A} (le : A -> A -> bool) x l : insert_by le x l ≡ₚ x :: l.
Proof.
  induction l as [|y l IH]; simpl; [done|]. case_bool; [done|].
  rewrite IH. constructor.
Qed.

Lemma sort_by_perm {A} (le : A -> A -> bool) l : sort_by le l ≡ₚ l.
Proof. induction l as [|x l IH]; simpl; [done|]. by rewrite insert_by_perm, IH. Qed.

Lemma sort_by_head {A} (le : A -> A -> bool) l x :
  (forall a b, le a b = true \/ le b a = true) ->
  (forall a b c, le a b = true -> le b c = true -> le a c = true) ->
  head (sort_by le l) = Some x -> forall y, y ∈ l -> le x y = true.
Proof.
  intros Htot Htrans. revert x; induction l as [|a l IH]; intros x Hx y Hy; [by apply elem_of_nil in Hy|].
  assert (Hrefl : forall a, le a a = true) by (intros b; by destruct (Htot b b)).
  simpl in Hx. destruct (sort_by le l) as [|b s] eqn:Es; simpl in Hx.
  - assert (l = []) as -> by (apply Permutation_nil; rewrite <- Es; apply sort_by_perm).
    apply list_elem_of_singleton in Hy as ->. by simplify_eq.
  - specialize (IH b eq_refl). destruct (le a b) eqn:E; simplify_eq/=;
      apply elem_of_cons in Hy as [->|Hy]; [done|eauto| |by apply IH].
    destruct (Htot x a) as [|H]; congruence.
Qed.

(** ** Shared hints *)
Create HintDb propr discriminated.
#[export] Hint Resolve Z.le_refl Z.lt_le_incl : propr.

(** stdpp blocks the reduction of string append; the lemmas below compute with it. *)
#[global] Arguments String.append !_ _ : simpl nomatch.

(** ** Filtered lists and maps *)

Lemma length_filter_fmap {A B} (f : A -> B) (P : B -> Prop) (Q : A -> Prop) `{forall x, Decision (P x)} `{forall x, Decision (Q x)} (l : list A) :
  (forall x, Q x <-> P (f x)) -> length (filter P (f <$> l)) = length (filter Q l).
Proof.
  intros HPQ. induction l as [|x l IH]; [done|]. simpl. rewrite !filter_cons.
  destruct (decide (P (f x))), (decide (Q x)); simpl; [by f_equal|naive_solver..|done].
Qed.

Lemma map_to_list_filter `{Countable K} {A} (P : K * A -> Prop) `{forall x, Decision (P x)} (m : gmap K A) :
  map_to_list (filter P m) ≡ₚ filter P (map_to_list m).
Proof.
  apply NoDup_Permutation; [apply NoDup_map_to_list|apply NoDup_filter, NoDup_map_to_list|].
  intros [k x]. rewrite list_elem_of_filter, !elem_of_map_to_list, map_lookup_filter_Some. tauto.
Qed.
