(* ===== verification/JsString.v ===== *)
(** * JavaScript strings

    The string operations of the language the source uses, on Rocq strings whose
    characters stand for the UTF-16 code units 0-255 (Latin-1). Within that range
    every operation is the language's own: the white space of [trim] and of [\s]
    is the tab, line feed, vertical tab, form feed, carriage return, space and
    no-break space, and [toLowerCase] maps A-Z and the accented capitals.
    Code units above 255 (among them U+2028 and U+2029) are outside the model. *)

From S2P Require Import Prelude.

Open Scope string_scope.

(** The code unit of a character. *)
Definition code (c : ascii) : Z := Z.of_N (Ascii.N_of_ascii c).
Definition char (n : N) : ascii := Ascii.ascii_of_N n.
(** The one-character string of a double quote. *)
Definition dquote : string := String (char 34) "".
Definition newline : ascii := char 10.

Definition is_space (c : ascii) : bool :=
  let n := code c in ((9 <=? n) && (n <=? 13) || (n =? 32) || (n =? 160))%Z.

Definition is_digit (c : ascii) : bool :=
  let n := code c in ((48 <=? n) && (n <=? 57))%Z.

Definition lower_char (c : ascii) : ascii :=
  let n := code c in
  if ((65 <=? n) && (n <=? 90) || (192 <=? n) && (n <=? 222) && negb (n =? 215))%Z
  then char (Ascii.N_of_ascii c + 32) else c.

Fixpoint map_string (f : ascii -> ascii) (s : string) : string :=
  match s with "" => "" | String c s => String (f c) (map_string f s) end.

Definition to_lower (s : string) : string := map_string lower_char s.

Fixpoint chars (s : string) : list ascii :=
  match s with "" => [] | String c s => c :: chars s end.
Fixpoint of_chars (l : list ascii) : string :=
  match l with [] => "" | c :: l => String c (of_chars l) end.

Fixpoint trim_start (s : string) : string :=
  match s with
  | "" => ""
  | String c s' => if is_space c then trim_start s' else s
  end.

(** Whether every character is white space ([!s.trim()]). *)
Fixpoint is_blank (s : string) : bool :=
  match s with "" => true | String c s => is_space c && is_blank s end.

Fixpoint trim_end (s : string) : string :=
  match s with
  | "" => ""
  | String c s' => if is_space c && is_blank s' then "" else String c (trim_end s')
  end.

Definition trim (s : string) : string := trim_end (trim_start s).

(** [s.split(sep)] for a one-character separator. *)
Fixpoint split_char (sep : ascii) (s : string) : list string :=
  match s with
  | "" => [""]
  | String c s =>
      if bool_decide (c = sep) then "" :: split_char sep s
      else match split_char sep s with
           | [] => [String c ""]
           | p :: ps => String c p :: ps
           end
  end.

(** [s.split(/\s+/).filter(Boolean)]: the maximal runs of non-space characters. *)
Fixpoint words_from (cur : string) (s : string) : list string :=
  match s with
  | "" => match cur with "" => [] | _ => [cur] end
  | String c s =>
      if is_space c
      then match cur with "" => words_from "" s | _ => cur :: words_from "" s end
      else words_from (cur ++ String c "") s
  end.
Definition words (s : string) : list string := words_from "" s.

Fixpoint starts_with (p s : string) : bool :=
  match p, s with
  | "", _ => true
  | String a p, String b s => bool_decide (a = b) && starts_with p s
  | _, _ => false
  end.

(** [s.slice(n)] *)
Fixpoint drop (n : nat) (s : string) : string :=
  match n, s with
  | O, _ => s
  | S n, String _ s => drop n s
  | S _, "" => ""
  end.
(** [s.slice(0, n)] *)
Fixpoint take (n : nat) (s : string) : string :=
  match n, s with
  | S n, String c s => String c (take n s)
  | _, _ => ""
  end.

(** [s.includes(p)] *)
Fixpoint includes (p s : string) : bool :=
  starts_with p s || match s with EmptyString => false | String _ s' => includes p s' end.

(** The index of the first character satisfying [p]. *)
Fixpoint find_index (p : ascii -> bool) (s : string) : option nat :=
  match s with
  | "" => None
  | String c s => if p c then Some O else S <$> find_index p s
  end.
Definition index_of (c : ascii) (s : string) : option nat :=
  find_index (fun x => bool_decide (x = c)) s.

Definition includes_char (c : ascii) (s : string) : bool :=
  match index_of c s with Some _ => true | None => false end.

(** [/^\d+$/.test(s)] *)
Definition all_digits (s : string) : bool :=
  match s with "" => false | _ => forallb is_digit (chars s) end.

(** [Number(s)] of a digit string. *)
Fixpoint digits_value (acc : Z) (s : string) : Z :=
  match s with
  | "" => acc
  | String c s => digits_value (acc * 10 + (code c - 48)) s
  end.
Definition number_of_digits (s : string) : Z := digits_value 0 s.

(** [Number.MAX_SAFE_INTEGER] *)
Definition MAX_SAFE_INTEGER : Z := 9007199254740991.

(** [parts.join(sep)] *)
Fixpoint join (sep : string) (l : list string) : string :=
  match l with
  | [] => ""
  | [s] => s
  | s :: l => s ++ sep ++ join sep l
  end.

(** [String(n)] of an integer. *)
Definition show (n : Z) : string := pretty n.

(** The order of [Array.prototype.sort] on strings: by code units. *)
Fixpoint code_le (a b : string) : bool :=
  match a, b with
  | EmptyString, _ => true
  | _, EmptyString => false
  | String x a, String y b => ((code x <? code y) || (code x =? code y) && code_le a b)%Z
  end.

(** A string in a boolean context: the empty string counts as absent. *)
Definition truthy_string (s : option string) : option string :=
  match s with Some "" => None | _ => s end.

(** ** Lemmas *)

Lemma code_range c : (0 <= code c < 256)%Z.
Proof.
  unfold code. pose proof (Ascii.N_ascii_bounded c). lia.
Qed.

Lemma of_chars_chars s : of_chars (chars s) = s.
Proof. induction s; simpl; congruence. Qed.

Lemma chars_of_chars l : chars (of_chars l) = l.
Proof. induction l; simpl; congruence. Qed.

Lemma chars_app s t : chars (s ++ t) = (chars s ++ chars t)%list.
Proof. induction s; simpl; congruence. Qed.

Lemma split_char_nonnil sep s : split_char sep s <> [].
Proof. destruct s; simpl; [done|]. case_bool_decide; [done|]. by destruct split_char. Qed.

Lemma digits_value_acc acc s :
  (digits_value acc s = acc * 10 ^ Z.of_nat (String.length s) + digits_value 0 s)%Z.
Proof.
  revert acc; induction s as [|c s IH]; intros acc; [simpl; lia|].
  cbn [digits_value String.length]. rewrite IH, (IH (0 * 10 + _)%Z).
  rewrite Nat2Z.inj_succ, Z.pow_succ_r by lia. lia.
Qed.

Lemma number_of_digits_nonneg s :
  all_digits s = true -> (0 <= number_of_digits s)%Z.
Proof.
  unfold number_of_digits. intros H.
  assert (Hd : forallb is_digit (chars s) = true) by (destruct s; [done|exact H]).
  clear H. assert (Hgen : forall acc, (0 <= acc -> 0 <= digits_value acc s)%Z); [|by apply Hgen].
  induction s as [|c s IH]; intros acc Hacc; [done|].
  simpl in Hd. apply andb_prop in Hd as [Hc Hd].
  unfold is_digit in Hc. zb. apply (IH Hd). lia.
Qed.

Lemma trim_blank s : trim s = "" -> is_blank s = true.
Proof.
  unfold trim. assert (Hend : forall t, trim_end t = "" -> is_blank t = true).
  { induction t as [|c t IH]; [done|]. simpl.
    destruct (is_space c && is_blank t) eqn:E; [done|discriminate]. }
  intros H. apply Hend in H. clear Hend. induction s as [|c s IH]; [done|].
  simpl in *. destruct (is_space c) eqn:E; [by apply IH|].
  simpl in H. by rewrite E in H.
Qed.

Lemma blank_trim s : is_blank s = true -> trim s = "".
Proof.
  unfold trim. intros H. assert (Hs : trim_start s = ""); [|by rewrite Hs].
  induction s as [|c s IH]; [done|]. simpl in *. apply andb_prop in H as [-> H]. auto.
Qed.

Lemma starts_with_refl s : starts_with s s = true.
Proof. induction s; simpl; [done|]. by rewrite bool_decide_true. Qed.

Lemma starts_with_app p s : starts_with p (p ++ s) = true.
Proof. induction p; simpl; [done|]. by rewrite bool_decide_true. Qed.

Lemma starts_with_true p s : starts_with p s = true -> exists r, s = p ++ r.
Proof.
  revert s; induction p as [|a p IH]; intros s H; [by exists s|].
  destruct s as [|b s]; [done|]. simpl in H. apply andb_prop in H as [H1 H2].
  apply bool_decide_eq_true in H1 as ->. destruct (IH _ H2) as [r ->]. by exists r.
Qed.

Lemma code_le_total a b : code_le a b = true \/ code_le b a = true.
Proof.
  revert b; induction a as [|x a IH]; intros [|y b]; simpl; auto.
  destruct (Z.lt_trichotomy (code x) (code y)) as [H|[->|H]].
  - left. by rewrite (proj2 (Z.ltb_lt _ _) H).
  - rewrite Z.ltb_irrefl, Z.eqb_refl. simpl. auto.
  - right. by rewrite (proj2 (Z.ltb_lt _ _) H).
Qed.

Lemma code_le_trans a b c : code_le a b = true -> code_le b c = true -> code_le a c = true.
Proof.
  revert b c; induction a as [|x a IH]; intros [|y b] [|z c] H1 H2; simpl in *; try done.
  apply orb_true_iff in H1, H2. apply orb_true_iff.
  destruct H1 as [H1|H1], H2 as [H2|H2]; zb; try (left; apply Z.ltb_lt; lia).
  right. apply andb_true_intro. split; [apply Z.eqb_eq; lia|eauto].
Qed.
