(* ===== verification/Json.v ===== *)
(** * JSON values and amounts

    The values [JSON.parse] returns (finite numbers are rationals), the accessors the
    source uses on them, and [Math.min], [Math.max] and sums of amounts. *)

From S2P Require Import Prelude JsString.
From Stdlib Require Export QArith Lqa.

Open Scope Q_scope.
Open Scope list_scope.

Inductive json :=
  | JNull
  | JBool (b : bool)
  | JNum (q : Q)
  | JStr (s : string)
  | JArr (l : list json)
  | JObj (fields : list (string * json)).

#[export] Instance Q_eq_decision : EqDecision Q.
Proof. solve_decision. Defined.
#[export] Instance json_eq_dec : EqDecision json.
Proof.
  hnf. fix go 1. intros x y. unfold Decision.
  destruct x as [|b|q|s|l|fs], y as [|b'|q'|s'|l'|fs']; try (right; discriminate); [by left|..].
  - destruct (decide (b = b')); [left|right]; congruence.
  - destruct (decide (q = q')); [left|right]; congruence.
  - destruct (decide (s = s')); [left|right]; congruence.
  - destruct (@list_eq_dec _ go l l'); [left|right]; congruence.
  - destruct (@list_eq_dec _ (@prod_eq_dec _ _ _ go) fs fs'); [left|right]; congruence.
Defined.

(** [o.k] of an object: the last field of that name, or [undefined]. *)
Definition field (k : string) (fields : list (string * json)) : option json :=
  snd <$> find (fun f => bool_decide (fst f = k)) (rev fields).

(** The value is an object that is not an array. *)
Definition as_record (v : option json) : option (list (string * json)) :=
  match v with Some (JObj fs) => Some fs | _ => None end.
(** [typeof v === 'string' && v] *)
Definition as_text (v : option json) : option string :=
  match v with Some (JStr s) => truthy_string (Some s) | _ => None end.
(** [a ?? b] *)
Definition nullish (a b : option json) : option json :=
  match a with None | Some JNull => b | _ => a end.

(** [o[k] = v], and the object [{ ...a, ...b }]. *)
Definition set_field (k : string) (v : json) (fields : list (string * json)) : list (string * json) :=
  if existsb (fun f => bool_decide (fst f = k)) fields
  then map (fun f => if bool_decide (fst f = k) then (k, v) else f) fields
  else fields ++ [(k, v)].
Definition spread (a b : list (string * json)) : list (string * json) :=
  foldl (fun acc f => set_field (fst f) (snd f) acc) a b.

(** [v === true] and [v === s]. *)
Definition is_true (v : option json) : bool := match v with Some (JBool b) => b | _ => false end.
Definition is_text (s : string) (v : option json) : bool :=
  match v with Some (JStr t) => bool_decide (t = s) | _ => false end.

(** [Boolean(v)] of a value. *)
Definition truthy_json (v : option json) : bool :=
  match v with
  | None | Some JNull => false
  | Some (JBool b) => b
  | Some (JNum q) => negb (Qeq_bool q 0)
  | Some (JStr s) => negb (bool_decide (s = ""%string))
  | Some _ => true
  end.

Lemma field_cons k f fields :
  field k (f :: fields) = match field k fields with Some v => Some v | None => if bool_decide (fst f = k) then Some (snd f) else None end.
Proof.
  unfold field. simpl. generalize (rev fields). intros l. induction l as [|g l IH]; simpl.
  - by destruct (bool_decide (fst f = k)).
  - by destruct (bool_decide (fst g = k)).
Qed.

Lemma field_app k a b : field k (a ++ b) = match field k b with Some v => Some v | None => field k a end.
Proof.
  induction a as [|f a IH]; simpl; [by destruct (field k b)|]. rewrite !field_cons, IH. by destruct (field k b).
Qed.

Lemma field_absent k fields : existsb (fun f : string * json => bool_decide (fst f = k)) fields = false -> field k fields = None.
Proof.
  induction fields as [|f fields IH]; simpl; [done|]. intros [H1 H2]%orb_false_elim. by rewrite field_cons, IH, H1.
Qed.

Lemma field_present k fields : existsb (fun f : string * json => bool_decide (fst f = k)) fields = true -> field k fields <> None.
Proof.
  induction fields as [|f fields IH]; simpl; [done|]. rewrite field_cons. intros [H|H]%orb_true_elim.
  - rewrite H. by destruct (field k fields).
  - specialize (IH H). by destruct (field k fields).
Qed.

Lemma field_replaced k k' v fields :
  field k (map (fun f : string * json => if bool_decide (fst f = k') then (k', v) else f) fields)
  = if bool_decide (k = k') then (fun _ => v) <$> field k fields else field k fields.
Proof.
  induction fields as [|f fields IH]; simpl; [by case_bool_decide|]. rewrite !field_cons, IH.
  destruct (decide (fst f = k')) as [Hf|Hf].
  - rewrite (bool_decide_eq_true_2 (fst f = k')) by done. simpl. subst k'.
    rewrite (bool_decide_ext (k = fst f) (fst f = k)) by done.
    destruct (bool_decide (fst f = k)); by destruct (field k fields).
  - rewrite (bool_decide_eq_false_2 (fst f = k')) by done. case_bool_decide as Hk; [|done]. subst k'.
    rewrite (bool_decide_eq_false_2 (fst f = k)) by done. by destruct (field k fields).
Qed.

Lemma field_set_field k k' v fields :
  field k (set_field k' v fields) = if bool_decide (k = k') then Some v else field k fields.
Proof.
  unfold set_field. destruct (existsb _ fields) eqn:E.
  - rewrite field_replaced. case_bool_decide as Hk; [|done]. subst. apply field_present in E. by destruct (field k' fields).
  - rewrite field_app. unfold field at 1. simpl. rewrite <- (bool_decide_ext (k = k') (k' = k)) by done.
    by case_bool_decide.
Qed.

Lemma field_spread k a b : field k (spread a b) = match field k b with Some v => Some v | None => field k a end.
Proof.
  unfold spread. revert a; induction b as [|f b IH]; intros a; simpl; [done|].
  rewrite IH, field_set_field, field_cons. destruct (field k b); [done|].
  rewrite (bool_decide_ext (fst f = k) (k = fst f)) by done. by case_bool_decide.
Qed.

(** ** Amounts *)

(** [Math.max] and [Math.min] of finite numbers. *)
Definition Math_max (a b : Q) : Q := if Qle_bool a b then b else a.
Definition Math_min (a b : Q) : Q := if Qle_bool a b then a else b.
Definition sumQ (l : list Q) : Q := foldr Qplus 0 l.

(** [Number.isSafeInteger] *)
Definition safe_integer (q : Q) : option Z :=
  let q := Qred q in
  if (Z.pos (Qden q) =? 1)%Z && (Z.abs (Qnum q) <=? MAX_SAFE_INTEGER)%Z then Some (Qnum q) else None.

(** [String(x)] of a number with a decimal fraction of at most twenty digits *)
Fixpoint decimals (fuel : nat) (rest whole : Z) : string :=
  match fuel with
  | O => ""
  | S fuel => if (rest =? 0)%Z then "" else show (10 * rest / whole) ++ decimals fuel (10 * rest mod whole) whole
  end%string.
Definition show_number (q : Q) : string :=
  let q := Qred q in
  let n := Z.abs (Qnum q) in
  let d := Z.pos (Qden q) in
  ((if (Qnum q <? 0)%Z then "-" else "") ++ show (n / d) ++ (if (n mod d =? 0)%Z then "" else "." ++ decimals 20 (n mod d) d))%string.

Lemma Qle_bool_true a b : Qle_bool a b = true -> a <= b.
Proof. apply Qle_bool_iff. Qed.
Lemma Qle_bool_false a b : Qle_bool a b = false -> b < a.
Proof. intros H. apply Qnot_le_lt. intros Hle. apply Qle_bool_iff in Hle. congruence. Qed.

(** [qb] turns comparisons of amounts into inequalities; [qcases] splits the
    minima and maxima of the goal and the hypotheses. *)
Ltac qb :=
  repeat match goal with
  | H : Qle_bool _ _ = true |- _ => apply Qle_bool_true in H
  | H : Qle_bool _ _ = false |- _ => apply Qle_bool_false in H
  | H : negb _ = true |- _ => apply negb_true_iff in H
  | H : negb _ = false |- _ => apply negb_false_iff in H
  end.

Lemma Math_max_l a b : a <= Math_max a b.
Proof. unfold Math_max. destruct (Qle_bool a b) eqn:E; qb; lra. Qed.
Lemma Math_max_r a b : b <= Math_max a b.
Proof. unfold Math_max. destruct (Qle_bool a b) eqn:E; qb; lra. Qed.
Lemma Math_max_lub a b c : a <= c -> b <= c -> Math_max a b <= c.
Proof. unfold Math_max. destruct (Qle_bool a b) eqn:E; qb; lra. Qed.
Lemma Math_min_l a b : Math_min a b <= a.
Proof. unfold Math_min. destruct (Qle_bool a b) eqn:E; qb; lra. Qed.
Lemma Math_min_r a b : Math_min a b <= b.
Proof. unfold Math_min. destruct (Qle_bool a b) eqn:E; qb; lra. Qed.
Lemma Math_min_glb a b c : c <= a -> c <= b -> c <= Math_min a b.
Proof. unfold Math_min. destruct (Qle_bool a b) eqn:E; qb; lra. Qed.
Lemma Math_max_idem a b : Math_max (Math_max a b) b = Math_max a b.
Proof.
  unfold Math_max. destruct (Qle_bool a b) eqn:E; [|by rewrite E]. by destruct (Qle_bool b b).
Qed.
