(* ===== verification/Calendar.v ===== *)
(** * The UTC calendar of the JavaScript [Date]

    Time values are integers: milliseconds since 1970-01-01T00:00:00Z. This file
    holds the parts of the language's [Date] the source uses (the UTC getters and
    [Date.UTC]) and the facts about the proleptic Gregorian calendar that the cron
    evaluator relies on: the calendar repeats every 400 years, and rebuilding a
    date from its own fields gives the same day. The range check of [Date]
    (8.64e15 ms on either side of the epoch) is outside the model. *)

From S2P Require Import Prelude.

Open Scope Z_scope.

Definition SECOND_MS : Z := 1000.
Definition MINUTE_MS : Z := 60000.
Definition HOUR_MS : Z := 3600000.
Definition DAY_MS : Z := 86400000.

(** Days from 1970-01-01 to the given date; months count from 1. Years start in
    March, so the leap day is the last day of the computational year. *)
Definition days_from_civil (y m d : Z) : Z :=
  let y' := if m <=? 2 then y - 1 else y in
  let era := y' / 400 in
  let yoe := y' mod 400 in
  let mp := if m <=? 2 then m + 9 else m - 3 in
  era * 146097 + (yoe * 365 + yoe / 4 - yoe / 100 + ((153 * mp + 2) / 5 + d - 1)) - 719468.

(** Year of era, day of year and month of a day of the 146,097-day era. *)
Definition yoe_of (doe : Z) : Z := (doe - doe / 1460 + doe / 36524 - doe / 146096) / 365.
Definition doy_of (doe : Z) : Z := doe - (365 * yoe_of doe + yoe_of doe / 4 - yoe_of doe / 100).
Definition mp_of (doe : Z) : Z := (5 * doy_of doe + 2) / 153.

Definition civil_from_days (z : Z) : Z * Z * Z :=
  let era := (z + 719468) / 146097 in
  let doe := (z + 719468) mod 146097 in
  let mp := mp_of doe in
  let m := if mp <? 10 then mp + 3 else mp - 9 in
  let y := yoe_of doe + era * 400 + (if m <=? 2 then 1 else 0) in
  (y, m, doy_of doe - (153 * mp + 2) / 5 + 1).

Definition day_of (t : Z) : Z := t / DAY_MS.
Definition getUTCFullYear (t : Z) : Z := fst (fst (civil_from_days (day_of t))).
Definition getUTCMonth (t : Z) : Z := snd (fst (civil_from_days (day_of t))) - 1.
Definition getUTCDate (t : Z) : Z := snd (civil_from_days (day_of t)).
Definition getUTCDay (t : Z) : Z := (day_of t + 4) mod 7.
Definition getUTCHours (t : Z) : Z := (t / HOUR_MS) mod 24.
Definition getUTCMinutes (t : Z) : Z := (t / MINUTE_MS) mod 60.

(** [Date.UTC(y, month, date, hours)]; months count from 0, fields may overflow,
    and a year from 0 to 99 means 1900 to 1999. *)
Definition Date_UTC (y month date hours : Z) : Z :=
  let yr := if (0 <=? y) && (y <=? 99) then 1900 + y else y in
  (days_from_civil (yr + month / 12) (month mod 12 + 1) 1 + date - 1) * DAY_MS + hours * HOUR_MS.

Definition is_leap (y : Z) : bool :=
  (y mod 4 =? 0) && (negb (y mod 100 =? 0) || (y mod 400 =? 0)).
Definition days_in_month (y m : Z) : Z :=
  if m =? 2 then (if is_leap y then 29 else 28)
  else if (m =? 4) || (m =? 6) || (m =? 9) || (m =? 11) then 30 else 31.

(** ** The day count follows the Gregorian rules *)

Lemma epoch_is_day_zero : days_from_civil 1970 1 1 = 0.
Proof. reflexivity. Qed.

Lemma days_from_civil_date y m d : days_from_civil y m d = days_from_civil y m 1 + d - 1.
Proof. unfold days_from_civil. lia. Qed.

Ltac euclid := Z.to_euclidean_division_equations; lia.

Lemma days_from_civil_period y m d k :
  days_from_civil (y + k * 400) m d = days_from_civil y m d + k * 146097.
Proof.
  unfold days_from_civil.
  replace (if m <=? 2 then y + k * 400 - 1 else y + k * 400)
    with ((if m <=? 2 then y - 1 else y) + k * 400) by (destruct (m <=? 2); lia).
  rewrite Z.div_add, Z.mod_add by lia. lia.
Qed.

Lemma days_in_month_period y m k : days_in_month (y + k * 400) m = days_in_month y m.
Proof.
  unfold days_in_month, is_leap.
  replace (y + k * 400) with (y + (k * 100) * 4) at 1 by lia.
  replace (y + k * 400) with (y + (k * 4) * 100) at 1 by lia.
  rewrite !Z.mod_add by lia. done.
Qed.

(** The day count of every month of a 400-year cycle, checked by evaluation. *)
Definition month_lengths_ok (y : Z) : bool :=
  forallb_range 11 1 (fun m =>
    days_from_civil y (m + 1) 1 =? days_from_civil y m 1 + days_in_month y m)
  && (days_from_civil (y + 1) 1 1 =? days_from_civil y 12 1 + 31).

Lemma month_lengths_ok_all y : month_lengths_ok (y mod 400) = true.
Proof.
  apply (forallb_range_spec (Z.to_nat 400) 0); [vm_compute; reflexivity|].
  rewrite Z2Nat.id by lia. apply Z.mod_pos_bound. lia.
Qed.

Lemma days_from_civil_next_month y m :
  1 <= m < 12 ->
  days_from_civil y (m + 1) 1 = days_from_civil y m 1 + days_in_month y m.
Proof.
  intros Hm. pose proof (month_lengths_ok_all y) as H. unfold month_lengths_ok in H.
  apply andb_prop in H as [H _]. apply (forallb_range_spec _ _ _ H m) in Hm.
  zb. rewrite (Z.div_mod y 400), (Z.add_comm (400 * _)), (Z.mul_comm 400) by lia.
  rewrite !days_from_civil_period, days_in_month_period. lia.
Qed.

Lemma days_from_civil_next_year y :
  days_from_civil (y + 1) 1 1 = days_from_civil y 12 1 + 31.
Proof.
  pose proof (month_lengths_ok_all y) as H. unfold month_lengths_ok in H. zb.
  rewrite (Z.div_mod y 400), (Z.add_comm (400 * _)), (Z.mul_comm 400) by lia.
  rewrite <- Z.add_assoc, (Z.add_comm (_ * 400) 1), Z.add_assoc.
  rewrite !days_from_civil_period. lia.
Qed.

(** ** Ranges of the fields *)

Lemma yoe_range doe : 0 <= doe < 146097 -> 0 <= yoe_of doe <= 399.
Proof. intros H. unfold yoe_of. euclid. Qed.

Lemma doy_range doe : 0 <= doe < 146097 -> 0 <= doy_of doe <= 365.
Proof.
  intros H. pose proof (yoe_range doe H) as Hy. unfold doy_of, yoe_of in *.
  assert (doe / 146096 = 0 \/ doe / 146096 = 1) as Hc by euclid.
  assert (doe / 36524 = 0 \/ doe / 36524 = 1 \/ doe / 36524 = 2 \/ doe / 36524 = 3
          \/ doe / 36524 = 4) as Hb by euclid.
  destruct Hc as [Hc|Hc]; destruct Hb as [Hb|[Hb|[Hb|[Hb|Hb]]]]; rewrite Hc, Hb in *; euclid.
Qed.

Lemma doe_ranges doe :
  0 <= doe < 146097 ->
  0 <= yoe_of doe <= 399 /\ 0 <= doy_of doe <= 365 /\ 0 <= mp_of doe <= 11
  /\ 0 <= doy_of doe - (153 * mp_of doe + 2) / 5 <= 30.
Proof.
  intros H. pose proof (yoe_range doe H). pose proof (doy_range doe H) as Hd.
  unfold mp_of in *. set (doy := doy_of doe) in *. clearbody doy.
  repeat split; try lia; euclid.
Qed.

Lemma civil_month_range z : 1 <= snd (fst (civil_from_days z)) <= 12.
Proof.
  unfold civil_from_days; simpl.
  pose proof (doe_ranges ((z + 719468) mod 146097) ltac:(apply Z.mod_pos_bound; lia)).
  case_bool; zb; lia.
Qed.

Lemma civil_date_range z : 1 <= snd (civil_from_days z) <= 31.
Proof.
  unfold civil_from_days; simpl.
  pose proof (doe_ranges ((z + 719468) mod 146097) ltac:(apply Z.mod_pos_bound; lia)). lia.
Qed.

(** ** Rebuilding a date from its fields *)

Lemma days_of_civil_of_days z :
  let '(y, m, d) := civil_from_days z in days_from_civil y m d = z.
Proof.
  unfold civil_from_days.
  pose proof (Z.div_mod (z + 719468) 146097 ltac:(lia)) as Hz.
  pose proof (Z.mod_pos_bound (z + 719468) 146097 ltac:(lia)) as Hb.
  set (era := (z + 719468) / 146097) in *. set (doe := (z + 719468) mod 146097) in *.
  destruct (doe_ranges doe Hb) as (Hy & Hd & Hm & _).
  assert (Hdoy : doy_of doe = doe - (365 * yoe_of doe + yoe_of doe / 4 - yoe_of doe / 100)) by reflexivity.
  set (yoe := yoe_of doe) in *. set (mp := mp_of doe) in *. set (doy := doy_of doe) in *.
  clearbody era doe yoe mp doy.
  unfold days_from_civil.
  set (m := if mp <? 10 then mp + 3 else mp - 9).
  assert (Hmp : (if m <=? 2 then m + 9 else m - 3) = mp).
  { subst m. destruct (mp <? 10) eqn:E; zb; case_bool; zb; lia. }
  assert (Hy' : (if m <=? 2 then yoe + era * 400 + (if m <=? 2 then 1 else 0) - 1
                 else yoe + era * 400 + (if m <=? 2 then 1 else 0)) = yoe + era * 400).
  { destruct (m <=? 2); lia. }
  rewrite Hmp, Hy'. rewrite Z.div_add, Z.div_small by lia.
  rewrite Z.mod_add, Z.mod_small by lia. lia.
Qed.

Lemma civil_from_days_period z :
  civil_from_days (z + 146097) =
  let '(y, m, d) := civil_from_days z in (y + 400, m, d).
Proof.
  unfold civil_from_days.
  replace (z + 146097 + 719468) with ((z + 719468) + 1 * 146097) by lia.
  rewrite Z.div_add, Z.mod_add by lia. simpl. do 2 f_equal. lia.
Qed.

(** The year of a day on or after the epoch is at least 1970. *)
Lemma civil_year_after_epoch z : 0 <= z -> 1970 <= fst (fst (civil_from_days z)).
Proof.
  intros Hz. pose proof (days_of_civil_of_days z) as H.
  pose proof (civil_month_range z) as Hm. pose proof (civil_date_range z) as Hd.
  destruct (civil_from_days z) as [[y m] d]; simpl in *.
  destruct (Z.le_gt_cases 1970 y) as [|Hlt]; [done|exfalso].
  unfold days_from_civil in H. destruct (m <=? 2) eqn:E; zb; euclid.
Qed.

(** [Date.UTC] on the fields of a time, with the date and the hour moved. *)
Lemma Date_UTC_fields t dd h :
  0 <= t ->
  Date_UTC (getUTCFullYear t) (getUTCMonth t) (getUTCDate t + dd) h
  = (day_of t + dd) * DAY_MS + h * HOUR_MS.
Proof.
  intros Ht. unfold Date_UTC, getUTCFullYear, getUTCMonth, getUTCDate.
  pose proof (days_of_civil_of_days (day_of t)) as H.
  pose proof (civil_month_range (day_of t)) as Hm.
  pose proof (civil_year_after_epoch (day_of t)) as Hy.
  destruct (civil_from_days (day_of t)) as [[y m] d]; simpl in *.
  assert (1970 <= y) by (apply Hy, Z.div_pos; unfold DAY_MS; lia).
  destruct ((0 <=? y) && (y <=? 99)) eqn:E; [zb; lia|].
  rewrite Z.div_small, Z.mod_small by lia.
  rewrite Z.add_0_r, Z.sub_add. rewrite days_from_civil_date in H. f_equal. nia.
Qed.

(** ** Splitting a time into day, hour and minute *)

Lemma time_split t :
  exists h m r, t = day_of t * DAY_MS + h * HOUR_MS + m * MINUTE_MS + r
    /\ h = getUTCHours t /\ m = getUTCMinutes t
    /\ 0 <= h < 24 /\ 0 <= m < 60 /\ 0 <= r < MINUTE_MS.
Proof.
  exists (getUTCHours t), (getUTCMinutes t), (t mod MINUTE_MS).
  unfold day_of, getUTCHours, getUTCMinutes, DAY_MS, HOUR_MS, MINUTE_MS.
  repeat split; euclid.
Qed.

Lemma fields_of_split d h m r :
  0 <= h < 24 -> 0 <= m < 60 -> 0 <= r < MINUTE_MS ->
  let t := d * DAY_MS + h * HOUR_MS + m * MINUTE_MS + r in
  day_of t = d /\ getUTCHours t = h /\ getUTCMinutes t = m.
Proof.
  intros Hh Hm Hr. unfold day_of, getUTCHours, getUTCMinutes, DAY_MS, HOUR_MS, MINUTE_MS in *.
  repeat split; euclid.
Qed.
