(* ===== verification/Cron.v ===== *)
(** * The cron evaluator (packages/shared/src/cronSchedule.ts)

    Parsing of 5-field cron expressions and macros, the search for the next
    occurrence and the validation of automation schedules. A parsed field is a
    finite set of integers; [nextCronOccurrence] is the source's loop with fuel,
    and [next_fuel] is one step per minute of the 366-day window, which the loop
    never exceeds because every step advances the time by at least a minute. *)

From S2P Require Import Prelude JsString Calendar.

Open Scope string_scope.
Open Scope Z_scope.

Definition MIN_AUTOMATION_SCHEDULE_INTERVAL_MINUTES : Z := 15.
Definition AUTOMATION_SCHEDULE_MAX_LENGTH : nat := 128.
Definition CRON_SEARCH_LIMIT_DAYS : Z := 366.

Definition CRON_MACROS : list (string * string) :=
  [("@hourly", "0 * * * *"); ("@daily", "0 0 * * *");
   ("@weekly", "0 0 * * 0"); ("@monthly", "0 0 1 * *")].

Record ParsedCronExpression := {
  minutes : gset Z;
  hours : gset Z;
  daysOfMonth : gset Z;
  months : gset Z;
  daysOfWeek : gset Z;
  daysOfMonthRestricted : bool;
  daysOfWeekRestricted : bool;
}.

Record CronFieldSpec := { field_name : string; field_min : Z; field_max : Z }.

Definition CRON_FIELDS : list CronFieldSpec :=
  [ {| field_name := "minute"; field_min := 0; field_max := 59 |};
    {| field_name := "hour"; field_min := 0; field_max := 23 |};
    {| field_name := "day-of-month"; field_min := 1; field_max := 31 |};
    {| field_name := "month"; field_min := 1; field_max := 12 |};
    {| field_name := "day-of-week"; field_min := 0; field_max := 7 |} ].

(** ** Parsing *)

Definition parseCronNumber (value : string) (field : CronFieldSpec) : result Z :=
  if negb (all_digits value)
  then Throw ("Invalid " ++ field_name field ++ " value " ++ dquote ++ value ++ dquote)
  else
    let parsed := number_of_digits value in
    if (parsed <? field_min field) || (field_max field <? parsed)
    then Throw (field_name field ++ " value " ++ show parsed ++ " is out of range "
                ++ show (field_min field) ++ "-" ++ show (field_max field))
    else Ok parsed.

(** [for (let value = start; value <= end; value += step) values.add(value)] *)
Fixpoint add_steps (fuel : nat) (value stop step : Z) (values : gset Z) : gset Z :=
  match fuel with
  | O => values
  | S fuel =>
      if value <=? stop
      then add_steps fuel (value + step) stop step ({[value]} ∪ values)
      else values
  end.

Definition parseCronStep (stepPart : option string) (field : CronFieldSpec) : result Z :=
  match stepPart with
  | None => Ok 1
  | Some s =>
      if negb (all_digits s) || (number_of_digits s <? 1)
      then Throw ("Invalid " ++ field_name field ++ " step " ++ dquote ++ s ++ dquote)
      else Ok (number_of_digits s)
  end.

Definition parseCronBounds (rangePart : string) (hasStep : bool) (field : CronFieldSpec)
    : result (Z * Z) :=
  let bad := Throw ("Invalid " ++ field_name field ++ " range " ++ dquote ++ rangePart ++ dquote) in
  if bool_decide (rangePart = "*") then Ok (field_min field, field_max field)
  else if includes_char "-"%char rangePart then
    match split_char "-"%char rangePart with
    | [lo; hi] =>
        start ← parseCronNumber lo field;
        stop ← parseCronNumber hi field;
        if stop <? start then bad else Ok (start, stop)
    | _ => bad
    end
  else
    start ← parseCronNumber rangePart field;
    Ok (start, if hasStep then field_max field else start).

Definition parseCronPart (source : string) (field : CronFieldSpec)
    (values : gset Z) (part : string) : result (gset Z) :=
  let invalid := Throw ("Invalid " ++ field_name field ++ " field " ++ dquote ++ source ++ dquote) in
  match split_char "/"%char part with
  | rangePart :: rest =>
      if (1 <? length rest)%nat || bool_decide (rangePart = "") then invalid
      else
        step ← parseCronStep (head rest) field;
        '(start, stop) ← parseCronBounds rangePart (bool_decide (rest <> [])) field;
        Ok (add_steps (Z.to_nat (stop - start + 1)) start stop step values)
  | [] => invalid
  end.

Definition parseCronField (source : string) (field : CronFieldSpec) : result (gset Z) :=
  result_foldl (parseCronPart source field) ∅ (split_char ","%char source).

Definition expand_macro (trimmed : string) : string :=
  match list_find (fun kv => fst kv = to_lower trimmed) CRON_MACROS with
  | Some (_, (_, expansion)) => expansion
  | None => trimmed
  end.

(** The day-of-week set with 7 normalized to 0. *)
Definition normalize_days_of_week (raw : gset Z) : gset Z :=
  set_map (fun day => if day =? 7 then 0 else day) raw.

Definition parseCronExpression (expr : string) : result ParsedCronExpression :=
  let trimmed := trim expr in
  let expanded := expand_macro trimmed in
  if starts_with "@" expanded
  then Throw ("Unsupported cron macro " ++ dquote ++ trimmed ++ dquote)
  else
    match words expanded with
    | [p0; p1; p2; p3; p4] as parts =>
        sets ← result_map (fun '(part, field) => parseCronField part field) (zip parts CRON_FIELDS);
        match sets with
        | [mins; hrs; doms; mons; rawDows] =>
            Ok {| minutes := mins; hours := hrs; daysOfMonth := doms; months := mons;
                  daysOfWeek := normalize_days_of_week rawDows;
                  daysOfMonthRestricted := negb (starts_with "*" p2);
                  daysOfWeekRestricted := negb (starts_with "*" p4) |}
        | _ => Throw "unreachable"
        end
    | _ => Throw "Cron expression must have 5 fields: minute hour day-of-month month day-of-week"
    end.

(** ** Next occurrence *)

Definition has (s : gset Z) (x : Z) : bool := bool_decide (x ∈ s).

Definition cronDayMatches (cron : ParsedCronExpression) (date : Z) : bool :=
  if negb (has (months cron) (getUTCMonth date + 1)) then false
  else
    let domMatches := has (daysOfMonth cron) (getUTCDate date) in
    let dowMatches := has (daysOfWeek cron) (getUTCDay date) in
    if daysOfMonthRestricted cron && daysOfWeekRestricted cron
    then domMatches || dowMatches
    else domMatches && dowMatches.

Definition NO_OCCURRENCE : string :=
  "Cron expression has no occurrence within " ++ show CRON_SEARCH_LIMIT_DAYS ++ " days".

Fixpoint next_loop (fuel : nat) (cron : ParsedCronExpression) (limit time : Z)
    : option (result Z) :=
  match fuel with
  | O => None
  | S fuel =>
      if time <=? limit then
        if negb (cronDayMatches cron time) then
          next_loop fuel cron limit
            (Date_UTC (getUTCFullYear time) (getUTCMonth time) (getUTCDate time + 1) 0)
        else if negb (has (hours cron) (getUTCHours time)) then
          next_loop fuel cron limit
            (Date_UTC (getUTCFullYear time) (getUTCMonth time) (getUTCDate time) (getUTCHours time + 1))
        else if has (minutes cron) (getUTCMinutes time) then Some (Ok time)
        else next_loop fuel cron limit (time + MINUTE_MS)
      else Some (Throw NO_OCCURRENCE)
  end.

Definition next_fuel : nat := Z.to_nat (CRON_SEARCH_LIMIT_DAYS * 1440 + 2).

(** The first whole minute after [after], where the search starts. *)
Definition search_start (after : Z) : Z := after / MINUTE_MS * MINUTE_MS + MINUTE_MS.
Definition search_limit (after : Z) : Z := search_start after + CRON_SEARCH_LIMIT_DAYS * DAY_MS.

(** [after] is [None] for an invalid date. The outer [option] is [None] when the
    fuel runs out, which [nextCronOccurrence_returns] excludes. *)
Definition nextCronOccurrence (cron : ParsedCronExpression) (after : option Z)
    : option (result Z) :=
  match after with
  | None => Some (Throw "A valid start date is required")
  | Some after => next_loop next_fuel cron (search_limit after) (search_start after)
  end.

(** The entry with an expression string ([toParsed]). *)
Definition nextCronOccurrence_of (expr : string) (after : option Z) : option (result Z) :=
  match parseCronExpression expr with
  | Throw e => Some (Throw e)
  | Ok cron => nextCronOccurrence cron after
  end.

(** ** Validation of automation schedules *)

(** [for (let i = 1; ...) minimum = Math.min(minimum, xs[i] - xs[i - 1])]; [None]
    stands for [Infinity]. *)
Definition min_opt (m : option Z) (x : Z) : option Z :=
  Some (match m with Some m => Z.min m x | None => x end).

Fixpoint min_gap_from (prev : Z) (xs : list Z) (minimum : option Z) : option Z :=
  match xs with
  | [] => minimum
  | x :: xs => min_gap_from x xs (min_opt minimum (x - prev))
  end.

Definition sorted_elements (s : gset Z) : list Z := merge_sort Z.le (elements s).

Definition timesOfDay (cron : ParsedCronExpression) : list Z :=
  flat_map (fun hour => map (fun minute => hour * 60 + minute) (sorted_elements (minutes cron)))
           (sorted_elements (hours cron)).

Definition DAY_SCAN_START : Z := Date_UTC 2000 0 1 0.
Definition DAY_SCAN_DAYS : Z := 146097.

(** [for (let day = 0; day < DAY_SCAN_DAYS; day += 1) ...] *)
Fixpoint matching_days_from (cron : ParsedCronExpression) (fuel : nat) (day : Z) : list Z :=
  match fuel with
  | O => []
  | S fuel =>
      let rest := matching_days_from cron fuel (day + 1) in
      if cronDayMatches cron (DAY_SCAN_START + day * DAY_MS) then day :: rest else rest
  end.

Definition matchingDayIndexes (cron : ParsedCronExpression) : list Z :=
  matching_days_from cron (Z.to_nat DAY_SCAN_DAYS) 0.

(** [days.some((day, index) => index > 0 && p(day - days[index - 1]))] *)
Fixpoint some_gap (p : Z -> bool) (days : list Z) : bool :=
  match days with
  | d :: (d' :: _) as rest => p (d' - d) || some_gap p rest
  | _ => false
  end.

Definition firesOnConsecutiveDays (matchingDays : list Z) : bool :=
  match matchingDays with
  | [] => false
  | first :: _ =>
      ((first =? 0) && (List.last matchingDays 0 =? DAY_SCAN_DAYS - 1))
      || some_gap (fun gap => gap =? 1) matchingDays
  end.

Definition minimumCronIntervalMinutes (cron : ParsedCronExpression) (matchingDays : list Z)
    : option Z :=
  match timesOfDay cron with
  | [] => None
  | (first :: rest) as times =>
      let minimum := min_gap_from first rest None in
      if firesOnConsecutiveDays matchingDays
      then min_opt minimum (first + 24 * 60 - List.last times 0)
      else minimum
  end.

Definition yearlyGapExceeded (days : list Z) : bool :=
  match days with
  | [] => false
  | first :: _ =>
      (CRON_SEARCH_LIMIT_DAYS <=? first)
      || (CRON_SEARCH_LIMIT_DAYS <? DAY_SCAN_DAYS - List.last days 0 + first)
      || some_gap (fun gap => CRON_SEARCH_LIMIT_DAYS <? gap) days
  end.

(** [expr] is [None] when it is not a string; the result is the error or [None]. *)
Definition validateAutomationSchedule (expr : option string) : option string :=
  match expr with
  | None => Some "schedule must be a cron expression"
  | Some expr =>
      if is_blank expr then Some "schedule must be a cron expression"
      else if (AUTOMATION_SCHEDULE_MAX_LENGTH <? String.length expr)%nat
      then Some ("schedule must be at most " ++ show (Z.of_nat AUTOMATION_SCHEDULE_MAX_LENGTH) ++ " characters")
      else match parseCronExpression expr with
      | Throw e => Some ("schedule is not a valid cron expression: " ++ e)
      | Ok cron =>
          let days := matchingDayIndexes cron in
          match days with
          | [] => Some "schedule never fires"
          | _ =>
              if yearlyGapExceeded days then Some "schedule must fire at least once a year"
              else match minimumCronIntervalMinutes cron days with
                   | Some m =>
                       if m <? MIN_AUTOMATION_SCHEDULE_INTERVAL_MINUTES
                       then Some ("schedule must not run more often than every "
                                  ++ show MIN_AUTOMATION_SCHEDULE_INTERVAL_MINUTES ++ " minutes")
                       else None
                   | None => None
                   end
          end
      end
  end.

(** ** Specification: the instants at which a schedule fires *)

Definition fires_at (cron : ParsedCronExpression) (t : Z) : Prop :=
  t mod MINUTE_MS = 0 /\ cronDayMatches cron t = true
  /\ getUTCHours t ∈ hours cron /\ getUTCMinutes t ∈ minutes cron.
