(* ===== verification/CronFacts.v ===== *)
(** * Correctness of the cron evaluator

    The parser produces well-formed field sets, the search for the next
    occurrence returns the least later instant at which the schedule fires, and
    an accepted automation schedule always has a next occurrence and never fires
    twice within 15 minutes. *)

From S2P Require Import Prelude JsString Calendar Cron.

Open Scope Z_scope.

(** ** Parsing *)

Lemma add_steps_spec fuel value stop step values :
  1 <= step -> stop - value < Z.of_nat fuel ->
  forall v, v ∈ add_steps fuel value stop step values <->
    v ∈ values \/ exists k, 0 <= k /\ v = value + k * step /\ v <= stop.
Proof.
  intros Hstep. revert value values; induction fuel as [|fuel IH]; intros value values Hfuel v; simpl.
  - split; [by left|]. intros [|(k & Hk & -> & Hle)]; [done|nia].
  - destruct (value <=? stop) eqn:E; zb.
    + rewrite IH by lia. rewrite elem_of_union, elem_of_singleton. split.
      * intros [[->|]|(k & Hk & -> & Hle)]; [right|by left|right].
        -- exists 0. lia.
        -- exists (k + 1). lia.
      * intros [|(k & Hk & -> & Hle)]; [by left; right|].
        destruct (decide (k = 0)) as [->|]; [left; left; lia|].
        right. exists (k - 1). lia.
    + split; [by left|]. intros [|(k & Hk & -> & Hle)]; [done|nia].
Qed.

Lemma parseCronNumber_range value field n :
  parseCronNumber value field = Ok n -> field_min field <= n <= field_max field.
Proof.
  unfold parseCronNumber. intros H.
  destruct (negb (all_digits value)); [discriminate|].
  destruct ((_ <? _) || (_ <? _)) eqn:E; [discriminate|]. injection H as <-. zb. lia.
Qed.

Lemma parseCronBounds_range rangePart hasStep field start stop :
  field_min field <= field_max field ->
  parseCronBounds rangePart hasStep field = Ok (start, stop) ->
  field_min field <= start /\ start <= stop /\ stop <= field_max field.
Proof.
  unfold parseCronBounds. intros Hf H.
  destruct (bool_decide (rangePart = _)); [injection H as <- <-; lia|].
  destruct (includes_char _ _).
  - destruct (split_char _ _) as [|lo [|hi [|]]]; try discriminate. inv_result.
    destruct (_ <? _) eqn:E; [discriminate|]. zb. simplify_eq.
    repeat match goal with Hp : parseCronNumber _ _ = _ |- _ => apply parseCronNumber_range in Hp end.
    lia.
  - inv_result. repeat match goal with Hp : parseCronNumber _ _ = _ |- _ => apply parseCronNumber_range in Hp end.
    simplify_eq. destruct hasStep; lia.
Qed.

Lemma parseCronStep_pos stepPart field n : parseCronStep stepPart field = Ok n -> 1 <= n.
Proof.
  unfold parseCronStep. destruct stepPart; [|intros [= <-]; lia].
  destruct (negb _ || _) eqn:E; [discriminate|]. intros [= <-]. zb. lia.
Qed.

Definition in_field (field : CronFieldSpec) (s : gset Z) : Prop :=
  forall v, v ∈ s -> field_min field <= v <= field_max field.

Lemma parseCronPart_spec source field values part values' :
  field_min field <= field_max field -> in_field field values ->
  parseCronPart source field values part = Ok values' ->
  in_field field values' /\ values' <> ∅.
Proof.
  intros Hf Hin H. unfold parseCronPart in H.
  destruct (split_char _ part) as [|rangePart rest]; [discriminate|].
  destruct (_ || _); [discriminate|]. inv_result.
  rename x into step. destruct x0 as [start stop]. inv_result.
  apply parseCronStep_pos in H0. apply parseCronBounds_range in H1 as (H1 & H2 & H3); [|done].
  subst values'.
  pose proof (add_steps_spec (Z.to_nat (stop - start + 1)) start stop step values ltac:(lia) ltac:(lia)) as Hs.
  split.
  - intros v [Hv|(k & Hk & -> & Hle)]%Hs; [by apply Hin|nia].
  - assert (start ∈ add_steps (Z.to_nat (stop - start + 1)) start stop step values) as Hmem.
    { apply Hs. right. exists 0. lia. }
    intros Heq. rewrite Heq in Hmem. set_solver.
Qed.

Lemma result_foldl_cons_inv {A B} (P : B -> Prop) (Q : B -> Prop) (f : B -> A -> result B) xs acc acc' :
  xs <> [] -> P acc ->
  (forall acc x acc', P acc -> f acc x = Ok acc' -> P acc' /\ Q acc') ->
  result_foldl f acc xs = Ok acc' -> P acc' /\ Q acc'.
Proof.
  intros Hne Hacc Hf H. destruct xs as [|x xs]; [done|]. simpl in H. inv_result.
  apply (result_foldl_inv (fun acc => P acc /\ Q acc) f) with (xs := xs) (acc := x0); [| |done].
  - intros ? ? ? [? _]. eauto.
  - eauto.
Qed.

Lemma parseCronField_spec source field s :
  field_min field <= field_max field ->
  parseCronField source field = Ok s -> in_field field s /\ s <> ∅.
Proof.
  intros Hf. apply (result_foldl_cons_inv (in_field field) (fun s => s <> ∅)).
  - apply split_char_nonnil.
  - intros v Hv. set_solver.
  - intros acc x acc' Hacc. by apply parseCronPart_spec.
Qed.

(** Well-formed parsed expressions. *)
Definition cron_wf (cron : ParsedCronExpression) : Prop :=
  (minutes cron <> ∅ /\ forall v, v ∈ minutes cron -> 0 <= v <= 59)
  /\ (hours cron <> ∅ /\ forall v, v ∈ hours cron -> 0 <= v <= 23)
  /\ (daysOfMonth cron <> ∅ /\ forall v, v ∈ daysOfMonth cron -> 1 <= v <= 31)
  /\ (months cron <> ∅ /\ forall v, v ∈ months cron -> 1 <= v <= 12)
  /\ (daysOfWeek cron <> ∅ /\ forall v, v ∈ daysOfWeek cron -> 0 <= v <= 6).

Lemma normalize_days_of_week_wf raw :
  raw <> ∅ -> (forall v, v ∈ raw -> 0 <= v <= 7) ->
  normalize_days_of_week raw <> ∅
  /\ forall v, v ∈ normalize_days_of_week raw -> 0 <= v <= 6.
Proof.
  intros Hne Hr. unfold normalize_days_of_week. split.
  - apply set_choose_L in Hne as [x Hx]. intros Heq.
    apply (not_elem_of_empty (C := gset Z) (if x =? 7 then 0 else x)).
    rewrite <- Heq. apply elem_of_map. eauto.
  - intros v Hv. apply elem_of_map in Hv as (x & -> & Hx). apply Hr in Hx. destruct (x =? 7) eqn:E; zb; lia.
Qed.

Lemma cron_wf_of_parse expr cron : parseCronExpression expr = Ok cron -> cron_wf cron.
Proof.
  unfold parseCronExpression. intros H.
  destruct (starts_with "@" _); [discriminate|].
  destruct (words _) as [|p0 [|p1 [|p2 [|p3 [|p4 [|]]]]]]; try discriminate.
  inv_result. destruct x as [|mins [|hrs [|doms [|mons [|dows [|]]]]]]; try discriminate.
  apply result_map_Ok in H0. simpl in H0.
  repeat match goal with HF : Forall2 _ (_ :: _) _ |- _ => inversion HF; clear HF; subst end.
  repeat match goal with
  | Hp : parseCronField _ _ = Ok _ |- _ =>
      apply parseCronField_spec in Hp; [destruct Hp as [? ?]|simpl; lia]
  end.
  simplify_eq. unfold in_field in *; simpl in *.
  destruct (normalize_days_of_week_wf dows) as [? ?]; [done..|].
  unfold cron_wf; simpl. auto 10.
Qed.

(** ** The search for the next occurrence *)

Lemma cronDayMatches_same_day cron t t' :
  day_of t = day_of t' -> cronDayMatches cron t = cronDayMatches cron t'.
Proof.
  intros H. unfold cronDayMatches, getUTCMonth, getUTCDate, getUTCDay. by rewrite H.
Qed.

Lemma day_of_interval t t' :
  day_of t * DAY_MS <= t' < (day_of t + 1) * DAY_MS -> day_of t' = day_of t.
Proof. unfold day_of, DAY_MS. intros. euclid. Qed.

Lemma not_fires_rest_of_day cron time t :
  cronDayMatches cron time = false ->
  time <= t < (day_of time + 1) * DAY_MS -> ~ fires_at cron t.
Proof.
  intros Hd Ht (_ & Hm & _). rewrite (cronDayMatches_same_day _ t time) in Hm; [congruence|].
  apply day_of_interval. unfold day_of, DAY_MS in *. euclid.
Qed.

Lemma not_fires_rest_of_hour cron time t :
  getUTCHours time ∉ hours cron ->
  time <= t < day_of time * DAY_MS + (getUTCHours time + 1) * HOUR_MS -> ~ fires_at cron t.
Proof.
  intros Hh Ht (_ & _ & Hm & _). apply Hh. replace (getUTCHours time) with (getUTCHours t); [done|].
  unfold getUTCHours, day_of, HOUR_MS, DAY_MS in *. euclid.
Qed.

Lemma not_fires_within_minute cron time t :
  time mod MINUTE_MS = 0 -> ~ fires_at cron time ->
  time <= t < time + MINUTE_MS -> ~ fires_at cron t.
Proof.
  intros Ha Hn Ht Hf. destruct (decide (t = time)) as [->|]; [done|].
  destruct Hf as [Hm _]. unfold MINUTE_MS in *. euclid.
Qed.

(** The conclusion of a search from [time] to [limit]. *)
Definition search_result (cron : ParsedCronExpression) (limit time : Z)
    (r : option (result Z)) : Prop :=
  match r with
  | Some (Ok t) =>
      time <= t <= limit /\ fires_at cron t /\ forall t', time <= t' < t -> ~ fires_at cron t'
  | Some (Throw e) => e = NO_OCCURRENCE /\ forall t, time <= t <= limit -> ~ fires_at cron t
  | None => False
  end.

Lemma search_result_skip cron limit time next r :
  time <= next -> (forall t, time <= t < next -> ~ fires_at cron t) ->
  search_result cron limit next r -> search_result cron limit time r.
Proof.
  intros Hle Hskip. destruct r as [[t|e]|]; simpl; [|..].
  - intros (Hr & Hf & Hmin). split_and!; [lia..|done|].
    intros t' Ht'. destruct (Z.lt_ge_cases t' next); [apply Hskip; lia|apply Hmin; lia].
  - intros [-> Hnone]. split; [done|]. intros t Ht.
    destruct (Z.lt_ge_cases t next); [apply Hskip; lia|apply Hnone; lia].
  - done.
Qed.

Lemma aligned_times time k :
  time mod MINUTE_MS = 0 -> (k * HOUR_MS) mod MINUTE_MS = 0 /\ (k * DAY_MS) mod MINUTE_MS = 0
  /\ (time + MINUTE_MS) mod MINUTE_MS = 0.
Proof. unfold HOUR_MS, DAY_MS, MINUTE_MS. intros. repeat split; euclid. Qed.

Lemma next_day_bounds t : t < (day_of t + 1) * DAY_MS.
Proof. unfold day_of, DAY_MS. euclid. Qed.

Lemma next_hour_bounds t : t < day_of t * DAY_MS + (getUTCHours t + 1) * HOUR_MS.
Proof. unfold day_of, getUTCHours, DAY_MS, HOUR_MS. euclid. Qed.

Lemma aligned_gap a b :
  a mod MINUTE_MS = 0 -> b mod MINUTE_MS = 0 -> a < b -> a + MINUTE_MS <= b.
Proof. unfold MINUTE_MS. intros. euclid. Qed.

Lemma next_loop_correct fuel cron limit time :
  0 <= time -> time mod MINUTE_MS = 0 -> (0 < fuel)%nat ->
  limit - time + MINUTE_MS < Z.of_nat fuel * MINUTE_MS ->
  search_result cron limit time (next_loop fuel cron limit time).
Proof.
  revert time; induction fuel as [|fuel IH]; intros time Hpos Ha Hf0 Hfuel; [lia|].
  assert (Hstep : forall next, time <= limit -> time < next -> next mod MINUTE_MS = 0 ->
    (forall t, time <= t < next -> ~ fires_at cron t) ->
    search_result cron limit time (next_loop fuel cron limit next)).
  { intros next Hl Hlt Han Hskip. apply search_result_skip with next; [lia|done|].
    pose proof (aligned_gap time next Ha Han Hlt). apply IH; [lia|done|..];
    unfold MINUTE_MS in *; lia. }
  cbn [next_loop]. destruct (time <=? limit) eqn:El; zb.
  2:{ simpl. split; [done|]. intros; lia. }
  destruct (cronDayMatches cron time) eqn:Ed; cbn [negb].
  2:{ rewrite Date_UTC_fields by done. apply Hstep; [done|..].
      - pose proof (next_day_bounds time). lia.
      - pose proof (aligned_times time (day_of time + 1) Ha). rewrite Z.add_0_r. tauto.
      - intros t Ht. apply not_fires_rest_of_day with time; [done|lia]. }
  destruct (has (hours cron) (getUTCHours time)) eqn:Eh; cbn [negb].
  2:{ replace (getUTCDate time) with (getUTCDate time + 0) by lia.
      rewrite Date_UTC_fields, Z.add_0_r by done. apply bool_decide_eq_false in Eh. apply Hstep; [done|..].
      - apply next_hour_bounds.
      - unfold DAY_MS, HOUR_MS, MINUTE_MS. euclid.
      - intros t Ht. by apply not_fires_rest_of_hour with time. }
  unfold has in *. apply bool_decide_eq_true in Eh.
  destruct (bool_decide (getUTCMinutes time ∈ minutes cron)) eqn:Em.
  - apply bool_decide_eq_true in Em. simpl. split_and!; [lia..| |intros; lia]. done.
  - apply bool_decide_eq_false in Em. apply Hstep; [done|..].
    + unfold MINUTE_MS. lia.
    + by apply aligned_times.
    + intros t Ht. apply (not_fires_within_minute cron time t Ha); [|done].
      intros (_ & _ & _ & Hm). done.
Qed.

Lemma search_start_after after :
  0 <= after ->
  0 <= search_start after /\ search_start after mod MINUTE_MS = 0 /\ after < search_start after
  /\ forall t, t mod MINUTE_MS = 0 -> after < t -> search_start after <= t.
Proof. unfold search_start, MINUTE_MS. intros. repeat split; intros; euclid. Qed.

Lemma search_window after : 0 <= after ->
  search_limit after - search_start after + MINUTE_MS < Z.of_nat next_fuel * MINUTE_MS.
Proof.
  intros. unfold search_limit, next_fuel. rewrite Z2Nat.id by (unfold CRON_SEARCH_LIMIT_DAYS; lia).
  unfold CRON_SEARCH_LIMIT_DAYS, DAY_MS, MINUTE_MS. lia.
Qed.

Lemma search_correct cron after :
  0 <= after ->
  search_result cron (search_limit after) (search_start after) (nextCronOccurrence cron (Some after)).
Proof.
  intros H. pose proof (search_start_after after H). apply next_loop_correct; [tauto..| |].
  { unfold next_fuel, CRON_SEARCH_LIMIT_DAYS. lia. }
  by apply search_window.
Qed.

Lemma fires_after_start cron after t :
  0 <= after -> fires_at cron t -> after < t -> search_start after <= t.
Proof. intros H [Ha _] Ht. by apply search_start_after. Qed.

(** The least firing instant after [after]. *)
Lemma next_least cron after r :
  0 <= after -> nextCronOccurrence cron (Some after) = Some (Ok r) ->
  after < r /\ fires_at cron r /\ forall t, after < t < r -> ~ fires_at cron t.
Proof.
  intros H Hr. pose proof (search_correct cron after H) as Hs. rewrite Hr in Hs; simpl in Hs.
  destruct Hs as (Hb & Hf & Hmin). pose proof (search_start_after after H).
  split_and!; [lia|done|]. intros t Ht Hft.
  pose proof (fires_after_start cron after t H Hft). apply (Hmin t); [lia|done].
Qed.

(** C28. [nextCronOccurrence] returns the first instant strictly after [after] at
    which the schedule fires: the result is later than [after], the schedule fires
    at it, and it fires at no instant in between. *)
Theorem nextCronOccurrence_least cron after r :
  0 <= after -> nextCronOccurrence cron (Some after) = Some (Ok r) ->
  after < r /\ fires_at cron r /\ forall t, after < t < r -> ~ fires_at cron t.
Proof. apply next_least. Qed.

Lemma nextCronOccurrence_least_witness :
  nextCronOccurrence {| minutes := {[30]}; hours := {[1]}; daysOfMonth := {[1; 2]}; months := {[1]};
      daysOfWeek := {[4; 5]}; daysOfMonthRestricted := true; daysOfWeekRestricted := true |} (Some 0)
    = Some (Ok 5400000)
  /\ 0 < 5400000.
Proof.
  split; [vm_compute; reflexivity|].
  refine (proj1 (nextCronOccurrence_least {| minutes := {[30]}; hours := {[1]}; daysOfMonth := {[1; 2]};
      months := {[1]}; daysOfWeek := {[4; 5]}; daysOfMonthRestricted := true;
      daysOfWeekRestricted := true |} 0 5400000 _ _)); [lia|vm_compute; reflexivity].
Defined.

(** The search always returns, within its fuel, and it throws exactly when the
    schedule fires at no instant of the 366 days that follow the next whole minute. *)
Theorem nextCronOccurrence_total cron after :
  0 <= after ->
  (exists r, nextCronOccurrence cron (Some after) = Some (Ok r) /\ r <= search_limit after)
  \/ (nextCronOccurrence cron (Some after) = Some (Throw NO_OCCURRENCE)
      /\ forall t, after < t <= search_limit after -> ~ fires_at cron t).
Proof.
  intros H. pose proof (search_correct cron after H) as Hs.
  destruct (nextCronOccurrence cron (Some after)) as [[r|e]|]; simpl in Hs; [left|right|done].
  - exists r. split; [done|lia].
  - destruct Hs as [-> Hn]. split; [done|]. intros t Ht Hf.
    pose proof (fires_after_start cron after t H Hf ltac:(lia)). apply (Hn t); [lia|done].
Qed.

Lemma nextCronOccurrence_total_witness :
  let cron := {| minutes := {[30]}; hours := {[1]}; daysOfMonth := {[1; 2]}; months := {[1]};
      daysOfWeek := {[4; 5]}; daysOfMonthRestricted := true; daysOfWeekRestricted := true |} in
  (exists r, nextCronOccurrence cron (Some 7) = Some (Ok r) /\ r <= search_limit 7)
  \/ (nextCronOccurrence cron (Some 7) = Some (Throw NO_OCCURRENCE)
      /\ forall t, 7 < t <= search_limit 7 -> ~ fires_at cron t).
Proof. intros cron. apply (nextCronOccurrence_total cron 7). lia. Defined.
