(* ===== verification/CronValidate.v ===== *)
(** * Accepted automation schedules

    What [validateAutomationSchedule] guarantees about every schedule it accepts:
    firings are at least 15 minutes apart and a next occurrence always exists. The
    400-year scan of the code covers every day because the calendar is periodic. *)

From S2P Require Import Prelude JsString Calendar Cron CronFacts.

Open Scope Z_scope.

(** ** Sorted lists of days and minutes *)

Lemma some_gap_false p l d d' :
  some_gap p (d :: d' :: l) = false -> p (d' - d) = false /\ some_gap p (d' :: l) = false.
Proof. cbn [some_gap]. intros H. by apply orb_false_elim in H. Qed.

Lemma sorted_tail_gt (l : list Z) d x : StronglySorted Z.lt (d :: l) -> x ∈ l -> d < x.
Proof. intros H Hx. inversion_clear H as [|? ? _ HF]. rewrite Forall_forall in HF. auto. Qed.

Lemma last_cons (l : list Z) a b d : List.last (a :: b :: l) d = List.last (b :: l) d.
Proof. done. Qed.

Lemma last_in (l : list Z) a d : List.last (a :: l) d ∈ a :: l.
Proof.
  revert a; induction l as [|b l IH]; intros a; [left|]. rewrite last_cons. right. apply IH.
Qed.

Lemma sorted_le_last (l : list Z) x d :
  StronglySorted Z.lt l -> x ∈ l -> x <= List.last l d.
Proof.
  induction l as [|a l IH]; intros Hs Hx; [set_solver|].
  destruct l as [|b l]; [apply list_elem_of_singleton in Hx as ->; simpl; lia|].
  rewrite last_cons. inversion Hs as [|? ? Hs' HF]; subst.
  apply elem_of_cons in Hx as [->|Hx]; [|by apply IH].
  pose proof (sorted_tail_gt _ _ _ Hs (last_in l b d)). lia.
Qed.

(** With every gap at most [B], each position below the last element has a
    successor within [B]. *)
Lemma gap_next (l : list Z) B d i :
  StronglySorted Z.lt (d :: l) -> some_gap (fun gap => B <? gap) (d :: l) = false ->
  d <= i < List.last (d :: l) 0 -> exists j, j ∈ d :: l /\ i < j <= i + B.
Proof.
  revert d; induction l as [|d' l IH]; intros d Hs Hg Hi; [simpl in Hi; lia|].
  apply some_gap_false in Hg as [Hgap Hg]. zb. rewrite last_cons in Hi.
  destruct (Z.le_gt_cases d' i) as [Hle|Hlt].
  - inversion Hs; subst. destruct (IH d') as (j & Hj & ?); [done..|lia|].
    exists j. split; [by right|lia].
  - exists d'. split; [right; left|lia].
Qed.

Lemma consecutive_some_gap (l : list Z) x :
  StronglySorted Z.lt l -> x ∈ l -> x + 1 ∈ l -> some_gap (fun gap => gap =? 1) l = true.
Proof.
  induction l as [|d l IH]; intros Hs Hx Hy; [set_solver|].
  destruct l as [|d' l].
  { apply list_elem_of_singleton in Hx, Hy. lia. }
  cbn [some_gap]. apply orb_true_iff.
  apply elem_of_cons in Hx as [->|Hx].
  - left. apply elem_of_cons in Hy as [|Hy]; [lia|].
    pose proof (sorted_tail_gt _ _ d' Hs ltac:(left)).
    assert (d' <= d + 1); [|apply Z.eqb_eq; lia].
    apply elem_of_cons in Hy as [->|Hy]; [lia|]. inversion Hs; subst.
    pose proof (sorted_tail_gt l d' (d + 1) ltac:(done) Hy). lia.
  - right. inversion Hs; subst. apply IH; [done..|].
    apply elem_of_cons in Hy as [Heq|Hy]; [|done].
    pose proof (sorted_tail_gt _ _ x Hs ltac:(done)). lia.
Qed.

(** ** The day scan *)

Lemma matching_days_from_spec cron fuel day :
  (forall x, x ∈ matching_days_from cron fuel day <->
    day <= x < day + Z.of_nat fuel /\ cronDayMatches cron (DAY_SCAN_START + x * DAY_MS) = true)
  /\ StronglySorted Z.lt (matching_days_from cron fuel day).
Proof.
  revert day; induction fuel as [|fuel IH]; intros day; cbn [matching_days_from].
  { split; [|constructor]. intros x. split; [set_solver|lia]. }
  destruct (IH (day + 1)) as [Hmem Hsort]. destruct (cronDayMatches _ _) eqn:E.
  - split.
    + intros x. rewrite elem_of_cons, Hmem. split.
      * intros [->|[? ?]]; split; [lia|done|lia|done].
      * intros [? ?]. destruct (decide (x = day)); [by left|right; split; [lia|done]].
    + constructor; [done|]. apply Forall_forall. intros x Hx%Hmem. lia.
  - split; [|done]. intros x. rewrite Hmem. split; intros [? ?]; (split; [|done]); [lia|].
    destruct (decide (x = day)) as [->|]; [congruence|lia].
Qed.

Lemma matchingDayIndexes_spec cron :
  (forall x, x ∈ matchingDayIndexes cron <->
    0 <= x < DAY_SCAN_DAYS /\ cronDayMatches cron (DAY_SCAN_START + x * DAY_MS) = true)
  /\ StronglySorted Z.lt (matchingDayIndexes cron).
Proof.
  unfold matchingDayIndexes.
  destruct (matching_days_from_spec cron (Z.to_nat DAY_SCAN_DAYS) 0) as [Hmem Hs].
  split; [|done]. intros x. rewrite Hmem, Z2Nat.id by (unfold DAY_SCAN_DAYS; lia). done.
Qed.

(** The days on which a schedule fires, by day number. *)
Definition day_fires (cron : ParsedCronExpression) (D : Z) : bool := cronDayMatches cron (D * DAY_MS).

Lemma day_fires_day_of cron t : cronDayMatches cron t = day_fires cron (day_of t).
Proof.
  apply cronDayMatches_same_day. unfold day_of, DAY_MS. euclid.
Qed.

Lemma day_fires_shift cron D : day_fires cron (D + DAY_SCAN_DAYS) = day_fires cron D.
Proof.
  unfold day_fires, DAY_SCAN_DAYS.
  unfold cronDayMatches, getUTCMonth, getUTCDate, getUTCDay.
  assert (Hd : forall x, day_of (x * DAY_MS) = x).
  { intros x. unfold day_of, DAY_MS. apply Z.div_mul. lia. }
  rewrite !Hd, civil_from_days_period.
  replace ((D + 146097 + 4) mod 7) with ((D + 4) mod 7) by euclid.
  by destruct (civil_from_days D) as [[y m] d].
Qed.

Lemma day_fires_period cron D k : day_fires cron (D + k * DAY_SCAN_DAYS) = day_fires cron D.
Proof.
  assert (Hnat : forall n D, day_fires cron (D + Z.of_nat n * DAY_SCAN_DAYS) = day_fires cron D).
  { induction n as [|n IH]; intros D'; [by rewrite Z.mul_0_l, Z.add_0_r|].
    rewrite <- (IH D'), <- (day_fires_shift cron (D' + Z.of_nat n * _)). f_equal. lia. }
  destruct (Z.le_gt_cases 0 k).
  - rewrite <- (Z2Nat.id k) by done. apply Hnat.
  - rewrite <- (Hnat (Z.to_nat (- k)) (D + k * DAY_SCAN_DAYS)), Z2Nat.id by lia. f_equal. lia.
Qed.

Definition scan_day0 : Z := 10957.

(** The scan index of a day number. *)
Definition scan_index (D : Z) : Z := (D - scan_day0) mod DAY_SCAN_DAYS.

Lemma scan_index_range D : 0 <= scan_index D < DAY_SCAN_DAYS.
Proof. apply Z.mod_pos_bound. unfold DAY_SCAN_DAYS. lia. Qed.

Lemma scan_member cron D i :
  0 <= i < DAY_SCAN_DAYS -> (exists k, D = scan_day0 + i + k * DAY_SCAN_DAYS) ->
  i ∈ matchingDayIndexes cron <-> day_fires cron D = true.
Proof.
  intros Hi [k ->]. rewrite day_fires_period, (proj1 (matchingDayIndexes_spec cron)).
  unfold day_fires.
  replace (DAY_SCAN_START + i * DAY_MS) with ((scan_day0 + i) * DAY_MS); [tauto|].
  replace DAY_SCAN_START with (scan_day0 * DAY_MS) by (vm_compute; reflexivity). lia.
Qed.

Lemma scan_index_eq D : exists k, D = scan_day0 + scan_index D + k * DAY_SCAN_DAYS.
Proof.
  exists ((D - scan_day0) / DAY_SCAN_DAYS). unfold scan_index, DAY_SCAN_DAYS. euclid.
Qed.

(** An accepted schedule fires on some day of every 366-day window. *)
Lemma yearly_next_day cron D :
  matchingDayIndexes cron <> [] -> yearlyGapExceeded (matchingDayIndexes cron) = false ->
  exists D', D < D' <= D + CRON_SEARCH_LIMIT_DAYS /\ day_fires cron D' = true.
Proof.
  intros Hne Hg. destruct (matchingDayIndexes_spec cron) as [Hmem Hsort].
  destruct (matchingDayIndexes cron) as [|d0 l] eqn:El; [done|]. clear Hne.
  unfold yearlyGapExceeded in Hg. apply orb_false_elim in Hg as [Hg Hgaps].
  apply orb_false_elim in Hg as [Hfirst Hlast]. zb.
  destruct (scan_index_eq D) as [k Hk]. pose proof (scan_index_range D) as Hi.
  set (i := scan_index D) in *. clearbody i.
  assert (Hfire : forall j k', j ∈ d0 :: l -> day_fires cron (scan_day0 + j + k' * DAY_SCAN_DAYS) = true).
  { intros j k' Hj. apply (scan_member cron _ j); [|by exists k'|by rewrite El].
    apply Hmem in Hj. tauto. }
  pose proof (proj1 (Hmem d0) ltac:(left)) as [Hd0 _].
  destruct (Z.lt_ge_cases i d0).
  { exists (scan_day0 + d0 + k * DAY_SCAN_DAYS). split; [lia|apply Hfire; left]. }
  destruct (Z.lt_ge_cases i (List.last (d0 :: l) 0)).
  - destruct (gap_next l CRON_SEARCH_LIMIT_DAYS d0 i) as (j & Hj & ?); [done..|].
    exists (scan_day0 + j + k * DAY_SCAN_DAYS). split; [lia|by apply Hfire].
  - exists (scan_day0 + d0 + (k + 1) * DAY_SCAN_DAYS). split; [lia|apply Hfire; left].
Qed.

(** Two matching days in a row are noticed by [firesOnConsecutiveDays]. *)
Lemma consecutive_days_noticed cron D :
  day_fires cron D = true -> day_fires cron (D + 1) = true ->
  firesOnConsecutiveDays (matchingDayIndexes cron) = true.
Proof.
  intros H1 H2. destruct (matchingDayIndexes_spec cron) as [Hmem Hsort].
  destruct (scan_index_eq D) as [k Hk]. pose proof (scan_index_range D) as Hi.
  set (i := scan_index D) in *. clearbody i.
  assert (Hin : i ∈ matchingDayIndexes cron) by (apply (scan_member cron D); eauto).
  unfold firesOnConsecutiveDays.
  destruct (matchingDayIndexes cron) as [|d0 l] eqn:El; [set_solver|].
  apply orb_true_iff. destruct (decide (i = DAY_SCAN_DAYS - 1)) as [->|].
  - left. assert (0 ∈ d0 :: l) as H0.
    { rewrite <- El. apply (scan_member cron (D + 1)); [unfold DAY_SCAN_DAYS; lia| |done].
      exists (k + 1). lia. }
    apply andb_true_iff; split; apply Z.eqb_eq.
    + apply elem_of_cons in H0 as [|H0]; [lia|].
      pose proof (sorted_tail_gt _ _ 0 Hsort H0). pose proof (proj1 (Hmem d0) ltac:(left)). lia.
    + pose proof (sorted_le_last _ _ 0 Hsort Hin).
      pose proof (proj1 (Hmem _) (last_in l d0 0)). lia.
  - right. apply (consecutive_some_gap _ i); [done..|].
    rewrite <- El. apply (scan_member cron (D + 1)); [lia| |done]. exists k. lia.
Qed.

(** ** Times of day *)

Lemma sorted_elements_mem s x : x ∈ sorted_elements s <-> x ∈ s.
Proof. unfold sorted_elements. rewrite merge_sort_Permutation. apply elem_of_elements. Qed.

Lemma sorted_nodup_lt (l : list Z) : StronglySorted Z.le l -> NoDup l -> StronglySorted Z.lt l.
Proof.
  induction 1 as [|x l Hs IH HF]; intros Hnd; [constructor|].
  apply NoDup_cons in Hnd as [Hx Hnd]. constructor; [by apply IH|].
  rewrite Forall_forall in HF |- *. intros y Hy. specialize (HF y Hy).
  destruct (decide (x = y)) as [->|]; [done|lia].
Qed.

Lemma sorted_elements_sorted s : StronglySorted Z.lt (sorted_elements s).
Proof.
  apply sorted_nodup_lt.
  - apply (StronglySorted_merge_sort Z.le).
  - unfold sorted_elements. rewrite merge_sort_Permutation. apply NoDup_elements.
Qed.

Lemma StronglySorted_app_lt (l1 l2 : list Z) :
  StronglySorted Z.lt l1 -> StronglySorted Z.lt l2 ->
  (forall x y, x ∈ l1 -> y ∈ l2 -> x < y) -> StronglySorted Z.lt (l1 ++ l2).
Proof.
  induction 1 as [|x l Hs IH HF]; intros H2 Hlt; [done|]. simpl. constructor.
  - apply IH; [done|]. intros; apply Hlt; [by right|done].
  - rewrite Forall_forall in HF |- *. intros y [Hy|Hy]%elem_of_app; [auto|].
    apply Hlt; [left|done].
Qed.

Lemma StronglySorted_map_hour hour (ms : list Z) :
  StronglySorted Z.lt ms -> StronglySorted Z.lt (map (fun minute => hour * 60 + minute) ms).
Proof.
  induction 1 as [|m ms Hs IH HF]; simpl; constructor; [done|].
  rewrite Forall_forall in HF |- *. intros y (m' & -> & Hm')%list_elem_of_fmap.
  specialize (HF m' Hm'). lia.
Qed.

Lemma timesOfDay_from_spec (hs ms : list Z) :
  StronglySorted Z.lt hs -> StronglySorted Z.lt ms -> (forall m, m ∈ ms -> 0 <= m <= 59) ->
  let l := flat_map (fun hour => map (fun minute => hour * 60 + minute) ms) hs in
  StronglySorted Z.lt l
  /\ forall x, x ∈ l <-> exists h m, h ∈ hs /\ m ∈ ms /\ x = h * 60 + m.
Proof.
  intros Hhs Hms Hr. induction Hhs as [|h hs Hs IH HF]; cbn [flat_map].
  { split; [constructor|]. intros x. split; [set_solver|]. intros (h & m & Hh & _). set_solver. }
  destruct IH as [IHs IHm]. rewrite Forall_forall in HF.
  assert (Hmap : forall x, x ∈ map (fun minute => h * 60 + minute) ms <-> exists m, m ∈ ms /\ x = h * 60 + m).
  { intros x. rewrite list_elem_of_fmap. naive_solver. }
  split.
  - apply StronglySorted_app_lt; [by apply StronglySorted_map_hour|done|].
    intros x y (m & Hm & ->)%Hmap (h' & m' & Hh' & Hm' & ->)%IHm.
    specialize (HF h' Hh'). apply Hr in Hm, Hm'. lia.
  - intros x. rewrite elem_of_app, Hmap, IHm. split.
    + intros [(m & Hm & ->)|(h' & m & Hh & Hm & ->)].
      * exists h, m. split_and!; [left|done|done].
      * exists h', m. split_and!; [by right|done|done].
    + intros (h' & m & [->|Hh]%elem_of_cons & Hm & ->); [left; eauto|right; eauto 6].
Qed.

Lemma timesOfDay_spec cron :
  cron_wf cron ->
  StronglySorted Z.lt (timesOfDay cron)
  /\ forall x, x ∈ timesOfDay cron <-> exists h m, h ∈ hours cron /\ m ∈ minutes cron /\ x = h * 60 + m.
Proof.
  intros ((_ & Hm) & _).
  destruct (timesOfDay_from_spec (sorted_elements (hours cron)) (sorted_elements (minutes cron)))
    as [Hs Hmem]; [apply sorted_elements_sorted..| |].
  - intros m. rewrite sorted_elements_mem. apply Hm.
  - split; [done|]. intros x. rewrite (Hmem x). by setoid_rewrite sorted_elements_mem.
Qed.

(** The smallest gap is a lower bound on the distance of any two elements. *)
Lemma min_gap_from_le prev xs m0 :
  forall m, min_gap_from prev xs m0 = Some m -> forall k, m0 = Some k -> m <= k.
Proof.
  revert prev m0; induction xs as [|x xs IH]; intros prev m0 m Hm k Hk; simpl in Hm.
  - simplify_eq. lia.
  - subst m0. specialize (IH _ _ _ Hm _ eq_refl). simpl in IH. lia.
Qed.

Lemma min_gap_from_spec prev xs m0 :
  StronglySorted Z.lt (prev :: xs) ->
  forall a b, a ∈ prev :: xs -> b ∈ prev :: xs -> a < b ->
  exists m, min_gap_from prev xs m0 = Some m /\ m <= b - a.
Proof.
  revert prev m0; induction xs as [|x xs IH]; intros prev m0 Hs a b Ha Hb Hab.
  { apply list_elem_of_singleton in Ha, Hb. lia. }
  cbn [min_gap_from]. inversion Hs as [|? ? Hs' HF]; subst.
  assert (Hsome : exists m, min_gap_from x xs (min_opt m0 (x - prev)) = Some m).
  { clear. generalize (x - prev). generalize m0. revert x.
    induction xs as [|y ys IH]; intros x m z; simpl; [eauto|apply IH]. }
  apply elem_of_cons in Ha as [->|Ha].
  - destruct Hsome as [m Hm]. exists m. split; [done|].
    pose proof (min_gap_from_le _ _ _ _ Hm _ eq_refl) as Hle.
    assert (m <= x - prev) by (destruct m0; lia).
    apply elem_of_cons in Hb as [|Hb]; [lia|].
    apply elem_of_cons in Hb as [->|Hb]; [done|].
    pose proof (sorted_tail_gt _ _ b Hs' Hb). lia.
  - apply IH; [done..| |done].
    apply elem_of_cons in Hb as [->|Hb]; [|done].
    pose proof (sorted_tail_gt _ _ a Hs Ha). lia.
Qed.

(** ** Firings of an accepted schedule *)

Lemma fires_decompose cron t :
  cron_wf cron -> fires_at cron t ->
  exists x, x ∈ timesOfDay cron /\ 0 <= x < 1440 /\ t = day_of t * DAY_MS + x * MINUTE_MS
    /\ day_fires cron (day_of t) = true.
Proof.
  intros Hwf (Ha & Hd & Hh & Hm). destruct (timesOfDay_spec cron Hwf) as [_ Hmem].
  destruct (time_split t) as (h & m & r & Ht & -> & -> & ? & ? & ?).
  exists (getUTCHours t * 60 + getUTCMinutes t). split_and!; [|lia..| |].
  - apply Hmem. eauto.
  - unfold DAY_MS, HOUR_MS, MINUTE_MS in *. euclid.
  - by rewrite <- day_fires_day_of.
Qed.

Lemma fires_compose cron D x :
  cron_wf cron -> x ∈ timesOfDay cron -> day_fires cron D = true ->
  fires_at cron (D * DAY_MS + x * MINUTE_MS).
Proof.
  intros Hwf Hx HD. destruct (timesOfDay_spec cron Hwf) as [_ Hmem].
  apply Hmem in Hx as (h & m & Hh & Hm & ->).
  destruct Hwf as ((_ & Hmr) & (_ & Hhr) & _). apply Hmr in Hm as Hm'. apply Hhr in Hh as Hh'.
  replace (D * DAY_MS + (h * 60 + m) * MINUTE_MS)
    with (D * DAY_MS + h * HOUR_MS + m * MINUTE_MS + 0) by (unfold HOUR_MS, MINUTE_MS; lia).
  destruct (fields_of_split D h m 0) as (Hd & Hhh & Hmm); [lia..|unfold MINUTE_MS; lia|].
  split_and!.
  - unfold DAY_MS, HOUR_MS, MINUTE_MS. euclid.
  - by rewrite day_fires_day_of, Hd.
  - by rewrite Hhh.
  - by rewrite Hmm.
Qed.

Lemma validate_inv expr :
  validateAutomationSchedule (Some expr) = None ->
  exists cron, parseCronExpression expr = Ok cron /\ matchingDayIndexes cron <> []
    /\ yearlyGapExceeded (matchingDayIndexes cron) = false
    /\ forall m, minimumCronIntervalMinutes cron (matchingDayIndexes cron) = Some m ->
        MIN_AUTOMATION_SCHEDULE_INTERVAL_MINUTES <= m.
Proof.
  unfold validateAutomationSchedule. intros H.
  destruct (is_blank expr); [discriminate|]. destruct (_ <? _)%nat; [discriminate|].
  destruct (parseCronExpression expr) as [cron|]; [|discriminate].
  exists cron. destruct (matchingDayIndexes cron) as [|d l] eqn:El; [discriminate|].
  destruct (yearlyGapExceeded _); [discriminate|]. split_and!; [done..|].
  intros m Hm. rewrite Hm in H. destruct (m <? _) eqn:E; [discriminate|]. by zb.
Qed.

Lemma minimum_interval_same_day cron days a b :
  cron_wf cron -> a ∈ timesOfDay cron -> b ∈ timesOfDay cron -> a < b ->
  exists m, minimumCronIntervalMinutes cron days = Some m /\ m <= b - a.
Proof.
  intros Hwf Ha Hb Hab. destruct (timesOfDay_spec cron Hwf) as [Hs _].
  unfold minimumCronIntervalMinutes.
  destruct (timesOfDay cron) as [|first rest]; [set_solver|].
  destruct (min_gap_from_spec first rest None Hs a b Ha Hb Hab) as (m & Hm & Hle).
  rewrite Hm. destruct (firesOnConsecutiveDays days); [|by exists m].
  eexists; split; [reflexivity|]. lia.
Qed.

Lemma minimum_interval_next_day cron days a b :
  cron_wf cron -> a ∈ timesOfDay cron -> b ∈ timesOfDay cron ->
  firesOnConsecutiveDays days = true ->
  exists m, minimumCronIntervalMinutes cron days = Some m /\ m <= b + 1440 - a.
Proof.
  intros Hwf Ha Hb Hc. destruct (timesOfDay_spec cron Hwf) as [Hs _].
  unfold minimumCronIntervalMinutes.
  destruct (timesOfDay cron) as [|first rest]; [set_solver|]. rewrite Hc.
  eexists; split; [reflexivity|].
  pose proof (sorted_le_last _ a 0 Hs Ha).
  assert (first <= b).
  { apply elem_of_cons in Hb as [->|Hb]; [lia|]. pose proof (sorted_tail_gt _ _ b Hs Hb). lia. }
  destruct (min_gap_from _ _ _); lia.
Qed.

(** C30. A schedule accepted by [validateAutomationSchedule] never fires twice
    within 15 minutes, across midnight and month ends included. *)
Theorem accepted_schedule_min_gap expr cron t1 t2 :
  validateAutomationSchedule (Some expr) = None -> parseCronExpression expr = Ok cron ->
  fires_at cron t1 -> fires_at cron t2 -> t1 < t2 ->
  t1 + MIN_AUTOMATION_SCHEDULE_INTERVAL_MINUTES * MINUTE_MS <= t2.
Proof.
  intros Hv Hp H1 H2 Hlt. pose proof (cron_wf_of_parse _ _ Hp) as Hwf.
  apply validate_inv in Hv as (cron' & Hp' & _ & _ & Hmin).
  assert (cron' = cron) as -> by congruence.
  destruct (fires_decompose _ _ Hwf H1) as (x1 & Hx1 & Hr1 & Ht1 & Hd1).
  destruct (fires_decompose _ _ Hwf H2) as (x2 & Hx2 & Hr2 & Ht2 & Hd2).
  set (D1 := day_of t1) in *. set (D2 := day_of t2) in *. clearbody D1 D2. subst t1 t2.
  unfold MIN_AUTOMATION_SCHEDULE_INTERVAL_MINUTES, DAY_MS, MINUTE_MS in *.
  assert (D1 <= D2) by lia. destruct (decide (D2 = D1)) as [->|].
  - destruct (minimum_interval_same_day cron (matchingDayIndexes cron) x1 x2) as (m & Hm & ?);
      [done..|lia|]. apply Hmin in Hm. lia.
  - destruct (decide (D2 = D1 + 1)) as [->|]; [|lia].
    destruct (minimum_interval_next_day cron (matchingDayIndexes cron) x1 x2) as (m & Hm & ?);
      [done..|by apply consecutive_days_noticed with D1|]. apply Hmin in Hm. lia.
Qed.

(** The start of the search lies on its own day. *)
Lemma day_of_bounds t : day_of t * DAY_MS <= t < day_of t * DAY_MS + DAY_MS.
Proof. unfold day_of, DAY_MS. euclid. Qed.

(** An accepted schedule fires in every window that [nextCronOccurrence] searches. *)
Lemma yearly_fires_in_window cron start :
  cron_wf cron -> matchingDayIndexes cron <> [] ->
  yearlyGapExceeded (matchingDayIndexes cron) = false ->
  exists t, start <= t <= start + CRON_SEARCH_LIMIT_DAYS * DAY_MS /\ fires_at cron t.
Proof.
  intros Hwf Hne Hgap. pose proof (day_of_bounds start) as Hb. set (D := day_of start) in *.
  assert (exists x, x ∈ timesOfDay cron /\ 0 <= x < 1440) as (x & Hx & Hxr).
  { destruct (timesOfDay_spec cron Hwf) as [_ Hmem].
    destruct Hwf as ((Hm & Hmr) & (Hh & Hhr) & _).
    apply set_choose_L in Hm as [m Hm]. apply set_choose_L in Hh as [h Hh].
    exists (h * 60 + m). split; [apply Hmem; eauto|].
    apply Hmr in Hm. apply Hhr in Hh. lia. }
  destruct (yearly_next_day cron (D - 1) Hne Hgap) as (D1 & HD1 & Hf1).
  destruct (yearly_next_day cron D Hne Hgap) as (D2 & HD2 & Hf2).
  unfold CRON_SEARCH_LIMIT_DAYS, DAY_MS, MINUTE_MS in *.
  destruct (Z.le_gt_cases start (D1 * 86400000 + x * 60000)) as [Hle|Hgt].
  - exists (D1 * 86400000 + x * 60000). split; [|by apply fires_compose].
    destruct (decide (D1 <= D + 364)); [lia|]. lia.
  - exists (D2 * 86400000 + x * 60000). split; [lia|by apply fires_compose].
Qed.

(** The search of an accepted schedule succeeds. *)
Lemma accepted_next expr cron after :
  validateAutomationSchedule (Some expr) = None -> parseCronExpression expr = Ok cron ->
  0 <= after -> exists r, nextCronOccurrence cron (Some after) = Some (Ok r) /\ after < r.
Proof.
  intros Hv Hp Hafter. pose proof (cron_wf_of_parse _ _ Hp) as Hwf.
  apply validate_inv in Hv as (cron' & Hp' & Hne & Hgap & _).
  assert (cron' = cron) as -> by congruence.
  pose proof (search_correct cron after Hafter) as Hs.
  pose proof (search_start_after after Hafter) as (_ & _ & Hstart & _).
  destruct (nextCronOccurrence cron (Some after)) as [[r|e]|]; simpl in Hs; [|exfalso|done].
  { exists r. split; [done|lia]. }
  destruct Hs as [_ Hnone].
  destruct (yearly_fires_in_window cron (search_start after) Hwf Hne Hgap) as (t & Ht & Hf).
  by apply (Hnone t).
Qed.

(** For an accepted schedule [nextCronOccurrence] always finds an occurrence:
    it never throws and never runs out of fuel, whatever the start. *)
Theorem accepted_schedule_has_next expr cron after :
  validateAutomationSchedule (Some expr) = None -> parseCronExpression expr = Ok cron ->
  0 <= after -> exists r, nextCronOccurrence cron (Some after) = Some (Ok r) /\ after < r.
Proof. apply accepted_next. Qed.

(** ** Schedules that fire every day

    When every day matches, the day scan is the whole 400-year range; its checks
    are then decided without evaluating the scan. *)

Definition every_day (cron : ParsedCronExpression) : bool :=
  forallb_range 12 1 (has (months cron)) && forallb_range 31 1 (has (daysOfMonth cron))
  && forallb_range 7 0 (has (daysOfWeek cron)).

Lemma every_day_matches cron t : every_day cron = true -> cronDayMatches cron t = true.
Proof.
  unfold every_day. intros H. zb. unfold cronDayMatches.
  rewrite (forallb_range_spec 12 1 (has (months cron))); [|done|].
  2:{ unfold getUTCMonth. pose proof (civil_month_range (day_of t)). lia. }
  rewrite (forallb_range_spec 31 1 (has (daysOfMonth cron))); [|done|].
  2:{ unfold getUTCDate. pose proof (civil_date_range (day_of t)). lia. }
  rewrite (forallb_range_spec 7 0 (has (daysOfWeek cron))); [|done|].
  2:{ unfold getUTCDay. pose proof (Z.mod_pos_bound (day_of t + 4) 7). lia. }
  by destruct (_ && _).
Qed.

Lemma full_scan cron fuel day :
  every_day cron = true -> matching_days_from cron fuel day = seqZ day (Z.of_nat fuel).
Proof.
  intros H. revert day; induction fuel as [|fuel IH]; intros day; [done|].
  cbn [matching_days_from]. rewrite (every_day_matches cron _ H), IH.
  rewrite (seqZ_cons day) by lia. f_equal. f_equal; lia.
Qed.

Lemma last_seqZ day n : 0 < n -> List.last (seqZ day n) 0 = day + n - 1.
Proof.
  intros Hn. replace n with (Z.pred n + 1) by lia.
  rewrite seqZ_app by lia. rewrite (seqZ_cons _ 1), (seqZ_nil _ (Z.pred 1)) by lia.
  rewrite List.last_last. lia.
Qed.

Lemma some_gap_seqZ p day n :
  some_gap p (seqZ day (Z.of_nat n)) = match n with O | S O => false | _ => p 1 end.
Proof.
  revert day; induction n as [|n IH]; intros day; [done|].
  rewrite seqZ_cons by lia. replace (Z.pred (Z.of_nat (S n))) with (Z.of_nat n) by lia.
  specialize (IH (Z.succ day)). destruct n as [|n]; [done|].
  rewrite seqZ_cons in IH |- * by lia. cbn [some_gap]. cbn [some_gap] in IH. rewrite IH.
  replace (Z.succ day - day) with 1 by lia. destruct n; [by rewrite orb_false_r|].
  by destruct (p 1).
Qed.

Lemma every_day_scan cron :
  every_day cron = true ->
  matchingDayIndexes cron <> [] /\ yearlyGapExceeded (matchingDayIndexes cron) = false
  /\ firesOnConsecutiveDays (matchingDayIndexes cron) = true.
Proof.
  intros H. unfold matchingDayIndexes. rewrite (full_scan cron _ 0 H).
  assert (Hn : Z.of_nat (Z.to_nat DAY_SCAN_DAYS) = DAY_SCAN_DAYS) by (unfold DAY_SCAN_DAYS; lia).
  assert (Hl : List.last (seqZ 0 DAY_SCAN_DAYS) 0 = DAY_SCAN_DAYS - 1).
  { rewrite last_seqZ; unfold DAY_SCAN_DAYS; lia. }
  assert (Hg : forall p, p 1 = false -> some_gap p (seqZ 0 DAY_SCAN_DAYS) = false).
  { intros p Hp. rewrite <- Hn, some_gap_seqZ. by repeat case_match. }
  rewrite Hn. unfold yearlyGapExceeded, firesOnConsecutiveDays. rewrite Hl.
  rewrite (Hg (fun gap => CRON_SEARCH_LIMIT_DAYS <? gap) eq_refl).
  rewrite (seqZ_cons 0 DAY_SCAN_DAYS) by (unfold DAY_SCAN_DAYS; lia).
  split; [discriminate|split; reflexivity].
Qed.

(** [0 0 * * *] and [@daily] fire once a day, and are accepted. *)
Definition daily : ParsedCronExpression :=
  {| minutes := {[0]}; hours := {[0]};
     daysOfMonth := add_steps 31 1 31 1 ∅; months := add_steps 12 1 12 1 ∅;
     daysOfWeek := normalize_days_of_week (add_steps 8 0 7 1 ∅);
     daysOfMonthRestricted := false; daysOfWeekRestricted := false |}.

Lemma daily_parse : parseCronExpression "@daily" = Ok daily.
Proof. vm_compute. reflexivity. Qed.

Lemma daily_accepted : validateAutomationSchedule (Some "@daily"%string) = None.
Proof.
  unfold validateAutomationSchedule. rewrite daily_parse.
  destruct (every_day_scan daily) as (Hne & Hg & Hc); [vm_compute; reflexivity|].
  assert (is_blank "@daily" = false) as -> by reflexivity.
  assert ((AUTOMATION_SCHEDULE_MAX_LENGTH <? String.length "@daily")%nat = false) as -> by reflexivity.
  assert (Hm : minimumCronIntervalMinutes daily (matchingDayIndexes daily) = Some 1440).
  { unfold minimumCronIntervalMinutes. rewrite Hc. vm_compute. reflexivity. }
  rewrite Hg, Hm. by destruct (matchingDayIndexes daily).
Qed.

(** Every instant of midnight is a firing of the daily schedule. *)
Lemma daily_fires D : fires_at daily (D * DAY_MS).
Proof.
  assert (Hwf : cron_wf daily) by (apply (cron_wf_of_parse "@daily"); apply daily_parse).
  replace (D * DAY_MS) with (D * DAY_MS + 0 * MINUTE_MS) by lia.
  apply fires_compose; [done|vm_compute; left|].
  apply every_day_matches. vm_compute. reflexivity.
Qed.

Lemma accepted_schedule_min_gap_witness :
  0 + MIN_AUTOMATION_SCHEDULE_INTERVAL_MINUTES * MINUTE_MS <= DAY_MS.
Proof.
  exact (accepted_schedule_min_gap "@daily" daily 0 DAY_MS daily_accepted daily_parse
           (daily_fires 0) (daily_fires 1) eq_refl).
Defined.

Lemma accepted_schedule_has_next_witness :
  exists r, nextCronOccurrence daily (Some 5) = Some (Ok r) /\ 5 < r.
Proof.
  apply (accepted_schedule_has_next "@daily" daily 5 daily_accepted daily_parse). lia.
Defined.
