(* ===== verification/ScheduleSlot.v ===== *)
(** * The latest due slot of a schedule

    src/agentRunScheduler.ts: [latestDueSlot] finds the last occurrence that is due by a
    binary search over minutes, on top of the cron evaluator. *)

From S2P Require Import Prelude Calendar Cron CronFacts CronValidate.

Open Scope Z_scope.

(** [nextCronOccurrence(cron, new Date(time)).getTime()] *)
Definition following (cron : ParsedCronExpression) (time : Z) : result Z :=
  match nextCronOccurrence cron (Some time) with Some r => r | None => Throw "out of fuel" end.

(** Invariant: the occurrence after minute [low] is due, the one after [high] is not. *)
Fixpoint search_slot (fuel : nat) (cron : ParsedCronExpression) (now low high : Z) : result Z :=
  match fuel with
  | O => Throw "out of fuel"
  | S fuel =>
      if 1 <? high - low then
        let middle := (low + high) / 2 in
        next ← following cron (middle * MINUTE_MS);
        if next <=? now then search_slot fuel cron now middle high else search_slot fuel cron now low middle
      else following cron (low * MINUTE_MS)
  end.

Definition latestDueSlot (cron : ParsedCronExpression) (claimedSlot now : Z) : result Z :=
  next ← following cron claimedSlot;
  if now <? next then Ok claimedSlot
  else
    let low := claimedSlot / MINUTE_MS in
    let high := now / MINUTE_MS in
    search_slot (S (Z.to_nat (high - low))) cron now low high.

Lemma following_spec cron time r : 0 <= time -> following cron time = Ok r ->
  time < r /\ fires_at cron r /\ forall t, time < t < r -> ~ fires_at cron t.
Proof.
  intros H. unfold following. destruct (nextCronOccurrence cron (Some time)) as [[x|e]|] eqn:E; intros [= ->]. by apply next_least.
Qed.

(** What the search keeps true of its bounds. *)
Definition due_after (cron : ParsedCronExpression) (now low : Z) : Prop := exists r, low * MINUTE_MS < r <= now /\ fires_at cron r.
Definition none_due_after (cron : ParsedCronExpression) (now high : Z) : Prop := forall t, high * MINUTE_MS < t <= now -> ~ fires_at cron t.

(** [r] is the last occurrence by [now]. *)
Definition last_occurrence (cron : ParsedCronExpression) (now r : Z) : Prop :=
  r <= now /\ fires_at cron r /\ forall t, r < t <= now -> ~ fires_at cron t.

Lemma search_slot_correct cron now fuel : forall low high r,
  0 <= low < high -> due_after cron now low -> none_due_after cron now high ->
  search_slot fuel cron now low high = Ok r -> last_occurrence cron now r.
Proof.
  induction fuel as [|fuel IH]; intros low high r Hlow Hdue Hnone Hr; [done|]. cbn [search_slot] in Hr.
  unfold MINUTE_MS in *. destruct (1 <? high - low) eqn:E; zb.
  - assert (Hm : low < (low + high) / 2 < high) by (pose proof (Z.div_mod (low + high) 2); pose proof (Z.mod_pos_bound (low + high) 2); lia).
    apply result_bind_Ok in Hr as (next & Hn & Hr). apply following_spec in Hn as (Hgt & Hf & Hmin); [|lia].
    destruct (next <=? now) eqn:En; zb.
    + refine (IH _ _ _ _ _ _ Hr); [lia| |done]. exists next. unfold MINUTE_MS. by split; [lia|].
    + refine (IH _ _ _ _ _ _ Hr); [lia|done|]. intros t Ht. unfold MINUTE_MS in Ht. apply Hmin. lia.
  - apply following_spec in Hr as (Hgt & Hf & Hmin); [|lia]. destruct Hdue as (d & Hd & Hfd). unfold MINUTE_MS in Hd.
    assert (r <= d) by (destruct (Z.le_gt_cases r d); [done|]; exfalso; apply (Hmin d); [lia|done]).
    split_and!; [lia|done|]. intros t Ht. apply Hnone. destruct Hf as [Ha _]. unfold MINUTE_MS in *.
    pose proof (Z.div_mod r 60000). lia.
Qed.

Lemma search_slot_returns cron now fuel : forall low high,
  (forall t, 0 <= t -> exists r, following cron t = Ok r) -> 0 <= low -> (Z.to_nat (high - low) < fuel)%nat ->
  exists r, search_slot fuel cron now low high = Ok r.
Proof.
  induction fuel as [|fuel IH]; intros low high Htotal Hlow Hfuel; [lia|]. cbn [search_slot].
  destruct (1 <? high - low) eqn:E; zb; [|apply Htotal; unfold MINUTE_MS; lia].
  assert (Hm : low < (low + high) / 2 < high) by (pose proof (Z.div_mod (low + high) 2); pose proof (Z.mod_pos_bound (low + high) 2); lia).
  destruct (Htotal ((low + high) / 2 * MINUTE_MS)) as [next ->]; [unfold MINUTE_MS; lia|]. simpl.
  destruct (next <=? now); apply IH; (done || lia).
Qed.

(** The latest due slot, whenever one is found. *)
Lemma latestDueSlot_correct cron claimed now r :
  0 <= claimed <= now -> fires_at cron claimed -> latestDueSlot cron claimed now = Ok r ->
  claimed <= r /\ last_occurrence cron now r.
Proof.
  intros Hc Hf Hr. unfold latestDueSlot in Hr. apply result_bind_Ok in Hr as (next & Hn & Hr).
  apply following_spec in Hn as (Hgt & Hfn & Hmin); [|lia]. destruct (now <? next) eqn:E; zb.
  - injection Hr as <-. split; [lia|]. split_and!; [lia|done|]. intros t Ht. apply Hmin. lia.
  - destruct Hf as [Ha Hday], Hfn as [Han Hdayn]. unfold MINUTE_MS in *. cbv zeta in Hr.
    assert (Hl : claimed / 60000 * 60000 = claimed) by (pose proof (Z.div_mod claimed 60000); lia).
    apply search_slot_correct in Hr.
    + split; [|done]. destruct Hr as (Hrn & Hfr & Hlast). destruct (Z.le_gt_cases claimed r) as [|Hlt]; [done|].
      exfalso. apply (Hlast claimed); [lia|]. by split.
    + pose proof (Z.div_mod now 60000). pose proof (Z.mod_pos_bound now 60000). pose proof (Z.div_mod claimed 60000).
      pose proof (Z.div_mod next 60000). lia.
    + exists next. unfold MINUTE_MS. split; [lia|by split].
    + intros t Ht [Hta _]. unfold MINUTE_MS in *. pose proof (Z.div_mod now 60000). pose proof (Z.mod_pos_bound now 60000). pose proof (Z.div_mod t 60000). lia.
Qed.

(** Missed slots coalesce into the latest one: for an accepted schedule and a due slot
    at which it fires, [latestDueSlot] returns the last occurrence at or before [now],
    however long the scheduler was down. *)
Theorem latestDueSlot_is_last expr cron claimed now :
  validateAutomationSchedule (Some expr) = None -> parseCronExpression expr = Ok cron ->
  0 <= claimed <= now -> fires_at cron claimed ->
  exists r, latestDueSlot cron claimed now = Ok r /\ claimed <= r <= now /\ fires_at cron r /\ forall t, r < t <= now -> ~ fires_at cron t.
Proof.
  intros Hv Hp Hc Hf.
  assert (Htotal : forall t, 0 <= t -> exists r, following cron t = Ok r).
  { intros t Ht. destruct (accepted_next expr cron t Hv Hp Ht) as (r & Hr & _). exists r. unfold following. by rewrite Hr. }
  assert (Hret : exists r, latestDueSlot cron claimed now = Ok r).
  { unfold latestDueSlot. destruct (Htotal claimed) as [next ->]; [lia|]. cbn [mbind result_bind]. destruct (now <? next); [by eexists|]. cbv zeta.
    apply search_slot_returns; [done|apply Z.div_pos; unfold MINUTE_MS; lia|lia]. }
  destruct Hret as [r Hr]. exists r. split; [done|].
  destruct (latestDueSlot_correct cron claimed now r Hc Hf Hr) as (Hle & Hn & Hfr & Hlast). split_and!; done.
Qed.

Lemma latestDueSlot_is_last_witness :
  latestDueSlot daily 0 (40 * DAY_MS + 7) = Ok (40 * DAY_MS)
  /\ exists r, latestDueSlot daily 0 (40 * DAY_MS + 7) = Ok r /\ 0 <= r <= 40 * DAY_MS + 7 /\ fires_at daily r
       /\ forall t, r < t <= 40 * DAY_MS + 7 -> ~ fires_at daily t.
Proof.
  split; [vm_compute; reflexivity|].
  apply (latestDueSlot_is_last "@daily" daily 0 (40 * DAY_MS + 7) daily_accepted daily_parse); [unfold DAY_MS; lia|exact (daily_fires 0)].
Defined.
