(* ===== verification/Redis.v ===== *)
(** * The Redis server, as an interface

    The server is not part of this repository: the scripts and stores that use it
    are proved against the class [RedisServer], which names the commands they call
    and states the documented behaviour they rely on. Observations ([clock],
    [zset], [hash], [expiry]) are what a client reads at the server's current
    time; a key with an expiry in the past reads as missing. A key is only used
    with one type, as the key names of the source guarantee.

    [model] is a concrete server that satisfies every law; the witnesses evaluate
    scripts on it. *)

From S2P Require Import Prelude.

Open Scope Z_scope.

(** ** Sorted sets, hashes and key expiry *)

Class RedisServer (db : Type) := {
  (** Server time in milliseconds; scripts read it once ([TIME] is in seconds). *)
  clock : db -> Z;
  zset : db -> string -> gmap string Z;
  hash : db -> string -> gmap string Z;
  expiry : db -> string -> option Z;

  ZADD : string -> Z -> string -> db -> db;
  ZADD_NX : string -> Z -> string -> db -> db;
  ZREM : string -> string -> db -> db;
  ZREMRANGEBYSCORE : string -> Z -> db -> db;
  HSET : string -> string -> Z -> db -> db;
  HDEL : string -> string -> db -> db;
  EXPIRE : string -> Z -> db -> db;
  (** Time passes; no command runs. *)
  elapse : Z -> db -> db;

  clock_ZADD k s m d : clock (ZADD k s m d) = clock d;
  zset_ZADD k s m d k' :
    zset (ZADD k s m d) k' = if decide (k' = k) then <[m := s]> (zset d k) else zset d k';
  hash_ZADD k s m d k' : hash (ZADD k s m d) k' = hash d k';
  expiry_ZADD k s m d k' : expiry (ZADD k s m d) k' = expiry d k';

  clock_ZADD_NX k s m d : clock (ZADD_NX k s m d) = clock d;
  zset_ZADD_NX k s m d k' :
    zset (ZADD_NX k s m d) k'
    = if decide (k' = k)
      then (if decide (m ∈ dom (zset d k)) then zset d k else <[m := s]> (zset d k))
      else zset d k';
  hash_ZADD_NX k s m d k' : hash (ZADD_NX k s m d) k' = hash d k';
  expiry_ZADD_NX k s m d k' : expiry (ZADD_NX k s m d) k' = expiry d k';

  clock_ZREM k m d : clock (ZREM k m d) = clock d;
  zset_ZREM k m d k' :
    zset (ZREM k m d) k' = if decide (k' = k) then delete m (zset d k) else zset d k';
  hash_ZREM k m d k' : hash (ZREM k m d) k' = hash d k';
  expiry_ZREM k m d k' :
    k' <> k \/ delete m (zset d k) <> ∅ -> expiry (ZREM k m d) k' = expiry d k';

  (** [ZREMRANGEBYSCORE key -inf max] *)
  clock_ZREMRANGEBYSCORE k max d : clock (ZREMRANGEBYSCORE k max d) = clock d;
  zset_ZREMRANGEBYSCORE k max d k' :
    zset (ZREMRANGEBYSCORE k max d) k'
    = if decide (k' = k) then filter (fun ms => max < ms.2) (zset d k) else zset d k';
  hash_ZREMRANGEBYSCORE k max d k' : hash (ZREMRANGEBYSCORE k max d) k' = hash d k';
  expiry_ZREMRANGEBYSCORE k max d k' :
    k' <> k \/ filter (fun ms => max < ms.2) (zset d k) <> ∅ ->
    expiry (ZREMRANGEBYSCORE k max d) k' = expiry d k';

  clock_HSET k f v d : clock (HSET k f v d) = clock d;
  zset_HSET k f v d k' : zset (HSET k f v d) k' = zset d k';
  hash_HSET k f v d k' :
    hash (HSET k f v d) k' = if decide (k' = k) then <[f := v]> (hash d k) else hash d k';
  expiry_HSET k f v d k' : expiry (HSET k f v d) k' = expiry d k';

  clock_HDEL k f d : clock (HDEL k f d) = clock d;
  zset_HDEL k f d k' : zset (HDEL k f d) k' = zset d k';
  hash_HDEL k f d k' :
    hash (HDEL k f d) k' = if decide (k' = k) then delete f (hash d k) else hash d k';
  expiry_HDEL k f d k' :
    k' <> k \/ delete f (hash d k) <> ∅ -> expiry (HDEL k f d) k' = expiry d k';

  clock_EXPIRE k secs d : clock (EXPIRE k secs d) = clock d;
  zset_EXPIRE k secs d k' : zset (EXPIRE k secs d) k' = zset d k';
  hash_EXPIRE k secs d k' : hash (EXPIRE k secs d) k' = hash d k';
  expiry_EXPIRE_ne k secs d k' : k' <> k -> expiry (EXPIRE k secs d) k' = expiry d k';
  expiry_EXPIRE k secs d :
    zset d k <> ∅ \/ hash d k <> ∅ -> expiry (EXPIRE k secs d) k = Some (clock d + secs * 1000);

  clock_elapse n d : 0 <= n -> clock (elapse n d) = clock d + n;
  live_elapse n d k :
    0 <= n -> (forall e, expiry d k = Some e -> clock d + n <= e) ->
    zset (elapse n d) k = zset d k /\ hash (elapse n d) k = hash d k
    /\ expiry (elapse n d) k = expiry d k;
  expired_elapse n d k e :
    0 <= n -> expiry d k = Some e -> e < clock d + n ->
    zset (elapse n d) k = ∅ /\ hash (elapse n d) k = ∅;
}.

Section Commands.
Context {db : Type} `{!RedisServer db}.

(** [TIME]'s first element: whole seconds. *)
Definition TIME (d : db) : Z := clock d / 1000.

(** [ZRANGEBYSCORE key -inf max], as the members in some order. *)
Definition ZRANGEBYSCORE (k : string) (max : Z) (d : db) : list string :=
  (map_to_list (filter (fun ms => ms.2 <= max) (zset d k))).*1.

Definition ZCARD (k : string) (d : db) : Z := Z.of_nat (size (zset d k)).
Definition HVALS (k : string) (d : db) : list Z := (map_to_list (hash d k)).*2.

(** Sorted sets are ordered by score, then by member. *)
Definition zset_le (x y : string * Z) : Prop :=
  x.2 < y.2 \/ (x.2 = y.2 /\ String.le x.1 y.1).
#[global] Instance zset_le_dec : RelDecision zset_le.
Proof. intros x y. unfold zset_le. apply _. Defined.
#[global] Instance zset_le_total : Total zset_le.
Proof. intros [m1 s1] [m2 s2]. unfold zset_le; simpl.
  destruct (Z.lt_trichotomy s1 s2) as [?|[?|?]], (total String.le m1 m2); auto. Qed.
#[global] Instance zset_le_trans : Transitive zset_le.
Proof.
  intros [m1 s1] [m2 s2] [m3 s3]. unfold zset_le; simpl. intros [?|[? ?]] [?|[? ?]]; [lia..|].
  right. split; [lia|by transitivity m2].
Qed.

(** [ZRANGE key 0 stop] *)
Definition ZRANGE (k : string) (stop : Z) (d : db) : list string :=
  (firstn (Z.to_nat (stop + 1)) (merge_sort zset_le (map_to_list (zset d k)))).*1.

(** [for _, member in ipairs(members) do redis.call('HDEL', key, member) end] *)
Definition HDEL_all (k : string) (ms : list string) (d : db) : db :=
  foldl (fun d m => HDEL k m d) d ms.
Definition ZREM_all (k : string) (ms : list string) (d : db) : db :=
  foldl (fun d m => ZREM k m d) d ms.

Lemma clock_HDEL_all k ms d : clock (HDEL_all k ms d) = clock d.
Proof.
  revert d; induction ms as [|m ms IH]; intros d; [done|]. simpl. by rewrite IH, clock_HDEL.
Qed.
Lemma zset_HDEL_all k ms d k' : zset (HDEL_all k ms d) k' = zset d k'.
Proof. revert d; induction ms as [|m ms IH]; intros d; [done|]. simpl. by rewrite IH, zset_HDEL. Qed.
Lemma hash_HDEL_all_ne k ms d k' : k' <> k -> hash (HDEL_all k ms d) k' = hash d k'.
Proof.
  intros Hk. revert d; induction ms as [|m ms IH]; intros d; [done|]. simpl.
  by rewrite IH, hash_HDEL, decide_False.
Qed.
Lemma hash_HDEL_all k ms d :
  hash (HDEL_all k ms d) k = filter (fun fv => fv.1 ∉ ms) (hash d k).
Proof.
  revert d; induction ms as [|m ms IH]; intros d; simpl.
  - symmetry. apply map_filter_id. set_solver.
  - rewrite IH, hash_HDEL, decide_True by done. apply map_eq. intros f.
    apply option_eq. intros v. rewrite !map_lookup_filter_Some, lookup_delete_Some. set_solver.
Qed.
Lemma expiry_HDEL_all k ms d k' :
  k' <> k \/ (exists f, f ∈ dom (hash d k) /\ f ∉ ms) ->
  expiry (HDEL_all k ms d) k' = expiry d k'.
Proof.
  revert d; induction ms as [|m ms IH]; intros d Hne; [done|]. simpl.
  rewrite IH, expiry_HDEL; [done|..].
  - destruct Hne as [?|(f & Hf & Hm)]; [by left|right]. intros He.
    assert (f ∈ dom (delete m (hash d k))) by set_solver. rewrite He in *. set_solver.
  - destruct Hne as [?|(f & Hf & Hm)]; [by left|right]. exists f.
    rewrite hash_HDEL, decide_True by done. set_solver.
Qed.

Lemma clock_ZREM_all k ms d : clock (ZREM_all k ms d) = clock d.
Proof. revert d; induction ms as [|m ms IH]; intros d; [done|]. simpl. by rewrite IH, clock_ZREM. Qed.
Lemma hash_ZREM_all k ms d k' : hash (ZREM_all k ms d) k' = hash d k'.
Proof. revert d; induction ms as [|m ms IH]; intros d; [done|]. simpl. by rewrite IH, hash_ZREM. Qed.
Lemma zset_ZREM_all_ne k ms d k' : k' <> k -> zset (ZREM_all k ms d) k' = zset d k'.
Proof.
  intros Hk. revert d; induction ms as [|m ms IH]; intros d; [done|]. simpl.
  by rewrite IH, zset_ZREM, decide_False.
Qed.
Lemma zset_ZREM_all k ms d :
  zset (ZREM_all k ms d) k = filter (fun ms' => ms'.1 ∉ ms) (zset d k).
Proof.
  revert d; induction ms as [|m ms IH]; intros d; simpl.
  - symmetry. apply map_filter_id. set_solver.
  - rewrite IH, zset_ZREM, decide_True by done. apply map_eq. intros f.
    apply option_eq. intros v. rewrite !map_lookup_filter_Some, lookup_delete_Some. set_solver.
Qed.
Lemma expiry_ZREM_all_ne k ms d k' : k' <> k -> expiry (ZREM_all k ms d) k' = expiry d k'.
Proof.
  intros Hk. revert d; induction ms as [|m ms IH]; intros d; [done|]. simpl.
  rewrite IH, expiry_ZREM; [done|by left].
Qed.

Lemma ZRANGEBYSCORE_spec k max d m :
  m ∈ ZRANGEBYSCORE k max d <-> exists s, zset d k !! m = Some s /\ s <= max.
Proof.
  unfold ZRANGEBYSCORE. rewrite list_elem_of_fmap. split.
  - intros ([m' s] & -> & Hin). apply elem_of_map_to_list, map_lookup_filter_Some in Hin.
    exists s. by simpl in *.
  - intros (s & Hs & Hle). exists (m, s). split; [done|].
    by apply elem_of_map_to_list, map_lookup_filter_Some.
Qed.

Lemma HVALS_spec k d v : v ∈ HVALS k d <-> exists f, hash d k !! f = Some v.
Proof.
  unfold HVALS. rewrite list_elem_of_fmap. split.
  - intros ([f v'] & -> & Hin). apply elem_of_map_to_list in Hin. by exists f.
  - intros (f & Hf). exists (f, v). split; [done|]. by apply elem_of_map_to_list.
Qed.

(** [ZRANGE key 0 stop] returns the [stop + 1] members of least score. *)
Lemma ZRANGE_length k stop d : 0 <= stop + 1 -> Z.of_nat (length (ZRANGE k stop d)) <= stop + 1.
Proof. intros H. unfold ZRANGE. rewrite length_fmap, length_firstn. lia. Qed.

Lemma ZRANGE_least k stop d m :
  m ∈ ZRANGE k stop d ->
  exists s, zset d k !! m = Some s
  /\ forall m' s', zset d k !! m' = Some s' -> m' ∉ ZRANGE k stop d -> s <= s'.
Proof.
  unfold ZRANGE. set (l := merge_sort zset_le (map_to_list (zset d k))).
  set (n := Z.to_nat (stop + 1)). intros ([m1 s] & -> & Hin)%list_elem_of_fmap.
  assert (Hmem : forall x, x ∈ l <-> zset d k !! x.1 = Some x.2).
  { intros [x y]. unfold l. rewrite merge_sort_Permutation. apply elem_of_map_to_list. }
  assert (Hs : StronglySorted zset_le l) by apply (StronglySorted_merge_sort zset_le).
  exists s. split.
  { apply (Hmem (m1, s)). rewrite <- (firstn_skipn n l). apply elem_of_app. by left. }
  intros m' s' Hm' Hn.
  assert (Hskip : (m', s') ∈ skipn n l).
  { assert (Hl : (m', s') ∈ l) by by apply Hmem. rewrite <- (firstn_skipn n l) in Hl.
    apply elem_of_app in Hl as [Hl|Hl]; [|done]. exfalso. apply Hn, list_elem_of_fmap. by exists (m', s'). }
  rewrite <- (firstn_skipn n l) in Hs. apply StronglySorted_app in Hs as (Hle & _ & _).
  destruct (Hle (m1, s) (m', s') Hin Hskip) as [?|[? _]]; simpl in *; lia.
Qed.

End Commands.

(** ** A concrete server *)

Record keyed := Keyed { content : gmap string Z; expires : option Z }.

Record model := Model { now_ms : Z; zkeys : gmap string keyed; hkeys : gmap string keyed }.

Module ModelServer.

Definition contents (m : gmap string keyed) (k : string) : gmap string Z :=
  match m !! k with Some e => content e | None => ∅ end.
Definition expires_of (m : gmap string keyed) (k : string) : option Z := m !! k ≫= expires.

(** A key whose content becomes empty is deleted, with its expiry. *)
Definition set_key (k : string) (c : gmap string Z) (m : gmap string keyed) : gmap string keyed :=
  if decide (c = ∅) then delete k m else <[k := Keyed c (expires_of m k)]> m.

Definition upd_z (k : string) (f : gmap string Z -> gmap string Z) (d : model) : model :=
  Model (now_ms d) (set_key k (f (contents (zkeys d) k)) (zkeys d)) (hkeys d).
Definition upd_h (k : string) (f : gmap string Z -> gmap string Z) (d : model) : model :=
  Model (now_ms d) (zkeys d) (set_key k (f (contents (hkeys d) k)) (hkeys d)).

Definition model_expiry (d : model) (k : string) : option Z :=
  match expires_of (zkeys d) k with Some e => Some e | None => expires_of (hkeys d) k end.

Definition expire_key (e : Z) : keyed -> keyed := fun x => Keyed (content x) (Some e).

Definition model_expire (k : string) (secs : Z) (d : model) : model :=
  let e := now_ms d + secs * 1000 in
  Model (now_ms d) (alter (expire_key e) k (zkeys d)) (alter (expire_key e) k (hkeys d)).

Definition alive (d : model) (t : Z) (k : string) : bool :=
  match model_expiry d k with Some e => t <=? e | None => true end.

Definition model_elapse (n : Z) (d : model) : model :=
  let t := now_ms d + n in
  Model t (filter (fun ke => alive d t ke.1 = true) (zkeys d))
          (filter (fun ke => alive d t ke.1 = true) (hkeys d)).

Lemma contents_set_key k c m k' :
  contents (set_key k c m) k' = if decide (k' = k) then c else contents m k'.
Proof.
  unfold set_key, contents. repeat case_decide; subst; by simplify_map_eq.
Qed.

Lemma expires_set_key k c m k' :
  k' <> k \/ c <> ∅ -> expires_of (set_key k c m) k' = expires_of m k'.
Proof.
  intros H. unfold set_key, expires_of. case_decide; subst.
  - destruct H; [by simplify_map_eq|done].
  - destruct (decide (k' = k)) as [->|]; by simplify_map_eq.
Qed.

Lemma contents_alter f k m k' :
  (forall x, content (f x) = content x) -> contents (alter f k m) k' = contents m k'.
Proof.
  intros Hf. unfold contents. destruct (decide (k' = k)) as [->|].
  - rewrite lookup_alter_eq. destruct (m !! k); simpl; [apply Hf|done].
  - by rewrite lookup_alter_ne.
Qed.

Lemma expires_alter_ne f k m k' : k' <> k -> expires_of (alter f k m) k' = expires_of m k'.
Proof. intros. unfold expires_of. by rewrite lookup_alter_ne. Qed.

Lemma upd_z_expiry k f d k' :
  k' <> k \/ f (contents (zkeys d) k) <> ∅ -> model_expiry (upd_z k f d) k' = model_expiry d k'.
Proof. intros H. unfold model_expiry; simpl. by rewrite expires_set_key. Qed.

Lemma upd_h_expiry k f d k' :
  k' <> k \/ f (contents (hkeys d) k) <> ∅ -> model_expiry (upd_h k f d) k' = model_expiry d k'.
Proof. intros H. unfold model_expiry; simpl. by rewrite expires_set_key. Qed.

Lemma model_expire_ne k secs d k' : k' <> k -> model_expiry (model_expire k secs d) k' = model_expiry d k'.
Proof. intros. unfold model_expiry; simpl. by rewrite !expires_alter_ne. Qed.

Lemma model_expire_eq k secs d :
  contents (zkeys d) k <> ∅ \/ contents (hkeys d) k <> ∅ ->
  model_expiry (model_expire k secs d) k = Some (now_ms d + secs * 1000).
Proof.
  intros H. unfold model_expiry, expires_of, contents in *; simpl. rewrite !lookup_alter_eq.
  destruct (zkeys d !! k); [done|]. destruct (hkeys d !! k); [done|]. by destruct H.
Qed.

Lemma contents_filter_alive d t m k :
  contents (filter (fun ke => alive d t ke.1 = true) m) k = if alive d t k then contents m k else ∅.
Proof.
  unfold contents. rewrite map_lookup_filter. destruct (m !! k); simpl; [|by case_bool].
  destruct (alive d t k) eqn:E; case_guard; simpl in *; congruence.
Qed.

Lemma expires_filter_alive d t m k :
  alive d t k = true -> expires_of (filter (fun ke => alive d t ke.1 = true) m) k = expires_of m k.
Proof.
  intros Ha. unfold expires_of. rewrite map_lookup_filter. destruct (m !! k); simpl; [|done].
  case_guard; simpl in *; congruence.
Qed.

Lemma model_live n d k :
  (forall e, model_expiry d k = Some e -> now_ms d + n <= e) ->
  contents (zkeys (model_elapse n d)) k = contents (zkeys d) k
  /\ contents (hkeys (model_elapse n d)) k = contents (hkeys d) k
  /\ model_expiry (model_elapse n d) k = model_expiry d k.
Proof.
  intros H. assert (Ha : alive d (now_ms d + n) k = true).
  { unfold alive. destruct (model_expiry d k); [|done]. by apply Z.leb_le, H. }
  unfold model_expiry at 1; simpl.
  by rewrite !contents_filter_alive, Ha, !expires_filter_alive by done.
Qed.

Lemma model_expired n d k e :
  model_expiry d k = Some e -> e < now_ms d + n ->
  contents (zkeys (model_elapse n d)) k = ∅ /\ contents (hkeys (model_elapse n d)) k = ∅.
Proof.
  intros He Hlt. assert (Ha : alive d (now_ms d + n) k = false).
  { unfold alive. rewrite He. by apply Z.leb_gt. }
  simpl. by rewrite !contents_filter_alive, Ha.
Qed.

#[export] Instance model_server : RedisServer model.
Proof.
  refine {|
    clock := now_ms;
    zset d k := contents (zkeys d) k;
    hash d k := contents (hkeys d) k;
    expiry := model_expiry;
    ZADD k s m := upd_z k (fun z => <[m := s]> z);
    ZADD_NX k s m := upd_z k (fun z => if decide (m ∈ dom z) then z else <[m := s]> z);
    ZREM k m := upd_z k (delete m);
    ZREMRANGEBYSCORE k max := upd_z k (filter (fun ms => max < ms.2));
    HSET k f v := upd_h k (fun h => <[f := v]> h);
    HDEL k f := upd_h k (delete f);
    EXPIRE := model_expire;
    elapse := model_elapse;
    live_elapse n d k _ := model_live n d k;
    expired_elapse n d k e _ := model_expired n d k e;
    expiry_EXPIRE_ne := model_expire_ne;
    expiry_EXPIRE := model_expire_eq;
    expiry_ZREM k m d k' := upd_z_expiry k (delete m) d k';
    expiry_ZREMRANGEBYSCORE k max d k' := upd_z_expiry k (filter (fun ms => max < ms.2)) d k';
    expiry_HDEL k f d k' := upd_h_expiry k (delete f) d k';
  |}; intros; simpl; try done; try apply contents_set_key; try (by apply contents_alter).
  - apply upd_z_expiry. right. apply insert_non_empty.
  - apply upd_z_expiry. right. case_decide as Hm; [|apply insert_non_empty].
    intros He. rewrite He in Hm. set_solver.
  - apply upd_h_expiry. right. apply insert_non_empty.
Defined.

(** The server with no key, at time [t]. *)
Definition empty_server (t : Z) : model := Model t ∅ ∅.

End ModelServer.
