(* ===== verification/WorkflowSlots.v ===== *)
(** * Repository workflow capacity (packages/core/src/workflow/workflowConcurrency.ts)

    The four Lua scripts that admit, renew, reconcile and release the runs of a
    repository, over any [RedisServer]. [KEYS[1]] is the sorted set of members
    (score: lease deadline in seconds), [KEYS[2]] the hash of each member's own cap
    (0: uncapped), [KEYS[3]] the waiting list (score: first refusal) and [KEYS[4]]
    each waiter's lapse time. Caps travel as decimal integers; the model keeps the
    integers. *)

From S2P Require Import Prelude JsString Redis.

Open Scope Z_scope.

(** ** Keys *)

Definition repositoryWorkflowSlotKeys (repository : string) : string * string * string * string :=
  let key := ("propr:workflow:slots:{" ++ to_lower repository ++ "}")%string in
  (key, (key ++ ":limits")%string, (key ++ ":waiters")%string, (key ++ ":waiting")%string).

Section Scripts.
Context {db : Type} `{!RedisServer db}.
Variables k1 k2 k3 k4 : string.

(** [if other > 0 and (limit == 0 or other < limit) then limit = other end] *)
Definition min_cap (limit other : Z) : Z :=
  if (0 <? other) && ((limit =? 0) || (other <? limit)) then other else limit.

Definition active_limit (own : Z) (caps : list Z) : Z := foldl min_cap own caps.

(** Expired members leave the sorted set and the hash of caps. *)
Definition purge_members (now : Z) (d : db) : db :=
  let expired := ZRANGEBYSCORE k1 now d in
  ZREMRANGEBYSCORE k1 now (HDEL_all k2 expired d).

(** Lapsed waiters leave the waiting list. *)
Definition purge_waiters (now : Z) (d : db) : db :=
  let lapsed := ZRANGEBYSCORE k4 now d in
  ZREMRANGEBYSCORE k4 now (ZREM_all k3 lapsed d).

(** A refused caller joins the waiting list at its first refusal. *)
Definition enqueue (now : Z) (waiter : string) (d : db) : db :=
  if bool_decide (waiter = ""%string) then d
  else
    let d := ZADD_NX k3 now waiter d in
    let d := ZADD k4 (now + 360) waiter d in
    EXPIRE k4 360 (EXPIRE k3 360 d).

Definition dequeue (waiter : string) (d : db) : db :=
  if bool_decide (waiter = ""%string) then d else ZREM k4 waiter (ZREM k3 waiter d).

(** Lease of 120 s for the member; both keys outlive every lease. *)
Definition extend_lease (now : Z) (token : string) (d : db) : db :=
  ZADD k1 (now + 120) token d.
Definition touch_keys (d : db) : db := EXPIRE k2 180 (EXPIRE k1 180 d).

Definition cap_result (limit : Z) : Z := if 0 <? limit then 2 else 1.

Definition ACQUIRE_WORKFLOW_SLOT (token : string) (own : Z) (waiter : string) (d : db) : db * Z :=
  let now := TIME d in
  let d := purge_members now d in
  let d := purge_waiters now d in
  let limit := active_limit own (HVALS k2 d) in
  if (0 <? limit) && (limit <=? ZCARD k1 d) then (enqueue now waiter d, 0)
  else
    let d := dequeue waiter d in
    let d := extend_lease now token d in
    let d := HSET k2 token own d in
    (touch_keys d, cap_result limit).

(** The result is [None] for the empty table, or the number of waiters that may
    fit and the candidates to wake. *)
Definition RELEASE_WORKFLOW_SLOT (token : string) (d : db)
    : db * option (Z * list string) :=
  let now := TIME d in
  let limit := default 0 (hash d k2 !! token) in
  let d := ZREM k1 token d in
  let d := HDEL k2 token d in
  let d := purge_waiters now d in
  let limit := active_limit limit (HVALS k2 d) in
  let free := if 0 <? limit then Z.min 10 (limit - ZCARD k1 d) else 10 in
  if free <=? 0 then (d, None)
  else
    let candidates := ZRANGE k3 (free + 4) d in
    match candidates with [] => (d, None) | _ => (d, Some (free, candidates)) end.

(** [tonumber(redis.call('ZSCORE', key, token))], and [not deadline or deadline <= now] *)
Definition lease_gone (now : Z) (deadline : option Z) : bool :=
  match deadline with None => true | Some s => s <=? now end.

Definition RENEW_WORKFLOW_SLOT (token : string) (own : Z) (d : db) : db * Z :=
  let now := TIME d in
  let deadline := zset d k1 !! token in
  let d := purge_members now d in
  let limit := active_limit own (HVALS k2 d) in
  if lease_gone now deadline && (0 <? limit) then (d, 0)
  else
    let d := if lease_gone now deadline then HSET k2 token own d else d in
    let d := extend_lease now token d in
    (touch_keys d, cap_result limit).

(** The caps of every member but [token]. *)
Definition other_caps (token : string) (d : db) : list Z :=
  (map_to_list (delete token (hash d k2))).*2.

Definition RECONCILE_WORKFLOW_SLOT (token : string) (own : Z) (waiter : string) (d : db) : db * Z :=
  let now := TIME d in
  let deadline := zset d k1 !! token in
  let d := purge_members now d in
  if lease_gone now deadline then (d, -1)
  else
    let limit := active_limit own (other_caps token d) in
    if (0 <? limit) && (limit <? ZCARD k1 d)
    then (enqueue now waiter (HDEL k2 token (ZREM k1 token d)), 0)
    else (HSET k2 token own d, cap_result limit).

Definition forgetRepositoryWorkflowWaiter (waiter : string) (d : db) : db :=
  ZREM k4 waiter (ZREM k3 waiter d).

End Scripts.

(** ** The smallest active cap *)

Lemma min_cap_cases l o :
  0 <= l ->
  (min_cap l o = l /\ (o <= 0 \/ (0 < l /\ l <= o))) \/ (min_cap l o = o /\ 0 < o /\ (l = 0 \/ o < l)).
Proof. intros. unfold min_cap. repeat case_bool; zb; [right|left; lia..]. apply orb_true_iff in H1. destruct H1; zb; lia. Qed.

Lemma active_limit_spec own caps :
  0 <= own ->
  let l := active_limit own caps in
  0 <= l /\ (0 < own -> 0 < l <= own) /\ (forall c, c ∈ caps -> 0 < c -> 0 < l <= c)
  /\ (l = own \/ (l ∈ caps /\ 0 < l)).
Proof.
  revert own; induction caps as [|c caps IH]; intros own Hown; simpl.
  - split_and!; [lia|lia|set_solver|by left].
  - pose proof (min_cap_cases own c Hown) as Hc.
    destruct (IH (min_cap own c)) as (H1 & H2 & H3 & H4); [lia|].
    fold (active_limit (min_cap own c) caps) in *. set (l := active_limit _ _) in *.
    split_and!; [done|lia| |].
    + intros c' [->|Hc']%elem_of_cons Hpos; [lia|by apply H3].
    + destruct H4 as [H4|[H4 ?]]; [|right; split; [by right|done]].
      destruct Hc as [[Hc _]|(Hc & Hp & _)]; [left; congruence|right].
      split; [|lia]. rewrite H4, Hc. left.
Qed.

(** With no active cap the limit is 0, and conversely. *)
Lemma active_limit_zero own caps :
  0 <= own -> (forall c, c ∈ caps -> 0 <= c) ->
  active_limit own caps = 0 <-> own = 0 /\ forall c, c ∈ caps -> c = 0.
Proof.
  intros Hown Hcaps. destruct (active_limit_spec own caps Hown) as (H1 & H2 & H3 & H4).
  split.
  - intros H0. split; [lia|]. intros c Hc. specialize (H3 c Hc). specialize (Hcaps c Hc). lia.
  - intros [-> Hz]. destruct H4 as [H4|[H4 ?]]; [done|]. apply Hz in H4. lia.
Qed.
