(* ===== verification/WorkflowFacts.v ===== *)
(** * Capacity is never exceeded

    The invariant of a repository's capacity under every interleaving of the
    scripts of its runs and the passing of time, and what a run may conclude from
    the answers it gets. *)

From S2P Require Import Prelude JsString Redis WorkflowSlots.

Open Scope Z_scope.

Section Capacity.
Context {db : Type} `{!RedisServer db}.
Variables k1 k2 k3 k4 : string.
Hypothesis Hkeys : NoDup [k1; k2; k3; k4].

Lemma keys_distinct : k1 <> k2 /\ k1 <> k3 /\ k1 <> k4 /\ k2 <> k3 /\ k2 <> k4 /\ k3 <> k4.
Proof. clear -Hkeys. rewrite !NoDup_cons in Hkeys. set_solver. Qed.

(** The members whose lease has not lapsed. *)
Definition live (d : db) : gmap string Z := filter (fun ms => TIME d < ms.2) (zset d k1).

(** ** The invariant

    Members and caps agree, every positive cap bounds the number of members, and
    both keys expire together, after every lease. *)
Definition slots_inv (d : db) : Prop :=
  dom (zset d k1) = dom (hash d k2)
  /\ (forall m cap, hash d k2 !! m = Some cap ->
        0 <= cap /\ (0 < cap -> Z.of_nat (size (zset d k1)) <= cap))
  /\ (forall m s, zset d k1 !! m = Some s -> s <= TIME d + 120)
  /\ (zset d k1 <> ∅ -> exists e, expiry d k1 = Some e /\ expiry d k2 = Some e
        /\ forall m s, zset d k1 !! m = Some s -> s * 1000 <= e).

(** [d'] shows the same members, caps, expiries and time as [d]. *)
Definition same_slots (d d' : db) : Prop :=
  clock d' = clock d /\ zset d' k1 = zset d k1 /\ hash d' k2 = hash d k2
  /\ expiry d' k1 = expiry d k1 /\ expiry d' k2 = expiry d k2.

Lemma same_slots_inv d d' : same_slots d d' -> slots_inv d -> slots_inv d'.
Proof. unfold slots_inv, TIME. intros (-> & -> & -> & -> & ->). done. Qed.

Lemma same_slots_trans d d' d'' : same_slots d d' -> same_slots d' d'' -> same_slots d d''.
Proof. unfold same_slots. intuition congruence. Qed.

Ltac frame :=
  pose proof keys_distinct as (? & ? & ? & ? & ? & ?);
  unfold same_slots;
  repeat first
    [ rewrite clock_ZADD | rewrite clock_ZADD_NX | rewrite clock_ZREM | rewrite clock_ZREM_all
    | rewrite clock_ZREMRANGEBYSCORE | rewrite clock_EXPIRE
    | rewrite zset_ZADD, decide_False by congruence
    | rewrite zset_ZADD_NX, decide_False by congruence
    | rewrite zset_ZREM, decide_False by congruence
    | rewrite zset_ZREM_all_ne by congruence
    | rewrite zset_ZREMRANGEBYSCORE, decide_False by congruence
    | rewrite zset_EXPIRE
    | rewrite hash_ZADD | rewrite hash_ZADD_NX | rewrite hash_ZREM | rewrite hash_ZREM_all
    | rewrite hash_ZREMRANGEBYSCORE | rewrite hash_EXPIRE
    | rewrite expiry_ZADD | rewrite expiry_ZADD_NX
    | rewrite expiry_ZREM by (left; congruence) | rewrite expiry_ZREM_all_ne by congruence
    | rewrite expiry_ZREMRANGEBYSCORE by (left; congruence)
    | rewrite expiry_EXPIRE_ne by congruence ].

(** The waiting list is independent of the members. *)
Lemma purge_waiters_frame now d : same_slots d (purge_waiters k3 k4 now d).
Proof. unfold purge_waiters. frame. done. Qed.
Lemma enqueue_frame now w d : same_slots d (enqueue k3 k4 now w d).
Proof. unfold enqueue. case_bool; [done|]. frame. done. Qed.
Lemma dequeue_frame w d : same_slots d (dequeue k3 k4 w d).
Proof. unfold dequeue. case_bool; [done|]. frame. done. Qed.
Lemma forget_frame w d : same_slots d (forgetRepositoryWorkflowWaiter k3 k4 w d).
Proof. unfold forgetRepositoryWorkflowWaiter. frame. done. Qed.

(** Removing members together with their caps preserves the invariant. *)
Lemma shrink_inv d d' :
  slots_inv d -> clock d' = clock d -> zset d' k1 ⊆ zset d k1 -> hash d' k2 ⊆ hash d k2 ->
  dom (zset d' k1) = dom (hash d' k2) ->
  (zset d' k1 <> ∅ -> expiry d' k1 = expiry d k1 /\ expiry d' k2 = expiry d k2) ->
  slots_inv d'.
Proof.
  intros (Hdom & Hcap & Hscore & Hexp) Hck Hz Hh Hd He. split_and!; [done|..].
  - intros m cap Hm. destruct (Hcap m cap) as [H0 Hc].
    { by eapply lookup_weaken. }
    split; [done|]. intros Hpos. apply map_subseteq_size in Hz. specialize (Hc Hpos). lia.
  - intros m s Hm. unfold TIME. rewrite Hck. by eapply Hscore, lookup_weaken.
  - intros Hne. destruct (He Hne) as [-> ->]. destruct Hexp as (e & H1 & H2 & H3).
    { intros Hemp. apply Hne. rewrite Hemp in Hz. apply map_eq. intros i.
      destruct (zset d' k1 !! i) eqn:E; [|done].
      by apply (lookup_weaken _ ∅) in E. }
    exists e. split_and!; [done..|]. intros m s Hm. by eapply H3, lookup_weaken.
Qed.

Lemma purge_spec d :
  slots_inv d ->
  let d' := purge_members k1 k2 (TIME d) d in
  clock d' = clock d /\ zset d' k1 = live d
  /\ (forall m, hash d' k2 !! m = (if decide (m ∈ dom (live d)) then hash d k2 !! m else None))
  /\ slots_inv d'.
Proof.
  intros Hinv d'. pose proof keys_distinct as (Hk & _).
  assert (Hz : zset d' k1 = live d).
  { unfold d', purge_members. rewrite zset_ZREMRANGEBYSCORE, decide_True, zset_HDEL_all by done. done. }
  assert (Hh : hash d' k2 = filter (fun fv => fv.1 ∉ ZRANGEBYSCORE k1 (TIME d) d) (hash d k2)).
  { unfold d', purge_members. by rewrite hash_ZREMRANGEBYSCORE, hash_HDEL_all. }
  assert (Hlive : forall m, m ∈ dom (live d) <-> m ∈ dom (zset d k1) /\ m ∉ ZRANGEBYSCORE k1 (TIME d) d).
  { intros m. unfold live. rewrite !elem_of_dom, ZRANGEBYSCORE_spec. split.
    - intros [s [Hs Hlt]%map_lookup_filter_Some]. split; [eauto|]. simpl in Hlt.
      intros (s' & Hs' & ?). simplify_eq. lia.
    - intros [[s Hs] Hn]. exists s. apply map_lookup_filter_Some. split; [done|]. simpl.
      destruct (Z.lt_ge_cases (TIME d) s); [done|]. exfalso. eauto. }
  assert (Hlk : forall m, hash d' k2 !! m = (if decide (m ∈ dom (live d)) then hash d k2 !! m else None)).
  { intros m. rewrite Hh, map_lookup_filter. destruct (hash d k2 !! m) as [v|] eqn:E; simpl.
    - assert (m ∈ dom (zset d k1)) by (rewrite (proj1 Hinv); by apply elem_of_dom_2 in E).
      case_guard as Hg; case_decide as Hd; simpl in *; try done; exfalso; rewrite Hlive in Hd; tauto.
    - by case_decide. }
  assert (Hck : clock d' = clock d).
  { unfold d', purge_members. by rewrite clock_ZREMRANGEBYSCORE, clock_HDEL_all. }
  split_and!; [done..|].
  apply (shrink_inv d); [done|done|..].
  - rewrite Hz. apply map_filter_subseteq.
  - rewrite Hh. apply map_filter_subseteq.
  - rewrite Hz. apply set_eq. intros m. rewrite (elem_of_dom (hash d' k2)), Hlk.
    case_decide as Hd; [|split; [done|by intros []]].
    split; [|done]. intros _. rewrite <- elem_of_dom, <- (proj1 Hinv). apply Hlive in Hd. tauto.
  - rewrite Hz. intros Hne. unfold d', purge_members.
    apply map_choose in Hne as (m & s & Hm). apply elem_of_dom_2 in Hm.
    pose proof (proj1 (Hlive m) Hm) as [Hm1 Hm2].
    rewrite !expiry_ZREMRANGEBYSCORE, !expiry_HDEL_all; [done|..].
    + right. exists m. by rewrite <- (proj1 Hinv).
    + by left.
    + left. congruence.
    + right. rewrite zset_HDEL_all. intros He. fold (live d) in He. rewrite He in Hm. set_solver.
Qed.

(** Writing the lease of [token] under the caps [h]. *)
Lemma lease_inv d d' token h :
  slots_inv d -> clock d' = clock d ->
  zset d' k1 = <[token := TIME d + 120]> (zset d k1) -> hash d' k2 = h ->
  dom h = {[token]} ∪ dom (zset d k1) ->
  (forall m cap, h !! m = Some cap ->
    0 <= cap /\ (0 < cap -> Z.of_nat (size ({[token]} ∪ dom (zset d k1))) <= cap)) ->
  expiry d' k1 = Some (clock d + 180 * 1000) -> expiry d' k2 = Some (clock d + 180 * 1000) ->
  slots_inv d'.
Proof.
  intros (_ & _ & Hscore & _) Hck Hz Hh Hdom Hcap He1 He2.
  assert (Hs : forall m s, zset d' k1 !! m = Some s -> s <= TIME d + 120).
  { intros m s. rewrite Hz, lookup_insert_Some. intros [[_ <-]|[_ Hm]]; [lia|eauto]. }
  split_and!.
  - by rewrite Hz, Hh, dom_insert_L.
  - rewrite Hh, Hz, <- size_dom, dom_insert_L. apply Hcap.
  - unfold TIME in *. rewrite Hck. done.
  - intros _. exists (clock d + 180 * 1000). split_and!; [done..|].
    intros m s Hm. apply Hs in Hm. unfold TIME in Hm.
    pose proof (Z.mul_div_le (clock d) 1000). lia.
Qed.

Lemma touch_keys_spec d :
  zset d k1 <> ∅ -> hash d k2 <> ∅ ->
  let d' := touch_keys k1 k2 d in
  clock d' = clock d /\ zset d' k1 = zset d k1 /\ hash d' k2 = hash d k2
  /\ expiry d' k1 = Some (clock d + 180 * 1000) /\ expiry d' k2 = Some (clock d + 180 * 1000).
Proof.
  intros Hz Hh. pose proof keys_distinct as (Hk & _). unfold touch_keys; simpl. split_and!.
  - by rewrite !clock_EXPIRE.
  - by rewrite !zset_EXPIRE.
  - by rewrite !hash_EXPIRE.
  - rewrite expiry_EXPIRE_ne by done. apply expiry_EXPIRE. by left.
  - rewrite expiry_EXPIRE, clock_EXPIRE; [done|]. right. by rewrite hash_EXPIRE.
Qed.

Lemma admit_spec d token own :
  let d' := touch_keys k1 k2 (HSET k2 token own (extend_lease k1 (TIME d) token d)) in
  clock d' = clock d /\ zset d' k1 = <[token := TIME d + 120]> (zset d k1)
  /\ hash d' k2 = <[token := own]> (hash d k2)
  /\ expiry d' k1 = Some (clock d + 180 * 1000) /\ expiry d' k2 = Some (clock d + 180 * 1000).
Proof.
  intros d'. pose proof keys_distinct as (Hk & _).
  set (d1 := HSET k2 token own (extend_lease k1 (TIME d) token d)) in *.
  assert (Hz : zset d1 k1 = <[token := TIME d + 120]> (zset d k1)).
  { unfold d1, extend_lease. by rewrite zset_HSET, zset_ZADD, decide_True. }
  assert (Hh : hash d1 k2 = <[token := own]> (hash d k2)).
  { unfold d1, extend_lease. by rewrite hash_HSET, decide_True, hash_ZADD. }
  assert (Hc : clock d1 = clock d).
  { unfold d1, extend_lease. by rewrite clock_HSET, clock_ZADD. }
  destruct (touch_keys_spec d1) as (H1 & H2 & H3 & H4 & H5).
  - rewrite Hz. apply insert_non_empty.
  - rewrite Hh. apply insert_non_empty.
  - unfold d'. by rewrite H1, H2, H3, H4, H5, Hz, Hh, Hc.
Qed.

(** ** Admission *)

(** The caps that govern a run with cap [own]: its own and those of live members. *)
Definition cap_active (d : db) (own c : Z) : Prop :=
  0 < c /\ (c = own \/ exists m, m ∈ dom (live d) /\ hash d k2 !! m = Some c).

(** The limit a script computes after purging is the smallest active cap. *)
Lemma limit_spec d d1 own :
  0 <= own -> (forall m, hash d1 k2 !! m = (if decide (m ∈ dom (live d)) then hash d k2 !! m else None)) ->
  let l := active_limit own (HVALS k2 d1) in
  (forall c, cap_active d own c -> 0 < l <= c) /\ (0 < l -> cap_active d own l) /\ 0 <= l.
Proof.
  intros Hown Hh l. destruct (active_limit_spec own (HVALS k2 d1) Hown) as (H1 & H2 & H3 & H4).
  fold l in H1, H2, H3, H4. split_and!; [| |done].
  - intros c [Hc [->|(m & Hm & Hcap)]]; [lia|]. apply H3; [|done].
    apply HVALS_spec. exists m. by rewrite Hh, decide_True.
  - intros Hl. split; [done|]. destruct H4 as [->|[Hin _]]; [by left|right].
    apply HVALS_spec in Hin as (m & Hm). rewrite Hh in Hm. case_decide; [by exists m|done].
Qed.

Lemma size_insert_le (token : string) (z : gmap string Z) (n : Z) :
  Z.of_nat (size z) < n -> Z.of_nat (size ({[token]} ∪ dom z)) <= n.
Proof. intros H. rewrite size_union_alt, size_singleton.
  pose proof (size_dom (D:=gset string) z).
  pose proof (subseteq_size (dom z ∖ {[token]}) (dom z) ltac:(set_solver)). lia. Qed.

(** A run may join when no active cap is reached. *)
Lemma admit_inv d d0 token own :
  slots_inv d0 -> slots_inv d -> 0 <= own -> clock d0 = clock d -> zset d0 k1 = live d ->
  (forall m, hash d0 k2 !! m = (if decide (m ∈ dom (live d)) then hash d k2 !! m else None)) ->
  (forall c, cap_active d own c -> Z.of_nat (size ({[token]} ∪ dom (live d))) <= c) ->
  slots_inv (touch_keys k1 k2 (HSET k2 token own (extend_lease k1 (TIME d0) token d0))).
Proof.
  intros Hinv0 Hinv Hown Hck Hz Hh Hcap.
  destruct (admit_spec d0 token own) as (H1 & H2 & H3 & H4 & H5).
  apply (lease_inv d0 _ token (<[token := own]> (hash d0 k2))); [done..| | |done|done].
  - by rewrite dom_insert_L, <- (proj1 Hinv0).
  - rewrite Hz. intros m cap [[_ <-]|[_ Hm]]%lookup_insert_Some.
    + split; [done|]. intros. apply Hcap. split; [done|by left].
    + rewrite Hh in Hm. case_decide as Hd; [|done].
      destruct (proj1 (proj2 Hinv) m cap Hm). split; [done|]. intros. apply Hcap. split; [done|eauto].
Qed.

Lemma live_eq d d' : clock d' = clock d -> live d' = filter (fun ms => TIME d < ms.2) (zset d' k1).
Proof. intros H. unfold live, TIME. by rewrite H. Qed.

Lemma live_live d : filter (fun ms => TIME d < ms.2) (live d) = live d.
Proof.
  apply map_filter_id. intros m s Hm. by apply map_lookup_filter_Some in Hm as [_ Hm].
Qed.

Lemma live_insert d token :
  filter (fun ms => TIME d < ms.2) (<[token := TIME d + 120]> (live d))
  = <[token := TIME d + 120]> (live d).
Proof.
  rewrite map_filter_insert_True by (simpl; lia). by rewrite live_live.
Qed.

Definition acquire := ACQUIRE_WORKFLOW_SLOT k1 k2 k3 k4.
Definition release := RELEASE_WORKFLOW_SLOT k1 k2 k3 k4.
Definition renew := RENEW_WORKFLOW_SLOT k1 k2.
Definition reconcile := RECONCILE_WORKFLOW_SLOT k1 k2 k3 k4.
Definition forget := forgetRepositoryWorkflowWaiter k3 k4.

(** What [ACQUIRE_WORKFLOW_SLOT] does: it refuses exactly when some active cap is
    reached, and otherwise adds the member. *)
Lemma acquire_cases d token own waiter :
  slots_inv d -> 0 <= own ->
  let d' := fst (acquire token own waiter d) in
  let r := snd (acquire token own waiter d) in
  slots_inv d' /\ clock d' = clock d /\
  ((r = 0 /\ live d' = live d /\ exists c, cap_active d own c /\ c <= Z.of_nat (size (live d)))
   \/ ((r = 2 /\ (exists c, cap_active d own c) \/ r = 1 /\ (forall c, ~ cap_active d own c))
      /\ live d' = <[token := TIME d + 120]> (live d) /\ hash d' k2 !! token = Some own
      /\ forall c, cap_active d own c -> Z.of_nat (size (live d)) < c)).
Proof.
  intros Hinv Hown. unfold acquire, ACQUIRE_WORKFLOW_SLOT.
  destruct (purge_spec d Hinv) as (Hc1 & Hz1 & Hh1 & Hi1).
  set (d1 := purge_members k1 k2 (TIME d) d) in *.
  pose proof (purge_waiters_frame (TIME d) d1) as Hs2.
  set (d2 := purge_waiters k3 k4 (TIME d) d1) in *.
  assert (Hi2 : slots_inv d2) by by apply (same_slots_inv d1).
  destruct Hs2 as (Hc2 & Hz2 & Hh2 & _). rewrite <- Hh2 in Hh1.
  destruct (limit_spec d d2 own Hown Hh1) as (Hl1 & Hl2 & Hl3).
  set (l := active_limit own (HVALS k2 d2)) in *.
  assert (Hcard : ZCARD k1 d2 = Z.of_nat (size (live d))) by (unfold ZCARD; by rewrite Hz2, Hz1).
  destruct ((0 <? l) && (l <=? ZCARD k1 d2)) eqn:E; simpl.
  - zb. pose proof (enqueue_frame (TIME d) waiter d2) as Hs3. split_and!.
    + by apply (same_slots_inv d2).
    + destruct Hs3 as (-> & _). congruence.
    + left. split_and!; [done| |].
      * rewrite (live_eq d) by (destruct Hs3 as (-> & _); congruence).
        destruct Hs3 as (_ & -> & _). rewrite Hz2, Hz1. apply live_live.
      * exists l. split; [by apply Hl2|lia].
  - pose proof (dequeue_frame waiter d2) as Hs3. set (d3 := dequeue k3 k4 waiter d2) in *.
    assert (Hi3 : slots_inv d3) by by apply (same_slots_inv d2).
    destruct Hs3 as (Hc3 & Hz3 & Hh3 & _).
    assert (Hck : clock d3 = clock d) by congruence.
    assert (Htime : TIME d = TIME d3) by (unfold TIME; by rewrite Hck).
    assert (Hfree : forall c, cap_active d own c -> Z.of_nat (size (live d)) < c).
    { intros c Hc. specialize (Hl1 c Hc). destruct (Z.lt_ge_cases (Z.of_nat (size (live d))) l); [lia|].
      rewrite Hcard in E. apply andb_false_iff in E as [E|E]; zb; lia. }
    rewrite Htime. destruct (admit_spec d3 token own) as (H1 & H2 & H3 & _). split_and!.
    + apply (admit_inv d d3); [done..|congruence| |].
      * intros m. by rewrite Hh3.
      * intros c Hc. apply size_insert_le. by apply Hfree.
    + congruence.
    + right. split_and!; [| | |done].
      * unfold cap_result. destruct (0 <? l) eqn:El; zb; [left|right]; (split; [done|]).
        -- exists l. by apply Hl2.
        -- intros c Hc. specialize (Hl1 c Hc). lia.
      * rewrite (live_eq d) by congruence. rewrite H2, <- Htime, Hz3, Hz2, Hz1. apply live_insert.
      * rewrite H3. apply lookup_insert_eq.
Qed.

(** ** Release, renewal and reconciliation *)

Lemma lease_gone_spec d token : lease_gone (TIME d) (zset d k1 !! token) = true <-> token ∉ dom (live d).
Proof.
  unfold lease_gone, live. rewrite not_elem_of_dom, map_lookup_filter.
  destruct (zset d k1 !! token) as [s|]; simpl; [|done].
  case_guard; simpl in *; rewrite Z.leb_le; split; intros; try done; lia.
Qed.

Lemma remove_spec d token :
  slots_inv d ->
  let d' := HDEL k2 token (ZREM k1 token d) in
  clock d' = clock d /\ zset d' k1 = delete token (zset d k1) /\ hash d' k2 = delete token (hash d k2)
  /\ slots_inv d'.
Proof.
  intros Hinv d'. pose proof keys_distinct as (Hk & _).
  assert (Hz : zset d' k1 = delete token (zset d k1)).
  { unfold d'. by rewrite zset_HDEL, zset_ZREM, decide_True. }
  assert (Hh : hash d' k2 = delete token (hash d k2)).
  { unfold d'. by rewrite hash_HDEL, decide_True, hash_ZREM. }
  assert (Hc : clock d' = clock d) by (unfold d'; by rewrite clock_HDEL, clock_ZREM).
  assert (Hdom : dom (zset d' k1) = dom (hash d' k2)).
  { rewrite Hz, Hh, !dom_delete_L. by rewrite (proj1 Hinv). }
  split_and!; [done..|]. apply (shrink_inv d); [done..| | |done|].
  - rewrite Hz. apply delete_subseteq.
  - rewrite Hh. apply delete_subseteq.
  - intros Hne. assert (Hne2 : delete token (hash d k2) <> ∅).
    { rewrite <- Hh. intros He. rewrite He in Hdom. apply Hne. by apply dom_empty_iff_L. }
    rewrite Hz in Hne. unfold d'. split.
    + rewrite expiry_HDEL by (left; congruence). apply expiry_ZREM. by right.
    + rewrite expiry_HDEL by (right; by rewrite hash_ZREM). apply expiry_ZREM. left. congruence.
Qed.

Lemma release_cases d token :
  slots_inv d ->
  let d' := fst (release token d) in
  slots_inv d' /\ clock d' = clock d /\ live d' = delete token (live d)
  /\ hash d' k2 = delete token (hash d k2).
Proof.
  intros Hinv. destruct (remove_spec d token Hinv) as (Hc1 & Hz1 & Hh1 & Hi1).
  assert (Hfst : fst (release token d)
    = purge_waiters k3 k4 (TIME d) (HDEL k2 token (ZREM k1 token d))).
  { unfold release, RELEASE_WORKFLOW_SLOT. repeat case_match; done. }
  rewrite Hfst. pose proof (purge_waiters_frame (TIME d) (HDEL k2 token (ZREM k1 token d))) as Hs.
  split_and!.
  - by apply (same_slots_inv _ _ Hs).
  - destruct Hs as (-> & _). done.
  - rewrite (live_eq d) by (destruct Hs as (-> & _); done).
    destruct Hs as (_ & -> & _). rewrite Hz1. unfold live. apply map_filter_delete.
  - destruct Hs as (_ & _ & -> & _). done.
Qed.

(** Extending the lease of a member whose cap is recorded. *)
Lemma extend_inv d dx token :
  slots_inv d -> clock dx = clock d -> zset dx k1 = zset d k1 ->
  dom (hash dx k2) = {[token]} ∪ dom (zset d k1) ->
  (forall m cap, hash dx k2 !! m = Some cap ->
    0 <= cap /\ (0 < cap -> Z.of_nat (size ({[token]} ∪ dom (zset d k1))) <= cap)) ->
  let d' := touch_keys k1 k2 (extend_lease k1 (TIME d) token dx) in
  slots_inv d' /\ clock d' = clock d /\ zset d' k1 = <[token := TIME d + 120]> (zset d k1).
Proof.
  intros Hinv Hck Hz Hdom Hcap d'. set (dl := extend_lease k1 (TIME d) token dx) in *.
  assert (Hzl : zset dl k1 = <[token := TIME d + 120]> (zset d k1)).
  { unfold dl, extend_lease. by rewrite zset_ZADD, decide_True, Hz. }
  assert (Hhl : hash dl k2 = hash dx k2) by (unfold dl, extend_lease; by rewrite hash_ZADD).
  assert (Hcl : clock dl = clock d) by (unfold dl, extend_lease; by rewrite clock_ZADD).
  destruct (touch_keys_spec dl) as (T1 & T2 & T3 & T4 & T5).
  { rewrite Hzl. apply insert_non_empty. }
  { rewrite Hhl. intros He. rewrite He in Hdom. set_solver. }
  fold d' in T1, T2, T3, T4, T5. split_and!; [|congruence..].
  apply (lease_inv d _ token (hash dx k2)); first [done | congruence].
Qed.

Lemma extend_live d d' token :
  clock d' = clock d -> zset d' k1 = <[token := TIME d + 120]> (live d) ->
  live d' = <[token := TIME d + 120]> (live d).
Proof. intros Hc Hz. rewrite (live_eq d), Hz by done. apply live_insert. Qed.

(** A lapsed member is taken again only when no cap is active. *)
Lemma renew_lapsed_inv d d1 token own :
  slots_inv d1 -> 0 <= own -> clock d1 = clock d -> zset d1 k1 = live d ->
  (forall m, hash d1 k2 !! m = (if decide (m ∈ dom (live d)) then hash d k2 !! m else None)) ->
  (forall c, ~ cap_active d own c) ->
  let d' := touch_keys k1 k2 (extend_lease k1 (TIME d1) token (HSET k2 token own d1)) in
  slots_inv d' /\ clock d' = clock d1 /\ zset d' k1 = <[token := TIME d1 + 120]> (zset d1 k1).
Proof.
  intros Hi1 Hown Hc1 Hz1 Hh1 Hno.
  apply extend_inv; [done|by rewrite clock_HSET|by rewrite zset_HSET|..];
    rewrite hash_HSET, decide_True by done.
  - by rewrite dom_insert_L, <- (proj1 Hi1).
  - intros m cap [[_ <-]|[_ Hm]]%lookup_insert_Some.
    + split; [done|]. intros Hp. exfalso. apply (Hno own). split; [done|by left].
    + destruct (proj1 (proj2 Hi1) m cap Hm) as [? _]. split; [done|]. intros Hp.
      exfalso. apply (Hno cap). split; [done|right]. exists m.
      rewrite Hh1 in Hm. by case_decide.
Qed.

Lemma renew_held_inv d1 token :
  slots_inv d1 -> token ∈ dom (zset d1 k1) ->
  let d' := touch_keys k1 k2 (extend_lease k1 (TIME d1) token d1) in
  slots_inv d' /\ clock d' = clock d1 /\ zset d' k1 = <[token := TIME d1 + 120]> (zset d1 k1).
Proof.
  intros Hi1 Hin.
  assert (Heq : {[token]} ∪ dom (zset d1 k1) = dom (zset d1 k1)) by set_solver.
  apply extend_inv; [done..| |].
  - rewrite Heq. symmetry. apply Hi1.
  - intros m cap Hm. rewrite Heq, size_dom. by apply Hi1 in Hm.
Qed.

Lemma renew_cases d token own :
  slots_inv d -> 0 <= own ->
  let d' := fst (renew token own d) in
  let r := snd (renew token own d) in
  slots_inv d' /\ clock d' = clock d /\
  ((r = 0 /\ live d' = live d /\ (token ∉ dom (live d)) /\ (exists c, cap_active d own c))
   \/ ((r = 1 \/ r = 2) /\ live d' = <[token := TIME d + 120]> (live d)
      /\ (token ∈ dom (live d) \/ forall c, ~ cap_active d own c))).
Proof.
  intros Hinv Hown. unfold renew, RENEW_WORKFLOW_SLOT.
  destruct (purge_spec d Hinv) as (Hc1 & Hz1 & Hh1 & Hi1).
  set (d1 := purge_members k1 k2 (TIME d) d) in *.
  destruct (limit_spec d d1 own Hown Hh1) as (Hl1 & Hl2 & Hl3).
  set (l := active_limit own (HVALS k2 d1)) in *.
  assert (Htime : TIME d = TIME d1) by (unfold TIME; by rewrite Hc1).
  assert (Hr : cap_result l = 1 \/ cap_result l = 2) by (unfold cap_result; case_bool; auto).
  destruct (lease_gone (TIME d) (zset d k1 !! token)) eqn:Eg; simpl.
  - apply lease_gone_spec in Eg. destruct (0 <? l) eqn:El; zb; simpl.
    { split_and!; [done..|]. left. split_and!; [done| |done|exists l; by apply Hl2].
      rewrite (live_eq d), Hz1 by done. apply live_live. }
    assert (Hno : forall c, ~ cap_active d own c) by (intros c Hc; specialize (Hl1 c Hc); lia).
    destruct (renew_lapsed_inv d d1 token own) as (I1 & I2 & I3); [done..|].
    rewrite <- Htime in I1, I2, I3. split_and!; [done|congruence|right; split_and!; [done| |by right]].
    apply extend_live; congruence.
  - assert (Hin : token ∈ dom (live d)).
    { destruct (decide (token ∈ dom (live d))) as [|Hn]; [done|].
      apply lease_gone_spec in Hn. congruence. }
    destruct (renew_held_inv d1 token) as (I1 & I2 & I3); [done|by rewrite Hz1|].
    rewrite <- Htime in I1, I2, I3. split_and!; [done|congruence|right; split_and!; [done| |by left]].
    apply extend_live; congruence.
Qed.

(** A held slot takes the refreshed cap, or is given up when that cap is exceeded. *)
Definition cap_active_others (d : db) (token : string) (own c : Z) : Prop :=
  0 < c /\ (c = own \/ exists m, m <> token /\ m ∈ dom (live d) /\ hash d k2 !! m = Some c).

Lemma other_caps_limit d d1 token own :
  0 <= own -> (forall m, hash d1 k2 !! m = (if decide (m ∈ dom (live d)) then hash d k2 !! m else None)) ->
  let l := active_limit own (other_caps k2 token d1) in
  (forall c, cap_active_others d token own c -> 0 < l <= c) /\ (0 < l -> cap_active_others d token own l)
  /\ 0 <= l.
Proof.
  intros Hown Hh l.
  assert (Hc : forall c, c ∈ other_caps k2 token d1 <->
    exists m, m <> token /\ m ∈ dom (live d) /\ hash d k2 !! m = Some c).
  { intros c. unfold other_caps. rewrite list_elem_of_fmap. split.
    - intros ([m c'] & -> & [Hne Hm]%elem_of_map_to_list%lookup_delete_Some).
      rewrite Hh in Hm. case_decide; [by exists m|done].
    - intros (m & Hne & Hm & Hc). exists (m, c). split; [done|].
      apply elem_of_map_to_list, lookup_delete_Some. by rewrite Hh, decide_True. }
  destruct (active_limit_spec own (other_caps k2 token d1) Hown) as (H1 & H2 & H3 & H4).
  fold l in H1, H2, H3, H4. split_and!; [| |done].
  - intros c [Hp [->|Hm]]; [lia|]. apply H3; [by apply Hc|done].
  - intros Hl. split; [done|]. destruct H4 as [->|[Hin _]]; [by left|right]. by apply Hc.
Qed.

(** Replacing the cap of a member. *)
Lemma recap_inv d token own :
  slots_inv d -> token ∈ dom (zset d k1) -> 0 <= own ->
  (0 < own -> Z.of_nat (size (zset d k1)) <= own) -> slots_inv (HSET k2 token own d).
Proof.
  intros (Hdom & Hcap & Hsc & He) Hin Hown Hle. unfold slots_inv, TIME in *.
  rewrite clock_HSET, !expiry_HSET, zset_HSET, hash_HSET, decide_True by done. split_and!.
  - rewrite dom_insert_L, <- Hdom. set_solver.
  - intros m cap [[_ <-]|[_ Hm]]%lookup_insert_Some; [done|eauto].
  - done.
  - done.
Qed.

Lemma reconcile_cases d token own waiter :
  slots_inv d -> 0 <= own ->
  let d' := fst (reconcile token own waiter d) in
  let r := snd (reconcile token own waiter d) in
  slots_inv d' /\ clock d' = clock d /\
  ((r = -1 /\ live d' = live d /\ token ∉ dom (live d))
   \/ (r = 0 /\ live d' = delete token (live d) /\ token ∈ dom (live d)
       /\ exists c, cap_active_others d token own c /\ c < Z.of_nat (size (live d)))
   \/ ((r = 1 \/ r = 2) /\ live d' = live d /\ token ∈ dom (live d)
       /\ hash d' k2 !! token = Some own
       /\ forall c, cap_active_others d token own c -> Z.of_nat (size (live d)) <= c)).
Proof.
  intros Hinv Hown. unfold reconcile, RECONCILE_WORKFLOW_SLOT.
  destruct (purge_spec d Hinv) as (Hc1 & Hz1 & Hh1 & Hi1).
  set (d1 := purge_members k1 k2 (TIME d) d) in *.
  assert (Hlive1 : live d1 = live d) by (rewrite (live_eq d), Hz1 by done; apply live_live).
  destruct (lease_gone (TIME d) (zset d k1 !! token)) eqn:Eg; simpl.
  { apply lease_gone_spec in Eg. split_and!; [done..|by left]. }
  assert (Hin : token ∈ dom (live d)).
  { destruct (decide (token ∈ dom (live d))) as [|Hn]; [done|].
    apply lease_gone_spec in Hn. congruence. }
  destruct (other_caps_limit d d1 token own Hown Hh1) as (Hl1 & Hl2 & Hl3).
  set (l := active_limit own (other_caps k2 token d1)) in *.
  assert (Hcard : ZCARD k1 d1 = Z.of_nat (size (live d))) by (unfold ZCARD; by rewrite Hz1).
  destruct ((0 <? l) && (l <? ZCARD k1 d1)) eqn:E; simpl.
  - zb. destruct (remove_spec d1 token Hi1) as (Hc2 & Hz2 & Hh2 & Hi2).
    pose proof (enqueue_frame (TIME d) waiter (HDEL k2 token (ZREM k1 token d1))) as Hs.
    split_and!; [by apply (same_slots_inv _ _ Hs)|destruct Hs as (-> & _); congruence|].
    right; left. split_and!; [done| |done|exists l; split; [by apply Hl2|lia]].
    rewrite (live_eq d) by (destruct Hs as (-> & _); congruence).
    destruct Hs as (_ & -> & _). rewrite Hz2, Hz1, map_filter_delete. by rewrite live_live.
  - assert (Hfree : forall c, cap_active_others d token own c -> Z.of_nat (size (live d)) <= c).
    { intros c Hc. specialize (Hl1 c Hc). rewrite Hcard in E.
      apply andb_false_iff in E as [E|E]; zb; lia. }
    split_and!; [|by rewrite clock_HSET|].
    + apply recap_inv; [done|by rewrite Hz1|done|]. rewrite Hz1. intros Hp. apply Hfree.
      split; [done|by left].
    + right; right. split_and!; [(unfold cap_result; case_bool; auto)| |done| |done].
      * rewrite (live_eq d), zset_HSET, Hz1 by by rewrite clock_HSET. apply live_live.
      * rewrite hash_HSET, decide_True by done. apply lookup_insert_eq.
Qed.

(** ** Time *)

Lemma empty_inv d : zset d k1 = ∅ -> hash d k2 = ∅ -> slots_inv d.
Proof.
  intros Hz Hh. unfold slots_inv. rewrite Hz, Hh. split_and!.
  - by rewrite !dom_empty_L.
  - intros m cap. by rewrite lookup_empty.
  - intros m s. by rewrite lookup_empty.
  - done.
Qed.


Lemma TIME_mono d d' : clock d <= clock d' -> TIME d <= TIME d'.
Proof. intros. unfold TIME. apply Z.div_le_mono; lia. Qed.

Lemma elapse_cases d n :
  slots_inv d -> 0 <= n ->
  let d' := elapse n d in
  slots_inv d' /\ clock d' = clock d + n /\
  live d' = filter (fun ms => TIME d' < ms.2) (live d)
  /\ forall m, m ∈ dom (live d') -> hash d' k2 !! m = hash d k2 !! m.
Proof.
  intros (Hdom & Hcap & Hsc & He) Hn d'. assert (Hck : clock d' = clock d + n) by by apply clock_elapse.
  assert (Ht : TIME d <= TIME d') by (apply TIME_mono; lia).
  assert (Hcomp : live d' = filter (fun ms => TIME d' < ms.2) (zset d' k1)) by done.
  assert (Hfl : forall z, z = zset d k1 -> filter (fun ms => TIME d' < ms.2) z
    = filter (fun ms => TIME d' < ms.2) (live d)).
  { intros z ->. apply map_eq. intros m. apply option_eq. intros s. unfold live.
    rewrite !map_lookup_filter_Some; simpl. intuition lia. }
  destruct (decide (zset d k1 = ∅)) as [Hemp|Hne].
  { assert (Hz : zset d' k1 = ∅).
    { destruct (expiry d k1) as [e|] eqn:E; [destruct (Z.lt_ge_cases e (clock d + n))|].
      - by apply (expired_elapse n d k1 e).
      - rewrite <- Hemp. apply live_elapse; [done|]. intros; simplify_eq; lia.
      - rewrite <- Hemp. apply live_elapse; [done|]. intros; simplify_eq. }
    assert (Hh : hash d' k2 = ∅).
    { assert (Hh0 : hash d k2 = ∅) by (apply dom_empty_iff_L; rewrite <- Hdom, Hemp; by rewrite dom_empty_L).
      destruct (expiry d k2) as [e|] eqn:E; [destruct (Z.lt_ge_cases e (clock d + n))|].
      - by apply (expired_elapse n d k2 e).
      - rewrite <- Hh0. apply live_elapse; [done|]. intros; simplify_eq; lia.
      - rewrite <- Hh0. apply live_elapse; [done|]. intros; simplify_eq. }
    split_and!; [|done|..].
    - by apply empty_inv.
    - rewrite Hcomp. apply Hfl. congruence.
    - intros m. rewrite Hcomp, Hz, map_filter_empty, dom_empty_L. by intros ?%elem_of_empty. }
  destruct (He Hne) as (e & He1 & He2 & Hes).
  destruct (Z.lt_ge_cases e (clock d + n)) as [Hlt|Hge].
  - destruct (expired_elapse n d k1 e) as [Hz _]; [done..|].
    destruct (expired_elapse n d k2 e) as [_ Hh]; [done..|]. fold d' in Hz, Hh. split_and!; [|done|..].
    + by apply empty_inv.
    + rewrite Hcomp, Hz, <- (Hfl _ eq_refl). symmetry. rewrite map_filter_empty.
      apply map_empty. intros m. apply map_lookup_filter_None. right. intros s Hm; simpl. apply Hes in Hm.
      unfold TIME. rewrite Hck. pose proof (Z.div_le_lower_bound (clock d + n) 1000 s). lia.
    + intros m. rewrite Hcomp, Hz, map_filter_empty, dom_empty_L. by intros ?%elem_of_empty.
  - destruct (live_elapse n d k1) as (Hz & _ & Hx1); [done|intros; simplify_eq; lia|].
    destruct (live_elapse n d k2) as (_ & Hh & Hx2); [done|intros; simplify_eq; lia|].
    fold d' in Hz, Hh, Hx1, Hx2. split_and!; [|done|..].
    + unfold slots_inv. rewrite Hz, Hh, Hx1, Hx2. split_and!; [done|done| |eauto].
      intros m s Hm. specialize (Hsc m s Hm). lia.
    + rewrite Hcomp. by apply Hfl.
    + intros. by rewrite Hh.
Qed.
End Capacity.
