(* ===== verification/WorkflowRuns.v ===== *)
(** * Runs of a repository

    Every interleaving of the slot scripts of all runs, and one run's local view
    of its lease ([withRepositoryWorkflowSlot]): its heartbeat, watchdog,
    reconciliation and release, each request and each reply a step of its own. *)

From S2P Require Import Prelude JsString Redis WorkflowSlots WorkflowFacts.

Open Scope Z_scope.

Section Runs.
Context {db : Type} `{!RedisServer db}.
Variables k1 k2 k3 k4 : string.
Hypothesis Hkeys : NoDup [k1; k2; k3; k4].

Abbreviation live := (live k1).

(** ** The shared store under all runs *)

Inductive slot_event :=
| Acquire (token : string) (own : Z) (waiter : string)
| Renew (token : string) (own : Z)
| Reconcile (token : string) (own : Z) (waiter : string)
| Release (token : string)
| Forget (waiter : string)
| Elapse (ms : Z).

Definition run_event (e : slot_event) (d : db) : db :=
  match e with
  | Acquire token own waiter => fst (acquire k1 k2 k3 k4 token own waiter d)
  | Renew token own => fst (renew k1 k2 token own d)
  | Reconcile token own waiter => fst (reconcile k1 k2 k3 k4 token own waiter d)
  | Release token => fst (release k1 k2 k3 k4 token d)
  | Forget waiter => forget k3 k4 waiter d
  | Elapse ms => elapse ms d
  end.

(** Caps are counts and time moves forward. *)
Definition event_valid (e : slot_event) : Prop :=
  match e with
  | Acquire _ own _ | Renew _ own | Reconcile _ own _ => 0 <= own
  | Elapse ms => 0 <= ms
  | Release _ | Forget _ => True
  end.

Definition event_token (e : slot_event) : option string :=
  match e with
  | Acquire token _ _ | Renew token _ | Reconcile token _ _ | Release token => Some token
  | Forget _ | Elapse _ => None
  end.

(** States reached from a repository without members. *)
Inductive slots_reachable : db -> Prop :=
| slots_init d : zset d k1 = ∅ -> hash d k2 = ∅ -> slots_reachable d
| slots_step d e : slots_reachable d -> event_valid e -> slots_reachable (run_event e d).

Lemma run_event_inv e d : event_valid e -> slots_inv k1 k2 d -> slots_inv k1 k2 (run_event e d).
Proof.
  intros He Hd. destruct e as [t o w|t o|t o w|t|w|n]; simpl in *.
  - by apply acquire_cases.
  - by apply (renew_cases k1 k2 k3 k4).
  - by apply reconcile_cases.
  - by apply release_cases.
  - eapply same_slots_inv; [by apply forget_frame|done].
  - by apply (elapse_cases k1 k2).
Qed.

Lemma reachable_inv d : slots_reachable d -> slots_inv k1 k2 d.
Proof.
  induction 1 as [d Hz Hh|d e _ IH He]; [by apply empty_inv|by apply run_event_inv].
Qed.

Lemma live_size d : (size (live d) <= size (zset d k1))%nat.
Proof. apply map_subseteq_size, map_filter_subseteq. Qed.

Lemma live_subseteq_dom d m : m ∈ dom (live d) -> m ∈ dom (zset d k1).
Proof. intros [s Hs]%elem_of_dom. apply elem_of_dom. exists s. by apply map_lookup_filter_Some in Hs as []. Qed.

(** C1. Capacity is never exceeded: whatever the interleaving of the scripts of all
    runs, renewals, lapses and key expiry included, the number of runs whose lease
    is live is at most the cap of every run whose lease is live. *)
Theorem capacity_never_exceeded d m cap :
  slots_reachable d -> m ∈ dom (live d) -> hash d k2 !! m = Some cap -> 0 < cap ->
  Z.of_nat (size (live d)) <= cap.
Proof.
  intros Hd Hm Hc Hpos. pose proof (live_size d).
  destruct (reachable_inv d Hd) as (_ & Hcap & _).
  destruct (Hcap m cap Hc) as [_ Hle]. specialize (Hle Hpos). lia.
Qed.

(** C17. Admission is exact: a run is refused if and only if its own cap or the cap
    of a live run is reached; a refusal changes no lease, and an admission leases
    exactly the new member for 120 seconds. *)
Theorem acquire_refuses_iff_full d token own waiter :
  slots_reachable d -> 0 <= own ->
  let '(d', r) := acquire k1 k2 k3 k4 token own waiter d in
  (r = 0 <-> exists c, cap_active k1 k2 d own c /\ c <= Z.of_nat (size (live d)))
  /\ (r = 0 -> live d' = live d)
  /\ (r <> 0 -> live d' = <[token := TIME d + 120]> (live d) /\ hash d' k2 !! token = Some own)
  /\ (r = 2 -> exists c, cap_active k1 k2 d own c).
Proof.
  intros Hd Hown. pose proof (acquire_cases k1 k2 k3 k4 Hkeys d token own waiter (reachable_inv d Hd) Hown) as H.
  destruct (acquire _ _ _ _ _ _ _ _) as [d' r]; simpl in H.
  destruct H as (_ & _ & [(-> & Hl & Hc)|(Hr & Hl & Hh & Hfree)]).
  - split_and!; [done|done|done|]. intros; lia.
  - split_and!.
    + split; [intros ->; lia|]. intros (c & Hc & Hle). specialize (Hfree c Hc). lia.
    + intros ->. lia.
    + done.
    + intros ->. destruct Hr as [[_ ?]|[? _]]; [done|lia].
Qed.

(** A renewal never takes capacity back: it is refused when the member's lease
    is gone and any cap is active, and a lapsed member is readmitted only when no
    live run and not the run itself has a cap. *)
Theorem renew_never_readmits_under_cap d token own :
  slots_reachable d -> 0 <= own ->
  let '(d', r) := renew k1 k2 token own d in
  (r = 0 <-> (token ∉ dom (live d)) /\ (exists c, cap_active k1 k2 d own c))
  /\ (r = 0 -> live d' = live d)
  /\ (r <> 0 -> live d' = <[token := TIME d + 120]> (live d)).
Proof.
  intros Hd Hown. pose proof (renew_cases k1 k2 k3 k4 Hkeys d token own (reachable_inv d Hd) Hown) as H.
  destruct (renew _ _ _ _ _) as [d' r]; simpl in H.
  destruct H as (_ & _ & [(-> & Hl & Hn & Hc)|(Hr & Hl & Ho)]).
  - done.
  - split_and!; [|lia|done]. split; [lia|]. intros [Hn (c & Hc)].
    destruct Ho as [Ho|Ho]; [done|by apply Ho in Hc].
Qed.

(** ** One run's view of its lease *)

Definition CONFIRMED_LEASE_MS : Z := 119000.
Definition STOP_MARGIN_MS : Z := 30000.

(** A request in flight: when it was sent, the cap it carries and the script's
    answer once it has run. *)
Record request := Request { requestedAt : Z; sent_own : Z; answer : option Z }.

Record run := Run {
  confirmedDeadline : Z;
  ownLimit : Z;
  renewing : option request;
  reconciling : option request;
  finished : bool;
  released : bool;
  aborted : bool;
}.

Definition loseOwnership (r : run) : run :=
  Run (confirmedDeadline r) (ownLimit r) (renewing r) (reconciling r) (finished r) (released r) true.

Definition checkOwnership (now : Z) (r : run) : run :=
  if confirmedDeadline r - STOP_MARGIN_MS <=? now then loseOwnership r else r.

Definition set_renewing (q : option request) (r : run) : run :=
  Run (confirmedDeadline r) (ownLimit r) q (reconciling r) (finished r) (released r) (aborted r).
Definition set_reconciling (q : option request) (r : run) : run :=
  Run (confirmedDeadline r) (ownLimit r) (renewing r) q (finished r) (released r) (aborted r).

(** The run after a successful admission requested at [at_]. *)
Definition admitted (at_ own : Z) : run := Run (at_ + CONFIRMED_LEASE_MS) own None None false false false.

(** The heartbeat's callback up to its request. *)
Definition heartbeat_send (now : Z) (r : run) : run :=
  if finished r || aborted r || bool_decide (renewing r <> None) then r
  else
    let r := checkOwnership now r in
    if aborted r then r else set_renewing (Some (Request now (ownLimit r) None)) r.

(** The heartbeat's reply. *)
Definition heartbeat_reply (now : Z) (r : run) : run :=
  match renewing r with
  | Some (Request at_ _ (Some renewed)) =>
      let r := set_renewing None r in
      if finished r || aborted r then r
      else
        let r := checkOwnership now r in
        if aborted r then r
        else if negb (renewed =? 1) && negb (renewed =? 2) then loseOwnership r
        else Run (at_ + CONFIRMED_LEASE_MS) (ownLimit r) None (reconciling r) (finished r) (released r) false
  | _ => r
  end.

Definition reconcile_send (now own : Z) (r : run) : run :=
  if released r then r
  else
    let r := checkOwnership now r in
    if aborted r then r else set_reconciling (Some (Request now own None)) r.

Definition reconcile_reply (now : Z) (r : run) : run :=
  match reconciling r with
  | Some (Request _ own (Some result)) =>
      let r := set_reconciling None r in
      if released r then r
      else
        let r := Run (confirmedDeadline r) own (renewing r) None (finished r) (released r) (aborted r) in
        if result =? 0
        then Run (confirmedDeadline r) own (renewing r) None true true (aborted r)
        else checkOwnership now (if negb (result =? 1) && negb (result =? 2) then loseOwnership r else r)
  | _ => r
  end.

(** [release] stops the timers and marks the slot before its script runs. *)
Definition release_start (r : run) : run :=
  Run (confirmedDeadline r) (ownLimit r) (renewing r) (reconciling r) true true (aborted r).

(** [releaseAfterExecution]: ownership must still have covered the execution. *)
Definition releaseAfterExecution (now : Z) (r : run) : run :=
  release_start (if released r then r else checkOwnership now r).

(** ** One run among the others

    [tok] is the run's token; the other runs have tokens of their own. The local
    clock and the server's differ by a constant. *)
Variables (tok : string) (skew : Z).

Definition local_now (d : db) : Z := clock d + skew.

Inductive sys_step : db * run -> db * run -> Prop :=
| s_other d r e : event_valid e -> event_token e <> Some tok -> sys_step (d, r) (run_event e d, r)
| s_heartbeat_send d r : sys_step (d, r) (d, heartbeat_send (local_now d) r)
| s_renew_exec d r at_ own d' res :
    renewing r = Some (Request at_ own None) -> renew k1 k2 tok own d = (d', res) ->
    sys_step (d, r) (d', set_renewing (Some (Request at_ own (Some res))) r)
| s_heartbeat_reply d r : sys_step (d, r) (d, heartbeat_reply (local_now d) r)
| s_renew_error d r : sys_step (d, r) (d, set_renewing None r)
| s_watchdog d r :
    confirmedDeadline r - STOP_MARGIN_MS <= local_now d -> sys_step (d, r) (d, loseOwnership r)
| s_reconcile_send d r own :
    0 <= own -> reconciling r = None -> sys_step (d, r) (d, reconcile_send (local_now d) own r)
| s_reconcile_exec d r at_ own waiter d' res :
    reconciling r = Some (Request at_ own None) -> reconcile k1 k2 k3 k4 tok own waiter d = (d', res) ->
    sys_step (d, r) (d', set_reconciling (Some (Request at_ own (Some res))) r)
| s_reconcile_reply d r : sys_step (d, r) (d, reconcile_reply (local_now d) r)
| s_release_start d r : sys_step (d, r) (d, releaseAfterExecution (local_now d) r)
| s_release_exec d r : released r = true -> sys_step (d, r) (fst (release k1 k2 k3 k4 tok d), r).

(** A run starts when its admission, requested at [at_], succeeds. *)
Inductive sys_reachable : db * run -> Prop :=
| sys_start d at_ own waiter d' res :
    slots_reachable d -> 0 <= own -> at_ <= local_now d ->
    acquire k1 k2 k3 k4 tok own waiter d = (d', res) -> res <> 0 ->
    sys_reachable (d', admitted at_ own)
| sys_next s s' : sys_reachable s -> sys_step s s' -> sys_reachable s'.

(** Until the instant [D] (server time) the member is in the sorted set. *)
Definition covered (d : db) (D : Z) : Prop :=
  clock d < D -> exists s, live d !! tok = Some s /\ D <= s * 1000.

Lemma covered_same d d' D :
  clock d' = clock d -> live d' !! tok = live d !! tok -> covered d D -> covered d' D.
Proof. unfold covered. by intros -> ->. Qed.

Lemma covered_lease d d' D :
  clock d' = clock d -> live d' = <[tok := TIME d + 120]> (live d) -> D <= clock d + CONFIRMED_LEASE_MS ->
  covered d' D.
Proof.
  intros Hc Hl HD _. exists (TIME d + 120). rewrite Hl, lookup_insert_eq. split; [done|].
  unfold TIME, CONFIRMED_LEASE_MS in *. pose proof (Z.mod_pos_bound (clock d) 1000).
  pose proof (Z.div_mod (clock d) 1000). lia.
Qed.

(** A later lease covers what an earlier one covered. *)
Lemma covered_extend d d' D :
  slots_inv k1 k2 d -> clock d' = clock d -> live d' = <[tok := TIME d + 120]> (live d) ->
  covered d D -> covered d' D.
Proof.
  intros (_ & _ & Hsc & _) Hc Hl Hcov Hlt. rewrite Hc in Hlt. destruct (Hcov Hlt) as (s & Hs & HD).
  exists (TIME d + 120). rewrite Hl, lookup_insert_eq. split; [done|].
  apply map_lookup_filter_Some in Hs as [Hs _]. apply Hsc in Hs. lia.
Qed.

Lemma covered_elapse d n D :
  slots_inv k1 k2 d -> 0 <= n -> covered d D -> covered (elapse n d) D.
Proof.
  intros Hinv Hn Hcov Hlt. destruct (elapse_cases k1 k2 d n Hinv Hn) as (_ & Hc & Hl & _).
  rewrite Hc in Hlt. destruct Hcov as (s & Hs & HD); [lia|]. exists s. split; [|done].
  rewrite Hl. apply map_lookup_filter_Some. split; [done|]. simpl. unfold TIME. rewrite Hc.
  apply Z.div_lt_upper_bound; lia.
Qed.

(** Steps of other runs do not shorten this run's lease. *)
Lemma covered_other d e D :
  slots_inv k1 k2 d -> event_valid e -> event_token e <> Some tok ->
  covered d D -> covered (run_event e d) D.
Proof.
  intros Hinv He Ht Hcov. destruct e as [t o w|t o|t o w|t|w|n]; simpl in *.
  - assert (t <> tok) by congruence. eapply covered_same; [..|exact Hcov].
    + by apply acquire_cases.
    + pose proof (acquire_cases k1 k2 k3 k4 Hkeys d t o w Hinv He) as (_ & _ & [(_ & -> & _)|(_ & -> & _)]).
      * done.
      * by rewrite lookup_insert_ne.
  - assert (t <> tok) by congruence. eapply covered_same; [..|exact Hcov].
    + by apply (renew_cases k1 k2 k3 k4).
    + pose proof (renew_cases k1 k2 k3 k4 Hkeys d t o Hinv He) as (_ & _ & [(_ & -> & _)|(_ & -> & _)]).
      * done.
      * by rewrite lookup_insert_ne.
  - assert (t <> tok) by congruence. eapply covered_same; [..|exact Hcov].
    + by apply reconcile_cases.
    + pose proof (reconcile_cases k1 k2 k3 k4 Hkeys d t o w Hinv He)
        as (_ & _ & [(_ & -> & _)|[(_ & -> & _)|(_ & -> & _)]]); [done| |done].
      by rewrite lookup_delete_ne.
  - assert (t <> tok) by congruence. eapply covered_same; [..|exact Hcov].
    + by apply release_cases.
    + pose proof (release_cases k1 k2 k3 k4 Hkeys d t Hinv) as (_ & _ & -> & _).
      by rewrite lookup_delete_ne.
  - destruct (forget_frame k1 k2 k3 k4 Hkeys w d) as (Hc & Hz & _).
    eapply covered_same; [done| |done]. rewrite (live_eq k1 d) by done. unfold forget. by rewrite Hz.
  - by apply covered_elapse.
Qed.

(** ** The invariant of a run *)

(** The reconciliation has not been answered by a refusal. *)
Definition not_refused (r : run) : Prop :=
  forall at_ own, reconciling r <> Some (Request at_ own (Some 0)).

Definition request_ok (d : db) (q : option request) : Prop :=
  forall at_ own res, q = Some (Request at_ own res) -> at_ <= local_now d /\ 0 <= own.

Definition holds_lease (d : db) (r : run) : Prop :=
  covered d (confirmedDeadline r - skew)
  /\ forall at_ own res, renewing r = Some (Request at_ own (Some res)) -> res = 1 \/ res = 2 ->
      covered d (at_ + CONFIRMED_LEASE_MS - skew).

Definition run_inv (s : db * run) : Prop :=
  let '(d, r) := s in
  slots_inv k1 k2 d /\ 0 <= ownLimit r /\ request_ok d (renewing r) /\ request_ok d (reconciling r)
  /\ (released r = false -> not_refused r -> holds_lease d r).

Lemma request_ok_later d d' q : clock d <= clock d' -> request_ok d q -> request_ok d' q.
Proof. unfold request_ok, local_now. intros Hc Hq at_ own res H. apply Hq in H. lia. Qed.

Lemma checkOwnership_same now r :
  confirmedDeadline (checkOwnership now r) = confirmedDeadline r /\ ownLimit (checkOwnership now r) = ownLimit r
  /\ renewing (checkOwnership now r) = renewing r /\ reconciling (checkOwnership now r) = reconciling r
  /\ finished (checkOwnership now r) = finished r /\ released (checkOwnership now r) = released r.
Proof. unfold checkOwnership. by case_bool. Qed.

(** The same run up to its abort flag. *)
Lemma run_inv_upto d r r' :
  ownLimit r' = ownLimit r -> confirmedDeadline r' = confirmedDeadline r -> renewing r' = renewing r ->
  reconciling r' = reconciling r -> (released r' = false -> released r = false) ->
  run_inv (d, r) -> run_inv (d, r').
Proof.
  unfold run_inv, holds_lease, not_refused. intros -> -> -> -> Hrel (? & ? & ? & ? & H).
  split_and!; [done..|]. auto.
Qed.

Lemma run_inv_check d now r : run_inv (d, r) -> run_inv (d, checkOwnership now r).
Proof.
  destruct (checkOwnership_same now r) as (H1 & H2 & H3 & H4 & H5 & H6).
  apply run_inv_upto; try done. by rewrite H6.
Qed.

Lemma run_inv_lose d r : run_inv (d, r) -> run_inv (d, loseOwnership r).
Proof. by apply run_inv_upto. Qed.

(** A pending request that is not an answered renewal adds nothing to cover. *)
Lemma run_inv_set_renewing d r q :
  (forall at_ own res, q = Some (Request at_ own res) -> at_ <= local_now d /\ 0 <= own /\ res = None) ->
  run_inv (d, r) -> run_inv (d, set_renewing q r).
Proof.
  intros Hq (H1 & H2 & H3 & H4 & H5). split_and!; [done|done| |done|].
  - intros at_ own res H. apply Hq in H. tauto.
  - intros Hr Hn. destruct (H5 Hr Hn) as [Hc _]. split; [done|].
    intros at_ own res H. simpl in H. apply Hq in H as (_ & _ & ?). done.
Qed.

Lemma run_inv_heartbeat_send d r : run_inv (d, r) -> run_inv (d, heartbeat_send (local_now d) r).
Proof.
  intros H. unfold heartbeat_send. case_bool; [done|]. case_bool; [by apply run_inv_check|].
  apply run_inv_set_renewing; [|by apply run_inv_check].
  intros at_ own res Hq. simplify_eq. split_and!; [lia| |done].
  destruct (checkOwnership_same (local_now d) r) as (_ & -> & _). apply H.
Qed.

Lemma run_inv_heartbeat_reply d r : run_inv (d, r) -> run_inv (d, heartbeat_reply (local_now d) r).
Proof.
  intros H. unfold heartbeat_reply. destruct (renewing r) as [[at_ own [renewed|]]|] eqn:Eq; [|done..].
  assert (H' : run_inv (d, set_renewing None r)) by by apply run_inv_set_renewing.
  case_bool; [done|]. case_bool; [by apply run_inv_check|].
  case_bool; [by apply run_inv_lose, run_inv_check|].
  destruct H as (H1 & H2 & H3 & H4 & H5).
  destruct (checkOwnership_same (local_now d) (set_renewing None r)) as (C1 & C2 & C3 & C4 & C5 & C6).
  assert (Hres : renewed = 1 \/ renewed = 2) by (apply andb_false_iff in E1 as [E1|E1]; zb; auto).
  split_and!; simpl; rewrite ?C2, ?C4; [done..|].
  rewrite C6; simpl. intros Hr Hn.
  destruct (H5 Hr) as [_ Hc]; [exact Hn|].
  split; [|done]. by apply (Hc at_ own renewed).
Qed.

Lemma run_inv_reconcile_send d r own :
  0 <= own -> reconciling r = None -> run_inv (d, r) -> run_inv (d, reconcile_send (local_now d) own r).
Proof.
  intros Ho Hq H. unfold reconcile_send. case_bool; [done|]. case_bool; [by apply run_inv_check|].
  destruct (checkOwnership_same (local_now d) r) as (C1 & C2 & C3 & C4 & C5 & C6).
  destruct H as (H1 & H2 & H3 & H4 & H5).
  split_and!; simpl; rewrite ?C2, ?C3; [done..| |].
  - intros ? ? ? ?. simplify_eq. unfold local_now. lia.
  - rewrite C6. intros Hr _. unfold holds_lease; simpl. rewrite C1, C3. apply H5; [done|].
    intros a o. by rewrite Hq.
Qed.

Lemma run_inv_reconcile_reply d r : run_inv (d, r) -> run_inv (d, reconcile_reply (local_now d) r).
Proof.
  intros H. pose proof H as (H1 & H2 & H3 & H4 & H5). unfold reconcile_reply.
  destruct (reconciling r) as [[at_ own [res|]]|] eqn:Eq; [|done..].
  destruct (H4 at_ own (Some res)) as [_ Hown]; [done|]. lazy iota zeta beta.
  case_bool. { split_and!; simpl in *; [done..|congruence]. }
  case_bool. { split_and!; simpl; done. }
  apply run_inv_check. zb.
  assert (H' : run_inv (d, Run (confirmedDeadline r) own (renewing r) None (finished r) false (aborted r))).
  { split_and!; simpl; [done..|]. intros _ _. apply H5; [done|].
    intros a o. rewrite Eq. congruence. }
  simpl. case_bool; [by apply run_inv_lose|done].
Qed.

(** A step of the store that keeps this run's cover keeps the invariant. *)
Lemma run_inv_store d d' r :
  slots_inv k1 k2 d' -> clock d <= clock d' -> (forall D, covered d D -> covered d' D) ->
  run_inv (d, r) -> run_inv (d', r).
Proof.
  intros Hi Hc Hcov (H1 & H2 & H3 & H4 & H5). split_and!; [done|done|by apply (request_ok_later d)..|].
  intros Hr Hn. destruct (H5 Hr Hn) as [Ha Hb]. split; eauto.
Qed.

Lemma clock_run_event e d : slots_inv k1 k2 d -> event_valid e -> clock d <= clock (run_event e d).
Proof.
  intros Hinv He. destruct e as [t o w|t o|t o w|t|w|n]; simpl in *.
  - pose proof (acquire_cases k1 k2 k3 k4 Hkeys d t o w Hinv He) as (_ & -> & _). lia.
  - pose proof (renew_cases k1 k2 k3 k4 Hkeys d t o Hinv He) as (_ & -> & _). lia.
  - pose proof (reconcile_cases k1 k2 k3 k4 Hkeys d t o w Hinv He) as (_ & -> & _). lia.
  - pose proof (release_cases k1 k2 k3 k4 Hkeys d t Hinv) as (_ & -> & _). lia.
  - destruct (forget_frame k1 k2 k3 k4 Hkeys w d) as (Hc & _). unfold forget. lia.
  - rewrite clock_elapse; lia.
Qed.

Lemma run_inv_renew_exec d r at_ own d' res :
  run_inv (d, r) -> renewing r = Some (Request at_ own None) -> renew k1 k2 tok own d = (d', res) ->
  run_inv (d', set_renewing (Some (Request at_ own (Some res))) r).
Proof.
  intros H Hq Hr. pose proof H as (H1 & H2 & H3 & H4 & H5). destruct (H3 at_ own None Hq) as [Hat Hown].
  pose proof (renew_cases k1 k2 k3 k4 Hkeys d tok own H1 Hown) as (Hi & Hc & Hcase).
  rewrite Hr in Hi, Hc, Hcase; simpl in Hi, Hc, Hcase.
  assert (Hcov : forall D, covered d D -> covered d' D).
  { intros D HD. destruct Hcase as [(_ & Hl & _)|(_ & Hl & _)].
    - eapply covered_same; [done|by rewrite Hl|done].
    - by apply (covered_extend d). }
  destruct (run_inv_store d d' r Hi) as (I1 & I2 & I3 & I4 & I5); [lia|done|done|].
  split_and!; simpl; [done..| |done|].
  - intros a o q Hx. simplify_eq. by eapply I3.
  - intros Hrel Hn. destruct (I5 Hrel Hn) as [Ha Hb]. split; [done|].
    intros a o q Hx Hres. simplify_eq/=.
    destruct Hcase as [(? & _)|(_ & Hl & _)]; [lia|].
    apply (covered_lease d); [done|done|]. unfold local_now in Hat. lia.
Qed.

Lemma run_inv_reconcile_exec d r at_ own waiter d' res :
  run_inv (d, r) -> reconciling r = Some (Request at_ own None) ->
  reconcile k1 k2 k3 k4 tok own waiter d = (d', res) ->
  run_inv (d', set_reconciling (Some (Request at_ own (Some res))) r).
Proof.
  intros H Hq Hr. pose proof H as (H1 & H2 & H3 & H4 & H5). destruct (H4 at_ own None Hq) as [Hat Hown].
  pose proof (reconcile_cases k1 k2 k3 k4 Hkeys d tok own waiter H1 Hown) as (Hi & Hc & Hcase).
  rewrite Hr in Hi, Hc, Hcase; simpl in Hi, Hc, Hcase.
  split_and!; simpl; [done|done|by apply (request_ok_later d); [lia|]| |].
  - intros a o q Hx. simplify_eq. destruct (H4 a o None Hq). unfold local_now. rewrite Hc. done.
  - intros Hrel Hn.
    assert (Hl : live d' = live d).
    { destruct Hcase as [(_ & Hl & _)|[(-> & _)|(_ & Hl & _)]]; [done| |done]. by destruct (Hn at_ own). }
    destruct (H5 Hrel) as [Ha Hb]; [intros a o; congruence|].
    split; [|intros a o q Hx Hres]; (eapply covered_same; [done|by rewrite Hl|]); [done|].
    by apply (Hb a o q).
Qed.

Lemma sys_reachable_inv s : sys_reachable s -> run_inv s.
Proof.
  induction 1 as [d at_ own waiter d' res Hd Hown Hat Hacq Hres|s s' _ IH Hstep].
  - pose proof (acquire_cases k1 k2 k3 k4 Hkeys d tok own waiter (reachable_inv d Hd) Hown) as H.
    rewrite Hacq in H; simpl in H. destruct H as (Hi & Hc & [(? & _)|(_ & Hl & _)]); [done|].
    split_and!; [done|done|done|done|]. intros _ _. split; [|done].
    apply (covered_lease d); [done|done|]. unfold admitted, local_now in *; simpl. lia.
  - destruct Hstep as [d r e He Ht|d r|d r at_ own d' res Hq Hr|d r|d r|d r Hw|d r own Ho Hq
      |d r at_ own w d' res Hq Hr|d r|d r|d r Hrel].
    + apply (run_inv_store d); [|by apply clock_run_event, He; apply IH| |done].
      * apply run_event_inv; [done|apply IH].
      * intros D. apply covered_other; [apply IH|done..].
    + by apply run_inv_heartbeat_send.
    + by apply (run_inv_renew_exec d).
    + by apply run_inv_heartbeat_reply.
    + by apply run_inv_set_renewing.
    + by apply run_inv_lose.
    + by apply run_inv_reconcile_send.
    + by apply (run_inv_reconcile_exec d r at_ own w).
    + by apply run_inv_reconcile_reply.
    + destruct IH as (H1 & H2 & H3 & H4 & H5). unfold releaseAfterExecution.
      destruct (checkOwnership_same (local_now d) r) as (C1 & C2 & C3 & C4 & _).
      case_bool; split_and!; simpl; rewrite ?C2, ?C3, ?C4; done.
    + destruct IH as (H1 & H2 & H3 & H4 & H5).
      pose proof (release_cases k1 k2 k3 k4 Hkeys d tok H1) as (Hi & Hc & _).
      split_and!; [done|done|by apply (request_ok_later d); [lia|]..|congruence].
Qed.

(** The time that passes in a sequence of events. *)
Definition elapsed (es : list slot_event) : Z :=
  foldr (fun e n => (match e with Elapse ms => ms | _ => 0 end) + n) 0 es.

Lemma covered_others es d D :
  slots_inv k1 k2 d -> Forall event_valid es -> Forall (fun e => event_token e <> Some tok) es ->
  covered d D ->
  let d' := foldl (fun d e => run_event e d) d es in covered d' D /\ clock d' = clock d + elapsed es.
Proof.
  intros Hinv Hv Ht Hcov. revert d Hinv Hcov; induction es as [|e es IH]; intros d Hinv Hcov; simpl.
  { split; [done|lia]. }
  inversion Hv; subst. inversion Ht; subst.
  destruct (IH ltac:(done) ltac:(done) (run_event e d)) as [IH1 IH2].
  { by apply run_event_inv. } { by apply covered_other. }
  split; [done|]. rewrite IH2.
  assert (clock (run_event e d) = clock d + match e with Elapse ms => ms | _ => 0 end); [|lia].
  destruct e as [t o w|t o|t o w|t|w|n]; simpl in *.
  - pose proof (acquire_cases k1 k2 k3 k4 Hkeys d t o w Hinv ltac:(done)) as (_ & -> & _). lia.
  - pose proof (renew_cases k1 k2 k3 k4 Hkeys d t o Hinv ltac:(done)) as (_ & -> & _). lia.
  - pose proof (reconcile_cases k1 k2 k3 k4 Hkeys d t o w Hinv ltac:(done)) as (_ & -> & _). lia.
  - pose proof (release_cases k1 k2 k3 k4 Hkeys d t Hinv) as (_ & -> & _). lia.
  - destruct (forget_frame k1 k2 k3 k4 Hkeys w d) as (Hc & _). unfold forget. lia.
  - by apply clock_elapse.
Qed.

(** A run that still passes its ownership check is counted: from then on, for
    the whole 30-second stop margin and whatever the other runs do in the meantime,
    its member stays in the repository's sorted set, so no capped admission can
    overlook its container. *)
Theorem owner_is_counted d r es :
  sys_reachable (d, r) -> released r = false -> not_refused r ->
  aborted r = false -> checkOwnership (local_now d) r = r ->
  Forall event_valid es -> Forall (fun e => event_token e <> Some tok) es ->
  elapsed es <= STOP_MARGIN_MS ->
  tok ∈ dom (live (foldl (fun d e => run_event e d) d es)).
Proof.
  intros Hs Hr Hn Ha Hck Hv Ht Hm. apply sys_reachable_inv in Hs as (H1 & _ & _ & _ & H5).
  destruct (H5 Hr Hn) as [Hcov _].
  assert (Hlt : local_now d < confirmedDeadline r - STOP_MARGIN_MS).
  { unfold checkOwnership in Hck. case_bool; zb; [|done].
    apply (f_equal aborted) in Hck. simpl in Hck. congruence. }
  destruct (covered_others es d _ H1 Hv Ht Hcov) as [Hc Hck'].
  destruct Hc as (s & Hs & _); [|by apply elem_of_dom_2 in Hs].
  rewrite Hck'. unfold local_now, STOP_MARGIN_MS in *. lia.
Qed.

(** ** Waking waiters *)

(** A released slot wakes the longest-waiting callers first: every candidate was
    refused no later than any waiter left out, at most five spares are added to the
    number that may fit, and that number respects every remaining cap and the
    released run's own. *)
Theorem release_wakes_longest_waiting d token d' free candidates :
  slots_reachable d -> release k1 k2 k3 k4 token d = (d', Some (free, candidates)) ->
  0 < free <= 10 /\ Z.of_nat (length candidates) <= free + 5
  /\ (forall m cap, m ∈ dom (live d) -> hash d k2 !! m = Some cap -> 0 < cap ->
       Z.of_nat (size (live d')) + free <= cap)
  /\ (forall w, w ∈ candidates -> exists s, zset d' k3 !! w = Some s
       /\ forall w' s', zset d' k3 !! w' = Some s' -> w' ∉ candidates -> s <= s').
Proof.
  intros Hd Hrel. pose proof (reachable_inv d Hd) as Hinv.
  pose proof (release_cases k1 k2 k3 k4 Hkeys d token Hinv) as (Hi' & _ & Hl & Hh).
  rewrite Hrel in Hi', Hl, Hh; simpl in Hi', Hl, Hh.
  unfold release, RELEASE_WORKFLOW_SLOT in Hrel.
  set (dp := purge_waiters k3 k4 (TIME d) (HDEL k2 token (ZREM k1 token d))) in *.
  set (own := default 0 (hash d k2 !! token)) in *. set (l := active_limit own (HVALS k2 dp)) in *.
  set (f := if 0 <? l then Z.min 10 (l - ZCARD k1 dp) else 10) in *.
  destruct (f <=? 0) eqn:Ef; [done|]. zb.
  destruct (ZRANGE k3 (f + 4) dp) as [|c cs] eqn:Ez; [done|]. injection Hrel as <- <- <-.
  assert (Hown : 0 <= own).
  { unfold own. destruct (hash d k2 !! token) as [o|] eqn:E; simpl; [|lia].
    by destruct (proj1 (proj2 Hinv) token o E). }
  destruct (active_limit_spec own (HVALS k2 dp) Hown) as (A1 & A2 & A3 & _). fold l in A1, A2, A3.
  rewrite <- Ez. split_and!.
  - lia.
  - unfold f. case_bool; lia.
  - pose proof (ZRANGE_length k3 (f + 4) dp). lia.
  - intros m cap Hm Hcap Hpos. pose proof (live_size dp).
    assert (Hlc : 0 < l <= cap).
    { destruct (decide (m = token)) as [->|].
      - unfold own in A2. rewrite Hcap in A2; simpl in A2. lia.
      - apply A3; [|done]. apply HVALS_spec. exists m. by rewrite Hh, lookup_delete_ne. }
    unfold f, ZCARD in *. case_bool; zb; lia.
  - intros w Hw. by apply ZRANGE_least.
Qed.
End Runs.

(** ** A concrete server

    The keys of a repository, the hypotheses of the capacity theorems on a server
    that is evaluated, and a race the source's comment excludes. *)

Import ModelServer.


Lemma append_ne_self (a b : string) : b <> ""%string -> (a ++ b)%string <> a.
Proof. intros Hb. induction a as [|c a IH]; simpl; [done|]. congruence. Qed.

Lemma append_inj_l (a b c : string) : (a ++ b)%string = (a ++ c)%string -> b = c.
Proof. induction a as [|x a IH]; simpl; [done|]. intros [=]. auto. Qed.

(** The four keys of a repository are distinct. *)
Lemma slot_keys_distinct repository :
  let '(a, b, c, e) := repositoryWorkflowSlotKeys repository in NoDup [a; b; c; e].
Proof.
  unfold repositoryWorkflowSlotKeys.
  set (k := ("propr:workflow:slots:{" ++ to_lower repository ++ "}")%string). clearbody k.
  assert (Hne : forall s, s <> ""%string -> k <> (k ++ s)%string).
  { intros s Hs He. by apply (append_ne_self k s Hs). }
  assert (Hsuf : forall s t, s <> t -> (k ++ s)%string <> (k ++ t)%string).
  { intros s t Hst He. apply Hst. by apply append_inj_l in He. }
  rewrite !NoDup_cons, !not_elem_of_cons. split_and!; auto using not_elem_of_nil, NoDup_nil_2.
Qed.

(** ** A repository on the concrete server *)

Definition key1 : string := "propr:workflow:slots:{owner/repo}".
Definition key2 : string := "propr:workflow:slots:{owner/repo}:limits".
Definition key3 : string := "propr:workflow:slots:{owner/repo}:waiters".
Definition key4 : string := "propr:workflow:slots:{owner/repo}:waiting".

Lemma keys_of_repo : repositoryWorkflowSlotKeys "Owner/Repo" = (key1, key2, key3, key4).
Proof. reflexivity. Qed.

Lemma keys_nodup : NoDup [key1; key2; key3; key4].
Proof. exact (slot_keys_distinct "Owner/Repo"). Qed.

Definition server0 : model := empty_server 1000000.
Definition after_acquire (token : string) (own : Z) (waiter : string) (d : model) : model :=
  fst (acquire key1 key2 key3 key4 token own waiter d).

Abbreviation slots := (slots_reachable (db:=model) key1 key2 key3 key4).

Lemma server0_reachable : slots server0.
Proof. by apply slots_init. Qed.

Lemma acquire_reachable token own waiter d :
  0 <= own -> slots d -> slots (after_acquire token own waiter d).
Proof. intros Ho Hd. exact (slots_step _ _ _ _ d (Acquire token own waiter) Hd Ho). Qed.

(** One run with a cap of 2, and a second one that was refused and waits. *)
Definition server1 : model := after_acquire "a" 1 "" server0.
Definition server2 : model := after_acquire "b" 2 "job-b" server1.

Lemma server2_reachable : slots server2.
Proof. repeat (apply acquire_reachable; [lia|]). apply server0_reachable. Qed.

Lemma capacity_never_exceeded_witness :
  slots server2 /\ Z.of_nat (size (live key1 server2)) <= 1.
Proof.
  split; [apply server2_reachable|].
  refine (capacity_never_exceeded key1 key2 key3 key4 keys_nodup server2 "a" 1 server2_reachable _ _ _).
  - apply (bool_decide_unpack _). vm_compute. exact I.
  - vm_compute. reflexivity.
  - lia.
Defined.

Lemma acquire_refuses_iff_full_witness :
  slots server1 /\ snd (acquire key1 key2 key3 key4 "b" 2 "job-b" server1) = 0.
Proof.
  split; [apply acquire_reachable; [lia|apply server0_reachable]|].
  pose proof (acquire_refuses_iff_full key1 key2 key3 key4 keys_nodup server1 "b" 2 "job-b"
    (acquire_reachable "a" 1 "" server0 ltac:(lia) server0_reachable) ltac:(lia)) as H.
  destruct (acquire key1 key2 key3 key4 "b" 2 "job-b" server1) as [d' r]. simpl.
  destruct H as [[_ H] _]. apply H. exists 1. split; [|vm_compute; discriminate].
  split; [lia|]. right. exists "a"%string. split; [|vm_compute; reflexivity].
  apply (bool_decide_unpack _). vm_compute. exact I.
Defined.

Lemma renew_never_readmits_under_cap_witness :
  slots server1 /\ snd (renew key1 key2 "gone" 2 server1) = 0.
Proof.
  split; [apply acquire_reachable; [lia|apply server0_reachable]|].
  pose proof (renew_never_readmits_under_cap key1 key2 key3 key4 keys_nodup server1 "gone" 2
    (acquire_reachable "a" 1 "" server0 ltac:(lia) server0_reachable) ltac:(lia)) as H.
  destruct (renew key1 key2 "gone" 2 server1) as [d' r]. simpl.
  destruct H as [[_ H] _]. apply H. split; [apply (bool_decide_unpack _); vm_compute; exact I|].
  exists 2. split; [lia|by left].
Defined.

Lemma release_wakes_longest_waiting_witness :
  exists d', release key1 key2 key3 key4 "a" server2 = (d', Some (1, ["job-b"%string]))
  /\ Z.of_nat (length ["job-b"%string]) <= 1 + 5.
Proof.
  eexists. split; [vm_compute; reflexivity|].
  refine (proj1 (proj2 (release_wakes_longest_waiting key1 key2 key3 key4 keys_nodup server2 "a" _ 1
    ["job-b"%string] server2_reachable _))). vm_compute. reflexivity.
Defined.

Lemma owner_is_counted_witness :
  "a"%string ∈ dom (live key1 (foldl (fun d e => run_event key1 key2 key3 key4 e d) server1
    [Acquire "b" 2 "job-b"; Elapse 20000])).
Proof.
  refine (owner_is_counted key1 key2 key3 key4 keys_nodup "a" 0 server1 (admitted 999000 1)
    [Acquire "b" 2 "job-b"; Elapse 20000] _ eq_refl _ eq_refl eq_refl _ _ _).
  - refine (sys_start _ _ _ _ "a" 0 server0 999000 1 "" server1 2 server0_reachable _ _ _ _).
    + lia.
    + vm_compute; discriminate.
    + vm_compute; reflexivity.
    + lia.
  - intros ? ? ?; discriminate.
  - repeat constructor; simpl; lia.
  - repeat constructor; discriminate.
  - vm_compute; discriminate.
Defined.

(** ** A refused reconciliation can leave a member behind

    The source says that in-flight renewals cannot recreate a removed member. A
    heartbeat sent while the reconciliation is in flight still carries the old,
    absent cap: when no other run has a cap, it takes the member again after the
    refusal removed it, and the run, already marked released, never removes it. *)
Example refused_run_leaves_member :
  exists d r, sys_reachable (db:=model) key1 key2 key3 key4 "a" 0 (d, r)
    /\ released r = true /\ finished r = true /\ renewing r = None /\ reconciling r = None
    /\ "a"%string ∈ dom (live key1 d).
Proof.
  set (d0 := after_acquire "b" 0 "" server0).
  set (d1 := after_acquire "a" 0 "" d0).
  set (r0 := admitted 1000000 0).
  set (r1 := reconcile_send 1000000 1 r0). set (r2 := heartbeat_send 1000000 r1).
  set (d3 := fst (reconcile key1 key2 key3 key4 "a" 1 "" d1)).
  set (r3 := set_reconciling (Some (Request 1000000 1 (Some 0))) r2).
  set (d4 := fst (renew key1 key2 "a" 0 d3)).
  set (r4 := set_renewing (Some (Request 1000000 0 (Some 1))) r3).
  set (r5 := heartbeat_reply 1000000 (reconcile_reply 1000000 r4)).
  exists d4, r5. split.
  2:{ split_and!; vm_compute; reflexivity. }
  apply (sys_next _ _ _ _ _ _ (d4, reconcile_reply 1000000 r4)); [|exact (s_heartbeat_reply _ _ _ _ _ 0 d4 _)].
  apply (sys_next _ _ _ _ _ _ (d4, r4)); [|exact (s_reconcile_reply _ _ _ _ _ 0 d4 _)].
  apply (sys_next _ _ _ _ _ _ (d3, r3));
    [|refine (s_renew_exec _ _ _ _ _ _ d3 r3 1000000 0 d4 1 _ _); vm_compute; reflexivity].
  apply (sys_next _ _ _ _ _ _ (d1, r2));
    [|refine (s_reconcile_exec _ _ _ _ _ _ d1 r2 1000000 1 "" d3 0 _ _); vm_compute; reflexivity].
  apply (sys_next _ _ _ _ _ _ (d1, r1)); [|exact (s_heartbeat_send _ _ _ _ _ 0 d1 r1)].
  apply (sys_next _ _ _ _ _ _ (d1, r0)); [|refine (s_reconcile_send _ _ _ _ _ 0 d1 r0 1 _ _); [lia|reflexivity]].
  refine (sys_start _ _ _ _ _ _ d0 1000000 0 "" d1 1 _ _ _ _ _).
  - apply acquire_reachable; [lia|apply server0_reachable].
  - lia.
  - vm_compute; discriminate.
  - vm_compute; reflexivity.
  - lia.
Qed.
