(* ===== verification/Interleave.v ===== *)
(** * Programs interleaved with other processes

    A program of one process over a shared store: every call is atomic and may be
    preceded by any step of another process, serialized values are read back through
    codecs, and the rules by which the components reason about such programs: what
    every own step does ([steps]), pre- and postconditions that survive interference
    ([triple]) and undisturbed runs ([runs]). *)

From S2P Require Import Prelude.

Open Scope list_scope.

(** [JSON.stringify] and [JSON.parse] at one record type; [parse] is [None] where
    [JSON.parse] throws. *)
Class Serial (raw A : Type) := {
  stringify : A -> raw;
  parse : raw -> option A;
  parse_stringify a : parse (stringify a) = Some a;
}.

Section Interleave.
Context {store_t : Type}.

(** ** Programs interleaved with other processes

    [others] are the steps of other processes: one (possibly doing nothing) runs
    before each call. [trace] records the store before and after each own call. *)

Record world := World {
  store : store_t;
  others : list (store_t -> store_t);
  trace : list (store_t * store_t);
}.

Definition M (A : Type) : Type := world -> result A * world.

#[export] Instance M_ret : MRet M := fun A a w => (Ok a, w).
#[export] Instance M_bind : MBind M := fun A B f m w =>
  match m w with (Ok a, w') => f a w' | (Throw e, w') => (Throw e, w') end.

Definition throw {A} (e : string) : M A := fun w => (Throw e, w).
Definition catch {A} (m : M A) (h : string -> M A) : M A := fun w =>
  match m w with (Ok a, w') => (Ok a, w') | (Throw e, w') => h e w' end.

(** One atomic call. *)
Definition call {A} (f : store_t -> A * store_t) : M A := fun w =>
  let s := match others w with g :: _ => g (store w) | [] => store w end in
  let '(a, s') := f s in
  (Ok a, World s' (tail (others w)) (trace w ++ [(s, s')])).

(** [for (const x of xs)] *)
Fixpoint each {A B} (f : A -> M B) (l : list A) : M (list B) :=
  match l with [] => mret [] | x :: l => y ← f x; ys ← each f l; mret (y :: ys) end.

Definition parse_or_throw {A} `{!Serial raw A} (r : option raw) : M (option A) :=
  match r with
  | None => mret None
  | Some r => match parse r with Some a => mret (Some a) | None => throw "Unexpected token in JSON" end
  end.

(** Every own step of [m], in every world, satisfies [P]. *)
Definition steps (P : store_t -> store_t -> Prop) {A} (m : M A) : Prop :=
  forall w, exists l, trace (snd (m w)) = trace w ++ l /\ Forall (fun ss => P ss.1 ss.2) l.

Lemma steps_ret P {A} (a : A) : steps P (mret a).
Proof. intros w. exists []. split; [by rewrite app_nil_r|constructor]. Qed.

Lemma steps_throw P {A} e : steps P (throw e : M A).
Proof. intros w. exists []. split; [by rewrite app_nil_r|constructor]. Qed.

Lemma steps_bind P {A B} (m : M A) (f : A -> M B) :
  steps P m -> (forall a, steps P (f a)) -> steps P (m ≫= f).
Proof.
  intros Hm Hf w. destruct (Hm w) as (l & Hl & HP). unfold mbind, M_bind.
  destruct (m w) as [[a|e] w']; simpl in Hl; [|by exists l].
  destruct (Hf a w') as (l' & Hl' & HP'). exists (l ++ l').
  rewrite Hl', Hl, app_assoc. split; [done|]. by apply Forall_app.
Qed.

Lemma steps_catch P {A} (m : M A) h : steps P m -> (forall e, steps P (h e)) -> steps P (catch m h).
Proof.
  intros Hm Hh w. destruct (Hm w) as (l & Hl & HP). unfold catch.
  destruct (m w) as [[a|e] w']; simpl in Hl; [by exists l|].
  destruct (Hh e w') as (l' & Hl' & HP'). exists (l ++ l').
  rewrite Hl', Hl, app_assoc. split; [done|]. by apply Forall_app.
Qed.

Lemma steps_call (P : store_t -> store_t -> Prop) {A} (f : store_t -> A * store_t) :
  (forall s, P s (snd (f s))) -> steps P (call f).
Proof.
  intros Hf w. unfold call. set (s := match others w with g :: _ => g (store w) | [] => store w end).
  specialize (Hf s). destruct (f s) as [a s'] eqn:E. exists [(s, s')]. simpl in *.
  split; [done|]. by repeat constructor.
Qed.

Lemma steps_each P {A B} (f : A -> M B) l : (forall a, steps P (f a)) -> steps P (each f l).
Proof.
  intros Hf. induction l as [|a l IH]; cbn [each]; [apply steps_ret|]. apply steps_bind; [apply Hf|]. intros b.
  apply steps_bind; [exact IH|]. intros bs. apply steps_ret.
Qed.

(** Every value [m] returns satisfies [Q]. *)
Definition returns {A} (m : M A) (Q : A -> Prop) : Prop := forall w a, fst (m w) = Ok a -> Q a.

Lemma returns_ret {A} (a : A) (Q : A -> Prop) : Q a -> returns (mret a) Q.
Proof. intros H w a' [= <-]. done. Qed.
Lemma returns_throw {A} e (Q : A -> Prop) : returns (throw e : M A) Q.
Proof. by intros w a. Qed.
Lemma returns_bind {A B} (m : M A) (f : A -> M B) Q : (forall a, returns (f a) Q) -> returns (m ≫= f) Q.
Proof. intros H w b. unfold mbind, M_bind. destruct (m w) as [[a|e] w']; [apply H|done]. Qed.
Lemma returns_bind_with {A B} (m : M A) (f : A -> M B) R Q : returns m R -> (forall a, R a -> returns (f a) Q) -> returns (m ≫= f) Q.
Proof.
  intros Hm Hf w b. specialize (Hm w). unfold mbind, M_bind. destruct (m w) as [[a|e] w']; [|done]. by apply Hf, Hm.
Qed.
Lemma steps_bind_returns P {A B} (m : M A) (f : A -> M B) Q :
  steps P m -> returns m Q -> (forall a, Q a -> steps P (f a)) -> steps P (m ≫= f).
Proof.
  intros Hm HQ Hf w. destruct (Hm w) as (l & Hl & HP). specialize (HQ w). unfold mbind, M_bind.
  destruct (m w) as [[a|e] w']; simpl in *; [|by exists l].
  destruct (Hf a (HQ a eq_refl) w') as (l' & Hl' & HP'). exists (l ++ l').
  rewrite Hl', Hl, app_assoc. split; [done|]. by apply Forall_app.
Qed.

(** The own steps of [m] as a list, where more than single steps matters. *)
Definition traces (P : list (store_t * store_t) -> Prop) {A} (m : M A) : Prop :=
  forall w, exists l, trace (snd (m w)) = trace w ++ l /\ P l.

Section Traces.
Variable P : list (store_t * store_t) -> Prop.
Hypothesis P_nil : P [].
Hypothesis P_app : forall l l', P l -> P l' -> P (l ++ l').

Lemma traces_ret {A} (a : A) : traces P (mret a).
Proof. intros w. exists []. by rewrite app_nil_r. Qed.

Lemma traces_throw {A} e : traces P (throw e : M A).
Proof. intros w. exists []. by rewrite app_nil_r. Qed.

Lemma traces_bind {A B} (m : M A) (f : A -> M B) :
  traces P m -> (forall a, traces P (f a)) -> traces P (m ≫= f).
Proof.
  intros Hm Hf w. destruct (Hm w) as (l & Hl & HP). unfold mbind, M_bind.
  destruct (m w) as [[a|e] w']; simpl in Hl; [|by exists l].
  destruct (Hf a w') as (l' & Hl' & HP'). exists (l ++ l'). rewrite Hl', Hl, app_assoc. auto.
Qed.
End Traces.

Lemma traces_call (P : list (store_t * store_t) -> Prop) {A} (f : store_t -> A * store_t) :
  (forall s, P [(s, snd (f s))]) -> traces P (call f).
Proof.
  intros Hf w. unfold call. set (s := match others w with g :: _ => g (store w) | [] => store w end).
  specialize (Hf s). destruct (f s) as [a s'] eqn:E. exists [(s, s')]. done.
Qed.

(** The first call of a program: what it found and answered. *)
Lemma call_bind {A B} (f : store_t -> A * store_t) (k : A -> M B) w :
  exists s w1, (call f ≫= k) w = k (fst (f s)) w1 /\ trace w1 = trace w ++ [(s, snd (f s))].
Proof.
  exists (match others w with g :: _ => g (store w) | [] => store w end). unfold call, mbind, M_bind.
  destruct (f _) as [a s'] eqn:E. simpl. by eexists.
Qed.

(** ** Programs under interference that respects an invariant

    [good] is what the steps of other processes do; [I] is what the own steps do
    when the pre- and postconditions hold along the way. *)
Definition etriple (good : (store_t -> store_t) -> Prop) (I : store_t -> store_t -> Prop)
    (P : store_t -> Prop) {A} (m : M A) (Q : A -> store_t -> Prop) (E : string -> store_t -> Prop) : Prop :=
  forall w, Forall good (others w) -> P (store w) ->
    exists l, trace (snd (m w)) = trace w ++ l /\ Forall (fun ss => I ss.1 ss.2) l
      /\ Forall good (others (snd (m w)))
      /\ match fst (m w) with Ok a => Q a (store (snd (m w))) | Throw e => E e (store (snd (m w))) end.
Definition triple good I P {A} (m : M A) (Q : A -> store_t -> Prop) : Prop := etriple good I P m Q (fun _ _ => True).

Lemma etriple_ret good I (P : store_t -> Prop) {A} (a : A) (Q : A -> store_t -> Prop) E :
  (forall s, P s -> Q a s) -> etriple good I P (mret a) Q E.
Proof. intros H w Hg HP. exists []. rewrite app_nil_r. split_and!; [done|constructor|done|by apply H]. Qed.

Lemma etriple_throw good I (P : store_t -> Prop) {A} e (Q : A -> store_t -> Prop) (E : string -> store_t -> Prop) :
  (forall s, P s -> E e s) -> etriple good I P (throw e) Q E.
Proof. intros H w Hg HP. exists []. rewrite app_nil_r. split_and!; [done|constructor|done|by apply H]. Qed.

Lemma etriple_bind good I P {A B} (m : M A) (f : A -> M B) Q R E :
  etriple good I P m Q E -> (forall a, etriple good I (Q a) (f a) R E) -> etriple good I P (m ≫= f) R E.
Proof.
  intros Hm Hf w Hg HP. destruct (Hm w Hg HP) as (l & Hl & HI & Hg' & HQ).
  unfold mbind, M_bind. destruct (m w) as [[a|e] w']; simpl in *; [|by exists l].
  destruct (Hf a w' Hg' HQ) as (l' & Hl' & HI' & Hg'' & HR). exists (l ++ l').
  rewrite Hl', Hl, app_assoc. split_and!; [done|by apply Forall_app|done|done].
Qed.

Lemma etriple_catch good I P {A} (m : M A) h Q (E E' : string -> store_t -> Prop) :
  etriple good I P m Q E -> (forall e, etriple good I (E e) (h e) Q E') -> etriple good I P (catch m h) Q E'.
Proof.
  intros Hm Hh w Hg HP. destruct (Hm w Hg HP) as (l & Hl & HI & Hg' & HQ).
  unfold catch. destruct (m w) as [[a|e] w']; simpl in *; [by exists l|].
  destruct (Hh e w' Hg' HQ) as (l' & Hl' & HI' & Hg'' & HR). exists (l ++ l').
  rewrite Hl', Hl, app_assoc. split_and!; [done|by apply Forall_app|done|done].
Qed.

Lemma etriple_call (good : (store_t -> store_t) -> Prop) I (P : store_t -> Prop) {A}
    (f : store_t -> A * store_t) (Q : A -> store_t -> Prop) E :
  (forall g s, good g -> P s -> P (g s)) ->
  (forall s, P s -> I s (snd (f s)) /\ Q (fst (f s)) (snd (f s))) -> etriple good I P (call f) Q E.
Proof.
  intros Hstable Hf w Hg HP. unfold call.
  set (s := match others w with g :: _ => g (store w) | [] => store w end).
  assert (HPs : P s).
  { unfold s. destruct (others w) as [|g gs]; [done|]. inversion Hg; subst. auto. }
  destruct (Hf s HPs) as [HI HQ]. destruct (f s) as [a s']. simpl in *.
  exists [(s, s')]. split_and!; [done|by repeat constructor| |done].
  destruct (others w); simpl; [constructor|by inversion Hg].
Qed.

Lemma etriple_weaken (P' : store_t -> Prop) good I (P : store_t -> Prop) {A} (m : M A) (Q' Q : A -> store_t -> Prop) (E' E : string -> store_t -> Prop) :
  (forall s, P s -> P' s) -> (forall a s, Q' a s -> Q a s) -> (forall e s, E' e s -> E e s) ->
  etriple good I P' m Q' E' -> etriple good I P m Q E.
Proof.
  intros HP HQ HE H w Hg Hw. destruct (H w Hg (HP _ Hw)) as (l & Hl & HI & Hg' & Ha). exists l.
  split_and!; [done..|]. destruct (fst (m w)); auto.
Qed.

Lemma triple_ret good I (P : store_t -> Prop) {A} (a : A) (Q : A -> store_t -> Prop) :
  (forall s, P s -> Q a s) -> triple good I P (mret a) Q.
Proof. apply etriple_ret. Qed.

Lemma triple_throw good I P {A} e (Q : A -> store_t -> Prop) : triple good I P (throw e) Q.
Proof. by apply etriple_throw. Qed.

Lemma triple_bind good I P {A B} (m : M A) (f : A -> M B) Q R :
  triple good I P m Q -> (forall a, triple good I (Q a) (f a) R) -> triple good I P (m ≫= f) R.
Proof. apply etriple_bind. Qed.

Lemma triple_call (good : (store_t -> store_t) -> Prop) I (P : store_t -> Prop) {A}
    (f : store_t -> A * store_t) (Q : A -> store_t -> Prop) :
  (forall g s, good g -> P s -> P (g s)) ->
  (forall s, P s -> I s (snd (f s)) /\ Q (fst (f s)) (snd (f s))) -> triple good I P (call f) Q.
Proof. apply etriple_call. Qed.

(** A read changes nothing. *)
Lemma triple_read good (I : store_t -> store_t -> Prop) (P : store_t -> Prop) {A} (f : store_t -> A)
    (Q : A -> store_t -> Prop) :
  (forall g s, good g -> P s -> P (g s)) -> (forall s, P s -> I s s) -> (forall s, P s -> Q (f s) s) ->
  triple good I P (call (fun s => (f s, s))) Q.
Proof. intros. apply triple_call; [done|]. intros s HP. simpl. auto. Qed.

Lemma triple_parse good I (P : store_t -> Prop) {A} `{!Serial raw A} r (Q : option A -> store_t -> Prop) :
  (forall s, r = None -> P s -> Q None s) ->
  (forall s x a, r = Some x -> parse x = Some a -> P s -> Q (Some a) s) ->
  triple good I P (parse_or_throw r) Q.
Proof.
  intros H1 H2. unfold parse_or_throw. destruct r as [x|]; [|apply triple_ret; auto].
  destruct (parse x) eqn:E; [apply triple_ret; eauto|apply triple_throw].
Qed.

Lemma triple_weaken (P' : store_t -> Prop) good I P {A} (m : M A) Q :
  (forall s, P s -> P' s) -> triple good I P' m Q -> triple good I P m Q.
Proof. intros HP H w Hg Hw. apply H; auto. Qed.

Lemma triple_pure (phi : Prop) good I P {A} (m : M A) Q :
  (phi -> triple good I P m Q) -> triple good I (fun s => P s /\ phi) m Q.
Proof. intros H w Hg [HP Hphi]. by apply H. Qed.

Lemma etriple_pure (phi : Prop) good I (P : store_t -> Prop) {A} (m : M A) Q E :
  (phi -> etriple good I P m Q E) -> etriple good I (fun s => P s /\ phi) m Q E.
Proof. intros H w Hg [HP Hphi]. by apply H. Qed.
Lemma etriple_ex {X} good I (P : X -> store_t -> Prop) {A} (m : M A) Q E :
  (forall x, etriple good I (P x) m Q E) -> etriple good I (fun s => exists x, P x s) m Q E.
Proof. intros H w Hg [x Hx]. by apply (H x). Qed.

(** ** Mutable locals

    A function whose local variables [L] are assigned along the way and are still read by
    the handlers of what it throws. *)
Section Locals.
Context {L : Type}.
Definition Local_ (A : Type) : Type := L -> M (L * result A).

#[export] Instance Local_ret : MRet Local_ := fun A a l => mret (l, Ok a).
#[export] Instance Local_bind : MBind Local_ := fun A B f m l =>
  '(l, r) ← m l; match r with Ok a => f a l | Throw e => mret (l, Throw e) end.
Definition raise {A} (e : string) : Local_ A := fun l => mret (l, Throw e).
(** [try { m } catch (e) { h(e) }] *)
Definition handle {A} (m : Local_ A) (h : string -> Local_ A) : Local_ A := fun l =>
  '(l, r) ← m l; match r with Ok a => mret (l, Ok a) | Throw e => h e l end.
Definition lift {A} (m : M A) : Local_ A := fun l w => let '(r, w) := m w in (Ok (l, r), w).
Definition locals : Local_ L := fun l => mret (l, Ok l).
Definition assign (f : L -> L) : Local_ unit := fun l => mret (f l, Ok tt).

(** Pre- and postconditions over the locals and the store. *)
Definition ltriple good I (P : L -> store_t -> Prop) {A} (m : Local_ A) (Q : A -> L -> store_t -> Prop) (E : string -> L -> store_t -> Prop) : Prop :=
  forall l, etriple good I (P l) (m l)
    (fun p s => match p.2 with Ok a => Q a p.1 s | Throw e => E e p.1 s end) (fun _ _ => False).

Lemma ltriple_ret good I (P : L -> store_t -> Prop) {A} (a : A) Q E : (forall l s, P l s -> Q a l s) -> ltriple good I P (mret a) Q E.
Proof. intros H l. apply etriple_ret. intros s HP. simpl. auto. Qed.
Lemma ltriple_raise good I (P : L -> store_t -> Prop) {A} e (Q : A -> L -> store_t -> Prop) (E : string -> L -> store_t -> Prop) :
  (forall l s, P l s -> E e l s) -> ltriple good I P (raise e) Q E.
Proof. intros H l. apply etriple_ret. intros s HP. simpl. auto. Qed.
Lemma ltriple_bind good I P {A B} (m : Local_ A) (f : A -> Local_ B) Q R E :
  ltriple good I P m Q E -> (forall a, ltriple good I (Q a) (f a) R E) -> ltriple good I P (m ≫= f) R E.
Proof.
  intros Hm Hf l. eapply etriple_bind; [apply Hm|]. intros [l' [a|e]]; simpl; [apply Hf|]. apply etriple_ret. done.
Qed.
Lemma ltriple_handle good I P {A} (m : Local_ A) h (Q : A -> L -> store_t -> Prop) E E' :
  ltriple good I P m Q E -> (forall e, ltriple good I (E e) (h e) Q E') -> ltriple good I P (handle m h) Q E'.
Proof.
  intros Hm Hh l. eapply etriple_bind; [apply Hm|]. intros [l' [a|e]]; simpl; [|apply Hh]. apply etriple_ret. done.
Qed.
Lemma ltriple_locals good I (P : L -> store_t -> Prop) Q E : (forall l s, P l s -> Q l l s) -> ltriple good I P locals Q E.
Proof. intros H l. apply etriple_ret. intros s HP. simpl. auto. Qed.
Lemma ltriple_assign good I (P : L -> store_t -> Prop) f Q E : (forall l s, P l s -> Q tt (f l) s) -> ltriple good I P (assign f) Q E.
Proof. intros H l. apply etriple_ret. intros s HP. simpl. auto. Qed.
Lemma ltriple_lift good I (P : L -> store_t -> Prop) {A} (m : M A) Q (E : string -> L -> store_t -> Prop) :
  (forall l, etriple good I (P l) m (fun a => Q a l) (fun e => E e l)) -> ltriple good I P (lift m) Q E.
Proof.
  intros H l w Hg HP. destruct (H l w Hg HP) as (t & Ht & HI & Hg' & HQ). exists t.
  unfold lift. destruct (m w) as [r w'] eqn:Em. simpl in *. split_and!; [done..|]. by destruct r.
Qed.
(** A call leaves the locals alone. *)
Lemma ltriple_lift_at good I l0 (P : store_t -> Prop) {A} (m : M A) (Q : A -> store_t -> Prop) E :
  etriple good I P m Q E ->
  ltriple good I (fun l s => l = l0 /\ P s) (lift m) (fun a l s => l = l0 /\ Q a s) (fun e l s => l = l0 /\ E e s).
Proof.
  intros H. apply ltriple_lift. intros l w Hg [-> HP]. destruct (H w Hg HP) as (t & Ht & HI & Hg' & HQ).
  exists t. split_and!; [done..|]. by destruct (m w).1.
Qed.
Lemma ltriple_weaken (P' : L -> store_t -> Prop) good I (P : L -> store_t -> Prop) {A} (m : Local_ A)
    (Q' Q : A -> L -> store_t -> Prop) (E' E : string -> L -> store_t -> Prop) :
  (forall l s, P l s -> P' l s) -> (forall a l s, Q' a l s -> Q a l s) -> (forall e l s, E' e l s -> E e l s) ->
  ltriple good I P' m Q' E' -> ltriple good I P m Q E.
Proof.
  intros HP HQ HE H l. eapply etriple_weaken; [apply HP| |exact (fun _ _ H => H)|apply H].
  intros [l' [a|e]] s; simpl; auto.
Qed.
Lemma ltriple_ex {X} good I (P : X -> L -> store_t -> Prop) {A} (m : Local_ A) Q E :
  (forall x, ltriple good I (P x) m Q E) -> ltriple good I (fun l s => exists x, P x l s) m Q E.
Proof. intros H l w Hg [x Hx]. by apply (H x). Qed.
Lemma ltriple_fix good I (P : L -> store_t -> Prop) {A} (m : Local_ A) Q E :
  (forall l0, ltriple good I (fun l s => l = l0 /\ P l0 s) m Q E) -> ltriple good I P m Q E.
Proof. intros H l w Hg HP. by apply (H l). Qed.
Lemma ltriple_pure (phi : Prop) good I (P : L -> store_t -> Prop) {A} (m : Local_ A) Q E :
  (phi -> ltriple good I P m Q E) -> ltriple good I (fun l s => phi /\ P l s) m Q E.
Proof. intros H l w Hg [Hphi HP]. by apply H. Qed.
End Locals.

(** [m] takes the store [s] to [s'] and returns [a], without interference. *)
Definition runs {A} (m : M A) (s : store_t) (a : A) (s' : store_t) : Prop :=
  forall tr, exists tr', m (World s [] tr) = (Ok a, World s' [] tr').

Lemma runs_ret {A} (a : A) s : runs (mret a) s a s.
Proof. intros tr. by exists tr. Qed.

Lemma runs_call {A} (f : store_t -> A * store_t) s a s' : f s = (a, s') -> runs (call f) s a s'.
Proof. intros Hf tr. unfold call; simpl. rewrite Hf. by eexists. Qed.

Lemma runs_bind {A B} (m : M A) (f : A -> M B) s a s1 b s2 :
  runs m s a s1 -> runs (f a) s1 b s2 -> runs (m ≫= f) s b s2.
Proof.
  intros Hm Hf tr. destruct (Hm tr) as [tr1 H1]. destruct (Hf tr1) as [tr2 H2].
  exists tr2. unfold mbind, M_bind. by rewrite H1.
Qed.

Lemma runs_parse {A} `{!Serial raw A} (a : A) s : runs (parse_or_throw (Some (stringify a))) s (Some a) s.
Proof. unfold parse_or_throw. rewrite parse_stringify. apply runs_ret. Qed.

End Interleave.
Arguments world store_t : clear implicits.
Arguments M store_t A : clear implicits.
Arguments Local_ store_t L A : clear implicits.
