(* ===== verification/UltrafixLoop.v ===== *)
(** * The Ultrafix loop: state and decisions

    The loop state of a pull request and the side-effect-free policies that decide
    its next step (src/jobs/ultrafixOrchestrationService.ts,
    ultrafixReadinessPolicy.ts, ultrafixEscalationPolicy.ts and the breakers of
    ultrafixResumeClaim.ts). Scores are the integers 1 to 10 that the review parser
    yields, a configured goal any number from 1 to 10; a field that old states lack, or that the code guards with [typeof], is
    an option. *)

From S2P Require Import Prelude JsString Json.

Open Scope Z_scope.

(** ** Data *)

Inductive UltrafixAction := review | fix_.
#[export] Instance UltrafixAction_eq_dec : EqDecision UltrafixAction.
Proof. solve_decision. Defined.

Inductive ReviewOutputStatus := valid_clean | valid_with_blockers | invalid.
#[export] Instance ReviewOutputStatus_eq_dec : EqDecision ReviewOutputStatus.
Proof. solve_decision. Defined.

Inductive CompletionStatus := succeeded | failed.
#[export] Instance CompletionStatus_eq_dec : EqDecision CompletionStatus.
Proof. solve_decision. Defined.

Inductive FindingStatus := open_ | selected | addressed | resolved.
#[export] Instance FindingStatus_eq_dec : EqDecision FindingStatus.
Proof. solve_decision. Defined.

Record UltrafixFindingLifecycle := Finding {
  f_id : string;
  f_sourceCommentId : Z;
  f_title : string;
  f_status : FindingStatus;
  f_firstSeenCycle : Z;
  f_lastSeenCycle : Z;
}.
#[export] Instance UltrafixFindingLifecycle_eq_dec : EqDecision UltrafixFindingLifecycle.
Proof. solve_decision. Defined.

Record EscalationModel := Escalation {
  model_name : string;
  levels : list string;
  effort : option string;
  effortInModel : bool;
}.
#[export] Instance EscalationModel_eq_dec : EqDecision EscalationModel.
Proof. solve_decision. Defined.

Record UltrafixEscalationState := EscalationState {
  models : list string;
  patience : Z;
  maxReasoningLevels : Z;
  modelIndex : nat;
  current : EscalationModel;
  climbs : Z;
  bestScore : option Z;
  stalledReviews : Z;
  exhausted : bool;
}.
#[export] Instance UltrafixEscalationState_eq_dec : EqDecision UltrafixEscalationState.
Proof. solve_decision. Defined.

Record FailedStepStreak := Streak { completedSteps : Z; streak_count : Z }.
#[export] Instance FailedStepStreak_eq_dec : EqDecision FailedStepStreak.
Proof. solve_decision. Defined.

Record UltrafixLoopState := LoopState {
  owner : string;
  repo : string;
  pr : Z;
  goal : Q;
  maxCycles : Z;
  pauseSeconds : Z;
  reviewModel : string;
  cycleCount : Z;
  reviewCount : option Z;
  fixCount : option Z;
  lastAction : option UltrafixAction;
  lastActionTimestamp : option Z;
  active : bool;
  workEpoch : option Z;
  sourceCommentId : option Z;
  instructions : option string;
  userId : option string;
  completionStatus : option CompletionStatus;
  completionReason : option string;
  finalScore : option Z;
  completedAt : option Z;
  originalScope : option string;
  originalScopeCaptured : option bool;
  findingLifecycle : option (gmap string UltrafixFindingLifecycle);
  escalation : option UltrafixEscalationState;
  escalationBestScore : option Z;
  failedStepStreak : option FailedStepStreak;
}.
#[export] Instance UltrafixLoopState_eq_dec : EqDecision UltrafixLoopState.
Proof. solve_decision. Defined.

Record StartLoopOptions := StartOptions {
  o_owner : string;
  o_repo : string;
  o_pr : Z;
  o_goal : option Q;
  o_maxCycles : option Z;
  o_pauseSeconds : option Z;
  o_reviewModel : option string;
  o_workEpoch : option Z;
  o_sourceCommentId : option Z;
  o_instructions : option string;
  o_userId : option string;
}.

Definition DEFAULT_GOAL : Q := 7.
Definition DEFAULT_MAX_CYCLES : Z := 5.
Definition DEFAULT_PAUSE_SECONDS : Z := 60.

Definition createDefaultState (o : StartLoopOptions) : UltrafixLoopState := {|
  owner := o_owner o; repo := o_repo o; pr := o_pr o;
  goal := default DEFAULT_GOAL (o_goal o);
  maxCycles := default DEFAULT_MAX_CYCLES (o_maxCycles o);
  pauseSeconds := default DEFAULT_PAUSE_SECONDS (o_pauseSeconds o);
  reviewModel := default ""%string (o_reviewModel o);
  cycleCount := 0; reviewCount := Some 0; fixCount := Some 0;
  lastAction := None; lastActionTimestamp := None; active := true;
  workEpoch := Some (default 0 (o_workEpoch o));
  sourceCommentId := o_sourceCommentId o;
  instructions := truthy_string (o_instructions o);
  userId := truthy_string (o_userId o);
  completionStatus := None; completionReason := None; finalScore := None; completedAt := None;
  originalScope := None; originalScopeCaptured := Some false;
  findingLifecycle := Some ∅; escalation := None; escalationBestScore := None;
  failedStepStreak := None;
|}.

(** [typeof state.workEpoch === 'number' ? state.workEpoch : 0] *)
Definition state_epoch (s : UltrafixLoopState) : Z := default 0 (workEpoch s).

(** Record updates of the fields the code assigns. *)
Definition set_progress (s : UltrafixLoopState) (rc fc cc : Z) (la : UltrafixAction) (now : Z)
    (fl : option (gmap string UltrafixFindingLifecycle)) : UltrafixLoopState :=
  LoopState (owner s) (repo s) (pr s) (goal s) (maxCycles s) (pauseSeconds s) (reviewModel s)
    cc (Some rc) (Some fc) (Some la) (Some now) (active s) (workEpoch s) (sourceCommentId s)
    (instructions s) (userId s) (completionStatus s) (completionReason s) (finalScore s)
    (completedAt s) (originalScope s) (originalScopeCaptured s) fl (escalation s)
    (escalationBestScore s) (failedStepStreak s).
Definition set_action (s : UltrafixLoopState) (la : UltrafixAction) (now : Z) : UltrafixLoopState :=
  LoopState (owner s) (repo s) (pr s) (goal s) (maxCycles s) (pauseSeconds s) (reviewModel s)
    (cycleCount s) (reviewCount s) (fixCount s) (Some la) (Some now) (active s) (workEpoch s)
    (sourceCommentId s) (instructions s) (userId s) (completionStatus s) (completionReason s)
    (finalScore s) (completedAt s) (originalScope s) (originalScopeCaptured s)
    (findingLifecycle s) (escalation s) (escalationBestScore s) (failedStepStreak s).
Definition set_epoch (s : UltrafixLoopState) (e : Z) : UltrafixLoopState :=
  LoopState (owner s) (repo s) (pr s) (goal s) (maxCycles s) (pauseSeconds s) (reviewModel s)
    (cycleCount s) (reviewCount s) (fixCount s) (lastAction s) (lastActionTimestamp s) (active s)
    (Some e) (sourceCommentId s) (instructions s) (userId s) (completionStatus s)
    (completionReason s) (finalScore s) (completedAt s) (originalScope s) (originalScopeCaptured s)
    (findingLifecycle s) (escalation s) (escalationBestScore s) (failedStepStreak s).
Definition set_findings (s : UltrafixLoopState) (fl : gmap string UltrafixFindingLifecycle) : UltrafixLoopState :=
  LoopState (owner s) (repo s) (pr s) (goal s) (maxCycles s) (pauseSeconds s) (reviewModel s)
    (cycleCount s) (reviewCount s) (fixCount s) (lastAction s) (lastActionTimestamp s) (active s)
    (workEpoch s) (sourceCommentId s) (instructions s) (userId s) (completionStatus s)
    (completionReason s) (finalScore s) (completedAt s) (originalScope s) (originalScopeCaptured s)
    (Some fl) (escalation s) (escalationBestScore s) (failedStepStreak s).
Definition set_scope (s : UltrafixLoopState) (scope : string) (captured : bool) : UltrafixLoopState :=
  LoopState (owner s) (repo s) (pr s) (goal s) (maxCycles s) (pauseSeconds s) (reviewModel s)
    (cycleCount s) (reviewCount s) (fixCount s) (lastAction s) (lastActionTimestamp s) (active s)
    (workEpoch s) (sourceCommentId s) (instructions s) (userId s) (completionStatus s)
    (completionReason s) (finalScore s) (completedAt s) (Some scope) (Some captured)
    (findingLifecycle s) (escalation s) (escalationBestScore s) (failedStepStreak s).
Definition set_escalation (s : UltrafixLoopState) (e : option UltrafixEscalationState) (best : option Z) : UltrafixLoopState :=
  LoopState (owner s) (repo s) (pr s) (goal s) (maxCycles s) (pauseSeconds s) (reviewModel s)
    (cycleCount s) (reviewCount s) (fixCount s) (lastAction s) (lastActionTimestamp s) (active s)
    (workEpoch s) (sourceCommentId s) (instructions s) (userId s) (completionStatus s)
    (completionReason s) (finalScore s) (completedAt s) (originalScope s) (originalScopeCaptured s)
    (findingLifecycle s) e best (failedStepStreak s).
Definition set_streak (s : UltrafixLoopState) (k : FailedStepStreak) : UltrafixLoopState :=
  LoopState (owner s) (repo s) (pr s) (goal s) (maxCycles s) (pauseSeconds s) (reviewModel s)
    (cycleCount s) (reviewCount s) (fixCount s) (lastAction s) (lastActionTimestamp s) (active s)
    (workEpoch s) (sourceCommentId s) (instructions s) (userId s) (completionStatus s)
    (completionReason s) (finalScore s) (completedAt s) (originalScope s) (originalScopeCaptured s)
    (findingLifecycle s) (escalation s) (escalationBestScore s) (Some k).
Definition set_stopped (s : UltrafixLoopState) : UltrafixLoopState :=
  LoopState (owner s) (repo s) (pr s) (goal s) (maxCycles s) (pauseSeconds s) (reviewModel s)
    (cycleCount s) (reviewCount s) (fixCount s) (lastAction s) (lastActionTimestamp s) false
    (workEpoch s) (sourceCommentId s) (instructions s) (userId s) (completionStatus s)
    (completionReason s) (finalScore s) (completedAt s) (originalScope s) (originalScopeCaptured s)
    (findingLifecycle s) (escalation s) (escalationBestScore s) (failedStepStreak s).
Definition set_completed (s : UltrafixLoopState) (st : CompletionStatus) (why : string)
    (score : option Z) (now : Z) : UltrafixLoopState :=
  LoopState (owner s) (repo s) (pr s) (goal s) (maxCycles s) (pauseSeconds s) (reviewModel s)
    (cycleCount s) (reviewCount s) (fixCount s) (lastAction s) (lastActionTimestamp s) false
    (workEpoch s) (sourceCommentId s) (instructions s) (userId s) (Some st) (Some why) score
    (Some now) (originalScope s) (originalScopeCaptured s) (findingLifecycle s) (escalation s)
    (escalationBestScore s) (failedStepStreak s).

(** ** Decisions *)

(** Counts of old states are reconstructed from the cycle count. *)
Definition getActionCounts (s : UltrafixLoopState) : Z * Z :=
  match reviewCount s, fixCount s with
  | Some r, Some f => (r, f)
  | _, _ =>
      match lastAction s with
      | Some review => (cycleCount s + 1, cycleCount s)
      | Some fix_ => (cycleCount s, cycleCount s)
      | None => (0, 0)
      end
  end.

Definition determineInitialAction (hasPendingReviews : bool) : UltrafixAction :=
  if hasPendingReviews then fix_ else review.

Definition hasReviewReachedGoal (status : ReviewOutputStatus) (score : option Z) (goal : Q)
    (isPartial : bool) : bool :=
  negb isPartial && bool_decide (status = valid_clean)
  && match score with Some s => Qle_bool goal (inject_Z s) | None => false end.

Record NextActionDecision := Decision_ { action : option UltrafixAction; reason : string }.

Definition determineNextAction (s : UltrafixLoopState) (score : option Z)
    (status : ReviewOutputStatus) (isPartial : bool) : NextActionDecision :=
  let '(rc, fc) := getActionCounts s in
  if negb (active s) then Decision_ None "Loop is inactive"
  else match lastAction s with
  | None => Decision_ (Some review) "No previous action, starting with review"
  | Some review =>
      match status with
      | valid_clean =>
          if isPartial then Decision_ None
            "Review reports no actionable findings but had partial diff coverage; stopping for manual review"
          else if hasReviewReachedGoal status score (goal s) isPartial then
            Decision_ None ("Valid review reports no actionable findings and score "
              ++ show (default 0 score) ++ "/10 reaches goal " ++ show_number (goal s) ++ "/10")
          else
            let scoreDetail := match score with
              | None => "no score was reported"%string
              | Some x => ("score " ++ show x ++ "/10 is below goal " ++ show_number (goal s) ++ "/10")%string
              end in
            Decision_ None ("Valid review reports no actionable findings, but " ++ scoreDetail
              ++ "; stopping for manual review")
      | invalid =>
          if maxCycles s <=? rc then Decision_ None
            ("Invalid review output and max review attempts reached (" ++ show (maxCycles s) ++ ")")
          else Decision_ (Some review) "Review output is invalid, retrying review"
      | valid_with_blockers =>
          if maxCycles s <=? fc then Decision_ None
            ("Max cycles reached: " ++ show fc ++ (if fc =? 1 then " fix step has" else " fix steps have")
              ++ " completed (limit " ++ show (maxCycles s) ++ ")")
          else Decision_ (Some fix_) "Actionable review findings remain, next is fix"
      end
  | Some fix_ =>
      if maxCycles s <=? rc then Decision_ None
        ("Max cycles reached: " ++ show rc ++ (if rc =? 1 then " review step has" else " review steps have")
          ++ " completed (limit " ++ show (maxCycles s) ++ ")")
      else Decision_ (Some review) "Last action was fix, next is review"
  end.

(** ** Recording a completed action *)

Definition address_selected (f : UltrafixFindingLifecycle) : UltrafixFindingLifecycle :=
  match f_status f with
  | selected => Finding (f_id f) (f_sourceCommentId f) (f_title f) addressed (f_firstSeenCycle f) (f_lastSeenCycle f)
  | _ => f
  end.

(** The state update of [recordAction]. *)
Definition recorded_action (a : UltrafixAction) (now : Z) (s : UltrafixLoopState) : UltrafixLoopState :=
  let '(rc, fc) := getActionCounts s in
  let rc' := rc + (match a with review => 1 | fix_ => 0 end) in
  let fc' := fc + (match a with fix_ => 1 | review => 0 end) in
  let fl := match a with
    | fix_ => fmap (M:=option) (fmap (M:=gmap string) address_selected) (findingLifecycle s)
    | review => findingLifecycle s
    end in
  set_progress s rc' fc' (Z.min rc' fc') a now fl.

(** ** Findings *)

Record finding_input := FindingInput { in_id : string; in_comment : Z; in_title : string }.

(** [id.toUpperCase()] on the [F#] identifiers. *)
Definition upper_char (c : ascii) : ascii :=
  let n := code c in if (97 <=? n) && (n <=? 122) then char (Ascii.N_of_ascii c - 32) else c.
Definition to_upper (s : string) : string := map_string upper_char s.

Definition finding_key (f : finding_input) : string := (show (in_comment f) ++ ":" ++ to_upper (in_id f))%string.

Definition fresh_finding (cycle : Z) (f : finding_input) : UltrafixFindingLifecycle :=
  Finding (to_upper (in_id f)) (in_comment f) (in_title f) open_ cycle cycle.

Definition resolve_addressed (f : UltrafixFindingLifecycle) : UltrafixFindingLifecycle :=
  match f_status f with
  | addressed => Finding (f_id f) (f_sourceCommentId f) (f_title f) resolved (f_firstSeenCycle f) (f_lastSeenCycle f)
  | _ => f
  end.

Definition report_finding (cycle : Z) (l : gmap string UltrafixFindingLifecycle) (f : finding_input) :=
  let x := default (fresh_finding cycle f) (l !! finding_key f) in
  <[finding_key f := Finding (f_id x) (f_sourceCommentId x) (in_title f) open_ (f_firstSeenCycle x) cycle]> l.

Definition select_finding (cycle : Z) (l : gmap string UltrafixFindingLifecycle) (f : finding_input) :=
  let x := default (fresh_finding cycle f) (l !! finding_key f) in
  <[finding_key f := Finding (f_id x) (f_sourceCommentId x) (f_title x) selected (f_firstSeenCycle x) cycle]> l.

(** The state update of [recordReviewFindings]: addressed findings are resolved,
    then the reported ones are open. *)
Definition recorded_findings (fs : list finding_input) (s : UltrafixLoopState) : UltrafixLoopState :=
  let l := fmap (M:=gmap string) resolve_addressed (default ∅ (findingLifecycle s)) in
  set_findings s (foldl (report_finding (cycleCount s)) l fs).

(** The state update of [markFindingsSelected]. *)
Definition selected_findings (fs : list finding_input) (s : UltrafixLoopState) : UltrafixLoopState :=
  set_findings s (foldl (select_finding (cycleCount s)) (default ∅ (findingLifecycle s)) fs).

(** ** Readiness *)

Definition requiresPassingChecks (nextAction : UltrafixAction) : bool := bool_decide (nextAction = review).

Definition isCooldownElapsed (s : UltrafixLoopState) (nowMs : Z) : bool :=
  match lastActionTimestamp s with
  | None => true
  | Some t => pauseSeconds s * 1000 <=? nowMs - t
  end.

Record UltrafixReadinessResult := Readiness { ready : bool; reasons : list string }.

Definition checkReadiness (allChecksPassing hasFollowUpJobs hasPendingComments : bool) : UltrafixReadinessResult :=
  let reasons :=
    ((if allChecksPassing then [] else ["checks_not_passing"%string])
    ++ (if hasFollowUpJobs then ["follow_up_jobs_active"%string] else [])
    ++ (if hasPendingComments then ["pending_comments_exist"%string] else []))%list in
  Readiness (bool_decide (length reasons = 0%nat)) reasons.

(** ** Escalation

    [replace_effort] is [model.replace(/-(low|medium|high)$/, `-${next}`)]; the
    availability of a model is the caller's [resolve]. *)

Definition ends_with (suf s : string) : bool :=
  let n := (String.length s - String.length suf)%nat in
  (String.length suf <=? String.length s)%nat && bool_decide (drop n s = suf).

Definition replace_effort (model next : string) : string :=
  match list_find (fun suf => ends_with suf model = true) ["-low"%string; "-medium"%string; "-high"%string] with
  | Some (_, suf) => (take (String.length model - String.length suf) model ++ "-" ++ next)%string
  | None => model
  end.

(** [levels[levels.indexOf(effort) + 1]], starting from index 0 without an effort;
    an effort that is not listed has index -1. *)
Definition next_level (m : EscalationModel) : option string :=
  match truthy_string (effort m) with
  | None => levels m !! 1%nat
  | Some e => match list_find (fun l => l = e) (levels m) with
              | Some (i, _) => levels m !! S i
              | None => levels m !! 0%nat
              end
  end.

(** The loop over the later models: the first available one takes over. *)
Fixpoint next_model (resolve : string -> option EscalationModel) (i : nat) (rest : list string)
    : option (nat * EscalationModel) :=
  match rest with
  | [] => None
  | m :: rest => match resolve m with Some c => Some (i, c) | None => next_model resolve (S i) rest end
  end.

Definition advanceEscalation (resolve : string -> option EscalationModel)
    (score : Z) (st : UltrafixEscalationState) : UltrafixEscalationState :=
  if match bestScore st with None => true | Some b => b <? score end
  then EscalationState (models st) (patience st) (maxReasoningLevels st) (modelIndex st) (current st)
         (climbs st) (Some score) 0 false
  else if stalledReviews st + 1 <? patience st
  then EscalationState (models st) (patience st) (maxReasoningLevels st) (modelIndex st) (current st)
         (climbs st) (bestScore st) (stalledReviews st + 1) false
  else
    let keep := EscalationState (models st) (patience st) (maxReasoningLevels st) (modelIndex st)
                  (current st) (climbs st) (bestScore st) 0 false in
    match (if climbs st <? maxReasoningLevels st then truthy_string (next_level (current st)) else None) with
    | Some next =>
        let m := current st in
        let m := Escalation (if effortInModel m then replace_effort (model_name m) next else model_name m)
                   (levels m) (Some next) (effortInModel m) in
        EscalationState (models st) (patience st) (maxReasoningLevels st) (modelIndex st) m
          (climbs st + 1) (bestScore st) 0 false
    | None =>
        match next_model resolve (S (modelIndex st)) (skipn (S (modelIndex st)) (models st)) with
        | Some (i, c) =>
            EscalationState (models st) (patience st) (maxReasoningLevels st) i c 0 (bestScore st) 0 false
        | None => keep
        end
    end.

(** ** Stranded loops *)

Definition getNextStepNumber (s : UltrafixLoopState) (a : UltrafixAction) : Z :=
  let '(rc, fc) := getActionCounts s in (match a with review => rc | fix_ => fc end) + 1.

Definition MAX_FAILED_STEP_RECOVERIES : Z := 2.

Definition getConsecutiveFailedSteps (s : UltrafixLoopState) : Z :=
  match failedStepStreak s with
  | None => 0
  | Some k => let '(rc, fc) := getActionCounts s in
      if completedSteps k =? rc + fc then streak_count k else 0
  end.

Definition recordFailedStepInState (s : UltrafixLoopState) : UltrafixLoopState :=
  let '(rc, fc) := getActionCounts s in
  set_streak s (Streak (rc + fc) (getConsecutiveFailedSteps s + 1)).

Inductive StrandedLoopRearmDecision :=
| Skip
| Complete (st : CompletionStatus) (why : string)
| Rearm.

Definition evaluateStrandedLoopRearm (so : option UltrafixLoopState) : StrandedLoopRearmDecision :=
  match so with
  | None => Skip
  | Some s =>
      if negb (active s) then Skip
      else
        let '(rc, fc) := getActionCounts s in
        let fixBudgetSpent := negb (bool_decide (lastAction s = Some fix_)) && (maxCycles s <=? fc) in
        let failedSteps := getConsecutiveFailedSteps s in
        let breakers :=
          if (maxCycles s <=? rc) || fixBudgetSpent then
            Complete failed ("Max cycles reached: " ++ show rc ++ " review and " ++ show fc
              ++ " fix steps completed (limit " ++ show (maxCycles s) ++ ")")
          else if MAX_FAILED_STEP_RECOVERIES <? failedSteps then
            Complete failed ("Ultrafix steps failed " ++ show failedSteps
              ++ " times in a row without completing (recovery limit " ++ show MAX_FAILED_STEP_RECOVERIES ++ ")")
          else Rearm in
        match finalScore s with
        | Some x => if Qle_bool (goal s) (inject_Z x)
            then Complete succeeded ("Score " ++ show x ++ "/10 already reaches goal " ++ show_number (goal s) ++ "/10")
            else breakers
        | None => breakers
        end
  end.
