(* ===== verification/UltrafixLoopFacts.v ===== *)
(** * The Ultrafix loop always ends

    Counting of completed steps, termination of the review/fix loop for every
    sequence of review outputs, the failed-step breaker and the life of a finding. *)

From S2P Require Import Prelude JsString Json UltrafixLoop.

Open Scope Z_scope.

(** ** Counts *)

(** The counts of a state created by this release. *)
Definition counted (s : UltrafixLoopState) (rc fc : Z) : Prop :=
  reviewCount s = Some rc /\ fixCount s = Some fc /\ 0 <= rc /\ 0 <= fc /\ cycleCount s = Z.min rc fc.

Lemma counted_counts s rc fc : counted s rc fc -> getActionCounts s = (rc, fc).
Proof. intros (H1 & H2 & _). unfold getActionCounts. by rewrite H1, H2. Qed.

Lemma counted_initial o : counted (createDefaultState o) 0 0.
Proof. done. Qed.

Lemma recorded_action_counted a now s rc fc :
  counted s rc fc ->
  let s' := recorded_action a now s in
  counted s' (rc + match a with review => 1 | fix_ => 0 end) (fc + match a with fix_ => 1 | review => 0 end)
  /\ lastAction s' = Some a /\ maxCycles s' = maxCycles s /\ active s' = active s /\ goal s' = goal s
  /\ state_epoch s' = state_epoch s.
Proof.
  intros H. pose proof (counted_counts _ _ _ H) as Hc. destruct H as (_ & _ & Hr & Hf & _).
  unfold recorded_action, counted. rewrite Hc. destruct a; simpl; split_and!; try done; lia.
Qed.

(** ** Termination *)

(** What the review of a step yields; a fix step has no review output. *)
Record ReviewOutput := Output { out_score : option Z; out_status : ReviewOutputStatus; out_partial : bool }.
Definition no_output : ReviewOutput := Output None invalid false.

Definition output_of (a : UltrafixAction) (o : ReviewOutput) : ReviewOutput :=
  match a with review => o | fix_ => no_output end.

Definition decide_after (a : UltrafixAction) (o : ReviewOutput) (s : UltrafixLoopState) : option UltrafixAction :=
  let o := output_of a o in action (determineNextAction s (out_score o) (out_status o) (out_partial o)).

(** The loop with every step executed: [outs n] is the review output of the [n]th
    step. [None] only when the fuel runs out. *)
Fixpoint loop_run (fuel n : nat) (outs : nat -> ReviewOutput) (now : nat -> Z) (a : UltrafixAction)
    (s : UltrafixLoopState) : option UltrafixLoopState :=
  match fuel with
  | O => None
  | S fuel =>
      let s' := recorded_action a (now n) s in
      match decide_after a (outs n) s' with
      | None => Some s'
      | Some a' => loop_run fuel (S n) outs now a' s'
      end
  end.

(** A step is only scheduled while its action has budget left. *)
Lemma decide_after_budget a o s rc fc a' :
  counted s rc fc -> lastAction s = Some a -> decide_after a o s = Some a' ->
  match a' with review => rc < maxCycles s | fix_ => fc < maxCycles s end.
Proof.
  intros Hc Hl. unfold decide_after, determineNextAction. rewrite (counted_counts _ _ _ Hc), Hl.
  destruct (active s); simpl; [|done].
  destruct a; simpl.
  - destruct (out_status o); repeat case_bool; intros ?; simplify_eq/=; zb; lia.
  - case_bool; intros ?; simplify_eq/=; zb; lia.
Qed.

(** The steps that can still follow. *)
Definition steps_left (s : UltrafixLoopState) (rc fc : Z) : Z :=
  Z.max 0 (maxCycles s - rc) + Z.max 0 (maxCycles s - fc).

Lemma loop_run_terminates fuel n outs now a s rc fc :
  counted s rc fc ->
  match a with review => rc < maxCycles s | fix_ => fc < maxCycles s end ->
  steps_left s rc fc <= Z.of_nat fuel ->
  exists s' rc' fc', loop_run fuel n outs now a s = Some s' /\ counted s' rc' fc'
    /\ rc <= rc' <= Z.max rc (maxCycles s) /\ fc <= fc' <= Z.max fc (maxCycles s).
Proof.
  revert n a s rc fc. induction fuel as [|fuel IH]; intros n a s rc fc Hc Hb Hfuel.
  { unfold steps_left in Hfuel. destruct a; lia. }
  cbn [loop_run]. destruct (recorded_action_counted a (now n) s rc fc Hc) as (Hc' & Hl & Hm & _).
  set (s' := recorded_action a (now n) s) in *.
  destruct (decide_after a (outs n) s') as [a'|] eqn:Ed.
  - pose proof (decide_after_budget a (outs n) s' _ _ a' Hc' Hl Ed) as Hb'.
    destruct (IH (S n) a' s' _ _ Hc' Hb') as (s2 & r2 & f2 & H1 & H2 & H3 & H4).
    { unfold steps_left in *. rewrite Hm in *. destruct a; lia. }
    rewrite Hm in *. exists s2, r2, f2. split; [done|]. split; [done|]. destruct a; lia.
  - eexists _, _, _. split; [done|]. split; [exact Hc'|]. destruct a; lia.
Qed.

(** C8. Every Ultrafix loop ends: whatever the reviews report, the loop started with
    [maxCycles] runs at most [2 * maxCycles + 1] steps, with at most
    [max 1 maxCycles] reviews and as many fixes. *)
Theorem loop_terminates o hasPending outs now :
  let s := createDefaultState o in
  let m := Z.max 1 (maxCycles s) in
  exists s' rc fc,
    loop_run (Z.to_nat (2 * m + 1)) 0 outs now (determineInitialAction hasPending) s = Some s'
    /\ getActionCounts s' = (rc, fc) /\ 1 <= rc + fc <= 2 * m + 1
    /\ 0 <= rc <= m /\ 0 <= fc <= m /\ cycleCount s' = Z.min rc fc.
Proof.
  intros s m. set (a := determineInitialAction hasPending).
  replace (Z.to_nat (2 * m + 1)) with (S (Z.to_nat (2 * m))) by lia. cbn [loop_run].
  destruct (recorded_action_counted a (now 0%nat) s 0 0 (counted_initial o)) as (Hc & Hl & Hm & _).
  set (s1 := recorded_action a (now 0%nat) s) in *.
  destruct (decide_after a (outs 0%nat) s1) as [a'|] eqn:Ed.
  - pose proof (decide_after_budget a (outs 0%nat) s1 _ _ a' Hc Hl Ed) as Hb.
    destruct (loop_run_terminates (Z.to_nat (2 * m)) 1 outs now a' s1 _ _ Hc Hb)
      as (s2 & r2 & f2 & H1 & H2 & H3 & H4).
    { unfold steps_left. rewrite Hm. destruct a; lia. }
    exists s2, r2, f2. rewrite (counted_counts _ _ _ H2). rewrite Hm in *.
    destruct H2 as (_ & _ & ? & ? & ?). split; [done|]. split; [done|]. destruct a; lia.
  - eexists _, _, _. split; [done|]. rewrite (counted_counts _ _ _ Hc). split; [done|].
    destruct Hc as (_ & _ & ? & ? & ->). destruct a; split_and!; lia.
Qed.

(** ** Failed steps *)

Lemma counts_streak s k : getActionCounts (set_streak s k) = getActionCounts s.
Proof. done. Qed.

Lemma counts_recorded a now s :
  getActionCounts (recorded_action a now s)
  = (fst (getActionCounts s) + match a with review => 1 | fix_ => 0 end,
     snd (getActionCounts s) + match a with fix_ => 1 | review => 0 end).
Proof. unfold recorded_action. destruct (getActionCounts s), a; done. Qed.

Lemma consecutive_record s :
  getConsecutiveFailedSteps (recordFailedStepInState s) = getConsecutiveFailedSteps s + 1.
Proof.
  unfold recordFailedStepInState. destruct (getActionCounts s) as [rc fc] eqn:E.
  unfold getConsecutiveFailedSteps at 1; simpl. rewrite counts_streak, E. by rewrite Z.eqb_refl.
Qed.

Lemma consecutive_iter n s :
  getConsecutiveFailedSteps (Nat.iter n recordFailedStepInState s) = getConsecutiveFailedSteps s + Z.of_nat n.
Proof. induction n as [|n IH]; simpl; [lia|]. rewrite consecutive_record, IH. lia. Qed.

Lemma counts_iter n s : getActionCounts (Nat.iter n recordFailedStepInState s) = getActionCounts s.
Proof.
  induction n as [|n IH]; [done|]. simpl. rewrite <- IH. unfold recordFailedStepInState at 1.
  destruct (getActionCounts (Nat.iter n _ s)) as [rc fc] eqn:E. by rewrite counts_streak.
Qed.

Lemma streak_iter n s :
  (0 < n)%nat -> failedStepStreak (Nat.iter n recordFailedStepInState s)
  = Some (Streak (fst (getActionCounts s) + snd (getActionCounts s))
            (getConsecutiveFailedSteps s + Z.of_nat n)).
Proof.
  intros Hn. destruct n as [|n]; [lia|]. simpl. unfold recordFailedStepInState at 1.
  destruct (getActionCounts (Nat.iter n _ s)) as [rc fc] eqn:E. rewrite counts_iter in E. rewrite E; simpl.
  rewrite consecutive_iter. do 2 f_equal. lia.
Qed.

(** The failed-step breaker: failures in a row are counted exactly, more than
    two of them end the loop's recoveries, and one completed step resets the count. *)
Theorem failed_step_breaker s n a now :
  0 <= getConsecutiveFailedSteps s -> (0 < n)%nat ->
  let s' := Nat.iter n recordFailedStepInState s in
  getConsecutiveFailedSteps s' = getConsecutiveFailedSteps s + Z.of_nat n
  /\ ((2 < n)%nat -> evaluateStrandedLoopRearm (Some s') <> Rearm)
  /\ getConsecutiveFailedSteps (recorded_action a now s') = 0.
Proof.
  intros H0 Hn s'. pose proof (consecutive_iter n s) as Hc. fold s' in Hc. split_and!; [done| |].
  - intros H3. unfold evaluateStrandedLoopRearm. destruct (negb (active s')); [done|].
    destruct (getActionCounts s') as [rc fc]. rewrite Hc. unfold MAX_FAILED_STEP_RECOVERIES.
    destruct (2 <? _) eqn:E; [|zb; lia].
    repeat case_match; done.
  - unfold getConsecutiveFailedSteps.
    assert (Hs : failedStepStreak (recorded_action a now s') = failedStepStreak s').
    { unfold recorded_action. by destruct (getActionCounts s'). }
    rewrite Hs. unfold s'. rewrite (streak_iter n s Hn), counts_recorded, counts_iter.
    destruct (getActionCounts s) as [rc fc]; simpl. destruct a; (case_bool; zb; lia).
Qed.

(** A stranded loop is only re-armed within the budget of the ordinary loop: it
    is active, reviews are left, a fix budget remains unless the last step was a
    fix, and at most two step failures in a row were seen. *)
Theorem rearm_within_budget s :
  evaluateStrandedLoopRearm (Some s) = Rearm ->
  let '(rc, fc) := getActionCounts s in
  active s = true /\ rc < maxCycles s /\ (lastAction s = Some fix_ \/ fc < maxCycles s)
  /\ getConsecutiveFailedSteps s <= MAX_FAILED_STEP_RECOVERIES
  /\ (forall x, finalScore s = Some x -> (inject_Z x < goal s)%Q).
Proof.
  unfold evaluateStrandedLoopRearm. destruct (active s); simpl; [|done].
  destruct (getActionCounts s) as [rc fc].
  set (b := if _ || _ then _ else _). intros H.
  assert (Hb : b = Rearm /\ forall x, finalScore s = Some x -> (inject_Z x < goal s)%Q).
  { destruct (finalScore s) as [x|]; [destruct (Qle_bool (goal s) (inject_Z x)) eqn:E; [done|]|]; split; try done. intros y [= <-]. by apply Qle_bool_false. }
  destruct Hb as [Hb Hg]. unfold b in Hb. clear b H. case_bool; [done|]. case_bool; [done|].
  apply orb_false_elim in E as [E1 E2]. zb. split_and!; [done|lia| |lia|done].
  apply andb_false_iff in E2 as [Hl|Hl]; zb; [left|right; lia].
  by apply bool_decide_eq_true in Hl.
Qed.

(** ** Escalation *)

Lemma next_model_index resolve i rest j c : next_model resolve i rest = Some (j, c) -> (i <= j < i + length rest)%nat.
Proof.
  revert i; induction rest as [|m rest IH]; intros i H; simpl in *; [done|].
  destruct (resolve m); [simplify_eq; lia|]. apply IH in H. lia.
Qed.

(** Escalation never moves backwards: the best score is the maximum over all
    reviews, the model index only grows and stays in range, effort increases per
    model and stalled reviews stay within their settings, and no step marks the
    escalation exhausted. *)
Theorem advanceEscalation_progress resolve score st :
  0 <= stalledReviews st < patience st -> 0 <= climbs st <= Z.max 0 (maxReasoningLevels st) ->
  let st' := advanceEscalation resolve score st in
  bestScore st' = Some (match bestScore st with Some b => Z.max b score | None => score end)
  /\ (modelIndex st <= modelIndex st')%nat
  /\ (modelIndex st' = modelIndex st \/ (modelIndex st' < length (models st))%nat)
  /\ 0 <= stalledReviews st' < patience st' /\ 0 <= climbs st' <= Z.max 0 (maxReasoningLevels st')
  /\ exhausted st' = false /\ models st' = models st.
Proof.
  intros Hs Hc. unfold advanceEscalation.
  destruct (bestScore st) as [b|] eqn:Eb; [|simpl; split_and!; try done; auto; lia].
  destruct (b <? score) eqn:El; zb.
  { simpl. split_and!; try done; auto; try (f_equal; lia); lia. }
  rewrite (Z.max_l b score) by lia.
  destruct (stalledReviews st + 1 <? patience st) eqn:Ep; zb.
  { simpl. split_and!; try done; auto; lia. }
  destruct (if climbs st <? maxReasoningLevels st then _ else None) as [next|] eqn:En.
  { assert (climbs st < maxReasoningLevels st) by (case_bool; [by zb|done]).
    simpl. split_and!; try done; auto; lia. }
  destruct (next_model _ _ _) as [[i c]|] eqn:Em; simpl; [|split_and!; try done; auto; lia].
  apply next_model_index in Em. rewrite length_skipn in Em.
  split_and!; try done; auto; try lia.
Qed.

(** ** Findings *)

Definition findings (s : UltrafixLoopState) : gmap string UltrafixFindingLifecycle := default ∅ (findingLifecycle s).

Lemma fold_findings_spec (g : gmap string UltrafixFindingLifecycle -> finding_input -> gmap string UltrafixFindingLifecycle)
    (st : FindingStatus) l fs :
  (forall l f, exists x, f_status x = st /\ g l f = <[finding_key f := x]> l) ->
  forall k, (k ∈ map finding_key fs -> exists x, foldl g l fs !! k = Some x /\ f_status x = st)
    /\ (k ∉ map finding_key fs -> foldl g l fs !! k = l !! k).
Proof.
  intros Hg. revert l; induction fs as [|f fs IH]; intros l k; simpl; [split; [by intros ?%elem_of_nil|done]|].
  destruct (IH (g l f) k) as [IH1 IH2]. destruct (Hg l f) as (x & Hx & Hgl).
  destruct (decide (k ∈ map finding_key fs)) as [Hin|Hout].
  - split; [auto|]. intros Hn. by apply not_elem_of_cons in Hn as [_ Hn].
  - rewrite IH2, Hgl by done. split.
    + intros [->|?]%elem_of_cons; [|done]. exists x. by rewrite lookup_insert_eq.
    + intros [Hne _]%not_elem_of_cons. by rewrite lookup_insert_ne.
Qed.

Lemma recorded_findings_spec fs s k :
  (k ∈ map finding_key fs -> exists x, findings (recorded_findings fs s) !! k = Some x /\ f_status x = open_)
  /\ (k ∉ map finding_key fs -> findings (recorded_findings fs s) !! k = resolve_addressed <$> findings s !! k).
Proof.
  assert (Hf : findings (recorded_findings fs s)
    = foldl (report_finding (cycleCount s)) (fmap (M:=gmap string) resolve_addressed (findings s)) fs) by done.
  rewrite Hf. clear Hf.
  destruct (fold_findings_spec (report_finding (cycleCount s)) open_
    (fmap (M:=gmap string) resolve_addressed (findings s)) fs) with (k := k) as [H1 H2].
  { intros l f. eexists; split; [|reflexivity]. done. }
  split; [done|]. intros Hk. by rewrite (H2 Hk), lookup_fmap.
Qed.

Lemma findings_fix now s :
  findings (recorded_action fix_ now s) = fmap (M:=gmap string) address_selected (findings s).
Proof.
  unfold recorded_action. destruct (getActionCounts s). unfold findings; simpl.
  destruct (findingLifecycle s); simpl; [done|]. symmetry. apply fmap_empty.
Qed.

(** The life of a finding: a finding selected for a fix is open again if the
    review after the fix reports it, and resolved if it does not. *)
Theorem selected_finding_outcome sel fs now now' s f :
  f ∈ sel ->
  let s1 := recorded_action fix_ now (selected_findings sel s) in
  let s2 := recorded_findings fs (recorded_action review now' s1) in
  exists x, findings s2 !! finding_key f = Some x
    /\ f_status x = (if decide (finding_key f ∈ map finding_key fs) then open_ else resolved).
Proof.
  intros Hf s1 s2.
  destruct (recorded_findings_spec fs (recorded_action review now' s1) (finding_key f)) as [H1 H2].
  case_decide as Hd; [by apply H1|]. unfold s2. rewrite (H2 Hd).
  assert (Hk : finding_key f ∈ map finding_key sel) by by apply list_elem_of_fmap_2.
  destruct (fold_findings_spec (select_finding (cycleCount s)) selected (findings s) sel) with (k := finding_key f)
    as [H3 _].
  { intros l g. eexists; split; [|reflexivity]. done. }
  destruct (H3 Hk) as (x & Hx & Hst).
  assert (Hs1 : findings (recorded_action review now' s1) !! finding_key f = Some (address_selected x)).
  { assert (Hr : findings (recorded_action review now' s1) = findings s1).
    { unfold recorded_action at 1. by destruct (getActionCounts s1). }
    rewrite Hr. unfold s1. rewrite findings_fix, lookup_fmap.
    change (findings (selected_findings sel s) !! finding_key f) with (foldl (select_finding (cycleCount s)) (findings s) sel !! finding_key f).
    by rewrite Hx. }
  rewrite Hs1. simpl. eexists; split; [done|]. unfold address_selected. by rewrite Hst.
Qed.
