(* ===== verification/UltrafixStore.v ===== *)
(** * The Redis record of a pull request's Ultrafix loop

    The keys of one pull request, the conditional scripts that write them
    (src/jobs/ultrafixAutomaticWorkEpoch.ts, ultrafixDeferredContinuationStore.ts,
    ultrafixFailedStep.ts, ultrafixResumeClaim.ts) as calls of Interleave.v: each may be
    preceded by any step of another process.

    Serialized values are of an arbitrary type [raw] with [Serial] codecs
    ([JSON.stringify] and [JSON.parse]); epochs are compared as the numbers whose
    canonical decimal strings the scripts compare. *)

From S2P Require Import Prelude JsString Interleave UltrafixLoop.

Open Scope Z_scope.

(** ** Records *)

Record UltrafixCommandMeta := Meta {
  m_workEpoch : option Z;
  m_goal : option Z;
  m_maxCycles : option Z;
  m_pauseSeconds : option Z;
  m_reviewModel : option string;
  m_instructions : string;
}.

Record UltrafixDeferredContinuation := Deferred {
  d_nextAction : UltrafixAction;
  d_savedAt : Z;
  d_reason : string;
  d_userId : option string;
  d_ultrafixMeta : option UltrafixCommandMeta;
  d_workEpoch : option Z;
}.

Record UltrafixClaimedStep := ClaimedStep { c_deferred : UltrafixDeferredContinuation; c_stateDigest : string }.

Record UltrafixRearmRetry := RearmRetry {
  r_workEpoch : Z;
  r_reason : string;
  r_savedAt : Z;
  r_notBefore : option Z;
  r_claimedStep : option UltrafixClaimedStep;
  r_failureVersion : option Z;
}.

(** The queue's view of a step job. *)
Inductive JobState := job_pending | job_completed | job_failed | job_unknown.
#[export] Instance UltrafixAction_countable : Countable UltrafixAction.
Proof.
  refine (inj_countable' (fun a => match a with review => true | fix_ => false end)
    (fun b => if b then review else fix_) _). by intros [].
Defined.
(** Action, epoch and step number: what makes a step's job ID unique within a pull
    request ([getUltrafixStepJobId]). *)
Definition StepId : Type := UltrafixAction * Z * Z.

Record UltrafixCiWaitRecord := CiWait {
  w_workEpoch : Z;
  w_headSha : string;
  w_since : Z;
  w_noticePostedAt : option Z;
  w_noticeCommentId : option Z;
  w_blockingFailed : list string;
  w_blockingPending : list string;
  w_lastScore : option (option Z);
}.

Section Store.
Context {raw : Type} `{!EqDecision raw}.
Context `{!Serial raw UltrafixLoopState} `{!Serial raw UltrafixDeferredContinuation}.
Context `{!Serial raw UltrafixRearmRetry}.

(** [epoch_cell] is [ultrafix:automatic-work-epoch], [state_cell] [ultrafix:state],
    [deferred_cell] [ultrafix:deferred], [rearm_cell] [ultrafix:rearm-retry],
    [ciwait_cell] [ultrafix:ci-wait],
    [takeover_cells] the [ultrafix:manual-takeover] keys by comment and revision,
    [claim_cell] [ultrafix:resume-claim] and [jobs_cell] the step jobs of the queue. *)
Record pr_store := PrStore {
  epoch_cell : option Z;
  state_cell : option raw;
  deferred_cell : option raw;
  rearm_cell : option raw;
  ciwait_cell : option raw;
  takeover_cells : gmap (Z * string) (Z * bool);
  claim_cell : option string;
  jobs_cell : gmap StepId JobState;
}.

Definition with_epoch (v : option Z) (s : pr_store) : pr_store :=
  PrStore v (state_cell s) (deferred_cell s) (rearm_cell s) (ciwait_cell s) (takeover_cells s) (claim_cell s) (jobs_cell s).
Definition with_state (v : option raw) (s : pr_store) : pr_store :=
  PrStore (epoch_cell s) v (deferred_cell s) (rearm_cell s) (ciwait_cell s) (takeover_cells s) (claim_cell s) (jobs_cell s).
Definition with_deferred (v : option raw) (s : pr_store) : pr_store :=
  PrStore (epoch_cell s) (state_cell s) v (rearm_cell s) (ciwait_cell s) (takeover_cells s) (claim_cell s) (jobs_cell s).
Definition with_rearm (v : option raw) (s : pr_store) : pr_store :=
  PrStore (epoch_cell s) (state_cell s) (deferred_cell s) v (ciwait_cell s) (takeover_cells s) (claim_cell s) (jobs_cell s).
Definition with_ciwait (v : option raw) (s : pr_store) : pr_store :=
  PrStore (epoch_cell s) (state_cell s) (deferred_cell s) (rearm_cell s) v (takeover_cells s) (claim_cell s) (jobs_cell s).
Definition with_takeovers (v : gmap (Z * string) (Z * bool)) (s : pr_store) : pr_store :=
  PrStore (epoch_cell s) (state_cell s) (deferred_cell s) (rearm_cell s) (ciwait_cell s) v (claim_cell s) (jobs_cell s).
Definition with_claim (v : option string) (s : pr_store) : pr_store :=
  PrStore (epoch_cell s) (state_cell s) (deferred_cell s) (rearm_cell s) (ciwait_cell s) (takeover_cells s) v (jobs_cell s).
Definition with_jobs (v : gmap StepId JobState) (s : pr_store) : pr_store :=
  PrStore (epoch_cell s) (state_cell s) (deferred_cell s) (rearm_cell s) (ciwait_cell s) (takeover_cells s) (claim_cell s) v.

(** [redis.call('GET', KEYS[1]) or '0'] *)
Definition current_epoch (s : pr_store) : Z := default 0 (epoch_cell s).

Definition INCR_epoch (s : pr_store) : pr_store := with_epoch (Some (current_epoch s + 1)) s.

(** ** Scripts *)

Definition SAVE_DEFERRED_IF_CURRENT (w : Z) (v : raw) (s : pr_store) : bool * pr_store :=
  if negb (current_epoch s =? w) then (false, s) else (true, with_deferred (Some v) s).

Definition CLEAR_DEFERRED_IF_CURRENT (w : Z) (s : pr_store) : bool * pr_store :=
  if negb (current_epoch s =? w) then (false, s) else (true, with_deferred None s).

Definition SAVE_STATE_IF_CURRENT (w : Z) (v : raw) (s : pr_store) : bool * pr_store :=
  if negb (current_epoch s =? w) then (false, s) else (true, with_state (Some v) s).

Definition CLEAR_STATE_IF_CURRENT (w : Z) (s : pr_store) : bool * pr_store :=
  if negb (current_epoch s =? w) then (false, s) else (true, with_state None s).

Definition REPLACE_STATE_IF_UNCHANGED (w : Z) (old v : raw) (s : pr_store) : bool * pr_store :=
  if negb (current_epoch s =? w) then (false, s)
  else if negb (bool_decide (state_cell s = Some old)) then (false, s)
  else (true, with_state (Some v) s).

Definition CLEAR_STATE_IF_UNCHANGED (w : Z) (old : raw) (s : pr_store) : bool * pr_store :=
  if negb (current_epoch s =? w) then (false, s)
  else if negb (bool_decide (state_cell s = Some old)) then (false, s)
  else (true, with_state None s).

(** The result is the new epoch, or 0. *)
Definition RESERVE_EPOCH_AND_REPLACE_STATE (w : Z) (old v : raw) (s : pr_store) : Z * pr_store :=
  if negb (current_epoch s =? w) then (0, s)
  else if negb (bool_decide (state_cell s = Some old)) then (0, s)
  else (current_epoch s + 1, with_state (Some v) (with_deferred None (INCR_epoch s))).

Definition RESTORE_DEFERRED_IF_UNCHANGED (w : Z) (old v : raw) (s : pr_store) : bool * pr_store :=
  if negb (current_epoch s =? w) then (false, s)
  else if negb (bool_decide (state_cell s = Some old)) then (false, s)
  else match deferred_cell s with Some _ => (false, s) | None => (true, with_deferred (Some v) s) end.

Definition INVALIDATE_AUTOMATIC_WORK (s : pr_store) : Z * pr_store :=
  (current_epoch s + 1, with_deferred None (INCR_epoch s)).

(** Whether a deferred record or an active state of the current epoch exists;
    undecodable state counts only at epoch 0. *)
Definition had_automatic_work (s : pr_store) : bool :=
  match deferred_cell s with
  | Some _ => true
  | None =>
      match state_cell s with
      | None => false
      | Some r => match parse (A := UltrafixLoopState) r with
                  | Some st => active st && (state_epoch st =? current_epoch s)
                  | None => current_epoch s =? 0
                  end
      end
  end.

Definition INVALIDATE_AUTOMATIC_WORK_ONCE (comment : Z * string) (s : pr_store) : (Z * bool) * pr_store :=
  match takeover_cells s !! comment with
  | Some t => (t, s)
  | None =>
      let t := (current_epoch s + 1, had_automatic_work s) in
      (t, with_takeovers (<[comment := t]> (takeover_cells s)) (with_deferred None (INCR_epoch s)))
  end.

Definition DELETE_IF_EQUALS (old : raw) (s : pr_store) : bool * pr_store :=
  if bool_decide (deferred_cell s = Some old) then (true, with_deferred None s) else (false, s).

Inductive RearmRetryClearOutcome := cleared | claim_not_held | superseded | retry_changed.

(** [expected] is [None] for no condition, [Some None] for no stored obligation. *)
Definition CLEAR_REARM_RETRY_IF_CLAIM_HELD (token : string) (w : option Z) (expected : option (option raw))
    (s : pr_store) : RearmRetryClearOutcome * pr_store :=
  if negb (bool_decide (claim_cell s = Some token)) then (claim_not_held, s)
  else if match w with Some w => negb (current_epoch s =? w) | None => false end then (superseded, s)
  else if match expected with Some e => negb (bool_decide (rearm_cell s = e)) | None => false end
  then (retry_changed, s)
  else (cleared, with_rearm None s).

Inductive RearmRetrySaveOutcome := saved | claim_taken | save_retry_changed.

Definition SAVE_REARM_RETRY_UNLESS_CLAIM_TAKEN (token : string) (v : raw) (expected : option (option raw))
    (s : pr_store) : RearmRetrySaveOutcome * pr_store :=
  if match claim_cell s with Some holder => negb (bool_decide (holder = token)) | None => false end
  then (claim_taken, s)
  else if match expected with Some e => negb (bool_decide (rearm_cell s = e)) | None => false end
  then (save_retry_changed, s)
  else (saved, with_rearm (Some v) s).

Definition COMMIT_STARTED_LOOP_STATE (w : Z) (v : raw) (s : pr_store) : bool * pr_store :=
  if negb (current_epoch s =? w) then (false, s) else (true, with_rearm None (with_state (Some v) s)).

Definition RECORD_FAILED_STEP (w : Z) (old new : raw) (old_retry : option raw) (new_retry : raw)
    (s : pr_store) : bool * pr_store :=
  if negb (current_epoch s =? w) then (false, s)
  else if negb (bool_decide (state_cell s = Some old)) then (false, s)
  else if negb (bool_decide (rearm_cell s = old_retry)) then (false, s)
  else (true, with_rearm (Some new_retry) (with_state (Some new) s)).

(** The resume claim: [SET key token PX ttl NX], compare-and-delete, and
    compare-and-extend (the time to live is an expiry step of the environment). *)
Definition acquireResumeClaim (token : string) (s : pr_store) : bool * pr_store :=
  match claim_cell s with Some _ => (false, s) | None => (true, with_claim (Some token) s) end.
Definition releaseResumeClaim (token : string) (s : pr_store) : bool * pr_store :=
  if bool_decide (claim_cell s = Some token) then (true, with_claim None s) else (false, s).
Definition renewResumeClaim (token : string) (s : pr_store) : bool * pr_store :=
  (bool_decide (claim_cell s = Some token), s).

(** ** Service functions *)

Abbreviation M := (Interleave.M pr_store).

Definition getUltrafixAutomaticWorkEpoch : M Z := call (fun s => (current_epoch s, s)).

Definition isUltrafixAutomaticWorkCurrent (w : Z) : M bool :=
  e ← getUltrafixAutomaticWorkEpoch; mret (e =? w).

Definition loadState : M (option UltrafixLoopState) :=
  r ← call (fun s => (state_cell s, s)); parse_or_throw r.

(** The serialized state with its parse. *)
Definition loadStateSnapshot : M (option (raw * UltrafixLoopState)) :=
  r ← call (fun s => (state_cell s, s));
  st ← parse_or_throw r;
  mret (match r, st with Some r, Some st => Some (r, st) | _, _ => None end).

Definition saveState (st : UltrafixLoopState) : M unit :=
  call (fun s => (tt, with_state (Some (stringify st)) s)).
Definition clearState : M unit := call (fun s => (tt, with_state None s)).

Definition loadOwnedState (w : option Z) : M (option UltrafixLoopState) :=
  st ← loadState;
  match st with
  | None => mret None
  | Some st =>
      let st := set_epoch st (state_epoch st) in
      match w with
      | Some w => if negb (state_epoch st =? w) then mret None else mret (Some st)
      | None => mret (Some st)
      end
  end.

Definition saveOwnedState (st : UltrafixLoopState) (w : option Z) : M bool :=
  match w with
  | None => _ ← saveState st; mret true
  | Some w =>
      if negb (bool_decide (workEpoch st = Some w)) then mret false
      else call (SAVE_STATE_IF_CURRENT w (stringify st))
  end.

(** [load owned; update; save owned], returning the updated state. *)
Definition updateOwnedState (f : UltrafixLoopState -> UltrafixLoopState) (w : option Z)
    : M (option UltrafixLoopState) :=
  st ← loadOwnedState w;
  match st with
  | None => mret None
  | Some st =>
      let st := f st in
      ok ← saveOwnedState st w;
      mret (if (ok : bool) then Some st else None)
  end.

Definition recordAction (a : UltrafixAction) (now : Z) (w : option Z) : M (option UltrafixLoopState) :=
  updateOwnedState (recorded_action a now) w.
Definition recordReviewFindings (fs : list finding_input) (w : option Z) : M (option UltrafixLoopState) :=
  updateOwnedState (recorded_findings fs) w.
Definition markFindingsSelected (fs : list finding_input) (w : option Z) : M (option UltrafixLoopState) :=
  updateOwnedState (selected_findings fs) w.
Definition completeLoop (st : CompletionStatus) (why : string) (score : option Z) (now : Z) (w : option Z)
    : M (option UltrafixLoopState) :=
  updateOwnedState (fun s => set_completed s st why score now) w.

Definition stopLoop : M (option UltrafixLoopState) :=
  st ← loadState;
  match st with
  | None => mret None
  | Some st => let st := set_stopped st in _ ← saveState st; mret (Some st)
  end.

Definition retainOriginalScope (scope : string) (w : option Z) : M string :=
  st ← loadOwnedState w;
  match st with
  | None => mret scope
  | Some st =>
      if bool_decide (originalScopeCaptured st = Some true)
      then mret (default ""%string (originalScope st))
      else
        let kept := default scope (truthy_string (originalScope st)) in
        ok ← saveOwnedState (set_scope st kept true) w;
        mret (if (ok : bool) then kept else scope)
  end.

(** [startLoop]; pruning the resume index is best effort and not modelled. *)
Definition startLoop (o : StartLoopOptions) (hasPendingReviews : bool) (now : Z)
    : M (UltrafixLoopState * UltrafixAction) :=
  let initialAction := determineInitialAction hasPendingReviews in
  let st := set_action (createDefaultState o) initialAction now in
  ok ← match o_workEpoch o with
       | None => saveOwnedState st None
       | Some w => call (COMMIT_STARTED_LOOP_STATE w (stringify st))
       end;
  if (ok : bool) then mret (st, initialAction)
  else throw "Ultrafix startup was superseded before state commit".

Definition deferred_epoch (d : UltrafixDeferredContinuation) : Z :=
  match d_workEpoch d with
  | Some w => w
  | None => default 0 (d_ultrafixMeta d ≫= m_workEpoch)
  end.

Definition saveDeferredContinuation (d : UltrafixDeferredContinuation) : M bool :=
  call (SAVE_DEFERRED_IF_CURRENT (deferred_epoch d) (stringify d)).

Definition loadDeferredContinuation : M (option UltrafixDeferredContinuation) :=
  r ← call (fun s => (deferred_cell s, s)); parse_or_throw r.

(** [GETDEL] *)
Definition claimDeferredContinuation : M (option UltrafixDeferredContinuation) :=
  r ← call (fun s => (deferred_cell s, with_deferred None s)); parse_or_throw r.

Definition loadDeferredContinuationSnapshot : M (option (raw * UltrafixDeferredContinuation)) :=
  r ← call (fun s => (deferred_cell s, s));
  d ← parse_or_throw r;
  mret (match r, d with Some r, Some d => Some (r, d) | _, _ => None end).

Definition loadRearmRetryRaw : M (option raw) := call (fun s => (rearm_cell s, s)).
Definition loadRearmRetry : M (option UltrafixRearmRetry) := r ← loadRearmRetryRaw; parse_or_throw r.

(** Hand a stranded loop to a freshly reserved epoch. *)
Definition reserveStateWorkEpoch (snapshot : raw * UltrafixLoopState) (w : Z) : M (option UltrafixLoopState) :=
  let '(r, st) := snapshot in
  let st' := set_epoch st (w + 1) in
  e ← call (RESERVE_EPOCH_AND_REPLACE_STATE w r (stringify st'));
  mret (if (e : Z) =? w + 1 then Some st' else None).

(** [hasUltrafixAutomaticWork]: three reads, then the same decision as the script. *)
Definition hasUltrafixAutomaticWork : M bool :=
  r ← call (fun s => (state_cell s, s));
  d ← call (fun s => (deferred_cell s, s));
  e ← getUltrafixAutomaticWorkEpoch;
  mret (match d with
        | Some _ => true
        | None => match r with
                  | None => false
                  | Some r => match parse (A := UltrafixLoopState) r with
                              | Some st => active st && (state_epoch st =? (e : Z))
                              | None => (e : Z) =? 0
                              end
                  end
        end).

Definition MAX_RECORD_ATTEMPTS : nat := 3.
Definition FAILED_STEP_RETRY_REASON : string := "step_job_failed".

Fixpoint record_failed_loop (attempts : nat) (w now : Z) : M bool :=
  match attempts with
  | O => mret false
  | S attempts =>
      snapshot ← loadStateSnapshot;
      match snapshot with
      | None => mret false
      | Some (r, st) =>
          if negb (active st) || negb (state_epoch st =? w) then mret false
          else
            e ← getUltrafixAutomaticWorkEpoch;
            if negb ((e : Z) =? w) then mret false
            else
              existingRaw ← loadRearmRetryRaw;
              existing ← parse_or_throw (A := UltrafixRearmRetry) existingRaw;
              let version := default 0 (existing ≫= r_failureVersion) + 1 in
              let retry := RearmRetry w FAILED_STEP_RETRY_REASON now None
                             (existing ≫= r_claimedStep) (Some version) in
              recorded ← call (RECORD_FAILED_STEP w r (stringify (recordFailedStepInState st))
                                 existingRaw (stringify retry));
              if (recorded : bool) then mret true else record_failed_loop attempts w now
      end
  end.

Definition recordFailedUltrafixStep (w now : Z) : M bool := record_failed_loop MAX_RECORD_ATTEMPTS w now.

End Store.
