(* ===== verification/UltrafixContinue.v ===== *)
(** * Continuing the Ultrafix loop

    [continueUltrafixLoop] and what it calls (src/jobs/ultrafixLoopContinuation.ts,
    ultrafixLoopContinuationHelpers.ts, ultrafixCiWait.ts, ultrafixEscalation.ts),
    as programs over the store of [UltrafixStore]. GitHub, the settings database,
    the clock and the queue's contents of other jobs are the [Env]; logging, the texts of
    pull request comments, the payload and delay of a queued job beyond its step, and the
    cycle counts repeated in the result are left out. *)

From S2P Require Import Prelude JsString Interleave UltrafixLoop UltrafixLoopFacts UltrafixStore.

Open Scope Z_scope.

Record UltrafixCheckStatus := CheckStatus {
  count : Z;
  allPassing : bool;
  anyPending : bool;
  anyFailed : bool;
  blockingFailed : option (list string);
  blockingPending : option (list string);
}.
Definition UltrafixCiObservation : Type := string * UltrafixCheckStatus.

(** The functions a process may or may not have wired ([ultrafixCheckRunDeps]). *)
Record CheckRunDeps := Deps {
  getCurrentPRHead : option (result (option string));
  getCheckRunsStatus : option (string -> result UltrafixCheckStatus);
  areAllChecksPassing : option (string -> result bool);
}.

Record Env := {
  labelPresent : bool;
  (** [None] when the review comments could not be fetched or parsed. *)
  reviewFetch : option (ReviewOutput * list finding_input);
  (** The label transition lease could be taken, and was still held at the end. *)
  leaseTaken : bool;
  leaseKept : bool;
  escalationEnabled : bool;
  resolveModel : string -> option EscalationModel;
  nowMs : Z;
  checkRunDeps : CheckRunDeps;
  followUpJobs : result bool;
  pendingComments : result bool;
  (** Whether the queue reports an existing job ID as an error, and whether adding fails. *)
  duplicateError : bool;
  queueError : option string;
  ciWaitTimeoutMs : Z;
  (** The notice could be rewritten; the identifier of a newly posted one. *)
  updateNotice : bool;
  postNotice : option Z;
}.

Inductive Outcome := outcome_goal_reached | outcome_cycles_exhausted | outcome_stopped | outcome_failed.

Record ContinuationResult := Result {
  continued : bool;
  r_why : string;
  nextAction : option UltrafixAction;
  score : option Z;
  outcome : option Outcome;
  is_deferred : bool;
  blockingChecks : list string;
  result_epoch : option Z;
}.

Definition stop_result (why : string) (o : option Outcome) : ContinuationResult :=
  Result false why None None o false [] None.

Record ContinuationParams := Params {
  completedAction : UltrafixAction;
  p_userId : option string;
  p_meta : option UltrafixCommandMeta;
}.

(** [params.ultrafixMeta?.workEpoch ?? 0] *)
Definition params_epoch (p : ContinuationParams) : Z := default 0 (p_meta p ≫= m_workEpoch).

(** ** Readiness *)

Definition areChecksReadyForUltrafix (status : UltrafixCheckStatus) : bool := allPassing status.

Definition evaluateCIChecks (next : UltrafixAction) (deps : CheckRunDeps) : bool * option UltrafixCiObservation :=
  if negb (requiresPassingChecks next) then (true, None)
  else match getCurrentPRHead deps with
  | None => (false, None)
  | Some (Throw _) | Some (Ok None) | Some (Ok (Some "")) => (false, None)
  | Some (Ok (Some headSha)) =>
      match getCheckRunsStatus deps with
      | Some f => match f headSha with
                  | Ok status => if areChecksReadyForUltrafix status then (true, None)
                                 else (false, Some (headSha, status))
                  | Throw _ => (false, None)
                  end
      | None => match areAllChecksPassing deps with
                | Some f => match f headSha with Ok b => (b, None) | Throw _ => (false, None) end
                | None => (false, None)
                end
      end
  end.

(** Unreadable queues and comments count as idle here; CI fails closed. *)
Definition evaluateReadiness (e : Env) (next : UltrafixAction)
    : UltrafixReadinessResult * option UltrafixCiObservation :=
  let '(passing, ci) := evaluateCIChecks next (checkRunDeps e) in
  let follow := match followUpJobs e with Ok b => b | Throw _ => false end in
  let pending := match pendingComments e with Ok b => b | Throw _ => false end in
  (checkReadiness passing follow pending, ci).

(** [[...new Set(l)]] *)
Fixpoint dedup_from (seen : list string) (l : list string) : list string :=
  match l with
  | [] => []
  | x :: l => if bool_decide (x ∈ seen) then dedup_from seen l else x :: dedup_from (x :: seen) l
  end.

Definition listBlockingChecks (bf bp : list string) : list string := dedup_from [] (bf ++ bp).

(** Whether a wait recorded under one epoch belongs to the deferral now running. *)
Definition isSameLoopWait (recordedEpoch w : Z) (carryOverFromEpoch : option Z) : bool :=
  (recordedEpoch =? w)
  || match carryOverFromEpoch with
     | Some c => (c <=? recordedEpoch) && (recordedEpoch <? w)
     | None => false
     end.

Definition ULTRAFIX_CI_TIMEOUT_REASON : string := "CI did not settle".

Section Continue.
Context {raw : Type} `{!EqDecision raw}.
Context `{!Serial raw UltrafixLoopState} `{!Serial raw UltrafixDeferredContinuation}.
Context `{!Serial raw UltrafixRearmRetry} `{!Serial raw UltrafixCiWaitRecord}.

Abbreviation M := (Interleave.M (UltrafixStore.pr_store (raw := raw))).

(** [withUltrafixLabelTransition]: the operation runs under the lease, and its result
    is only published while the lease is still held. *)
Definition withUltrafixLabelTransition {A} (e : Env) (op : M A) : M A :=
  if negb (leaseTaken e) then throw "Timed out waiting for Ultrafix label transition"
  else a ← op; if leaseKept e then mret a else throw "Ultrafix label transition lease was lost".

(** ** The CI wait *)

Definition loadUltrafixCiWait : M (option UltrafixCiWaitRecord) :=
  r ← call (fun s => (ciwait_cell s, s)); mret (r ≫= parse).
Definition clearUltrafixCiWait : M unit := call (fun s => (tt, with_ciwait None s)).

Definition stopUltrafixLoopForCiTimeout (e : Env) (w : Z) (lastScore : option Z) : M bool :=
  done ← withUltrafixLabelTransition e (
    cur ← isUltrafixAutomaticWorkCurrent w;
    if negb cur then mret false
    else
      completed ← completeLoop failed ULTRAFIX_CI_TIMEOUT_REASON lastScore (nowMs e) (Some w);
      match completed with
      | None => mret false
      | Some _ => _ ← call (CLEAR_DEFERRED_IF_CURRENT w); mret true
      end);
  if (done : bool) then _ ← clearUltrafixCiWait; mret true else mret false.

(** The record of the current deferral, carrying over the start and the notice of
    the same wait. *)
Definition ci_wait_record (e : Env) (w : Z) (carry : option Z) (ci : UltrafixCiObservation)
    (lastScore : option (option Z)) (existing : option UltrafixCiWaitRecord) : UltrafixCiWaitRecord :=
  let '(headSha, status) := ci in
  let same := match existing with
    | Some x => bool_decide (w_headSha x = headSha) && isSameLoopWait (w_workEpoch x) w carry
    | None => false
    end in
  let from {A} (f : UltrafixCiWaitRecord -> option A) := if same then match existing with Some x => f x | None => None end else None in
  CiWait w headSha
    (match existing with Some x => if same then w_since x else nowMs e | None => nowMs e end)
    (from w_noticePostedAt) (from w_noticeCommentId)
    (default [] (blockingFailed status)) (default [] (blockingPending status))
    (match lastScore with Some _ => lastScore | None => from w_lastScore end).

(** The result: whether this call stopped the loop, and the blocking checks. *)
Definition handleUltrafixCiDeferral (e : Env) (w : Z) (carry : option Z) (ci : UltrafixCiObservation)
    (lastScore : option (option Z)) : M (bool * list string) :=
  existing ← loadUltrafixCiWait;
  let record := ci_wait_record e w carry ci lastScore existing in
  let checks := listBlockingChecks (w_blockingFailed record) (w_blockingPending record) in
  let waitedMs := Z.max 0 (nowMs e - w_since record) in
  if ciWaitTimeoutMs e <=? waitedMs then
    stopped ← stopUltrafixLoopForCiTimeout e w (mjoin (w_lastScore record));
    mret (stopped, checks)
  else
    let record := match w_noticePostedAt record with
      | Some _ => record
      | None =>
          let id := match existing ≫= w_noticeCommentId with
            | Some id => if updateNotice e then Some id else postNotice e
            | None => postNotice e
            end in
          CiWait (w_workEpoch record) (w_headSha record) (w_since record) (Some (nowMs e))
            (match id with Some _ => id | None => w_noticeCommentId record end)
            (w_blockingFailed record) (w_blockingPending record) (w_lastScore record)
      end in
    _ ← call (fun s => (tt, with_ciwait (Some (stringify record)) s));
    mret (false, checks).

Definition handleUltrafixCiDeferralSafely (e : Env) (w : Z) (carry : option Z) (ci : UltrafixCiObservation)
    (lastScore : option (option Z)) : M (bool * list string) :=
  catch (handleUltrafixCiDeferral e w carry ci lastScore)
    (fun _ => mret (false, listBlockingChecks (default [] (blockingFailed ci.2)) (default [] (blockingPending ci.2)))).

(** The terminal result, or the blocking checks to report. *)
Definition applyUltrafixCiDeferral (e : Env) (p : ContinuationParams) (readiness : UltrafixReadinessResult)
    (ci : option UltrafixCiObservation) (lastScore : option (option Z)) (carry : option Z)
    : M (option ContinuationResult * list string) :=
  match ci with
  | Some ci =>
      if bool_decide ("checks_not_passing"%string ∈ reasons readiness) then
        r ← handleUltrafixCiDeferralSafely e (params_epoch p) carry ci lastScore;
        let '(stopped, checks) := (r : bool * list string) in
        if stopped
        then mret (Some (Result false ULTRAFIX_CI_TIMEOUT_REASON None (mjoin lastScore)
                           (Some outcome_failed) false checks None), checks)
        else mret (None, checks)
      else mret (None, [])
  | None => mret (None, [])
  end.

(** ** Queueing the next step *)

Definition enqueueNextStep (e : Env) (p : ContinuationParams) (next : UltrafixAction) (stepNumber : Z) : M bool :=
  let id : StepId := (next, params_epoch p, stepNumber) in
  existing ← call (fun s => (jobs_cell s !! id, s));
  busy ← match existing with
    | None => mret false
    | Some _ =>
        st ← call (fun s => (default job_unknown (jobs_cell s !! id), s));
        match (st : JobState) with
        | job_completed | job_failed =>
            _ ← call (fun s => (tt, with_jobs (delete id (jobs_cell s)) s)); mret false
        | job_pending => mret true
        | job_unknown => mret false
        end
    end;
  if (busy : bool) then mret false
  else match queueError e with
  | Some err => throw err
  | None =>
      added ← call (fun s => match jobs_cell s !! id with
                             | Some _ => (false, s)
                             | None => (true, with_jobs (<[id := job_pending]> (jobs_cell s)) s)
                             end);
      mret ((added : bool) || negb (duplicateError e))
  end.

(** ** The continuation *)

Definition collectReviewOutput (e : Env) (p : ContinuationParams) : M ReviewOutput :=
  match completedAction p with
  | fix_ => mret no_output
  | review =>
      match reviewFetch e with
      | None => mret no_output
      | Some (o, fs) =>
          catch (
            _ ← (if bool_decide (out_status o = invalid) then mret None
                 else recordReviewFindings fs (Some (params_epoch p)));
            mret o) (fun _ => mret no_output)
      end
  end.

Definition persist (st : UltrafixLoopState) : M bool :=
  match workEpoch st with
  | Some w => call (SAVE_STATE_IF_CURRENT w (stringify st))
  | None => call (fun s => (false, s))
  end.

Definition recordUltrafixEscalationReview (e : Env) (st : UltrafixLoopState) (x : Z)
    : M (option UltrafixLoopState) :=
  current ← loadState;
  match current with
  | None => mret None
  | Some cur =>
      if negb (bool_decide (workEpoch cur = workEpoch st)) then mret None
      else if negb (escalationEnabled e) then mret (Some cur)
      else
        let cur' := match escalation cur with
          | None => set_escalation cur None
                      (Some (Z.max (default x (escalationBestScore cur)) x))
          | Some es => set_escalation cur (Some (advanceEscalation (resolveModel e) x es))
                         (escalationBestScore cur)
          end in
        ok ← persist cur';
        mret (if (ok : bool) then Some cur' else None)
  end.

Definition EXHAUSTED_REASON : string := "Escalation exhausted: all available models and reasoning levels stalled".

(** The possibly stopped decision and the state after escalation. *)
Definition applyReviewEscalation (e : Env) (p : ContinuationParams) (st : UltrafixLoopState)
    (o : ReviewOutput) (d : NextActionDecision) : M (option (UltrafixLoopState * NextActionDecision)) :=
  match completedAction p, out_score o, action d with
  | review, Some x, Some _ =>
      if negb (out_partial o) && negb (bool_decide (out_status o = invalid)) then
        st' ← recordUltrafixEscalationReview e st x;
        mret (match st' with
              | None => None
              | Some st' =>
                  if match escalation st' with Some es => exhausted es | None => false end
                  then Some (st', Decision_ None EXHAUSTED_REASON) else Some (st', d)
              end)
      else mret (Some (st, d))
  | _, _, _ => mret (Some (st, d))
  end.

(** The boolean is whether the goal was reached; [None] when the work was superseded. *)
Definition finish_transition (e : Env) (w : Z) (goalReached : bool) (why : string) (x : option Z) : M bool :=
  cur ← isUltrafixAutomaticWorkCurrent w;
  if negb cur then mret false
  else
    completed ← completeLoop (if goalReached then succeeded else failed) why x (nowMs e) (Some w);
    match completed with
    | None => mret false
    | Some _ =>
        if negb goalReached then mret true
        else
          ok ← call (CLEAR_STATE_IF_CURRENT w);
          if negb ok then mret false
          else _ ← call (CLEAR_DEFERRED_IF_CURRENT w); mret true
    end.

Definition finishUltrafixLoop (e : Env) (p : ContinuationParams) (st : UltrafixLoopState) (o : ReviewOutput)
    (why : string) : M ContinuationResult :=
  let goalReached := bool_decide (completedAction p = review)
    && hasReviewReachedGoal (out_status o) (out_score o) (goal st) (out_partial o) in
  done ← withUltrafixLabelTransition e (finish_transition e (params_epoch p) goalReached why (out_score o));
  if negb done then mret (stop_result "ultrafix_superseded" None)
  else mret (Result false why None (out_score o)
    (Some (if goalReached then outcome_goal_reached
           else if match escalation st with Some es => exhausted es | None => false end
           then outcome_failed else outcome_cycles_exhausted)) false [] None).

Definition join_reasons (l : list string) : string := join ", " l.

Definition deferNextAction (e : Env) (p : ContinuationParams) (next : UltrafixAction)
    (readiness : UltrafixReadinessResult) (ci : option UltrafixCiObservation) (latest : option Z)
    : M ContinuationResult :=
  saved ← saveDeferredContinuation (Deferred next (nowMs e) (join_reasons (reasons readiness))
            (truthy_string (p_userId p)) (p_meta p) (p_meta p ≫= m_workEpoch));
  if negb saved then mret (stop_result "ultrafix_superseded" None)
  else
    r ← applyUltrafixCiDeferral e p readiness ci (Some latest) None;
    let '(terminal, checks) := (r : option ContinuationResult * list string) in
    mret (match terminal with
          | Some t => t
          | None => Result false ("deferred: " ++ join_reasons (reasons readiness)) (Some next) latest
                      None true checks None
          end).

Definition enqueueCurrentNextAction (e : Env) (p : ContinuationParams) (next : UltrafixAction)
    (why : string) (latest : option Z) (st : UltrafixLoopState) : M ContinuationResult :=
  ok ← call (CLEAR_DEFERRED_IF_CURRENT (params_epoch p));
  if negb ok then mret (stop_result "ultrafix_superseded" None)
  else
    enqueued ← enqueueNextStep e p next (getNextStepNumber st next);
    if negb enqueued
    then mret (Result false "next_step_already_queued" (Some next) latest None false [] None)
    else mret (Result true why (Some next) latest None false [] None).

Definition after_review (e : Env) (p : ContinuationParams) (st : UltrafixLoopState) (o : ReviewOutput)
    (d : NextActionDecision) : M ContinuationResult :=
  match action d with
  | None => finishUltrafixLoop e p st o (reason d)
  | Some next =>
      let '(readiness, ci) := evaluateReadiness e next in
      if negb (ready readiness) then deferNextAction e p next readiness ci (out_score o)
      else enqueueCurrentNextAction e p next (reason d) (out_score o) st
  end.

Definition continueUltrafixLoop (e : Env) (p : ContinuationParams) : M ContinuationResult :=
  let w := params_epoch p in
  cur ← isUltrafixAutomaticWorkCurrent w;
  if negb cur then mret (stop_result "ultrafix_superseded" (Some outcome_stopped))
  else
    state ← loadState;
    match state with
    | None => mret (stop_result "no_active_loop" (Some outcome_stopped))
    | Some st =>
        if negb (active st) || negb (state_epoch st =? w)
        then mret (stop_result (if negb (state_epoch st =? w) then "ultrafix_superseded" else "no_active_loop")
                     (Some outcome_stopped))
        else
          recorded ← recordAction (completedAction p) (nowMs e) (Some w);
          match recorded with
          | None =>
              still ← isUltrafixAutomaticWorkCurrent w;
              mret (if (still : bool) then stop_result "state_lost_after_record" (Some outcome_failed)
                    else stop_result "ultrafix_superseded" (Some outcome_stopped))
          | Some st =>
              if negb (labelPresent e) then
                ok ← call (CLEAR_STATE_IF_CURRENT w);
                if negb ok then mret (stop_result "ultrafix_superseded" None)
                else
                  _ ← call (CLEAR_DEFERRED_IF_CURRENT w);
                  mret (stop_result "label_removed" (Some outcome_stopped))
              else
                o ← collectReviewOutput e p;
                let d := determineNextAction st (out_score o) (out_status o) (out_partial o) in
                escalated ← applyReviewEscalation e p st o d;
                match (escalated : option (UltrafixLoopState * NextActionDecision)) with
                | None => mret (stop_result "ultrafix_superseded" None)
                | Some (st, d) => after_review e p st o d
                end
          end
    end.

End Continue.
