(* ===== verification/UltrafixFence.v ===== *)
(** * Epoch fencing of the Ultrafix loop

    What the atomic steps of a continuation may do to a pull request's record,
    for every interleaving with other processes: a step taken after the
    automatic-work epoch moved on changes nothing of the loop, and no step of a
    continuation moves the epoch. *)

From S2P Require Import Prelude JsString Interleave UltrafixLoop UltrafixLoopFacts UltrafixStore UltrafixContinue.

Open Scope Z_scope.
Open Scope list_scope.

Section Fence.
Context {raw : Type} `{!EqDecision raw}.
Context `{!Serial raw UltrafixLoopState} `{!Serial raw UltrafixDeferredContinuation}.
Context `{!Serial raw UltrafixRearmRetry} `{!Serial raw UltrafixCiWaitRecord}.

Abbreviation M := (Interleave.M (UltrafixStore.pr_store (raw := raw))).
Abbreviation pr_store := (UltrafixStore.pr_store (raw := raw)).
Abbreviation world := (Interleave.world (UltrafixStore.pr_store (raw := raw))).

(** ** Reasoning about every own step of a program *)

(** ** The fence *)

(** The part of the record that a continuation of epoch [w] may only touch while
    [w] is current, and the queue, where it only touches jobs of its epoch. *)
Definition fenced (w : Z) (s s' : pr_store) : Prop :=
  epoch_cell s' = epoch_cell s /\ takeover_cells s' = takeover_cells s /\ claim_cell s' = claim_cell s
  /\ rearm_cell s' = rearm_cell s
  /\ (current_epoch s <> w -> state_cell s' = state_cell s /\ deferred_cell s' = deferred_cell s)
  /\ (forall id : StepId, id.1.2 <> w -> jobs_cell s' !! id = jobs_cell s !! id).

Lemma fenced_refl w s : fenced w s s.
Proof. by repeat split. Qed.

Lemma fenced_if (w : Z) s s' :
  fenced w s (if negb (current_epoch s =? w) then s else s') <-> (current_epoch s = w -> fenced w s s').
Proof.
  destruct (current_epoch s =? w) eqn:E; zb; simpl; [tauto|]. split; [done|]. intros _. apply fenced_refl.
Qed.

#[local] Hint Resolve steps_ret steps_throw fenced_refl : propr.

(** [step] decomposes a program into its calls. *)
Ltac step :=
  repeat first
    [ progress (simpl; auto with propr nocore)
    | apply steps_bind; [|intros ?]
    | apply steps_catch; [|intros ?]
    | apply steps_call; intros ?
    | case_bool
    | case_match ].

Lemma steps_current P w : (forall s, P s s) -> steps P (isUltrafixAutomaticWorkCurrent w : M bool).
Proof.
  intros HP. unfold isUltrafixAutomaticWorkCurrent, getUltrafixAutomaticWorkEpoch.
  apply steps_bind; [by apply steps_call|intros ?; apply steps_ret].
Qed.

Lemma steps_parse P {A} `{!Serial raw A} r : steps P (parse_or_throw r : M (option A)).
Proof. unfold parse_or_throw. repeat case_match; auto with propr. Qed.

Lemma steps_loadState w : steps (fenced w) (loadState : M _).
Proof. unfold loadState. apply steps_bind; [apply steps_call; auto with propr|intros ?; apply steps_parse]. Qed.

Lemma steps_save_state w v : steps (fenced w) (call (SAVE_STATE_IF_CURRENT w v)).
Proof.
  apply steps_call. intros s. unfold SAVE_STATE_IF_CURRENT. destruct (current_epoch s =? w) eqn:E; zb; simpl; [|apply fenced_refl].
  by repeat split.
Qed.
Lemma steps_clear_state w : steps (fenced w) (call (CLEAR_STATE_IF_CURRENT w)).
Proof.
  apply steps_call. intros s. unfold CLEAR_STATE_IF_CURRENT. destruct (current_epoch s =? w) eqn:E; zb; simpl; [|apply fenced_refl].
  by repeat split.
Qed.
Lemma steps_save_deferred w v : steps (fenced w) (call (SAVE_DEFERRED_IF_CURRENT w v)).
Proof.
  apply steps_call. intros s. unfold SAVE_DEFERRED_IF_CURRENT. destruct (current_epoch s =? w) eqn:E; zb; simpl; [|apply fenced_refl].
  by repeat split.
Qed.
Lemma steps_clear_deferred w : steps (fenced w) (call (CLEAR_DEFERRED_IF_CURRENT w)).
Proof.
  apply steps_call. intros s. unfold CLEAR_DEFERRED_IF_CURRENT. destruct (current_epoch s =? w) eqn:E; zb; simpl; [|apply fenced_refl].
  by repeat split.
Qed.
Lemma steps_ciwait w v : steps (fenced w) (call (fun s => (tt, with_ciwait v s))).
Proof. apply steps_call. by repeat split. Qed.

Lemma steps_saveOwned st w : steps (fenced w) (saveOwnedState st (Some w)).
Proof. simpl. case_bool; [auto with propr|apply steps_save_state]. Qed.

Lemma steps_loadOwned w : steps (fenced w) (loadOwnedState (Some w) : M _).
Proof.
  unfold loadOwnedState. apply steps_bind; [apply steps_loadState|intros [st|]]; [|auto with propr].
  case_bool; auto with propr.
Qed.

Lemma steps_updateOwned f w : steps (fenced w) (updateOwnedState f (Some w)).
Proof.
  unfold updateOwnedState. apply steps_bind; [apply steps_loadOwned|intros [st|]]; [|auto with propr].
  apply steps_bind; [apply steps_saveOwned|auto with propr].
Qed.

#[local] Hint Resolve steps_loadState steps_save_state steps_clear_state steps_save_deferred
  steps_clear_deferred steps_ciwait steps_saveOwned steps_loadOwned steps_updateOwned : propr.
#[local] Hint Extern 1 (steps _ (isUltrafixAutomaticWorkCurrent _)) => (apply steps_current; auto with propr) : propr.

Lemma steps_lease P {A} e (op : M A) : steps P op -> steps P (withUltrafixLabelTransition e op).
Proof.
  intros H. unfold withUltrafixLabelTransition. case_bool; [apply steps_throw|].
  apply steps_bind; [done|intros ?]. case_bool; [apply steps_ret|apply steps_throw].
Qed.

Lemma steps_finish e w g why x : steps (fenced w) (finish_transition e w g why x).
Proof.
  unfold finish_transition, completeLoop. apply steps_bind; [auto with propr|intros cur]. case_bool; [auto with propr|].
  apply steps_bind; [auto with propr|intros [st|]]; [|auto with propr]. case_bool; [auto with propr|].
  apply steps_bind; [auto with propr|intros ok]. case_bool; [auto with propr|].
  apply steps_bind; auto with propr.
Qed.

Lemma steps_ci_stop e w x : steps (fenced w) (stopUltrafixLoopForCiTimeout e w x).
Proof.
  unfold stopUltrafixLoopForCiTimeout, clearUltrafixCiWait, completeLoop. apply steps_bind.
  - apply steps_lease. apply steps_bind; [auto with propr|intros cur]. case_bool; [auto with propr|].
    apply steps_bind; [auto with propr|intros [st|]]; [|auto with propr].
    apply steps_bind; auto with propr.
  - intros ok. case_bool; [apply steps_bind|]; auto with propr.
Qed.

Lemma steps_ci e w carry ci x : steps (fenced w) (handleUltrafixCiDeferral e w carry ci x).
Proof.
  unfold handleUltrafixCiDeferral, loadUltrafixCiWait. apply steps_bind.
  - apply steps_bind; [apply steps_call; auto with propr|auto with propr].
  - intros ex. case_bool; apply steps_bind; auto using steps_ci_stop with propr.
Qed.

Lemma steps_apply_ci e p r ci x carry : steps (fenced (params_epoch p)) (applyUltrafixCiDeferral e p r ci x carry).
Proof.
  unfold applyUltrafixCiDeferral. destruct ci as [ci|]; [|auto with propr]. case_bool; [|auto with propr].
  apply steps_bind.
  - apply steps_catch; [apply steps_ci|auto with propr].
  - intros [st cs]. case_bool; auto with propr.
Qed.

Lemma fenced_jobs (w : Z) (id : StepId) (f : gmap StepId JobState -> gmap StepId JobState) (s : pr_store) :
  id.1.2 = w -> (forall (m : gmap StepId JobState) (id' : StepId), id' <> id -> f m !! id' = m !! id') -> fenced w s (with_jobs (f (jobs_cell s)) s).
Proof. intros Hid Hf. repeat split; try done. intros id' Hne. simpl. apply Hf. congruence. Qed.

Lemma steps_enqueue e p next n : steps (fenced (params_epoch p)) (enqueueNextStep e p next n : M bool).
Proof.
  unfold enqueueNextStep. set (id := (next, params_epoch p, n)).
  apply steps_bind; [apply steps_call; auto with propr|intros ex]. apply steps_bind.
  - destruct ex; [|auto with propr]. apply steps_bind; [apply steps_call; auto with propr|intros st].
    destruct st; auto with propr; (apply steps_bind; [apply steps_call; intros s|auto with propr]);
      apply (fenced_jobs _ id (delete id)); try done; intros m id' Hne; by rewrite lookup_delete_ne.
  - intros busy. case_bool; [auto with propr|]. destruct (queueError e); [auto with propr|].
    apply steps_bind; [apply steps_call; intros s|auto with propr].
    case_match; [apply fenced_refl|].
    apply (fenced_jobs _ id (fun m => <[id := job_pending]> m)); [done|]. intros m id' Hne. by rewrite lookup_insert_ne.
Qed.

Lemma steps_collect e p : steps (fenced (params_epoch p)) (collectReviewOutput e p).
Proof.
  unfold collectReviewOutput. destruct (completedAction p); [|auto with propr].
  destruct (reviewFetch e) as [[o fs]|]; [|auto with propr].
  apply steps_catch; [|auto with propr]. apply steps_bind; [|auto with propr].
  case_bool; [auto with propr|]. unfold recordReviewFindings. auto with propr.
Qed.

(** The state that is persisted after escalation belongs to the continuation's epoch. *)
Lemma steps_escalation e p st o d :
  workEpoch st = Some (params_epoch p) ->
  steps (fenced (params_epoch p)) (applyReviewEscalation e p st o d).
Proof.
  intros Hw. unfold applyReviewEscalation. destruct (completedAction p); [|auto with propr].
  destruct (out_score o) as [x|]; [|auto with propr]. destruct (action d); [|auto with propr].
  case_bool; [|auto with propr]. apply steps_bind; [|auto with propr].
  unfold recordUltrafixEscalationReview. apply steps_bind; [auto with propr|intros [cur|]]; [|auto with propr].
  case_bool; [auto with propr|]. apply negb_false_iff, bool_decide_eq_true in E0.
  case_bool; [auto with propr|]. apply steps_bind; [|auto with propr].
  unfold persist. destruct (escalation cur); simpl; rewrite E0, Hw; auto with propr.
Qed.

Lemma steps_after_review e p st o d : steps (fenced (params_epoch p)) (after_review e p st o d).
Proof.
  unfold after_review. destruct (action d) as [next|].
  - destruct (evaluateReadiness e next) as [r ci]. case_bool.
    + unfold deferNextAction, saveDeferredContinuation. apply steps_bind.
      * replace (deferred_epoch _) with (params_epoch p); [auto with propr|].
        unfold deferred_epoch, params_epoch; simpl.
        destruct (p_meta p) as [m|]; simpl; [by destruct (m_workEpoch m)|done].
      * intros ok. case_bool; [auto with propr|]. apply steps_bind; [apply steps_apply_ci|].
        intros [t cs]. auto with propr.
    + unfold enqueueCurrentNextAction. apply steps_bind; [auto with propr|intros ok].
      case_bool; [auto with propr|]. apply steps_bind; [apply steps_enqueue|intros q]. case_bool; auto with propr.
  - unfold finishUltrafixLoop. apply steps_bind; [apply steps_lease, steps_finish|intros ok].
    case_bool; auto with propr.
Qed.

(** ** The whole continuation *)

(** The values a program can return. *)
Definition may_return {A} (m : M A) (a : A) : Prop := exists w w', m w = (Ok a, w').

Lemma steps_bind_outcome P {A B} (m : M A) (f : A -> M B) :
  steps P m -> (forall a, may_return m a -> steps P (f a)) -> steps P (m ≫= f).
Proof.
  intros Hm Hf w. destruct (Hm w) as (l & Hl & HP). unfold mbind, M_bind.
  destruct (m w) as [[a|e] w'] eqn:E; simpl in Hl; [|by exists l].
  destruct (Hf a (ex_intro _ w (ex_intro _ w' E)) w') as (l' & Hl' & HP'). exists (l ++ l').
  rewrite Hl', Hl, app_assoc. split; [done|]. by apply Forall_app.
Qed.

Lemma bind_inv {A B} (m : M A) (f : A -> M B) b : may_return (m ≫= f) b -> exists a, may_return m a /\ may_return (f a) b.
Proof.
  intros (w & w' & H). unfold mbind, M_bind in H. destruct (m w) as [[a|e] w1] eqn:E; [|done].
  exists a. split; [by exists w, w1|by exists w1, w'].
Qed.

Lemma ret_inv {A} (a b : A) : may_return (mret a) b -> b = a.
Proof. intros (w & w' & H). by injection H. Qed.

Lemma loadOwned_epoch w st : may_return (loadOwnedState (Some w)) (Some st) -> workEpoch st = Some w.
Proof.
  intros (st0 & _ & H)%bind_inv. destruct st0 as [st0|]; [|by apply ret_inv in H].
  cbv zeta in H. destruct (state_epoch (set_epoch st0 (state_epoch st0)) =? w) eqn:E; simpl in H;
    apply ret_inv in H; [|done].
  simplify_eq/=. zb. unfold state_epoch in *; simpl in *. by rewrite E.
Qed.

Lemma updateOwned_epoch f w st :
  (forall s, workEpoch (f s) = workEpoch s) ->
  may_return (updateOwnedState f (Some w)) (Some st) -> workEpoch st = Some w.
Proof.
  intros Hf (st0 & H0 & H)%bind_inv. destruct st0 as [st0|]; [|by apply ret_inv in H].
  apply loadOwned_epoch in H0. apply bind_inv in H as (ok & _ & H). apply ret_inv in H.
  destruct ok; simplify_eq. by rewrite Hf.
Qed.

Lemma recorded_action_epoch a now s : workEpoch (recorded_action a now s) = workEpoch s.
Proof. unfold recorded_action. by destruct (getActionCounts s). Qed.

(** Epoch fencing: in every interleaving with other processes, each atomic step
    of a continuation belongs to its own epoch. It never moves the epoch, a
    takeover record, the resume claim or a retry obligation; once the epoch has
    moved on it leaves the loop state and the deferred record as they are; and it
    only adds or removes jobs of its own epoch. *)
Theorem continuation_is_fenced e p w :
  exists l, trace (snd (continueUltrafixLoop e p w)) = trace w ++ l
  /\ forall s s', (s, s') ∈ l ->
    epoch_cell s' = epoch_cell s /\ takeover_cells s' = takeover_cells s /\ claim_cell s' = claim_cell s
    /\ rearm_cell s' = rearm_cell s
    /\ (current_epoch s <> params_epoch p -> state_cell s' = state_cell s /\ deferred_cell s' = deferred_cell s)
    /\ (forall id : StepId, id.1.2 <> params_epoch p -> jobs_cell s' !! id = jobs_cell s !! id).
Proof.
  assert (H : steps (fenced (params_epoch p)) (continueUltrafixLoop e p)).
  { unfold continueUltrafixLoop. apply steps_bind; [auto with propr|intros cur]. case_bool; [auto with propr|].
    apply steps_bind; [auto with propr|intros [st|]]; [|auto with propr]. case_bool; [auto with propr|].
    apply steps_bind_outcome; [unfold recordAction; auto with propr|intros [st1|] Hst1].
    2:{ apply steps_bind; auto with propr. }
    apply (updateOwned_epoch _ _ _ (recorded_action_epoch _ _)) in Hst1.
    case_bool.
    - apply steps_bind; [auto with propr|intros ok]. case_bool; [auto with propr|].
      apply steps_bind; auto with propr.
    - apply steps_bind; [apply steps_collect|intros o].
      apply steps_bind; [by apply steps_escalation|intros [[st2 d]|]]; [|auto with propr].
      apply steps_after_review. }
  destruct (H w) as (l & Hl & HP). exists l. split; [done|]. intros s s' Hin.
  rewrite Forall_forall in HP. exact (HP (s, s') Hin).
Qed.
End Fence.
