(* ===== verification/UltrafixRun.v ===== *)
(** * What a continuation does

    The functional behaviour of [continueUltrafixLoop] when it runs undisturbed:
    the next step it queues, the record it leaves, and when it reports success. *)

From S2P Require Import Prelude JsString Interleave UltrafixLoop UltrafixLoopFacts UltrafixStore UltrafixContinue.

Open Scope Z_scope.
Open Scope list_scope.

Section Run.
Context {raw : Type} `{!EqDecision raw}.
Context `{!Serial raw UltrafixLoopState} `{!Serial raw UltrafixDeferredContinuation}.
Context `{!Serial raw UltrafixRearmRetry} `{!Serial raw UltrafixCiWaitRecord}.

Abbreviation M := (Interleave.M (UltrafixStore.pr_store (raw := raw))).
Abbreviation pr_store := (UltrafixStore.pr_store (raw := raw)).
Abbreviation world := (Interleave.world (UltrafixStore.pr_store (raw := raw))).

Lemma runs_current (s : pr_store) w : runs (isUltrafixAutomaticWorkCurrent w) s (current_epoch s =? w) s.
Proof. eapply runs_bind; [by apply runs_call|apply runs_ret]. Qed.

Lemma runs_loadState (s : pr_store) st : state_cell s = Some (stringify st) -> runs loadState s (Some st) s.
Proof.
  intros H. eapply runs_bind; [by apply runs_call|]. rewrite H. apply runs_parse.
Qed.

(** The store holds the serialized state [st], owned by the current epoch [w]. *)
Definition owns (s : pr_store) (st : UltrafixLoopState) (w : Z) : Prop :=
  state_cell s = Some (stringify st) /\ workEpoch st = Some w /\ current_epoch s = w.

Lemma set_epoch_same st w : workEpoch st = Some w -> set_epoch st (state_epoch st) = st.
Proof. intros H. unfold state_epoch. destruct st; simpl in *. by subst. Qed.

Lemma runs_updateOwned f s st w :
  owns s st w -> (forall x, workEpoch (f x) = workEpoch x) ->
  runs (updateOwnedState f (Some w)) s (Some (f st)) (with_state (Some (stringify (f st))) s).
Proof.
  intros (Hs & Hw & Hc) Hf. unfold updateOwnedState, loadOwnedState.
  eapply runs_bind.
  - eapply runs_bind; [by apply runs_loadState|]. lazy iota zeta beta. rewrite (set_epoch_same st w Hw).
    unfold state_epoch. rewrite Hw; simpl. rewrite Z.eqb_refl. simpl. apply runs_ret.
  - lazy iota zeta beta. eapply runs_bind.
    + unfold saveOwnedState. rewrite Hf, Hw, bool_decide_true by done. simpl. apply runs_call.
      unfold SAVE_STATE_IF_CURRENT. by rewrite Hc, Z.eqb_refl.
    + apply runs_ret.
Qed.

Lemma owns_updated f s st w :
  owns s st w -> workEpoch (f st) = workEpoch st -> owns (with_state (Some (stringify (f st))) s) (f st) w.
Proof. intros (Hs & Hw & Hc) Hf. split_and!; [done|congruence|done]. Qed.

Lemma runs_lease {A} e (m : M A) s a s' :
  leaseTaken e = true -> leaseKept e = true -> runs m s a s' -> runs (withUltrafixLabelTransition e m) s a s'.
Proof.
  intros Ht Hk Hm. unfold withUltrafixLabelTransition. rewrite Ht, Hk. simpl.
  eapply runs_bind; [done|apply runs_ret].
Qed.

(** ** The review's findings are recorded with its output *)

Definition after_output (e : Env) (p : ContinuationParams) (st : UltrafixLoopState) : ReviewOutput * UltrafixLoopState :=
  match completedAction p, reviewFetch e with
  | review, Some (o, fs) => (o, if bool_decide (out_status o = invalid) then st else recorded_findings fs st)
  | _, _ => (no_output, st)
  end.

Lemma runs_collect e p s st :
  owns s st (params_epoch p) ->
  let '(o, st') := after_output e p st in
  runs (collectReviewOutput e p) s o (with_state (Some (stringify st')) s) /\ workEpoch st' = workEpoch st.
Proof.
  intros Ho. assert (Hsame : with_state (Some (stringify st)) s = s).
  { destruct Ho as (Hs & _). destruct s; simpl in *. by subst. }
  unfold after_output, collectReviewOutput.
  destruct (completedAction p); [|rewrite Hsame; split; [apply runs_ret|done]].
  destruct (reviewFetch e) as [[o fs]|]; [|rewrite Hsame; split; [apply runs_ret|done]].
  assert (Hcatch : forall (m : M ReviewOutput) h s1 s2, runs m s1 o s2 -> runs (catch m h) s1 o s2).
  { intros m h s1 s2 Hm tr. destruct (Hm tr) as [tr' H]. exists tr'. unfold catch. by rewrite H. }
  case_bool.
  - rewrite Hsame. split; [|done]. apply Hcatch. eapply runs_bind; apply runs_ret.
  - split; [|done]. apply Hcatch. eapply runs_bind; [|apply runs_ret].
    unfold recordReviewFindings. by apply runs_updateOwned.
Qed.

(** ** Undisturbed continuations *)

(** The state after the action is recorded, the review output, the state with its
    findings, and the decision. *)
Definition step_state (e : Env) (p : ContinuationParams) (st : UltrafixLoopState) : UltrafixLoopState :=
  recorded_action (completedAction p) (nowMs e) st.
Definition step_output (e : Env) (p : ContinuationParams) (st : UltrafixLoopState) : ReviewOutput :=
  fst (after_output e p (step_state e p st)).
Definition step_final (e : Env) (p : ContinuationParams) (st : UltrafixLoopState) : UltrafixLoopState :=
  snd (after_output e p (step_state e p st)).
Definition step_decision (e : Env) (p : ContinuationParams) (st : UltrafixLoopState) : NextActionDecision :=
  let o := step_output e p st in
  determineNextAction (step_state e p st) (out_score o) (out_status o) (out_partial o).

Section Undisturbed.
Variables (e : Env) (p : ContinuationParams) (s : pr_store) (st : UltrafixLoopState).
Abbreviation w := (params_epoch p).
Hypothesis Howns : owns s st w.
Hypothesis Hactive : active st = true.
Hypothesis Hlabel : labelPresent e = true.
Hypothesis Htaken : leaseTaken e = true.
Hypothesis Hkept : leaseKept e = true.
Hypothesis Hesc : escalationEnabled e = false.
Hypothesis Hdone : match escalation st with Some es => exhausted es | None => false end = false.

Abbreviation st1 := (step_state e p st).
Abbreviation o := (step_output e p st).
Abbreviation st2 := (step_final e p st).
Abbreviation d := (step_decision e p st).
Abbreviation s2 := (with_state (Some (stringify st2)) s).

Lemma recorded_keeps a now x :
  workEpoch (recorded_action a now x) = workEpoch x /\ escalation (recorded_action a now x) = escalation x
  /\ goal (recorded_action a now x) = goal x.
Proof. unfold recorded_action. by destruct (getActionCounts x). Qed.

Lemma after_output_keeps :
  workEpoch st2 = workEpoch st1 /\ escalation st2 = escalation st1 /\ goal st2 = goal st1
  /\ getActionCounts st2 = getActionCounts st1.
Proof.
  unfold step_final, after_output. destruct (completedAction p); [|done].
  destruct (reviewFetch e) as [[o' fs]|]; [|done]. simpl. by case_bool.
Qed.

Lemma owns_s2 : owns s2 st2 w.
Proof.
  destruct Howns as (Hs & Hw & Hc). destruct after_output_keeps as (Hw2 & _).
  split_and!; [done| |done]. rewrite Hw2. unfold step_state. by rewrite (proj1 (recorded_keeps _ _ _)).
Qed.

(** The state handed on after escalation: the recorded one, or its reload. *)
Lemma runs_escalation :
  exists st', (st' = st1 \/ st' = st2) /\ runs (applyReviewEscalation e p st1 o d) s2 (Some (st', d)) s2.
Proof.
  unfold applyReviewEscalation. destruct (completedAction p); [|exists st1; split; [by left|apply runs_ret]].
  destruct (out_score o); [|exists st1; split; [by left|apply runs_ret]].
  destruct (action d); [|exists st1; split; [by left|apply runs_ret]].
  case_bool; [|exists st1; split; [by left|apply runs_ret]].
  exists st2. split; [by right|]. destruct after_output_keeps as (Hw2 & He2 & _).
  eapply runs_bind.
  - unfold recordUltrafixEscalationReview. eapply runs_bind; [apply runs_loadState; apply owns_s2|].
    lazy iota beta. rewrite Hw2, bool_decide_true, Hesc by done. simpl. apply runs_ret.
  - simpl. rewrite He2. unfold step_state. destruct (recorded_keeps (completedAction p) (nowMs e) st) as (_ & -> & _).
    destruct (escalation st); rewrite ?Hdone; apply runs_ret.
Qed.

(** Everything up to the decision. *)
Lemma runs_until_decision b s' :
  (forall st', (st' = st1 \/ st' = st2) -> runs (after_review e p st' o d) s2 b s') ->
  runs (continueUltrafixLoop e p) s b s'.
Proof.
  intros Hk. pose proof Howns as (Hs & Hw & Hc). unfold continueUltrafixLoop.
  eapply runs_bind; [apply runs_current|]. rewrite Hc, Z.eqb_refl. simpl.
  eapply runs_bind; [by apply runs_loadState|]. unfold state_epoch. rewrite Hactive, Hw; simpl.
  rewrite Z.eqb_refl. simpl.
  eapply runs_bind.
  { unfold recordAction. apply runs_updateOwned; [done|]. intros x. apply recorded_keeps. }
  fold (step_state e p st). simpl. rewrite Hlabel. simpl.
  pose proof (runs_collect e p (with_state (Some (stringify st1)) s) st1) as Hcol.
  destruct (after_output e p st1) as [o' st2'] eqn:Eo. destruct Hcol as [Hcol _].
  { apply owns_updated; [done|]. apply recorded_keeps. }
  eapply runs_bind; [exact Hcol|].
  destruct runs_escalation as (st' & Hst' & Hesc').
  unfold step_decision, step_output, step_final in Hesc', Hk, Hst'.
  rewrite Eo in Hesc', Hk, Hst'. simpl in Hesc', Hk, Hst'.
  eapply runs_bind; [exact Hesc'|]. simpl. by apply Hk.
Qed.

(** A continuation that may go on queues exactly the decided step: when the
    recorded state and the review output call for an action and nothing holds it
    back, the deferred record is cleared and one job for that action, this epoch
    and the next step number becomes pending. *)
Theorem continue_queues_decided_step next :
  action d = Some next -> ready (fst (evaluateReadiness e next)) = true -> queueError e = None ->
  jobs_cell s !! ((next, w, getNextStepNumber st1 next) : StepId) = None ->
  runs (continueUltrafixLoop e p) s
    (Result true (reason d) (Some next) (out_score o) None false [] None)
    (with_jobs (<[((next, w, getNextStepNumber st1 next) : StepId) := job_pending]> (jobs_cell s))
       (with_deferred None s2)).
Proof.
  intros Hd Hready Hq Hjob. apply runs_until_decision. intros st' Hst'.
  unfold after_review. rewrite Hd. destruct (evaluateReadiness e next) as [r ci]. simpl in Hready. rewrite Hready. simpl.
  unfold enqueueCurrentNextAction. destruct owns_s2 as (_ & _ & Hc2).
  eapply runs_bind.
  { apply runs_call. unfold CLEAR_DEFERRED_IF_CURRENT. rewrite Hc2, Z.eqb_refl. done. }
  assert (Hn : getNextStepNumber st' next = getNextStepNumber st1 next).
  { unfold getNextStepNumber. destruct Hst' as [->| ->]; [done|].
    by destruct after_output_keeps as (_ & _ & _ & ->). }
  simpl. rewrite Hn. set (id := (next, w, getNextStepNumber st1 next)) in *.
  eapply (runs_bind _ _ _ true); [|simpl; apply runs_ret].
  unfold enqueueNextStep. fold id. eapply runs_bind; [by apply runs_call|]. simpl. rewrite Hjob.
  eapply runs_bind; [apply runs_ret|]. simpl. rewrite Hq.
  eapply runs_bind; [apply runs_call; simpl; rewrite Hjob; done|]. apply runs_ret.
Qed.

(** A continuation that must stop reports success only for a complete, clean
    review at or above the goal: then the loop state and the deferred record are
    gone; otherwise the state is kept, inactive and marked failed with the reason. *)
Theorem continue_finishes_truthfully :
  action d = None ->
  let reached := bool_decide (completedAction p = review)
    && hasReviewReachedGoal (out_status o) (out_score o) (goal st) (out_partial o) in
  runs (continueUltrafixLoop e p) s
    (Result false (reason d) None (out_score o)
      (Some (if reached then outcome_goal_reached else outcome_cycles_exhausted)) false [] None)
    (if reached then with_deferred None (with_state None s2)
     else with_state (Some (stringify (set_completed st2 failed (reason d) (out_score o) (nowMs e)))) s2).
Proof.
  intros Hd reached. apply runs_until_decision. intros st' Hst'.
  unfold after_review. rewrite Hd. unfold finishUltrafixLoop. fold w.
  destruct after_output_keeps as (_ & He2 & Hg2 & _).
  destruct (recorded_keeps (completedAction p) (nowMs e) st) as (_ & He1 & Hg1).
  assert (Hg : goal st' = goal st) by (destruct Hst' as [->| ->]; unfold step_state in *; congruence).
  assert (Hx : match escalation st' with Some es => exhausted es | None => false end = false).
  { destruct Hst' as [->| ->]; unfold step_state in *; rewrite ?He2, He1; done. }
  rewrite Hg, Hx. fold reached. destruct owns_s2 as (Hs2 & Hw2 & Hc2).
  eapply (runs_bind _ _ _ true); [apply runs_lease; [done..|]|simpl; apply runs_ret].
  unfold finish_transition. eapply runs_bind; [apply runs_current|]. rewrite Hc2, Z.eqb_refl. simpl.
  eapply runs_bind; [by apply runs_updateOwned; [apply owns_s2|]|]. simpl.
  assert (Hce : default 0 (epoch_cell s) = w) by apply Howns.
  destruct reached; simpl.
  - eapply runs_bind; [apply runs_call; unfold CLEAR_STATE_IF_CURRENT, current_epoch; simpl; rewrite Hce, Z.eqb_refl; done|].
    simpl. eapply runs_bind; [apply runs_call; unfold CLEAR_DEFERRED_IF_CURRENT, current_epoch; simpl; rewrite Hce, Z.eqb_refl; done|].
    apply runs_ret.
  - apply runs_ret.
Qed.
End Undisturbed.
End Run.
