(* ===== verification/UltrafixResume.v ===== *)
(** * Resuming, taking over and recovering an Ultrafix loop

    Claiming a deferred step, putting an interrupted claim back, the candidate check
    of the sweep and the hand-off of a stranded loop (src/jobs/ultrafixDeferredClaim.ts,
    ultrafixResumeClaim.ts, ultrafixStrandedLoopRearm.ts), with their crash safety,
    and the takeover of automatic work by a manual command. [digest] is the SHA-256
    of a serialized state. *)

From S2P Require Import Prelude JsString Json Interleave UltrafixLoop UltrafixLoopFacts UltrafixStore UltrafixContinue UltrafixRun.

Open Scope Z_scope.
Open Scope list_scope.

Inductive DeferredStepClaim := Claimed (d : UltrafixDeferredContinuation) | ClaimNone | ClaimLost | Contended.

Definition DEFERRED_CLAIM_RETRY_REASON : string := "deferred_claim_pending".
Definition REARM_HANDOFF_RETRY_REASON : string := "rearm_handoff_pending".
Definition MAX_CLAIM_ATTEMPTS : nat := 3.

Section Resume.
Context {raw : Type} `{!EqDecision raw}.
Context `{!Serial raw UltrafixLoopState} `{!Serial raw UltrafixDeferredContinuation}.
Context `{!Serial raw UltrafixRearmRetry} `{!Serial raw UltrafixCiWaitRecord}.
Variable digest : raw -> string.

Abbreviation M := (Interleave.M (UltrafixStore.pr_store (raw := raw))).
Abbreviation pr_store := (UltrafixStore.pr_store (raw := raw)).
Abbreviation world := (Interleave.world (UltrafixStore.pr_store (raw := raw))).

(** ** Operations under the resume claim of [token] *)

Definition confirm (token : string) : M bool := call (renewResumeClaim token).

Definition saveRetry (token : string) (retry : UltrafixRearmRetry) : M bool :=
  r ← call (SAVE_REARM_RETRY_UNLESS_CLAIM_TAKEN token (stringify retry) None);
  mret (match (r : RearmRetrySaveOutcome) with saved => true | _ => false end).

Fixpoint claim_loop (attempts : nat) (token : string) (now : Z) : M DeferredStepClaim :=
  match attempts with
  | O => mret Contended
  | S attempts =>
      pending ← loadDeferredContinuationSnapshot;
      match pending with
      | None => mret ClaimNone
      | Some (r, d) =>
          snapshot ← loadStateSnapshot;
          e ← getUltrafixAutomaticWorkEpoch;
          ok ← saveRetry token (RearmRetry e DEFERRED_CLAIM_RETRY_REASON now None
                 (match snapshot with Some (sr, _) => Some (ClaimedStep d (digest sr)) | None => None end) None);
          if negb ok then mret ClaimLost
          else
            taken ← call (DELETE_IF_EQUALS r);
            if (taken : bool) then mret (Claimed d) else claim_loop attempts token now
      end
  end.

Definition claimDeferredStep (token : string) (now : Z) : M DeferredStepClaim :=
  claim_loop MAX_CLAIM_ATTEMPTS token now.

Definition restoreInterruptedClaim (token : string) : M bool :=
  retry ← loadRearmRetry;
  match retry ≫= r_claimedStep with
  | None => mret false
  | Some step =>
      snapshot ← loadStateSnapshot;
      match snapshot with
      | None => mret false
      | Some (sr, _) =>
          if negb (bool_decide (digest sr = c_stateDigest step)) then mret false
          else
            held ← confirm token;
            if negb held then mret false
            else call (RESTORE_DEFERRED_IF_UNCHANGED (deferred_epoch (c_deferred step)) sr
                         (stringify (c_deferred step)))
      end
  end.

(** The claimed step of an obligation while it may be the only copy of the step. *)
Definition findPendingClaimedStep (retryRaw : option raw) : M (option UltrafixClaimedStep) :=
  retry ← parse_or_throw (A := UltrafixRearmRetry) retryRaw;
  match retry ≫= r_claimedStep with
  | None => mret None
  | Some step =>
      d ← loadDeferredContinuation;
      match d with
      | Some _ => mret None
      | None =>
          e ← getUltrafixAutomaticWorkEpoch;
          if negb ((e : Z) =? deferred_epoch (c_deferred step)) then mret None
          else
            snapshot ← loadStateSnapshot;
            mret (match snapshot with
                  | Some (sr, _) => if bool_decide (digest sr = c_stateDigest step) then Some step else None
                  | None => None
                  end)
      end
  end.

(** Whether there is anything to resume; [honour] is the time when backoff counts. *)
Definition hasUltrafixResumeCandidate (honour : option Z) : M bool :=
  d ← loadDeferredContinuation;
  match d with
  | Some _ => mret true
  | None =>
      st ← loadState;
      match st with
      | None => mret false
      | Some st =>
          match evaluateStrandedLoopRearm (Some st) with
          | Skip => mret false
          | _ =>
              e ← getUltrafixAutomaticWorkEpoch;
              if negb (state_epoch st =? (e : Z)) then mret true
              else
                retry ← loadRearmRetry;
                mret (match retry with
                      | None => false
                      | Some r => match honour, r_notBefore r with
                                  | Some now, Some nb => nb <=? now
                                  | _, _ => true
                                  end
                      end)
          end
      end
  end.

Inductive Ownership := Owned (st : UltrafixLoopState) | OwnershipLost | StateChanged.

(** Hand the snapshot's loop to a fresh epoch; the obligation is recorded first. *)
Definition takeOwnership (e : Env) (token : string) (snapshot : raw * UltrafixLoopState) (w : Z) : M Ownership :=
  withUltrafixLabelTransition e (
    held ← confirm token;
    if negb held then mret OwnershipLost
    else
      ok ← saveRetry token (RearmRetry w REARM_HANDOFF_RETRY_REASON (nowMs e) None None None);
      if negb ok then mret OwnershipLost
      else
        st ← reserveStateWorkEpoch snapshot w;
        mret (match (st : option UltrafixLoopState) with Some st => Owned st | None => StateChanged end)).

(** ** Claiming a step never loses it *)

(** The retry obligation carries the claimed step [c]. *)
Definition carries_step (s : pr_store) (c : UltrafixClaimedStep) : Prop :=
  exists r retry, rearm_cell s = Some r /\ parse r = Some retry /\ r_claimedStep retry = Some c.

(** Another process keeps the step an obligation carries. *)
Definition keeps_claim (g : pr_store -> pr_store) : Prop := forall s c, carries_step s c -> carries_step (g s) c.

(** The failure notification of a step is such a process. *)
Lemma record_failed_keeps_claim w old new old_retry new_retry (retry' : UltrafixRearmRetry) :
  parse new_retry = Some retry' ->
  (forall r retry, old_retry = Some r -> parse r = Some retry -> r_claimedStep retry' = r_claimedStep retry) ->
  keeps_claim (fun s => snd (RECORD_FAILED_STEP w old new old_retry new_retry s)).
Proof.
  intros Hp Hc s c. unfold RECORD_FAILED_STEP. repeat case_bool; simpl; try done. intros (r & retry & Hr & Hpr & Hcl).
  apply negb_false_iff, bool_decide_eq_true in E1. exists new_retry, retry'.
  split_and!; [done..|]. rewrite <- Hcl. apply (Hc r); congruence.
Qed.

(** What the own steps [h] of a claim allow the next one to do: the record [d] is
    removed only three calls after the loop's state was read, and the obligation
    then carries [d] with the digest of that state, if there was one. *)
Definition step_kept (h : list (pr_store * pr_store)) (s s' : pr_store) : Prop :=
  forall r d, deferred_cell s = Some r -> parse r = Some d -> deferred_cell s' = deferred_cell s
    \/ exists h0 x e o, h = h0 ++ [(x, x); e; o]
       /\ match state_cell x with Some sr => carries_step s' (ClaimedStep d (digest sr)) | None => True end.

(** Programs whose assertions speak of the own steps so far *)
Definition htriple (P : list (pr_store * pr_store) -> pr_store -> Prop) {A} (m : M A) (Q : A -> list (pr_store * pr_store) -> pr_store -> Prop) : Prop :=
  forall w h, Forall keeps_claim (others w) -> P h (store w) ->
    exists l, trace (snd (m w)) = trace w ++ l /\ (forall l1 s s' l2, l = l1 ++ (s, s') :: l2 -> step_kept (h ++ l1) s s')
      /\ Forall keeps_claim (others (snd (m w)))
      /\ match fst (m w) with Ok a => Q a (h ++ l) (store (snd (m w))) | Throw _ => True end.

Lemma htriple_ret P {A} (a : A) (Q : A -> _ -> pr_store -> Prop) : (forall h s, P h s -> Q a h s) -> htriple P (mret a) Q.
Proof. intros H w h Hg HP. exists []. rewrite !app_nil_r. split_and!; [done|by intros []|done|by apply H]. Qed.
Lemma htriple_throw P {A} e (Q : A -> _ -> pr_store -> Prop) : htriple P (throw e) Q.
Proof. intros w h Hg HP. exists []. rewrite !app_nil_r. split_and!; [done|by intros []|done|done]. Qed.
Lemma htriple_pure (phi : Prop) P {A} (m : M A) Q : (phi -> htriple P m Q) -> htriple (fun h s => P h s /\ phi) m Q.
Proof. intros H w h Hg [HP Hphi]. by apply H. Qed.
Lemma htriple_bind P {A B} (m : M A) (f : A -> M B) Q R : htriple P m Q -> (forall a, htriple (Q a) (f a) R) -> htriple P (m ≫= f) R.
Proof.
  intros Hm Hf w h Hg HP. destruct (Hm w h Hg HP) as (l & Hl & HI & Hg' & HQ). unfold mbind, M_bind.
  destruct (m w) as [[a|e] w']; simpl in *; [|by exists l]. destruct (Hf a w' (h ++ l) Hg' HQ) as (l' & Hl' & HI' & Hg'' & HR). exists (l ++ l').
  rewrite (app_assoc h l l'). split_and!; [by rewrite Hl', Hl, app_assoc| |done|done]. intros l1 s s' l2 E.
  apply app_eq_inv in E as [(k & -> & E)|(k & -> & E)]; [|by rewrite app_assoc; eapply HI'].
  destruct k as [|ss k]; simpl in E; [specialize (HI' [] s s' l2 (eq_sym E)); by rewrite !app_nil_r in HI'|].
  injection E as <- _. by eapply HI.
Qed.
Lemma htriple_call (P : _ -> pr_store -> Prop) {A} (f : pr_store -> A * pr_store) (Q : A -> _ -> pr_store -> Prop) :
  (forall g h s, keeps_claim g -> P h s -> P h (g s)) ->
  (forall h s, P h s -> step_kept h s (snd (f s)) /\ Q (fst (f s)) (h ++ [(s, snd (f s))]) (snd (f s))) -> htriple P (call f) Q.
Proof.
  intros Hst Hf w h Hg HP. unfold call. set (s := match others w with g :: _ => g (store w) | [] => store w end).
  assert (HPs : P h s) by (unfold s; destruct (others w); [done|inversion Hg; subst; auto]).
  destruct (Hf h s HPs) as [HI HQ]. destruct (f s) as [a s']. simpl in *. exists [(s, s')]. split_and!; [done| |by destruct (others w); [|inversion Hg]|done].
  intros l1 x x' l2 E. destruct l1 as [|y l1]; [injection E as <- <- <-; by rewrite app_nil_r|]. by destruct l1.
Qed.
Lemma htriple_read (P : _ -> pr_store -> Prop) {A} (f : pr_store -> A) (Q : A -> _ -> pr_store -> Prop) :
  (forall g h s, keeps_claim g -> P h s -> P h (g s)) -> (forall h s, P h s -> Q (f s) (h ++ [(s, s)]) s) -> htriple P (call (fun s => (f s, s))) Q.
Proof. intros Hst H. apply htriple_call; [done|]. intros h s HP. split; [by left|by apply H]. Qed.
Lemma htriple_parse P {A} `{!Serial raw A} r (Q : option A -> _ -> pr_store -> Prop) :
  (forall h s, r = None -> P h s -> Q None h s) -> (forall h s x a, r = Some x -> parse x = Some a -> P h s -> Q (Some a) h s) ->
  htriple P (parse_or_throw r) Q.
Proof.
  intros H1 H2. unfold parse_or_throw. destruct r as [x|]; [|apply htriple_ret; auto].
  destruct (parse x) eqn:E; [apply htriple_ret; eauto|apply htriple_throw].
Qed.

Abbreviation anything := (fun (_ : list (pr_store * pr_store)) (_ : pr_store) => True).
(** [n] calls ago, the state read was [snapshot]. *)
Definition read_ago (n : nat) (snapshot : option (raw * UltrafixLoopState)) (h : list (pr_store * pr_store)) : Prop :=
  exists h0 x h1, h = h0 ++ (x, x) :: h1 /\ length h1 = n /\ state_cell x = fst <$> snapshot.
Lemma read_ago_next n snapshot h ss : read_ago n snapshot h -> read_ago (S n) snapshot (h ++ [ss]).
Proof.
  intros (h0 & x & h1 & -> & <- & Hx). exists h0, x, (h1 ++ [ss]). rewrite length_app, Nat.add_1_r. split_and!; [|done..].
  by rewrite <- app_assoc.
Qed.

Lemma deferred_read : htriple anything loadDeferredContinuationSnapshot
  (fun pending _ _ => match pending with Some (r, d) => parse r = Some d | None => True end).
Proof.
  unfold loadDeferredContinuationSnapshot. eapply (htriple_bind _ _ _ (fun _ => anything)); [by apply htriple_read|]. intros r.
  eapply (htriple_bind _ _ _ (fun d _ _ => match r, d with Some x, Some d => parse x = Some d | _, _ => True end)).
  - apply htriple_parse; [by intros h s ->|by intros h s x a -> Hx _].
  - intros d. apply htriple_ret. by destruct r, d.
Qed.
Lemma state_read : htriple anything loadStateSnapshot (fun snapshot h _ => read_ago 0 snapshot h).
Proof.
  unfold loadStateSnapshot. eapply (htriple_bind _ _ _ (fun r h _ => exists h0 x, h = h0 ++ [(x, x)] /\ state_cell x = r)).
  { apply htriple_read; [done|]. intros h s _. by exists h, s. }
  intros r. eapply (htriple_bind _ _ _ (fun st h _ => (exists h0 x, h = h0 ++ [(x, x)] /\ state_cell x = r) /\ (r = None <-> st = None))).
  - apply htriple_parse; [by intros h s -> HP|by intros h s x a -> Hx HP].
  - intros st. apply htriple_ret. intros h s [(h0 & x & -> & Hx) Hst]. exists h0, x, []. split_and!; [done..|]. rewrite Hx.
    destruct r, st; try done; exfalso; naive_solver.
Qed.
Lemma step_saved token retry snapshot d :
  r_claimedStep retry = (match snapshot with Some (sr, _) => Some (ClaimedStep d (digest sr)) | None => None end) ->
  htriple (fun h _ => read_ago 1 snapshot h) (saveRetry token retry)
    (fun ok h s => read_ago 2 snapshot h /\ (ok = true -> match snapshot with Some (sr, _) => carries_step s (ClaimedStep d (digest sr)) | None => True end)).
Proof.
  intros Hc. unfold saveRetry. eapply (htriple_bind _ _ _ (fun (o : RearmRetrySaveOutcome) h s => read_ago 2 snapshot h
    /\ (o = saved -> match snapshot with Some (sr, _) => carries_step s (ClaimedStep d (digest sr)) | None => True end))).
  - apply htriple_call; [done|]. intros h s HP. pose proof (fun s' => read_ago_next _ _ _ (s, s') HP) as Hn. unfold SAVE_REARM_RETRY_UNLESS_CLAIM_TAKEN.
    repeat case_bool; simpl; (split; [by left|split; [apply Hn|]]); try done.
    all: intros _; destruct snapshot as [[sr st]|]; [|done]; exists (stringify retry), retry; by rewrite parse_stringify.
  - intros o. apply htriple_ret. intros h s [HP Ho]. split; [done|]. intros Hok. apply Ho. by destruct o.
Qed.
Lemma step_removed r d snapshot : parse r = Some d ->
  htriple (fun h s => read_ago 2 snapshot h /\ match snapshot with Some (sr, _) => carries_step s (ClaimedStep d (digest sr)) | None => True end)
    (call (DELETE_IF_EQUALS r)) (fun _ => anything).
Proof.
  intros Hrd. apply htriple_call.
  { intros g h s Hg [H1 H2]. split; [done|]. destruct snapshot as [[sr st]|]; [by apply Hg|done]. }
  intros h s [(h0 & x & h1 & -> & Hl & Hx) Hn]. split; [|done]. unfold DELETE_IF_EQUALS. case_bool; simpl; [|by left].
  apply bool_decide_eq_true in E. intros r' d' Hr' Hd'. right. assert (d' = d) as -> by congruence.
  destruct h1 as [|e [|o [|]]]; try done. exists h0, x, e, o. split; [done|]. rewrite Hx. by destruct snapshot as [[sr st]|].
Qed.
Lemma claim_loop_kept attempts token now : htriple anything (claim_loop attempts token now) (fun _ => anything).
Proof.
  induction attempts as [|n IH]; simpl; [by apply htriple_ret|].
  eapply htriple_bind; [apply deferred_read|]. intros [[r d]|]; [|by apply htriple_ret].
  eapply (htriple_bind _ _ _ (fun snapshot h _ => read_ago 0 snapshot h /\ parse r = Some d)).
  { intros w h Hg Hrd. destruct (state_read w h Hg I) as (l & H1 & H2 & H3 & H4). exists l. split_and!; [done..|]. by destruct (fst _). }
  intros snapshot. eapply (htriple_bind _ _ _ (fun _ h _ => read_ago 1 snapshot h /\ parse r = Some d)).
  { apply htriple_read; [done|]. intros h s [H1 H2]. split; [by apply read_ago_next|done]. }
  intros e. apply (htriple_pure _ (fun h _ => read_ago 1 snapshot h)). intros Hrd. eapply htriple_bind; [by apply (step_saved _ _ snapshot d)|].
  intros [|]; simpl; [|by apply htriple_ret]. eapply (htriple_bind _ _ _ (fun _ => anything)); [|intros [|]; [by apply htriple_ret|apply IH]].
  intros w h Hg [H1 H2]. apply (step_removed r d snapshot Hrd w h Hg). split; [done|by apply H2].
Qed.

(** C22. Claiming a deferred step of a loop is crash safe: while other processes keep the
    step an obligation carries, each own step of the claim leaves the deferred record
    alone, or removes it when the obligation carries exactly the step with the digest of
    the loop state that was read three calls before, so that a process lost at any point
    leaves it recoverable. Only where that read found no loop at all does the obligation
    carry no step: what is dropped then belongs to no loop. *)
Theorem claim_never_loses_step token now w : Forall keeps_claim (others w) ->
  exists l, trace (snd (claimDeferredStep token now w)) = trace w ++ l
  /\ forall l1 s s' l2 r d, l = l1 ++ (s, s') :: l2 -> deferred_cell s = Some r -> parse r = Some d ->
     deferred_cell s' = deferred_cell s
     \/ exists l0 x e o, l1 = l0 ++ [(x, x); e; o]
        /\ match state_cell x with Some sr => carries_step s' (ClaimedStep d (digest sr)) | None => True end.
Proof.
  intros Hg. destruct (claim_loop_kept MAX_CLAIM_ATTEMPTS token now w [] Hg I) as (l & Hl & HI & _).
  exists l. split; [done|]. intros l1 s s' l2 r d Hin. exact (HI l1 s s' l2 Hin r d).
Qed.

(** ** A claimed step is put back after a crash *)

Lemma runs_deferred_snapshot s d :
  deferred_cell s = Some (stringify d) -> runs loadDeferredContinuationSnapshot s (Some (stringify d, d)) s.
Proof.
  intros H. eapply runs_bind; [by apply runs_call|]. rewrite H. eapply runs_bind; [apply runs_parse|apply runs_ret].
Qed.

Lemma runs_state_snapshot s (st : UltrafixLoopState) :
  state_cell s = Some (stringify st) -> runs loadStateSnapshot s (Some (stringify st, st)) s.
Proof.
  intros H. eapply runs_bind; [by apply runs_call|]. rewrite H. eapply runs_bind; [apply runs_parse|apply runs_ret].
Qed.

Lemma runs_confirm s token : claim_cell s = Some token -> runs (confirm token) s true s.
Proof. intros H. apply runs_call. unfold renewResumeClaim. by rewrite H, bool_decide_true. Qed.

Lemma runs_saveRetry s token retry :
  claim_cell s = Some token -> runs (saveRetry token retry) s true (with_rearm (Some (stringify retry)) s).
Proof.
  intros H. unfold saveRetry. eapply (runs_bind _ _ _ saved); [|apply (runs_ret true)]. apply runs_call.
  unfold SAVE_REARM_RETRY_UNLESS_CLAIM_TAKEN. by rewrite H, bool_decide_true.
Qed.

(** The obligation recorded by a claim. *)
Definition claim_obligation (s : pr_store) (d : UltrafixDeferredContinuation) (st : UltrafixLoopState) (now : Z) :=
  RearmRetry (current_epoch s) DEFERRED_CLAIM_RETRY_REASON now None
    (Some (ClaimedStep d (digest (stringify st)))) None.

(** Interrupted claims round-trip: claiming a step removes its record, and when
    the claiming process is lost, the next holder of the resume claim puts back
    exactly the record that was there, as long as the loop state and the epoch are
    those it was claimed against. *)
Theorem interrupted_claim_restored token token' now s d (st : UltrafixLoopState) :
  deferred_cell s = Some (stringify d) -> state_cell s = Some (stringify st) ->
  claim_cell s = Some token -> current_epoch s = deferred_epoch d ->
  exists s1,
    runs (claimDeferredStep token now) s (Claimed d) s1 /\ deferred_cell s1 = None
    /\ runs (restoreInterruptedClaim token') (with_claim (Some token') s1) true
         (with_claim (Some token') (with_deferred (deferred_cell s) s1)).
Proof.
  intros Hd Hs Hc He. exists (with_deferred None (with_rearm (Some (stringify (claim_obligation s d st now))) s)).
  split_and!; [|done|].
  - unfold claimDeferredStep. simpl. eapply runs_bind; [by apply runs_deferred_snapshot|].
    eapply runs_bind; [by apply runs_state_snapshot|]. eapply runs_bind; [by apply runs_call|].
    eapply runs_bind; [by apply runs_saveRetry|]. simpl. eapply (runs_bind _ _ _ true); [|apply runs_ret].
    apply runs_call. unfold DELETE_IF_EQUALS. simpl. by rewrite Hd, bool_decide_true.
  - unfold restoreInterruptedClaim. eapply runs_bind.
    { unfold loadRearmRetry. eapply runs_bind; [by apply runs_call|]. apply runs_parse. }
    simpl. eapply runs_bind; [by apply runs_state_snapshot|]. simpl. rewrite bool_decide_true by done. simpl.
    eapply runs_bind; [by apply runs_confirm|]. simpl. apply runs_call.
    unfold RESTORE_DEFERRED_IF_UNCHANGED, current_epoch in *. simpl.
    by rewrite He, Z.eqb_refl, bool_decide_true, Hd.
Qed.

(** ** The hand-off of a stranded loop *)

(** What the sweep looks for: a deferred record, or an active loop that is not owned
    by the current epoch or that an obligation names. *)
Definition resume_candidate (s : pr_store) : Prop :=
  (exists r d, deferred_cell s = Some r /\ parse (A := UltrafixDeferredContinuation) r = Some d)
  \/ (deferred_cell s = None /\ exists r st, state_cell s = Some r /\ parse r = Some st
      /\ evaluateStrandedLoopRearm (Some st) <> Skip
      /\ (state_epoch st <> current_epoch s
          \/ exists x retry, rearm_cell s = Some x /\ parse (A := UltrafixRearmRetry) x = Some retry)).

(** The candidate check finds exactly that. *)
Lemma candidate_check_finds s : resume_candidate s -> runs (hasUltrafixResumeCandidate None) s true s.
Proof.
  unfold hasUltrafixResumeCandidate. intros [(r & d & Hd & Hp)|(Hd & r & st & Hs & Hp & Hr & H)].
  - eapply runs_bind; [eapply runs_bind; [by apply runs_call|]|]; [rewrite Hd; simpl; rewrite Hp|]; apply runs_ret.
  - eapply runs_bind; [eapply runs_bind; [by apply runs_call|]; rewrite Hd; apply runs_ret|]. lazy iota beta.
    eapply runs_bind; [eapply runs_bind; [by apply runs_call|]; rewrite Hs; simpl; rewrite Hp; apply runs_ret|].
    lazy iota beta. destruct (evaluateStrandedLoopRearm (Some st)) eqn:E; [done| |].
    all: eapply runs_bind; [by apply runs_call|]; lazy beta.
    all: destruct (state_epoch st =? current_epoch s) eqn:Ee; zb; simpl; [|apply runs_ret].
    all: destruct H as [H|(x & retry & Hx & Hpx)]; [done|].
    all: eapply runs_bind; [eapply runs_bind; [by apply runs_call|]; rewrite Hx; simpl; rewrite Hpx; apply runs_ret|].
    all: apply runs_ret.
Qed.

Lemma evaluate_set_epoch st w : evaluateStrandedLoopRearm (Some (set_epoch st w)) = evaluateStrandedLoopRearm (Some st).
Proof. by destruct st. Qed.

(** A stored obligation that parses. *)
Definition has_obligation (s : pr_store) : Prop :=
  exists x retry, rearm_cell s = Some x /\ parse (A := UltrafixRearmRetry) x = Some retry.

Definition keeps_obligation (g : pr_store -> pr_store) : Prop := forall s, has_obligation s -> has_obligation (g s).

Definition stays_candidate (s s' : pr_store) : Prop := resume_candidate s -> resume_candidate s'.

Lemma save_stays_candidate token retry s :
  stays_candidate s (snd (SAVE_REARM_RETRY_UNLESS_CLAIM_TAKEN token (stringify (A := UltrafixRearmRetry) retry) None s)).
Proof.
  unfold SAVE_REARM_RETRY_UNLESS_CLAIM_TAKEN. case_bool; simpl; [by intros H|].
  intros [H|(Hd & r & st & Hs & Hp & Hr & H)]; [by left|]. right. split; [done|]. exists r, st.
  split_and!; [done..|]. right. exists (stringify retry), retry. by rewrite parse_stringify.
Qed.

Lemma reserve_stays_candidate s w r (st : UltrafixLoopState) :
  has_obligation s -> evaluateStrandedLoopRearm (Some st) <> Skip ->
  stays_candidate s (snd (RESERVE_EPOCH_AND_REPLACE_STATE w r (stringify (set_epoch st (w + 1))) s)).
Proof.
  intros (x & retry & Hx & Hp) Hr Hc. unfold RESERVE_EPOCH_AND_REPLACE_STATE. repeat case_bool; simpl; try done.
  right. split; [done|]. exists (stringify (set_epoch st (w + 1))), (set_epoch st (w + 1)).
  rewrite parse_stringify, evaluate_set_epoch. split_and!; [done..|]. right. by exists x, retry.
Qed.

Lemma takeOwnership_triple e token r (st : UltrafixLoopState) w :
  evaluateStrandedLoopRearm (Some st) <> Skip ->
  triple keeps_obligation stays_candidate (fun _ => True) (takeOwnership e token (r, st) w) (fun _ _ => True).
Proof.
  intros Hr. unfold takeOwnership, withUltrafixLabelTransition. case_bool; [apply triple_throw|].
  eapply (triple_bind _ _ _ _ _ (fun _ _ => True)); [|intros a; case_bool; [by apply triple_ret|apply triple_throw]].
  eapply (triple_bind _ _ _ _ _ (fun _ _ => True)).
  { apply triple_call; [done|]. intros s _. split; [by intros H|done]. }
  intros [|]; simpl; [|by apply triple_ret].
  eapply (triple_bind _ _ _ _ _ (fun ok s => ok = true -> has_obligation s)).
  - unfold saveRetry. eapply (triple_bind _ _ _ _ _ (fun o s => o = saved -> has_obligation s)).
    + apply triple_call; [done|]. intros s _. split; [apply save_stays_candidate|].
      unfold SAVE_REARM_RETRY_UNLESS_CLAIM_TAKEN. case_bool; simpl; [done|]. intros _.
      eexists _, _. by rewrite parse_stringify.
    + intros o. apply triple_ret. intros s Ho Hok. apply Ho. by destruct o.
  - intros [|]; simpl; [|by apply triple_ret].
    eapply (triple_bind _ _ _ _ _ (fun _ _ => True)); [|intros a; by apply triple_ret].
    eapply (triple_bind _ _ _ _ _ (fun _ _ => True)); [|intros a; by apply triple_ret].
    apply triple_call; [intros g s Hkeep H _; by apply Hkeep, H|]. intros s H. split; [|done].
    by apply reserve_stays_candidate; [apply H|].
Qed.

(** Handing a stranded loop to a fresh epoch is crash safe: while other processes
    keep a recorded obligation, after every own step of the hand-off the pull request
    is still found by the candidate check of the sweep, although the epoch moves and
    the deferred record is dropped on the way. *)
Theorem handoff_stays_resumable e token r (st : UltrafixLoopState) cur w :
  Forall keeps_obligation (others w) -> evaluateStrandedLoopRearm (Some st) <> Skip ->
  exists l, trace (snd (takeOwnership e token (r, st) cur w)) = trace w ++ l
  /\ forall s s', (s, s') ∈ l -> resume_candidate s -> runs (hasUltrafixResumeCandidate None) s' true s'.
Proof.
  intros Hg Hr. destruct (takeOwnership_triple e token r st cur Hr w Hg I) as (l & Hl & HI & _).
  exists l. split; [done|]. intros s s' Hin Hc. apply candidate_check_finds.
  rewrite Forall_forall in HI. exact (HI (s, s') Hin Hc).
Qed.

(** ** Manual takeover *)

(** Epochs count up from 0 and no stored state is ahead of the current one. *)
Definition epochs_ok (s : pr_store) : Prop :=
  0 <= current_epoch s
  /\ forall r st, state_cell s = Some r -> parse (A := UltrafixLoopState) r = Some st -> state_epoch st <= current_epoch s.

(** A manual command fences automatic work exactly once: its first delivery moves
    to a new epoch, leaves no automatic work, and reports whether there was any; a
    redelivery of the same comment and revision reports the same answer and changes
    nothing, whatever happened in between. *)
Theorem takeover_once comment s s2 :
  epochs_ok s -> takeover_cells s !! comment = None ->
  let '((epoch, had), s1) := INVALIDATE_AUTOMATIC_WORK_ONCE comment s in
  epoch = current_epoch s + 1 /\ current_epoch s1 = epoch /\ had = had_automatic_work s
  /\ had_automatic_work s1 = false /\ epochs_ok s1 /\ state_cell s1 = state_cell s
  /\ (takeover_cells s2 !! comment = takeover_cells s1 !! comment ->
      INVALIDATE_AUTOMATIC_WORK_ONCE comment s2 = ((epoch, had), s2)).
Proof.
  intros [H0 Hst] Hc. unfold INVALIDATE_AUTOMATIC_WORK_ONCE. rewrite Hc. simpl.
  set (s1 := with_takeovers _ _). assert (Hcur : current_epoch s1 = current_epoch s + 1) by done.
  assert (Hs1 : state_cell s1 = state_cell s) by done.
  split_and!; [done..| |split; [lia|]|done|].
  - unfold had_automatic_work. rewrite Hs1. change (deferred_cell s1) with (@None raw). lazy iota.
    destruct (state_cell s) as [r|] eqn:E; [|done].
    destruct (parse r) as [st|] eqn:Ep; [|apply Z.eqb_neq; lia].
    specialize (Hst r st eq_refl Ep). destruct (active st); simpl; [|done]. apply Z.eqb_neq. lia.
  - intros r st Hr Hp. rewrite Hs1 in Hr. specialize (Hst r st Hr Hp). lia.
  - rewrite lookup_insert_eq. by intros ->.
Qed.
End Resume.

(** ** Concrete runs

    A concrete serialization (a tagged copy of the record), an environment with
    green checks, and the theorems of the loop applied to them. *)

(** ** A codec *)

#[export] Instance UltrafixCommandMeta_eq_dec : EqDecision UltrafixCommandMeta.
Proof. solve_decision. Defined.
#[export] Instance UltrafixDeferredContinuation_eq_dec : EqDecision UltrafixDeferredContinuation.
Proof. solve_decision. Defined.
#[export] Instance UltrafixClaimedStep_eq_dec : EqDecision UltrafixClaimedStep.
Proof. solve_decision. Defined.
#[export] Instance UltrafixRearmRetry_eq_dec : EqDecision UltrafixRearmRetry.
Proof. solve_decision. Defined.
#[export] Instance UltrafixCiWaitRecord_eq_dec : EqDecision UltrafixCiWaitRecord.
Proof. solve_decision. Defined.

Inductive text :=
  | text_state (st : UltrafixLoopState)
  | text_deferred (d : UltrafixDeferredContinuation)
  | text_retry (r : UltrafixRearmRetry)
  | text_wait (w : UltrafixCiWaitRecord).
#[export] Instance text_eq_dec : EqDecision text.
Proof. solve_decision. Defined.

#[export] Instance Serial_state : Serial text UltrafixLoopState.
Proof. refine {| stringify := text_state; parse t := match t with text_state x => Some x | _ => None end |}. done. Defined.
#[export] Instance Serial_deferred : Serial text UltrafixDeferredContinuation.
Proof. refine {| stringify := text_deferred; parse t := match t with text_deferred x => Some x | _ => None end |}. done. Defined.
#[export] Instance Serial_retry : Serial text UltrafixRearmRetry.
Proof. refine {| stringify := text_retry; parse t := match t with text_retry x => Some x | _ => None end |}. done. Defined.
#[export] Instance Serial_wait : Serial text UltrafixCiWaitRecord.
Proof. refine {| stringify := text_wait; parse t := match t with text_wait x => Some x | _ => None end |}. done. Defined.

(** ** A loop of epoch 3 that completed a fix *)

Definition demo_options : StartLoopOptions :=
  StartOptions "acme" "shop" 12 (Some 8%Q) (Some 2) None None (Some 3) None None None.
Definition demo_state : UltrafixLoopState := createDefaultState demo_options.
Definition demo_meta : UltrafixCommandMeta := Meta (Some 3) (Some 8) (Some 2) None None "".

Definition green : CheckRunDeps := Deps (Some (Ok (Some "abc"))) None (Some (fun _ => Ok true)).

Definition demo_env (score : Z) : Env := {|
  labelPresent := true; reviewFetch := Some (Output (Some score) valid_clean false, []);
  leaseTaken := true; leaseKept := true; escalationEnabled := false; resolveModel := fun _ => None;
  nowMs := 1000; checkRunDeps := green; followUpJobs := Ok false; pendingComments := Ok false;
  duplicateError := false; queueError := None; ciWaitTimeoutMs := 0; updateNotice := false; postNotice := None |}.

Definition demo_deferred : UltrafixDeferredContinuation := Deferred review 500 "checks_not_passing" None (Some demo_meta) (Some 3).

Definition demo_store (d : option text) : pr_store (raw := text) :=
  PrStore (Some 3) (Some (text_state demo_state)) d None None ∅ (Some "holder"%string) ∅.

Definition after (a : UltrafixAction) : ContinuationParams := Params a None (Some demo_meta).

Lemma demo_owns d : owns (demo_store d) demo_state 3.
Proof. by split_and!. Qed.

(** After a fix, a verifying review is queued. *)
Lemma continue_queues_decided_step_witness :
  action (step_decision (demo_env 5) (after fix_) demo_state) = Some review
  /\ runs (continueUltrafixLoop (demo_env 5) (after fix_)) (demo_store None)
       (Result true (reason (step_decision (demo_env 5) (after fix_) demo_state)) (Some review) None None false [] None)
       (with_jobs {[ ((review, 3, 1) : StepId) := job_pending ]}
         (with_deferred None (with_state (Some (text_state (step_final (demo_env 5) (after fix_) demo_state))) (demo_store None)))).
Proof.
  split; [by vm_compute|].
  exact (continue_queues_decided_step (demo_env 5) (after fix_) (demo_store None) demo_state (demo_owns None)
    eq_refl eq_refl eq_refl eq_refl review eq_refl eq_refl eq_refl eq_refl).
Defined.

(** A clean review with score 9 of 8 ends the loop as successful. *)
Lemma continue_finishes_truthfully_witness :
  runs (continueUltrafixLoop (demo_env 9) (after review)) (demo_store (Some (text_deferred demo_deferred)))
    (Result false (reason (step_decision (demo_env 9) (after review) demo_state)) None (Some 9)
      (Some outcome_goal_reached) false [] None)
    (with_deferred None (with_state None (demo_store None))).
Proof.
  exact (continue_finishes_truthfully (demo_env 9) (after review) (demo_store (Some (text_deferred demo_deferred)))
    demo_state (demo_owns _) eq_refl eq_refl eq_refl eq_refl eq_refl eq_refl eq_refl).
Defined.

(** The claim of [demo_deferred] while a step failure is recorded in between. *)
Definition demo_failure (s : pr_store (raw := text)) : pr_store (raw := text) :=
  snd (RECORD_FAILED_STEP 3 (text_state demo_state) (text_state (recordFailedStepInState demo_state))
    None (text_retry (RearmRetry 3 FAILED_STEP_RETRY_REASON 900 None None (Some 1))) s).

Definition demo_world (g : pr_store (raw := text) -> pr_store (raw := text)) : world (pr_store (raw := text)) :=
  World (demo_store (Some (text_deferred demo_deferred))) [id; g] [].

Lemma claim_never_loses_step_witness :
  fst (claimDeferredStep (fun _ => "digest"%string) "holder" 900 (demo_world demo_failure)) = Ok (Claimed demo_deferred)
  /\ exists l, trace (snd (claimDeferredStep (fun _ => "digest"%string) "holder" 900 (demo_world demo_failure))) = [] ++ l
  /\ forall l1 s s' l2 r d, l = l1 ++ (s, s') :: l2 -> deferred_cell s = Some r -> parse r = Some d ->
     deferred_cell s' = deferred_cell s
     \/ exists l0 x e o, l1 = l0 ++ [(x, x); e; o]
        /\ match state_cell x with Some sr => carries_step s' (ClaimedStep d "digest"%string) | None => True end.
Proof.
  split; [by vm_compute|]. apply (claim_never_loses_step (fun _ => "digest"%string) "holder" 900 (demo_world demo_failure)).
  apply Forall_cons. split; [by intros s c|]. apply Forall_singleton. by eapply record_failed_keeps_claim.
Defined.

Lemma interrupted_claim_restored_witness :
  exists s1, runs (claimDeferredStep (fun _ => "digest"%string) "holder" 900) (demo_store (Some (text_deferred demo_deferred)))
      (Claimed demo_deferred) s1
    /\ deferred_cell s1 = None
    /\ runs (restoreInterruptedClaim (fun _ => "digest"%string) "next") (with_claim (Some "next"%string) s1) true
         (with_claim (Some "next"%string) (with_deferred (Some (text_deferred demo_deferred)) s1)).
Proof.
  by apply (interrupted_claim_restored _ "holder" "next" 900 (demo_store (Some (text_deferred demo_deferred)))
    demo_deferred demo_state).
Defined.

(** A loop of epoch 3 after a manual command moved the epoch to 4. *)
Definition stranded_store : pr_store (raw := text) := with_epoch (Some 4) (demo_store None).

Lemma handoff_stays_resumable_witness :
  fst (takeOwnership (demo_env 5) "holder" (text_state demo_state, demo_state) 4 (World stranded_store [] []))
    = Ok (Owned (set_epoch demo_state 5))
  /\ exists l, trace (snd (takeOwnership (demo_env 5) "holder" (text_state demo_state, demo_state) 4
      (World stranded_store [] []))) = [] ++ l
  /\ forall s s', (s, s') ∈ l -> resume_candidate s -> runs (hasUltrafixResumeCandidate None) s' true s'.
Proof.
  split; [by vm_compute|].
  by apply (handoff_stays_resumable (demo_env 5) "holder" (text_state demo_state) demo_state 4 (World stranded_store [] [])).
Defined.

(** Delivered, then a new loop deferred a step, then delivered again. *)
Definition redelivery_store : pr_store (raw := text) :=
  with_deferred (Some (text_deferred demo_deferred))
    (snd (INVALIDATE_AUTOMATIC_WORK_ONCE (77, "r1"%string) (demo_store None))).

Lemma demo_epochs_ok : epochs_ok (demo_store None).
Proof. split; [done|]. intros r st Hr Hp. by simplify_eq/=. Qed.

Lemma takeover_once_witness :
  let '((epoch, had), s1) := INVALIDATE_AUTOMATIC_WORK_ONCE (77, "r1"%string) (demo_store None) in
  epoch = 4 /\ current_epoch s1 = epoch /\ had = had_automatic_work (demo_store None)
  /\ had_automatic_work s1 = false /\ epochs_ok s1 /\ state_cell s1 = state_cell (demo_store None)
  /\ (takeover_cells redelivery_store !! (77, "r1"%string) = takeover_cells s1 !! (77, "r1"%string) ->
      INVALIDATE_AUTOMATIC_WORK_ONCE (77, "r1"%string) redelivery_store = ((epoch, had), redelivery_store)).
Proof. exact (takeover_once (77, "r1"%string) (demo_store None) redelivery_store demo_epochs_ok eq_refl). Defined.

(** ** The pure decisions *)

Lemma failed_step_breaker_witness :
  0 <= getConsecutiveFailedSteps demo_state /\ (0 < 3)%nat
  /\ let s' := Nat.iter 3 recordFailedStepInState demo_state in
     getConsecutiveFailedSteps s' = 3 /\ evaluateStrandedLoopRearm (Some s') <> Rearm
     /\ getConsecutiveFailedSteps (recorded_action review 5 s') = 0.
Proof.
  split_and!; [done|lia|]. destruct (failed_step_breaker demo_state 3 review 5) as (H1 & H2 & H3); [done|lia|].
  split_and!; [done|apply H2; lia|done].
Defined.

Lemma rearm_within_budget_witness :
  evaluateStrandedLoopRearm (Some demo_state) = Rearm
  /\ let '(rc, fc) := getActionCounts demo_state in
     active demo_state = true /\ rc < maxCycles demo_state
     /\ (lastAction demo_state = Some fix_ \/ fc < maxCycles demo_state)
     /\ getConsecutiveFailedSteps demo_state <= MAX_FAILED_STEP_RECOVERIES
     /\ (forall x, finalScore demo_state = Some x -> (inject_Z x < goal demo_state)%Q).
Proof. split; [done|]. by apply (rearm_within_budget demo_state). Defined.

Definition demo_model : EscalationModel := Escalation "small" ["low"; "high"]%string (Some "low"%string) false.
Definition demo_escalation : UltrafixEscalationState :=
  EscalationState ["small"; "large"]%string 2 1 0 demo_model 0 (Some 4) 1 false.

Lemma advanceEscalation_progress_witness :
  let st' := advanceEscalation (fun _ => Some demo_model) 4 demo_escalation in
  bestScore st' = Some 4 /\ (0 <= modelIndex st')%nat
  /\ (modelIndex st' = 0%nat \/ (modelIndex st' < 2)%nat)
  /\ 0 <= stalledReviews st' < patience st' /\ 0 <= climbs st' <= 1
  /\ exhausted st' = false /\ models st' = models demo_escalation.
Proof. apply (advanceEscalation_progress (fun _ => Some demo_model) 4 demo_escalation); simpl; lia. Defined.

Definition demo_finding : finding_input := FindingInput "f1" 77 "Leak".

Lemma selected_finding_outcome_witness :
  exists x, findings (recorded_findings [] (recorded_action review 9
      (recorded_action fix_ 8 (selected_findings [demo_finding] demo_state)))) !! finding_key demo_finding = Some x
    /\ f_status x = resolved.
Proof. apply (selected_finding_outcome [demo_finding] [] 8 9 demo_state demo_finding). by left. Defined.
