(* ===== verification/SlashCommand.v ===== *)
(** * Slash commands

    packages/core/src/webhook/slashCommandParser.ts: the commands a pull request comment
    may start with and their arguments; the Ultrafix settings that fill in what a command
    leaves open (packages/core/src/config/configManagerUltrafix.ts) and the loop options
    [handleUltrafixCommand] (commentEventHandler.ts) makes of both. *)

From S2P Require Import Prelude JsString Json UltrafixLoop UltrafixStore.

Open Scope string_scope.
Open Scope Z_scope.

Inductive SlashCommandName := cmd_review | cmd_fix | cmd_merge | cmd_switch | cmd_use | cmd_ultrafix.
#[export] Instance SlashCommandName_eq_dec : EqDecision SlashCommandName.
Proof. solve_decision. Defined.

Definition command_text (c : SlashCommandName) : string :=
  match c with
  | cmd_review => "review" | cmd_fix => "fix" | cmd_merge => "merge" | cmd_switch => "switch" | cmd_use => "use" | cmd_ultrafix => "ultrafix"
  end.
Definition SLASH_COMMANDS : list SlashCommandName := [cmd_review; cmd_fix; cmd_merge; cmd_switch; cmd_use; cmd_ultrafix].
Definition command_of (text : string) : option SlashCommandName :=
  find (fun c => bool_decide (command_text c = text)) SLASH_COMMANDS.

Record ParsedSlashCommand := Parsed {
  command : SlashCommandName;
  args : list string;
  p_instructions : string;
}.
#[export] Instance ParsedSlashCommand_eq_dec : EqDecision ParsedSlashCommand.
Proof. solve_decision. Defined.

Definition carriage_return : ascii := char 13.
Definition slash : ascii := char 47.

(** The first line, and what follows its line feed. *)
Definition first_line (body : string) : string * option string :=
  match index_of newline body with
  | None => (body, None)
  | Some i => (take i body, Some (drop (S i) body))
  end.

Definition parseSlashCommand (body : option string) : option ParsedSlashCommand :=
  body ← truthy_string body;
  let '(rawFirstLine, rest) := first_line body in
  let firstLineTrimmed := trim rawFirstLine in
  if negb (starts_with (String slash "") firstLineTrimmed) then None
  else
    let after_slash := drop 1 firstLineTrimmed in
    let separatorOffset := find_index is_space after_slash in
    let commandText := match separatorOffset with None => after_slash | Some k => take k after_slash end in
    command ← command_of commandText;
    let argsStr := match separatorOffset with None => "" | Some k => trim (drop k after_slash) end in
    if includes_char carriage_return argsStr then None
    else Some (Parsed command (words argsStr) (match rest with None => "" | Some r => trim r end)).

(** ** What a command asks for *)

Inductive CommandMeta :=
  | review_meta (models : list string) (instructions : string)
  | fix_meta (commandLine bodyInstructions instructions : string)
  | merge_meta
  | switch_meta (models : list string) (instructions : string) (warning : option string)
  | use_meta (models : list string) (instructions : string) (warning : option string)
  | ultrafix_meta (meta : UltrafixCommandMeta) (warning : option string).

Definition normalizeModelLabel (label : string) : string := if starts_with "llm-" label then drop 4 label else label.

(** [/^-?\d+$/], then a safe integer in range. *)
Definition parsePositiveInt (value : string) (allowZero : bool) : option Z :=
  let n := match value with
           | String c rest => if bool_decide (c = char 45) then if all_digits rest then Some (- number_of_digits rest) else None
                              else if all_digits value then Some (number_of_digits value) else None
           | "" => None
           end in
  n ← n;
  if MAX_SAFE_INTEGER <? Z.abs n then None
  else if allowZero then if 0 <=? n then Some n else None
  else if 0 <? n then Some n else None.

Definition ULTRAFIX_KNOWN_KEYS : list string := ["goal"; "max"; "pause"; "model"].

Definition with_goal (g : Z) (m : UltrafixCommandMeta) : UltrafixCommandMeta :=
  Meta (m_workEpoch m) (Some g) (m_maxCycles m) (m_pauseSeconds m) (m_reviewModel m) (m_instructions m).
Definition quoted (s : string) : string := "'" ++ s ++ "'".

(** The updated options and the warning, if the value is invalid. *)
Definition applyUltrafixKeyValue (m : UltrafixCommandMeta) (key value : string) : UltrafixCommandMeta * option string :=
  if bool_decide (key = "goal") then
    match parsePositiveInt value false with
    | Some n => if (n <? 1) || (10 <? n) then (m, Some ("goal must be an integer between 1 and 10, got " ++ quoted value)) else (with_goal n m, None)
    | None => (m, Some ("goal must be an integer between 1 and 10, got " ++ quoted value))
    end
  else if bool_decide (key = "max") then
    match parsePositiveInt value false with
    | Some n => if n <? 1 then (m, Some ("max must be a positive integer, got " ++ quoted value))
                else (Meta (m_workEpoch m) (m_goal m) (Some n) (m_pauseSeconds m) (m_reviewModel m) (m_instructions m), None)
    | None => (m, Some ("max must be a positive integer, got " ++ quoted value))
    end
  else if bool_decide (key = "pause") then
    match parsePositiveInt value true with
    | Some n => (Meta (m_workEpoch m) (m_goal m) (m_maxCycles m) (Some n) (m_reviewModel m) (m_instructions m), None)
    | None => (m, Some ("pause must be a non-negative integer, got " ++ quoted value))
    end
  else if bool_decide (key = "model") then
    (Meta (m_workEpoch m) (m_goal m) (m_maxCycles m) (m_pauseSeconds m) (Some (normalizeModelLabel value)) (m_instructions m), None)
  else (m, None).

Record ArgState := Args { a_meta : UltrafixCommandMeta; positionalGoalSet : bool; warnings : list string }.

(** [warnings.push(w)] *)
Definition push (ws : list string) (w : string) : list string := (ws ++ [w])%list.

Definition ultrafix_arg (a : ArgState) (arg : string) : ArgState :=
  let m := a_meta a in
  match index_of (char 61) arg with
  | Some eqIdx =>
      let key := to_lower (take eqIdx arg) in
      let value := drop (S eqIdx) arg in
      if bool_decide (key ∈ ULTRAFIX_KNOWN_KEYS) then
        let '(m', err) := applyUltrafixKeyValue m key value in
        Args m' (positionalGoalSet a) ((warnings a ++ option_list err)%list)
      else Args m (positionalGoalSet a) (push (warnings a) ("Unknown key " ++ quoted key ++ " ignored"))
  | None =>
      if negb (positionalGoalSet a) && all_digits arg then
        let bad := Args m true (push (warnings a) ("Invalid positional goal " ++ quoted arg ++ "; must be an integer between 1 and 10")) in
        match parsePositiveInt arg false with
        | Some n =>
            if (n <? 1) || (10 <? n) then bad
            else match m_goal m with None => Args (with_goal n m) true (warnings a) | Some _ => Args m true (warnings a) end
        | None => bad
        end
      else Args m (positionalGoalSet a) (push (warnings a) ("Extra argument " ++ quoted arg ++ " ignored"))
  end.

Definition parseUltrafixArgs (parsed : ParsedSlashCommand) : UltrafixCommandMeta * option string :=
  let a := foldl ultrafix_arg (Args (Meta None None None None None (p_instructions parsed)) false []) (args parsed) in
  (a_meta a, match warnings a with [] => None | ws => Some (join "; " ws) end).

Definition single_model (name : string) (args : list string) : list string * option string :=
  (match args with [] => [] | a :: _ => [normalizeModelLabel a] end,
   match args with
   | _ :: _ :: _ => Some ("/" ++ name ++ " accepts only one model argument; extra arguments were ignored: " ++ join ", " (tail args))
   | _ => None
   end).

Definition buildCommandMeta (parsed : ParsedSlashCommand) : CommandMeta :=
  match command parsed with
  | cmd_review => review_meta (normalizeModelLabel <$> args parsed) (p_instructions parsed)
  | cmd_fix =>
      let commandLine := join " " (args parsed) in
      let parts := filter (fun s => s <> "") [commandLine; p_instructions parsed] in
      fix_meta commandLine (p_instructions parsed) (trim (join (String newline "") parts))
  | cmd_merge => merge_meta
  | cmd_switch => let '(models, warning) := single_model "switch" (args parsed) in switch_meta models (p_instructions parsed) warning
  | cmd_use => let '(models, warning) := single_model "use" (args parsed) in use_meta models (p_instructions parsed) warning
  | cmd_ultrafix => let '(m, warning) := parseUltrafixArgs parsed in ultrafix_meta m warning
  end.

(** ** Settings

    What the store holds under each key, if anything; the save functions take any number. *)

Definition DEFAULT_ULTRAFIX_RATING_GOAL : Q := 7.
Definition DEFAULT_ULTRAFIX_MAX_CYCLES : Z := 5.
Definition DEFAULT_ULTRAFIX_PAUSE_SECONDS : Z := 60.

Definition loadUltrafixRatingGoal (stored : option json) : Q :=
  match default (JNum DEFAULT_ULTRAFIX_RATING_GOAL) stored with
  | JNum goal => if negb (Qle_bool 1 goal) || negb (Qle_bool goal 10) then DEFAULT_ULTRAFIX_RATING_GOAL else goal
  | _ => DEFAULT_ULTRAFIX_RATING_GOAL
  end.
Definition saveUltrafixRatingGoal (goal : Q) : result json :=
  match safe_integer goal with
  | Some n => if (n <? 1) || (10 <? n) then Throw "ultrafix_rating_goal must be an integer between 1 and 10" else Ok (JNum goal)
  | None => Throw "ultrafix_rating_goal must be an integer between 1 and 10"
  end.
Definition loadUltrafixMaxCycles (stored : option json) : Z :=
  match default (JNum (inject_Z DEFAULT_ULTRAFIX_MAX_CYCLES)) stored with
  | JNum cycles => match safe_integer cycles with Some n => if n <? 1 then DEFAULT_ULTRAFIX_MAX_CYCLES else n | None => DEFAULT_ULTRAFIX_MAX_CYCLES end
  | _ => DEFAULT_ULTRAFIX_MAX_CYCLES
  end.
Definition saveUltrafixMaxCycles (cycles : Q) : result json :=
  match safe_integer cycles with
  | Some n => if n <? 1 then Throw "ultrafix_max_cycles must be a positive safe integer" else Ok (JNum cycles)
  | None => Throw "ultrafix_max_cycles must be a positive safe integer"
  end.
Definition loadUltrafixPauseSeconds (stored : option json) : Z :=
  match default (JNum (inject_Z DEFAULT_ULTRAFIX_PAUSE_SECONDS)) stored with
  | JNum pause => match safe_integer pause with Some n => if n <? 0 then DEFAULT_ULTRAFIX_PAUSE_SECONDS else n | None => DEFAULT_ULTRAFIX_PAUSE_SECONDS end
  | _ => DEFAULT_ULTRAFIX_PAUSE_SECONDS
  end.
Definition saveUltrafixPauseSeconds (seconds : Q) : result json :=
  match safe_integer seconds with
  | Some n => if n <? 0 then Throw "ultrafix_pause_seconds must be a non-negative safe integer" else Ok (JNum seconds)
  | None => Throw "ultrafix_pause_seconds must be a non-negative safe integer"
  end.

(** The settings a loop starts from. *)
Record UltrafixSettings := Settings { s_goal : option json; s_maxCycles : option json; s_pauseSeconds : option json; s_reviewModel : string }.

(** The options of [startLoop]: what the command says, else what is configured. *)
Definition loop_options (settings : UltrafixSettings) (m : UltrafixCommandMeta) (owner repo : string) (pr commentId epoch : Z) (userId : option string) : StartLoopOptions :=
  StartOptions owner repo pr
    (Some (match m_goal m with Some g => inject_Z g | None => loadUltrafixRatingGoal (s_goal settings) end))
    (Some (default (loadUltrafixMaxCycles (s_maxCycles settings)) (m_maxCycles m)))
    (Some (default (loadUltrafixPauseSeconds (s_pauseSeconds settings)) (m_pauseSeconds m)))
    (Some (default (s_reviewModel settings) (m_reviewModel m)))
    (Some epoch) (Some commentId) (Some (m_instructions m)) userId.
