(* ===== verification/SlashFacts.v ===== *)
(** * Correctness of the slash command parser

    A parsed command is well formed and is parsed again from its canonical text; the
    options of an Ultrafix command are in range and named options win. *)

From S2P Require Import Prelude JsString Json UltrafixLoop UltrafixLoopFacts UltrafixStore SlashCommand.

Open Scope string_scope.
Open Scope Z_scope.

(** ** Words and white space *)

Definition solid_char (c : ascii) : Prop := is_space c = false.
Definition solid (s : string) : Prop := Forall solid_char (chars s).
Definition word (s : string) : Prop := s <> "" /\ solid s.

Lemma solid_app s t : solid (s ++ t) <-> solid s /\ solid t.
Proof. unfold solid. by rewrite chars_app, Forall_app. Qed.

Lemma string_app_assoc (a b c : string) : a ++ (b ++ c) = (a ++ b) ++ c.
Proof. induction a; simpl; congruence. Qed.
Lemma string_app_nil (a : string) : a ++ "" = a.
Proof. induction a; simpl; congruence. Qed.

Lemma blank_app s t : is_blank (s ++ t) = is_blank s && is_blank t.
Proof. induction s as [|c s IH]; simpl; [done|]. by rewrite IH, andb_assoc. Qed.
Lemma word_not_blank w : word w -> is_blank w = false.
Proof. intros [Hn Hs]. destruct w as [|c w]; [done|]. inversion Hs as [|x l Hc]; subst. simpl. by rewrite Hc. Qed.

(** What does not start with white space, and ends with a word, is trimmed. *)
Lemma trim_end_word s w : word w -> trim_end (s ++ w) = s ++ w.
Proof.
  intros Hw. induction s as [|c s IH]; simpl.
  - destruct Hw as [_ Hs]. induction w as [|c w IHw]; [done|]. inversion Hs as [|x l Hc Hw]; subst. simpl. rewrite Hc. simpl. by rewrite IHw.
  - rewrite blank_app, (word_not_blank w Hw), !andb_false_r. by rewrite IH.
Qed.
Lemma trim_solid_head c s : solid_char c -> trim (String c s) = String c (trim_end s).
Proof. intros Hc. unfold trim. simpl. rewrite Hc. simpl. by rewrite Hc. Qed.

Lemma trim_end_idem s : trim_end (trim_end s) = trim_end s.
Proof.
  induction s as [|c s IH]; [done|]. simpl. destruct (is_space c && is_blank s) eqn:E; [done|]. simpl.
  assert (Hb : is_blank (trim_end s) = is_blank s).
  { clear. induction s as [|c s IH]; [done|]. simpl. destruct (is_space c && is_blank s) eqn:E; [done|]. simpl. by rewrite IH. }
  by rewrite Hb, E, IH.
Qed.
Lemma trim_start_idem s : trim_start (trim_start s) = trim_start s.
Proof. induction s as [|c s IH]; [done|]. simpl. destruct (is_space c) eqn:E; [done|]. simpl. by rewrite E. Qed.
Lemma trim_idem s : trim (trim s) = trim s.
Proof.
  unfold trim. assert (H : trim_start (trim_end (trim_start s)) = trim_end (trim_start s)); [|by rewrite H, trim_end_idem].
  induction s as [|c s IH]; [done|]. simpl. destruct (is_space c) eqn:E; [done|]. simpl. rewrite E. simpl. by rewrite E.
Qed.

(** [words] finds exactly the words. *)
Lemma words_from_spec s : forall cur, solid cur -> Forall word (words_from cur s).
Proof.
  induction s as [|c s IH]; intros cur Hc; simpl.
  - destruct cur; [done|]. apply Forall_singleton. by split.
  - destruct (is_space c) eqn:E.
    + destruct cur; [apply IH; constructor|]. apply Forall_cons. split; [by split|]. apply IH. constructor.
    + apply IH. apply solid_app. split; [done|]. by repeat constructor.
Qed.
Lemma words_from_word w s cur : solid w -> words_from cur (w ++ s) = words_from (cur ++ w) s.
Proof.
  revert cur; induction w as [|c w IH]; intros cur Hw; simpl; [by rewrite string_app_nil|]. inversion Hw as [|x l Hc Hw']; subst.
  rewrite Hc, (IH _ Hw'). f_equal. by rewrite <- string_app_assoc.
Qed.

(** " a b c" *)
Fixpoint spaced (l : list string) : string := match l with [] => "" | a :: l => " " ++ a ++ spaced l end.

Lemma words_spaced l : Forall word l -> words (spaced l) = l.
Proof.
  unfold words. induction 1 as [|a l [Hn Ha] _ IH]; [done|]. simpl. rewrite (words_from_word a) by done. simpl.
  destruct l as [|b l]; simpl in *; [by destruct a|]. destruct a; [done|]. by rewrite IH.
Qed.
Lemma words_spaced_tail a l : Forall word (a :: l) -> words (a ++ spaced l) = a :: l.
Proof. intros H. exact (words_spaced (a :: l) H). Qed.

Lemma trim_spaced a l : Forall word (a :: l) -> trim (spaced (a :: l)) = a ++ spaced l.
Proof.
  intros H. inversion H as [|x y [Hn Ha] Hl]; subst. unfold trim. simpl. destruct a as [|c a]; [done|].
  inversion Ha as [|x y Hc Ha']; subst. simpl. rewrite Hc.
  assert (Hend : exists s w, word w /\ String c (a ++ spaced l) = s ++ w).
  { clear -Hl Ha Hn. induction l as [|b l _] using rev_ind; [exists "", (String c a); simpl; rewrite string_app_nil; split; [by split|done]|].
    apply Forall_app in Hl as [_ Hb]. inversion Hb as [|? ? Hw]; subst.
    assert (Hsp : forall l, spaced (l ++ [b])%list = spaced l ++ " " ++ b).
    { induction l0 as [|x l0 IH]; simpl; [by rewrite string_app_nil|]. by rewrite IH, <- string_app_assoc. }
    exists (String c (a ++ spaced l ++ " ")), b. split; [done|]. rewrite Hsp. simpl. by rewrite <- !string_app_assoc. }
  destruct Hend as (s & w & Hw & ->). by apply trim_end_word.
Qed.

(** ** Parsing a canonical text *)

Definition well_formed (p : ParsedSlashCommand) : Prop := Forall word (args p) /\ trim (p_instructions p) = p_instructions p.
(** The canonical text of a command. *)
Definition print_line (p : ParsedSlashCommand) : string := String slash (command_text (command p) ++ spaced (args p)).
Definition print (p : ParsedSlashCommand) : string := print_line p ++ String newline (p_instructions p).

Lemma command_word c : word (command_text c).
Proof. split; [by destruct c|]. destruct c; repeat constructor. Qed.
Lemma command_of_text c : command_of (command_text c) = Some c.
Proof. by destruct c. Qed.

Lemma index_of_app c s t : Forall (fun x => x <> c) (chars s) -> index_of c (s ++ String c t) = Some (String.length s).
Proof.
  unfold index_of. induction s as [|x s IH]; intros H; simpl; [by rewrite bool_decide_eq_true_2|].
  inversion H as [|y l Hx Hs]; subst. rewrite bool_decide_eq_false_2 by done. by rewrite IH.
Qed.
Lemma take_app s t : take (String.length s) (s ++ t) = s.
Proof. induction s; simpl; [by destruct t|]. by f_equal. Qed.
Lemma drop_app s t : drop (String.length s) (s ++ t) = t.
Proof. induction s; simpl; [by destruct t|done]. Qed.
Lemma drop_app_S s c t : drop (S (String.length s)) (s ++ String c t) = t.
Proof. induction s; simpl; [by destruct t|done]. Qed.

Lemma solid_not c s : is_space c = true -> solid s -> Forall (fun x => x <> c) (chars s).
Proof. intros Hc. intros Hs. eapply Forall_impl; [exact Hs|]. unfold solid_char. intros x Hx ->. congruence. Qed.
(** Only words and spaces. *)
Lemma spaced_not c l : is_space c = true -> c <> char 32 -> Forall word l -> Forall (fun x => x <> c) (chars (spaced l)).
Proof.
  intros Hc Hs. induction 1 as [|a l [_ Ha] _ IH]; simpl; [constructor|]. rewrite chars_app. constructor; [by intros <-|].
  apply Forall_app. split; [by apply solid_not|done].
Qed.
Lemma includes_char_false c s : Forall (fun x => x <> c) (chars s) -> includes_char c s = false.
Proof.
  unfold includes_char, index_of. induction s as [|x s IH]; simpl; intros H; [done|]. inversion H as [|y l Hx Hs]; subst.
  rewrite bool_decide_eq_false_2 by done. specialize (IH Hs). by destruct (find_index _ s).
Qed.

Lemma find_space_word w s : solid w ->
  find_index is_space (w ++ s) = match find_index is_space s with Some k => Some (String.length w + k)%nat | None => None end.
Proof.
  induction w as [|c w IH]; intros Hw; simpl; [by destruct (find_index _ s)|]. inversion Hw as [|x l Hc Hw']; subst. rewrite Hc, (IH Hw').
  by destruct (find_index is_space s).
Qed.

Lemma trim_line p : Forall word (args p) -> trim (print_line p) = print_line p.
Proof.
  intros Hl. unfold print_line. rewrite trim_solid_head by done. f_equal. destruct (command_word (command p)) as [Hn Hs].
  destruct (args p) as [|a l]; [simpl; rewrite string_app_nil; apply (trim_end_word ""); by split|].
  pose proof (trim_spaced a l Hl) as Ht.
  assert (Hend : trim_end (spaced (a :: l)) = spaced (a :: l)).
  { unfold trim in Ht. inversion Hl as [|x y [Han Ha] Hl']; subst. destruct a as [|c a]; [done|]. inversion Ha as [|x y Hc Ha']; subst.
    cbn [spaced] in *. simpl in Ht |- *. rewrite Hc in *. simpl in *. rewrite Hc in Ht. simpl in Ht. by rewrite Ht. }
  assert (Hb : is_blank (spaced (a :: l)) = false).
  { inversion Hl as [|x y Ha Hl']; subst. simpl. by rewrite blank_app, (word_not_blank a Ha). }
  clear Ht Hl. revert Hend Hb. generalize (spaced (a :: l)) as t. intros t Hend Hb. clear Hn.
  induction (command_text (command p)) as [|c s IH]; [done|]. simpl. rewrite blank_app, Hb, !andb_false_r.
  inversion Hs as [|x y Hc Hs']; subst. by rewrite IH.
Qed.

Lemma parse_print_lemma p : well_formed p -> parseSlashCommand (Some (print p)) = Some p.
Proof.
  intros [Hl Hi]. unfold parseSlashCommand, print.
  assert (Hline : Forall (fun x => x <> newline) (chars (print_line p))).
  { unfold print_line. simpl. constructor; [done|]. rewrite chars_app. apply Forall_app. destruct (command_word (command p)).
    split; [by apply solid_not|by apply spaced_not]. }
  change (truthy_string (Some (print_line p ++ String newline (p_instructions p)))) with (Some (print_line p ++ String newline (p_instructions p))).
  cbn [mbind option_bind]. unfold first_line. rewrite (index_of_app newline _ _ Hline), take_app, drop_app_S. rewrite (trim_line p Hl). unfold print_line. simpl. destruct (command_word (command p)) as [Hn Hs].
  rewrite (find_space_word _ _ Hs). destruct (args p) as [|a l] eqn:El.
  - simpl. rewrite string_app_nil, command_of_text. simpl. destruct p as [c w i]; simpl in *; subst w. by rewrite Hi.
  - change (find_index is_space (spaced (a :: l))) with (Some 0%nat). cbv beta iota. rewrite Nat.add_0_r, take_app, drop_app, command_of_text. simpl.
    change (String _ (a ++ spaced l)) with (spaced (a :: l)). rewrite (trim_spaced a l Hl).
    pose proof (spaced_not carriage_return (a :: l) eq_refl ltac:(done) Hl) as H. inversion H as [|x y _ Hcr]; subst.
    rewrite includes_char_false, words_spaced_tail by done. destruct p as [c w i]; simpl in *; subst w. by rewrite Hi.
Qed.

Lemma parsed_well_formed body p : parseSlashCommand body = Some p -> well_formed p.
Proof.
  unfold parseSlashCommand. destruct (truthy_string body) as [b|]; [|done]. cbn [mbind option_bind].
  destruct (first_line b) as [line rest]. destruct (negb _); [done|]. cbv zeta.
  destruct (command_of _) as [c|]; [|done]. cbn [mbind option_bind]. destruct (includes_char _ _); intros [= <-].
  split; simpl; [apply words_from_spec; constructor|]. destruct rest; [apply trim_idem|done].
Qed.

(** C39. Slash commands round-trip: what the parser returns is well formed - arguments are
    words without white space, instructions are trimmed - and the canonical text of every
    well-formed command parses to exactly that command. *)
Theorem slash_command_roundtrip :
  (forall body p, parseSlashCommand body = Some p -> well_formed p)
  /\ forall p, well_formed p -> parseSlashCommand (Some (print p)) = Some p.
Proof. split; [apply parsed_well_formed|apply parse_print_lemma]. Qed.

(** ** Options *)

Definition in_range (m : UltrafixCommandMeta) : Prop :=
  (forall g, m_goal m = Some g -> 1 <= g <= 10)
  /\ (forall n, m_maxCycles m = Some n -> 1 <= n <= MAX_SAFE_INTEGER)
  /\ (forall n, m_pauseSeconds m = Some n -> 0 <= n <= MAX_SAFE_INTEGER).

Lemma parsePositiveInt_range value allowZero n : parsePositiveInt value allowZero = Some n ->
  (if allowZero then 0 else 1) <= n <= MAX_SAFE_INTEGER.
Proof.
  unfold parsePositiveInt. destruct (match value with "" => None | _ => _ end) as [k|]; [|done]. cbn [mbind option_bind].
  destruct (MAX_SAFE_INTEGER <? Z.abs k) eqn:E; [done|]. destruct allowZero.
  - destruct (0 <=? k) eqn:E2; [|done]. intros [= <-]. zb. lia.
  - destruct (0 <? k) eqn:E2; [|done]. intros [= <-]. zb. lia.
Qed.

Lemma goal_value_range value n : parsePositiveInt value false = Some n -> (n <? 1) || (10 <? n) = false -> 1 <= n <= 10.
Proof. intros _ H. apply orb_false_iff in H as [H1 H2]. zb. lia. Qed.

Lemma apply_in_range m key value m' err : in_range m -> applyUltrafixKeyValue m key value = (m', err) -> in_range m'.
Proof.
  intros (Hg & Hm & Hp). unfold applyUltrafixKeyValue.
  repeat first [case_bool_decide | case_match]; intros [= <- <-]; split_and!; simpl; try done; intros x [= <-];
    repeat match goal with H : parsePositiveInt _ _ = Some _ |- _ => apply parsePositiveInt_range in H end; zb; lia.
Qed.

Lemma arg_in_range a arg : in_range (a_meta a) -> in_range (a_meta (ultrafix_arg a arg)).
Proof.
  intros H. unfold ultrafix_arg. destruct (index_of (char 61) arg) as [i|].
  - cbv zeta. case_bool_decide; [|done]. destruct (applyUltrafixKeyValue _ _ _) as [m' err] eqn:E. by eapply apply_in_range.
  - destruct (negb _ && _); [|done]. cbv zeta. destruct (parsePositiveInt arg false) as [n|] eqn:E; [|done].
    destruct ((n <? 1) || (10 <? n)) eqn:En; [done|]. destruct (m_goal (a_meta a)) eqn:Eg; [done|].
    destruct H as (Hg & Hm & Hp). split_and!; simpl; [|done..]. intros g [= <-]. by eapply goal_value_range.
Qed.

Lemma options_in_range p : in_range (fst (parseUltrafixArgs p)).
Proof.
  unfold parseUltrafixArgs. simpl. set (a0 := Args _ _ _). assert (H : in_range (a_meta a0)) by by split_and!.
  clearbody a0. revert a0 H. induction (args p) as [|arg l IH]; intros a0 H; simpl; [done|]. apply IH. by apply arg_in_range.
Qed.

Lemma loaded_goal_range stored : (1 <= loadUltrafixRatingGoal stored <= 10)%Q.
Proof.
  assert (Hd : (1 <= DEFAULT_ULTRAFIX_RATING_GOAL <= 10)%Q) by by split. unfold loadUltrafixRatingGoal. destruct (default _ stored); try done.
  destruct (_ || _) eqn:E; [done|]. apply orb_false_iff in E as [H1%negb_false_iff H2%negb_false_iff]. split; by apply Qle_bool_true.
Qed.
Lemma safe_integer_bound q n : safe_integer q = Some n -> Z.abs n <= MAX_SAFE_INTEGER.
Proof. unfold safe_integer. destruct (_ && _) eqn:E; [|done]. intros [= <-]. apply andb_true_iff in E as [_ ?]. by apply Z.leb_le. Qed.
Lemma loaded_cycles_range stored : 1 <= loadUltrafixMaxCycles stored <= MAX_SAFE_INTEGER.
Proof.
  unfold loadUltrafixMaxCycles, DEFAULT_ULTRAFIX_MAX_CYCLES. destruct (default _ stored); try done. destruct (safe_integer q) as [n|] eqn:E; [|done].
  apply safe_integer_bound in E. destruct (n <? 1) eqn:En; [done|]. zb. lia.
Qed.
Lemma loaded_pause_range stored : 0 <= loadUltrafixPauseSeconds stored <= MAX_SAFE_INTEGER.
Proof.
  unfold loadUltrafixPauseSeconds, DEFAULT_ULTRAFIX_PAUSE_SECONDS. destruct (default _ stored); try done. destruct (safe_integer q) as [n|] eqn:E; [|done].
  apply safe_integer_bound in E. destruct (n <? 0) eqn:En; [done|]. zb. lia.
Qed.

(** C40. Whatever a comment says and whatever is configured, the Ultrafix loop it starts has
    a goal from 1 to 10, at least one cycle and a non-negative pause, the latter two safe
    integers. *)
Theorem started_loop_in_range settings parsed owner repo pr commentId epoch userId :
  let s := createDefaultState (loop_options settings (fst (parseUltrafixArgs parsed)) owner repo pr commentId epoch userId) in
  (1 <= goal s <= 10)%Q /\ 1 <= maxCycles s <= MAX_SAFE_INTEGER /\ 0 <= pauseSeconds s <= MAX_SAFE_INTEGER
  /\ active s = true /\ workEpoch s = Some epoch /\ cycleCount s = 0.
Proof.
  destruct (options_in_range parsed) as (Hg & Hm & Hp). set (m := fst _) in *. clearbody m. intros s. refine (conj _ (conj _ (conj _ _))).
  - simpl. destruct (m_goal m) as [g|]; simpl; [|apply loaded_goal_range]. destruct (Hg g eq_refl).
    split; [change 1%Q with (inject_Z 1)|change 10%Q with (inject_Z 10)]; by rewrite <- Zle_Qle.
  - simpl. destruct (m_maxCycles m); simpl; [by apply Hm|apply loaded_cycles_range].
  - simpl. destruct (m_pauseSeconds m); simpl; [by apply Hp|apply loaded_pause_range].
  - done.
Qed.

(** ** The goal *)

(** The goal an argument names, if it is valid. *)
Definition valid_goal (value : string) : option Z :=
  n ← parsePositiveInt value false; if (n <? 1) || (10 <? n) then None else Some n.
Definition named_goal (arg : string) : option Z :=
  i ← index_of (char 61) arg; if bool_decide (to_lower (take i arg) = "goal") then valid_goal (drop (S i) arg) else None.
Definition bare_number (arg : string) : bool := bool_decide (index_of (char 61) arg = None) && all_digits arg.
(** The last valid [goal=], else the first bare number where it is valid. *)
Definition chosen_goal (l : list string) : option Z :=
  match last (omap named_goal l) with
  | Some g => Some g
  | None => head (filter (fun a => bare_number a = true) l) ≫= valid_goal
  end.

Lemma apply_goal m key value m' err : applyUltrafixKeyValue m key value = (m', err) ->
  m_goal m' = if bool_decide (key = "goal") then match valid_goal value with Some g => Some g | None => m_goal m end else m_goal m.
Proof.
  unfold applyUltrafixKeyValue, valid_goal. case_bool_decide.
  - destruct (parsePositiveInt value false); simpl; [|by intros [= <- _]]. destruct (_ || _); by intros [= <- _].
  - repeat first [case_bool_decide | case_match]; by intros [= <- _].
Qed.

Definition goal_state (l : list string) (a : ArgState) : Prop :=
  m_goal (a_meta a) = chosen_goal l /\ positionalGoalSet a = bool_decide (head (filter (fun a => bare_number a = true) l) <> None).

Lemma head_snoc {A} (l : list A) x : head (l ++ [x])%list = match head l with Some y => Some y | None => Some x end.
Proof. by destruct l. Qed.

Lemma goal_step l arg a : goal_state l a -> goal_state (l ++ [arg])%list (ultrafix_arg a arg).
Proof.
  intros [Hg Hp]. unfold goal_state, chosen_goal in *. rewrite omap_app, filter_app.
  change (omap named_goal [arg]) with (match named_goal arg with Some y => [y] | None => [] end).
  unfold ultrafix_arg, named_goal at 2. destruct (index_of (char 61) arg) as [i|] eqn:Ei; cbn [mbind option_bind]; cbv zeta.
  - rewrite filter_cons_False by (unfold bare_number; by rewrite Ei). rewrite filter_nil, app_nil_r.
    generalize (drop (S i) arg) as value. intros value. destruct (bool_decide (_ ∈ ULTRAFIX_KNOWN_KEYS)) eqn:Ek.
    + destruct (applyUltrafixKeyValue _ _ _) as [m' err] eqn:Ea. cbn [a_meta positionalGoalSet]. split; [|done]. rewrite (apply_goal _ _ _ _ _ Ea).
      destruct (bool_decide (_ = "goal")); [|by rewrite app_nil_r]. destruct (valid_goal value); [by rewrite last_snoc|by rewrite app_nil_r].
    + rewrite bool_decide_eq_false_2; [by rewrite app_nil_r|]. intros Hk. apply bool_decide_eq_false in Ek. apply Ek. rewrite Hk. by left.
  - rewrite app_nil_r. destruct (all_digits arg) eqn:Ed.
    + rewrite filter_cons_True by (unfold bare_number; by rewrite Ei, Ed). rewrite filter_nil, head_snoc.
      destruct (head (filter _ l)) as [x|] eqn:Eh.
      * rewrite bool_decide_eq_true_2 in Hp by done. rewrite Hp. simpl. split; [done|]. by rewrite ?bool_decide_eq_true_2.
      * rewrite bool_decide_eq_false_2 in Hp by auto. rewrite Hp. simpl. simpl in Hg. unfold valid_goal.
        destruct (parsePositiveInt arg false) as [n|]; simpl; [|by rewrite Hg]. destruct ((n <? 1) || (10 <? n)); simpl; [by rewrite Hg|].
        destruct (last _); rewrite Hg; by destruct a.
    + rewrite filter_cons_False by (unfold bare_number; by rewrite Ei, Ed). rewrite filter_nil, app_nil_r, andb_false_r. done.
Qed.

(** The goal of an Ultrafix command: the last valid named goal wins over every bare
    number, wherever it stands; without one the first bare number counts where it is from 1
    to 10; otherwise the command sets no goal. *)
Theorem goal_precedence parsed : m_goal (fst (parseUltrafixArgs parsed)) = chosen_goal (args parsed).
Proof.
  unfold parseUltrafixArgs. simpl. set (a0 := Args _ _ _). assert (H0 : goal_state [] a0) by done. clearbody a0.
  cut (goal_state (args parsed) (foldl ultrafix_arg a0 (args parsed))); [by intros [H _]|].
  induction (args parsed) as [|arg l IH] using rev_ind; [done|]. rewrite foldl_app. by apply goal_step.
Qed.

Definition a_command : ParsedSlashCommand := Parsed cmd_ultrafix ["goal=8"; "model=llm-x"] "Keep the tests".
Lemma slash_command_roundtrip_witness :
  print a_command = "/ultrafix goal=8 model=llm-x" ++ String newline "Keep the tests"
  /\ parseSlashCommand (Some (print a_command)) = Some a_command /\ well_formed a_command.
Proof.
  split; [done|]. split.
  - apply (proj2 slash_command_roundtrip). split; [repeat (constructor; [split; [done|repeat constructor]|]); constructor|done].
  - by apply (proj1 slash_command_roundtrip (Some ("  /ultrafix  goal=8 model=llm-x " ++ String newline " Keep the tests "))).
Defined.
