(* ===== verification/CiRuns.v ===== *)
(** * CI runs of a pull request: which ones may be cancelled, and GitHub's answers

    src/jobs/followupCiSuspensionPolicy.ts (the workflows an operator selected) and the
    data and decisions of src/jobs/followupCiSuspensionRuns.ts. GitHub is a table of
    answers that may change before every request. *)

From S2P Require Import Prelude JsString.

Open Scope string_scope.
Open Scope Z_scope.

(** ** Workflow runs *)

Record WorkflowRunSummary := Run {
  w_id : Z;
  w_name : option string;
  w_path : option string;
  w_event : option string;
  w_status : option string;
  w_conclusion : option string;
  w_head_sha : option string;
  w_workflow_id : option Z;
  run_attempt : option Z;
  pull_requests : list Z;
}.

(** ** The selection *)

Inductive PolicySource := from_repository | from_environment | no_source | unreadable.
#[export] Instance PolicySource_eq_dec : EqDecision PolicySource.
Proof. solve_decision. Defined.
Record ValidationWorkflowPolicy := Policy { selected : list string; source : PolicySource }.
Definition NO_VALIDATION_WORKFLOWS_SELECTED : ValidationWorkflowPolicy := Policy [] no_source.
Definition VALIDATION_WORKFLOW_SELECTION_UNREADABLE : ValidationWorkflowPolicy := Policy [] unreadable.

Definition PULL_REQUEST_EVENTS : list string := ["pull_request"; "pull_request_target"].
Definition normalize (value : option string) : string := to_lower (trim (default "" value)).

(** [identities.add]: a set in insertion order. *)
Definition set_add (x : string) (l : list string) : list string := if bool_decide (x ∈ l) then l else (l ++ [x])%list.
Definition add_identity (x : string) (l : list string) : list string := if bool_decide (x = "") then l else set_add x l.

Definition file_of (path : string) : string := default "" (last (split_char (char 47) path)).
Definition workflowIdentities (run : WorkflowRunSummary) : list string :=
  let identities := add_identity (normalize (w_name run)) [] in
  let identities := match w_workflow_id run with Some id => set_add (show id) identities | None => identities end in
  let path := normalize (w_path run) in
  if bool_decide (path = "") then identities
  else add_identity (file_of path) (set_add path identities).

Definition isPullRequestValidationEvent (event : option string) : bool := bool_decide (normalize event ∈ PULL_REQUEST_EVENTS).

Definition parseWorkflowSelection (values : list (option string)) : list string :=
  foldl (fun selection value => add_identity (normalize value) selection) [] values.
Definition createValidationWorkflowPolicy (selection : list (option string)) (source : PolicySource) : ValidationWorkflowPolicy :=
  match parseWorkflowSelection selection with [] => NO_VALIDATION_WORKFLOWS_SELECTED | l => Policy l source end.
(** [CANCEL_CI_FOLLOWUP_WORKFLOWS] *)
Definition loadValidationWorkflowPolicyFromEnv (env : option string) : ValidationWorkflowPolicy :=
  createValidationWorkflowPolicy (Some <$> split_char (char 44) (default "" env)) from_environment.
Definition resolveValidationWorkflowPolicy (repositorySelection : list string) (env : option string) : ValidationWorkflowPolicy :=
  let repository := createValidationWorkflowPolicy (Some <$> repositorySelection) from_repository in
  match selected repository with [] => loadValidationWorkflowPolicyFromEnv env | _ => repository end.
Definition resolvePolicy (selection : option (list string)) (env : option string) : ValidationWorkflowPolicy :=
  match selection with None => VALIDATION_WORKFLOW_SELECTION_UNREADABLE | Some l => resolveValidationWorkflowPolicy l env end.

Definition isEligibleValidationWorkflow (run : WorkflowRunSummary) (policy : ValidationWorkflowPolicy) : bool :=
  isPullRequestValidationEvent (w_event run) && existsb (fun i => bool_decide (i ∈ selected policy)) (workflowIdentities run).

(** ** Runs that may be cancelled, and runs that stand in for a cancelled one *)

Definition CANCELABLE_RUN_STATUSES : list string := ["queued"; "in_progress"; "waiting"; "pending"; "requested"].
Definition PENDING_RUN_STATUSES : list string := (CANCELABLE_RUN_STATUSES ++ ["action_required"])%list.
Definition lowered (s : option string) : string := to_lower (default "" s).

Definition sameSha (left right : option string) : bool :=
  match truthy_string left, truthy_string right with
  | Some l, Some r => bool_decide (to_lower l = to_lower r)
  | _, _ => false
  end.

Definition isCancelableValidationRun (run : WorkflowRunSummary) (pullRequestNumber : Z) (headSha : string) (policy : ValidationWorkflowPolicy) : bool :=
  isEligibleValidationWorkflow run policy && bool_decide (lowered (w_status run) ∈ CANCELABLE_RUN_STATUSES)
  && sameSha (w_head_sha run) (Some headSha) && bool_decide (pullRequestNumber ∈ pull_requests run).
Definition isReplacementValidationRun (run : WorkflowRunSummary) (pullRequestNumber : Z) (headSha : string) : bool :=
  bool_decide (lowered (w_status run) ∈ PENDING_RUN_STATUSES) && isPullRequestValidationEvent (w_event run)
  && sameSha (w_head_sha run) (Some headSha) && bool_decide (pullRequestNumber ∈ pull_requests run).

(** ** Answers of GitHub *)

Inductive response (A : Type) :=
  | answered (a : A)
  | failed (status : option Z) (message : string).
Arguments answered {A} a.
Arguments failed {A} status message.

Definition isPermissionError (status : option Z) (message : string) : bool :=
  bool_decide (status = Some 401) || bool_decide (status = Some 403) || includes "resource not accessible by integration" (to_lower message).
Definition isConflict (status : option Z) : bool := bool_decide (status = Some 409).
Definition isMissing (status : option Z) : bool := bool_decide (status = Some 404).

Record PullRequestHead := Head { sha : string; open : bool }.

Record GitHub := Answers {
  g_head : response (option PullRequestHead);
  g_runs : string -> Z -> response (list WorkflowRunSummary * option Z);
  g_run : Z -> response WorkflowRunSummary;
  g_attempt : Z -> Z -> response WorkflowRunSummary;
  g_cancel : Z -> response unit;
  g_rerun : Z -> response unit;
}.

Definition RUNS_PER_PAGE : nat := 100.
Definition MAX_RUN_PAGES : nat := 10.

(** Runs not seen on an earlier page. *)
Definition add_page (page : list WorkflowRunSummary) (runs : list WorkflowRunSummary) : list WorkflowRunSummary :=
  foldl (fun runs run => if bool_decide (w_id run ∈ w_id <$> runs) then runs else (runs ++ [run])%list) runs page.

(** Whether the run has moved past an attempt. *)
Definition past_attempt (live : WorkflowRunSummary) (attempt : option Z) : bool :=
  match run_attempt live, attempt with Some l, Some a => a <? l | _, _ => false end.
Definition completed (live : WorkflowRunSummary) : bool := bool_decide (lowered (w_status live) = "completed").
Definition cancelled (live : WorkflowRunSummary) : bool := bool_decide (lowered (w_conclusion live) = "cancelled").
