(* ===== verification/CiSuspend.v ===== *)
(** * Suspending the CI of a pull request during a follow-up: store, lease and GitHub

    src/jobs/followupCiSuspensionStore.ts (the durable record of one pull request),
    followupCiSuspensionLease.ts (the lease its operations run under) and the requests of
    followupCiSuspensionRuns.ts, as programs of one worker. A database statement may be
    refused, or land without its answer arriving. [log] is what this worker did and was
    told; [past] is every version the record ever had: no code reads either. The heartbeat
    that renews a held lease is one of the other steps: what it notices of a lost lease,
    the next assertion notices too, because a token is never written twice. *)

From S2P Require Import Prelude JsString Interleave CiRuns.

Open Scope string_scope.
Open Scope Z_scope.

Inductive SuspensionState := SUSPENSION_ACTIVE | SUSPENSION_RESTORING | SUSPENSION_BLOCKED.
#[export] Instance SuspensionState_eq_dec : EqDecision SuspensionState.
Proof. solve_decision. Defined.

Record CancelledRun := Entry {
  cr_id : Z;
  cr_name : option string;
  cr_workflowId : option Z;
  observedAttempt : option Z;
  attempt : option Z;
  restarted : bool;
}.
#[export] Instance CancelledRun_eq_dec : EqDecision CancelledRun.
Proof. solve_decision. Defined.

Record CiSuspensionRecord := Rec {
  head_sha : string;
  task_id : string;
  correlation_id : option string;
  state : SuspensionState;
  cancelled_runs : list CancelledRun;
  attempts : Z;
  generation : Z;
  incarnation : string;
  created_at : Z;
  updated_at : Z;
}.
#[export] Instance CiSuspensionRecord_eq_dec : EqDecision CiSuspensionRecord.
Proof. solve_decision. Defined.

Record LeaseRow := Lease { l_token : string; expires_at : Z }.

(** What this worker did and was told. *)
Inductive Event :=
  | saw_head (r : response (option PullRequestHead))
  | saw_runs (headSha : string) (page : Z) (r : response (list WorkflowRunSummary * option Z))
  | saw_run (id : Z) (r : response WorkflowRunSummary)
  | saw_attempt (id n : Z) (r : response WorkflowRunSummary)
  | sent_cancel (id : Z) (r : response unit)
  | sent_rerun (id : Z) (r : response unit)
  | loaded (r : option CiSuspensionRecord)
  | saved (r : CiSuspensionRecord)
  | chosen (p : ValidationWorkflowPolicy)
  | held.

Inductive database_answer := works | refuses | loses_answer.

Record ci := Ci {
  row : option CiSuspensionRecord;
  lease : option LeaseRow;
  now : Z;
  github : GitHub;
  database : database_answer;
  enabled : result bool;
  selection : result (option (list string));
  env : option string;
  owner_active : result bool;
  past : list CiSuspensionRecord;
  drawn : list string;
  log : list Event;
}.
Abbreviation M := (Interleave.M ci).

Definition set_row (r : option CiSuspensionRecord) (s : ci) : ci :=
  Ci r (lease s) (now s) (github s) (database s) (enabled s) (selection s) (env s) (owner_active s)
    (match r with Some r => past s ++ [r] | None => past s end)%list (drawn s) (log s).
Definition set_lease (l : option LeaseRow) (s : ci) : ci :=
  Ci (row s) l (now s) (github s) (database s) (enabled s) (selection s) (env s) (owner_active s) (past s) (drawn s) (log s).
Definition elapse (ms : Z) (s : ci) : ci :=
  Ci (row s) (lease s) (now s + ms) (github s) (database s) (enabled s) (selection s) (env s) (owner_active s) (past s) (drawn s) (log s).
Definition draw (id : string) (s : ci) : ci :=
  Ci (row s) (lease s) (now s) (github s) (database s) (enabled s) (selection s) (env s) (owner_active s) (past s) (id :: drawn s) (log s).
Definition note (e : Event) (s : ci) : ci :=
  Ci (row s) (lease s) (now s) (github s) (database s) (enabled s) (selection s) (env s) (owner_active s) (past s) (drawn s) (log s ++ [e])%list.

Definition asks {A} (f : ci -> A) : M A := call (fun s => (f s, s)).
Definition sleep (ms : Z) : M unit := call (fun s => (tt, elapse ms s)).
Definition or_throw {A} (r : result A) : M A := match r with Ok a => mret a | Throw e => throw e end.
(** [m.then(Ok, Throw)] *)
Definition attempt_ {A} (m : M A) : M (result A) := catch (a ← m; mret (Ok a)) (fun e => mret (Throw e)).

(** ** Errors by class *)

Definition LEASE_UNAVAILABLE : string := "SuspensionLeaseUnavailableError".
Definition LEASE_LOST : string := "SuspensionLeaseLostError".
Definition permission_prefix : string := "CiActionsPermissionError: ".
Definition permission_error (operation message : string) : string := permission_prefix ++ "GitHub Actions " ++ operation ++ " was refused: " ++ message.
Definition is_permission (e : string) : bool := starts_with permission_prefix e.
Definition plain_error (message : string) : string := "Error: " ++ message.

Section Worker.
(** A version 4 UUID, given every identifier in use: see the hypothesis where it matters. *)
Variable randomUUID_ : list string -> string.

Definition used (s : ci) : list string := ((incarnation <$> past s) ++ drawn s)%list.
Definition randomUUID : M string := call (fun s => let id := randomUUID_ (used s) in (id, draw id s)).

(** ** The database *)

Definition statement {A} (f : ci -> A * ci) : M A :=
  answer ← call (fun s => match database s with
                          | works => let '(a, s') := f s in (Some a, s')
                          | refuses => (None, s)
                          | loses_answer => (None, snd (f s))
                          end);
  match answer with Some a => mret a | None => throw (plain_error "database") end.
Definition query {A} (f : ci -> A) (e : A -> Event) : M A :=
  answer ← call (fun s => match database s with works => (Some (f s), note (e (f s)) s) | _ => (None, s) end);
  match answer with Some a => mret a | None => throw (plain_error "database") end.

Definition loadSuspension : M (option CiSuspensionRecord) := query row loaded.

Definition is_version (record r : CiSuspensionRecord) : bool :=
  bool_decide (task_id r = task_id record) && bool_decide (generation r = generation record) && bool_decide (incarnation r = incarnation record).
(** [UPDATE ... SET set WHERE task_id, generation and incarnation are the record's] *)
Definition update_version (record : CiSuspensionRecord) (set : CiSuspensionRecord -> CiSuspensionRecord) (s : ci) : bool * ci :=
  match row s with
  | Some r => if is_version record r then (true, note (saved (set r)) (set_row (Some (set r)) s)) else (false, s)
  | None => (false, s)
  end.
Definition delete_version (record : CiSuspensionRecord) (s : ci) : bool * ci :=
  match row s with
  | Some r => if is_version record r then (true, set_row None s) else (false, s)
  | None => (false, s)
  end.
Definition insert_row (record : CiSuspensionRecord) (s : ci) : bool * ci :=
  match row s with Some _ => (false, s) | None => (true, note (saved record) (set_row (Some record) s)) end.

Definition deleteSuspension (record : CiSuspensionRecord) : M bool := statement (delete_version record).

(** The columns a save writes *)
Definition set_progress (next r : CiSuspensionRecord) : CiSuspensionRecord :=
  Rec (head_sha r) (task_id r) (correlation_id r) (state next) (cancelled_runs next) (attempts next)
    (generation next) (incarnation r) (created_at r) (updated_at next).
Definition saveCancelledRuns (record : CiSuspensionRecord) (runs : list CancelledRun) (changes : option (SuspensionState * Z)) : M (option CiSuspensionRecord) :=
  timestamp ← asks now;
  let next := Rec (head_sha record) (task_id record) (correlation_id record) (default (state record) (fst <$> changes)) runs
                (default (attempts record) (snd <$> changes)) (generation record + 1) (incarnation record) (created_at record) timestamp in
  updated ← statement (update_version record (set_progress next));
  mret (if updated : bool then Some next else None).

(** Every column but [created_at] *)
Definition set_reservation (record r : CiSuspensionRecord) : CiSuspensionRecord :=
  Rec (head_sha record) (task_id record) (correlation_id record) (state record) (cancelled_runs record) (attempts record)
    (generation record) (incarnation record) (created_at r) (updated_at record).
Definition takeOverSuspension (existing record : CiSuspensionRecord) : M bool := statement (update_version existing (set_reservation record)).
Definition insertSuspension (record : CiSuspensionRecord) : M bool :=
  catch
    (inserted ← statement (insert_row record);
     if inserted : bool then mret true else throw (plain_error "UNIQUE constraint failed"))
    (fun e => conflicting ← loadSuspension; match conflicting with Some _ => mret false | None => throw e end).

(** ** The lease *)

Definition LEASE_TTL_MS : Z := 2 * 60 * 1000.
Definition LEASE_ACQUIRE_TIMEOUT_MS : Z := 30 * 1000.
Definition LEASE_RETRY_INTERVAL_MS : Z := 250.

Definition lease_is (token : string) (s : ci) : bool := match lease s with Some l => bool_decide (l_token l = token) | None => false end.
Definition claimExpired (token : string) : M bool :=
  statement (fun s => match lease s with
                      | Some l => if expires_at l <=? now s then (true, set_lease (Some (Lease token (now s + LEASE_TTL_MS))) s) else (false, s)
                      | None => (false, s)
                      end).
Definition tryAcquire (token : string) : M bool :=
  inserted ← attempt_ (statement (fun s => match lease s with
                                           | None => (true, set_lease (Some (Lease token (now s + LEASE_TTL_MS))) s)
                                           | Some _ => (false, s)
                                           end));
  match inserted with Ok true => mret true | _ => claimExpired token end.
Definition renewLease (token : string) : M bool :=
  statement (fun s => if lease_is token s then (true, note held (set_lease (Some (Lease token (now s + LEASE_TTL_MS))) s)) else (false, s)).
Definition releaseLease (token : string) : M bool :=
  statement (fun s => if lease_is token s then (true, set_lease None s) else (false, s)).
Definition assertHeld (token : string) : M unit :=
  renewed ← renewLease token; if renewed : bool then mret tt else throw LEASE_LOST.

Fixpoint acquire (fuel : nat) (token : string) (deadline : Z) : M unit :=
  acquired ← tryAcquire token;
  if acquired : bool then mret tt
  else
    t ← asks now;
    if deadline <=? t then throw LEASE_UNAVAILABLE
    else
      match fuel with
      | O => throw "out of fuel"
      | S fuel => _ ← sleep LEASE_RETRY_INTERVAL_MS; acquire fuel token deadline
      end.
Definition acquire_fuel : nat := Z.to_nat (LEASE_ACQUIRE_TIMEOUT_MS / LEASE_RETRY_INTERVAL_MS).

Definition withSuspensionLease {A} (operation : string -> M A) : M A :=
  token ← randomUUID;
  start ← asks now;
  _ ← acquire acquire_fuel token (start + LEASE_ACQUIRE_TIMEOUT_MS);
  outcome ← attempt_ (operation token);
  _ ← attempt_ (releaseLease token);
  or_throw outcome.

(** ** Requests *)

Definition request {A} (f : GitHub -> response A) (e : response A -> Event) : M (response A) :=
  call (fun s => let r := f (github s) in (r, note (e r) s)).

(** [undefined] for a 404. *)
Definition found {A} (r : response A) : M (option A) :=
  match r with
  | answered a => mret (Some a)
  | failed status message => if isMissing status then mret None else throw (plain_error message)
  end.
Definition getRun (id : Z) : M (option WorkflowRunSummary) := r ← request (fun g => g_run g id) (saw_run id); found r.
Definition getRunAttempt (id n : Z) : M (option WorkflowRunSummary) := r ← request (fun g => g_attempt g id n) (saw_attempt id n); found r.
Definition getPullRequestHead : M (option PullRequestHead) :=
  r ← request g_head saw_head;
  live ← found r;
  mret (match live with
        | Some (Some h) => if bool_decide (sha h = "") then None else Some h
        | _ => None
        end).

Fixpoint list_pages (pages : nat) (page : Z) (headSha : string) (runs : list WorkflowRunSummary) : M (list WorkflowRunSummary) :=
  match pages with
  | O => mret runs
  | S pages =>
      r ← request (fun g => g_runs g headSha page) (saw_runs headSha page);
      match r with
      | failed _ message => throw (plain_error message)
      | answered (pageRuns, total_count) =>
          let runs := add_page pageRuns runs in
          if (length pageRuns <? RUNS_PER_PAGE)%nat then mret runs
          else if match total_count with Some n => n <=? Z.of_nat (length runs) | None => false end then mret runs
          else list_pages pages (page + 1) headSha runs
      end
  end.
Definition listRunsForSha (headSha : string) : M (list WorkflowRunSummary) := list_pages MAX_RUN_PAGES 1 headSha [].

(** The first attempt from [attempt] on that ended cancelled, else the live one. *)
Fixpoint locate_from (n : nat) (id attempt live : Z) : M (option Z) :=
  match n with
  | O => mret (Some live)
  | S n =>
      earlier ← getRunAttempt id attempt;
      match earlier with
      | None => mret None
      | Some e => if cancelled e then mret (Some attempt) else locate_from n id (attempt + 1) live
      end
  end.
Definition locateCancelledAttempt (id : Z) (observed : option Z) (live : WorkflowRunSummary) : M (option Z) :=
  match run_attempt live, observed with
  | Some l, Some o => if l <? o then mret None else locate_from (Z.to_nat (l - o)) id o l
  | _, _ => mret None
  end.

Definition cancelRun (id : Z) : M bool :=
  r ← request (fun g => g_cancel g id) (sent_cancel id);
  match r with
  | answered _ => mret true
  | failed status message =>
      if isConflict status then mret false
      else if isPermissionError status message then throw (permission_error "cancellation" message)
      else throw (plain_error message)
  end.

Inductive RerunOutcome := rerun_restarted | rerun_exists | rerun_unconfirmed.
Definition rerunRun (id : Z) (evidence : option Z) : M RerunOutcome :=
  r ← request (fun g => g_rerun g id) (sent_rerun id);
  match r with
  | answered _ => mret rerun_restarted
  | failed status message =>
      if isPermissionError status message then throw (permission_error "rerun" message)
      else
        live ← catch (getRun id) (fun _ => mret None);
        mret (match live with
              | Some live => if past_attempt live evidence then if isConflict status then rerun_exists else rerun_restarted else rerun_unconfirmed
              | None => rerun_unconfirmed
              end)
  end.
End Worker.
