(* ===== verification/CiOperations.v ===== *)
(** * Suspending the CI of a pull request during a follow-up: the operations

    src/jobs/followupCiSuspensionCancel.ts (reserving the pull request and cancelling its
    runs) and followupCiSuspension.ts (sweeping, restoring, releasing and reconciling), as
    programs of one worker over one pull request. *)

From S2P Require Import Prelude JsString Interleave CiRuns CiSuspend.

Open Scope string_scope.
Open Scope Z_scope.

Definition MAX_SUSPENSION_AGE_MS : Z := 6 * 60 * 60 * 1000.
Definition MAX_RESTORE_ATTEMPTS : Z := 60.
Definition DEFAULT_RESTORE_BUDGET_MS : Z := 15000.
Definition DEFAULT_POLL_INTERVAL_MS : Z := 2000.

Definition owed (run : CancelledRun) : bool := negb (restarted run).
Definition owed_ids (runs : list CancelledRun) : list Z := cr_id <$> filter (fun r => owed r = true) runs.

Section Operations.
Variable randomUUID_ : list string -> string.
Variable pullRequestNumber : Z.

(** ** Reserving the pull request *)

Definition reserveSuspension (headSha taskId : string) (correlationId : option string) (assertOwned : M unit) : M (option (CiSuspensionRecord * list CancelledRun)) :=
  existing ← loadSuspension;
  _ ← assertOwned;
  timestamp ← asks now;
  match existing with
  | Some e =>
      let runs := if sameSha (Some (head_sha e)) (Some headSha) then cancelled_runs e else [] in
      let record := Rec headSha taskId correlationId SUSPENSION_ACTIVE runs 0 (generation e + 1) (incarnation e) (created_at e) timestamp in
      reserved ← takeOverSuspension e record;
      mret (if reserved : bool then Some (record, runs) else None)
  | None =>
      id ← randomUUID randomUUID_;
      let record := Rec headSha taskId correlationId SUSPENSION_ACTIVE [] 0 1 id timestamp timestamp in
      reserved ← insertSuspension record;
      mret (if reserved : bool then Some (record, []) else None)
  end.

(** ** Cancelling runs *)

Record CancellationState := Cancellation {
  cs_record : CiSuspensionRecord;
  cs_runs : list CancelledRun;
  cancelledRunIds : list Z;
  ownershipLost : bool;
  inheritedObligations : list Z;
}.
Definition cancellationState (record : CiSuspensionRecord) (runs : list CancelledRun) : CancellationState :=
  Cancellation record runs [] false (owed_ids runs).
Definition set_runs (runs : list CancelledRun) (c : CancellationState) : CancellationState :=
  Cancellation (cs_record c) runs (cancelledRunIds c) (ownershipLost c) (inheritedObligations c).
Definition set_record (r : CiSuspensionRecord) (c : CancellationState) : CancellationState :=
  Cancellation r (cs_runs c) (cancelledRunIds c) (ownershipLost c) (inheritedObligations c).
Definition lose (c : CancellationState) : CancellationState :=
  Cancellation (cs_record c) (cs_runs c) (cancelledRunIds c) true (inheritedObligations c).
Definition add_cancelled (id : Z) (c : CancellationState) : CancellationState :=
  Cancellation (cs_record c) (cs_runs c) (cancelledRunIds c ++ [id])%list (ownershipLost c) (inheritedObligations c).
Abbreviation C := (Local_ ci CancellationState).

Definition persistIntent : C bool :=
  c ← locals;
  saved ← lift (saveCancelledRuns (cs_record c) (cs_runs c) None);
  match saved with
  | None => _ ← assign lose; mret false
  | Some r => _ ← assign (set_record r); mret true
  end.

(** Takes the entry at [k] back to what it was. *)
Definition withdraw_entry (k : nat) (previous : option CancelledRun) (runs : list CancelledRun) : list CancelledRun :=
  match previous with Some p => <[k := p]> runs | None => delete k runs end.
Definition withdrawIntent (k : nat) (previous : option CancelledRun) : C bool :=
  _ ← assign (fun c => set_runs (withdraw_entry k previous (cs_runs c)) c);
  persistIntent.

Definition stillObservedRun (observed : WorkflowRunSummary) (headSha : string) (policy : ValidationWorkflowPolicy) : M bool :=
  current ← getRun (w_id observed);
  mret (match current with
        | Some c => isCancelableValidationRun c pullRequestNumber headSha policy && bool_decide (run_attempt c = run_attempt observed)
        | None => false
        end).

Definition intent_of (run : WorkflowRunSummary) : CancelledRun := Entry (w_id run) (w_name run) (w_workflow_id run) (run_attempt run) None false.
Definition with_attempt (a : Z) (r : CancelledRun) : CancelledRun := Entry (cr_id r) (cr_name r) (cr_workflowId r) (observedAttempt r) (Some a) (restarted r).

(** The position of the run's entry, or the one past the end. *)
Definition entry_index (id : Z) (runs : list CancelledRun) : nat :=
  match list_find (fun e => cr_id e = id) runs with Some (k, _) => k | None => length runs end.
Definition put_entry (k : nat) (e : CancelledRun) (runs : list CancelledRun) : list CancelledRun :=
  if decide (k < length runs)%nat then <[k := e]> runs else (runs ++ [e])%list.

(** After GitHub accepted the request: which attempt it affected. *)
Definition confirm_attempt (run : WorkflowRunSummary) (k : nat) : C bool :=
  affected ← lift (catch (getRun (w_id run)) (fun _ => mret None));
  match affected with
  | None => mret true
  | Some live =>
      cancelledAttempt ← lift (catch (locateCancelledAttempt (w_id run) (run_attempt run) live) (fun _ => mret None));
      match cancelledAttempt with
      | None => mret true
      | Some a => _ ← assign (fun c => set_runs (alter (with_attempt a) k (cs_runs c)) c); persistIntent
      end
  end.

(** Once the intent is written. *)
Definition cancel_recorded (token headSha : string) (policy : ValidationWorkflowPolicy) (run : WorkflowRunSummary) (k : nat) (previous : option CancelledRun) : C bool :=
  _ ← lift (assertHeld token);
  unchanged ← handle (lift (stillObservedRun run headSha policy)) (fun e => _ ← withdrawIntent k previous; raise e);
  if negb unchanged then withdrawIntent k previous
  else
    _ ← lift (assertHeld token);
    accepted ← handle (lift (cancelRun (w_id run))) (fun e => if is_permission e then _ ← withdrawIntent k previous; raise e else raise e);
    if negb accepted then withdrawIntent k previous
    else
      _ ← assign (add_cancelled (w_id run));
      confirm_attempt run k.

Definition cancelObservedRun (token headSha : string) (policy : ValidationWorkflowPolicy) (run : WorkflowRunSummary) : C bool :=
  c ← locals;
  let k := entry_index (w_id run) (cs_runs c) in
  let previous := cs_runs c !! k in
  _ ← assign (set_runs (put_entry k (intent_of run) (cs_runs c)));
  ok ← persistIntent;
  if negb ok then mret false else cancel_recorded token headSha policy run k previous.

Fixpoint cancel_listed (token headSha : string) (policy : ValidationWorkflowPolicy) (listed : list WorkflowRunSummary) : C unit :=
  match listed with
  | [] => mret tt
  | l :: listed =>
      if negb (isCancelableValidationRun l pullRequestNumber headSha policy) then cancel_listed token headSha policy listed
      else
        _ ← lift (assertHeld token);
        run ← lift (getRun (w_id l));
        match run with
        | None => cancel_listed token headSha policy listed
        | Some run =>
            if negb (isCancelableValidationRun run pullRequestNumber headSha policy) then cancel_listed token headSha policy listed
            else
              go ← cancelObservedRun token headSha policy run;
              if go : bool then cancel_listed token headSha policy listed else mret tt
        end
  end.

Definition read_policy : M ValidationWorkflowPolicy :=
  selection ← asks selection;
  selection ← or_throw selection;
  env ← asks env;
  call (fun s => let policy := resolvePolicy selection env in (policy, note (chosen policy) s)).

Definition cancelPendingRuns (token : string) (policy : M ValidationWorkflowPolicy) : C unit :=
  c ← locals;
  let headSha := head_sha (cs_record c) in
  policy ← lift policy;
  match selected policy with
  | [] => mret tt
  | _ =>
      listed ← lift (listRunsForSha headSha);
      cancel_listed token headSha policy listed
  end.

(** ** Beginning *)

Inductive BeginReason :=
  | b_suspended | b_disabled | b_no_workflows_selected | b_selection_unreadable | b_no_destination
  | b_head_unavailable | b_permission_denied | b_superseded | b_busy | b_error.
Definition BeginSuspensionResult : Type := BeginReason * list Z.

Definition leavesNothingToRestore (c : CancellationState) (permission : bool) : bool :=
  negb (ownershipLost c) && bool_decide (cancelledRunIds c = []) && bool_decide (inheritedObligations c = [])
  && (permission || bool_decide (cs_runs c = [])).
Definition settleFailedStart (e : string) (c : option CancellationState) : M BeginSuspensionResult :=
  if bool_decide (e = LEASE_LOST) then mret (b_busy, match c with Some c => cancelledRunIds c | None => [] end)
  else
    _ ← (match c with
         | Some c => if leavesNothingToRestore c (is_permission e) then _ ← attempt_ (deleteSuspension (cs_record c)); mret tt else mret tt
         | None => mret tt
         end);
    mret (if is_permission e then b_permission_denied else b_error, []).

(** Up to the reservation: the result, or the reserved record. *)
Definition reserve_head (token taskId : string) (correlationId : option string) : M (BeginReason + CancellationState * ValidationWorkflowPolicy) :=
  on ← asks enabled;
  on ← or_throw on;
  if negb on then mret (inl b_disabled)
  else
    policy ← read_policy;
    if bool_decide (source policy = unreadable) then mret (inl b_selection_unreadable)
    else
      match selected policy with
      | [] => mret (inl b_no_workflows_selected)
      | _ =>
          live ← getPullRequestHead;
          match live with
          | Some h =>
              if negb (open h) then mret (inl b_head_unavailable)
              else
                _ ← assertHeld token;
                reserved ← reserveSuspension (sha h) taskId correlationId (assertHeld token);
                mret (match reserved with
                      | None => inl b_superseded
                      | Some (record, runs) => inr (cancellationState record runs, policy)
                      end)
          | None => mret (inl b_head_unavailable)
          end
      end.

Definition beginSuspension (taskId : string) (correlationId : option string) (token : string) : M BeginSuspensionResult :=
  start ← attempt_ (reserve_head token taskId correlationId);
  match start with
  | Throw e => settleFailedStart e None
  | Ok (inl reason) => mret (reason, [])
  | Ok (inr (c, policy)) =>
      '(c, outcome) ← cancelPendingRuns token (mret policy) c;
      match outcome with
      | Throw e => settleFailedStart e (Some c)
      | Ok _ => mret (if ownershipLost c then b_superseded else b_suspended, cancelledRunIds c)
      end
  end.

Definition beginFollowupCiSuspension (taskId : string) (correlationId : option string) : M BeginSuspensionResult :=
  catch (withSuspensionLease randomUUID_ (beginSuspension taskId correlationId))
    (fun e => mret (if bool_decide (e = LEASE_UNAVAILABLE) then b_busy else b_error, [])).

(** ** Sweeping *)

Inductive SweepReason := sw_swept | sw_head_replaced | sw_pull_request_closed | sw_head_unavailable | sw_superseded | sw_busy.

(** The row is still the suspension the caller was handed. *)
Definition same_suspension (record : CiSuspensionRecord) (current : CiSuspensionRecord) : bool :=
  bool_decide (incarnation current = incarnation record) && bool_decide (task_id current = task_id record)
  && sameSha (Some (head_sha current)) (Some (head_sha record)).

Definition sweepSuspension (record : CiSuspensionRecord) (token : string) : M (SweepReason * list Z) :=
  current ← loadSuspension;
  match current with
  | None => mret (sw_superseded, [])
  | Some current =>
      if negb (same_suspension record current) then mret (sw_superseded, [])
      else if negb (bool_decide (state current = SUSPENSION_ACTIVE)) then mret (sw_superseded, [])
      else
        live ← getPullRequestHead;
        match live with
        | None => mret (sw_head_unavailable, [])
        | Some h =>
            if negb (open h) then _ ← deleteSuspension current; mret (sw_pull_request_closed, [])
            else if negb (sameSha (Some (sha h)) (Some (head_sha current))) then _ ← deleteSuspension current; mret (sw_head_replaced, [])
            else
              '(c, outcome) ← cancelPendingRuns token read_policy (cancellationState current (cancelled_runs current));
              _ ← or_throw outcome;
              mret (if ownershipLost c then sw_superseded else sw_swept, cancelledRunIds c)
        end
  end.
Definition is_lease_error (e : string) : bool := bool_decide (e = LEASE_UNAVAILABLE) || bool_decide (e = LEASE_LOST).
Definition sweepFollowupCiSuspension (record : CiSuspensionRecord) : M (SweepReason * list Z) :=
  catch (withSuspensionLease randomUUID_ (sweepSuspension record))
    (fun e => if is_lease_error e then mret (sw_busy, []) else throw e).

(** ** Restoring *)

Inductive RestoreReason :=
  | rs_restarted | rs_head_replaced | rs_pull_request_closed | rs_head_unavailable | rs_pending
  | rs_permission_denied | rs_superseded | rs_blocked | rs_busy.
#[export] Instance RestoreReason_eq_dec : EqDecision RestoreReason.
Proof. solve_decision. Defined.
Definition RETAINED_RESTORE_REASONS : list RestoreReason :=
  [rs_pending; rs_permission_denied; rs_blocked; rs_superseded; rs_busy; rs_head_unavailable].

Record RestoreState := Restoring { r_current : CiSuspensionRecord; r_runs : list CancelledRun; restartedRunIds : list Z; progressed : bool }.
Definition with_runs (runs : list CancelledRun) (r : RestoreState) : RestoreState := Restoring (r_current r) runs (restartedRunIds r) (progressed r).
Definition with_current (c : CiSuspensionRecord) (r : RestoreState) : RestoreState := Restoring c (r_runs r) (restartedRunIds r) (progressed r).
Definition add_restarted (id : Z) (r : RestoreState) : RestoreState := Restoring (r_current r) (r_runs r) (restartedRunIds r ++ [id])%list (progressed r).
Definition mark (r : CancelledRun) : CancelledRun := Entry (cr_id r) (cr_name r) (cr_workflowId r) (observedAttempt r) (attempt r) true.
Definition settle_entry (k : nat) (r : RestoreState) : RestoreState := Restoring (r_current r) (alter mark k (r_runs r)) (restartedRunIds r) true.
Definition new_pass (r : RestoreState) : RestoreState := Restoring (r_current r) (r_runs r) (restartedRunIds r) false.
Abbreviation R := (Local_ ci RestoreState).

Inductive Assessment := as_pending | as_settled | as_rerun (cancelledAttempt : option Z).
Definition attemptAdvanced (run : CancelledRun) (live : WorkflowRunSummary) : bool := past_attempt live (attempt run).
Definition assessCancelledRun (run : CancelledRun) (activeWorkflowIds : list Z) : M Assessment :=
  live ← getRun (cr_id run);
  match live with
  | None => mret as_pending
  | Some live =>
      if attemptAdvanced run live then mret as_settled
      else if negb (completed live) then mret as_pending
      else if negb (cancelled live) then mret as_settled
      else if match cr_workflowId run with Some w => bool_decide (w ∈ activeWorkflowIds) | None => false end then mret as_settled
      else
        match attempt run, observedAttempt run with
        | Some a, _ => mret (as_rerun (Some a))
        | None, None => mret (as_rerun (run_attempt live))
        | None, Some o =>
            located ← locateCancelledAttempt (cr_id run) (Some o) live;
            mret (match located with
                  | None => as_pending
                  | Some a => if past_attempt live (Some a) then as_settled else as_rerun (Some a)
                  end)
        end
  end.

Inductive Owed := owed_pending | owed_settled | owed_rerun.
Definition stillOwedRerun (run : CancelledRun) : M Owed :=
  live ← getRun (cr_id run);
  mret (match live with
        | None => owed_pending
        | Some live =>
            if attemptAdvanced run live then owed_settled
            else if negb (completed live) then owed_pending
            else if negb (cancelled live) then owed_settled
            else owed_rerun
        end).

Definition releaseObsoleteHead (record : CiSuspensionRecord) : M (option RestoreReason) :=
  live ← getPullRequestHead;
  match live with
  | None => mret (Some rs_head_unavailable)
  | Some h =>
      if negb (open h) then _ ← deleteSuspension record; mret (Some rs_pull_request_closed)
      else if sameSha (Some (sha h)) (Some (head_sha record)) then mret None
      else _ ← deleteSuspension record; mret (Some rs_head_replaced)
  end.

Section Restore.
Variable token : string.
Variable attempts : Z.

Definition persist : R bool :=
  r ← locals;
  saved ← lift (saveCancelledRuns (r_current r) (r_runs r) (Some (SUSPENSION_RESTORING, attempts)));
  match saved with
  | None => mret false
  | Some c => _ ← assign (with_current c); mret true
  end.

Definition gate : R (option RestoreReason) :=
  _ ← lift (assertHeld token);
  r ← locals;
  stopped ← lift (releaseObsoleteHead (r_current r));
  match stopped with
  | Some reason => mret (Some reason)
  | None => _ ← lift (assertHeld token); mret None
  end.

(** Sends the rerun: whether the obligation is met. *)
Definition send_rerun (run : CancelledRun) : R bool :=
  _ ← lift (assertHeld token);
  outcome ← lift (rerunRun (cr_id run) (attempt run));
  match outcome with
  | rerun_unconfirmed => mret false
  | rerun_restarted => _ ← assign (add_restarted (cr_id run)); mret true
  | rerun_exists => mret true
  end.

(** The attempt a rerun would restart is on record before the rerun leaves. *)
Definition record_attempt (k : nat) (run : CancelledRun) (cancelledAttempt : option Z) : R bool :=
  match attempt run, cancelledAttempt with
  | None, Some a => _ ← assign (fun r => with_runs (alter (with_attempt a) k (r_runs r)) r); persist
  | _, _ => mret true
  end.

(** Behind the gate: the run is read once more. *)
Definition rerun_entry (k : nat) (run : CancelledRun) : R (option RestoreReason) :=
  still ← lift (stillOwedRerun run);
  match still with
  | owed_pending => mret None
  | owed_settled => _ ← assign (settle_entry k); mret None
  | owed_rerun =>
      met ← send_rerun run;
      if met : bool then _ ← assign (settle_entry k); mret None else mret None
  end.

(** One run of the pass: why the pass stops, if it does. *)
Definition restart_run (activeWorkflowIds : list Z) (k : nat) : R (option RestoreReason) :=
  r ← locals;
  match r_runs r !! k with
  | None => mret None
  | Some run =>
      decision ← lift (assessCancelledRun run activeWorkflowIds);
      match decision with
      | as_pending => mret None
      | as_settled => _ ← assign (settle_entry k); mret None
      | as_rerun cancelledAttempt =>
          recorded ← record_attempt k run cancelledAttempt;
          if negb recorded then mret (Some rs_superseded)
          else
            stopped ← gate;
            match stopped with
            | Some reason => mret (Some reason)
            | None =>
                r ← locals;
                match r_runs r !! k with
                | None => mret None
                | Some run => rerun_entry k run
                end
            end
      end
  end.

Fixpoint restart_runs (activeWorkflowIds : list Z) (ks : list nat) : R (option RestoreReason) :=
  match ks with
  | [] => mret None
  | k :: ks =>
      stopped ← restart_run activeWorkflowIds k;
      match stopped with Some reason => mret (Some reason) | None => restart_runs activeWorkflowIds ks end
  end.

(** The workflows whose validation already runs again, other than in recorded runs. *)
Definition active_workflows (headSha : string) (runs : list CancelledRun) (listed : list WorkflowRunSummary) : list Z :=
  omap w_workflow_id (filter (fun l => (w_id l ∉ cr_id <$> runs) /\ isReplacementValidationRun l pullRequestNumber headSha = true) listed).
(** The positions of the runs still owed. *)
Definition owed_positions (runs : list CancelledRun) : list nat :=
  filter (fun k => default false (owed <$> runs !! k) = true) (seq 0 (length runs)).

Definition restartPass : R (option RestoreReason) :=
  _ ← assign new_pass;
  r ← locals;
  let headSha := head_sha (r_current r) in
  listed ← lift (listRunsForSha headSha);
  restart_runs (active_workflows headSha (r_runs r) listed) (owed_positions (r_runs r)).

Definition saveProgress (stopped : option RestoreReason) : R bool :=
  r ← locals;
  if negb (progressed r) || match stopped with Some reason => negb (bool_decide (reason ∈ RETAINED_RESTORE_REASONS)) | None => false end
  then mret true else persist.

Definition deferRestore : R RestoreReason :=
  r ← locals;
  let budgetSpent := MAX_RESTORE_ATTEMPTS <=? attempts in
  _ ← lift (saveCancelledRuns (r_current r) (r_runs r) (Some (if budgetSpent then SUSPENSION_BLOCKED else SUSPENSION_RESTORING, attempts)));
  mret (if budgetSpent then rs_blocked else rs_pending).

Fixpoint restore_passes (fuel : nat) (deadline : Z) : R RestoreReason :=
  match fuel with
  | O => raise "out of fuel"
  | S fuel =>
      stopped ← restartPass;
      kept ← saveProgress stopped;
      if negb kept then mret rs_superseded
      else
        match stopped with
        | Some reason => mret reason
        | None =>
            r ← locals;
            match filter (fun e => owed e = true) (r_runs r) with
            | [] => _ ← lift (deleteSuspension (r_current r)); mret rs_restarted
            | _ =>
                t ← lift (asks now);
                if deadline <=? t then deferRestore
                else
                  _ ← lift (sleep DEFAULT_POLL_INTERVAL_MS);
                  stopped ← gate;
                  match stopped with Some reason => mret reason | None => restore_passes fuel deadline end
            end
        end
  end.
Definition restore_fuel : nat := S (S (Z.to_nat (DEFAULT_RESTORE_BUDGET_MS / DEFAULT_POLL_INTERVAL_MS))).

(** What an exception leaves recorded. *)
Definition recover_restore (attemptsBeforeRestore : Z) (e : string) : R RestoreReason :=
  r ← locals;
  if is_permission e then
    _ ← lift (attempt_ (saveCancelledRuns (r_current r) (r_runs r) (Some (SUSPENSION_BLOCKED, attemptsBeforeRestore))));
    mret rs_permission_denied
  else
    _ ← lift (attempt_ (saveCancelledRuns (r_current r) (r_runs r) (Some (SUSPENSION_RESTORING, attempts))));
    raise e.
End Restore.

Definition RestoreSuspensionResult : Type := RestoreReason * list Z * list Z.
Definition restoreSuspension (record : CiSuspensionRecord) (token : string) : M RestoreSuspensionResult :=
  found_ ← loadSuspension;
  match found_ with
  | None => mret (rs_superseded, [], [])
  | Some found_ =>
      if negb (same_suspension record found_) then mret (rs_superseded, [], [])
      else
        let tried := attempts found_ + 1 in
        let runs := cancelled_runs found_ in
        obsolete ← releaseObsoleteHead found_;
        match obsolete with
        | Some reason => mret (reason, [], owed_ids runs)
        | None =>
            restoring ← (if bool_decide (state found_ = SUSPENSION_RESTORING) then mret (Some found_)
                         else saveCancelledRuns found_ runs (Some (SUSPENSION_RESTORING, tried)));
            match restoring with
            | None => mret (rs_superseded, [], [])
            | Some current =>
                start ← asks now;
                '(r, outcome) ← handle (restore_passes token tried restore_fuel (start + DEFAULT_RESTORE_BUDGET_MS))
                                  (recover_restore tried (attempts found_)) (Restoring current runs [] false);
                reason ← or_throw outcome;
                mret (reason, restartedRunIds r, owed_ids (r_runs r))
            end
        end
  end.
Definition restoreFollowupCiSuspension (record : CiSuspensionRecord) : M RestoreSuspensionResult :=
  catch (withSuspensionLease randomUUID_ (restoreSuspension record))
    (fun e => if is_lease_error e then mret (rs_busy, [], owed_ids (cancelled_runs record)) else throw e).

(** ** Releasing and reconciling *)

Definition releaseFollowupCiSuspensionsForTask (taskId : string) : M (option (result RestoreSuspensionResult)) :=
  record ← loadSuspension;
  match record with
  | Some r => if bool_decide (task_id r = taskId) then outcome ← attempt_ (restoreFollowupCiSuspension r); mret (Some outcome) else mret None
  | None => mret None
  end.

Definition isOwnerActive : M bool := active ← asks owner_active; mret (match active with Ok a => a | Throw _ => false end).
Definition keepsSuppressing (record : CiSuspensionRecord) (on : bool) : M bool :=
  if negb on || negb (bool_decide (state record = SUSPENSION_ACTIVE)) then mret false
  else
    t ← asks now;
    if MAX_SUSPENSION_AGE_MS <=? t - created_at record then mret false else isOwnerActive.

Definition reconcileFollowupCiSuspensions : M (option (result (SweepReason + RestoreReason))) :=
  record ← loadSuspension;
  match record with
  | None => mret None
  | Some r =>
      outcome ← attempt_
        (on ← asks enabled;
         on ← or_throw on;
         suppress ← keepsSuppressing r on;
         if suppress : bool then swept ← sweepFollowupCiSuspension r; mret (inl swept.1)
         else restored ← restoreFollowupCiSuspension r; mret (inr restored.1.1));
      mret (Some outcome)
  end.
End Operations.
