(* ===== verification/CiRules.v ===== *)
(** * CI suspension: what its operations promise, and rules to reason about them

    What a worker relies on and keeps ([good], [own]), the evidence that settles an
    obligation ([justified]), what must precede a request ([guarded]), and a rule for each
    primitive of CiSuspend.v over one form of assertion ([Inv]). *)

From S2P Require Import Prelude JsString Interleave CiRuns CiSuspend CiOperations.

Open Scope string_scope.
Open Scope Z_scope.
Open Scope list_scope.

(** ** Versions *)

Record wf (s : ci) : Prop := {
  wf_unique : forall r r', r ∈ past s -> r' ∈ past s -> incarnation r = incarnation r' -> generation r = generation r' -> r = r';
  wf_row : forall r, row s = Some r -> r ∈ past s /\ forall r', r' ∈ past s -> incarnation r' = incarnation r -> generation r' <= generation r;
}.

(** What one worker relies on: others write new versions only, never under an identifier
    this worker has drawn, and time does not go back. *)
Definition good (g : ci -> ci) : Prop := forall s, wf s ->
  wf (g s) /\ past s ⊆ past (g s) /\ log (g s) = log s /\ drawn (g s) = drawn s /\ now s <= now (g s)
  /\ forall r, r ∈ past (g s) -> incarnation r ∈ drawn s -> incarnation r ∈ incarnation <$> past s.

(** ** Evidence *)

Definition refused (r : response unit) : bool :=
  match r with answered _ => false | failed status message => isConflict status || isPermissionError status message end.
(** A request that may have cancelled the run. *)
Definition may_cancel (id : Z) (e : Event) : bool :=
  match e with sent_cancel i r => bool_decide (i = id) && negb (refused r) | _ => false end.
Definition cancelled_here (L : list Event) (id : Z) : bool := existsb (may_cancel id) L.
Definition last_loaded (L : list Event) : option CiSuspensionRecord :=
  foldl (fun acc e => match e with loaded r => r | _ => acc end) None L.
Definition sent (e : Event) : bool := match e with sent_cancel _ _ | sent_rerun _ _ => true | _ => false end.

Definition same_head (r r' : CiSuspensionRecord) : Prop := to_lower (head_sha r') = to_lower (head_sha r).
(** Its head is no longer the open pull request's. *)
Definition obsolete (L : list Event) (r : CiSuspensionRecord) : Prop :=
  exists h, saw_head (answered (Some h)) ∈ L /\ (open h = false \/ sameSha (Some (sha h)) (Some (head_sha r)) = false).
(** The attempt known to be the cancelled one. *)
Definition cancelled_attempt (L : list Event) (e : CancelledRun) (a : Z) : Prop :=
  attempt e = Some a \/
  attempt e = None /\ exists o x, observedAttempt e = Some o /\ o <= a /\ saw_attempt (cr_id e) a (answered x) ∈ L /\ cancelled x = true.

Section Rules.
Variable randomUUID_ : list string -> string.
Variable pullRequestNumber : Z.

(** Its validation exists again, or ended otherwise than cancelled. *)
Definition settled (L : list Event) (r : CiSuspensionRecord) (e : CancelledRun) : Prop :=
  (exists live a, saw_run (cr_id e) (answered live) ∈ L /\ past_attempt live (Some a) = true /\ cancelled_attempt L e a)
  \/ (exists live, saw_run (cr_id e) (answered live) ∈ L /\ completed live = true /\ cancelled live = false)
  \/ (exists page runs n l, saw_runs (head_sha r) page (answered (runs, n)) ∈ L /\ l ∈ runs /\ isReplacementValidationRun l pullRequestNumber (head_sha r) = true
        /\ (w_id l ∉ cr_id <$> cancelled_runs r) /\ cr_workflowId e <> None /\ w_workflow_id l = cr_workflowId e)
  \/ sent_rerun (cr_id e) (answered tt) ∈ L.
(** This worker recorded the run, no request of it may have cancelled it, and the record it
    started from did not owe it. *)
Definition withdrawn (L : list Event) (r : CiSuspensionRecord) (e : CancelledRun) : Prop :=
  saved r ∈ L /\ cancelled_here L (cr_id e) = false
  /\ forall rec, last_loaded L = Some rec -> sameSha (Some (head_sha rec)) (Some (head_sha r)) = true -> cr_id e ∉ owed_ids (cancelled_runs rec).
Definition justified (L : list Event) (r : CiSuspensionRecord) (e : CancelledRun) : Prop :=
  obsolete L r \/ settled L r e \/ withdrawn L r e.

(** Every obligation of [r] is one of [o], under the same head, or is settled. *)
Definition carried (L : list Event) (r : CiSuspensionRecord) (o : option CiSuspensionRecord) : Prop :=
  forall e, e ∈ cancelled_runs r -> owed e = true ->
    (exists r', o = Some r' /\ same_head r r' /\ cr_id e ∈ owed_ids (cancelled_runs r')) \/ justified L r e.
Definition survive (s s' : ci) : Prop := forall r, row s = Some r -> carried (log s') r (row s').
Definition own (s s' : ci) : Prop := survive s s' /\ wf s'.

(** ** What precedes a request *)

Definition recorded (L : list Event) (r : CiSuspensionRecord) : Prop := loaded (Some r) ∈ L \/ saved r ∈ L.
(** The intent is saved, the lease held, the run just read, cancelable on the attempt of
    the intent, and the lease held again. *)
Definition guard_cancel (L : list Event) (id : Z) : Prop :=
  exists l r e live policy, L = l ++ [saved r; held; saw_run id (answered live); held]
    /\ chosen policy ∈ l /\ e ∈ cancelled_runs r /\ cr_id e = id /\ owed e = true /\ observedAttempt e = run_attempt live
    /\ isCancelableValidationRun live pullRequestNumber (head_sha r) policy = true.
(** The lease is held, the head still the open one, the lease held, the run just read,
    cancelled on the attempt on record, and the lease held again. *)
Definition guard_rerun (L : list Event) (id : Z) : Prop :=
  exists l h live r e, L = l ++ [held; saw_head (answered (Some h)); held; saw_run id (answered live); held]
    /\ open h = true /\ sameSha (Some (sha h)) (Some (head_sha r)) = true /\ completed live = true /\ cancelled live = true
    /\ recorded l r /\ e ∈ cancelled_runs r /\ cr_id e = id /\ owed e = true /\ past_attempt live (attempt e) = false
    /\ (attempt e = None -> exists live0, saw_run id (answered live0) ∈ l /\ run_attempt live0 = None).
Inductive guarded : list Event -> Prop :=
  | guarded_nil : guarded []
  | guarded_step L e : guarded L -> sent e = false -> guarded (L ++ [e])
  | guarded_cancel L id r : guarded L -> guard_cancel L id -> guarded (L ++ [sent_cancel id r])
  | guarded_rerun L id r : guarded L -> guard_rerun L id -> guarded (L ++ [sent_rerun id r]).

Lemma guarded_app L l : guarded L -> Forall (fun e => sent e = false) l -> guarded (L ++ l).
Proof.
  intros H Hl. revert L H. induction Hl as [|e l He Hl IH]; intros L H; [by rewrite app_nil_r|].
  change (e :: l) with ([e] ++ l). rewrite app_assoc. apply IH. by constructor.
Qed.

(** ** Assertions *)

(** The version this worker holds, the time that has passed, and what its log says. *)
Definition Inv (t : Z) (o : option CiSuspensionRecord) (Phi : list Event -> Prop) (s : ci) : Prop :=
  wf s /\ guarded (log s) /\ t <= now s /\ (forall r, o = Some r -> r ∈ past s) /\ Phi (log s).

Lemma Inv_stable t o Phi g s : good g -> Inv t o Phi s -> Inv t o Phi (g s).
Proof.
  intros Hg (Hw & HG & Ht & Ho & HP). destruct (Hg s Hw) as (Hw' & Hp & HL & _ & Hn & _).
  split_and!; [done|by rewrite HL|lia| |by rewrite HL]. intros r Hr. apply Hp. by apply Ho.
Qed.
Lemma Inv_weaken t t' o Phi Phi' s : t' <= t -> (forall L, Phi L -> Phi' L) -> Inv t o Phi s -> Inv t' o Phi' s.
Proof. intros Ht H (Hw & HG & Hn & Ho & HP). split_and!; [done..|lia|done|auto]. Qed.
Lemma Inv_forget t o Phi s : Inv t o Phi s -> Inv t None Phi s.
Proof. intros (Hw & HG & Hn & Ho & HP). by split_and!. Qed.

Lemma survive_same s s' : row s' = row s -> survive s s'.
Proof.
  intros E r Hr e He Ho. left. exists r. rewrite E. split_and!; [done|done|].
  apply list_elem_of_fmap. exists e. split; [done|]. by apply list_elem_of_filter.
Qed.

(** ** Steps that leave the row alone *)

Abbreviation tri := (etriple good own).
Definition fine (e : string) : Prop := e <> "out of fuel" /\ is_permission e = false.

Lemma fine_plain m : fine (plain_error m).
Proof. unfold fine, plain_error, is_permission, permission_prefix. by split. Qed.

Lemma tri_read {A} t o Phi (f : ci -> A) (Q : A -> ci -> Prop) E :
  (forall s, Inv t o Phi s -> Q (f s) s) -> tri (Inv t o Phi) (asks f) Q E.
Proof.
  intros H. apply etriple_call; [intros; by apply Inv_stable|]. intros s Hs. split; [|by apply H].
  split; [by apply survive_same|apply Hs].
Qed.

(** A step on the clock, the lease or the identifiers. *)
Lemma tri_other {A} t t' o Phi (f : ci -> A * ci) (Q : A -> Prop) E :
  (forall s, row (f s).2 = row s /\ past (f s).2 = past s /\ log (f s).2 = log s /\ (t <= now s -> t' <= now (f s).2) /\ Q (f s).1) ->
  tri (Inv t o Phi) (call f) (fun a s => Inv t' o Phi s /\ Q a) E.
Proof.
  intros H. apply etriple_call; [intros; by apply Inv_stable|]. intros s (Hw & HG & Ht & Ho & HP).
  destruct (H s) as (Hr & Hp & HL & Hn & HQ).
  assert (Hw' : wf (f s).2).
  { destruct Hw as [Hu Hrow]. split; rewrite Hp, ?Hr; [exact Hu|exact Hrow]. }
  split; [split; [by apply survive_same|done]|]. split; [|done].
  split_and!; [done|by rewrite HL|auto| |by rewrite HL]. intros r Hr'. rewrite Hp. auto.
Qed.

(** A step that only notes an event. *)
Lemma tri_note {A} t o Phi (f : ci -> A) (e : A -> Event) (Q : A -> ci -> Prop) E :
  (forall L a, Phi L -> guarded L -> guarded (L ++ [e a])) ->
  (forall a s, Inv t o (fun L => exists L0, L = L0 ++ [e a] /\ Phi L0) s -> Q a s) ->
  tri (Inv t o Phi) (call (fun s => (f s, note (e (f s)) s))) Q E.
Proof.
  intros HG HQ. apply etriple_call; [intros; by apply Inv_stable|]. intros s (Hw & Hgu & Ht & Ho & HP).
  assert (Hw' : wf (note (e (f s)) s)) by (destruct Hw as [Hu Hrow]; split; [exact Hu|exact Hrow]).
  split; [split; [by apply survive_same|done]|]. apply HQ. split_and!; [done|by apply HG|done|done|]. by exists (log s).
Qed.

Lemma tri_or_throw {A} P (r : result A) (Q : A -> ci -> Prop) (E : string -> ci -> Prop) :
  (forall a s, P s -> Q a s) -> (forall e s, r = Throw e -> P s -> E e s) -> tri P (or_throw r) Q E.
Proof. intros HQ HE. destruct r; simpl; [apply etriple_ret; auto|apply etriple_throw; auto]. Qed.

Lemma tri_attempt {A} P (m : M A) (Q : A -> ci -> Prop) E :
  tri P m Q E -> tri P (attempt_ m) (fun r s => match r with Ok a => Q a s | Throw e => E e s end) (fun _ _ => False).
Proof.
  intros H. unfold attempt_. eapply etriple_catch; [eapply etriple_bind; [exact H|]|].
  - intros a. apply etriple_ret. done.
  - intros e. apply etriple_ret. done.
Qed.

Lemma tri_sleep t o Phi ms E : 0 <= ms -> tri (Inv t o Phi) (sleep ms) (fun _ => Inv (t + ms) o Phi) E.
Proof.
  intros Hms. eapply etriple_weaken; [exact (fun _ H => H)| |exact (fun _ _ H => H)|eapply (tri_other t (t + ms) o Phi _ (fun _ => True))].
  - by intros a s [H _].
  - intros s. simpl. split_and!; [done..|lia|done].
Qed.
Lemma tri_draw t o Phi E : tri (Inv t o Phi) (randomUUID randomUUID_) (fun _ => Inv t o Phi) E.
Proof.
  eapply etriple_weaken; [exact (fun _ H => H)| |exact (fun _ _ H => H)|eapply (tri_other t t o Phi _ (fun _ => True))].
  - by intros a s [H _].
  - intros s. simpl. by split_and!.
Qed.

(** ** Evidence only grows *)

(** Neither a request that acts nor a load. *)
Definition calm (e : Event) : bool := negb (sent e) && match e with loaded _ => false | _ => true end.
Definition later (Phi : list Event -> Prop) (L : list Event) : Prop :=
  exists L0 l, L = L0 ++ l /\ Forall (fun e => calm e = true) l /\ Phi L0.

Lemma later_intro (Phi : list Event -> Prop) L : Phi L -> later Phi L.
Proof. intros H. exists L, []. by rewrite app_nil_r. Qed.
Lemma later_snoc (Phi : list Event -> Prop) L e : calm e = true -> Phi L -> later Phi (L ++ [e]).
Proof. intros He H. exists L, [e]. split_and!; [done|by repeat constructor|done]. Qed.
Lemma later_stable (Phi : list Event -> Prop) L :
  (forall L e, calm e = true -> Phi L -> Phi (L ++ [e])) -> later Phi L -> Phi L.
Proof.
  intros H (L0 & l & -> & Hl & HP). revert L0 HP. induction Hl as [|e l He Hl IH]; intros L0 HP; [by rewrite app_nil_r|].
  change (e :: l) with ([e] ++ l). rewrite app_assoc. auto.
Qed.
Lemma calm_guarded L e : calm e = true -> guarded L -> guarded (L ++ [e]).
Proof. intros He H. constructor; [done|]. apply andb_prop in He as [He _]. by destruct (sent e). Qed.

Lemma cancelled_here_snoc L e id : cancelled_here (L ++ [e]) id = cancelled_here L id || may_cancel id e.
Proof. unfold cancelled_here. rewrite existsb_app. simpl. by rewrite orb_false_r. Qed.
Lemma cancelled_here_calm L e id : calm e = true -> cancelled_here (L ++ [e]) id = cancelled_here L id.
Proof. rewrite cancelled_here_snoc. destruct e; try discriminate; intros _; apply orb_false_r. Qed.
Lemma last_loaded_snoc L e : last_loaded (L ++ [e]) = match e with loaded r => r | _ => last_loaded L end.
Proof. unfold last_loaded. rewrite foldl_app. by destruct e. Qed.
Lemma last_loaded_calm L e : calm e = true -> last_loaded (L ++ [e]) = last_loaded L.
Proof. rewrite last_loaded_snoc. by destruct e. Qed.

Lemma cancelled_attempt_app L l e a : cancelled_attempt L e a -> cancelled_attempt (L ++ l) e a.
Proof.
  intros [H|(H & o & x & Ho & Hle & Hin & Hc)]; [by left|]. right. split; [done|]. exists o, x.
  split_and!; [done|done|apply elem_of_app; by left|done].
Qed.
Lemma settled_app L l r e : settled L r e -> settled (L ++ l) r e.
Proof.
  intros [(live & a & H1 & H2 & H3)|[(live & H1 & H2)|[(page & runs & n & x & H1 & H2)|H]]].
  - left. exists live, a. split_and!; [apply elem_of_app; by left|done|by apply cancelled_attempt_app].
  - right; left. exists live. split; [apply elem_of_app; by left|done].
  - right; right; left. exists page, runs, n, x. split; [apply elem_of_app; by left|done].
  - right; right; right. apply elem_of_app. by left.
Qed.
Lemma obsolete_app L l r : obsolete L r -> obsolete (L ++ l) r.
Proof. intros (h & H1 & H2). exists h. split; [apply elem_of_app; by left|done]. Qed.
Lemma justified_calm L ev r e : calm ev = true -> justified L r e -> justified (L ++ [ev]) r e.
Proof.
  intros He [H|[H|(H1 & H2 & H3)]]; [left; by apply obsolete_app|right; left; by apply settled_app|]. right; right.
  split_and!; [apply elem_of_app; by left|by rewrite cancelled_here_calm|]. by rewrite last_loaded_calm.
Qed.

(** ** Database statements *)

Lemma tri_statement {A} P (f : ci -> A * ci) (Q : A -> ci -> Prop) (E : string -> ci -> Prop) :
  (forall g s, good g -> P s -> P (g s)) ->
  (forall s, P s -> own s s /\ (forall e, fine e -> E e s)) ->
  (forall s, P s -> own s (f s).2 /\ Q (f s).1 (f s).2 /\ (forall e, fine e -> E e (f s).2)) ->
  tri P (statement f) Q E.
Proof.
  intros Hstable H0 Hf. unfold statement.
  eapply etriple_bind with (Q := fun a s => match a with Some a => Q a s | None => forall e, fine e -> E e s end).
  - apply etriple_call; [done|]. intros s Hs. destruct (Hf s Hs) as (Ho & HQ & HE). destruct (H0 s Hs) as [H1 H2].
    destruct (database s); [destruct (f s) as [a s']; simpl in *; by split|by split|by split].
  - intros [a|]; [by apply etriple_ret|]. apply etriple_throw. intros s Hs. apply Hs. apply fine_plain.
Qed.

Lemma own_refl t o Phi s : Inv t o Phi s -> own s s.
Proof. intros H. split; [by apply survive_same|apply H]. Qed.

(** A statement on the lease. *)
Lemma tri_lease {A} t o Phi (f : ci -> A * ci) :
  (forall s, row (f s).2 = row s /\ past (f s).2 = past s /\ log (f s).2 = log s /\ now (f s).2 = now s) ->
  tri (Inv t o Phi) (statement f) (fun _ => Inv t o Phi) (fun e s => Inv t o Phi s /\ fine e).
Proof.
  intros H. assert (HI : forall s, Inv t o Phi s -> Inv t o Phi (f s).2).
  { intros s ([Hu Hrow] & HG & Ht & Ho & HP). destruct (H s) as (E1 & E2 & E3 & E4).
    split_and!; [split; by rewrite E2, ?E1|by rewrite E3|by rewrite E4|by rewrite E2|by rewrite E3]. }
  apply tri_statement; [intros; by apply Inv_stable|intros s Hs; split; [by eapply own_refl|done]|].
  intros s Hs. split_and!; [|by apply HI|intros e He; split; [by apply HI|done]].
  split; [apply survive_same; by apply H|by apply HI].
Qed.

Lemma tri_load t o Phi :
  tri (Inv t o Phi) loadSuspension (fun r => Inv t r (fun L => exists L0, L = L0 ++ [loaded r] /\ Phi L0)) (fun e s => Inv t o Phi s /\ fine e).
Proof.
  unfold loadSuspension, query.
  eapply etriple_bind with (Q := fun a s => match a with
    | Some r => Inv t r (fun L => exists L0, L = L0 ++ [loaded r] /\ Phi L0) s | None => Inv t o Phi s end).
  - apply etriple_call; [intros; by apply Inv_stable|]. intros s Hs. assert (Hs' := Hs). destruct Hs as (Hw & HG & Ht & Ho & HP).
    destruct (database s); [|split; [by eapply own_refl|done]..]. simpl.
    assert (Hw' : wf (note (loaded (row s)) s)) by (destruct Hw as [Hu Hrow]; by split).
    split; [split; [by apply survive_same|done]|]. split_and!; [done|by apply guarded_step|done| |by exists (log s)].
    intros r Hr. by apply Hw.
  - intros [r|]; [by apply etriple_ret|]. apply etriple_throw. intros s Hs. split; [done|apply fine_plain].
Qed.

Lemma tri_held t o Phi token :
  tri (Inv t o Phi) (assertHeld token) (fun _ => Inv t o (fun L => exists L0, L = L0 ++ [held] /\ Phi L0)) (fun e s => Inv t o (later Phi) s /\ fine e).
Proof.
  unfold assertHeld, renewLease.
  eapply etriple_bind with (Q := fun (b : bool) s => if b then Inv t o (fun L => exists L0, L = L0 ++ [held] /\ Phi L0) s else Inv t o (later Phi) s).
  - apply tri_statement; [intros; by apply Inv_stable|intros s Hs; split; [by eapply own_refl|]|].
    { intros e He. split; [|done]. eapply Inv_weaken; [reflexivity|apply later_intro|done]. }
    intros s Hs. assert (Hs' := Hs). destruct Hs as (Hw & HG & Ht & Ho & HP). destruct (lease_is token s); simpl.
    + assert (Hw' : wf (note held (set_lease (Some (Lease token (now s + LEASE_TTL_MS))) s))) by (destruct Hw as [Hu Hrow]; by split).
      assert (HG' : guarded (log s ++ [held])) by by apply guarded_step.
      split_and!; [split; [by apply survive_same|done]|split_and!; [done..|by exists (log s)]|].
      intros e He. split; [|done]. split_and!; [done..|]. by apply later_snoc.
    + split_and!; [by eapply own_refl| |]; [|intros e He; split; [|done]]; (eapply Inv_weaken; [reflexivity|apply later_intro|done]).
  - intros [|]; [by apply etriple_ret|]. apply etriple_throw. intros s Hs. split; [done|by split].
Qed.

Lemma wf_extend s next :
  wf s -> (forall r, r ∈ past s -> incarnation r = incarnation next -> generation r < generation next) -> wf (set_row (Some next) s).
Proof.
  intros [Hu Hrow] Hlt. split; simpl.
  - intros r r' Hr Hr' Hi Hg. apply elem_of_app in Hr as [Hr|Hr%list_elem_of_singleton], Hr' as [Hr'|Hr'%list_elem_of_singleton]; subst; auto.
    + specialize (Hlt r Hr Hi). lia.
    + specialize (Hlt r' Hr' (eq_sym Hi)). lia.
  - intros r [= <-]. split; [apply elem_of_app; right; by apply list_elem_of_singleton|].
    intros r' Hr' Hi. apply elem_of_app in Hr' as [Hr'|Hr'%list_elem_of_singleton]; [specialize (Hlt r' Hr' Hi); lia|subst; lia].
Qed.

(** The row a versioned statement matches is the version it names. *)
Lemma version_row t r Phi s x : Inv t (Some r) Phi s -> row s = Some x -> is_version r x = true -> x = r.
Proof.
  intros ([Hu Hrow] & _ & _ & Ho & _) Hx Hv. unfold is_version in Hv.
  apply andb_prop in Hv as [[_ Hg%bool_decide_eq_true]%andb_prop Hi%bool_decide_eq_true].
  apply Hu; [by apply Hrow|by apply Ho|done|done].
Qed.

Lemma tri_update t r next set Phi :
  set r = next -> incarnation next = incarnation r -> generation next = generation r + 1 ->
  (forall L, Phi L -> carried (L ++ [saved next]) r (Some next)) ->
  tri (Inv t (Some r) Phi) (statement (update_version r set))
    (fun b => if b : bool then Inv t (Some next) (fun L => exists L0, L = L0 ++ [saved next] /\ Phi L0) else Inv t (Some r) Phi)
    (fun e s => Inv t (Some r) (later Phi) s /\ fine e).
Proof.
  intros Hset Hi Hg Hc.
  assert (Hlater : forall s, Inv t (Some r) Phi s -> Inv t (Some r) (later Phi) s) by (intros s; apply Inv_weaken; [lia|apply later_intro]).
  apply tri_statement; [intros; by apply Inv_stable|intros s Hs; split; [by eapply own_refl|auto]|].
  intros s Hs. unfold update_version. destruct (row s) as [x|] eqn:Ex; [|split_and!; [by eapply own_refl|done|auto]].
  destruct (is_version r x) eqn:Ev; [|split_and!; [by eapply own_refl|done|auto]].
  assert (x = r) as -> by by eapply version_row. rewrite Hset. assert (Hs' := Hs). destruct Hs as (Hw & HG & Ht & Ho & HP). simpl.
  assert (Hw' : wf (note (saved next) (set_row (Some next) s))).
  { destruct (wf_extend s next Hw) as [Hu' Hrow']; [|by split]. intros r' Hr' E. rewrite Hg.
    assert (generation r' <= generation r) by (apply (proj2 (wf_row s Hw r Ex)); congruence). lia. }
  assert (HG' : guarded (log s ++ [saved next])) by by apply guarded_step.
  split_and!.
  - split; [|done]. intros r0 Hr0. rewrite Ex in Hr0. injection Hr0 as <-. simpl. by apply Hc.
  - split_and!; [done..| |by exists (log s)]. intros r0 [= <-]. simpl. apply elem_of_app. right. by apply list_elem_of_singleton.
  - intros e He. split; [|done]. split_and!; [done..| |by apply later_snoc]. intros r0 [= <-]. simpl. apply elem_of_app. left. by apply Ho.
Qed.

Lemma tri_save t r runs changes Phi :
  (forall L e, Phi L -> e ∈ cancelled_runs r -> owed e = true -> cr_id e ∈ owed_ids runs \/ justified L r e) ->
  tri (Inv t (Some r) Phi) (saveCancelledRuns r runs changes)
    (fun o s => match o with
                | Some next => Inv t (Some next) (fun L => exists L0, L = L0 ++ [saved next] /\ Phi L0) s
                               /\ cancelled_runs next = runs /\ head_sha next = head_sha r
                | None => Inv t (Some r) Phi s
                end)
    (fun e s => Inv t (Some r) (later Phi) s /\ fine e).
Proof.
  intros Hc. unfold saveCancelledRuns.
  eapply etriple_bind; [apply tri_read with (Q := fun _ => Inv t (Some r) Phi); done|]. intros timestamp. cbv zeta.
  eapply etriple_bind; [apply tri_update; [done..|]|].
  - intros L HP e He Ho. destruct (Hc L e HP He Ho) as [H|H]; [left; eexists; by split_and!|right; by apply justified_calm].
  - intros [|]; apply etriple_ret; intros s Hs; [by split|done].
Qed.

Lemma tri_take_over t r record Phi :
  incarnation record = incarnation r -> generation record = generation r + 1 -> created_at record = created_at r ->
  (forall L e, Phi L -> e ∈ cancelled_runs r -> owed e = true -> (same_head r record /\ cr_id e ∈ owed_ids (cancelled_runs record)) \/ justified L r e) ->
  tri (Inv t (Some r) Phi) (takeOverSuspension r record)
    (fun b => if b : bool then Inv t (Some record) (fun L => exists L0, L = L0 ++ [saved record] /\ Phi L0) else Inv t (Some r) Phi)
    (fun e s => Inv t (Some r) (later Phi) s /\ fine e).
Proof.
  intros Hi Hg Hca Hc. unfold takeOverSuspension. apply tri_update; [|done..|].
  - unfold set_reservation. rewrite <- Hca. by destruct record.
  - intros L HP e He Ho. destruct (Hc L e HP He Ho) as [H|H]; [left; exists record; by split|right; by apply justified_calm].
Qed.

Lemma tri_delete t r Phi :
  (forall L e, Phi L -> e ∈ cancelled_runs r -> owed e = true -> justified L r e) ->
  tri (Inv t (Some r) Phi) (deleteSuspension r) (fun _ => Inv t (Some r) Phi) (fun e s => Inv t (Some r) Phi s /\ fine e).
Proof.
  intros Hc. unfold deleteSuspension. apply tri_statement; [intros; by apply Inv_stable|intros s Hs; split; [by eapply own_refl|auto]|].
  intros s Hs. unfold delete_version. destruct (row s) as [x|] eqn:Ex; [|split_and!; [by eapply own_refl|done|auto]].
  destruct (is_version r x) eqn:Ev; [|split_and!; [by eapply own_refl|done|auto]].
  assert (x = r) as -> by by eapply version_row. assert (Hs' := Hs). destruct Hs as (Hw & HG & Ht & Ho & HP).
  assert (Hw' : wf (set_row None s)) by (destruct Hw as [Hu Hrow]; by split).
  assert (HI : Inv t (Some r) Phi (set_row None s)) by by split_and!.
  split_and!; [split; [|done]|done|auto].
  intros r0 Hr0. rewrite Ex in Hr0. injection Hr0 as <-. intros e He Hoe. right. by apply Hc.
Qed.

Definition drawn_fresh (id : string) (s : ci) : Prop := id ∈ drawn s /\ id ∉ incarnation <$> past s.
Lemma fresh_stable t o Phi id g s : good g -> Inv t o Phi s /\ drawn_fresh id s -> Inv t o Phi (g s) /\ drawn_fresh id (g s).
Proof.
  intros Hg [Hs [Hd Hp]]. split; [by apply Inv_stable|]. destruct (Hg s (proj1 Hs)) as (_ & _ & _ & Hdr & _ & Hnew).
  split; [by rewrite Hdr|]. intros (r & -> & Hr)%list_elem_of_fmap. by apply Hp, Hnew.
Qed.

Lemma tri_insert t o record Phi :
  tri (fun s => Inv t o Phi s /\ drawn_fresh (incarnation record) s) (insertSuspension record)
    (fun b s => if b : bool then Inv t (Some record) (fun L => exists L0, L = L0 ++ [saved record] /\ Phi L0) s else Inv t None (fun _ => True) s)
    (fun e s => Inv t None (fun _ => True) s /\ fine e).
Proof.
  assert (Hany : forall o' Phi' s, Inv t o' Phi' s -> Inv t None (fun _ => True) s).
  { intros o' Phi' s H. eapply Inv_forget, Inv_weaken; [|by intros|exact H]. lia. }
  unfold insertSuspension. eapply etriple_catch with (E := fun e s => Inv t None (fun _ => True) s /\ fine e).
  - eapply etriple_bind with (Q := fun (b : bool) s => if b then Inv t (Some record) (fun L => exists L0, L = L0 ++ [saved record] /\ Phi L0) s else Inv t None (fun _ => True) s).
    + apply tri_statement; [intros; by eapply fresh_stable|intros s [Hs _]; split; [by eapply own_refl|eauto]|].
      intros s [Hs [Hd Hf]]. unfold insert_row. destruct (row s) as [x|] eqn:Ex; [split_and!; [by eapply own_refl|by eapply Hany|eauto]|].
      destruct Hs as (Hw & HG & Ht & Ho & HP). simpl.
      assert (Hw' : wf (note (saved record) (set_row (Some record) s))).
      { destruct (wf_extend s record Hw) as [Hu' Hrow']; [|by split]. intros r' Hr' E. destruct Hf. rewrite <- E. by apply list_elem_of_fmap_2. }
      assert (HG' : guarded (log s ++ [saved record])) by by apply guarded_step.
      assert (HI : Inv t (Some record) (fun L => exists L0, L = L0 ++ [saved record] /\ Phi L0) (note (saved record) (set_row (Some record) s))).
      { split_and!; [done..| |by exists (log s)]. intros r0 [= <-]. simpl. apply elem_of_app. right. by apply list_elem_of_singleton. }
      split_and!; [split; [|done]|done|eauto]. intros r0 Hr0. by rewrite Ex in Hr0.
    + intros [|]; [by apply etriple_ret|]. apply etriple_throw. intros s Hs. split; [done|apply fine_plain].
  - intros e. eapply etriple_bind; [eapply etriple_weaken; [|exact (fun _ _ H => H)| |apply (tri_load t None (fun _ => fine e))]|].
    + intros s [H He]. eapply Inv_weaken; [|by intros|exact H]. lia.
    + intros e' s [H He]. split; [by eapply Hany|done].
    + intros [r|]; [apply etriple_ret; eauto|]. apply etriple_throw. intros s Hs. split; [by eapply Hany|].
      by destruct Hs as (_ & _ & _ & _ & _ & _ & He).
Qed.

End Rules.
