(* ===== verification/CiRequests.v ===== *)
(** * CI suspension: rules for the requests to GitHub

    What each request of CiSuspend.v leaves in the log of the worker that sends it, over
    the assertions of CiRules.v. *)

From S2P Require Import Prelude JsString Interleave CiRuns CiSuspend CiOperations CiRules.

Open Scope string_scope.
Open Scope Z_scope.
Open Scope list_scope.

Section Requests.
Variable pullRequestNumber : Z.
Abbreviation own := (own pullRequestNumber).
Abbreviation Inv := (Inv pullRequestNumber).
Abbreviation tri := (etriple good own).

Lemma Inv_later t o Phi s : Inv t o Phi s -> Inv t o (later Phi) s.
Proof. apply Inv_weaken; [lia|apply later_intro]. Qed.
Lemma later_mono (Phi Phi' : list Event -> Prop) L : (forall L, Phi L -> Phi' L) -> later Phi L -> later Phi' L.
Proof. intros H (L0 & l & E & Hl & HP). exists L0, l. auto. Qed.
Lemma later_later Phi L : later (later Phi) L -> later Phi L.
Proof.
  intros (L0 & l & -> & Hl & L1 & l' & -> & Hl' & HP). exists L1, (l' ++ l).
  rewrite app_assoc. split_and!; [done|by apply Forall_app|done].
Qed.
Lemma later_app (Phi : list Event -> Prop) L l : Forall (fun e => calm e = true) l -> Phi L -> later Phi (L ++ l).
Proof. intros Hl H. by exists L, l. Qed.

Lemma tri_request {A} t o Phi (f : GitHub -> response A) (e : response A -> Event) E :
  (forall r, calm (e r) = true) ->
  tri (Inv t o Phi) (request f e) (fun r => Inv t o (fun L => exists L0, L = L0 ++ [e r] /\ Phi L0)) E.
Proof. intros He. unfold request. apply tri_note; [|done]. intros L a _ HG. by apply calm_guarded. Qed.

Lemma tri_found {A} P (r : response A) (Q : option A -> ci -> Prop) (E : string -> ci -> Prop) :
  (forall o s, (forall a, o = Some a -> r = answered a) -> P s -> Q o s) -> (forall e s, fine e -> P s -> E e s) ->
  tri P (found r) Q E.
Proof.
  intros HQ HE. destruct r as [a|status m]; simpl.
  - apply etriple_ret. intros s. apply HQ. by intros ? [= ->].
  - destruct (isMissing status); [apply etriple_ret; intros s; by apply HQ|]. apply etriple_throw. intros s. apply HE, fine_plain.
Qed.

Lemma tri_getRun t o Phi id :
  tri (Inv t o Phi) (getRun id)
    (fun live => Inv t o (fun L => exists L0 r, L = L0 ++ [saw_run id r] /\ Phi L0 /\ forall x, live = Some x -> r = answered x))
    (fun e s => Inv t o (later Phi) s /\ fine e).
Proof.
  unfold getRun. eapply etriple_bind; [by apply tri_request|]. intros r. apply tri_found.
  - intros live s Hlive. apply Inv_weaken; [lia|]. intros L (L0 & -> & HP). by exists L0, r.
  - intros e s He H. split; [|done]. revert H. apply Inv_weaken; [lia|]. intros L (L0 & -> & HP). by apply later_snoc.
Qed.

Lemma tri_getRunAttempt t o Phi id n :
  tri (Inv t o Phi) (getRunAttempt id n)
    (fun live => Inv t o (fun L => exists L0 r, L = L0 ++ [saw_attempt id n r] /\ Phi L0 /\ forall x, live = Some x -> r = answered x))
    (fun e s => Inv t o (later Phi) s /\ fine e).
Proof.
  unfold getRunAttempt. eapply etriple_bind; [by apply tri_request|]. intros r. apply tri_found.
  - intros live s Hlive. apply Inv_weaken; [lia|]. intros L (L0 & -> & HP). by exists L0, r.
  - intros e s He H. split; [|done]. revert H. apply Inv_weaken; [lia|]. intros L (L0 & -> & HP). by apply later_snoc.
Qed.

Lemma tri_head t o Phi :
  tri (Inv t o Phi) getPullRequestHead
    (fun live => Inv t o (fun L => exists L0 r, L = L0 ++ [saw_head r] /\ Phi L0 /\ forall h, live = Some h -> r = answered (Some h) /\ sha h <> ""))
    (fun e s => Inv t o (later Phi) s /\ fine e).
Proof.
  unfold getPullRequestHead. eapply etriple_bind; [by apply tri_request|]. intros r.
  eapply etriple_bind with (Q := fun live => Inv t o (fun L => exists L0, L = L0 ++ [saw_head r] /\ Phi L0 /\ forall x, live = Some x -> r = answered x)).
  - apply tri_found.
    + intros live s Hlive. apply Inv_weaken; [lia|]. intros L (L0 & -> & HP). by exists L0.
    + intros e s He H. split; [|done]. revert H. apply Inv_weaken; [lia|]. intros L (L0 & -> & HP). by apply later_snoc.
  - intros live. apply etriple_ret. intros s. apply Inv_weaken; [lia|]. intros L (L0 & -> & HP & Hl). exists L0, r.
    split_and!; [done|done|]. intros h. destruct live as [[h'|]|]; [|done..]. case_bool_decide; [done|]. intros [= ->]. auto.
Qed.

(** The runs of a head came from its listing. *)
Definition listed_in (headSha : string) (L : list Event) (l : WorkflowRunSummary) : Prop :=
  exists page runs n, saw_runs headSha page (answered (runs, n)) ∈ L /\ l ∈ runs.

Lemma add_page_incl page runs l : l ∈ add_page page runs -> l ∈ page \/ l ∈ runs.
Proof.
  unfold add_page. revert runs. induction page as [|x page IH]; intros runs; simpl; [by right|].
  intros [H|H]%IH; [left; by right|]. case_bool_decide; [by right|].
  apply elem_of_app in H as [H| ->%list_elem_of_singleton]; [by right|left; by left].
Qed.

Lemma tri_pages n page headSha t o Phi runs :
  tri (Inv t o (fun L => later Phi L /\ forall l, l ∈ runs -> listed_in headSha L l)) (list_pages n page headSha runs)
    (fun runs => Inv t o (fun L => later Phi L /\ forall l, l ∈ runs -> listed_in headSha L l))
    (fun e s => Inv t o (later Phi) s /\ fine e).
Proof.
  revert page runs. induction n as [|n IH]; intros page runs; cbn [list_pages]; [by apply etriple_ret|].
  eapply etriple_bind; [by apply tri_request|]. intros [[pageRuns total]|status m].
  - assert (H : forall s, Inv t o (fun L => exists L0, L = L0 ++ [saw_runs headSha page (answered (pageRuns, total))]
                  /\ later Phi L0 /\ forall l, l ∈ runs -> listed_in headSha L0 l) s ->
                Inv t o (fun L => later Phi L /\ forall l, l ∈ add_page pageRuns runs -> listed_in headSha L l) s).
    { intros s. apply Inv_weaken; [lia|]. intros L (L0 & -> & HP & Hr). split; [by apply later_later, later_snoc|].
      intros l [Hl|Hl]%add_page_incl.
      - exists page, pageRuns, total. split; [apply elem_of_app; right; by apply list_elem_of_singleton|done].
      - destruct (Hr l Hl) as (p & rs & k & Hin & Hl'). exists p, rs, k. split; [apply elem_of_app; by left|done]. }
    destruct (length pageRuns <? RUNS_PER_PAGE)%nat; [by apply etriple_ret|].
    destruct (match total with Some n => _ | None => false end); [by apply etriple_ret|].
    eapply etriple_weaken; [exact H|exact (fun _ _ H => H)|exact (fun _ _ H => H)|apply IH].
  - apply etriple_throw. intros s H. split; [|apply fine_plain]. revert H. apply Inv_weaken; [lia|].
    intros L (L0 & -> & HP & _). by apply later_later, later_snoc.
Qed.
Lemma tri_listed headSha t o Phi :
  tri (Inv t o Phi) (listRunsForSha headSha)
    (fun runs => Inv t o (fun L => later Phi L /\ forall l, l ∈ runs -> listed_in headSha L l))
    (fun e s => Inv t o (later Phi) s /\ fine e).
Proof.
  eapply etriple_weaken; [|exact (fun _ _ H => H)|exact (fun _ _ H => H)|apply tri_pages].
  intros s. apply Inv_weaken; [lia|]. intros L HP. split; [by apply later_intro|]. intros l Hl. by apply elem_of_nil in Hl.
Qed.

(** The attempt found is the live one, or one seen cancelled. *)
Definition located (L : list Event) (id o live a : Z) : Prop :=
  o <= a /\ (a = live \/ exists x, saw_attempt id a (answered x) ∈ L /\ cancelled x = true).
Lemma tri_locate_from n id from o0 live t o Phi :
  o0 <= from -> live = from + Z.of_nat n ->
  tri (Inv t o Phi) (locate_from n id from live)
    (fun r => Inv t o (fun L => later Phi L /\ forall a, r = Some a -> located L id o0 live a))
    (fun e s => Inv t o (later Phi) s /\ fine e).
Proof.
  revert from Phi. induction n as [|n IH]; intros from Phi Ho Hl; cbn [locate_from].
  - apply etriple_ret. intros s. apply Inv_weaken; [lia|]. intros L HP. split; [by apply later_intro|].
    intros a [= <-]. split; [lia|by left].
  - eapply etriple_bind; [apply tri_getRunAttempt|]. intros [x|].
    + destruct (cancelled x) eqn:Ex.
      * apply etriple_ret. intros s. apply Inv_weaken; [lia|]. intros L (L0 & r & -> & HP & Hr). rewrite (Hr x eq_refl).
        split; [by apply later_snoc|]. intros a [= <-]. split; [done|]. right. exists x.
        split; [apply elem_of_app; right; by apply list_elem_of_singleton|done].
      * eapply etriple_weaken with (P' := Inv t o (later Phi)); [|intros a s H|intros e s H|apply IH; lia].
        -- intros s. apply Inv_weaken; [lia|]. intros L (L0 & r & -> & HP & _). by apply later_snoc.
        -- revert H. apply Inv_weaken; [lia|]. intros L [H1 H2]. split; [by apply later_later|done].
        -- destruct H as [H Hf]. split; [|done]. revert H. apply Inv_weaken; [lia|]. intros L. apply later_later.
    + apply etriple_ret. intros s. apply Inv_weaken; [lia|]. intros L (L0 & r & -> & HP & _). split; [by apply later_snoc|done].
Qed.
Lemma tri_locate id observed live t o Phi :
  tri (Inv t o Phi) (locateCancelledAttempt id observed live)
    (fun r => Inv t o (fun L => later Phi L /\ forall a, r = Some a ->
                exists ob l, observed = Some ob /\ run_attempt live = Some l /\ located L id ob l a))
    (fun e s => Inv t o (later Phi) s /\ fine e).
Proof.
  unfold locateCancelledAttempt.
  assert (Hnone : tri (Inv t o Phi) (mret None) (fun r => Inv t o (fun L => later Phi L /\ forall a, r = Some a ->
     exists ob l, observed = Some ob /\ run_attempt live = Some l /\ located L id ob l a)) (fun e s => Inv t o (later Phi) s /\ fine e)).
  { apply etriple_ret. intros s. apply Inv_weaken; [lia|]. intros L HP. split; [by apply later_intro|done]. }
  destruct (run_attempt live) as [l|]; [|done]. destruct observed as [ob|]; [|done].
  destruct (Z.ltb_spec l ob); [done|].
  eapply etriple_weaken; [exact (fun _ H => H)| |exact (fun _ _ H => H)|apply (tri_locate_from _ id ob ob l); lia].
  intros r s. apply Inv_weaken; [lia|]. intros L [H1 H2]. split; [done|]. intros a Ha. exists ob, l. auto.
Qed.

(** An answer that does not come counts as none. *)
Lemma tri_quiet {A} (m : M (option A)) t o Phi Q E :
  (forall t o Phi, tri (Inv t o Phi) m (Q t o Phi) (fun e s => Inv t o (later Phi) s /\ fine e)) ->
  (forall a s, Q t o Phi a s -> Inv t o (later Phi) s) ->
  tri (Inv t o Phi) (catch m (fun _ => mret None)) (fun _ => Inv t o (later Phi)) E.
Proof.
  intros Hm HQ. eapply etriple_catch; [|intros e; apply etriple_ret; intros s H; exact H].
  eapply etriple_weaken; [exact (fun _ H => H)|exact HQ| |apply Hm]. intros e s [H _]. exact H.
Qed.

Lemma refused_of status m : refused (failed status m) = isConflict status || isPermissionError status m.
Proof. done. Qed.

Lemma tri_cancelRun t o Phi id :
  (forall L, Phi L -> guard_cancel pullRequestNumber L id) ->
  tri (Inv t o Phi) (cancelRun id)
    (fun b => Inv t o (fun L => exists L0 r, L = L0 ++ [sent_cancel id r] /\ refused r = negb b /\ Phi L0))
    (fun e => Inv t o (fun L => exists L0 r, L = L0 ++ [sent_cancel id r] /\ (is_permission e = true -> refused r = true) /\ Phi L0)).
Proof.
  intros HG. unfold cancelRun. eapply etriple_bind.
  - unfold request. apply tri_note with (e := sent_cancel id) (Q := fun r => Inv t o (fun L => exists L0, L = L0 ++ [sent_cancel id r] /\ Phi L0)); [|done].
    intros L a HP HL. apply guarded_cancel; auto.
  - intros [a|status m].
    + apply etriple_ret. intros s. apply Inv_weaken; [lia|]. intros L (L0 & -> & HP). by exists L0, (answered a).
    + destruct (isConflict status) eqn:Ec; [|destruct (isPermissionError status m) eqn:Ep].
      * apply etriple_ret. intros s. apply Inv_weaken; [lia|]. intros L (L0 & -> & HP). exists L0, (failed status m).
        by rewrite refused_of, Ec.
      * apply etriple_throw. intros s. apply Inv_weaken; [lia|]. intros L (L0 & -> & HP). exists L0, (failed status m).
        by rewrite refused_of, Ep, orb_true_r.
      * apply etriple_throw. intros s. apply Inv_weaken; [lia|]. intros L (L0 & -> & HP). by exists L0, (failed status m).
Qed.
End Requests.
