(* ===== verification/CiCancel.v ===== *)
(** * CI suspension: cancelling runs keeps every obligation

    The cancellation pass of CiOperations.v: what holds between its requests ([CA]), and
    that its intents and their withdrawals lose no run that may have been cancelled. *)

From S2P Require Import Prelude JsString Interleave CiRuns CiSuspend CiOperations CiRules CiRequests.

Open Scope string_scope.
Open Scope Z_scope.
Open Scope list_scope.

(** ** Entries *)

Lemma elem_of_owed_ids id runs : id ∈ owed_ids runs <-> exists e, e ∈ runs /\ owed e = true /\ cr_id e = id.
Proof.
  unfold owed_ids. rewrite list_elem_of_fmap. split.
  - intros (e & -> & [Ho He]%list_elem_of_filter). by exists e.
  - intros (e & He & Ho & <-). exists e. by rewrite list_elem_of_filter.
Qed.

Lemma entry_index_spec id runs :
  (entry_index id runs <= length runs)%nat /\ forall p, runs !! entry_index id runs = Some p -> cr_id p = id.
Proof.
  unfold entry_index. destruct (list_find _ runs) as [[k p]|] eqn:E.
  - apply list_find_Some in E as (Hk & Hid & _). split; [apply lookup_lt_Some in Hk; lia|]. congruence.
  - split; [done|]. intros p Hp. apply lookup_lt_Some in Hp. lia.
Qed.

Lemma withdraw_put k e runs : (k <= length runs)%nat -> withdraw_entry k (runs !! k) (put_entry k e runs) = runs.
Proof.
  intros Hk. unfold put_entry. destruct (decide (k < length runs)%nat) as [Hlt|Hge].
  - destruct (lookup_lt_is_Some_2 runs k Hlt) as [p Hp]. rewrite Hp. simpl. by rewrite list_insert_insert_eq, list_insert_id.
  - assert (k = length runs) as -> by lia. rewrite lookup_ge_None_2 by done. simpl.
    rewrite delete_take_drop, take_app_length, drop_ge by (rewrite length_app; simpl; lia). apply app_nil_r.
Qed.

Lemma elem_of_put_entry k e runs : (k <= length runs)%nat -> e ∈ put_entry k e runs.
Proof.
  intros Hk. unfold put_entry. destruct (decide _) as [Hlt|Hge].
  - apply list_elem_of_lookup_2 with k. by apply list_lookup_insert_eq.
  - apply elem_of_app. right. by apply list_elem_of_singleton.
Qed.

(** An owed entry put over an entry of its run loses no obligation. *)
Lemma owed_put k e runs id :
  (forall p, runs !! k = Some p -> cr_id p = cr_id e) -> owed e = true -> (k <= length runs)%nat ->
  id ∈ owed_ids runs -> id ∈ owed_ids (put_entry k e runs).
Proof.
  intros Hp Ho Hk (x & Hx & Hox & <-)%elem_of_owed_ids. apply elem_of_owed_ids.
  apply list_elem_of_lookup_1 in Hx as [j Hj]. destruct (decide (j = k)) as [->|Hjk].
  - exists e. split_and!; [by apply elem_of_put_entry|done|symmetry; by apply Hp].
  - exists x. split_and!; [|done..]. apply list_elem_of_lookup_2 with j. unfold put_entry. destruct (decide _).
    + by rewrite list_lookup_insert_ne.
    + by apply lookup_app_l_Some.
Qed.

Lemma owed_with_attempt a k runs : owed_ids (alter (with_attempt a) k runs) = owed_ids runs.
Proof.
  unfold owed_ids. revert k. induction runs as [|e runs IH]; intros [|k]; [done..| |].
  - change (alter (with_attempt a) 0%nat (e :: runs)) with (with_attempt a e :: runs). rewrite !filter_cons.
    change (owed (with_attempt a e)) with (owed e). by destruct (decide (owed e = true)).
  - change (alter (with_attempt a) (S k) (e :: runs)) with (e :: alter (with_attempt a) k runs). rewrite !filter_cons.
    destruct (decide (owed e = true)); [|done]. rewrite !fmap_cons. by f_equal.
Qed.

Section Pass.
Variable pullRequestNumber : Z.
Variable headSha : string.
Variable inherited : list Z.
Variable policy : ValidationWorkflowPolicy.
Variable t : Z.
Abbreviation own := (own pullRequestNumber).
Abbreviation Inv := (Inv pullRequestNumber).
Abbreviation justified := (justified pullRequestNumber).
Abbreviation tri := (etriple good own).
Abbreviation ltri := (ltriple good own).

(** ** Between requests *)

(** A run this worker must not forget: inherited, or it may have cancelled it. *)
Definition kept (L : list Event) (id : Z) : Prop := id ∈ inherited \/ cancelled_here L id = true.

(** [runs] owe every kept run; what the record owes beyond is this worker's own. *)
Record CI (runs : list CancelledRun) (record : CiSuspensionRecord) (L : list Event) : Prop := {
  ci_kept : forall id, kept L id -> id ∈ owed_ids runs;
  ci_base : forall rec, last_loaded L = Some rec -> sameSha (Some (head_sha rec)) (Some headSha) = true ->
              forall id, id ∈ owed_ids (cancelled_runs rec) -> id ∈ inherited;
  ci_saved : saved record ∈ L \/ forall id, id ∈ owed_ids (cancelled_runs record) -> id ∈ inherited;
  ci_head : head_sha record = headSha;
}.
Definition known (c : CancellationState) (L : list Event) : Prop := forall id, cancelled_here L id = true -> id ∈ cancelledRunIds c.
Definition facts (runs : list CancelledRun) (c : CancellationState) (L : list Event) : Prop :=
  inheritedObligations c = inherited /\ (forall id, id ∈ owed_ids runs -> id ∈ owed_ids (cs_runs c)) /\ CI runs (cs_record c) L /\ known c L.

(** [runs] is what this worker falls back on; [Psi] is what else the log says. *)
Definition CA (runs : list CancelledRun) (c : CancellationState) (Psi : list Event -> Prop) : ci -> Prop :=
  Inv t (Some (cs_record c)) (fun L => facts runs c L /\ Psi L).
(** After an exception. *)
Definition CE (e : string) (c : CancellationState) : ci -> Prop :=
  Inv t (Some (cs_record c)) (fun L => inheritedObligations c = inherited /\ CI (cs_runs c) (cs_record c) L
    /\ (is_permission e = true -> known c L)).

Lemma kept_calm L e id : calm e = true -> kept (L ++ [e]) id -> kept L id.
Proof. intros He. unfold kept. by rewrite cancelled_here_calm. Qed.
Lemma CI_calm runs r L e : calm e = true -> CI runs r L -> CI runs r (L ++ [e]).
Proof.
  intros He [H1 H2 H3 H4]. split; [|by rewrite last_loaded_calm| |done].
  - intros id Hid. apply H1. eapply kept_calm; [|exact Hid]; done.
  - destruct H3 as [H3|H3]; [left; apply elem_of_app; by left|by right].
Qed.
Lemma known_calm c L e : calm e = true -> known c L -> known c (L ++ [e]).
Proof. intros He H id. rewrite cancelled_here_calm by done. apply H. Qed.
Lemma facts_calm runs c L e : calm e = true -> facts runs c L -> facts runs c (L ++ [e]).
Proof. intros He (H1 & H2 & H3 & H4). split_and!; [done|done|by apply CI_calm|by apply known_calm]. Qed.

Lemma facts_later runs c (Psi : list Event -> Prop) L : later (fun L => facts runs c L /\ Psi L) L -> facts runs c L /\ later Psi L.
Proof.
  intros H. split.
  - eapply later_stable; [intros L' e He; by apply facts_calm|]. eapply later_mono; [|exact H]. by intros ? [].
  - eapply later_mono; [|exact H]. by intros ? [].
Qed.
Lemma CA_later runs c Psi s : Inv t (Some (cs_record c)) (later (fun L => facts runs c L /\ Psi L)) s -> CA runs c (later Psi) s.
Proof. apply Inv_weaken; [lia|apply facts_later]. Qed.
Lemma CA_mono runs c (Psi Psi' : list Event -> Prop) s : (forall L, Psi L -> Psi' L) -> CA runs c Psi s -> CA runs c Psi' s.
Proof. intros H. apply Inv_weaken; [lia|]. intros L [H1 H2]. auto. Qed.
Lemma CA_grow runs c Psi s : CA runs c Psi s -> CA (cs_runs c) c Psi s.
Proof.
  apply Inv_weaken; [lia|]. intros L [(H1 & H2 & [H3 H4 H5 H6] & H7) H8]. split; [|done]. split_and!; [done|done| |done].
  split; auto.
Qed.
Lemma CA_fail runs c Psi e s : CA runs c Psi s -> CE e c s.
Proof. intros H%CA_grow. revert H. apply Inv_weaken; [lia|]. by intros L [(H1 & H2 & H3 & H4) H5]. Qed.

(** A calm request over [CA]. *)
Lemma CA_lift {A} (m : M A) runs c (Psi : list Event -> Prop) (Psi' : A -> list Event -> Prop) :
  (forall Phi, tri (Inv t (Some (cs_record c)) Phi) m
     (fun a => Inv t (Some (cs_record c)) (fun L => exists L0 l, L = L0 ++ l /\ Forall (fun e => calm e = true) l /\ Phi L0
        /\ forall L0, Psi L0 -> Psi' a (L0 ++ l)))
     (fun e s => Inv t (Some (cs_record c)) (later Phi) s /\ fine e)) ->
  ltri (fun c' s => c' = c /\ CA runs c Psi s) (lift m) (fun a c' s => c' = c /\ CA runs c (Psi' a) s)
    (fun e c' s => c' = c /\ CA runs c (later Psi) s /\ fine e).
Proof.
  intros H. apply ltriple_lift. intros c' w Hg [-> HP]. specialize (H (fun L => facts runs c L /\ Psi L) w Hg HP) as (l & Hl & HI & Hg' & HQ).
  exists l. split_and!; [done..|]. destruct (m w).1 as [a|e]; simpl in *.
  - split; [done|]. revert HQ. apply Inv_weaken; [lia|]. intros L (L0 & l' & -> & Hl' & [Hf HPsi] & HP'). split; [|by apply HP'].
    eapply (facts_later runs c (fun _ => True)), later_app; done.
  - destruct HQ as [HQ He]. split_and!; [done|by apply CA_later|done].
Qed.

(** ** Writing the intents *)

Definition stable (Psi : list Event -> Prop) : Prop := forall L e, calm e = true -> Psi L -> Psi (L ++ [e]).

Lemma keeps_obligations runs c L e :
  facts runs c L -> e ∈ cancelled_runs (cs_record c) -> owed e = true -> cr_id e ∈ owed_ids (cs_runs c) \/ justified L (cs_record c) e.
Proof.
  intros (H1 & H2 & [H3 H4 H5 H6] & H7) He Ho.
  assert (Hid : cr_id e ∈ owed_ids (cancelled_runs (cs_record c))) by (apply elem_of_owed_ids; eauto).
  destruct (decide (cr_id e ∈ inherited)) as [Hi|Hi]; [left; apply H2, H3; by left|].
  destruct (cancelled_here L (cr_id e)) eqn:Ec; [left; apply H2, H3; by right|]. right; right; right.
  split_and!; [destruct H5 as [H5|H5]; [done|by apply H5 in Hid]|done|].
  intros rec Hrec Hsame Hin. rewrite H6 in Hsame. by apply Hi, (H4 rec).
Qed.

Lemma persist_intent_rule runs c Psi :
  ltri (fun c' s => c' = c /\ CA runs c Psi s) persistIntent
    (fun (b : bool) c' s => if b then exists next, c' = set_record next c /\ cancelled_runs next = cs_runs c /\ head_sha next = headSha
                                   /\ CA runs c' (fun L => exists L0, L = L0 ++ [saved next] /\ Psi L0) s
                 else c' = lose c /\ CA runs c' Psi s)
    (fun e c' s => c' = c /\ CA runs c (later Psi) s /\ fine e).
Proof.
  unfold persistIntent.
  eapply ltriple_bind; [apply ltriple_locals with (Q := fun a c' s => (a = c /\ c' = c) /\ CA runs c Psi s); by intros l s [-> H]|].
  intros c1. eapply ltriple_bind with (Q := fun o c' s => c1 = c /\ c' = c /\ match o with
      | Some next => Inv t (Some next) (fun L => exists L0, L = L0 ++ [saved next] /\ facts runs c L0 /\ Psi L0) s
                     /\ cancelled_runs next = cs_runs c /\ head_sha next = head_sha (cs_record c)
      | None => CA runs c Psi s end).
  - apply ltriple_lift. intros c' w Hg [[-> ->] HP].
    destruct (tri_save pullRequestNumber t (cs_record c) (cs_runs c) None (fun L => facts runs c L /\ Psi L)) with w
      as (l & Hl & HI & Hg' & HQ); [|done|done|].
    { intros L e [Hf _] He Ho. by eapply keeps_obligations. }
    exists l. split_and!; [done..|]. destruct (saveCancelledRuns _ _ _ w).1 as [[next|]|e]; [done|done|].
    destruct HQ as [HQ He]. split_and!; [done|by apply CA_later|done].
  - intros [next|].
    + eapply ltriple_bind; [apply ltriple_assign with (Q := fun _ c' s => exists next, c' = set_record next c /\ cancelled_runs next = cs_runs c
        /\ head_sha next = headSha /\ CA runs c' (fun L => exists L0, L = L0 ++ [saved next] /\ Psi L0) s)|intros []; by apply ltriple_ret].
      intros c' s (-> & -> & HI & Hr & Hh). assert (Hh' : head_sha next = headSha).
      { rewrite Hh. by destruct HI as (_ & _ & _ & _ & L0 & _ & (_ & _ & [_ _ _ H] & _) & _). }
      exists next. split_and!; [done..|]. revert HI. apply Inv_weaken; [lia|].
      intros L (L0 & -> & (H1 & H2 & [H3 H4 H5 H6] & H7) & HP). split; [|by exists L0].
      split_and!; [done|done| |by apply known_calm]. split; [|by rewrite last_loaded_calm| |done].
      * intros id Hid. apply H3. eapply kept_calm; [|exact Hid]; done.
      * left. apply elem_of_app. right. by apply list_elem_of_singleton.
    + eapply ltriple_bind; [apply ltriple_assign with (Q := fun _ c' s => c' = lose c /\ CA runs c' Psi s)|intros []; by apply ltriple_ret].
      intros c' s (-> & -> & HI). by split.
Qed.

Definition chose (L : list Event) : Prop := chosen policy ∈ L.
Lemma chose_stable : stable chose.
Proof. intros L e _ H. apply elem_of_app. by left. Qed.
(** What holds between two runs of the pass. *)
Definition Calm (c : CancellationState) : ci -> Prop := CA (cs_runs c) c chose.

Lemma chose_later runs c s : CA runs c (later chose) s -> CA runs c chose s.
Proof. apply CA_mono. intros L. apply later_stable, chose_stable. Qed.
Lemma CA_relocate runs c c' Psi s :
  cs_record c' = cs_record c -> inheritedObligations c' = inheritedObligations c -> (forall id, id ∈ cancelledRunIds c -> id ∈ cancelledRunIds c') ->
  (forall id, id ∈ owed_ids runs -> id ∈ owed_ids (cs_runs c')) -> CA runs c Psi s -> CA runs c' Psi s.
Proof.
  intros E1 E2 E3 E4. unfold CA. rewrite E1. apply Inv_weaken; [lia|]. intros L [(H1 & H2 & H3 & H4) H5]. split; [|done].
  split_and!; [congruence|done|by rewrite E1|]. intros id Hid. by apply E3, H4.
Qed.

Lemma persist_calm runs c :
  ltri (fun c' s => c' = c /\ CA runs c chose s) persistIntent (fun _ => Calm) CE.
Proof.
  eapply ltriple_weaken; [exact (fun _ _ H => H)| | |apply persist_intent_rule].
  - intros [|] c' s; [intros (next & -> & Hr & Hh & H)|intros [-> H]].
    + apply CA_grow in H. revert H. apply CA_mono. intros L (L0 & -> & H). by apply chose_stable.
    + by apply CA_grow in H.
  - intros e c' s (-> & H & _). by eapply CA_fail.
Qed.

(** The intent is taken back: the runs are what they were. *)
Lemma withdraw_rule runs c k previous :
  withdraw_entry k previous (cs_runs c) = runs ->
  ltri (fun c' s => c' = c /\ CA runs c chose s) (withdrawIntent k previous) (fun _ => Calm) CE.
Proof.
  intros Hw. unfold withdrawIntent.
  eapply ltriple_bind; [apply ltriple_assign with (Q := fun _ c' s => c' = set_runs runs c /\ CA runs c' chose s)|intros []; simpl].
  - intros c' s [-> H]. rewrite Hw. split; [done|]. by apply (CA_relocate runs c).
  - eapply ltriple_weaken; [|exact (fun _ _ _ H => H)|exact (fun _ _ _ H => H)|apply (persist_calm runs)].
    intros c' s [-> H]. done.
Qed.

Lemma raise_rule e c runs Psi : ltri (fun c' s => c' = c /\ CA runs c Psi s) (raise e : Local_ ci CancellationState bool) (fun _ => Calm) CE.
Proof. apply ltriple_raise. intros c' s [-> H]. by eapply CA_fail. Qed.

Lemma held_lift token runs c Psi :
  ltri (fun c' s => c' = c /\ CA runs c Psi s) (lift (assertHeld token))
    (fun _ c' s => c' = c /\ CA runs c (fun L => exists L0, L = L0 ++ [held] /\ Psi L0) s)
    (fun e c' s => c' = c /\ CA runs c (later Psi) s /\ fine e).
Proof.
  apply CA_lift with (Psi' := fun _ L => exists L0, L = L0 ++ [held] /\ Psi L0). intros Phi.
  eapply etriple_weaken; [exact (fun _ H => H)| |exact (fun _ _ H => H)|apply tri_held].
  intros a s. apply Inv_weaken; [lia|]. intros L (L0 & -> & HP). exists L0, [held]. split_and!; [done|by repeat constructor|done|].
  intros L1 H. by exists L1.
Qed.

(** The final read: the run is still the one observed. *)
Lemma still_rule run runs c Psi :
  ltri (fun c' s => c' = c /\ CA runs c Psi s) (lift (stillObservedRun pullRequestNumber run headSha policy))
    (fun (b : bool) c' s => c' = c /\ CA runs c (fun L => if b then exists L0 live, L = L0 ++ [saw_run (w_id run) (answered live)] /\ Psi L0
        /\ isCancelableValidationRun live pullRequestNumber headSha policy = true /\ run_attempt live = run_attempt run else later Psi L) s)
    (fun e c' s => c' = c /\ CA runs c (later Psi) s /\ fine e).
Proof.
  apply CA_lift with (Psi' := fun (b : bool) L => if b then exists L0 live, L = L0 ++ [saw_run (w_id run) (answered live)] /\ Psi L0
        /\ isCancelableValidationRun live pullRequestNumber headSha policy = true /\ run_attempt live = run_attempt run else later Psi L).
  intros Phi. unfold stillObservedRun. eapply etriple_bind; [apply tri_getRun|].
  intros live. apply etriple_ret. intros s. apply Inv_weaken; [lia|]. intros L (L0 & r & -> & HP & Hr).
  exists L0, [saw_run (w_id run) r]. split_and!; [done|by repeat constructor|done|]. intros L1 H1.
  destruct live as [live|]; [|by apply later_snoc]. destruct (_ && _) eqn:E; [|by apply later_snoc].
  apply andb_prop in E as [E1 E2%bool_decide_eq_true]. exists L1, live. by rewrite (Hr live eq_refl).
Qed.

(** A read whose answer alone matters. *)
Lemma calm_lift {A} (m : M A) c :
  (forall Phi, tri (Inv t (Some (cs_record c)) Phi) m (fun _ => Inv t (Some (cs_record c)) (later Phi))
     (fun e s => Inv t (Some (cs_record c)) (later Phi) s /\ fine e)) ->
  ltri (fun c' s => c' = c /\ Calm c s) (lift m) (fun _ c' s => c' = c /\ Calm c s) CE.
Proof.
  intros H. apply ltriple_lift. intros c' w Hg [-> HP]. specialize (H (fun L => facts (cs_runs c) c L /\ chose L) w Hg HP) as (l & Hl & HI & Hg' & HQ).
  exists l. split_and!; [done..|]. destruct (m w).1; [split; [done|]; by apply chose_later, CA_later|].
  destruct HQ as [HQ _]. by eapply CA_fail, CA_later.
Qed.

Lemma confirm_rule run k c :
  ltri (fun c' s => c' = c /\ Calm c s) (confirm_attempt run k) (fun _ => Calm) CE.
Proof.
  unfold confirm_attempt. eapply ltriple_bind; [apply calm_lift|intros affected].
  - intros Phi. eapply tri_quiet; [intros; apply tri_getRun|]. intros live s. apply Inv_weaken; [lia|].
    intros L (L0 & r & -> & HP & _). by apply later_snoc.
  - destruct affected as [live|]; [|by apply ltriple_ret; intros c' s [-> H]].
    eapply ltriple_bind; [apply calm_lift|intros cancelledAttempt].
    + intros Phi. eapply tri_quiet; [intros; apply tri_locate|]. intros a s. apply Inv_weaken; [lia|]. by intros L [H _].
    + destruct cancelledAttempt as [a|]; [|by apply ltriple_ret; intros c' s [-> H]].
      eapply ltriple_bind; [apply ltriple_assign with (Q := fun _ c' s => c' = set_runs (alter (with_attempt a) k (cs_runs c)) c /\ CA (cs_runs c) c' chose s)|].
      * intros c' s [-> H]. split; [done|]. apply (CA_relocate (cs_runs c) c); [done..| |done]. intros id. simpl. by rewrite owed_with_attempt.
      * intros []. eapply ltriple_weaken; [|exact (fun _ _ _ H => H)|exact (fun _ _ _ H => H)|apply (persist_calm (cs_runs c))].
        intros c' s [-> H]. done.
Qed.

(** ** One run *)

Section OneRun.
Variable token : string.
Variable run : WorkflowRunSummary.
Variable runs : list CancelledRun.
Let k := entry_index (w_id run) runs.
Let intended := put_entry k (intent_of run) runs.

Lemma intended_owes id : id ∈ owed_ids runs -> id ∈ owed_ids intended.
Proof. destruct (entry_index_spec (w_id run) runs) as [Hk Hp]. by apply owed_put. Qed.
Lemma intended_run : intent_of run ∈ intended.
Proof. apply elem_of_put_entry. apply entry_index_spec. Qed.

(** The log when the request leaves. *)
Definition ready (record : CiSuspensionRecord) (L : list Event) : Prop :=
  exists l live, L = l ++ [saved record; held; saw_run (w_id run) (answered live); held] /\ chose l
    /\ isCancelableValidationRun live pullRequestNumber headSha policy = true /\ run_attempt live = run_attempt run.

Lemma ready_guard record L : head_sha record = headSha -> cancelled_runs record = intended -> ready record L -> guard_cancel pullRequestNumber L (w_id run).
Proof.
  intros Hh Hr (l & live & -> & Hc & He & Ha). exists l, record, (intent_of run), live, policy.
  rewrite Hr, Hh. split_and!; [done|done|apply intended_run|done..].
Qed.
Lemma ready_chose record L : ready record L -> chose L.
Proof. intros (l & live & -> & Hc & _). apply elem_of_app. by left. Qed.

(** Refused: nothing is known that was not before. *)
Lemma after_refusal c next s :
  Inv t (Some (cs_record c)) (fun L => exists L0 r, L = L0 ++ [sent_cancel (w_id run) r] /\ refused r = true /\ facts runs c L0 /\ ready next L0) s ->
  CA runs c chose s.
Proof.
  apply Inv_weaken; [lia|]. intros L (L0 & r & -> & Hr' & (H1 & H2 & [H3 H4 H5 H6] & H7) & H8).
  assert (E : forall id, cancelled_here (L0 ++ [sent_cancel (w_id run) r]) id = cancelled_here L0 id).
  { intros id. rewrite cancelled_here_snoc. simpl. by rewrite Hr', andb_false_r, orb_false_r. }
  split; [|apply elem_of_app; left; by eapply ready_chose]. split_and!; [done|done|split|].
  - intros id. unfold kept. rewrite E. apply H3.
  - by rewrite last_loaded_snoc.
  - destruct H5 as [H5|H5]; [left; apply elem_of_app; by left|by right].
  - done.
  - intros id. rewrite E. apply H7.
Qed.

(** Otherwise the run is one to keep, and it has its entry. *)
Lemma after_request c next s :
  w_id run ∈ owed_ids (cs_runs c) ->
  Inv t (Some (cs_record c)) (fun L => exists L0 r, L = L0 ++ [sent_cancel (w_id run) r] /\ facts runs c L0 /\ ready next L0) s ->
  Inv t (Some (cs_record c)) (fun L => inheritedObligations c = inherited /\ CI (cs_runs c) (cs_record c) L /\ known (add_cancelled (w_id run) c) L /\ chose L) s.
Proof.
  intros Hin. apply Inv_weaken; [lia|]. intros L (L0 & r & -> & (H1 & H2 & [H3 H4 H5 H6] & H7) & H8).
  assert (E : forall id, cancelled_here (L0 ++ [sent_cancel (w_id run) r]) id = true -> cancelled_here L0 id = true \/ id = w_id run).
  { intros id. rewrite cancelled_here_snoc. intros [H|H]%orb_prop; [by left|]. right.
    simpl in H. by apply andb_prop in H as [<-%bool_decide_eq_true _]. }
  split_and!; [done|split| |apply elem_of_app; left; by eapply ready_chose].
  - intros id [Hid|[Hid| ->]%E]; [apply H2, H3; by left|apply H2, H3; by right|done].
  - by rewrite last_loaded_snoc.
  - destruct H5 as [H5|H5]; [left; apply elem_of_app; by left|by right].
  - done.
  - intros id [Hid| ->]%E; simpl; apply elem_of_app; [left; by apply H7|right; by apply list_elem_of_singleton].
Qed.

(** The request and its answer. *)
Lemma request_rule c next :
  cs_record c = next -> cs_runs c = intended -> cancelled_runs next = intended -> head_sha next = headSha ->
  ltri (fun c' s => c' = c /\ CA runs c (ready next) s) (lift (cancelRun (w_id run)))
    (fun (b : bool) c' s => c' = c /\ if b then Calm (add_cancelled (w_id run) c) s else CA runs c chose s)
    (fun e c' s => c' = c /\ if is_permission e then CA runs c chose s else CE e c s).
Proof.
  intros Er Ec Hr Hh. apply ltriple_lift. intros c' w Hg [-> HP].
  assert (Hin : w_id run ∈ owed_ids (cs_runs c)).
  { rewrite Ec. apply elem_of_owed_ids. exists (intent_of run). split_and!; [apply intended_run|done..]. }
  destruct (tri_cancelRun pullRequestNumber t (Some (cs_record c)) (fun L => facts runs c L /\ ready next L) (w_id run)) with w
    as (l & Hl & HI & Hg' & HQ); [intros L [_ H]; by eapply ready_guard|done|done|].
  exists l. split_and!; [done..|].
  destruct (cancelRun (w_id run) w).1 as [[|]|e]; (split; [done|]).
  - eapply Inv_weaken in HQ; [apply after_request in HQ; [|done]|reflexivity|intros L (L0 & r & E & _ & H); by exists L0, r].
    revert HQ. apply Inv_weaken; [lia|]. by intros L (H1 & H2 & H3 & H4).
  - apply after_refusal with next. revert HQ. apply Inv_weaken; [lia|]. intros L (L0 & r & E & Hr' & H). by exists L0, r.
  - destruct (is_permission e) eqn:Ee.
    + apply after_refusal with next. revert HQ. apply Inv_weaken; [lia|]. intros L (L0 & r & E & Hr' & H). exists L0, r. auto.
    + eapply Inv_weaken in HQ; [apply after_request in HQ; [|done]|reflexivity|intros L (L0 & r & E & _ & H); by exists L0, r].
      revert HQ. apply Inv_weaken; [lia|]. intros L (H1 & H2 & _). by rewrite Ee.
Qed.

Lemma fail_fine c Psi e c' s : c' = c /\ CA runs c (later Psi) s /\ fine e -> CE e c' s.
Proof. intros (-> & H & _). by eapply CA_fail. Qed.

(** An exception after a withdrawal leaves what it found. *)
Lemma raise_after e : ltri (fun c' s => exists b : bool, Calm c' s) (raise e : Local_ ci CancellationState bool) (fun _ _ _ => False) CE.
Proof. apply ltriple_raise. intros c' s [_ H]. by eapply CA_fail. Qed.
Lemma withdraw_raise {A} c e :
  withdraw_entry k (runs !! k) (cs_runs c) = runs ->
  ltri (fun c' s => c' = c /\ CA runs c chose s) (_ ← withdrawIntent k (runs !! k); raise e : Local_ ci CancellationState A) (fun _ _ _ => False) CE.
Proof.
  intros Hw. eapply ltriple_bind; [by apply (withdraw_rule runs)|]. intros b.
  apply ltriple_raise. intros c' s H. by eapply CA_fail.
Qed.

Lemma recorded_rule c next :
  cs_record c = next -> cs_runs c = intended -> cancelled_runs next = intended -> head_sha next = headSha ->
  ltri (fun c' s => c' = c /\ CA runs c (fun L => exists L0, L = L0 ++ [saved next] /\ chose L0) s)
    (cancel_recorded pullRequestNumber token headSha policy run k (runs !! k)) (fun _ => Calm) CE.
Proof.
  intros Er Ec Hr Hh. assert (Hundo : withdraw_entry k (runs !! k) (cs_runs c) = runs) by (rewrite Ec; apply withdraw_put, entry_index_spec).
  unfold cancel_recorded. eapply ltriple_bind; [eapply ltriple_weaken; [exact (fun _ _ H => H)|exact (fun _ _ _ H => H)|apply fail_fine|apply held_lift]|intros []].
  eapply ltriple_bind; [eapply ltriple_handle; [apply still_rule|]|].
  { intros e. eapply ltriple_weaken; [| | |by apply (withdraw_raise c)]; [|intros a c' s []|exact (fun _ _ _ H => H)].
    intros c' s (-> & H & _). split; [done|]. revert H. apply CA_mono. intros L (L0 & l & -> & _ & L1 & -> & L2 & -> & H).
    rewrite <- !app_assoc. apply elem_of_app. by left. }
  intros [|]; simpl negb; cbv iota.
  2: { eapply ltriple_weaken; [|exact (fun _ _ _ H => H)|exact (fun _ _ _ H => H)|by apply (withdraw_rule runs c)].
       intros c' s [-> H]. split; [done|]. revert H. apply CA_mono. intros L (L0 & l & -> & _ & L1 & -> & L2 & -> & H).
       rewrite <- !app_assoc. apply elem_of_app. by left. }
  eapply ltriple_bind; [eapply ltriple_weaken; [exact (fun _ _ H => H)|exact (fun _ _ _ H => H)|apply fail_fine|apply held_lift]|intros []].
  eapply ltriple_bind; [eapply ltriple_handle|].
  - eapply ltriple_weaken; [|exact (fun _ _ _ H => H)|exact (fun _ _ _ H => H)|by apply (request_rule c next)].
    intros c' s [-> H]. split; [done|]. revert H. apply CA_mono. intros L (L0 & -> & L1 & live & -> & (L2 & -> & L3 & -> & H) & Hc & Ha).
    exists L3, live. by rewrite <- !app_assoc.
  - intros e. simpl. destruct (is_permission e) eqn:Ee.
    + eapply ltriple_weaken; [| | |by apply (withdraw_raise c)]; [done|intros a c' s []|exact (fun _ _ _ H => H)].
    + apply ltriple_raise. by intros c' s [-> H].
  - intros [|]; simpl.
    + eapply ltriple_bind; [apply ltriple_assign with (Q := fun _ c' s => c' = add_cancelled (w_id run) c /\ Calm (add_cancelled (w_id run) c) s)|intros []; apply confirm_rule].
      by intros c' s [-> H].
    + eapply ltriple_weaken; [exact (fun _ _ H => H)|exact (fun _ _ _ H => H)|exact (fun _ _ _ H => H)|by apply (withdraw_rule runs c)].
Qed.

Lemma observed_rule c :
  cs_runs c = runs -> ltri (fun c' s => c' = c /\ Calm c s) (cancelObservedRun pullRequestNumber token headSha policy run) (fun _ => Calm) CE.
Proof.
  intros Hc. unfold cancelObservedRun.
  eapply ltriple_bind; [apply ltriple_locals with (Q := fun a c' s => a = c /\ c' = c /\ CA runs c chose s); intros l s [-> H]; split_and!; [done..|by rewrite <- Hc]|].
  intros c1. apply ltriple_pure. intros ->. cbv zeta. rewrite Hc. fold k. fold intended.
  eapply ltriple_bind; [apply ltriple_assign with (Q := fun _ c' s => c' = set_runs intended c /\ CA runs (set_runs intended c) chose s)|intros []].
  { intros c' s [-> H]. split; [done|]. apply (CA_relocate runs c); [done..| |done]. apply intended_owes. }
  eapply ltriple_bind; [eapply ltriple_weaken; [exact (fun _ _ H => H)|exact (fun _ _ _ H => H)|apply fail_fine|apply persist_intent_rule]|].
  intros [|]; [|apply ltriple_ret; intros c' s [-> H]; by apply CA_grow in H].
  apply ltriple_ex. intros next l w Hg (-> & Hr & Hh & H).
  apply (recorded_rule (set_record next (set_runs intended c)) next); done.
Qed.
End OneRun.

(** ** The pass *)

Lemma listed_rule token listed : ltri Calm (cancel_listed pullRequestNumber token headSha policy listed) (fun _ => Calm) CE.
Proof.
  induction listed as [|l listed IH]; cbn [cancel_listed]; [by apply ltriple_ret|].
  destruct (isCancelableValidationRun l pullRequestNumber headSha policy); simpl; [|exact IH].
  apply ltriple_fix. intros c.
  eapply ltriple_bind; [apply calm_lift|intros []].
  { intros Phi. eapply etriple_weaken; [exact (fun _ H => H)| |exact (fun _ _ H => H)|apply tri_held].
    intros a s. apply Inv_weaken; [lia|]. intros L (L0 & -> & HP). by apply later_snoc. }
  eapply ltriple_bind; [apply calm_lift|intros run].
  { intros Phi. eapply etriple_weaken; [exact (fun _ H => H)| |exact (fun _ _ H => H)|apply tri_getRun].
    intros o s. apply Inv_weaken; [lia|]. intros L (L0 & r & -> & HP & _). by apply later_snoc. }
  assert (Hnext : ltri (fun c' s => c' = c /\ Calm c s) (cancel_listed pullRequestNumber token headSha policy listed) (fun _ => Calm) CE).
  { eapply ltriple_weaken; [|exact (fun _ _ _ H => H)|exact (fun _ _ _ H => H)|exact IH]. by intros c' s [-> H]. }
  destruct run as [run|]; [|done]. destruct (isCancelableValidationRun run pullRequestNumber headSha policy); simpl; [|done].
  eapply ltriple_bind; [by apply (observed_rule token run (cs_runs c) c)|]. intros [|]; [exact IH|by apply ltriple_ret].
Qed.
End Pass.

(** The whole pass, whichever way its policy was read. *)
Lemma pending_rule pr headSha inherited t token policyM c Psi :
  head_sha (cs_record c) = headSha ->
  ltriple good (own pr) (fun c' s => c' = c /\ CA pr headSha inherited t (cs_runs c) c Psi s) (lift policyM)
    (fun p c' s => c' = c /\ CA pr headSha inherited t (cs_runs c) c (fun L => chosen p ∈ L) s) (CE pr headSha inherited t) ->
  ltriple good (own pr) (fun c' s => c' = c /\ CA pr headSha inherited t (cs_runs c) c Psi s) (cancelPendingRuns pr token policyM)
    (fun _ c' s => CA pr headSha inherited t (cs_runs c') c' (fun _ => True) s) (CE pr headSha inherited t).
Proof.
  intros Hh Hp. unfold cancelPendingRuns.
  eapply ltriple_bind; [apply ltriple_locals with (Q := fun a c' s => a = c /\ c' = c /\ CA pr headSha inherited t (cs_runs c) c Psi s); by intros l s [-> H]|].
  intros c1. apply ltriple_pure. intros ->. cbv zeta. rewrite Hh. eapply ltriple_bind; [exact Hp|]. intros p.
  destruct (selected p); [apply ltriple_ret; intros c' s [-> H]; revert H; by apply CA_mono|].
  eapply ltriple_bind; [apply (calm_lift pr headSha inherited p t)|intros listed].
  - intros Phi. eapply etriple_weaken; [exact (fun _ H => H)| |exact (fun _ _ H => H)|apply tri_listed].
    intros rs st. apply Inv_weaken; [lia|]. by intros L [H _].
  - eapply ltriple_weaken; [| | |apply listed_rule]; [| |exact (fun _ _ _ H => H)].
    + by intros c' st [-> H].
    + intros a c' st. by apply CA_mono.
Qed.
