(* ===== verification/CiBegin.v ===== *)
(** * CI suspension: the lease, beginning and sweeping

    What an operation under the lease needs ([lease_rule]), and that beginning and
    sweeping keep every obligation and send guarded requests only. *)

From S2P Require Import Prelude JsString Interleave CiRuns CiSuspend CiOperations CiRules CiRequests CiCancel.

Open Scope string_scope.
Open Scope Z_scope.
Open Scope list_scope.

Lemma sameSha_sym a b : sameSha a b = sameSha b a.
Proof.
  unfold sameSha. destruct (truthy_string a), (truthy_string b); try done. by apply bool_decide_ext.
Qed.
Lemma sameSha_head a b : sameSha (Some a) (Some b) = true -> to_lower a = to_lower b.
Proof.
  unfold sameSha, truthy_string. destruct a, b; simpl; try discriminate. apply bool_decide_eq_true.
Qed.

Section Lease.
Variable randomUUID_ : list string -> string.
Variable pullRequestNumber : Z.
Abbreviation own := (own pullRequestNumber).
Abbreviation Inv := (Inv pullRequestNumber).
Abbreviation tri := (etriple good own).
Abbreviation Any t := (Inv t None (fun _ => True)).

Lemma Inv_any t t' o Phi s : t' <= t -> Inv t o Phi s -> Any t' s.
Proof. intros Ht H. eapply Inv_forget, Inv_weaken; [exact Ht| |exact H]. done. Qed.

Lemma tri_attempt_lease {A} t o Phi (f : ci -> A * ci) E :
  (forall s, row (f s).2 = row s /\ past (f s).2 = past s /\ log (f s).2 = log s /\ now (f s).2 = now s) ->
  tri (Inv t o Phi) (attempt_ (statement f)) (fun _ => Inv t o Phi) E.
Proof.
  intros H. eapply etriple_weaken; [exact (fun _ H => H)| | |apply tri_attempt, tri_lease, H]; [|done].
  intros [a|e] s; [done|by intros [Hs _]].
Qed.

Lemma tri_claim t o Phi token :
  tri (Inv t o Phi) (claimExpired token) (fun _ => Inv t o Phi) (fun e s => Inv t o Phi s /\ fine e).
Proof. apply tri_lease. intros s. destruct (lease s) as [l|]; [destruct (expires_at l <=? now s)|]; by simpl. Qed.

Lemma tri_tryAcquire t o Phi token :
  tri (Inv t o Phi) (tryAcquire token) (fun _ => Inv t o Phi) (fun e s => Inv t o Phi s /\ fine e).
Proof.
  unfold tryAcquire. eapply etriple_bind; [apply tri_attempt_lease; intros s; by destruct (lease s)|].
  intros [[|]|e]; [by apply etriple_ret|apply tri_claim..].
Qed.

Lemma tri_now t o Phi E : tri (Inv t o Phi) (asks now) (fun v s => Inv v o Phi s /\ t <= v) E.
Proof. apply tri_read. intros s (Hw & HG & Ht & H). split; [|done]. split_and!; [done|done|lia|apply H..]. Qed.

(** Waiting for the lease ends: the fuel outlasts the deadline. *)
Lemma tri_acquire fuel token deadline t o Phi :
  deadline <= t + LEASE_RETRY_INTERVAL_MS * Z.of_nat fuel ->
  tri (Inv t o Phi) (acquire fuel token deadline) (fun _ => Inv t o Phi) (fun e s => Inv t o Phi s /\ fine e).
Proof.
  revert t. induction fuel as [|fuel IH]; intros t Hd; cbn [acquire].
  all: eapply etriple_bind; [apply tri_tryAcquire|intros [|]; [by apply etriple_ret|]].
  all: eapply etriple_bind; [apply tri_now|intros v].
  all: apply etriple_pure; intros Hv; apply (etriple_weaken (Inv t o Phi)) with (Q' := fun _ => Inv t o Phi) (E' := fun e s => Inv t o Phi s /\ fine e);
    [intros s; by apply Inv_weaken|done|done|destruct (Z.leb_spec deadline v) as [|Hlt]].
  1, 3: apply etriple_throw; intros s Hs; split; [done|by split].
  - exfalso. unfold LEASE_RETRY_INTERVAL_MS in Hd. lia.
  - eapply etriple_bind; [apply tri_sleep; done|]. intros [].
    eapply etriple_weaken; [exact (fun _ H => H)| | |apply IH].
    + intros a s. apply Inv_weaken; [unfold LEASE_RETRY_INTERVAL_MS; lia|done].
    + intros e s [H He]. split; [|done]. revert H. apply Inv_weaken; [unfold LEASE_RETRY_INTERVAL_MS; lia|done].
    + unfold LEASE_RETRY_INTERVAL_MS in *. lia.
Qed.

Lemma lease_rule {A} t o Phi (operation : string -> M A) (X : string -> Prop) :
  (forall e, fine e -> X e) ->
  (forall token, tri (Inv t o Phi) (operation token) (fun _ => Any t) (fun e s => Any t s /\ X e)) ->
  tri (Inv t o Phi) (withSuspensionLease randomUUID_ operation) (fun _ => Any t) (fun e s => Any t s /\ X e).
Proof.
  intros HX Hop. unfold withSuspensionLease.
  eapply etriple_bind; [apply tri_draw|]. intros token.
  eapply etriple_bind; [apply tri_now|]. intros v.
  assert (Hback : forall s, t <= v -> Inv v o Phi s -> Inv t o Phi s) by (intros s Hv; by apply Inv_weaken).
  eapply etriple_bind with (Q := fun _ => Inv t o Phi).
  - apply etriple_pure. intros Hv. eapply etriple_weaken; [exact (fun _ H => H)| | |apply (tri_acquire _ _ _ v); done].
    + intros a s. by apply Hback.
    + intros e s [H He]. split; [|by apply HX]. by eapply Inv_any.
  - intros []. eapply etriple_bind; [eapply etriple_weaken; [| | |apply tri_attempt, Hop]; [exact (fun _ H => H)|exact (fun _ _ H => H)|intros e s []]|].
    intros outcome. eapply etriple_bind with (Q := fun _ s => Any t s /\ match outcome with Ok _ => True | Throw e => X e end).
    + apply etriple_weaken with (P' := fun s => Any t s /\ match outcome with Ok _ => True | Throw e => X e end)
        (Q' := fun _ s => Any t s /\ match outcome with Ok _ => True | Throw e => X e end) (E' := fun e s => Any t s /\ X e); [by destruct outcome|done..|].
      apply etriple_pure. intros Ho. eapply etriple_weaken; [exact (fun _ H => H)| |exact (fun _ _ H => H)|apply tri_attempt_lease].
      * intros a s H. by split.
      * intros s. by destruct (lease_is token s).
    + intros r. apply tri_or_throw; [by intros a s []|]. intros e s ->. done.
Qed.
End Lease.

Section Begin.
Variable randomUUID_ : list string -> string.
Hypothesis fresh : forall l, randomUUID_ l ∉ l.
Variable pullRequestNumber : Z.
Variable t : Z.
Abbreviation own := (own pullRequestNumber).
Abbreviation Inv := (Inv pullRequestNumber).
Abbreviation tri := (etriple good own).
Abbreviation Any := (Inv t None (fun _ => True)).
Abbreviation CA := (CA pullRequestNumber).
Abbreviation CE := (CE pullRequestNumber).

(** Nothing may have been cancelled yet. *)
Definition quiet (L : list Event) : Prop := forall id, cancelled_here L id = false.
Lemma quiet_snoc L e : sent e = false -> quiet L -> quiet (L ++ [e]).
Proof. intros He H id. rewrite cancelled_here_snoc, H. by destruct e. Qed.
Lemma quiet_app L l : Forall (fun e => sent e = false) l -> quiet L -> quiet (L ++ l).
Proof.
  intros Hl. revert L. induction Hl as [|e l He Hl IH]; intros L H; [by rewrite app_nil_r|].
  change (e :: l) with ([e] ++ l). rewrite app_assoc. by apply IH, quiet_snoc.
Qed.

Lemma tri_read_policy o Phi :
  tri (Inv t o Phi) read_policy (fun p => Inv t o (fun L => exists L0, L = L0 ++ [chosen p] /\ Phi L0)) (fun _ => Inv t o Phi).
Proof.
  unfold read_policy. eapply etriple_bind; [apply tri_read with (Q := fun _ => Inv t o Phi); done|]. intros sel.
  eapply etriple_bind; [apply tri_or_throw with (Q := fun _ => Inv t o Phi); done|]. intros sel'.
  eapply etriple_bind; [apply tri_read with (Q := fun _ => Inv t o Phi); done|]. intros env'.
  apply tri_note with (f := fun _ => resolvePolicy sel' env') (e := chosen); [|done]. intros L a _. by apply calm_guarded.
Qed.

Lemma tri_uuid o Phi E :
  tri (Inv t o Phi) (randomUUID randomUUID_) (fun id s => Inv t o Phi s /\ drawn_fresh id s) E.
Proof.
  apply etriple_call; [intros; by apply Inv_stable|]. intros s Hs. simpl.
  assert (HI : Inv t o Phi (draw (randomUUID_ (used s)) s)).
  { destruct Hs as ([Hu Hrow] & HG & Ht & Ho & HP). split_and!; [by split|done..]. }
  split; [split; [by apply survive_same|apply HI]|]. split; [done|]. split; simpl; [by left|].
  intros H. apply (fresh (used s)). unfold used. apply elem_of_app. by left.
Qed.

(** ** The reservation *)

(** A suspension this worker has just reserved or loaded. *)
Definition Started (c : CancellationState) (Psi : list Event -> Prop) : ci -> Prop :=
  CA (head_sha (cs_record c)) (inheritedObligations c) t (cs_runs c) c Psi.

Lemma started_facts record runs L :
  quiet L -> saved record ∈ L \/ cancelled_runs record = runs ->
  (forall rec, last_loaded L = Some rec -> sameSha (Some (head_sha rec)) (Some (head_sha record)) = true -> cancelled_runs rec = runs) ->
  facts (head_sha record) (owed_ids runs) runs (cancellationState record runs) L.
Proof.
  intros Hq Hs Hl. split_and!; [done|done|split|].
  - intros id [H|H]; [done|]. by rewrite Hq in H.
  - intros rec H1 H2 id Hid. by rewrite (Hl rec) in Hid.
  - destruct Hs as [H|H]; [by left|right; simpl; intros id; by rewrite H].
  - done.
  - intros id H. by rewrite Hq in H.
Qed.

Lemma last_loaded_read L r : last_loaded (L ++ [loaded r; held]) = r.
Proof. change [loaded r; held] with ([loaded r] ++ [held]). by rewrite app_assoc, !last_loaded_snoc. Qed.

(** The row that was read is taken over: its runs are kept under the same head, and
    given up only for the open head. *)
Lemma take_over_rule e record runs headSha Phi :
  runs = (if sameSha (Some (head_sha e)) (Some headSha) then cancelled_runs e else []) ->
  head_sha record = headSha -> cancelled_runs record = runs -> incarnation record = incarnation e -> generation record = generation e + 1 -> created_at record = created_at e ->
  (forall L, Phi L -> quiet L) ->
  (forall L, Phi L -> exists h, saw_head (answered (Some h)) ∈ L /\ sha h = headSha) ->
  tri (Inv t (Some e) (fun L => exists L0, L = L0 ++ [loaded (Some e); held] /\ Phi L0)) (takeOverSuspension e record)
    (fun b s => if b : bool then Started (cancellationState record runs) (fun L => exists L0 l, L = L0 ++ l /\ Phi L0) s else Any s) (fun _ => Any).
Proof.
  intros Hruns Hhead Hrec Hi Hg Hc Hq Hh.
  eapply etriple_weaken; [| | |apply tri_take_over; [done..|]]; [exact (fun _ H => H)| |intros e' s [H _]; by eapply Inv_any|].
  - intros [|] s; [|by apply Inv_any]. apply Inv_weaken; [done|]. intros L (L0 & -> & L1 & -> & HP). split.
    + simpl. subst headSha. apply started_facts.
      * apply quiet_snoc; [done|]. apply quiet_app; [by repeat constructor|]. by apply Hq.
      * left. apply elem_of_app. right. by apply list_elem_of_singleton.
      * intros rec. rewrite last_loaded_snoc, last_loaded_read. intros [= <-] Hs. by rewrite Hruns, Hs.
    + exists L1, ([loaded (Some e); held] ++ [saved record]). by rewrite app_assoc.
  - intros L e0 (L0 & -> & HP) He0 Ho. destruct (sameSha (Some (head_sha e)) (Some headSha)) eqn:Es.
    + left. rewrite Hrec, Hruns. split; [|apply elem_of_owed_ids; eauto]. unfold same_head. rewrite Hhead. symmetry. by apply sameSha_head.
    + right. left. destruct (Hh L0 HP) as (h & Hin & <-). exists h. split; [apply elem_of_app; by left|]. right. by rewrite sameSha_sym.
Qed.

Lemma reserve_rule headSha taskId correlationId token Phi :
  (forall L, Phi L -> quiet L) ->
  (forall L, Phi L -> exists h, saw_head (answered (Some h)) ∈ L /\ sha h = headSha) ->
  tri (Inv t None Phi) (reserveSuspension randomUUID_ headSha taskId correlationId (assertHeld token))
    (fun r s => match r with Some (record, runs) => Started (cancellationState record runs) (fun L => exists L0 l, L = L0 ++ l /\ Phi L0) s | None => Any s end)
    (fun _ => Any).
Proof.
  intros Hq Hh. unfold reserveSuspension.
  eapply etriple_bind; [eapply etriple_weaken; [| | |apply tri_load]; [exact (fun _ H => H)|exact (fun _ _ H => H)|intros e s [H _]; by eapply Inv_any]|].
  intros existing.
  eapply etriple_bind; [eapply etriple_weaken; [| | |apply tri_held]; [exact (fun _ H => H)|exact (fun _ _ H => H)|intros e s [H _]; by eapply Inv_any]|].
  intros [].
  eapply etriple_bind; [apply tri_read with (Q := fun _ => Inv t existing (fun L => exists L0, L = L0 ++ [loaded existing; held] /\ Phi L0))|].
  { intros s. apply Inv_weaken; [done|]. intros L (L0 & -> & L1 & -> & HP). exists L1. by rewrite <- app_assoc. }
  intros timestamp. destruct existing as [e|]; cbv zeta.
  - eapply etriple_bind; [eapply (take_over_rule e) with (headSha := headSha); done|]. intros [|]; by apply etriple_ret.
  - eapply etriple_bind; [apply tri_uuid|]. intros id.
    eapply etriple_bind; [eapply etriple_weaken; [| | |apply tri_insert]; [intros s H; exact H|exact (fun _ _ H => H)|intros e s [H _]; by eapply Inv_any]|].
    intros [|]; [|by apply etriple_ret]. apply etriple_ret. intros s. apply Inv_weaken; [done|]. intros L (L0 & -> & L1 & -> & HP). split.
    + apply started_facts; [|by right|].
      * apply quiet_snoc; [done|]. apply quiet_app; [by repeat constructor|]. by apply Hq.
      * intros rec. by rewrite last_loaded_snoc, last_loaded_read.
    + exists L1, ([loaded None; held] ++ [saved (Rec headSha taskId correlationId SUSPENSION_ACTIVE [] 0 1 id timestamp timestamp)]). by rewrite app_assoc.
Qed.

(** ** Beginning *)

Lemma reserve_head_rule taskId correlationId token Phi :
  (forall L, Phi L -> quiet L) ->
  tri (Inv t None Phi) (reserve_head randomUUID_ token taskId correlationId)
    (fun r s => match r with inr (c, policy) => Started c (fun L => chosen policy ∈ L) s | inl _ => Any s end) (fun _ => Any).
Proof.
  intros Hq. unfold reserve_head. assert (Hany : forall o Phi' s, Inv t o Phi' s -> Any s) by (intros o Phi' s; by apply Inv_any).
  eapply etriple_bind; [apply tri_read with (Q := fun _ => Inv t None Phi); done|]. intros on.
  eapply etriple_bind; [apply tri_or_throw with (Q := fun _ => Inv t None Phi); [done|intros e s _; apply Hany]|]. intros [|]; simpl; [|apply etriple_ret; intros s; apply Hany].
  eapply etriple_bind; [eapply etriple_weaken; [| | |apply tri_read_policy]; [exact (fun _ H => H)|exact (fun _ _ H => H)|intros e s; apply Hany]|].
  intros policy. case_bool_decide; [apply etriple_ret; intros s; apply Hany|].
  destruct (selected policy) as [|x xs]; [apply etriple_ret; intros s; apply Hany|].
  eapply etriple_bind; [eapply etriple_weaken; [| | |apply tri_head]; [exact (fun _ H => H)|exact (fun _ _ H => H)|intros e s [H0 _]; by eapply Hany]|].
  intros [h|]; [|apply etriple_ret; intros s'; apply Hany]. destruct (open h); simpl; [|apply etriple_ret; intros s'; apply Hany].
  eapply etriple_bind; [eapply etriple_weaken; [| | |apply tri_held]; [exact (fun _ H => H)|exact (fun _ _ H => H)|intros e s' [H0 _]; by eapply Hany]|].
  intros []. eapply etriple_bind.
  - apply reserve_rule.
    + intros L (L0 & -> & L1 & r & -> & (L2 & -> & HP) & _). do 3 (apply quiet_snoc; [done|]). by apply Hq.
    + intros L (L0 & -> & L1 & r & -> & _ & Hr). destruct (Hr h eq_refl) as [-> _]. exists h. split; [|done].
      apply elem_of_app; left. apply elem_of_app; right. by apply list_elem_of_singleton.
  - intros [[record runs]|]; apply etriple_ret; [|done]. intros st. apply CA_mono.
    intros L (L0 & l' & -> & L1 & -> & L2 & r & -> & (L3 & -> & _) & _). do 3 (apply elem_of_app; left).
    apply elem_of_app. right. by apply list_elem_of_singleton.
Qed.

(** A failed start drops its reservation only where it owes nothing. *)
Lemma nothing_left inherited headSha e c L en :
  inheritedObligations c = inherited -> CI headSha inherited (cs_runs c) (cs_record c) L -> (is_permission e = true -> known c L) ->
  leavesNothingToRestore c (is_permission e) = true -> en ∈ cancelled_runs (cs_record c) -> owed en = true ->
  justified pullRequestNumber L (cs_record c) en.
Proof.
  intros Hi [H1 H2 H3 H4] Hk Hl He Ho. unfold leavesNothingToRestore in Hl.
  apply andb_prop in Hl as [[[_ Hc%bool_decide_eq_true]%andb_prop Hin%bool_decide_eq_true]%andb_prop Hp].
  assert (Hnone : forall id, id ∉ inherited) by (intros id H; rewrite <- Hi, Hin in H; by apply elem_of_nil in H).
  assert (Hid : cr_id en ∈ owed_ids (cancelled_runs (cs_record c))) by (apply elem_of_owed_ids; eauto).
  right; right. split_and!.
  - destruct H3 as [H3|H3]; [done|]. by apply H3, Hnone in Hid.
  - destruct (cancelled_here L (cr_id en)) eqn:E; [|done]. apply orb_prop in Hp as [Hp|Hp%bool_decide_eq_true].
    + apply (Hk Hp) in E. rewrite Hc in E. by apply elem_of_nil in E.
    + assert (H : cr_id en ∈ owed_ids (cs_runs c)) by (apply H1; by right). rewrite Hp in H. by apply elem_of_nil in H.
  - intros rec Hrec Hs H. rewrite H4 in Hs. by eapply Hnone, H2.
Qed.

Lemma settle_rule e c inherited headSha :
  tri (CE headSha inherited t e c) (settleFailedStart e (Some c)) (fun _ => Any) (fun _ _ => False).
Proof.
  unfold settleFailedStart. assert (Hany : forall o Phi' s, Inv t o Phi' s -> Any s) by (intros o Phi' s; by apply Inv_any).
  case_bool_decide; [apply etriple_ret; intros s; apply Hany|].
  eapply etriple_bind with (Q := fun _ => Any); [|intros u; by apply etriple_ret].
  destruct (leavesNothingToRestore c (is_permission e)) eqn:El; [|apply etriple_ret; intros s; apply Hany].
  eapply etriple_bind; [apply tri_attempt, tri_delete|].
  - intros L en (H1 & H2 & H3). by eapply nothing_left.
  - intros r. apply etriple_ret. intros s Hs. destruct r; [by eapply Hany|]. destruct Hs as [Hs _]. by eapply Hany.
Qed.

Lemma begin_rule taskId correlationId token Phi :
  (forall L, Phi L -> quiet L) ->
  tri (Inv t None Phi) (beginSuspension randomUUID_ pullRequestNumber taskId correlationId token) (fun _ => Any) (fun _ _ => False).
Proof.
  intros Hq. unfold beginSuspension. eapply etriple_bind; [by apply tri_attempt, reserve_head_rule|].
  intros [[reason|[c policy]]|e].
  - by apply etriple_ret.
  - eapply etriple_bind.
    + eapply etriple_weaken; [| | |refine (pending_rule pullRequestNumber (head_sha (cs_record c)) (inheritedObligations c) t token (mret policy) c (fun L => chosen policy ∈ L) eq_refl _ c)].
      * intros s H. by split.
      * intros p s H. exact H.
      * intros e s [].
      * intros l w Hg HP. exists []. rewrite app_nil_r. by split_and!.
    + intros [c' [[]|e]]; simpl; [|apply settle_rule]. apply etriple_ret. intros s H. by eapply Inv_any.
  - unfold settleFailedStart. case_bool_decide; [by apply etriple_ret|].
    eapply etriple_bind with (Q := fun _ => Any); [by apply etriple_ret|]. intros u. by apply etriple_ret.
Qed.

Lemma beginFollowup_rule taskId correlationId Phi :
  (forall L, Phi L -> quiet L) ->
  tri (Inv t None Phi) (beginFollowupCiSuspension randomUUID_ pullRequestNumber taskId correlationId) (fun _ => Any) (fun _ _ => False).
Proof.
  intros Hq. unfold beginFollowupCiSuspension. eapply etriple_catch; [apply (lease_rule _ _ _ _ _ _ (fun _ => True)); [done|]|].
  - intros token. eapply etriple_weaken; [| | |by apply begin_rule]; [exact (fun _ H => H)|exact (fun _ _ H => H)|intros e s []].
  - intros e. apply etriple_ret. by intros s [H _].
Qed.

(** ** Sweeping *)

(** Reading the policy between two writes of the pass. *)
Lemma policy_lift headSha inherited c :
  ltriple good own (fun c' s => c' = c /\ CA headSha inherited t (cs_runs c) c (fun _ => True) s) (lift read_policy)
    (fun p c' s => c' = c /\ CA headSha inherited t (cs_runs c) c (fun L => chosen p ∈ L) s) (CE headSha inherited t).
Proof.
  apply ltriple_lift. intros c' w Hg [-> HP].
  destruct (tri_read_policy (Some (cs_record c)) (fun L => facts headSha inherited (cs_runs c) c L /\ True) w Hg HP) as (l & Hl & HI & Hg' & HQ).
  exists l. split_and!; [done..|]. destruct (read_policy w).1 as [p|e]; [|by apply (CA_fail _ _ _ _ (cs_runs c) c (fun _ => True))].
  split; [done|]. revert HQ. apply Inv_weaken; [done|]. intros L (L0 & -> & Hf & _). split; [by apply facts_calm|].
  apply elem_of_app. right. by apply list_elem_of_singleton.
Qed.

Lemma sweep_rule record token Phi :
  (forall L, Phi L -> quiet L) ->
  tri (Inv t None Phi) (sweepSuspension pullRequestNumber record token) (fun _ => Any) (fun _ => Any).
Proof.
  intros Hq. unfold sweepSuspension. assert (Hany : forall o Phi' s, Inv t o Phi' s -> Any s) by (intros o Phi' s; by apply Inv_any).
  eapply etriple_bind; [eapply etriple_weaken; [| | |apply tri_load]; [exact (fun _ H => H)|exact (fun _ _ H => H)|intros e s [H _]; by eapply Hany]|].
  intros [current|]; [|apply etriple_ret; intros s; apply Hany].
  destruct (same_suspension record current); simpl; [|apply etriple_ret; intros s; apply Hany].
  case_bool_decide; simpl; [|apply etriple_ret; intros s; apply Hany].
  eapply etriple_bind; [eapply etriple_weaken; [| | |apply tri_head]; [exact (fun _ H => H)|exact (fun _ _ H => H)|intros e s [H0 _]; by eapply Hany]|].
  intros [h|]; [|apply etriple_ret; intros s'; apply Hany].
  assert (Hdel : forall r, open h = false \/ sameSha (Some (sha h)) (Some (head_sha current)) = false ->
    tri (Inv t (Some current) (fun L => exists L0 r, L = L0 ++ [saw_head r] /\ (exists L1, L0 = L1 ++ [loaded (Some current)] /\ Phi L1)
          /\ forall h', Some h = Some h' -> r = answered (Some h') /\ sha h' <> ""))
      (_ ← deleteSuspension current; mret (r, []) : M (SweepReason * list Z)) (fun _ => Any) (fun _ => Any)).
  { intros r Hr. eapply etriple_bind; [|intros b; apply etriple_ret; intros s Hs; exact Hs].
    eapply etriple_weaken; [| | |apply tri_delete]; [exact (fun _ H => H)|intros b s; apply Hany|intros e s [H0 _]; by eapply Hany|].
    intros L e (L0 & x & -> & _ & Hx) _ _. left. destruct (Hx h eq_refl) as [-> _]. exists h. split; [|done].
    apply elem_of_app. right. by apply list_elem_of_singleton. }
  destruct (open h) eqn:Eo; simpl; [|apply Hdel; by left].
  destruct (sameSha (Some (sha h)) (Some (head_sha current))) eqn:Es; simpl; [|apply Hdel; by right].
  set (c := cancellationState current (cancelled_runs current)).
  eapply etriple_bind.
  - eapply etriple_weaken; [| | |refine (pending_rule pullRequestNumber (head_sha current) (owed_ids (cancelled_runs current)) t token read_policy c (fun _ => True) eq_refl _ c)].
    + intros s HI. split; [done|]. revert HI. apply Inv_weaken; [done|]. intros L (L0 & x & -> & (L1 & -> & HP) & _). split; [|done].
      apply started_facts; [|by right|].
      * do 2 (apply quiet_snoc; [done|]). by apply Hq.
      * intros rec. rewrite !last_loaded_snoc. by intros [= ->].
    + intros p s HI. exact HI.
    + intros e s [].
    + apply policy_lift.
  - intros [c' [[]|e]]; simpl; [|apply etriple_throw; intros s; apply Hany]. apply etriple_ret. intros s. apply Hany.
Qed.

Lemma sweepFollowup_rule record Phi :
  (forall L, Phi L -> quiet L) ->
  tri (Inv t None Phi) (sweepFollowupCiSuspension randomUUID_ pullRequestNumber record) (fun _ => Any) (fun _ => Any).
Proof.
  intros Hq. unfold sweepFollowupCiSuspension. eapply etriple_catch; [apply (lease_rule _ _ _ _ _ _ (fun _ => True)); [done|]|].
  - intros token. eapply etriple_weaken; [| | |by apply sweep_rule]; [exact (fun _ H => H)|exact (fun _ _ H => H)|by intros e s].
  - intros e. destruct (is_lease_error e); [apply etriple_ret|apply etriple_throw]; by intros s [H _].
Qed.
End Begin.
