(* ===== verification/CiAssess.v ===== *)
(** * CI suspension: what a cancelled run still needs

    The decisions of restoration in CiOperations.v (the head, one run, the rerun) with the
    evidence each leaves in the log. *)

From S2P Require Import Prelude JsString Interleave CiRuns CiSuspend CiOperations CiRules CiRequests CiCancel CiBegin.

Open Scope string_scope.
Open Scope Z_scope.
Open Scope list_scope.

Section Assess.
Variable pullRequestNumber : Z.
Abbreviation own := (own pullRequestNumber).
Abbreviation Inv := (Inv pullRequestNumber).
Abbreviation tri := (etriple good own).

(** The head is still the record's, or its suspension is gone. *)
Lemma release_rule t r Phi :
  tri (Inv t (Some r) Phi) (releaseObsoleteHead r)
    (fun stopped s => match stopped with
       | None => Inv t (Some r) (fun L => exists L0 h, L = L0 ++ [saw_head (answered (Some h))] /\ open h = true
                   /\ sameSha (Some (sha h)) (Some (head_sha r)) = true /\ Phi L0) s
       | Some _ => Inv t (Some r) (later Phi) s end)
    (fun e s => Inv t (Some r) (later Phi) s /\ fine e).
Proof.
  unfold releaseObsoleteHead. eapply etriple_bind; [apply tri_head|].
  intros [h|].
  2: { apply etriple_ret. intros s. apply Inv_weaken; [done|]. intros L (L0 & x & -> & HP & _). by apply later_snoc. }
  assert (Hdel : forall reason, open h = false \/ sameSha (Some (sha h)) (Some (head_sha r)) = false ->
    tri (Inv t (Some r) (fun L => exists L0 x, L = L0 ++ [saw_head x] /\ Phi L0 /\ forall h', Some h = Some h' -> x = answered (Some h') /\ sha h' <> ""))
      (_ ← deleteSuspension r; mret (Some reason) : M (option RestoreReason))
      (fun stopped s => match stopped with
       | None => Inv t (Some r) (fun L => exists L0 h, L = L0 ++ [saw_head (answered (Some h))] /\ open h = true
                   /\ sameSha (Some (sha h)) (Some (head_sha r)) = true /\ Phi L0) s
       | Some _ => Inv t (Some r) (later Phi) s end)
      (fun e s => Inv t (Some r) (later Phi) s /\ fine e)).
  { intros reason Hr.
    assert (Hl : forall s, Inv t (Some r) (fun L => exists L0 x, L = L0 ++ [saw_head x] /\ Phi L0 /\ forall h', Some h = Some h' -> x = answered (Some h') /\ sha h' <> "") s ->
      Inv t (Some r) (later Phi) s) by (intros s; apply Inv_weaken; [done|]; intros L (L0 & x & -> & HP & _); by apply later_snoc).
    eapply etriple_bind; [|intros b; apply etriple_ret; intros s Hs; exact Hs].
    eapply etriple_weaken; [| | |apply tri_delete]; [exact (fun _ H => H)|intros b s; apply Hl|intros e s [H He]; split; [by apply Hl|done]|].
    intros L e (L0 & x & -> & _ & Hx) _ _. left. destruct (Hx h eq_refl) as [-> _]. exists h. split; [|done].
    apply elem_of_app. right. by apply list_elem_of_singleton. }
  destruct (open h) eqn:Eo; simpl; [|apply Hdel; by left].
  destruct (sameSha (Some (sha h)) (Some (head_sha r))) eqn:Es; [|apply Hdel; by right].
  apply etriple_ret. intros s. apply Inv_weaken; [done|]. intros L (L0 & x & -> & HP & Hx). destruct (Hx h eq_refl) as [-> _]. by exists L0, h.
Qed.

(** What the run itself shows. *)
Definition over (L : list Event) (e : CancelledRun) : Prop :=
  (exists live a, saw_run (cr_id e) (answered live) ∈ L /\ past_attempt live (Some a) = true /\ cancelled_attempt L e a)
  \/ (exists live, saw_run (cr_id e) (answered live) ∈ L /\ completed live = true /\ cancelled live = false).

Lemma over_live (L : list Event) e live :
  saw_run (cr_id e) (answered live) ∈ L -> attemptAdvanced e live = true \/ completed live = true /\ cancelled live = false -> over L e.
Proof.
  intros Hin [H|H]; [left|right; by exists live]. unfold attemptAdvanced in H. destruct (attempt e) as [a|] eqn:E.
  - exists live, a. split_and!; [done|done|by left].
  - unfold past_attempt in H. by destruct (run_attempt live).
Qed.

Definition assessed (run : CancelledRun) (active : list Z) (L : list Event) (d : Assessment) : Prop :=
  match d with
  | as_pending => True
  | as_settled => over L run \/ exists w, cr_workflowId run = Some w /\ w ∈ active
  | as_rerun (Some _) => True
  | as_rerun None => exists live, saw_run (cr_id run) (answered live) ∈ L /\ run_attempt live = None
  end.

Lemma assess_rule run active t o Phi :
  tri (Inv t o Phi) (assessCancelledRun run active)
    (fun d => Inv t o (fun L => later Phi L /\ assessed run active L d))
    (fun e s => Inv t o (later Phi) s /\ fine e).
Proof.
  unfold assessCancelledRun. eapply etriple_bind; [apply tri_getRun|]. intros live.
  destruct live as [live|].
  2: { apply etriple_ret. intros s. apply Inv_weaken; [done|]. intros L (L0 & r & -> & HP & _). split; [by apply later_snoc|done]. }
  apply (etriple_weaken (Inv t o (fun L => later Phi L /\ saw_run (cr_id run) (answered live) ∈ L)))
    with (Q' := fun d => Inv t o (fun L => later Phi L /\ assessed run active L d)) (E' := fun e s => Inv t o (later Phi) s /\ fine e); [|done|done|].
  { intros s. apply Inv_weaken; [done|]. intros L (L0 & r & -> & HP & Hr). rewrite (Hr live eq_refl). split; [by apply later_snoc|].
    apply elem_of_app. right. by apply list_elem_of_singleton. }
  destruct (attemptAdvanced run live) eqn:Ea.
  { apply etriple_ret. intros s. apply Inv_weaken; [done|]. intros L [H1 H2]. split; [done|]. left. eapply over_live; [done|by left]. }
  destruct (completed live) eqn:Ec; simpl.
  2: { apply etriple_ret. intros s. apply Inv_weaken; [done|]. by intros L [H1 H2]. }
  destruct (cancelled live) eqn:Ex; simpl.
  2: { apply etriple_ret. intros s. apply Inv_weaken; [done|]. intros L [H1 H2]. split; [done|]. left. eapply over_live; [done|by right]. }
  destruct (match cr_workflowId run with Some w => bool_decide (w ∈ active) | None => false end) eqn:Ew.
  { apply etriple_ret. intros s. apply Inv_weaken; [done|]. intros L [H1 H2]. split; [done|]. right.
    destruct (cr_workflowId run) as [w|]; [|done]. apply bool_decide_eq_true in Ew. by exists w. }
  destruct (attempt run) as [a|] eqn:Eat.
  { apply etriple_ret. intros s. apply Inv_weaken; [done|]. by intros L [H1 H2]. }
  destruct (observedAttempt run) as [ob|] eqn:Eo.
  2: { apply etriple_ret. intros s. apply Inv_weaken; [done|]. intros L [H1 H2]. split; [done|].
       destruct (run_attempt live) eqn:El; [done|]. by exists live. }
  eapply etriple_bind; [eapply etriple_weaken; [| | |apply (tri_locate _ (cr_id run) (Some ob) live)]; [exact (fun _ H => H)|exact (fun _ _ H => H)|]|].
  { intros e s [H He]. split; [|done]. revert H. apply Inv_weaken; [done|]. intros L H. apply later_later. revert H. apply later_mono. by intros ? []. }
  intros [a|]; apply etriple_ret; intros s; apply Inv_weaken; [done| |done|].
  - intros L [H1 H2]. assert (HP : later Phi L) by (apply later_later; revert H1; apply later_mono; by intros ? []).
    assert (Hin : saw_run (cr_id run) (answered live) ∈ L).
    { destruct H1 as (L0 & l & -> & _ & _ & Hin). apply elem_of_app. by left. }
    destruct (past_attempt live (Some a)) eqn:Ep; [|done]. split; [done|]. left. left. exists live, a. split_and!; [done|done|]. right.
    split; [done|]. destruct (H2 a eq_refl) as (ob' & l & [= <-] & El & Hle & [->|(x & Hx & Hxc)]).
    + unfold past_attempt in Ep. rewrite El in Ep. apply Z.ltb_lt in Ep. lia.
    + exists ob, x. by split_and!.
  - intros L [H1 H2]. split; [|done]. apply later_later. revert H1. apply later_mono. by intros ? [].
Qed.

Lemma still_owed_rule run t o Phi :
  tri (Inv t o Phi) (stillOwedRerun run)
    (fun d => Inv t o (fun L => later Phi L /\ match d with
       | owed_pending => True
       | owed_settled => over L run
       | owed_rerun => exists L0 live, L = L0 ++ [saw_run (cr_id run) (answered live)] /\ completed live = true /\ cancelled live = true
                         /\ past_attempt live (attempt run) = false /\ Phi L0
       end))
    (fun e s => Inv t o (later Phi) s /\ fine e).
Proof.
  unfold stillOwedRerun. eapply etriple_bind; [apply tri_getRun|]. intros live. apply etriple_ret. intros s.
  apply Inv_weaken; [done|]. intros L (L0 & r & -> & HP & Hr). split; [by apply later_snoc|].
  destruct live as [live|]; [|done]. rewrite (Hr live eq_refl).
  assert (Hin : saw_run (cr_id run) (answered live) ∈ L0 ++ [saw_run (cr_id run) (answered live)]) by (apply elem_of_app; right; by apply list_elem_of_singleton).
  destruct (attemptAdvanced run live) eqn:Ea; [eapply over_live; [done|by left]|].
  destruct (completed live) eqn:Ec; simpl; [|done].
  destruct (cancelled live) eqn:Ex; simpl; [|eapply over_live; [done|by right]].
  by exists L0, live.
Qed.

(** A rerun is met by its acceptance, or by the run having moved past the attempt. *)
Lemma rerun_rule run t o (Phi : list Event -> Prop) :
  (forall L, Phi L -> guard_rerun L (cr_id run)) ->
  tri (Inv t o Phi) (rerunRun (cr_id run) (attempt run))
    (fun d => Inv t o (fun L => (exists L0 l, L = L0 ++ l /\ Phi L0) /\ match d with
       | rerun_unconfirmed => True
       | _ => over L run \/ sent_rerun (cr_id run) (answered tt) ∈ L
       end))
    (fun e s => Inv t o (fun L => exists L0 l, L = L0 ++ l /\ Phi L0) s /\ e <> "out of fuel").
Proof.
  intros HG. unfold rerunRun. eapply etriple_bind.
  - unfold request. apply tri_note with (e := sent_rerun (cr_id run)) (Q := fun r => Inv t o (fun L => exists L0, L = L0 ++ [sent_rerun (cr_id run) r] /\ Phi L0)); [|done].
    intros L a HP HL. apply guarded_rerun; auto.
  - intros [[]|status m].
    + apply etriple_ret. intros s. apply Inv_weaken; [done|]. intros L (L0 & -> & HP). split; [by exists L0, [sent_rerun (cr_id run) (answered tt)]|].
      right. apply elem_of_app. right. by apply list_elem_of_singleton.
    + destruct (isPermissionError status m).
      { apply etriple_throw. intros s H. split; [|done]. revert H. apply Inv_weaken; [done|]. intros L (L0 & -> & HP). by exists L0, [sent_rerun (cr_id run) (failed status m)]. }
      eapply etriple_bind with (Q := fun live => Inv t o (fun L => (exists L0 l, L = L0 ++ l /\ Phi L0) /\ forall x, live = Some x -> saw_run (cr_id run) (answered x) ∈ L)).
      * eapply etriple_catch.
        -- eapply etriple_weaken; [| | |apply tri_getRun]; [exact (fun _ H => H)| |intros e s [H _]; exact H].
           intros live s. apply Inv_weaken; [done|]. intros L (L0 & r & -> & (L1 & -> & HP) & Hr).
           split; [exists L1; eexists; split; [by rewrite <- app_assoc|done]|]. intros x ->. rewrite (Hr x eq_refl).
           apply elem_of_app. right. by apply list_elem_of_singleton.
        -- intros e. apply etriple_ret. intros s. apply Inv_weaken; [done|]. intros L (L0 & l & -> & _ & L1 & -> & HP).
           split; [|done]. exists L1. eexists. split; [by rewrite <- app_assoc|done].
      * intros live. apply etriple_ret. intros s. apply Inv_weaken; [done|]. intros L [H1 H2]. split; [done|].
        destruct live as [live|]; [|done]. destruct (past_attempt live (attempt run)) eqn:E; [|done].
        assert (H : over L run) by (apply (over_live _ _ live); [by apply H2|by left]). destruct (isConflict status); by left.
Qed.
End Assess.
