(* ===== verification/CiRestore.v ===== *)
(** * CI suspension: restoring settles only what is settled

    Restoration of CiOperations.v: what holds between its requests ([RA]), that every
    rerun is guarded, that no obligation is dropped without evidence, and that its passes
    end. *)

From S2P Require Import Prelude JsString Interleave CiRuns CiSuspend CiOperations CiRules CiRequests CiCancel CiBegin CiAssess.

Open Scope string_scope.
Open Scope Z_scope.
Open Scope list_scope.

Section Passes.
Variable pullRequestNumber : Z.
Variable token : string.
Variable tried : Z.
Variable head0 : string.
Variable ids0 : list Z.
Abbreviation own := (own pullRequestNumber).
Abbreviation Inv := (Inv pullRequestNumber).
Abbreviation settled := (settled pullRequestNumber).
Abbreviation justified := (justified pullRequestNumber).
Abbreviation tri := (etriple good own).
Abbreviation ltri := (ltriple good own).

(** ** Between requests *)

(** What the pass has of an entry on record: the same, or settled and marked. *)
Definition follows (L : list Event) (r : CiSuspensionRecord) (e m : CancelledRun) : Prop :=
  m = e \/ m = mark e /\ settled L r e.
(** While the attempt of an entry is being written. *)
Definition drifts (L : list Event) (r : CiSuspensionRecord) (e m : CancelledRun) : Prop :=
  exists m0, follows L r e m0 /\ cr_id m = cr_id m0 /\ restarted m = restarted m0.

Lemma follows_app L l r e m : follows L r e m -> follows (L ++ l) r e m.
Proof. intros [H|[H1 H2]]; [by left|right]. split; [done|by apply settled_app]. Qed.
Lemma follows_drifts L r e m : follows L r e m -> drifts L r e m.
Proof. intros H. by exists m. Qed.
Lemma follows_id L r e m : follows L r e m -> cr_id m = cr_id e.
Proof. by intros [->|[-> _]]. Qed.
Lemma follows_owed L r e m : follows L r e m -> owed m = true -> m = e.
Proof. by intros [->|[-> _]]. Qed.
Lemma drifts_app L l r e m : drifts L r e m -> drifts (L ++ l) r e m.
Proof. intros (m0 & H & Hm). exists m0. split; [by apply follows_app|done]. Qed.
Lemma drifts_owed L r e m : drifts L r e m -> owed e = true -> cr_id m = cr_id e /\ owed m = true \/ settled L r e.
Proof. intros (m0 & [->|[-> H]] & Hid & Hr) Ho; [left|by right]. split; [done|]. unfold owed in *. by rewrite Hr. Qed.

Definition about (r : CiSuspensionRecord) (L : list Event) : Prop := head_sha r = head0 /\ cr_id <$> cancelled_runs r = ids0 /\ recorded L r.
Definition owed_at (ks : list nat) (runs : list CancelledRun) : Prop := NoDup ks /\ forall k, k ∈ ks -> exists m, runs !! k = Some m /\ owed m = true.
Definition rfacts (ks : list nat) (c : RestoreState) (L : list Event) : Prop :=
  about (r_current c) L /\ Forall2 (follows L (r_current c)) (cancelled_runs (r_current c)) (r_runs c) /\ owed_at ks (r_runs c).
Definition dfacts (c : RestoreState) (L : list Event) : Prop :=
  about (r_current c) L /\ Forall2 (drifts L (r_current c)) (cancelled_runs (r_current c)) (r_runs c).

Definition RA (t : Z) (ks : list nat) (c : RestoreState) (Psi : list Event -> Prop) : ci -> Prop :=
  Inv t (Some (r_current c)) (fun L => rfacts ks c L /\ Psi L).
Definition RD (t : Z) (c : RestoreState) : ci -> Prop := Inv t (Some (r_current c)) (dfacts c).
Definition RE (t : Z) (e : string) (c : RestoreState) (s : ci) : Prop := RD t c s /\ e <> "out of fuel".

Lemma about_app r L l : about r L -> about r (L ++ l).
Proof. intros (H1 & H2 & [H3|H3]); split_and!; [done|done|left|done|done|right]; apply elem_of_app; by left. Qed.
Lemma rfacts_app ks c L l : rfacts ks c L -> rfacts ks c (L ++ l).
Proof.
  intros (H1 & H2 & H3). split_and!; [by apply about_app| |done]. eapply Forall2_impl; [exact H2|]. intros e m. apply follows_app.
Qed.
Lemma dfacts_app c L l : dfacts c L -> dfacts c (L ++ l).
Proof. intros [H1 H2]. split; [by apply about_app|]. eapply Forall2_impl; [exact H2|]. intros e m. apply drifts_app. Qed.
Lemma rfacts_same ks c c' L : r_runs c' = r_runs c -> r_current c' = r_current c -> rfacts ks c L -> rfacts ks c' L.
Proof. unfold rfacts. by intros -> ->. Qed.
Lemma rfacts_drift ks c L : rfacts ks c L -> dfacts c L.
Proof. intros (H1 & H2 & _). split; [done|]. eapply Forall2_impl; [exact H2|]. intros e m. apply follows_drifts. Qed.
Lemma RA_drift t ks c Psi s : RA t ks c Psi s -> RD t c s.
Proof. apply Inv_weaken; [lia|]. intros L [H _]. by eapply rfacts_drift. Qed.
Lemma RD_app t c (Phi : list Event -> Prop) s :
  (forall L, Phi L -> dfacts c L) -> Inv t (Some (r_current c)) (fun L => exists L0 l, L = L0 ++ l /\ Phi L0) s -> RD t c s.
Proof. intros H. apply Inv_weaken; [lia|]. intros L (L0 & l & -> & HP). by apply dfacts_app, H. Qed.
Lemma later_grown (Phi : list Event -> Prop) L : later Phi L -> exists L0 l, L = L0 ++ l /\ Phi L0.
Proof. intros (L0 & l & -> & _ & H). by exists L0, l. Qed.

Lemma later_drift t c (Phi : list Event -> Prop) s :
  (forall L, Phi L -> dfacts c L) -> Inv t (Some (r_current c)) (later Phi) s -> RD t c s.
Proof. intros HP H. eapply RD_app; [exact HP|]. revert H. apply Inv_weaken; [lia|apply later_grown]. Qed.

(** ** Writing *)

Lemma drift_keeps c L e :
  dfacts c L -> e ∈ cancelled_runs (r_current c) -> owed e = true -> cr_id e ∈ owed_ids (r_runs c) \/ justified L (r_current c) e.
Proof.
  intros [_ H] He Ho. apply list_elem_of_lookup_1 in He as [k Hk]. destruct (Forall2_lookup_l _ _ _ _ _ H Hk) as (m & Hm & Hd).
  destruct (drifts_owed _ _ _ _ Hd Ho) as [[Hid Hm']|Hs]; [left|right; right; by left].
  apply elem_of_owed_ids. exists m. split_and!; [by eapply list_elem_of_lookup_2|done|done].
Qed.
Lemma drifts_ids c L : dfacts c L -> cr_id <$> r_runs c = ids0.
Proof.
  intros [(_ & <- & _) H]. induction H as [|e m es ms (m0 & H0 & Hm & _) H IH]; [done|]. rewrite !fmap_cons, IH. f_equal.
  by rewrite Hm, <- (follows_id _ _ _ _ H0).
Qed.

Lemma save_rule t c changes (Psi : list Event -> Prop) :
  (forall L l, Psi L -> Psi (L ++ l)) ->
  tri (Inv t (Some (r_current c)) (fun L => dfacts c L /\ Psi L)) (saveCancelledRuns (r_current c) (r_runs c) changes)
    (fun o s => match o with
                | Some next => Inv t (Some next) (fun L => about next L /\ Psi L) s /\ cancelled_runs next = r_runs c
                | None => RD t c s
                end)
    (fun e => RE t e c).
Proof.
  intros HPsi. eapply etriple_weaken; [| | |apply tri_save]; [exact (fun _ H => H)| | |].
  - intros [next|] s; [|apply Inv_weaken; [lia|]; by intros L []]. intros (HI & Hr & Hh). split; [|done].
    revert HI. apply Inv_weaken; [lia|]. intros L (L0 & -> & Hd & HP). split; [|by apply HPsi].
    split_and!; [destruct Hd as [[H _] _]; congruence|rewrite Hr; by eapply drifts_ids|]. right. apply elem_of_app. right. by apply list_elem_of_singleton.
  - intros e s [H [He _]]. split; [|done]. eapply RD_app; [|eapply Inv_weaken; [|apply later_grown|exact H]; lia]. by intros L [].
  - intros L e [Hd _] He Ho. by apply drift_keeps.
Qed.

Lemma progress_write_rule t ks c Psi :
  (forall L l, Psi L -> Psi (L ++ l)) -> owed_at ks (r_runs c) ->
  ltri (fun c' s => c' = c /\ Inv t (Some (r_current c)) (fun L => dfacts c L /\ Psi L) s) (persist tried)
    (fun (b : bool) c' s => r_runs c' = r_runs c /\ if b then cancelled_runs (r_current c') = r_runs c /\ RA t ks c' Psi s else RD t c' s)
    (fun e c' => RE t e c').
Proof.
  intros HPsi Hks. unfold persist.
  eapply ltriple_bind; [apply ltriple_locals with (Q := fun a c' s => a = c /\ c' = c /\ Inv t (Some (r_current c)) (fun L => dfacts c L /\ Psi L) s); by intros l s [-> H]|].
  intros c1. apply ltriple_pure. intros ->.
  eapply ltriple_bind with (Q := fun o c' s => c' = c /\ match o with
      | Some next => Inv t (Some next) (fun L => about next L /\ Psi L) s /\ cancelled_runs next = r_runs c | None => RD t c s end).
  - apply ltriple_lift. intros c' w Hg [-> HP].
    destruct (save_rule t c (Some (SUSPENSION_RESTORING, tried)) Psi HPsi w Hg HP) as (l & Hl & HI & Hg' & HQ).
    exists l. split_and!; [done..|]. destruct (saveCancelledRuns _ _ _ w).1 as [o|e]; [by split|done].
  - intros [next|]; [|apply ltriple_ret; by intros c' s [-> H]].
    eapply ltriple_bind; [apply ltriple_assign with (Q := fun _ c' s => r_runs c' = r_runs c /\ cancelled_runs (r_current c') = r_runs c /\ RA t ks c' Psi s)|intros []; by apply ltriple_ret].
    intros c' s (-> & HI & Hr). split_and!; [done|done|]. revert HI. apply Inv_weaken; [lia|]. intros L [Ha HP]. split; [|done].
    split_and!; [done| |done]. simpl. rewrite Hr. apply Forall_Forall2_diag. apply Forall_forall. intros e _. by left.
Qed.

(** ** One entry *)

(** Workflows whose validation the listing shows running again. *)
Definition active_in (active : list Z) (L : list Event) : Prop :=
  forall w, w ∈ active -> exists l, listed_in head0 L l /\ isReplacementValidationRun l pullRequestNumber head0 = true
    /\ (w_id l ∉ ids0) /\ w_workflow_id l = Some w.
Lemma active_app active L l : active_in active L -> active_in active (L ++ l).
Proof.
  intros H w Hw. destruct (H w Hw) as (x & (page & runs & n & Hin & Hx) & Hrest). exists x. split; [|done].
  exists page, runs, n. split; [apply elem_of_app; by left|done].
Qed.

Lemma over_settled L r e : over L e -> settled L r e.
Proof. intros [H|H]; [by left|right; by left]. Qed.
Lemma active_settled active L r e w :
  about r L -> active_in active L -> cr_workflowId e = Some w -> w ∈ active -> settled L r e.
Proof.
  intros (Hh & Hi & _) Ha Hw Hin. destruct (Ha w Hin) as (l & (page & runs & n & H1 & H2) & H3 & H4 & H5).
  right; right; left. exists page, runs, n, l. rewrite Hh, Hi, Hw. by split_and!.
Qed.

Lemma settle_facts ks k c L run :
  rfacts (k :: ks) c L -> r_runs c !! k = Some run -> owed run = true -> settled L (r_current c) run -> rfacts ks (settle_entry k c) L.
Proof.
  intros (H1 & H2 & Hnd & H3) Hk Ho Hs. apply NoDup_cons in Hnd as [Hk' Hnd]. split_and!; [done| |split; [done|]].
  - simpl. apply Forall2_alter_r; [done|]. intros e m He Hm Hf. rewrite Hk in Hm. injection Hm as <-.
    rewrite (follows_owed _ _ _ _ Hf Ho) in Hs |- *. right. by split.
  - intros j Hj. simpl. rewrite list_lookup_alter_ne by (intros ->; done). apply H3. by right.
Qed.
Lemma owed_at_tail k ks runs : owed_at (k :: ks) runs -> owed_at ks runs.
Proof. intros [H1 H2]. apply NoDup_cons in H1 as [_ H1]. split; [done|]. intros j Hj. apply H2. by right. Qed.
Lemma RA_skip t k ks c Psi s : RA t (k :: ks) c Psi s -> RA t ks c Psi s.
Proof. apply Inv_weaken; [lia|]. intros L [(H1 & H2 & H3) HP]. split; [|done]. split_and!; [done|done|by eapply owed_at_tail]. Qed.

(** What one entry's turn leaves. *)
Definition turn (t : Z) (ks : list nat) (Psi : list Event -> Prop) (stopped : option RestoreReason) (c : RestoreState) (s : ci) : Prop :=
  match stopped with None => RA t ks c Psi s | Some _ => RD t c s end.

Lemma settle_turn t k ks run Psi :
  owed run = true ->
  ltri (fun c s => r_runs c !! k = Some run /\ Inv t (Some (r_current c)) (fun L => rfacts (k :: ks) c L /\ settled L (r_current c) run /\ Psi L) s)
    (_ ← assign (settle_entry k); mret None : Local_ ci RestoreState (option RestoreReason)) (turn t ks Psi) (fun e => RE t e).
Proof.
  intros Ho. eapply ltriple_bind; [apply ltriple_assign with (Q := fun _ c' => RA t ks c' Psi)|intros []; by apply ltriple_ret].
  intros c s [Hk H]. revert H. apply Inv_weaken; [lia|]. intros L (H1 & H2 & H3). split; [|done]. by eapply settle_facts.
Qed.

Lemma gate_rule t ks c Psi :
  ltri (fun c' s => c' = c /\ RA t ks c Psi s) (gate token)
    (fun stopped c' s => c' = c /\ match stopped with
       | None => Inv t (Some (r_current c)) (fun L => exists L0 h, L = L0 ++ [held; saw_head (answered (Some h)); held] /\ open h = true
                   /\ sameSha (Some (sha h)) (Some (head_sha (r_current c))) = true /\ rfacts ks c L0 /\ Psi L0) s
       | Some _ => RD t c s end)
    (fun e c' => RE t e c').
Proof.
  unfold gate. eapply ltriple_bind.
  { eapply ltriple_weaken; [| | |apply ltriple_lift_at, tri_held]; [exact (fun _ _ H => H)|exact (fun _ _ _ H => H)|].
    intros e c' s (-> & H & He & _). split; [|done]. revert H. apply later_drift. intros L [Hf _]. by eapply rfacts_drift. }
  intros []. eapply ltriple_bind; [apply ltriple_locals with (Q := fun a c' s => a = c /\ c' = c /\
    Inv t (Some (r_current c)) (fun L => exists L0, L = L0 ++ [held] /\ rfacts ks c L0 /\ Psi L0) s); by intros l s [-> H]|].
  intros c1. apply ltriple_pure. intros ->.
  assert (Hd : forall L, (exists L0, L = L0 ++ [held] /\ rfacts ks c L0 /\ Psi L0) -> dfacts c L).
  { intros L (L0 & -> & Hf & _). by eapply dfacts_app, rfacts_drift. }
  eapply ltriple_bind.
  { eapply ltriple_weaken; [| | |apply ltriple_lift_at, release_rule]; [exact (fun _ _ H => H)|exact (fun _ _ _ H => H)|].
    intros e c' s (-> & H & He & _). split; [|done]. revert H. by apply later_drift. }
  intros [reason|].
  { apply ltriple_ret. intros c' s [-> H]. split; [done|]. revert H. by apply later_drift. }
  eapply ltriple_bind with (Q := fun _ c' s => c' = c /\ Inv t (Some (r_current c)) (fun L => exists L0 h,
    L = L0 ++ [held; saw_head (answered (Some h)); held] /\ open h = true /\ sameSha (Some (sha h)) (Some (head_sha (r_current c))) = true
    /\ rfacts ks c L0 /\ Psi L0) s); [|intros []; by apply ltriple_ret].
  eapply ltriple_weaken; [| | |apply ltriple_lift_at, tri_held]; [exact (fun _ _ H => H)| |].
  - intros a c' s [-> H]. split; [done|]. revert H. apply Inv_weaken; [lia|].
    intros L (L0 & -> & L1 & h & -> & Ho & Hs & L2 & -> & Hf & HP). exists L2, h. by rewrite <- !app_assoc.
  - intros e c' s (-> & H & He & _). split; [|done]. revert H. apply later_drift.
    intros L (L0 & h & -> & _ & _ & H). by apply dfacts_app, Hd.
Qed.

(** Everything that is proven when the rerun leaves, but the lease. *)
Definition proven (ks : list nat) (c : RestoreState) (run : CancelledRun) (Psi : list Event -> Prop) (L : list Event) : Prop :=
  exists L0 h live, L = L0 ++ [held; saw_head (answered (Some h)); held; saw_run (cr_id run) (answered live)]
    /\ open h = true /\ sameSha (Some (sha h)) (Some (head_sha (r_current c))) = true /\ completed live = true /\ cancelled live = true
    /\ past_attempt live (attempt run) = false /\ rfacts ks c L0 /\ Psi L0
    /\ (attempt run = None -> exists live0, saw_run (cr_id run) (answered live0) ∈ L0 /\ run_attempt live0 = None).

Lemma proven_facts ks c run Psi L : (forall L l, Psi L -> Psi (L ++ l)) -> proven ks c run Psi L -> rfacts ks c L /\ Psi L.
Proof. intros HPsi (L0 & h & live & -> & H). destruct_and! H. split; [by apply rfacts_app|by apply HPsi]. Qed.
Lemma proven_guard k ks c run Psi L :
  r_runs c !! k = Some run -> owed run = true -> proven ks c run Psi L -> guard_rerun (L ++ [held]) (cr_id run).
Proof.
  intros Hk Ho (L0 & h & live & -> & H1 & H2 & H3 & H4 & H5 & ((_ & _ & Hr) & Hf & _) & _ & H8).
  destruct (Forall2_lookup_r _ _ _ _ _ Hf Hk) as (e & He & Hfo). apply (follows_owed _ _ _ _ Hfo) in Ho as Heq. subst e.
  exists L0, h, live, (r_current c), run. rewrite <- app_assoc. split_and!; try done. by eapply list_elem_of_lookup_2.
Qed.

(** The rerun and its answer. *)
Lemma send_rule t k ks c run Psi :
  (forall L l, Psi L -> Psi (L ++ l)) -> r_runs c !! k = Some run -> owed run = true ->
  ltri (fun c' s => c' = c /\ Inv t (Some (r_current c)) (proven ks c run Psi) s)
    (send_rerun token run)
    (fun (b : bool) c' s => r_runs c' = r_runs c /\ r_current c' = r_current c
       /\ Inv t (Some (r_current c)) (fun L => rfacts ks c L /\ (b = true -> settled L (r_current c) run) /\ Psi L) s)
    (fun e c' => RE t e c').
Proof.
  intros HPsi Hk Ho. unfold send_rerun.
  assert (Hd : forall L, proven ks c run Psi L -> dfacts c L) by (intros L [H _]%proven_facts; [by eapply rfacts_drift|done]).
  eapply ltriple_bind.
  { eapply ltriple_weaken; [| | |apply ltriple_lift_at, tri_held]; [exact (fun _ _ H => H)|exact (fun _ _ _ H => H)|].
    intros e c' s (-> & H & He & _). split; [|done]. revert H. by apply later_drift. }
  intros []. eapply ltriple_bind.
  { eapply ltriple_weaken; [| | |apply ltriple_lift_at, rerun_rule]; [exact (fun _ _ H => H)|exact (fun _ _ _ H => H)| |].
    - intros e c' s (-> & H & He). split; [|done]. revert H. apply RD_app. intros L (L1 & -> & H). by apply dfacts_app, Hd.
    - intros L (L1 & -> & H). by eapply proven_guard. }
  intros outcome. set (met := match outcome with rerun_unconfirmed => false | _ => true end).
  eapply ltriple_weaken with (P' := fun c' s => c' = c /\ Inv t (Some (r_current c)) (fun L => rfacts ks c L /\ (met = true -> settled L (r_current c) run) /\ Psi L) s);
    [|exact (fun _ _ _ H => H)|exact (fun _ _ _ H => H)|].
  - intros c' s [-> H]. split; [done|]. revert H. apply Inv_weaken; [lia|]. intros L [(L1 & l & -> & L0 & -> & H) Hm].
    apply proven_facts in H as [H HP]; [|done]. split_and!; [by do 2 apply rfacts_app| |by do 2 apply HPsi].
    destruct outcome; intros Hmet; [..|done]; (destruct Hm as [Hm|Hm]; [by apply over_settled|by right; right; right]).
  - destruct outcome; [|by apply ltriple_ret; intros c' s [-> H]..].
    eapply ltriple_bind; [apply ltriple_assign with (Q := fun _ c' s => c' = add_restarted (cr_id run) c /\
      Inv t (Some (r_current c)) (fun L => rfacts ks c L /\ (true = true -> settled L (r_current c) run) /\ Psi L) s)|intros []; apply ltriple_ret].
    + by intros c' s [-> H].
    + by intros c' s [-> H].
Qed.

Lemma entry_rule t k ks c run Psi :
  (forall L l, Psi L -> Psi (L ++ l)) -> r_runs c !! k = Some run -> owed run = true ->
  ltri (fun c' s => c' = c /\ Inv t (Some (r_current c)) (fun L => exists L0 h, L = L0 ++ [held; saw_head (answered (Some h)); held] /\ open h = true
          /\ sameSha (Some (sha h)) (Some (head_sha (r_current c))) = true /\ rfacts (k :: ks) c L0 /\ Psi L0
          /\ (attempt run = None -> exists live0, saw_run (cr_id run) (answered live0) ∈ L0 /\ run_attempt live0 = None)) s)
    (rerun_entry token k run) (turn t ks Psi) (fun e => RE t e).
Proof.
  intros HPsi Hk Ho. unfold rerun_entry.
  set (gated := fun L => exists L0 h, L = L0 ++ [held; saw_head (answered (Some h)); held] /\ open h = true
          /\ sameSha (Some (sha h)) (Some (head_sha (r_current c))) = true /\ rfacts (k :: ks) c L0 /\ Psi L0
          /\ (attempt run = None -> exists live0, saw_run (cr_id run) (answered live0) ∈ L0 /\ run_attempt live0 = None)).
  assert (Hg : forall L l, gated L -> rfacts (k :: ks) c (L ++ l) /\ Psi (L ++ l)).
  { intros L l (L0 & h & -> & _ & _ & Hf & HP & _). split; [by do 2 apply rfacts_app|by do 2 apply HPsi]. }
  assert (Hl : forall L, later gated L -> rfacts (k :: ks) c L /\ Psi L) by (intros L (L0 & l & -> & _ & H); by apply Hg).
  eapply ltriple_bind.
  { eapply ltriple_weaken; [| | |apply ltriple_lift_at, still_owed_rule]; [exact (fun _ _ H => H)|exact (fun _ _ _ H => H)|].
    intros e c' s (-> & H & He & _). split; [|done]. revert H. apply Inv_weaken; [lia|]. intros L [H _]%Hl. by eapply rfacts_drift. }
  intros [| |].
  - apply ltriple_ret. intros c' s [-> H]. apply RA_skip with k. revert H. apply Inv_weaken; [lia|]. by intros L [H%Hl _].
  - eapply ltriple_weaken; [| | |by apply (settle_turn t k ks run)]; [|exact (fun _ _ _ H => H)|exact (fun _ _ _ H => H)].
    intros c' s [-> H]. split; [done|]. revert H. apply Inv_weaken; [lia|]. intros L [[H1 H2]%Hl H3]. split_and!; [done|by apply over_settled|done].
  - eapply ltriple_bind.
    + eapply ltriple_weaken; [| | |by apply (send_rule t k (k :: ks) c run Psi)]; [|exact (fun _ _ _ H => H)|exact (fun _ _ _ H => H)].
      intros c' s [-> H]. split; [done|]. revert H. apply Inv_weaken; [lia|].
      intros L [_ (L1 & live & -> & Hc & Hx & Hp & L0 & h & -> & Ho' & Hs & Hf & HP & Hn)]. exists L0, h, live. rewrite <- app_assoc. by split_and!.
    + intros [|]; simpl.
      * eapply ltriple_weaken; [| | |by apply (settle_turn t k ks run)]; [|exact (fun _ _ _ H => H)|exact (fun _ _ _ H => H)].
        intros c1 s (H1 & H2 & H). rewrite H1, H2. split; [done|]. revert H. apply Inv_weaken; [lia|]. intros L (Hf & Hs & HP). split; [by eapply rfacts_same|]. split; [by apply Hs|done].
      * apply ltriple_ret. intros c1 s (H1 & H2 & H). apply RA_skip with k. unfold RA. rewrite H2. revert H.
        apply Inv_weaken; [lia|]. intros L (Hf & _ & HP). split; [by eapply rfacts_same|done].
Qed.

(** The record before the gate: the entry is owed, and names the attempt or there is none. *)
Definition named (run : CancelledRun) (L : list Event) : Prop :=
  attempt run = None -> exists live0, saw_run (cr_id run) (answered live0) ∈ L /\ run_attempt live0 = None.
Lemma named_app run L l : named run L -> named run (L ++ l).
Proof. intros H Ha. destruct (H Ha) as (live0 & Hin & Hn). exists live0. split; [apply elem_of_app; by left|done]. Qed.

(** The entry is recorded on the attempt a rerun would restart. *)
Lemma record_rule t k ks c run ca Psi :
  (forall L l, Psi L -> Psi (L ++ l)) -> r_runs c !! k = Some run -> owed run = true ->
  ltri (fun c' s => c' = c /\ RA t (k :: ks) c (fun L => Psi L /\ (ca = None -> named run L)) s)
    (record_attempt tried k run ca)
    (fun (b : bool) c' s => if b then exists run', r_runs c' !! k = Some run' /\ owed run' = true /\ RA t (k :: ks) c' (fun L => Psi L /\ named run' L) s else RD t c' s)
    (fun e => RE t e).
Proof.
  intros HPsi Hk Ho. unfold record_attempt.
  assert (Hkeep : (attempt run = None -> ca = None) -> ltri (fun c' s => c' = c /\ RA t (k :: ks) c (fun L => Psi L /\ (ca = None -> named run L)) s)
    (mret true) (fun (b : bool) c' s => if b then exists run', r_runs c' !! k = Some run' /\ owed run' = true /\ RA t (k :: ks) c' (fun L => Psi L /\ named run' L) s else RD t c' s)
    (fun e => RE t e)).
  { intros Hn. apply ltriple_ret. intros c' s [-> H]. exists run. split_and!; [done|done|]. revert H. apply Inv_weaken; [lia|].
    intros L (Hf & HP & Hna). split_and!; [done|done|]. intros Ha. by apply Hna; [apply Hn|]. }
  destruct (attempt run) as [a0|] eqn:Ea; [by apply Hkeep|]. destruct ca as [a|]; [|by apply Hkeep].
  set (c1 := with_runs (alter (with_attempt a) k (r_runs c)) c).
  eapply ltriple_bind; [apply ltriple_assign with (Q := fun _ c' s => c' = c1 /\ Inv t (Some (r_current c1)) (fun L => dfacts c1 L /\ Psi L) s /\ owed_at (k :: ks) (r_runs c1))|].
  - intros c' s [-> H]. assert (Hoa : owed_at (k :: ks) (r_runs c)) by by destruct H as (_ & _ & _ & _ & (_ & _ & H) & _).
    split_and!; [done| |].
    + revert H. apply Inv_weaken; [lia|]. intros L ((H1 & H2 & H3) & HP & _). split; [|done]. split; [done|]. simpl.
      apply Forall2_alter_r.
      * eapply Forall2_impl; [exact H2|]. intros e m. apply follows_drifts.
      * intros e m _ _ (m0 & Hm0 & Hid & Hr). by exists m0.
    + simpl. split; [apply Hoa|]. intros j Hj. destruct (proj2 Hoa j Hj) as (m & Hm & Hmo). destruct (decide (j = k)) as [->|Hne].
      * exists (with_attempt a m). by rewrite list_lookup_alter_eq, Hm.
      * exists m. by rewrite list_lookup_alter_ne.
  - intros []. eapply ltriple_weaken with (P' := fun c' s => owed_at (k :: ks) (r_runs c1) /\ c' = c1 /\ Inv t (Some (r_current c1)) (fun L => dfacts c1 L /\ Psi L) s);
      [intros c' s (H1 & H2 & H3); by split_and!|exact (fun _ _ _ H => H)|exact (fun _ _ _ H => H)|].
    apply ltriple_pure. intros Hoa. eapply ltriple_weaken; [| | |by apply progress_write_rule]; [exact (fun _ _ H => H)| |exact (fun _ _ _ H => H)].
    intros [|] c' s [Hr H]; [|done]. destruct H as [_ H]. exists (with_attempt a run). rewrite Hr. split_and!; [by unfold c1; simpl; rewrite list_lookup_alter_eq, Hk|done|].
    revert H. apply Inv_weaken; [lia|]. intros L [Hf HP]. by split_and!.
Qed.

(** From the gate on. *)
Lemma gated_rule t k ks c run Psi :
  (forall L l, Psi L -> Psi (L ++ l)) -> r_runs c !! k = Some run -> owed run = true ->
  ltri (fun c' s => c' = c /\ RA t (k :: ks) c (fun L => Psi L /\ named run L) s)
    (stopped ← gate token;
     match stopped with
     | Some reason => mret (Some reason)
     | None => r ← locals; match r_runs r !! k with None => mret None | Some run => rerun_entry token k run end
     end : Local_ ci RestoreState (option RestoreReason))
    (turn t ks Psi) (fun e => RE t e).
Proof.
  intros HPsi Hk Ho. eapply ltriple_bind; [apply gate_rule|]. intros [reason|]; [apply ltriple_ret; by intros c' s [-> H]|].
  eapply ltriple_bind; [apply ltriple_locals with (Q := fun a c' s => a = c /\ c' = c /\ Inv t (Some (r_current c)) (fun L => exists L0 h,
    L = L0 ++ [held; saw_head (answered (Some h)); held] /\ open h = true /\ sameSha (Some (sha h)) (Some (head_sha (r_current c))) = true
    /\ rfacts (k :: ks) c L0 /\ Psi L0 /\ named run L0) s); by intros l s [-> H]|].
  intros c1. apply ltriple_pure. intros ->. rewrite Hk. by apply (entry_rule t k ks c run).
Qed.

Lemma run_rule t k ks active :
  ltri (fun c s => RA t (k :: ks) c (active_in active) s) (restart_run token tried active k) (turn t ks (active_in active)) (fun e => RE t e).
Proof.
  apply ltriple_fix. intros c. unfold restart_run.
  assert (Happ : forall L l, active_in active L -> active_in active (L ++ l)) by (intros; by apply active_app).
  eapply ltriple_bind; [apply ltriple_locals with (Q := fun a c' s => a = c /\ (exists run, r_runs c !! k = Some run /\ owed run = true) /\ c' = c /\ RA t (k :: ks) c (active_in active) s)|].
  { intros c' s [-> H]. split_and!; [done| |done|done]. destruct H as (_ & _ & _ & _ & (_ & _ & _ & H) & _). apply H. by left. }
  intros c1. apply ltriple_pure. intros ->. apply ltriple_pure. intros (run & Hk & Ho). rewrite Hk.
  assert (Hl : forall L, later (fun L => rfacts (k :: ks) c L /\ active_in active L) L -> rfacts (k :: ks) c L /\ active_in active L).
  { intros L (L0 & l & -> & _ & Hf & Ha). split; [by apply rfacts_app|by apply active_app]. }
  eapply ltriple_bind.
  { eapply ltriple_weaken; [| | |apply ltriple_lift_at, assess_rule]; [exact (fun _ _ H => H)|exact (fun _ _ _ H => H)|].
    intros e c' s (-> & H & He & _). split; [|done]. revert H. apply Inv_weaken; [lia|]. intros L [H _]%Hl. by eapply rfacts_drift. }
  intros [| |ca].
  - apply ltriple_ret. intros c' s [-> H]. apply RA_skip with k. revert H. apply Inv_weaken; [lia|]. by intros L [H%Hl _].
  - eapply ltriple_weaken; [| | |by apply (settle_turn t k ks run)]; [|exact (fun _ _ _ H => H)|exact (fun _ _ _ H => H)].
    intros c' s [-> H]. split; [done|]. revert H. apply Inv_weaken; [lia|]. intros L [[H1 H2]%Hl H3]. split_and!; [done| |done].
    destruct H3 as [H3|(w & Hw & Hin)]; [by apply over_settled|]. eapply active_settled; [apply H1|done|done|done].
  - eapply ltriple_bind.
    { eapply ltriple_weaken; [| | |by apply (record_rule t k ks c run ca (active_in active))]; [|exact (fun _ _ _ H => H)|exact (fun _ _ _ H => H)].
      intros c' s [-> H]. split; [done|]. revert H. apply Inv_weaken; [lia|]. intros L [[H1 H2]%Hl H3]. split_and!; [done|done|].
      intros ->. by intros _. }
    intros [|]; [|by apply ltriple_ret]. simpl. apply ltriple_ex. intros run'. apply ltriple_fix. intros c2.
    eapply ltriple_weaken with (P' := fun c' s => (r_runs c2 !! k = Some run' /\ owed run' = true) /\ c' = c2 /\ RA t (k :: ks) c2 (fun L => active_in active L /\ named run' L) s);
      [intros c' s (-> & H1 & H2 & H3); by split_and!|exact (fun _ _ _ H => H)|exact (fun _ _ _ H => H)|].
    apply ltriple_pure. intros [Hk' Ho']. by apply (gated_rule t k ks c2 run').
Qed.

(** ** A pass *)

Lemma runs_rule t ks active :
  ltri (fun c s => RA t ks c (active_in active) s) (restart_runs token tried active ks) (turn t [] (active_in active)) (fun e => RE t e).
Proof.
  induction ks as [|k ks IH]; cbn [restart_runs]; [by apply ltriple_ret|].
  eapply ltriple_bind; [apply run_rule|]. intros [reason|]; [by apply ltriple_ret|exact IH].
Qed.

Lemma owed_positions_spec runs : owed_at (owed_positions runs) runs.
Proof.
  unfold owed_positions. split; [apply NoDup_filter, NoDup_ListNoDup, seq_NoDup|].
  intros k [Hk _]%list_elem_of_filter. destruct (runs !! k) as [m|] eqn:E; [|done]. by exists m.
Qed.
Lemma active_workflows_in runs listed L :
  cr_id <$> runs = ids0 -> (forall l, l ∈ listed -> listed_in head0 L l) -> active_in (active_workflows pullRequestNumber head0 runs listed) L.
Proof.
  intros Hi Hl w Hw. unfold active_workflows in Hw. apply list_elem_of_omap in Hw as (l & [[Hn Hr] Hin]%list_elem_of_filter & Hw).
  rewrite Hi in Hn. exists l. split_and!; [by apply Hl|done|done|done].
Qed.

Definition any (L : list Event) : Prop := True.

Lemma pass_rule t c :
  ltri (fun c' s => c' = c /\ RA t [] c any s) (restartPass pullRequestNumber token tried) (turn t [] any) (fun e => RE t e).
Proof.
  unfold restartPass. eapply ltriple_bind; [apply ltriple_assign with (Q := fun _ c' s => c' = new_pass c /\ RA t [] (new_pass c) any s)|].
  { intros c' s [-> H]. split; [done|]. revert H. apply Inv_weaken; [lia|]. intros L [H HP]. split; [|done]. by eapply rfacts_same. }
  intros []. eapply ltriple_bind; [apply ltriple_locals with (Q := fun a c' s => a = new_pass c /\ head_sha (r_current c) = head0 /\ c' = new_pass c /\ RA t [] (new_pass c) any s)|].
  { intros c' s [-> H]. split_and!; [done| |done|done]. by destruct H as (_ & _ & _ & _ & ((H & _) & _) & _). }
  intros c1. apply ltriple_pure. intros ->. apply ltriple_pure. intros Hh. cbv zeta. change (r_current (new_pass c)) with (r_current c). rewrite Hh.
  eapply ltriple_bind.
  { eapply ltriple_weaken; [| | |apply ltriple_lift_at, tri_listed]; [exact (fun _ _ H => H)|exact (fun _ _ _ H => H)|].
    intros e c' s (-> & H & He & _). split; [|done]. revert H. apply later_drift. intros L [H _]. by eapply rfacts_drift. }
  intros listed. set (ks := owed_positions (r_runs (new_pass c))).
  eapply ltriple_weaken; [| | |apply (runs_rule t ks)]; [| |exact (fun _ _ _ H => H)].
  - intros c' s [-> H]. revert H. apply Inv_weaken; [lia|]. intros L [(L0 & l & -> & _ & Hf & _) Hl].
    assert (Hf' : rfacts [] (new_pass c) (L0 ++ l)) by by apply rfacts_app. split; [destruct Hf' as (H1 & H2 & _); split_and!; [done|done|apply owed_positions_spec]|].
    apply active_workflows_in; [|done]. eapply drifts_ids, rfacts_drift. exact Hf'.
  - intros [reason|] c' s; [done|]. apply Inv_weaken; [lia|]. by intros L [H _].
Qed.

(** ** Passes until nothing is owed or the budget is spent *)

Lemma owed_at_nil runs : owed_at [] runs.
Proof. split; [constructor|]. intros k Hk. by apply elem_of_nil in Hk. Qed.

Lemma progress_rule t c stopped :
  ltri (fun c' s => c' = c /\ turn t [] any stopped c s) (saveProgress tried stopped)
    (fun (b : bool) c' s => if b then turn t [] any stopped c' s else RD t c' s) (fun e => RE t e).
Proof.
  unfold saveProgress. eapply ltriple_bind; [apply ltriple_locals with (Q := fun a c' s => a = c /\ c' = c /\ turn t [] any stopped c s); by intros l s [-> H]|].
  intros c1. apply ltriple_pure. intros ->. destruct (negb (progressed c) || _); [apply ltriple_ret; by intros c' s [-> H]|].
  eapply ltriple_weaken; [| | |apply (progress_write_rule t [] c any); [done|apply owed_at_nil]]; [| |exact (fun _ _ _ H => H)].
  - intros c' s [-> H]. split; [done|]. destruct stopped; revert H; apply Inv_weaken; try lia; [done|].
    intros L [H _]. split; [by eapply rfacts_drift|done].
  - intros [|] c' s [_ H]; [|done]. destruct H as [_ H]. destruct stopped; [by eapply RA_drift|done].
Qed.

Abbreviation Over t := (Inv t None (fun _ => True)).
Lemma RD_over t c s : RD t c s -> Over t s.
Proof. apply Inv_any. lia. Qed.
Lemma RE_later t t' e c s : t' <= t -> RE t e c s -> RE t' e c s.
Proof. intros Ht [H He]. split; [|done]. revert H. by apply Inv_weaken. Qed.

Lemma defer_rule t c :
  ltri (fun c' s => c' = c /\ RA t [] c any s) (deferRestore tried) (fun _ _ => Over t) (fun e => RE t e).
Proof.
  unfold deferRestore. eapply ltriple_bind; [apply ltriple_locals with (Q := fun a c' s => a = c /\ c' = c /\ Inv t (Some (r_current c)) (fun L => dfacts c L /\ any L) s)|].
  { intros c' s [-> H]. split_and!; [done|done|]. revert H. apply Inv_weaken; [lia|]. intros L [H _]. split; [by eapply rfacts_drift|done]. }
  intros c1. apply ltriple_pure. intros ->. cbv zeta.
  eapply ltriple_bind; [eapply ltriple_weaken; [| | |apply ltriple_lift_at, (save_rule t c _ any); done]; [exact (fun _ _ H => H)|exact (fun _ _ _ H => H)|by intros e c' s [-> H]]|].
  intros o. apply ltriple_ret. intros c' s [-> H]. destruct o; [|by eapply RD_over]. destruct H as [H _]. eapply Inv_any; [|exact H]. lia.
Qed.

(** Nothing is owed any more: the suspension ends. *)
Lemma finish_rule t c :
  owed_ids (r_runs c) = [] ->
  ltri (fun c' s => c' = c /\ RA t [] c any s) (_ ← lift (deleteSuspension (r_current c)); mret rs_restarted : Local_ ci RestoreState RestoreReason)
    (fun _ _ => Over t) (fun e => RE t e).
Proof.
  intros Hn. eapply ltriple_bind; [eapply ltriple_weaken; [| | |apply ltriple_lift_at, tri_delete]; [exact (fun _ _ H => H)|exact (fun _ _ _ H => H)|..]|].
  - intros e c' s (-> & H & He & _). split; [by eapply RA_drift|done].
  - intros L e [Hf _] He Ho. destruct (drift_keeps c L e) as [H|H]; [by eapply rfacts_drift|done|done| |done].
    rewrite Hn in H. by apply elem_of_nil in H.
  - intros b. apply ltriple_ret. intros c' s [-> H]. eapply Inv_any; [|exact H]. lia.
Qed.

(** The budget outlasts the deadline. *)
Lemma passes_rule fuel t deadline :
  (1 <= fuel)%nat -> deadline <= t + DEFAULT_POLL_INTERVAL_MS * (Z.of_nat fuel - 1) ->
  ltri (fun c s => RA t [] c any s) (restore_passes pullRequestNumber token tried fuel deadline) (fun _ _ => Over t) (fun e => RE t e).
Proof.
  revert t. induction fuel as [|fuel IH]; intros t H1 Hd; [lia|]. cbn [restore_passes]. unfold DEFAULT_POLL_INTERVAL_MS in *.
  apply ltriple_fix. intros c. eapply ltriple_bind; [apply pass_rule|]. intros stopped.
  apply ltriple_fix. intros c1. eapply ltriple_bind; [apply progress_rule|].
  intros [|]; simpl; [|apply ltriple_ret; intros c' s; apply RD_over].
  destruct stopped as [reason|]; [apply ltriple_ret; intros c' s; apply RD_over|].
  apply ltriple_fix. intros c2.
  eapply ltriple_bind; [apply ltriple_locals with (Q := fun a c' s => a = c2 /\ c' = c2 /\ RA t [] c2 any s); by intros l s [-> H]|].
  intros c3. apply ltriple_pure. intros ->.
  destruct (filter (fun e => owed e = true) (r_runs c2)) as [|e0 rest] eqn:Ef; [apply finish_rule; unfold owed_ids; by rewrite Ef|]. clear Ef.
  eapply ltriple_bind.
  { eapply ltriple_weaken; [| | |eapply ltriple_lift_at, tri_now with (E := fun _ _ => False)]; [exact (fun _ _ H => H)|exact (fun _ _ _ H => H)|by intros e c' s [_ []]]. }
  intros v.
  eapply ltriple_weaken with (P' := fun c' s => t <= v /\ c' = c2 /\ RA t [] c2 any s); [|exact (fun _ _ _ H => H)|exact (fun _ _ _ H => H)|].
  { intros c' s (-> & H & Hv). split_and!; [done|done|]. revert H. by apply Inv_weaken. }
  apply ltriple_pure. intros Hv. destruct (Z.leb_spec deadline v) as [|Hlt]; [apply defer_rule|].
  eapply ltriple_bind.
  { eapply ltriple_weaken; [| | |eapply ltriple_lift_at, tri_sleep with (E := fun _ _ => False); done]; [exact (fun _ _ H => H)|exact (fun _ _ _ H => H)|by intros e c' s [_ []]]. }
  intros []. eapply ltriple_bind; [eapply ltriple_weaken; [| | |apply (gate_rule (t + 2000) [] c2 any)]; [exact (fun _ _ H => H)|exact (fun _ _ _ H => H)|]|].
  { intros e c' s. apply RE_later. lia. }
  intros [reason|]; [apply ltriple_ret; intros c' s [-> H]; eapply Inv_any; [|exact H]; lia|].
  eapply ltriple_weaken; [| | |apply (IH (t + 2000)); lia].
  - intros c' s [-> H]. revert H. apply Inv_weaken; [lia|]. intros L (L0 & h & -> & _ & _ & Hf & _). split; [by apply rfacts_app|done].
  - intros a c' s H. eapply Inv_any; [|exact H]. lia.
  - intros e c' s. apply RE_later. lia.
Qed.

Lemma recover_rule t before e :
  ltri (fun c s => RE t e c s) (recover_restore tried before e) (fun _ _ => Over t) (fun e _ s => Over t s /\ e <> "out of fuel").
Proof.
  apply ltriple_fix. intros c. unfold recover_restore.
  eapply ltriple_bind; [apply ltriple_locals with (Q := fun a c' s => a = c /\ e <> "out of fuel" /\ c' = c /\ Inv t (Some (r_current c)) (fun L => dfacts c L /\ any L) s)|].
  { intros c' s (-> & H & He). split_and!; [done|done|done|]. revert H. apply Inv_weaken; [lia|]. by intros L H. }
  intros c1. apply ltriple_pure. intros ->. apply ltriple_pure. intros He.
  assert (Hsave : forall changes, ltri (fun c' s => c' = c /\ Inv t (Some (r_current c)) (fun L => dfacts c L /\ any L) s)
    (lift (attempt_ (saveCancelledRuns (r_current c) (r_runs c) changes))) (fun _ _ => Over t) (fun e _ s => Over t s /\ e <> "out of fuel")).
  { intros changes. eapply ltriple_weaken; [| | |apply ltriple_lift_at, tri_attempt, (save_rule t c changes any); done]; [exact (fun _ _ H => H)| |by intros e' c' s [_ []]].
    intros [[next|]|e'] c' s [_ H]; [|by eapply RD_over|by eapply RD_over, H]. destruct H as [H _]. eapply Inv_any; [|exact H]. lia. }
  destruct (is_permission e).
  - eapply ltriple_bind; [apply Hsave|]. intros r. by apply ltriple_ret.
  - eapply ltriple_bind; [apply Hsave|]. intros r. apply ltriple_raise. intros c' s H. by split.
Qed.
End Passes.

Section Restoration.
Variable randomUUID_ : list string -> string.
Variable pullRequestNumber : Z.
Variable t : Z.
Abbreviation own := (own pullRequestNumber).
Abbreviation Inv := (Inv pullRequestNumber).
Abbreviation tri := (etriple good own).
Abbreviation Any := (Inv t None (fun _ => True)).

Lemma started_restoring record runs L :
  recorded L record -> cancelled_runs record = runs ->
  rfacts pullRequestNumber (head_sha record) (cr_id <$> runs) [] (Restoring record runs [] false) L.
Proof.
  intros Hr Hc. split; [split_and!; simpl; [done|by rewrite Hc|done]|split; [|apply owed_at_nil]]. simpl.
  rewrite Hc. apply Forall_Forall2_diag, Forall_forall. intros e _. by left.
Qed.

Lemma handled_rule current runs token before start :
  tri (RA pullRequestNumber (head_sha current) (cr_id <$> runs) start [] (Restoring current runs [] false) any)
    (handle (restore_passes pullRequestNumber token (before + 1) restore_fuel (start + DEFAULT_RESTORE_BUDGET_MS)) (recover_restore (before + 1) before) (Restoring current runs [] false))
    (fun p s => match p.2 with Ok _ => Inv start None (fun _ => True) s | Throw e => Inv start None (fun _ => True) s /\ e <> "out of fuel" end) (fun _ _ => False).
Proof.
  eapply etriple_weaken; [exact (fun _ H => H)|exact (fun _ _ H => H)|exact (fun _ _ H => H)|].
  apply (ltriple_handle good own (fun c s => RA pullRequestNumber (head_sha current) (cr_id <$> runs) start [] c any s) _ _
    (fun _ _ => Inv start None (fun _ => True)) (fun e => RE pullRequestNumber (head_sha current) (cr_id <$> runs) start e)
    (fun e _ s => Inv start None (fun _ => True) s /\ e <> "out of fuel")).
  - apply passes_rule; [unfold restore_fuel; lia|]. change (Z.of_nat restore_fuel) with 9. unfold DEFAULT_RESTORE_BUDGET_MS, DEFAULT_POLL_INTERVAL_MS. lia.
  - intros e. apply recover_rule.
Qed.

Lemma restore_rule record token Phi :
  tri (Inv t None Phi) (restoreSuspension pullRequestNumber record token) (fun _ => Any) (fun e s => Any s /\ e <> "out of fuel").
Proof.
  unfold restoreSuspension. assert (Hany : forall o Phi' s, Inv t o Phi' s -> Any s) by (intros o Phi' s; by apply Inv_any).
  assert (Hfine : forall o Phi' e s, Inv t o Phi' s /\ fine e -> Any s /\ e <> "out of fuel") by (intros o Phi' e s (H & He & _); split; [by eapply Hany|done]).
  eapply etriple_bind; [eapply etriple_weaken; [| | |apply tri_load]; [exact (fun _ H => H)|exact (fun _ _ H => H)|intros e s; apply Hfine]|].
  intros [found_|]; [|apply etriple_ret; intros s; apply Hany].
  destruct (same_suspension record found_); simpl; [|apply etriple_ret; intros s; apply Hany]. cbv zeta.
  eapply etriple_bind; [eapply etriple_weaken; [| | |apply release_rule]; [exact (fun _ H => H)|exact (fun _ _ H => H)|intros e s; apply Hfine]|].
  intros [reason|]; [apply etriple_ret; intros s; apply Hany|].
  eapply etriple_bind with (Q := fun o s => match o with
    | Some current => Inv t (Some current) (fun L => recorded L current /\ cancelled_runs current = cancelled_runs found_) s | None => Any s end).
  - case_bool_decide.
    + apply etriple_ret. intros s. apply Inv_weaken; [done|]. intros L (L0 & h & -> & _ & _ & L1 & -> & _). split; [|done].
      left. do 1 (apply elem_of_app; left). apply elem_of_app; right. by apply list_elem_of_singleton.
    + eapply etriple_weaken; [| | |apply tri_save]; [exact (fun _ H => H)| |intros e s; apply Hfine|].
      * intros [current|] s; [|apply Hany]. intros (HI & Hr & _). revert HI. apply Inv_weaken; [done|]. intros L (L0 & -> & _).
        split; [|done]. right. apply elem_of_app; right. by apply list_elem_of_singleton.
      * intros L e _ He Ho. left. apply elem_of_owed_ids. by exists e.
  - intros [current|]; [|by apply etriple_ret].
    eapply etriple_bind; [eapply etriple_weaken; [| | |eapply tri_now with (E := fun _ _ => False)]; [exact (fun _ H => H)|exact (fun _ _ H => H)|by intros e s]|].
    intros start. apply etriple_pure. intros Hv.
    eapply etriple_bind.
    + eapply etriple_weaken; [| | |apply (handled_rule current (cancelled_runs found_) token (attempts found_) start)]; [|exact (fun _ _ H => H)|by intros e s].
      intros s. apply Inv_weaken; [done|]. intros L [H1 H2]. split; [by apply started_restoring|done].
    + intros [r [reason|e]]; simpl; [apply etriple_ret; intros s; by apply Inv_any|].
      apply etriple_throw. intros s [H He]. split; [by eapply Inv_any|done].
Qed.

Lemma restoreFollowup_rule record Phi :
  tri (Inv t None Phi) (restoreFollowupCiSuspension randomUUID_ pullRequestNumber record) (fun _ => Any) (fun e s => Any s /\ e <> "out of fuel").
Proof.
  unfold restoreFollowupCiSuspension. eapply etriple_catch; [apply (lease_rule _ _ _ _ _ _ (fun e => e <> "out of fuel")); [by intros e []|]|].
  - intros token. apply restore_rule.
  - intros e. destruct (is_lease_error e); [apply etriple_ret; by intros s [H _]|by apply etriple_throw].
Qed.
End Restoration.
