(* ===== verification/CiProps.v ===== *)
(** * CI suspension: the operations of a worker

    The three operations the jobs call, whichever way other workers, operators and the
    database interfere. *)

From S2P Require Import Prelude JsString Interleave CiRuns CiSuspend CiOperations CiRules CiRequests CiCancel CiBegin CiAssess CiRestore.

Open Scope string_scope.
Open Scope Z_scope.
Open Scope list_scope.

(** The requests of a guarded log, one by one. *)
Lemma guarded_sent pr L l1 e l2 : guarded pr L -> L = l1 ++ e :: l2 ->
  match e with sent_cancel id _ => guard_cancel pr l1 id | sent_rerun id _ => guard_rerun l1 id | _ => True end.
Proof.
  intros H. revert l2. induction H as [|L e' H IH He|L id r H IH Hg|L id r H IH Hg]; intros l2 E.
  - by destruct l1.
  - destruct l2 as [|x l2] using rev_ind; [apply app_inj_tail in E as [_ <-]; by destruct e'|].
    rewrite app_comm_cons, app_assoc in E. apply app_inj_tail in E as [E _]. by eapply IH.
  - destruct l2 as [|x l2 _] using rev_ind; [by apply app_inj_tail in E as [<- <-]|].
    rewrite app_comm_cons, app_assoc in E. apply app_inj_tail in E as [E _]. by eapply IH.
  - destruct l2 as [|x l2 _] using rev_ind; [by apply app_inj_tail in E as [<- <-]|].
    rewrite app_comm_cons, app_assoc in E. apply app_inj_tail in E as [E _]. by eapply IH.
Qed.

(** What the jobs call. *)
Inductive operation :=
  | op_begin (taskId : string) (correlationId : option string)
  | op_release (taskId : string)
  | op_reconcile.

Section Operations.
Variable randomUUID_ : list string -> string.
Hypothesis fresh : forall l, randomUUID_ l ∉ l.
Variable pullRequestNumber : Z.
Abbreviation own := (own pullRequestNumber).
Abbreviation Inv := (Inv pullRequestNumber).
Abbreviation tri := (etriple good own).
Abbreviation Any t := (Inv t None (fun _ => True)).

Definition perform (op : operation) : M unit :=
  match op with
  | op_begin taskId correlationId => _ ← beginFollowupCiSuspension randomUUID_ pullRequestNumber taskId correlationId; mret tt
  | op_release taskId => _ ← releaseFollowupCiSuspensionsForTask randomUUID_ pullRequestNumber taskId; mret tt
  | op_reconcile => _ ← reconcileFollowupCiSuspensions randomUUID_ pullRequestNumber; mret tt
  end.

Lemma release_task_rule t taskId :
  tri (Inv t None (fun L => L = [])) (releaseFollowupCiSuspensionsForTask randomUUID_ pullRequestNumber taskId) (fun _ => Any t) (fun _ => Any t).
Proof.
  unfold releaseFollowupCiSuspensionsForTask.
  eapply etriple_bind; [eapply etriple_weaken; [| | |apply tri_load]; [exact (fun _ H => H)|exact (fun _ _ H => H)|intros e s [H _]; by eapply Inv_any]|].
  intros [r|]; [|apply etriple_ret; intros s; by apply Inv_any]. case_bool_decide; [|apply etriple_ret; intros s; by apply Inv_any].
  eapply etriple_bind.
  - eapply etriple_weaken; [| | |apply tri_attempt, restoreFollowup_rule]; [intros s H'; by eapply Inv_forget|exact (fun _ _ H => H)|by intros e s []].
  - intros [a|e]; apply etriple_ret; [done|by intros s [H' _]].
Qed.

Lemma suppress_rule t o Phi r on :
  tri (Inv t o Phi) (keepsSuppressing r on) (fun _ => Inv t o Phi) (fun _ => Inv t o Phi).
Proof.
  unfold keepsSuppressing. destruct (_ || _); [by apply etriple_ret|].
  eapply etriple_bind; [apply tri_read with (Q := fun _ => Inv t o Phi); done|]. intros v.
  case_match; [by apply etriple_ret|]. unfold isOwnerActive.
  eapply etriple_bind; [apply tri_read with (Q := fun _ => Inv t o Phi); done|]. intros a. by apply etriple_ret.
Qed.

Lemma reconcile_rule t :
  tri (Inv t None (fun L => L = [])) (reconcileFollowupCiSuspensions randomUUID_ pullRequestNumber) (fun _ => Any t) (fun _ => Any t).
Proof.
  unfold reconcileFollowupCiSuspensions. assert (Hany : forall o Phi' s, Inv t o Phi' s -> Any t s) by (intros o Phi' s; by apply Inv_any).
  eapply etriple_bind; [eapply etriple_weaken; [| | |apply tri_load]; [exact (fun _ H => H)|exact (fun _ _ H => H)|intros e s [H _]; by eapply Hany]|].
  intros [r|]; [|apply etriple_ret; intros s; apply Hany].
  eapply etriple_bind; [eapply etriple_weaken; [| | |apply tri_attempt with (Q := fun _ => Any t) (E := fun _ => Any t)];
    [exact (fun _ H => H)|exact (fun _ _ H => H)|by intros e s|]|intros [a|e]; by apply etriple_ret].
  set (Phi := fun L : list Event => exists L0, L = L0 ++ [loaded (Some r)] /\ L0 = []).
  eapply etriple_bind; [apply tri_read with (Q := fun _ => Inv t None Phi); intros s; apply Inv_forget|]. intros on.
  eapply etriple_bind; [apply tri_or_throw with (Q := fun _ => Inv t None Phi); [done|intros e s _; apply Hany]|]. intros on'.
  eapply etriple_bind; [eapply etriple_weaken; [| | |apply suppress_rule]; [exact (fun _ H => H)|exact (fun _ _ H => H)|intros e s; apply Hany]|].
  intros [|].
  - eapply etriple_bind; [apply sweepFollowup_rule|intros swept; by apply etriple_ret].
    intros L (L0 & -> & ->) id. done.
  - eapply etriple_bind with (Q := fun _ => Any t); [|intros restored; by apply etriple_ret].
    eapply etriple_weaken; [| | |apply restoreFollowup_rule]; [exact (fun _ H => H)|exact (fun _ _ H => H)|by intros e s [H' _]].
Qed.

Lemma perform_rule t op : tri (Inv t None (fun L => L = [])) (perform op) (fun _ => Any t) (fun _ => Any t).
Proof.
  destruct op; simpl; (eapply etriple_bind with (Q := fun _ => Any t); [|intros a; by apply etriple_ret]).
  - eapply etriple_weaken; [| | |apply beginFollowup_rule]; [exact (fun _ H => H)|exact (fun _ _ H => H)|by intros e s|done|]. by intros L -> id.
  - apply release_task_rule.
  - apply reconcile_rule.
Qed.

Lemma start_inv s : wf s -> log s = [] -> Inv (now s) None (fun L => L = []) s.
Proof. intros Hw HL. split_and!; [done|rewrite HL; constructor|lia|done|done]. Qed.

(** C2. A run ProPR may have cancelled is never forgotten while it is still cancelled: in
    every step of an operation, each obligation of the durable record is carried over under
    the same head, or its head is no longer the open one, or the log shows its validation
    running again or ended otherwise than cancelled, or it is this worker's own intent for a
    request that cancelled nothing; and the versions of the record stay unique. *)
Theorem obligations_survive op w :
  Forall good (others w) -> wf (store w) -> log (store w) = [] ->
  exists l, trace (perform op w).2 = trace w ++ l /\ Forall (fun ss => survive pullRequestNumber ss.1 ss.2 /\ wf ss.2) l.
Proof.
  intros Hg Hw HL. destruct (perform_rule (now (store w)) op w Hg (start_inv _ Hw HL)) as (l & Hl & HI & _). by exists l.
Qed.

(** C9. Nothing is cancelled or rerun on stale knowledge: right before a cancel request the
    log ends with the saved intent, the lease held, the run read as cancelable on the very
    attempt of the intent (and of a selected workflow), and the lease held again; right
    before a rerun request with the lease held, the recorded head still the open one, the
    lease held, the run read as completed and cancelled on the attempt on record, and the
    lease held again. *)
Theorem requests_are_guarded op w l1 e l2 :
  Forall good (others w) -> wf (store w) -> log (store w) = [] ->
  log (store (perform op w).2) = l1 ++ e :: l2 ->
  match e with sent_cancel id _ => guard_cancel pullRequestNumber l1 id | sent_rerun id _ => guard_rerun l1 id | _ => True end.
Proof.
  intros Hg Hw HL E. destruct (perform_rule (now (store w)) op w Hg (start_inv _ Hw HL)) as (l & _ & _ & _ & HQ).
  assert (HG : guarded pullRequestNumber (log (store (perform op w).2))) by (destruct (perform op w).1; apply HQ).
  exact (guarded_sent _ _ _ _ _ HG E).
Qed.

(** C33. Waiting for the lease and polling for the runs both end: however the clock of the
    site advances, restoration never runs past its fuel. *)
Theorem restoration_ends record w :
  Forall good (others w) -> wf (store w) -> log (store w) = [] ->
  (restoreFollowupCiSuspension randomUUID_ pullRequestNumber record w).1 <> Throw "out of fuel".
Proof.
  intros Hg Hw HL. destruct (restoreFollowup_rule randomUUID_ pullRequestNumber (now (store w)) record _ w Hg (start_inv _ Hw HL)) as (l & _ & _ & _ & HQ).
  intros E. rewrite E in HQ. by destruct HQ as [_ HQ].
Qed.
End Operations.

(** ** A concrete site

    Pull request 5 with one selected workflow run in progress, which an operator cancels
    and reruns around the worker's requests. *)

(** Longer than every identifier in use. *)
Definition fresh_id (used : list string) : string := String.append "u" (foldr String.append "" used).

Lemma fresh_id_fresh l : fresh_id l ∉ l.
Proof.
  assert (Hlen : forall a b, String.length (String.append a b) = (String.length a + String.length b)%nat).
  { intros a b. induction a as [|c a IH]; simpl; [done|]. by rewrite IH. }
  assert (H : forall x, x ∈ l -> (String.length x <= String.length (foldr String.append "" l))%nat).
  { induction l as [|y l IH]; intros x Hx; [by apply elem_of_nil in Hx|]. simpl. rewrite Hlen.
    apply elem_of_cons in Hx as [->|Hx]; [lia|]. specialize (IH x Hx). lia. }
  intros Hin. specialize (H _ Hin). unfold fresh_id in H. rewrite Hlen in H. simpl in H. lia.
Qed.

Definition run_of (status conclusion : string) (n : Z) : WorkflowRunSummary :=
  Run 7 (Some "CI") (Some ".github/workflows/ci.yml") (Some "pull_request") (Some status) (Some conclusion) (Some "abc") (Some 3) (Some n) [5].
Definition answers (run : WorkflowRunSummary) : GitHub :=
  Answers (answered (Some (Head "abc" true))) (fun _ _ => answered ([run], Some 1)) (fun _ => answered run)
    (fun _ _ => answered run) (fun _ => answered tt) (fun _ => answered tt).
Definition site (row : option CiSuspensionRecord) (run : WorkflowRunSummary) : ci :=
  Ci row None 1000 (answers run) works (Ok true) (Ok (Some ["CI"])) None (Ok false) (match row with Some r => [r] | None => [] end) [] [].

(** Steps of others: time, and what GitHub shows of the run. *)
Definition shows (run : WorkflowRunSummary) (s : ci) : ci :=
  Ci (row s) (lease s) (now s + 5) (answers run) (database s) (enabled s) (selection s) (env s) (owner_active s) (past s) (drawn s) (log s).
Lemma shows_good run : good (shows run).
Proof.
  intros s [Hu Hrow]. split; [by split|]. unfold shows; simpl. split_and!; [done..|lia|].
  intros r Hr _. by apply list_elem_of_fmap_2.
Qed.

Lemma site_wf r run : wf (site r run).
Proof.
  destruct r as [r|]; split; simpl.
  - intros r1 r2 ->%list_elem_of_singleton ->%list_elem_of_singleton. done.
  - intros r0 [= <-]. split; [by left|]. by intros r' ->%list_elem_of_singleton.
  - intros r1 r2 H. by apply elem_of_nil in H.
  - done.
Qed.

(** The run is cancelled: nobody else acts until the request is out. *)
Definition quiet_world : world ci := World (site None (run_of "in_progress" "" 1)) [] [].
Definition begin_log : list Event := log (store (perform fresh_id 5 (op_begin "t" None) quiet_world).2).

Lemma obligations_survive_witness :
  existsb (may_cancel 7) begin_log = true
  /\ exists l, trace (perform fresh_id 5 (op_begin "t" None) quiet_world).2 = [] ++ l /\ Forall (fun ss => survive 5 ss.1 ss.2 /\ wf ss.2) l.
Proof.
  split; [by vm_compute|]. apply (obligations_survive fresh_id fresh_id_fresh 5 (op_begin "t" None) quiet_world); [constructor|apply site_wf|done].
Defined.

(** A suspension left behind: its run ended cancelled on the attempt that was observed. *)
Definition left_behind : CiSuspensionRecord :=
  Rec "abc" "t" None SUSPENSION_RESTORING [Entry 7 (Some "CI") (Some 3) (Some 1) None false] 0 3 "i" 0 0.
Definition restoring_world : world ci :=
  World (site (Some left_behind) (run_of "completed" "cancelled" 1)) [shows (run_of "completed" "cancelled" 1)] [].
Definition reconcile_log : list Event := log (store (perform fresh_id 5 op_reconcile restoring_world).2).
Definition position (f : Event -> bool) (L : list Event) : nat := default (length L) (fst <$> list_find (fun e => f e = true) L).

Lemma requests_are_guarded_witness :
  guard_rerun (firstn (position sent reconcile_log) reconcile_log) 7.
Proof.
  apply (requests_are_guarded fresh_id fresh_id_fresh 5 op_reconcile restoring_world
    (firstn (position sent reconcile_log) reconcile_log) (sent_rerun 7 (answered tt)) (skipn (S (position sent reconcile_log)) reconcile_log)).
  - constructor; [apply shows_good|constructor].
  - apply site_wf.
  - done.
  - vm_compute. reflexivity.
Defined.

(** The run never finishes: restoration polls until its budget is spent. *)
Definition polling_world : world ci := World (site (Some left_behind) (run_of "in_progress" "" 1)) [] [].
Lemma restoration_ends_witness :
  (restoreFollowupCiSuspension fresh_id 5 left_behind polling_world).1 = Ok (rs_pending, [], [7])
  /\ (restoreFollowupCiSuspension fresh_id 5 left_behind polling_world).1 <> Throw "out of fuel".
Proof.
  split; [by vm_compute|]. apply (restoration_ends fresh_id 5 left_behind polling_world); [constructor|apply site_wf|done].
Defined.
