(* ===== verification/RoutingPool.v ===== *)
(** * Synthetic agents: configuration and selection of a pool member

    The configuration schema's cross-field checks (packages/shared/src/syntheticAgents.ts)
    and the choice of a physical member (packages/core/src/services/syntheticRoutingService.ts).
    Percentages and headrooms are rationals. The model catalogue ([getModelHardLimit],
    [antigravitySupportedModel]) and [localeCompare] are parameters. *)

From S2P Require Import Prelude JsString.
From Stdlib Require Export QArith.

Open Scope Z_scope.
Open Scope list_scope.

(** ** Configuration *)

Inductive SyntheticSelectionStrategy := round_robin | usage_based.
#[export] Instance SyntheticSelectionStrategy_eq_dec : EqDecision SyntheticSelectionStrategy.
Proof. solve_decision. Defined.

Record SyntheticUsageLimits := UsageLimits {
  sessionMaxPercent : option Q;
  weeklyMaxPercent : option Q;
}.

Record SyntheticModelMember := Member {
  m_id : string;
  m_directAgentAlias : string;
  m_model : string;
  m_enabled : bool;
  m_priority : Z;
  m_usageLimits : option SyntheticUsageLimits;
}.

Record SyntheticModelConfig := SynModel {
  sm_id : string;
  sm_enabled : bool;
  sm_strategy : SyntheticSelectionStrategy;
  sm_members : list SyntheticModelMember;
}.

Record SyntheticAgentConfig := SynAgent {
  sa_id : string;
  sa_alias : string;
  sa_enabled : bool;
  sa_defaultModel : string;
  sa_models : list SyntheticModelConfig;
}.

(** [issue for every element already in the set], in order. *)
Fixpoint duplicates (seen l : list string) : list string :=
  match l with
  | [] => []
  | x :: l => (if bool_decide (x ∈ seen) then [x] else []) ++ duplicates (x :: seen) l
  end.

(** The issues [superRefine] reports for a model: duplicate members and duplicate
    pairs of direct agent and model. *)
Definition model_issues (m : SyntheticModelConfig) : list string :=
  duplicates [] (map m_id (sm_members m)) ++
  (fix pairs (seen : list (string * string)) (l : list SyntheticModelMember) : list string :=
     match l with
     | [] => []
     | x :: l =>
         let pair := (m_directAgentAlias x, m_model x) in
         (if bool_decide (pair ∈ seen) then [m_id x] else []) ++ pairs (pair :: seen) l
     end) [] (sm_members m).

Definition agent_issues (a : SyntheticAgentConfig) : list string :=
  duplicates [] (map sm_id (sa_models a)) ++
  (if existsb (fun m => bool_decide (sm_id m = sa_defaultModel a) && sm_enabled m) (sa_models a)
   then [] else [sa_defaultModel a]).

Definition config_issues (l : list SyntheticAgentConfig) : list string :=
  duplicates [] (map sa_id l) ++ duplicates [] (map sa_alias l)
  ++ concat (map agent_issues l) ++ concat (map (fun a => concat (map model_issues (sa_models a))) l).

(** ** References to direct agents *)

Record SyntheticDirectAgentReference := DirectRef {
  ref_id : string;
  ref_alias : string;
  ref_enabled : bool;
  ref_supportedModels : list string;
}.

(** [new Map(agents.map(agent => [agent.alias, agent]))]: the last one wins. *)
Definition directByAlias (l : list SyntheticDirectAgentReference) (alias : string)
    : option SyntheticDirectAgentReference :=
  find (fun a => bool_decide (ref_alias a = alias)) (rev l).

Inductive ReferenceError :=
  | IdConflict (synthetic : string)
  | AliasConflict (synthetic : string)
  | UnknownDirect (alias model direct : string)
  | UnsupportedModel (alias model direct physical : string).
Inductive ReferenceWarning := NoEnabledMembers (alias model : string).

Definition member_error (directs : list SyntheticDirectAgentReference) (a : SyntheticAgentConfig)
    (m : SyntheticModelConfig) (x : SyntheticModelMember) : option ReferenceError :=
  match directByAlias directs (m_directAgentAlias x) with
  | None => Some (UnknownDirect (sa_alias a) (sm_id m) (m_directAgentAlias x))
  | Some d => if bool_decide (m_model x ∈ ref_supportedModels d) then None
              else Some (UnsupportedModel (sa_alias a) (sm_id m) (m_directAgentAlias x) (m_model x))
  end.

(** A member counts as enabled when it has no error and both sides are enabled. *)
Definition counts_as_enabled (directs : list SyntheticDirectAgentReference) (a : SyntheticAgentConfig)
    (m : SyntheticModelConfig) (x : SyntheticModelMember) : bool :=
  match member_error directs a m x, directByAlias directs (m_directAgentAlias x) with
  | None, Some d => m_enabled x && ref_enabled d
  | _, _ => false
  end.

Definition validateSyntheticAgentReferences (synthetics : list SyntheticAgentConfig)
    (directs : list SyntheticDirectAgentReference) : list ReferenceError * list ReferenceWarning :=
  (concat (map (fun a =>
     (if bool_decide (sa_id a ∈ map ref_id directs) then [IdConflict (sa_id a)] else [])
     ++ (match directByAlias directs (sa_alias a) with Some _ => [AliasConflict (sa_alias a)] | None => [] end)
     ++ concat (map (fun m => omap (member_error directs a m) (sm_members m)) (sa_models a))) synthetics),
   concat (map (fun a => concat (map (fun m =>
     if sm_enabled m && negb (existsb (counts_as_enabled directs a m) (sm_members m))
     then [NoEnabledMembers (sa_alias a) (sm_id m)] else []) (sa_models a))) synthetics)).

Inductive DefaultError := DefaultMissing | DefaultDisabled | NoDefaultModel | NoExecutableMember.

Definition executable_member (directs : list SyntheticDirectAgentReference) (x : SyntheticModelMember) : bool :=
  m_enabled x
  && match directByAlias directs (m_directAgentAlias x) with
     | Some d => ref_enabled d && bool_decide (m_model x ∈ ref_supportedModels d)
     | None => false
     end.

Definition validateExecutableSyntheticDefault (defaultAlias : string) (synthetics : list SyntheticAgentConfig)
    (directs : list SyntheticDirectAgentReference) (requireSynthetic : bool) : option DefaultError :=
  match find (fun a => bool_decide (sa_alias a = defaultAlias)) synthetics with
  | None => if requireSynthetic then Some DefaultMissing else None
  | Some a =>
      if negb (sa_enabled a) then Some DefaultDisabled
      else
        match find (fun m => bool_decide (sm_id m = sa_defaultModel a)) (sa_models a) with
        | None => Some NoDefaultModel
        | Some m =>
            if negb (sm_enabled m) then Some NoDefaultModel
            else if existsb (executable_member directs) (sm_members m) then None else Some NoExecutableMember
        end
  end.

Definition findSyntheticReferencesToDirectAgent (synthetics : list SyntheticAgentConfig) (alias : string)
    : list (string * string) :=
  concat (map (fun a => concat (map (fun m =>
    if existsb (fun x => bool_decide (m_directAgentAlias x = alias)) (sm_members m)
    then [(sa_alias a, sm_id m)] else []) (sa_models a))) synthetics).

(** ** Selection *)

Record DirectAgent := Direct {
  da_alias : string;
  da_enabled : bool;
  da_defaultModel : string;
}.

Record SyntheticUsageSnapshot := Snapshot {
  sessionPercent : option Q;
  weeklyPercent : option Q;
}.

Inductive RejectReason :=
  | disabled | already_attempted (failure : option string) | agent_unavailable | agent_ineligible
  | unsupported_model | context_too_small (limit required : Z) | no_usage_data
  | session_usage_unavailable | session_cap_reached | weekly_usage_unavailable | weekly_cap_reached
  | model_not_configured | synthetic_agent_disabled | synthetic_model_disabled.

Record SyntheticMemberDiagnostic := Diagnostic {
  d_memberId : string;
  d_directAgentAlias : string;
  d_model : string;
  d_reason : option RejectReason;
}.

Record EligibleMember := Eligible { e_member : SyntheticModelMember; e_agent : DirectAgent; headroom : Q }.

(** What a selection reads outside the session. *)
Record PoolEnv := {
  configs : list SyntheticAgentConfig;
  getDirectAgent : string -> option DirectAgent;
  getSnapshot : string -> option SyntheticUsageSnapshot;
}.

Record SyntheticPhysicalSelection := Selection {
  virtualAgentAlias : string;
  virtualModel : string;
  physicalAgent : DirectAgent;
  physicalAgentAlias : string;
  physicalModel : string;
  memberId : option string;
  attemptNumber : Z;
  requiredTokens_ : Z;
  diagnostics : list SyntheticMemberDiagnostic;
  synthetic : bool;
}.

Inductive SelectError :=
  | PoolExhausted (alias model : string) (diags : list SyntheticMemberDiagnostic)
  | AgentNotFound (alias : string)
  | AgentIneligible (alias : string)
  | NoModel (alias : string).

(** The part of a session a selection reads. *)
Record Request := {
  requestedAgentAlias : string;
  requestedModel : string;
  requiredTokens : Z;
  isPhysicalAgentEligible : DirectAgent -> bool;
  attemptedMembers : list string;
  failureReason : string -> option string;
}.

Section Select.
Variable getModelHardLimit : string -> string -> Z.
Variable supportedModel : DirectAgent -> string -> bool.
(** [a.localeCompare(b) <= 0] *)
Variable locale_le : string -> string -> bool.

(** [(max - percent) / max] *)
Definition head_room (limit used : Q) : Q := Qdiv (Qminus limit used) limit.

(** A configured limit: the reject reason, or the headroom it contributes. *)
Definition check_limit (limit used : option Q) (unavailable reached : RejectReason) : RejectReason + list Q :=
  match limit with
  | None => inr []
  | Some l =>
      match used with
      | None => inl unavailable
      | Some u => if Qle_bool l u then inl reached else inr [head_room l u]
      end
  end.

Definition Qmin_bool (x y : Q) : Q := if Qle_bool x y then x else y.

(** [headrooms.length ? Math.min(...headrooms) : 1] *)
Definition min_headroom (l : list Q) : Q :=
  match l with [] => 1%Q | x :: l => foldl Qmin_bool x l end.

Definition usage_headroom (env : PoolEnv) (x : SyntheticModelMember) : RejectReason + Q :=
  match m_usageLimits x with
  | None => inr 1%Q
  | Some limits =>
      match getSnapshot env (m_directAgentAlias x) with
      | None => inl no_usage_data
      | Some snapshot =>
          match check_limit (sessionMaxPercent limits) (sessionPercent snapshot)
                  session_usage_unavailable session_cap_reached with
          | inl r => inl r
          | inr hs =>
              match check_limit (weeklyMaxPercent limits) (weeklyPercent snapshot)
                      weekly_usage_unavailable weekly_cap_reached with
              | inl r => inl r
              | inr hw => inr (min_headroom (hs ++ hw))
              end
          end
      end
  end.

Definition inspect (env : PoolEnv) (req : Request) (x : SyntheticModelMember) : RejectReason + EligibleMember :=
  if negb (m_enabled x) then inl disabled
  else if bool_decide (m_id x ∈ attemptedMembers req)
  then inl (already_attempted (truthy_string (failureReason req (m_id x))))
  else
    match getDirectAgent env (m_directAgentAlias x) with
    | None => inl agent_unavailable
    | Some agent =>
        if negb (da_enabled agent) then inl agent_unavailable
        else if negb (isPhysicalAgentEligible req agent) then inl agent_ineligible
        else if negb (supportedModel agent (m_model x)) then inl unsupported_model
        else
          let hardLimit := getModelHardLimit (m_directAgentAlias x) (m_model x) in
          if hardLimit <? requiredTokens req then inl (context_too_small hardLimit (requiredTokens req))
          else
            match usage_headroom env x with
            | inl r => inl r
            | inr h => inr (Eligible x agent h)
            end
    end.

Definition inspectMember (env : PoolEnv) (req : Request) (x : SyntheticModelMember)
    : SyntheticMemberDiagnostic * option EligibleMember :=
  match inspect env req x with
  | inl r => (Diagnostic (m_id x) (m_directAgentAlias x) (m_model x) (Some r), None)
  | inr e => (Diagnostic (m_id x) (m_directAgentAlias x) (m_model x) None, Some e)
  end.

Definition loadSyntheticModel (env : PoolEnv) (alias requested : string)
    : option (SyntheticAgentConfig * (SelectError + SyntheticModelConfig)) :=
  match find (fun a => bool_decide (sa_alias a = alias)) (configs env) with
  | None => None
  | Some a =>
      let modelId := match requested with "" => sa_defaultModel a | _ => requested end in
      Some (a, match find (fun m => bool_decide (sm_id m = modelId)) (sa_models a) with
               | Some m => inr m
               | None => inl (PoolExhausted alias modelId
                                [Diagnostic "" alias modelId (Some model_not_configured)])
               end)
  end.

(** The persisted round-robin cursors. *)
Abbreviation cursors := (gmap string Z).

(** [nextCursor]: one transaction. *)
Definition nextCursor (key : string) (c : cursors) : Z * cursors :=
  let cursor := default 0 (c !! key) in (cursor, <[key := cursor + 1]> c).

Definition eligible_members (env : PoolEnv) (req : Request) (m : SyntheticModelConfig) : list EligibleMember :=
  omap (fun x => snd (inspectMember env req x)) (sm_members m).

Definition highestPriority (l : list EligibleMember) : Z :=
  match l with
  | [] => 0
  | e :: l => foldl (fun p e => Z.max p (m_priority (e_member e))) (m_priority (e_member e)) l
  end.

Definition tier (l : list EligibleMember) : list EligibleMember :=
  filter (fun e => m_priority (e_member e) = highestPriority l) l.

(** [b.headroom - a.headroom || a.id.localeCompare(b.id)] *)
Definition usage_le (a b : EligibleMember) : bool :=
  match Qcompare (headroom a) (headroom b) with
  | Gt => true
  | Lt => false
  | Eq => locale_le (m_id (e_member a)) (m_id (e_member b))
  end.

(** The member of the tier a strategy picks, and the cursors after it. *)
Definition choose (strategy : SyntheticSelectionStrategy) (key : string) (t : list EligibleMember)
    (c : cursors) : option EligibleMember * cursors :=
  match strategy with
  | usage_based => (head (sort_by usage_le t), c)
  | round_robin =>
      let '(cursor, c) := nextCursor key c in (t !! Z.to_nat (cursor mod Z.of_nat (length t)), c)
  end.

Definition select_direct (env : PoolEnv) (req : Request) : SelectError + SyntheticPhysicalSelection :=
  let alias := requestedAgentAlias req in
  match getDirectAgent env alias with
  | None => inl (AgentNotFound alias)
  | Some agent =>
      if negb (isPhysicalAgentEligible req agent) then inl (AgentIneligible alias)
      else
        let model := match requestedModel req with "" => da_defaultModel agent | m => m end in
        match model with
        | "" => inl (NoModel alias)
        | _ => inr (Selection alias model agent (da_alias agent) model None 1 (requiredTokens req) [] false)
        end
  end.

Definition select_member (env : PoolEnv) (req : Request) (a : SyntheticAgentConfig) (m : SyntheticModelConfig)
    (c : cursors) : (SelectError + SyntheticPhysicalSelection) * cursors :=
  let diags := map (fun x => fst (inspectMember env req x)) (sm_members m) in
  match eligible_members env req m with
  | [] => (inl (PoolExhausted (sa_alias a) (sm_id m) diags), c)
  | eligible =>
      let '(chosen, c) := choose (sm_strategy m) (sa_id a ++ ":" ++ sm_id m)%string (tier eligible) c in
      (match chosen with
       | None => inl (PoolExhausted (sa_alias a) (sm_id m) diags)
       | Some e =>
           inr (Selection (sa_alias a) (sm_id m) (e_agent e) (m_directAgentAlias (e_member e))
                  (m_model (e_member e)) (Some (m_id (e_member e)))
                  (Z.of_nat (length (attemptedMembers req)) + 1) (requiredTokens req) diags true)
       end, c)
  end.

Definition select (env : PoolEnv) (req : Request) (c : cursors)
    : (SelectError + SyntheticPhysicalSelection) * cursors :=
  match loadSyntheticModel env (requestedAgentAlias req) (requestedModel req) with
  | None => (select_direct env req, c)
  | Some (_, inl err) => (inl err, c)
  | Some (a, inr m) =>
      if negb (sa_enabled a) || negb (sm_enabled m)
      then (inl (PoolExhausted (sa_alias a) (sm_id m)
              [Diagnostic "" (sa_alias a) (sm_id m)
                 (Some (if negb (sa_enabled a) then synthetic_agent_disabled else synthetic_model_disabled))]), c)
      else select_member env req a m c
  end.

(** [healthCheck]: probes in failover order, without consuming a cursor. *)
Definition health_le (strategy : SyntheticSelectionStrategy) (a b : EligibleMember) : bool :=
  let pa := m_priority (e_member a) in
  let pb := m_priority (e_member b) in
  if negb (pb =? pa) then pb <? pa
  else match strategy with
       | usage_based => usage_le a b
       | round_robin => locale_le (m_id (e_member a)) (m_id (e_member b))
       end.

Definition healthCheck (env : PoolEnv) (req : Request) (healthy : DirectAgent -> bool) : SelectError + bool :=
  match loadSyntheticModel env (requestedAgentAlias req) (requestedModel req) with
  | None =>
      inr (match getDirectAgent env (requestedAgentAlias req) with
           | Some agent => da_enabled agent && isPhysicalAgentEligible req agent && healthy agent
           | None => false
           end)
  | Some (_, inl err) => inl err
  | Some (a, inr m) =>
      inr (sa_enabled a && sm_enabled m
           && existsb (fun e => healthy (e_agent e))
                (sort_by (health_le (sm_strategy m)) (eligible_members env req m)))
  end.
End Select.
