(* ===== verification/RoutingFacts.v ===== *)
(** * Properties of the selection of a pool member *)

From S2P Require Import Prelude JsString RoutingPool.

Open Scope Z_scope.
Open Scope list_scope.

(** ** Tiers *)

Lemma foldl_max_spec l p :
  p <= foldl (fun p e => Z.max p (m_priority (e_member e))) p l
  /\ (forall e, e ∈ l -> m_priority (e_member e) <= foldl (fun p e => Z.max p (m_priority (e_member e))) p l)
  /\ (foldl (fun p e => Z.max p (m_priority (e_member e))) p l = p
      \/ exists e, e ∈ l /\ m_priority (e_member e) = foldl (fun p e => Z.max p (m_priority (e_member e))) p l).
Proof.
  revert p; induction l as [|e l IH]; intros p; simpl.
  - split_and!; [lia| |by left]. intros e He. by apply elem_of_nil in He.
  - destruct (IH (Z.max p (m_priority (e_member e)))) as (H1 & H2 & H3). split_and!; [lia| |].
    + intros e' [->|He]%elem_of_cons; [lia|by apply H2].
    + destruct H3 as [H3|(e' & He' & H3)]; [|right; exists e'; split; [by right|done]].
      destruct (Z.max_spec p (m_priority (e_member e))) as [[Hm Hmax]|[Hm Hmax]].
      * right. exists e. split; [by left|]. lia.
      * left. lia.
Qed.

Lemma highestPriority_spec l e :
  e ∈ l -> m_priority (e_member e) <= highestPriority l
  /\ exists e', e' ∈ l /\ m_priority (e_member e') = highestPriority l.
Proof.
  destruct l as [|x l]; [intros H; by apply elem_of_nil in H|]. intros He. simpl.
  destruct (foldl_max_spec l (m_priority (e_member x))) as (H1 & H2 & H3). split.
  - apply elem_of_cons in He as [->|He]; [done|by apply H2].
  - destruct H3 as [H3|(e' & He' & H3)]; [exists x|exists e']; split; auto; by constructor.
Qed.

Lemma tier_spec l e :
  e ∈ tier l <-> e ∈ l /\ forall e', e' ∈ l -> m_priority (e_member e') <= m_priority (e_member e).
Proof.
  unfold tier. rewrite list_elem_of_filter. split.
  - intros [Hp He]. split; [done|]. intros e' He'. rewrite Hp. by apply highestPriority_spec.
  - intros [He Hmax]. split; [|done]. destruct (highestPriority_spec l e He) as (H1 & e' & He' & H2).
    specialize (Hmax e' He'). lia.
Qed.

Lemma tier_nonempty l : l <> [] -> tier l <> [].
Proof.
  intros Hl Ht. destruct l as [|x l]; [done|].
  destruct (highestPriority_spec (x :: l) x) as (_ & e & He & Hp); [by left|].
  assert (H : e ∈ tier (x :: l)) by (unfold tier; by rewrite list_elem_of_filter).
  rewrite Ht in H. by apply elem_of_nil in H.
Qed.

Section Facts.
Variable getModelHardLimit : string -> string -> Z.
Variable supportedModel : DirectAgent -> string -> bool.
Variable locale_le : string -> string -> bool.

Abbreviation inspect := (inspect getModelHardLimit supportedModel).
Abbreviation inspectMember := (inspectMember getModelHardLimit supportedModel).
Abbreviation eligible_members := (eligible_members getModelHardLimit supportedModel).
Abbreviation select := (select getModelHardLimit supportedModel locale_le).
Abbreviation select_member := (select_member getModelHardLimit supportedModel locale_le).

(** ** Which members may be used *)

(** Usage is known and below the cap, where a cap is configured. *)
Definition below_cap (limit used : option Q) : Prop :=
  forall l, limit = Some l -> exists u, used = Some u /\ (u < l)%Q.

Definition within_caps (env : PoolEnv) (x : SyntheticModelMember) : Prop :=
  forall limits, m_usageLimits x = Some limits -> exists snapshot,
    getSnapshot env (m_directAgentAlias x) = Some snapshot
    /\ below_cap (sessionMaxPercent limits) (sessionPercent snapshot)
    /\ below_cap (weeklyMaxPercent limits) (weeklyPercent snapshot).

(** [x] may serve [req] through the direct agent [agent]. *)
Definition usable (env : PoolEnv) (req : Request) (x : SyntheticModelMember) (agent : DirectAgent) : Prop :=
  m_enabled x = true /\ (m_id x ∉ attemptedMembers req)
  /\ getDirectAgent env (m_directAgentAlias x) = Some agent /\ da_enabled agent = true
  /\ isPhysicalAgentEligible req agent = true /\ supportedModel agent (m_model x) = true
  /\ requiredTokens req <= getModelHardLimit (m_directAgentAlias x) (m_model x) /\ within_caps env x.

Lemma check_limit_inr limit used a b hs : check_limit limit used a b = inr hs -> below_cap limit used.
Proof.
  intros H l ->. simpl in H. destruct used as [u|]; [|done]. exists u. split; [done|].
  destruct (Qle_bool l u) eqn:E; [done|]. apply Qnot_le_lt. intros Hle.
  apply Qle_bool_iff in Hle. congruence.
Qed.

Lemma check_limit_below limit used a b : below_cap limit used -> exists hs, check_limit limit used a b = inr hs.
Proof.
  intros H. destruct limit as [l|]; simpl; [|by eexists]. destruct (H l eq_refl) as (u & -> & Hlt).
  destruct (Qle_bool l u) eqn:E; [|by eexists]. apply Qle_bool_iff in E. by apply Qlt_not_le in Hlt.
Qed.

Lemma usage_headroom_iff env x : (exists h, usage_headroom env x = inr h) <-> within_caps env x.
Proof.
  unfold usage_headroom, within_caps. destruct (m_usageLimits x) as [limits|]; [|split; [done|by eexists]].
  destruct (getSnapshot env (m_directAgentAlias x)) as [snapshot|].
  2: { split; [by intros [h H]|]. intros H. by destruct (H limits eq_refl) as (? & ? & _). }
  split.
  - intros [h H] l Hl. simplify_eq. exists snapshot. split; [done|].
    destruct (check_limit (sessionMaxPercent l) _ _ _) eqn:Es; [done|].
    destruct (check_limit (weeklyMaxPercent l) _ _ _) eqn:Ew; [done|].
    split; by eapply check_limit_inr.
  - intros H. destruct (H limits eq_refl) as (s & Hs & H1 & H2). simplify_eq.
    destruct (check_limit_below _ _ session_usage_unavailable session_cap_reached H1) as [hs ->].
    destruct (check_limit_below _ _ weekly_usage_unavailable weekly_cap_reached H2) as [hw ->]. by eexists.
Qed.

Lemma inspect_iff env req x agent :
  (exists h, inspect env req x = inr (Eligible x agent h)) <-> usable env req x agent.
Proof.
  unfold RoutingPool.inspect, usable. destruct (m_enabled x); simpl; [|split; [by intros [h H]|by intros [H _]]].
  case_bool_decide as Ha; [split; [by intros [h H]|by intros (_ & H & _)]|].
  destruct (getDirectAgent env (m_directAgentAlias x)) as [agent'|];
    [|split; [by intros [h H]|by intros (_ & _ & H & _)]].
  split.
  - intros [h H]. repeat (case_bool; [done|]). zb.
    destruct (usage_headroom env x) eqn:Eu; simplify_eq. split_and!; try done.
    apply usage_headroom_iff. by eexists.
  - intros (_ & _ & Hag & He & Hel & Hs & Ht & Hc). simplify_eq. rewrite He, Hel, Hs. simpl.
    case_bool; zb; [lia|]. apply usage_headroom_iff in Hc as [h ->]. by eexists.
Qed.

Lemma inspect_member env req x e : inspect env req x = inr e -> e = Eligible x (e_agent e) (headroom e).
Proof.
  unfold RoutingPool.inspect. intros H. repeat (case_bool; [done|]). case_match; [|done].
  repeat (case_bool; [done|]). case_match; by simplify_eq.
Qed.

Lemma eligible_iff env req m e :
  e ∈ eligible_members env req m <-> exists x, x ∈ sm_members m /\ inspect env req x = inr e.
Proof.
  unfold RoutingPool.eligible_members. rewrite list_elem_of_omap. unfold RoutingPool.inspectMember.
  split; intros (x & Hx & H); exists x; (split; [done|]); destruct (inspect env req x); naive_solver.
Qed.

Lemma no_eligible_iff env req m :
  eligible_members env req m = [] <-> forall x agent, x ∈ sm_members m -> ~ usable env req x agent.
Proof.
  split.
  - intros H x agent Hx Hu. apply inspect_iff in Hu as [h Hh].
    assert (He : Eligible x agent h ∈ eligible_members env req m) by (apply eligible_iff; eauto).
    rewrite H in He. by apply elem_of_nil in He.
  - intros H. destruct (eligible_members env req m) as [|e l] eqn:E; [done|]. exfalso.
    assert (He : e ∈ eligible_members env req m) by (rewrite E; by left).
    apply eligible_iff in He as (x & Hx & Hi). apply (H x (e_agent e) Hx), inspect_iff.
    exists (headroom e). rewrite Hi. f_equal. by apply (inspect_member env req).
Qed.

(** ** What a selection returns *)

Definition comparison_ok : Prop :=
  (forall a b, locale_le a b = true \/ locale_le b a = true)
  /\ (forall a b c, locale_le a b = true -> locale_le b c = true -> locale_le a c = true).

Lemma usage_le_total a b : comparison_ok -> usage_le locale_le a b = true \/ usage_le locale_le b a = true.
Proof.
  intros [Htot _]. unfold usage_le. rewrite <- (Qcompare_antisym (headroom a) (headroom b)).
  destruct (headroom a ?= headroom b)%Q; simpl; auto.
Qed.

Lemma usage_le_trans a b c :
  comparison_ok -> usage_le locale_le a b = true -> usage_le locale_le b c = true -> usage_le locale_le a c = true.
Proof.
  intros [_ Htr]. unfold usage_le.
  destruct (headroom a ?= headroom b)%Q eqn:E1; [| done |].
  - apply Qeq_alt in E1. rewrite E1. destruct (headroom b ?= headroom c)%Q; eauto.
  - intros _. apply Qgt_alt in E1. destruct (headroom b ?= headroom c)%Q eqn:E2; [|done|]; intros _.
    + apply Qeq_alt in E2. rewrite <- E2. apply Qgt_alt in E1. by rewrite E1.
    + apply Qgt_alt in E2. assert (H : (headroom c < headroom a)%Q) by (by eapply Qlt_trans).
      apply Qgt_alt in H. by rewrite H.
Qed.

Lemma usage_le_headroom a b : usage_le locale_le a b = true -> (headroom b <= headroom a)%Q.
Proof.
  unfold usage_le. destruct (headroom a ?= headroom b)%Q eqn:E; [| done |]; intros _.
  - apply Qeq_alt in E. rewrite E. apply Qle_refl.
  - apply Qgt_alt in E. by apply Qlt_le_weak.
Qed.

(** The member a strategy picks from a tier belongs to it. *)
Lemma choose_in strategy key t c e c' :
  choose locale_le strategy key t c = (Some e, c') -> e ∈ t.
Proof.
  unfold choose. destruct strategy; intros H.
  - unfold nextCursor in H. simplify_eq. by eapply list_elem_of_lookup_2.
  - simplify_eq. rewrite <- (sort_by_perm (usage_le locale_le) t).
    destruct (sort_by _ t); simplify_eq/=. by left.
Qed.

Lemma choose_some strategy key t c :
  t <> [] -> exists e c', choose locale_le strategy key t c = (Some e, c').
Proof.
  intros Ht. unfold choose. destruct strategy.
  - unfold nextCursor. set (n := default 0 (c !! key)).
    destruct (lookup_lt_is_Some_2 t (Z.to_nat (n mod Z.of_nat (length t)))) as [e He]; [|rewrite He; by eexists _, _].
    assert (0 < length t)%nat by (destruct t; simpl; [done|lia]).
    pose proof (Z.mod_pos_bound n (Z.of_nat (length t))). lia.
  - destruct (sort_by (usage_le locale_le) t) as [|e s] eqn:E; [|by eexists _, _].
    destruct Ht. apply Permutation_nil. by rewrite <- E, sort_by_perm.
Qed.

(** The configured pool a request names. *)
Definition pool (env : PoolEnv) (req : Request) (a : SyntheticAgentConfig) (m : SyntheticModelConfig) : Prop :=
  loadSyntheticModel env (requestedAgentAlias req) (requestedModel req) = Some (a, inr m)
  /\ sa_enabled a = true /\ sm_enabled m = true.

Lemma select_pool env req a m c : pool env req a m -> select env req c = select_member env req a m c.
Proof. intros (H1 & H2 & H3). unfold RoutingPool.select. by rewrite H1, H2, H3. Qed.

(** The selection made from a pool. *)
Definition selection_of (req : Request) (a : SyntheticAgentConfig) (m : SyntheticModelConfig)
    (ds : list SyntheticMemberDiagnostic) (e : EligibleMember) : SyntheticPhysicalSelection :=
  Selection (sa_alias a) (sm_id m) (e_agent e) (m_directAgentAlias (e_member e)) (m_model (e_member e))
    (Some (m_id (e_member e))) (Z.of_nat (length (attemptedMembers req)) + 1) (requiredTokens req) ds true.

Lemma select_member_inv env req a m c sel c' :
  select_member env req a m c = (inr sel, c') ->
  exists x e, choose locale_le (sm_strategy m) (sa_id a ++ ":" ++ sm_id m)%string (tier (eligible_members env req m)) c = (Some e, c')
    /\ e ∈ tier (eligible_members env req m) /\ x ∈ sm_members m /\ inspect env req x = inr e
    /\ e = Eligible x (e_agent e) (headroom e)
    /\ sel = selection_of req a m (map (fun x => fst (inspectMember env req x)) (sm_members m)) e.
Proof.
  unfold RoutingPool.select_member. destruct (eligible_members env req m) as [|e0 l] eqn:El; [done|].
  rewrite <- El. clear e0 l El. destruct (choose _ _ _ _ _) as [[e|] c1] eqn:Ec; [|done]. intros H. simplify_eq/=.
  pose proof (choose_in _ _ _ _ _ _ Ec) as Ht. pose proof Ht as [He _]%tier_spec.
  apply eligible_iff in He as (x & Hx & Hi). exists x, e. split_and!; try done. by apply (inspect_member env req).
Qed.

Lemma select_inv env req c sel c' :
  select env req c = (inr sel, c') ->
  (synthetic sel = false /\ memberId sel = None)
  \/ exists a m, pool env req a m /\ select_member env req a m c = (inr sel, c').
Proof.
  unfold RoutingPool.select. destruct (loadSyntheticModel _ _ _) as [[a [err|m]]|] eqn:El; [done| |].
  - case_bool; [done|]. intros H. right. exists a, m. split; [|done].
    apply orb_false_elim in E as [E1%negb_false_iff E2%negb_false_iff]. done.
  - intros H. left. unfold select_direct in H. repeat case_match; by simplify_eq/=.
Qed.

(** C32. A selection never breaks a limit and always takes the best member: it is
    enabled, untried, backed by an enabled and eligible direct agent that supports
    its model, its context window fits, usage is below every configured cap, no
    usable member has a higher priority, and with usage-based routing none of the
    same priority has more headroom. *)
Theorem selection_is_usable_and_best env req a m c sel c' :
  comparison_ok -> pool env req a m -> select env req c = (inr sel, c') ->
  exists x h, x ∈ sm_members m /\ usable env req x (physicalAgent sel)
    /\ inspect env req x = inr (Eligible x (physicalAgent sel) h)
    /\ memberId sel = Some (m_id x) /\ physicalAgentAlias sel = m_directAgentAlias x
    /\ physicalModel sel = m_model x /\ requiredTokens_ sel = requiredTokens req /\ synthetic sel = true
    /\ (forall y agent, y ∈ sm_members m -> usable env req y agent -> m_priority y <= m_priority x)
    /\ (sm_strategy m = usage_based ->
        forall y agent hy, y ∈ sm_members m -> inspect env req y = inr (Eligible y agent hy) ->
        m_priority y = m_priority x -> (hy <= h)%Q).
Proof.
  intros Hcmp Hpool. rewrite (select_pool _ _ _ _ _ Hpool). intros H.
  destruct (select_member_inv _ _ _ _ _ _ _ H) as (x & e & Ec & Ht & Hx & Hi & Hex & ->).
  apply tier_spec in Ht as [_ Hmax]. exists x, (headroom e). rewrite Hex in Hi. rewrite Hex. simpl. split_and!; try done.
  - apply inspect_iff. by eexists.
  - intros y agent Hy Hu. apply inspect_iff in Hu as [h Hh].
    specialize (Hmax (Eligible y agent h)). rewrite Hex in Hmax. apply Hmax, eligible_iff. eauto.
  - intros Hst y agent hy Hy Hiy Hp. unfold choose in Ec. rewrite Hst in Ec. injection Ec as Hhead _.
    apply (usage_le_headroom e (Eligible y agent hy)).
    eapply (sort_by_head (usage_le locale_le)); [intros; by apply usage_le_total| |exact Hhead|].
    { intros; by eapply usage_le_trans. }
    apply tier_spec. split; [apply eligible_iff; eauto|]. intros e' He'. specialize (Hmax e' He').
    simpl. rewrite Hp. by rewrite Hex in Hmax.
Qed.

(** C35. A pool is exhausted exactly when no member is usable; then every member is
    reported, in order, with the reason it was rejected, and no cursor moves. *)
Theorem pool_exhausted_iff env req a m c :
  pool env req a m ->
  ((forall x agent, x ∈ sm_members m -> ~ usable env req x agent) <->
   exists err, fst (select env req c) = inl err)
  /\ (forall err, fst (select env req c) = inl err ->
      snd (select env req c) = c
      /\ exists ds, err = PoolExhausted (sa_alias a) (sm_id m) ds
         /\ map d_memberId ds = map m_id (sm_members m) /\ Forall (fun d => d_reason d <> None) ds).
Proof.
  intros Hpool. rewrite (select_pool _ _ _ _ _ Hpool), <- no_eligible_iff. unfold RoutingPool.select_member.
  destruct (eligible_members env req m) as [|e0 l] eqn:El.
  - simpl. split; [split; eauto|]. intros err H. simplify_eq. split; [done|]. eexists. split; [done|].
    rewrite map_map. split.
    + apply map_ext. intros x. unfold RoutingPool.inspectMember. by destruct (inspect env req x).
    + apply Forall_fmap, Forall_forall. intros x Hx. simpl. unfold RoutingPool.inspectMember.
      destruct (inspect env req x) eqn:E; [done|].
      assert (e ∈ eligible_members env req m) as Hin by (apply eligible_iff; eauto). rewrite El in Hin.
      by apply elem_of_nil in Hin.
  - destruct (choose_some (sm_strategy m) (sa_id a ++ ":" ++ sm_id m)%string (tier (e0 :: l)) c) as (e & c' & ->).
    { by apply tier_nonempty. }
    simpl. split; [split; [done|by intros [err ?]]|done].
Qed.

(** ** Round robin *)

(** The members chosen by [n] consecutive selections of one pool whose tier stays
    the same. *)
Fixpoint rounds (n : nat) (key : string) (t : list EligibleMember) (c : gmap string Z)
    : list EligibleMember :=
  match n with
  | O => []
  | S n =>
      let '(e, c) := choose locale_le round_robin key t c in
      match e with Some e => e :: rounds n key t c | None => rounds n key t c end
  end.

Lemma rounds_lookup n key t c i :
  t <> [] -> (i < n)%nat ->
  rounds n key t c !! i = t !! Z.to_nat ((default 0 (c !! key) + Z.of_nat i) mod Z.of_nat (length t)).
Proof.
  intros Ht. revert c i; induction n as [|n IH]; intros c i Hi; [lia|]. cbn [rounds].
  destruct (choose_some round_robin key t c Ht) as (e & c' & Hc). rewrite Hc.
  unfold choose, nextCursor in Hc. simplify_eq. destruct i as [|i]; cbn [lookup list_lookup].
  - by rewrite Z.add_0_r.
  - rewrite IH by lia. rewrite lookup_insert_eq. cbn [default].
    by replace (default 0 (c !! key) + Z.of_nat (S i)) with (default 0 (c !! key) + 1 + Z.of_nat i) by lia.
Qed.

Lemma rounds_length n key t c : t <> [] -> length (rounds n key t c) = n.
Proof.
  intros Ht. revert c; induction n as [|n IH]; intros c; [done|]. cbn [rounds].
  destruct (choose_some round_robin key t c Ht) as (e & c' & ->). simpl. by rewrite IH.
Qed.

(** Round robin is fair: among as many consecutive selections as the tier has
    members, every member of the tier is chosen exactly once, in the configured
    cyclic order, wherever the cursor starts. *)
Theorem round_robin_fair key t c :
  t <> [] -> 0 <= default 0 (c !! key) ->
  rounds (length t) key t c ≡ₚ t
  /\ forall i, (i < length t)%nat -> rounds (2 * length t) key t c !! i = rounds (2 * length t) key t c !! (i + length t)%nat.
Proof.
  intros Ht Hc. set (k := default 0 (c !! key)) in *.
  set (n := length t). assert (Hn : 0 < Z.of_nat n) by (unfold n; destruct t; simpl; [done|lia]).
  set (j := Z.to_nat (k mod Z.of_nat n)).
  pose proof (Z.mod_pos_bound k (Z.of_nat n) Hn) as Hk.
  assert (Hj : (j < n)%nat) by (unfold j; lia).
  split.
  - rewrite <- (take_drop j t) at 2. rewrite Permutation_app_comm. apply reflexive_eq.
    apply list_eq. intros i. destruct (decide (i < n)%nat) as [Hi|Hi].
    + rewrite rounds_lookup by done. fold k n.
      rewrite <- Z.add_mod_idemp_l by lia.
      destruct (decide (i < n - j)%nat) as [Hl|Hl].
      * rewrite lookup_app_l by (rewrite length_drop; fold n; lia). rewrite lookup_drop. f_equal.
        rewrite Z.mod_small; unfold j in *; lia.
      * rewrite lookup_app_r by (rewrite length_drop; fold n; lia). rewrite length_drop. fold n.
        rewrite lookup_take_lt by lia. f_equal.
        replace (k mod Z.of_nat n + Z.of_nat i) with (Z.of_nat (i - (n - j)) + 1 * Z.of_nat n) by (unfold j in *; lia).
        rewrite Z_mod_plus_full, Z.mod_small by (unfold j in *; lia). lia.
    + rewrite !lookup_ge_None_2; [done| |].
      * rewrite length_app, length_drop, length_take. fold n. lia.
      * rewrite rounds_length by done. lia.
  - intros i Hi. rewrite !rounds_lookup by (done || lia). fold k n. do 2 f_equal.
    replace (k + Z.of_nat (i + n)) with (k + Z.of_nat i + 1 * Z.of_nat n) by lia. by rewrite Z_mod_plus_full.
Qed.

(** ** Validated configurations *)

(** The check of a synthetic default is what routing needs: when it accepts an
    agent and the running direct agents are those it was checked against, a fresh
    request for the default is served unless a member's context window, eligibility
    or usage caps stand in the way. *)
Theorem executable_default_is_served env req directs c :
  validateExecutableSyntheticDefault (requestedAgentAlias req) (configs env) directs true = None ->
  requestedModel req = ""%string -> attemptedMembers req = [] ->
  (forall alias d, directByAlias directs alias = Some d -> exists agent, getDirectAgent env alias = Some agent
     /\ da_enabled agent = ref_enabled d /\ isPhysicalAgentEligible req agent = true
     /\ (forall model, model ∈ ref_supportedModels d -> supportedModel agent model = true)) ->
  (forall a m x, a ∈ configs env -> m ∈ sa_models a -> x ∈ sm_members m ->
     requiredTokens req <= getModelHardLimit (m_directAgentAlias x) (m_model x) /\ within_caps env x) ->
  exists sel, fst (select env req c) = inr sel /\ synthetic sel = true.
Proof.
  unfold validateExecutableSyntheticDefault. intros Hv Hreq Hatt Hdirect Hlimits.
  destruct (find _ (configs env)) as [a|] eqn:Ea; [|done]. case_bool; [done|].
  destruct (find _ (sa_models a)) as [m|] eqn:Em; [|done]. case_bool; [done|]. case_bool; [|done].
  apply negb_false_iff in E, E0.
  assert (Hpool : pool env req a m).
  { unfold pool, loadSyntheticModel. rewrite Ea, Hreq. simpl. by rewrite Em. }
  destruct (fst (select env req c)) as [err|sel] eqn:Es.
  - exfalso. rewrite (select_pool _ _ _ _ _ Hpool) in Es. apply existsb_exists in E1 as (x & Hx & He).
    unfold executable_member in He. apply andb_prop in He as [Hen He].
    destruct (directByAlias directs (m_directAgentAlias x)) as [d|] eqn:Ed; [|done].
    apply andb_prop in He as [Hd Hm]. apply bool_decide_eq_true in Hm.
    destruct (Hdirect _ _ Ed) as (agent & Hag & Hda & Hel & Hsup).
    assert (Hel' : eligible_members env req m = []).
    { unfold RoutingPool.select_member in Es. destruct (eligible_members env req m) as [|e0 l]; [done|].
      destruct (choose_some (sm_strategy m) (sa_id a ++ ":" ++ sm_id m)%string (tier (e0 :: l)) c) as (e & c' & Hch);
        [by apply tier_nonempty|]. rewrite Hch in Es. done. }
    eapply no_eligible_iff; [exact Hel'|by apply list_elem_of_In|].
    split_and!; [done|rewrite Hatt; apply not_elem_of_nil|done|congruence|done|by apply Hsup|..].
    all: apply find_some in Ea as [Ha _]; apply find_some in Em as [Hm' _].
    all: by apply (Hlimits a m x); apply list_elem_of_In.
  - exists sel. split; [done|]. rewrite (select_pool _ _ _ _ _ Hpool) in Es. unfold RoutingPool.select_member in Es.
    destruct (eligible_members env req m); [done|]. destruct (choose _ _ _ _ _) as [[e'|] c']; by simplify_eq/=.
Qed.
End Facts.
