(* ===== verification/RoutingSession.v ===== *)
(** * Sessions of synthetic routing

    [SyntheticRoutingSession] (packages/core/src/services/syntheticRoutingService.ts):
    one logical call, its pinned selection, the members it tried and the failover
    loops of [analyze] and [executeTask]. The configuration, the usage data and the
    answers of the physical agents may change between attempts: they are streams
    indexed by the attempt. Recording attempts in the database is best effort and
    left out; the two regular expressions of [isNonRetryableSyntheticFailure] are
    parameters. *)

From S2P Require Import Prelude JsString RoutingPool RoutingFacts.

Open Scope Z_scope.
Open Scope list_scope.

(** ** Failures *)

(** [f_message] is the message of the error, [f_text] what is searched: message,
    error and logs joined. *)
Record Failure := MkFailure {
  f_names : list string;
  f_codes : list string;
  f_terminationReason : option string;
  f_message : string;
  f_text : string;
}.

Section Session.
Variable getModelHardLimit : string -> string -> Z.
Variable supportedModel : DirectAgent -> string -> bool.
Variable locale_le : string -> string -> bool.
(** The two regular expressions. *)
Variables explicitCancellation policyFailure : string -> bool.

Definition NON_RETRYABLE_NAMES : list string :=
  ["ExecutionAbortedError"; "IndexingCancelledError"; "SecurityException"; "ContextTokenLimitError"]%string.
Definition NON_RETRYABLE_CODES : list string :=
  ["SECURITY_POLICY_VIOLATION"; "INVALID_CONFIGURATION"; "PROMPT_TOO_LARGE"]%string.

Definition isNonRetryableSyntheticFailure (f : Failure) : bool :=
  existsb (fun n => bool_decide (n ∈ NON_RETRYABLE_NAMES)) (f_names f)
  || existsb (fun c => bool_decide (c ∈ NON_RETRYABLE_CODES)) (f_codes f)
  || match f_terminationReason f with
     | Some r => let r := to_lower (trim r) in
                 bool_decide (r ∈ ["user_cancelled"; "user_canceled"]%string)
     | None => false
     end
  || explicitCancellation (f_text f) || policyFailure (f_text f).

(** ** Sessions *)

Record SyntheticRoutingSession := {
  s_requestedAgentAlias : string;
  s_requestedModel : string;
  s_requiredTokens : Z;
  s_eligibility : option (DirectAgent -> bool);
  s_current : option SyntheticPhysicalSelection;
  s_lastFailedSelection : option SyntheticPhysicalSelection;
  s_attemptedMemberIds : list string;
  s_attemptFailures : gmap string string;
  s_executionAttemptCount : Z;
}.

Definition set_current (sel : option SyntheticPhysicalSelection) (s : SyntheticRoutingSession) : SyntheticRoutingSession := {|
  s_requestedAgentAlias := s_requestedAgentAlias s; s_requestedModel := s_requestedModel s;
  s_requiredTokens := s_requiredTokens s; s_eligibility := s_eligibility s; s_current := sel;
  s_lastFailedSelection := s_lastFailedSelection s; s_attemptedMemberIds := s_attemptedMemberIds s;
  s_attemptFailures := s_attemptFailures s; s_executionAttemptCount := s_executionAttemptCount s |}.
Definition set_attempted (l : list string) (s : SyntheticRoutingSession) : SyntheticRoutingSession := {|
  s_requestedAgentAlias := s_requestedAgentAlias s; s_requestedModel := s_requestedModel s;
  s_requiredTokens := s_requiredTokens s; s_eligibility := s_eligibility s; s_current := s_current s;
  s_lastFailedSelection := s_lastFailedSelection s; s_attemptedMemberIds := l;
  s_attemptFailures := s_attemptFailures s; s_executionAttemptCount := s_executionAttemptCount s |}.
Definition set_tokens (n : Z) (s : SyntheticRoutingSession) : SyntheticRoutingSession := {|
  s_requestedAgentAlias := s_requestedAgentAlias s; s_requestedModel := s_requestedModel s;
  s_requiredTokens := n; s_eligibility := s_eligibility s; s_current := s_current s;
  s_lastFailedSelection := s_lastFailedSelection s; s_attemptedMemberIds := s_attemptedMemberIds s;
  s_attemptFailures := s_attemptFailures s; s_executionAttemptCount := s_executionAttemptCount s |}.
Definition count_attempt (s : SyntheticRoutingSession) : SyntheticRoutingSession := {|
  s_requestedAgentAlias := s_requestedAgentAlias s; s_requestedModel := s_requestedModel s;
  s_requiredTokens := s_requiredTokens s; s_eligibility := s_eligibility s; s_current := s_current s;
  s_lastFailedSelection := s_lastFailedSelection s; s_attemptedMemberIds := s_attemptedMemberIds s;
  s_attemptFailures := s_attemptFailures s; s_executionAttemptCount := s_executionAttemptCount s + 1 |}.

Definition DEFAULT_OUTPUT_RESERVE_TOKENS : Z := 16000.

(** [begin]; the call identifier is left out. *)
Definition begin (alias : string) (model : option string) (requiredTokens promptTokens outputReserveTokens : option Z)
    (eligibility : option (DirectAgent -> bool)) : SyntheticRoutingSession := {|
  s_requestedAgentAlias := alias;
  s_requestedModel := default ""%string model;
  s_requiredTokens :=
    match requiredTokens with
    | Some n => n
    | None => Z.max 0 (default 0 promptTokens) + default DEFAULT_OUTPUT_RESERVE_TOKENS outputReserveTokens
    end;
  s_eligibility := eligibility; s_current := None; s_lastFailedSelection := None;
  s_attemptedMemberIds := []; s_attemptFailures := ∅; s_executionAttemptCount := 0 |}.

Definition fork (s : SyntheticRoutingSession) : SyntheticRoutingSession :=
  begin (s_requestedAgentAlias s) (Some (s_requestedModel s)) (Some (s_requiredTokens s)) None None (s_eligibility s).

Definition request_of (s : SyntheticRoutingSession) : Request := {|
  requestedAgentAlias := s_requestedAgentAlias s;
  requestedModel := s_requestedModel s;
  requiredTokens := s_requiredTokens s;
  isPhysicalAgentEligible := fun agent => match s_eligibility s with Some p => p agent | None => true end;
  attemptedMembers := s_attemptedMemberIds s;
  failureReason := fun id => s_attemptFailures s !! id |}.

(** [Set.prototype.add] on a set in insertion order. *)
Definition set_add (x : string) (l : list string) : list string :=
  if bool_decide (x ∈ l) then l else l ++ [x].

Abbreviation cursors := (gmap string Z).

Definition session_select (env : PoolEnv) (s : SyntheticRoutingSession) (c : cursors)
    : (SelectError + SyntheticPhysicalSelection) * SyntheticRoutingSession * cursors :=
  match s_current s with
  | Some sel => (inr sel, s, c)
  | None =>
      match select getModelHardLimit supportedModel locale_le env (request_of s) c with
      | (inl err, c) => (inl err, s, c)
      | (inr sel, c) =>
          let s := set_current (Some sel) s in
          (inr sel, match memberId sel with
                    | Some id => set_attempted (set_add id (s_attemptedMemberIds s)) s
                    | None => s
                    end, c)
      end
  end.

Definition failCurrent (why : string) (s : SyntheticRoutingSession) : SyntheticRoutingSession := {|
  s_requestedAgentAlias := s_requestedAgentAlias s; s_requestedModel := s_requestedModel s;
  s_requiredTokens := s_requiredTokens s; s_eligibility := s_eligibility s; s_current := None;
  s_lastFailedSelection :=
    match s_current s with Some sel => if synthetic sel then Some sel else s_lastFailedSelection s
                         | None => s_lastFailedSelection s end;
  s_attemptedMemberIds := s_attemptedMemberIds s;
  s_attemptFailures :=
    match s_current s ≫= memberId with Some id => <[id := why]> (s_attemptFailures s)
                                     | None => s_attemptFailures s end;
  s_executionAttemptCount := s_executionAttemptCount s |}.

(** Finalize the requirement before the first invocation; a pinned member that no
    longer fits is given back. *)
Definition constrain (n : Z) (s : SyntheticRoutingSession) : SyntheticRoutingSession :=
  if 0 <? s_executionAttemptCount s then s
  else
    let s := set_tokens (Z.max (s_requiredTokens s) n) s in
    match s_current s with
    | None => s
    | Some sel =>
        match memberId sel with
        | None => s
        | Some id =>
            if s_requiredTokens s <=? getModelHardLimit (physicalAgentAlias sel) (physicalModel sel) then s
            else set_current None (set_attempted (filter (fun x => x <> id) (s_attemptedMemberIds s)) s)
        end
    end.

(** ** Physical invocations *)

(** What a physical agent was asked to do. *)
Record Attempt := MkAttempt {
  a_selection : SyntheticPhysicalSelection;
  a_worktree : option string;
  a_isRetry : bool;
  a_retryReason : option string;
}.

Inductive Outcome := Succeeded | ReturnedFailure (f : Failure) | Threw (f : Failure).

Inductive CallResult :=
  | CallSucceeded | CallReturned (f : Failure) | CallThrew (f : Failure)
  | PreparationFailed (message : string) | NoSelection (err : SelectError) | OutOfFuel.

Record TaskOptions := {
  t_required : Z;
  t_worktreePath : string;
  t_isRetry : bool;
  t_retryReason : option string;
}.

(** The environment of the [n]-th attempt. *)
Record Stream := {
  env_at : nat -> PoolEnv;
  prepare_at : option (nat -> result string);
  outcome_at : nat -> Outcome;
}.

(** [[...ids][ids.size - 2]] *)
Definition previous_id (l : list string) : option string :=
  match length l with S (S n) => l !! n | _ => None end.

(** [this.failureReason(previous || '') || options.retryReason] for a later attempt. *)
Definition retry_reason (o : TaskOptions) (s : SyntheticRoutingSession) (sel : SyntheticPhysicalSelection) : option string :=
  if 1 <? attemptNumber sel then
    match truthy_string (s_attemptFailures s !! default ""%string (previous_id (s_attemptedMemberIds s))) with
    | Some why => Some why
    | None => t_retryReason o
    end
  else t_retryReason o.

(** What happens after an attempt: stop with a result, or fail over. *)
Definition settle (sel : SyntheticPhysicalSelection) (out : Outcome) (s : SyntheticRoutingSession)
    : CallResult + SyntheticRoutingSession :=
  match out with
  | Succeeded => inl CallSucceeded
  | ReturnedFailure f =>
      if isNonRetryableSyntheticFailure f || negb (synthetic sel) then inl (CallReturned f)
      else inr (failCurrent (f_message f) s)
  | Threw f =>
      if isNonRetryableSyntheticFailure f || negb (synthetic sel) then inl (CallThrew f)
      else inr (failCurrent (f_message f) s)
  end.

(** The [for (;;)] loop of [executeTask], from attempt [n] on, with the attempts made. *)
Fixpoint execute_loop (fuel n : nat) (w : Stream) (o : TaskOptions) (s : SyntheticRoutingSession) (c : cursors)
    : CallResult * list Attempt * SyntheticRoutingSession * cursors :=
  match fuel with
  | O => (OutOfFuel, [], s, c)
  | S fuel =>
      let '(selected, s, c) := session_select (env_at w n) s c in
      match selected with
      | inl err => (NoSelection err, [], s, c)
      | inr sel =>
          let s := count_attempt s in
          match match prepare_at w with Some f => f n | None => Ok (t_worktreePath o) end with
          | Throw e => (PreparationFailed e, [], s, c)
          | Ok worktree =>
              let attempt := MkAttempt sel (Some worktree) ((1 <? attemptNumber sel) || t_isRetry o) (retry_reason o s sel) in
              match settle sel (outcome_at w n) s with
              | inl r => (r, [attempt], s, c)
              | inr s =>
                  let '(r, rest, s, c) := execute_loop fuel (S n) w o s c in (r, attempt :: rest, s, c)
              end
          end
      end
  end.

Definition executeTask (fuel : nat) (w : Stream) (o : TaskOptions) (s : SyntheticRoutingSession) (c : cursors)
    : CallResult * list Attempt * SyntheticRoutingSession * cursors :=
  execute_loop fuel 0 w o (constrain (t_required o) s) c.

(** The loop of [analyze]: no workspace and no retry information. *)
Fixpoint analyze_loop (fuel n : nat) (w : Stream) (s : SyntheticRoutingSession) (c : cursors)
    : CallResult * list Attempt * SyntheticRoutingSession * cursors :=
  match fuel with
  | O => (OutOfFuel, [], s, c)
  | S fuel =>
      let '(selected, s, c) := session_select (env_at w n) s c in
      match selected with
      | inl err => (NoSelection err, [], s, c)
      | inr sel =>
          let s := count_attempt s in
          let attempt := MkAttempt sel None false None in
          match settle sel (outcome_at w n) s with
          | inl r => (r, [attempt], s, c)
          | inr s =>
              let '(r, rest, s, c) := analyze_loop fuel (S n) w s c in (r, attempt :: rest, s, c)
          end
      end
  end.

Definition analyze (fuel : nat) (w : Stream) (promptTokens : Z) (s : SyntheticRoutingSession) (c : cursors)
    : CallResult * list Attempt * SyntheticRoutingSession * cursors :=
  analyze_loop fuel 0 w (constrain (promptTokens + DEFAULT_OUTPUT_RESERVE_TOKENS) s) c.

(** ** The failover loop *)

(** The member that is pinned was recorded last. *)
Definition session_ok (s : SyntheticRoutingSession) : Prop :=
  forall sel, s_current s = Some sel ->
  match memberId sel with
  | Some id => synthetic sel = true /\ exists before, s_attemptedMemberIds s = before ++ [id]
                 /\ (id ∉ before) /\ attemptNumber sel = Z.of_nat (length before) + 1
  | None => synthetic sel = false
  end.

(** Every pool of the stream takes its members from [l]. *)
Definition members_in (l : list string) (w : Stream) : Prop :=
  forall n a m x, a ∈ configs (env_at w n) -> m ∈ sa_models a -> x ∈ sm_members m -> m_id x ∈ l.

Lemma pool_in env req a m : pool env req a m -> a ∈ configs env /\ m ∈ sa_models a.
Proof.
  intros (H & _). unfold loadSyntheticModel in H. destruct (find _ (configs env)) as [a'|] eqn:Ea; [|done].
  apply find_some in Ea as [Ha _]. simplify_eq/=. destruct (find _ (sa_models a)) as [m'|] eqn:Em; [|done].
  apply find_some in Em as [Hm _]. simplify_eq. split; by apply list_elem_of_In.
Qed.

Lemma select_fresh env s c sel s' c' :
  s_current s = None ->
  session_select env s c = (inr sel, s', c') ->
  s_current s' = Some sel /\ s_attemptFailures s' = s_attemptFailures s
  /\ ((synthetic sel = false /\ memberId sel = None /\ s_attemptedMemberIds s' = s_attemptedMemberIds s)
      \/ exists id a m x, synthetic sel = true /\ memberId sel = Some id /\ (id ∉ s_attemptedMemberIds s)
         /\ s_attemptedMemberIds s' = s_attemptedMemberIds s ++ [id]
         /\ attemptNumber sel = Z.of_nat (length (s_attemptedMemberIds s)) + 1
         /\ a ∈ configs env /\ m ∈ sa_models a /\ x ∈ sm_members m /\ m_id x = id).
Proof.
  intros Hc. unfold session_select. rewrite Hc.
  destruct (select _ _ _ env (request_of s) c) as [[err|sel'] c1] eqn:Es; [done|]. intros H. simplify_eq.
  apply select_inv in Es as [[Hsyn Hid]|(a & m & Hpool & Hsel)].
  - rewrite Hid. split_and!; [done..|]. left. done.
  - apply select_member_inv in Hsel as (x & e & _ & _ & Hx & Hi & He & ->).
    destruct (pool_in _ _ _ _ Hpool) as [Ha Hm].
    assert (Hu : exists h, inspect getModelHardLimit supportedModel env (request_of s) x = inr (Eligible x (e_agent e) h)).
    { exists (headroom e). rewrite Hi. by rewrite <- He. }
    apply inspect_iff in Hu as (_ & Hfresh & _). rewrite He. simpl in *.
    split_and!; [done..|]. right. exists (m_id x), a, m, x. split_and!; try done.
    unfold set_add. by rewrite bool_decide_false.
Qed.

Definition pins (s : SyntheticRoutingSession) : nat := match s_current s with Some _ => 1 | None => 0 end.

(** How many more members the loop can try. *)
Definition room (l : list string) (s : SyntheticRoutingSession) : nat :=
  length l - length (s_attemptedMemberIds s) + pins s.

Definition session_in (l : list string) (s : SyntheticRoutingSession) : Prop :=
  session_ok s /\ NoDup (s_attemptedMemberIds s) /\ (forall id, id ∈ s_attemptedMemberIds s -> id ∈ l).

Lemma attempted_le l s : session_in l s -> (length (s_attemptedMemberIds s) <= length l)%nat.
Proof. intros (_ & Hnd & Hin). by apply submseteq_length, NoDup_submseteq. Qed.

Lemma select_step l w n s c sel s1 c1 :
  session_in l s -> members_in l w -> session_select (env_at w n) s c = (inr sel, s1, c1) ->
  s_current s1 = Some sel /\ session_in l s1 /\ s_attemptFailures s1 = s_attemptFailures s
  /\ (synthetic sel = true -> (length l - length (s_attemptedMemberIds s1) + 1 <= room l s)%nat)
  /\ (forall id, memberId sel = Some id -> s_current s = None -> id ∉ s_attemptedMemberIds s).
Proof.
  intros (Hok & Hnd & Hin) Hl Hsel. destruct (s_current s) as [sel0|] eqn:Hc.
  - unfold session_select in Hsel. rewrite Hc in Hsel. simplify_eq.
    unfold room, pins. rewrite Hc. split_and!; try done.
  - destruct (select_fresh _ _ _ _ _ _ Hc Hsel) as (Hcur & Hf & [(Hsyn & Hid & Hatt)|(id & a & m & x & Hsyn & Hid & Hfresh & Hatt & Hnum & Ha & Hm & Hx & Hxid)]).
    + split_and!; [done| |done|congruence|congruence]. split_and!; [|by rewrite Hatt..].
      intros sel' Hsel'. simplify_eq. by rewrite Hid.
    + assert (Hin1 : session_in l s1).
      { split_and!.
        - intros sel' Hsel'. simplify_eq. rewrite Hid. split; [done|]. exists (s_attemptedMemberIds s).
          split_and!; done.
        - rewrite Hatt. apply NoDup_app. split_and!; [done| |apply NoDup_singleton].
          intros y Hy Hy'. apply list_elem_of_singleton in Hy' as ->. done.
        - rewrite Hatt. intros y [Hy|Hy%list_elem_of_singleton]%elem_of_app; [auto|]. subst. by eapply Hl. }
      split_and!; [done|done|done| |intros id' ?; by simplify_eq].
      intros _. pose proof (attempted_le _ _ Hin1) as Hle. rewrite Hatt, length_app in Hle |- *. simpl in *.
      unfold room, pins. rewrite Hc. lia.
Qed.

Lemma failed_session l why s sel :
  session_in l s -> s_current s = Some sel ->
  session_in l (failCurrent why (count_attempt s)) /\ s_current (failCurrent why (count_attempt s)) = None
  /\ room l (failCurrent why (count_attempt s)) = (length l - length (s_attemptedMemberIds s))%nat.
Proof.
  intros (Hok & Hnd & Hin) Hc. split_and!; [split_and!; [|done..]|done|].
  - intros sel' Hsel'. done.
  - unfold room, pins. simpl. lia.
Qed.

Lemma settle_inr sel out s s' :
  settle sel out s = inr s' -> synthetic sel = true
  /\ exists f, (out = ReturnedFailure f \/ out = Threw f) /\ isNonRetryableSyntheticFailure f = false
     /\ s' = failCurrent (f_message f) s.
Proof.
  unfold settle. destruct out as [|f|f]; [done|..]; (case_bool; [done|]); apply orb_false_elim in E as [E1 E2];
    intros H; simplify_eq; apply negb_false_iff in E2; split; [done|..]; eauto 10.
Qed.

Abbreviation attempt_ids att := (omap (fun a => memberId (a_selection a)) att).

Lemma execute_loop_bounded l w o fuel : forall n s c,
  session_in l s -> members_in l w -> (room l s < fuel)%nat ->
  let '(r, att, s', c') := execute_loop fuel n w o s c in
  r <> OutOfFuel /\ NoDup (attempt_ids att)
  /\ (forall id, id ∈ attempt_ids att -> id ∈ l)
  /\ (forall i a, att !! i = Some a -> memberId (a_selection a) = None -> S i = length att)
  /\ (s_current s = None -> forall id, id ∈ attempt_ids att -> id ∉ s_attemptedMemberIds s).
Proof.
  assert (Hnone : forall s (r : CallResult), r <> OutOfFuel -> r <> OutOfFuel /\ NoDup (attempt_ids []) /\ (forall id, id ∈ attempt_ids [] -> id ∈ l)
    /\ (forall i (a : Attempt), [] !! i = Some a -> memberId (a_selection a) = None -> S i = 0%nat)
    /\ (s_current s = None -> forall id, id ∈ attempt_ids [] -> id ∉ s_attemptedMemberIds s)).
  { intros s r Hr. split_and!; [done|constructor|by intros id ?%elem_of_nil|done|by intros _ id ?%elem_of_nil]. }
  induction fuel as [|fuel IH]; intros n s c Hin Hl Hfuel; [lia|]. cbn [execute_loop].
  destruct (session_select (env_at w n) s c) as [[[err|sel] s1] c1] eqn:Es; [by apply Hnone|].
  destruct (select_step _ _ _ _ _ _ _ _ Hin Hl Es) as (Hcur & Hin1 & _ & Hroom & Hfresh).
  destruct (match prepare_at w with Some f => f n | None => Ok (t_worktreePath o) end) as [wt|e]; [|by apply Hnone].
  assert (Hsel : forall id, memberId sel = Some id -> id ∈ l).
  { intros id Hid. destruct Hin1 as (Hok1 & _ & Hl1). specialize (Hok1 sel Hcur). rewrite Hid in Hok1.
    destruct Hok1 as (_ & before & Hatt & _). apply Hl1. rewrite Hatt. apply elem_of_app. right. by left. }
  set (attempt := MkAttempt _ _ _ _).
  destruct (settle sel (outcome_at w n) (count_attempt s1)) as [r|s2] eqn:Eset.
  { split_and!; [unfold settle in Eset; repeat case_match; by simplify_eq|..]; simpl.
    - destruct (memberId sel); [apply NoDup_singleton|constructor].
    - intros id. destruct (memberId sel) as [id'|]; [|by intros H%elem_of_nil]. intros ->%list_elem_of_singleton. by apply Hsel.
    - by intros [|[|]] a Ha.
    - intros Hc id. destruct (memberId sel) as [id'|] eqn:Hid; [|by intros H%elem_of_nil].
      intros ->%list_elem_of_singleton. by apply Hfresh. }
  apply settle_inr in Eset as (Hsyn & f & _ & _ & ->). specialize (Hroom Hsyn).
  destruct (failed_session l (f_message f) s1 sel Hin1 Hcur) as (Hin2 & Hc2 & Hr2).
  specialize (IH (S n) _ c1 Hin2 Hl). rewrite Hr2 in IH.
  destruct (execute_loop fuel (S n) w o _ c1) as [[[r rest] s3] c3]. destruct IH as (H1 & H2 & H3 & H5 & H4); [lia|].
  specialize (H4 Hc2). destruct Hin1 as (Hok1 & _). specialize (Hok1 sel Hcur).
  destruct (memberId sel) as [id|] eqn:Hid; [|congruence]. destruct Hok1 as (_ & before & Hatt & _).
  simpl in H4. rewrite Hatt in H4. simpl. rewrite Hid. split_and!; [done|..].
  - apply NoDup_cons. split; [|done]. intros Hin'. apply (H4 id Hin'). apply elem_of_app. right. by left.
  - intros id' [->|Hid']%elem_of_cons; [by apply Hsel|by apply H3].
  - intros [|i] a Ha Hn; [injection Ha as <-; simpl in Hn; congruence|]. f_equal. by eapply H5.
  - intros Hc id' [->|Hid']%elem_of_cons; [by apply Hfresh|]. intros Hbad. apply (H4 id' Hid').
    destruct (select_fresh _ _ _ _ _ _ Hc Es) as (_ & _ & [(Hs & _)|(id2 & _ & _ & _ & _ & _ & _ & Ha & _)]); [congruence|].
    rewrite <- Hatt, Ha. apply elem_of_app. by left.
Qed.

(** Attempts with a member are as many as their distinct members; one more has none. *)
Lemma attempts_counted (att : list Attempt) :
  (forall i a, att !! i = Some a -> memberId (a_selection a) = None -> S i = length att) -> (length att <= S (length (attempt_ids att)))%nat.
Proof.
  induction att as [|a att IH]; intros H; [simpl; lia|]. simpl. destruct (memberId (a_selection a)) as [id|] eqn:E.
  - simpl. apply le_n_S, IH. intros i b Hb Hn. specialize (H (S i) b Hb Hn). by injection H.
  - specialize (H 0%nat a eq_refl E). simpl in H. lia.
Qed.

Lemma constrain_in l n s : session_in l s -> session_in l (constrain n s).
Proof.
  intros (Hok & Hnd & Hin). unfold constrain. case_bool; [done|]. simpl.
  destruct (s_current s) as [sel|] eqn:Hc; [|by split_and!; [intros ? ?; simplify_eq/=; congruence|..]].
  destruct (memberId sel) as [id|] eqn:Hid; [|split_and!; [|done|done]; intros sel' Hs; simpl in Hs; by apply Hok].
  case_bool; [split_and!; [|done|done]; intros sel' Hs; simpl in Hs; by apply Hok|].
  split_and!; simpl; [done|by apply NoDup_filter|]. intros x [_ Hx]%list_elem_of_filter. auto.
Qed.

(** C34. Failover ends and never repeats a member: when every pool takes its members
    from a finite list, a task makes at most one attempt per member and one more, tries no
    member twice and only members of that list, and the loop returns, with fuel for two
    more rounds than there are members. The one more is an attempt on a direct agent, which
    has no member: it is the last, so a direct agent is never retried. *)
Theorem failover_terminates l w o s c fuel :
  session_in l s -> members_in l w -> (S (length l) < fuel)%nat ->
  let '(r, att, s', c') := executeTask fuel w o s c in
  r <> OutOfFuel /\ (length att <= S (length l))%nat /\ NoDup (attempt_ids att)
  /\ (forall id, id ∈ attempt_ids att -> id ∈ l /\ (s_current s = None -> id ∉ s_attemptedMemberIds s))
  /\ (forall i a, att !! i = Some a -> memberId (a_selection a) = None -> S i = length att).
Proof.
  intros Hin Hl Hfuel. unfold executeTask. pose proof (constrain_in l (t_required o) s Hin) as Hin'.
  assert (Hroom : (room l (constrain (t_required o) s) <= S (length l))%nat).
  { unfold room, pins. destruct (s_current _); lia. }
  pose proof (execute_loop_bounded l w o fuel 0 _ c Hin' Hl) as H.
  destruct (execute_loop fuel 0 w o _ c) as [[[r att] s'] c']. destruct H as (H1 & H2 & H3 & H5 & H4); [lia|].
  split_and!; [done| |done| |done].
  - etrans; [by apply attempts_counted|]. apply le_n_S. by apply submseteq_length, NoDup_submseteq.
  - intros id Hid. split; [by apply H3|]. intros Hc. unfold constrain in H4.
    destruct (0 <? s_executionAttemptCount s); simpl in H4; rewrite Hc in H4; by apply H4.
Qed.

(** What the attempt after a failure of member [id] is told. *)
Lemma first_attempt_informed fuel n w o s c before id why r att s' c' a :
  s_current s = None -> s_attemptedMemberIds s = before ++ [id] -> s_attemptFailures s !! id = Some why ->
  execute_loop fuel n w o s c = (r, att, s', c') -> att !! 0%nat = Some a ->
  synthetic (a_selection a) = true -> why <> ""%string ->
  a_isRetry a = true /\ a_retryReason a = Some why.
Proof.
  intros Hc Hatt Hwhy Hloop Ha Hsyn Hne. destruct fuel as [|fuel]; [by simplify_eq/=|]. cbn [execute_loop] in Hloop.
  destruct (session_select (env_at w n) s c) as [[[err|sel] s1] c1] eqn:Es; [by simplify_eq/=|].
  destruct (match prepare_at w with Some f => f n | None => Ok (t_worktreePath o) end) as [wt|e]; [|by simplify_eq/=].
  assert (Hatt0 : a = MkAttempt sel (Some wt) ((1 <? attemptNumber sel) || t_isRetry o) (retry_reason o (count_attempt s1) sel)).
  { destruct (settle _ _ _); [by simplify_eq/=|]. destruct (execute_loop _ _ _ _ _ _) as [[[? ?] ?] ?]. by simplify_eq/=. }
  subst a. simpl in *.
  destruct (select_fresh _ _ _ _ _ _ Hc Es) as (_ & Hf & [(Hs & _)|(id' & _ & _ & _ & _ & _ & _ & Hatt' & Hnum & _)]); [congruence|].
  rewrite Hatt, length_app in Hnum. simpl in Hnum. unfold retry_reason.
  assert (Hlt : (1 <? attemptNumber sel) = true) by (apply Z.ltb_lt; lia). rewrite Hlt. split; [done|].
  simpl. rewrite Hatt', Hatt, Hf. unfold previous_id. rewrite !length_app. simpl.
  replace (length before + 1 + 1)%nat with (S (S (length before))) by lia. cbn [default].
  rewrite <- app_assoc, lookup_app_r, Nat.sub_diag by lia. simpl. rewrite Hwhy. by destruct why.
Qed.

Lemma execute_loop_failover w o fuel : forall n s c r att s' c' i a,
  session_ok s -> execute_loop fuel n w o s c = (r, att, s', c') -> att !! S i = Some a ->
  exists f, (outcome_at w (n + i) = ReturnedFailure f \/ outcome_at w (n + i) = Threw f)
    /\ isNonRetryableSyntheticFailure f = false
    /\ (synthetic (a_selection a) = true -> f_message f <> ""%string ->
        a_isRetry a = true /\ a_retryReason a = Some (f_message f)).
Proof.
  induction fuel as [|fuel IH]; intros n s c r att s' c' i a Hok Hloop Ha; [by simplify_eq/=|].
  cbn [execute_loop] in Hloop.
  destruct (session_select (env_at w n) s c) as [[[err|sel] s1] c1] eqn:Es; [by simplify_eq/=|].
  destruct (match prepare_at w with Some f => f n | None => Ok (t_worktreePath o) end) as [wt|e]; [|by simplify_eq/=].
  destruct (settle sel (outcome_at w n) (count_attempt s1)) as [r1|s2] eqn:Eset; [by simplify_eq/=|].
  destruct (execute_loop fuel (S n) w o s2 c1) as [[[r2 rest] s3] c3] eqn:Eloop. simplify_eq/=.
  apply settle_inr in Eset as (Hsyn & f & Hf & Hret & ->).
  destruct i as [|i].
  - exists f. rewrite Nat.add_0_r. split_and!; [done..|]. intros Hsa Hne.
    assert (Hpin : exists id before, memberId sel = Some id /\ s_attemptedMemberIds s1 = before ++ [id] /\ s_current s1 = Some sel).
    { destruct (s_current s) as [sel0|] eqn:Hc.
      - unfold session_select in Es. rewrite Hc in Es. simplify_eq. specialize (Hok _ Hc).
        destruct (memberId sel) as [id|]; [|congruence]. destruct Hok as (_ & before & Hb & _). by exists id, before.
      - destruct (select_fresh _ _ _ _ _ _ Hc Es) as (Hcur & _ & [(Hs & _)|(id & _ & _ & _ & _ & Hid & _ & Hb & _)]); [congruence|].
        by exists id, (s_attemptedMemberIds s). }
    destruct Hpin as (id & before & Hid & Hb & Hcur).
    refine (first_attempt_informed _ _ _ _ _ _ before id _ _ _ _ _ _ _ _ _ Eloop Ha Hsa Hne); [done..|].
    simpl. rewrite Hcur. simpl. rewrite Hid. apply lookup_insert_eq.
  - replace (n + S i)%nat with (S n + i)%nat by lia. eapply IH; [|exact Eloop|done]. intros sel' Hs. done.
Qed.

(** Failover is only for retryable failures, and the next member is told why:
    every attempt after the first follows an attempt whose failure may be retried,
    and is marked as a retry with that failure's message. *)
Theorem failover_is_informed w o s c fuel r att s' c' i a :
  session_ok s -> s_current s = None -> executeTask fuel w o s c = (r, att, s', c') -> att !! S i = Some a ->
  exists f, (outcome_at w i = ReturnedFailure f \/ outcome_at w i = Threw f)
    /\ isNonRetryableSyntheticFailure f = false
    /\ (synthetic (a_selection a) = true -> f_message f <> ""%string ->
        a_isRetry a = true /\ a_retryReason a = Some (f_message f)).
Proof.
  unfold executeTask. intros Hok Hc Hloop Ha. eapply (execute_loop_failover w o fuel 0); [|exact Hloop|done].
  intros sel Hsel. unfold constrain in Hsel.
  destruct (0 <? s_executionAttemptCount s); simpl in Hsel; rewrite Hc in Hsel; simpl in Hsel; congruence.
Qed.
End Session.

(** ** Concrete pools

    A pool of three members on two direct agents, and the theorems on selection and
    failover applied to it. *)

(** [code_le] is what [localeCompare] does on lower-case identifiers. *)
Lemma code_le_ok : comparison_ok code_le.
Proof. split; [apply code_le_total|apply code_le_trans]. Qed.

Definition limit (alias model : string) : Z := 100000.
Definition supports (agent : DirectAgent) (model : string) : bool := true.
Definition no_match (s : string) : bool := false.

Definition m1 : SyntheticModelMember := Member "m1" "claude" "opus" true 100 None.
Definition m2 : SyntheticModelMember :=
  Member "m2" "codex" "gpt" true 100 (Some (UsageLimits (Some 80%Q) None)).
Definition m3 : SyntheticModelMember := Member "m3" "codex" "mini" true 50 None.

Definition pool_model (strategy : SyntheticSelectionStrategy) : SyntheticModelConfig :=
  SynModel "best" true strategy [m1; m2; m3].
Definition pool_agent (strategy : SyntheticSelectionStrategy) : SyntheticAgentConfig :=
  SynAgent "a1" "team" true "best" [pool_model strategy].

Definition direct (alias : string) : option DirectAgent :=
  if bool_decide (alias = "claude"%string) then Some (Direct "claude" true "opus")
  else if bool_decide (alias = "codex"%string) then Some (Direct "codex" true "gpt") else None.

(** Codex has used [p] percent of its session. *)
Definition env (strategy : SyntheticSelectionStrategy) (p : Q) : PoolEnv := {|
  configs := [pool_agent strategy]; getDirectAgent := direct;
  getSnapshot := fun _ => Some (Snapshot (Some p) None) |}.

Definition fresh : SyntheticRoutingSession := begin "team" None None (Some 2000) None None.
Definition fresh_request : Request := request_of fresh.

Lemma env_pool strategy p : pool (env strategy p) fresh_request (pool_agent strategy) (pool_model strategy).
Proof. by split_and!. Qed.

(** With usage-based routing the member without limits has full headroom and wins. *)
Lemma selection_is_usable_and_best_witness :
  exists sel c', select limit supports code_le (env usage_based 20) fresh_request ∅ = (inr sel, c')
  /\ memberId sel = Some "m1"%string
  /\ exists x h, x ∈ sm_members (pool_model usage_based)
    /\ usable limit supports (env usage_based 20) fresh_request x (physicalAgent sel)
    /\ inspect limit supports (env usage_based 20) fresh_request x = inr (Eligible x (physicalAgent sel) h)
    /\ memberId sel = Some (m_id x) /\ physicalAgentAlias sel = m_directAgentAlias x
    /\ physicalModel sel = m_model x /\ requiredTokens_ sel = 18000 /\ synthetic sel = true
    /\ (forall y agent, y ∈ sm_members (pool_model usage_based) ->
        usable limit supports (env usage_based 20) fresh_request y agent -> m_priority y <= m_priority x)
    /\ (sm_strategy (pool_model usage_based) = usage_based ->
        forall y agent hy, y ∈ sm_members (pool_model usage_based) ->
        inspect limit supports (env usage_based 20) fresh_request y = inr (Eligible y agent hy) ->
        m_priority y = m_priority x -> (hy <= h)%Q).
Proof.
  eexists _, _. split; [vm_compute; reflexivity|]. split; [reflexivity|].
  refine (selection_is_usable_and_best limit supports code_le (env usage_based 20) fresh_request
    (pool_agent usage_based) (pool_model usage_based) ∅ _ _ code_le_ok (env_pool usage_based 20) _).
  vm_compute. reflexivity.
Defined.

(** Too many tokens for every member: the pool is exhausted. *)
Definition big_request : Request := request_of (begin "team" None (Some 200000) None None None).

Lemma pool_exhausted_iff_witness :
  fst (select limit supports code_le (env round_robin 20) big_request ∅) <> inr (Selection "" "" (Direct "" true "") "" "" None 0 0 [] true)
  /\ ((forall x agent, x ∈ [m1; m2; m3] -> ~ usable limit supports (env round_robin 20) big_request x agent) <->
   exists err, fst (select limit supports code_le (env round_robin 20) big_request ∅) = inl err)
  /\ (forall err, fst (select limit supports code_le (env round_robin 20) big_request ∅) = inl err ->
      snd (select limit supports code_le (env round_robin 20) big_request ∅) = ∅
      /\ exists ds, err = PoolExhausted "team" "best" ds
         /\ map d_memberId ds = ["m1"; "m2"; "m3"]%string /\ Forall (fun d => d_reason d <> None) ds).
Proof.
  split; [vm_compute; discriminate|].
  apply (pool_exhausted_iff limit supports code_le (env round_robin 20) big_request
    (pool_agent round_robin) (pool_model round_robin) ∅). by split_and!.
Defined.

Definition two : list EligibleMember :=
  [Eligible m1 (Direct "claude" true "opus") 1; Eligible m2 (Direct "codex" true "gpt") 1].

Lemma round_robin_fair_witness :
  rounds code_le 2 "a1:best"%string two {[ "a1:best"%string := 7 ]} ≡ₚ two
  /\ forall i, (i < 2)%nat ->
     rounds code_le 4 "a1:best"%string two {[ "a1:best"%string := 7 ]} !! i
     = rounds code_le 4 "a1:best"%string two {[ "a1:best"%string := 7 ]} !! (i + 2)%nat.
Proof. by apply (round_robin_fair code_le "a1:best"%string two). Defined.

Definition refs : list SyntheticDirectAgentReference :=
  [DirectRef "d1" "claude" true ["opus"]; DirectRef "d2" "codex" true ["gpt"; "mini"]]%string.

Lemma refs_direct alias d :
  directByAlias refs alias = Some d -> exists agent, direct alias = Some agent /\ da_enabled agent = ref_enabled d.
Proof.
  unfold directByAlias, refs, direct. simpl. intros H.
  destruct (bool_decide_reflect ("codex"%string = alias)) as [<-|Hc]; simplify_eq.
  - eexists. by rewrite bool_decide_false, bool_decide_true.
  - destruct (bool_decide_reflect ("claude"%string = alias)) as [<-|Hd]; simplify_eq.
    eexists. by rewrite bool_decide_true.
Qed.

Lemma executable_default_is_served_witness :
  validateExecutableSyntheticDefault "team" [pool_agent round_robin] refs true = None
  /\ exists sel, fst (select (fun _ _ => 1000000) supports code_le
        {| configs := [pool_agent round_robin]; getDirectAgent := direct;
           getSnapshot := fun _ => Some (Snapshot (Some (20 # 1)) None) |} fresh_request ∅) = inr sel
     /\ synthetic sel = true.
Proof.
  split; [vm_compute; reflexivity|].
  apply (executable_default_is_served (fun _ _ => 1000000) supports code_le
    {| configs := [pool_agent round_robin]; getDirectAgent := direct;
       getSnapshot := fun _ => Some (Snapshot (Some (20 # 1)) None) |} fresh_request refs ∅); try done.
  - intros alias d Hd. destruct (refs_direct alias d Hd) as (agent & H1 & H2). by exists agent.
  - intros a m x [->|Ha%elem_of_nil]%elem_of_cons; [|done].
    intros [->|Hm%elem_of_nil]%elem_of_cons; [|done]. intros Hx. split; [vm_compute; discriminate|].
    intros limits Hl. eexists. split; [done|].
    assert (limits = UsageLimits (Some 80%Q) None) as ->.
    { simpl in Hx. rewrite !elem_of_cons, elem_of_nil in Hx. destruct Hx as [->|[->|[->|[]]]]; by simplify_eq/=. }
    split; intros l Hlim; simplify_eq/=. by eexists.
Defined.

(** Claude times out, Codex answers. *)
Definition timeout_failure : Failure := MkFailure ["AbortError"%string] [] None "timed out" "timed out".
Definition stream : Stream := {|
  env_at := fun _ => env usage_based 20; prepare_at := Some (fun n => Ok "/work"%string);
  outcome_at := fun n => match n with O => Threw timeout_failure | _ => Succeeded end |}.
Definition options : TaskOptions := {|
  t_required := 20000; t_worktreePath := "/repo"; t_isRetry := false; t_retryReason := None |}.
Definition task_run := executeTask limit supports code_le no_match no_match 5 stream options fresh ∅.

Lemma fresh_in : session_in ["m1"; "m2"; "m3"]%string fresh.
Proof. split_and!; [by intros sel|constructor|by intros id H%elem_of_nil]. Qed.

Lemma stream_members : members_in ["m1"; "m2"; "m3"]%string stream.
Proof.
  intros n a m x [->|Ha%elem_of_nil]%elem_of_cons; [|done].
  intros [->|Hm%elem_of_nil]%elem_of_cons; [|done]. simpl. rewrite !elem_of_cons, elem_of_nil.
  intros [->|[->|[->|[]]]]; simpl; auto.
Qed.

Lemma failover_terminates_witness :
  let '(r, att, s', c') := task_run in
  r <> OutOfFuel /\ (length att <= 4)%nat /\ NoDup (omap (fun a => memberId (a_selection a)) att)
  /\ (forall id, id ∈ omap (fun a => memberId (a_selection a)) att -> id ∈ ["m1"; "m2"; "m3"]%string /\ (s_current fresh = None -> id ∉ ([] : list string)))
  /\ (forall i a, att !! i = Some a -> memberId (a_selection a) = None -> S i = length att).
Proof.
  apply (failover_terminates limit supports code_le no_match no_match ["m1"; "m2"; "m3"]%string stream options
    fresh ∅ 5 fresh_in stream_members). simpl. lia.
Defined.

Lemma failover_is_informed_witness :
  exists r att s' c' a, task_run = (r, att, s', c') /\ att !! 1%nat = Some a
  /\ exists f, (outcome_at stream 0 = ReturnedFailure f \/ outcome_at stream 0 = Threw f)
    /\ isNonRetryableSyntheticFailure no_match no_match f = false
    /\ (synthetic (a_selection a) = true -> f_message f <> ""%string ->
        a_isRetry a = true /\ a_retryReason a = Some (f_message f)).
Proof.
  eexists _, _, _, _, _. split; [vm_compute; reflexivity|]. split; [reflexivity|].
  refine (failover_is_informed limit supports code_le no_match no_match stream options fresh ∅ 5 _ _ _ _ 0%nat _
    (proj1 fresh_in) eq_refl _ _); [vm_compute; reflexivity|reflexivity].
Defined.
