(* ===== verification/Goals.v ===== *)
(** * Goals: rows, transactions and the blockers a provider raises

    The tables of packages/core/src/db/migrations/*goals*.js, the GoalRow of
    src/jobs/goalAttemptState.ts, and packages/core/src/goals/goalBlockerStore.ts, over a
    database whose transactions are atomic and may be refused, or land without their
    answer arriving. Columns no modelled decision reads (titles, attachments, artifact
    lists, notification stamps) are left out; instants are milliseconds, and a text without a zone that [new Date]
    parses is read in the local zone ([local_reading]). [outside] is what
    Docker, GitHub, git, the task records and the agent answer next: any other step may
    change it. The queue is BullMQ's: adding a job under an identifier it still holds,
    finished or not, does nothing. *)

From S2P Require Import Prelude JsString Interleave.
From coqutil Require Export Datatypes.RecordSetters.
Export OCamlLikeNotations.

Open Scope string_scope.
Open Scope Z_scope.

(** ** Goals and their inputs, checkpoints and blockers *)

Inductive DesiredState := running | paused | cancelled.
#[export] Instance DesiredState_eq_dec : EqDecision DesiredState.
Proof. solve_decision. Defined.
Inductive ResultState := r_completed | r_failed | r_cancelled.
#[export] Instance ResultState_eq_dec : EqDecision ResultState.
Proof. solve_decision. Defined.
Inductive LaunchStrategy := direct | orchestrate.
#[export] Instance LaunchStrategy_eq_dec : EqDecision LaunchStrategy.
Proof. solve_decision. Defined.

Record GoalRow := Goal {
  goal_id : string;
  owner_id : string;
  repository : string;
  launch_strategy : LaunchStrategy;
  initial_prompt : string;
  base_branch : option string;
  branch_name : option string;
  worktree_path : option string;
  agent_type : string;
  requested_model : string;
  desired_state : DesiredState;
  result_state : option ResultState;
  current_task_id : string;
  session_id : option string;
  conversation_id : option string;
  run_generation : Z;
  run_claim : option string;
  claimed_at : option Z;
  attempt_heartbeat_at : option Z;
  active_turn_id : option string;
  pause_confirmed_at : option Z;
  resume_requested : bool;
  continue_requested : bool;
  started_at : option Z;
  paused_at : option Z;
  paused_ms : Z;
  completed_at : option Z;
  control_generation : Z;
  control_ack_generation : Z;
  task_reconciled_at : option Z;
  failure_reason : option string;
  effective_model : option string;
  final_pr_number : option Z;
  final_pr_url : option string;
  checkpoint_error : option string;
  checkpoint_count : Z;
  last_checkpoint_commit_sha : option string;
  create_idempotency_key : string;
  create_idempotency_operation : string;
  create_payload_hash : string;
}.
#[export] Instance GoalRow_eq_dec : EqDecision GoalRow.
Proof. solve_decision. Defined.

Inductive InputState := pending | delivered | undeliverable | superseded.
#[export] Instance InputState_eq_dec : EqDecision InputState.
Proof. solve_decision. Defined.

(** Rows of [goal_inputs], in the order of their [sequence]. *)
Record GoalInput := Input {
  sequence : Z;
  input_id : string;
  in_goal : string;
  in_owner : string;
  idempotency_key : string;
  operation : string;
  payload_hash : string;
  kind : string;
  message : string;
  in_state : InputState;
  delivered_generation : option Z;
  delivered_claim : option string;
  delivered_turn_id : option string;
  delivery_error : option string;
}.
#[export] Instance GoalInput_eq_dec : EqDecision GoalInput.
Proof. solve_decision. Defined.

Inductive CheckpointState := c_pending | c_processing | c_completed | c_skipped | c_rejected | c_failed.
#[export] Instance CheckpointState_eq_dec : EqDecision CheckpointState.
Proof. solve_decision. Defined.

Record GoalCheckpoint := Checkpoint {
  checkpoint_id : string;
  cp_goal : string;
  cp_owner : string;
  cp_key : string;
  cp_operation : string;
  cp_hash : string;
  cp_kind : string;
  cp_state : CheckpointState;
  requested_generation : Z;
  requested_claim : option string;
  commit_sha : option string;
  cp_error : option string;
}.
#[export] Instance GoalCheckpoint_eq_dec : EqDecision GoalCheckpoint.
Proof. solve_decision. Defined.

Inductive BlockerStatus := b_open | b_resolved | b_superseded.
#[export] Instance BlockerStatus_eq_dec : EqDecision BlockerStatus.
Proof. solve_decision. Defined.

Record GoalBlockerRow := Blocker {
  blocker_id : string;
  b_goal : string;
  b_generation : Z;
  b_claim : string;
  b_session : option string;
  b_turn : option string;
  category : string;
  source : string;
  request_key : string;
  summary : string;
  response_actions : list string;
  input_boundary : option Z;
  status : BlockerStatus;
  resolution : option string;
  first_observed_at : Z;
  last_observed_at : Z;
}.
#[export] Instance GoalBlockerRow_eq_dec : EqDecision GoalBlockerRow.
Proof. solve_decision. Defined.

(** ** Jobs *)

Record GoalJobData := Job {
  goalId : string;
  taskId : string;
  repoOwner : option string;
  repoName : option string;
  generation : Z;
  claimId : string;
  recovery : bool;
}.
#[export] Instance GoalJobData_eq_dec : EqDecision GoalJobData.
Proof. solve_decision. Defined.

Definition goalJobId (goalId : string) (generation : Z) : string := "goal-" ++ goalId ++ "-" ++ show generation.
Definition goalAttemptLabel (generation : Z) (claimId : string) : string := show generation ++ ":" ++ claimId.
(** [const [repoOwner, repoName] = repository.split('/')] *)
Definition repo_parts (repository : string) : option string * option string :=
  let parts := split_char (char 47) repository in (parts !! 0%nat, parts !! 1%nat).
Definition job_of (goal : GoalRow) (generation : Z) (claimId : string) (recovery : bool) : GoalJobData :=
  let '(repoOwner, repoName) := repo_parts (repository goal) in
  Job (goal_id goal) (current_task_id goal) repoOwner repoName generation claimId recovery.

(** ** What the outside world answers *)

Inductive database_answer := works | refuses | loses_answer.

Record StopTaskExecutionResult := Stop {
  containerStopped : bool;
  notRunning : bool;
  notFound : bool;
  abortSignalled : bool;
  removedQueuedJobs : Z;
}.
Record GoalPullRequestState := Pull { pr_open : bool; merged : bool; draft : bool }.
Record PullRequestInfo := PullInfo { pr_number : Z; pr_url : string }.

Record Outside := Answers {
  database : database_answer;
  jobs : database_answer;
  container_live : string -> string -> bool;
  container_stopped : string -> string -> bool;
  stop_execution : result StopTaskExecutionResult;
  task_record : string -> result bool;
  agent_ready : result unit;
  github_token : result unit;
  directory_exists : string -> bool;
  pull_request : result (option GoalPullRequestState);
  convert_to_draft : result unit;
  published_branch : result bool;
  repository_clone : result unit;
  rebuilt_checkout : result string;
  new_checkout : result (string * string);
  checkout_cleanup : result unit;
  base_of_repository : result string;
  prepared_preview : result unit;
  commit : result (option string);
  push : result unit;
  draft_pull_request : result PullRequestInfo;
  published_preview : result unit;
  final_pull_request : result (option PullRequestInfo);
  metrics : result unit;
  pull_request_description : result unit;
  pull_request_label : result unit;
  model_supported : string -> bool;
  abort_flag : result unit;
  local_reading : Z -> Z;
}.

Record gdb := Db {
  goals : gmap string GoalRow;
  goal_inputs : list GoalInput;
  last_sequence : Z;
  goal_checkpoints : list GoalCheckpoint;
  goal_blockers : list GoalBlockerRow;
  queue : gmap string (GoalJobData * string);
  worker_abort : gset string;
  now : Z;
  drawn : nat;
  outside : Outside;
}.
Abbreviation M := (Interleave.M gdb).

Definition asks {A} (f : gdb -> A) : M A := call (fun s => (f s, s)).
Definition or_throw {A} (r : result A) : M A := match r with Ok a => mret a | Throw e => throw e end.
(** A request to the outside world that may fail *)
Definition external {A} (f : Outside -> result A) : M A := r ← asks (fun s => f (outside s)); or_throw r.

(** How long ago an instant was whose text, as SQLite writes it without a zone, is read by
    [new Date]: as local time. *)
Definition local_elapsed (since : option Z) (s : gdb) : Z :=
  match since with Some p => Z.max 0 (now s - local_reading (outside s) p) | None => 0 end.

(** [randomUUID()]: an identifier never drawn before. *)
Definition uuid (n : nat) : string := "uuid-" ++ pretty n.
Definition randomUUID : M string := call (fun s => (uuid (drawn s), { s with drawn := S (drawn s) })).

(** ** Transactions

    A transaction is rolled back when its body throws. *)

Definition Tx (A : Type) : Type := gdb -> result A * gdb.
#[export] Instance Tx_ret : MRet Tx := fun A a s => (Ok a, s).
#[export] Instance Tx_bind : MBind Tx := fun A B f t s => match t s with (Ok a, s') => f a s' | (Throw e, s') => (Throw e, s') end.
Definition fails {A} (e : string) : Tx A := fun s => (Throw e, s).
Definition reads {A} (f : gdb -> A) : Tx A := fun s => (Ok (f s), s).

Definition DATABASE_ERROR : string := "database".
Definition UNIQUE_FAILED : string := "UNIQUE constraint failed".
Definition commits {A} (t : Tx A) (s : gdb) : gdb := match t s with (Ok _, s') => s' | (Throw _, _) => s end.
Definition transaction {A} (t : Tx A) : M A :=
  r ← call (fun s => match database (outside s) with
                     | works => (fst (t s), commits t s)
                     | refuses => (Throw DATABASE_ERROR, s)
                     | loses_answer => (Throw DATABASE_ERROR, commits t s)
                     end);
  or_throw r.

(** [UPDATE goals SET set WHERE goal_id = id AND where]; whether a row changed. *)
Definition update_goal (id : string) (where_ : GoalRow -> bool) (set : Z -> GoalRow -> GoalRow) : Tx bool := fun s =>
  match goals s !! id with
  | Some g => if bool_decide (goal_id g = id) && where_ g then (Ok true, { s with goals := <[id := set (now s) g]> (goals s) }) else (Ok false, s)
  | None => (Ok false, s)
  end.
Definition goal_where (id : string) (where_ : GoalRow -> bool) : Tx (option GoalRow) :=
  reads (fun s => match goals s !! id with Some g => if bool_decide (goal_id g = id) && where_ g then Some g else None | None => None end).
Definition any_goal (id : string) : Tx (option GoalRow) := goal_where id (fun _ => true).

Definition input_where (where_ : GoalInput -> bool) (s : gdb) : list GoalInput := filter (fun i => where_ i = true) (goal_inputs s).
Definition update_inputs (where_ : GoalInput -> bool) (set : GoalInput -> GoalInput) : Tx nat := fun s =>
  (Ok (length (input_where where_ s)),
   { s with goal_inputs := (fun i => if where_ i then set i else i) <$> goal_inputs s }).
Definition same_key (owner key : string) (i : GoalInput) : bool := bool_decide (in_owner i = owner) && bool_decide (idempotency_key i = key).
(** The database keeps [input_id] and [(owner_id, idempotency_key)] unique and the goal's row required. *)
Definition insert_input (i : GoalInput) : Tx unit := fun s =>
  match goals s !! in_goal i with
  | None => (Throw "FOREIGN KEY constraint failed", s)
  | Some _ =>
      if existsb (fun i' => same_key (in_owner i) (idempotency_key i) i' || bool_decide (input_id i' = input_id i)) (goal_inputs s)
      then (Throw UNIQUE_FAILED, s)
      else (Ok tt, { s with goal_inputs := goal_inputs s ++ [{ i with sequence := last_sequence s + 1 }];
                            last_sequence := last_sequence s + 1 })%list
  end.

Definition update_checkpoints (where_ : GoalCheckpoint -> bool) (set : GoalCheckpoint -> GoalCheckpoint) : Tx nat := fun s =>
  (Ok (length (filter (fun c => where_ c = true) (goal_checkpoints s))),
   { s with goal_checkpoints := (fun c => if where_ c then set c else c) <$> goal_checkpoints s }).
Definition checkpoint_where (where_ : GoalCheckpoint -> bool) : Tx (option GoalCheckpoint) :=
  reads (fun s => head (filter (fun c => where_ c = true) (goal_checkpoints s))).
Definition insert_checkpoint (c : GoalCheckpoint) : Tx unit := fun s =>
  match goals s !! cp_goal c with
  | None => (Throw "FOREIGN KEY constraint failed", s)
  | Some _ =>
      if existsb (fun c' => bool_decide (checkpoint_id c' = checkpoint_id c) || bool_decide (cp_owner c' = cp_owner c) && bool_decide (cp_key c' = cp_key c)) (goal_checkpoints s) then (Throw UNIQUE_FAILED, s)
      else (Ok tt, { s with goal_checkpoints := (goal_checkpoints s ++ [c])%list })
  end.

Definition update_blockers (where_ : GoalBlockerRow -> bool) (set : Z -> GoalBlockerRow -> GoalBlockerRow) : Tx nat := fun s =>
  (Ok (length (filter (fun b => where_ b = true) (goal_blockers s))),
   { s with goal_blockers := (fun b => if where_ b then set (now s) b else b) <$> goal_blockers s }).

(** [queue.add(name, data, { jobId })] *)
Definition add_job (data : GoalJobData) (s : gdb) : gdb :=
  let id := goalJobId (goalId data) (generation data) in
  match queue s !! id with Some _ => s | None => { s with queue := <[id := (data, "waiting")]> (queue s) } end.
Definition enqueue_job (data : GoalJobData) : M unit :=
  r ← call (fun s => match jobs (outside s) with
                     | works => (Ok tt, add_job data s)
                     | refuses => (Throw "queue", s)
                     | loses_answer => (Throw "queue", add_job data s)
                     end);
  or_throw r.
(** [redisClient.del(`worker:abort:${taskId}`)] *)
Definition clear_abort (task : string) : M unit :=
  r ← call (fun s => match abort_flag (outside s) with
                     | Ok _ => (Ok tt, { s with worker_abort := worker_abort s ∖ {[task]} })
                     | Throw e => (Throw e, s)
                     end);
  or_throw r.

(** ** Blockers *)

Record GoalBlockerReport := Report {
  requestKey : string;
  rp_category : string;
  rp_source : string;
  rp_summary : string;
  responseActions : list string;
  rp_turn : option string;
}.

Definition cut (n : nat) (s : string) : string := Stdlib.Strings.String.substring 0 n s.

Section Blockers.
(** Collapsing white space, bounding and redacting what a provider wrote *)
Variable bound_text : string -> string.

Definition blocker_key (goalId key : string) (b : GoalBlockerRow) : bool :=
  bool_decide (b_goal b = goalId) && bool_decide (request_key b = key).
Definition recordGoalBlocker (attempt : GoalJobData) (session : option string) (report : GoalBlockerReport) (blockerId : string) : Tx (option (option Z)) :=
  let key := cut 255 (requestKey report) in
  existing ← reads (fun s => head (filter (fun b => blocker_key (goalId attempt) key b = true) (goal_blockers s)));
  match existing with
  | Some b =>
      if negb (bool_decide (status b = b_open)) || negb (bool_decide (b_claim b = claimId attempt)) then mret None
      else
        _ ← update_blockers (fun b' => bool_decide (blocker_id b' = blocker_id b) && bool_decide (status b' = b_open))
              (fun t b' => { b' with last_observed_at := t });
        mret (Some (input_boundary b))
  | None => fun s =>
      let boundary := foldr Z.max 0 (sequence <$> filter (fun i => in_goal i = goalId attempt) (goal_inputs s)) in
      let b := Blocker blockerId (goalId attempt) (generation attempt) (claimId attempt) session (cut 255 <$> truthy_string (rp_turn report))
                 (rp_category report) (cut 100 (rp_source report)) key (bound_text (rp_summary report)) (responseActions report)
                 (Some boundary) b_open None (now s) (now s) in
      (Ok (Some (Some boundary)), { s with goal_blockers := (goal_blockers s ++ [b])%list })
  end.

End Blockers.

Definition resolveGoalBlocker (attempt : GoalJobData) (requestKey resolution_ : string) : Tx bool :=
  n ← update_blockers
    (fun b => blocker_key (goalId attempt) (cut 255 requestKey) b && bool_decide (b_claim b = claimId attempt) && bool_decide (status b = b_open))
    (fun _ b => { b with status := b_resolved; resolution := Some (cut 50 resolution_) });
  mret (0 <? n)%nat.

Inductive BlockerScope := every_blocker | of_claim (claim : string) | except_claim (claim : string).
Definition in_scope (scope : BlockerScope) (b : GoalBlockerRow) : bool :=
  match scope with
  | every_blocker => true
  | of_claim c => bool_decide (b_claim b = c)
  | except_claim c => negb (bool_decide (b_claim b = c))
  end.
Definition closing_status (resolution : string) : BlockerStatus :=
  if bool_decide (resolution = "provider_resolved") || bool_decide (resolution = "turn_ended") then b_resolved else b_superseded.
Definition closeGoalBlockers (goalId : string) (scope : BlockerScope) (resolution_ : string) : Tx nat :=
  update_blockers (fun b => bool_decide (b_goal b = goalId) && bool_decide (status b = b_open) && in_scope scope b)
    (fun _ b => { b with status := closing_status resolution_; resolution := Some resolution_ }).
