(* ===== verification/GoalAttempt.v ===== *)
(** * Goals: one execution attempt

    src/jobs/goalAttemptState.ts (claiming an attempt, its fenced writes and the control
    surface it gives the provider session) and src/jobs/goalAttemptScheduling.ts (rotating
    to the next attempt). Publication of events is left out: its failures are swallowed. *)

From S2P Require Import Prelude JsString Interleave Goals.

Open Scope string_scope.
Open Scope Z_scope.

(** [goal_id], [current_task_id], [run_generation] and [run_claim] are the job's, and
    there is no result. *)
Definition attemptWhere (job : GoalJobData) (g : GoalRow) : bool :=
  bool_decide (current_task_id g = taskId job) && bool_decide (run_generation g = generation job)
  && bool_decide (run_claim g = Some (claimId job)) && bool_decide (result_state g = None).

Definition owned (job : GoalJobData) : Tx (option GoalRow) := goal_where (goalId job) (attemptWhere job).
Definition fencedGoal (job : GoalJobData) : M (option GoalRow) := transaction (owned job).

Definition claim_columns (t : Z) (g : GoalRow) : GoalRow :=
  { g with claimed_at := Some t; attempt_heartbeat_at := Some t; started_at := Some (default t (started_at g)); pause_confirmed_at := None }.
Definition claimGoalAttempt (job : GoalJobData) : M (option GoalRow) :=
  _ ← fencedGoal job;
  claimed ← transaction (update_goal (goalId job)
    (fun g => attemptWhere job g && bool_decide (desired_state g = running) && bool_decide (claimed_at g = None)) claim_columns);
  if negb claimed then mret None
  else
    _ ← catch (transaction (closeGoalBlockers (goalId job) (except_claim (claimId job)) "superseded_by_attempt")) (fun _ => mret 0%nat);
    fencedGoal job.

Definition fencedGoalUpdate (job : GoalJobData) (values : Z -> GoalRow -> GoalRow) : M bool :=
  transaction (update_goal (goalId job) (attemptWhere job) values).

(** ** The provider's identity *)

Definition assertProviderIdentityMatches (existing : GoalRow) (sessionId : string) (conversationId : option string) : result unit :=
  let mismatch saved given := match truthy_string saved with Some x => negb (bool_decide (x = given)) | None => false end in
  if mismatch (session_id existing) sessionId then Throw ("Provider resumed session " ++ sessionId ++ " instead of the persisted session")
  else match truthy_string conversationId with
       | Some c => if mismatch (conversation_id existing) c then Throw ("Provider resumed conversation " ++ c ++ " instead of the persisted conversation") else Ok tt
       | None => Ok tt
       end.

Definition or_else {A} (x y : option A) : option A := match x with Some a => Some a | None => y end.
Definition saveFencedGoalSession (job : GoalJobData) (sessionId : string) (conversationId : option string) : M bool :=
  transaction (
    existing ← owned job;
    match existing with
    | None => mret false
    | Some g =>
        match assertProviderIdentityMatches g sessionId conversationId with
        | Throw e => fails e
        | Ok _ => update_goal (goalId job) (attemptWhere job) (fun t g' =>
            { g' with session_id := or_else (session_id g) (Some sessionId);
                      conversation_id := or_else (conversation_id g) conversationId;
                      attempt_heartbeat_at := Some t })
        end
    end).

Definition closeAttemptBlockers (job : GoalJobData) : M unit :=
  _ ← transaction (closeGoalBlockers (goalId job) (of_claim (claimId job)) "attempt_ended"); mret tt.

(** ** The control surface of a provider session *)

Record GoalControlSnapshot := Snapshot {
  desiredState : DesiredState;
  requestedModel : string;
  pendingInputs : list GoalInput;
  controlGeneration : Z;
}.

Definition is_pending (goal owner : string) (i : GoalInput) : bool :=
  bool_decide (in_goal i = goal) && bool_decide (in_owner i = owner) && bool_decide (in_state i = pending).

Definition load (job : GoalJobData) : M GoalControlSnapshot :=
  goal ← fencedGoal job;
  match goal with
  | None => throw "Goal attempt ownership was superseded"
  | Some g =>
      inputs ← transaction (reads (input_where (is_pending (goalId job) (owner_id g))));
      mret (Snapshot (desired_state g) (requested_model g) inputs (control_generation g))
  end.

Definition or_fenced (written : bool) (e : string) : M unit := if written then mret tt else throw e.
Definition heartbeat (job : GoalJobData) : M unit :=
  written ← fencedGoalUpdate job (fun t g => { g with attempt_heartbeat_at := Some t });
  or_fenced written "Goal attempt heartbeat was fenced".
Definition setActiveTurn (job : GoalJobData) (turnId : option string) : M unit :=
  written ← fencedGoalUpdate job (fun _ g => { g with active_turn_id := turnId });
  or_fenced written "Goal active turn write was fenced".

(** An input changes from pending once, by the attempt that owns the goal. *)
Definition settle_input (job : GoalJobData) (inputId fenced : string) (set : GoalInput -> GoalInput) : M unit :=
  transaction (
    owner ← owned job;
    match owner with
    | None => fails fenced
    | Some g =>
        changed ← update_inputs (fun i => bool_decide (input_id i = inputId) && is_pending (goalId job) (owner_id g) i) set;
        if negb (bool_decide (changed = 1%nat)) then fails "Goal input was already delivered or superseded"
        else
          _ ← update_goal (goalId job) (attemptWhere job) (fun _ g => { g with control_ack_generation := control_generation g });
          mret tt
    end).
Definition stamp (job : GoalJobData) (state : InputState) (turn error : option string) (i : GoalInput) : GoalInput :=
  { i with in_state := state; delivered_generation := Some (generation job); delivered_claim := Some (claimId job);
           delivered_turn_id := turn; delivery_error := error }.
Definition markInputDelivered (job : GoalJobData) (inputId turnId : string) : M unit :=
  settle_input job inputId "Goal input acknowledgement was fenced" (stamp job delivered (Some turnId) None).
Definition markInputUndeliverable (job : GoalJobData) (inputId reason : string) : M unit :=
  settle_input job inputId "Goal input rejection was fenced" (stamp job undeliverable None (Some reason)).

Section Reports.
Variable bound_text : string -> string.
Definition reportBlocker (job : GoalJobData) (report : GoalBlockerReport) : M (option Z) :=
  blockerId ← randomUUID;
  recorded ← transaction (
    owner ← owned job;
    match owner with
    | None => mret None
    | Some g => recordGoalBlocker bound_text job (session_id g) report blockerId
    end);
  mret (default None recorded).
End Reports.
Definition resolveBlocker (job : GoalJobData) (requestKey resolution : string) : M unit :=
  _ ← transaction (resolveGoalBlocker job requestKey resolution); mret tt.

(** The output kept with a task: the last thousand records of at most a mebibyte each
    that together fit in one. *)
Definition MAXIMUM_OUTPUT_BYTES : Z := 1024 * 1024.
(** UTF-8 takes two bytes for a code unit above 127. *)
Fixpoint byteLength (s : string) : Z :=
  match s with "" => 0 | String c s => (if code c <? 128 then 1 else 2) + byteLength s end.
Definition last_records (n : nat) (l : list string) : list string := skipn (length l - n) l.
Fixpoint shift_to_fit (l : list string) : list string :=
  match l with
  | [] => []
  | x :: l' => if MAXIMUM_OUTPUT_BYTES <? byteLength (join (String newline "") l) then shift_to_fit l' else l
  end.
Definition bounded_output (existing records : list string) : list string :=
  shift_to_fit (last_records 1000 (filter (fun r => byteLength r <= MAXIMUM_OUTPUT_BYTES) (existing ++ records)%list)).

(** ** Inputs and the next attempt *)

Definition first_pending (goal owner : string) : Tx (option GoalInput) := reads (fun s => head (input_where (is_pending goal owner) s)).
Definition firstPendingGoalInput (goal : GoalRow) : M (option GoalInput) := transaction (first_pending (goal_id goal) (owner_id goal)).

Definition rotate_columns (generation : Z) (claimId : string) (completedPauseMs : Z) (g : GoalRow) : GoalRow :=
  { g with desired_state := running; run_generation := generation; run_claim := Some claimId; claimed_at := None;
           attempt_heartbeat_at := None; active_turn_id := None; paused_at := None; pause_confirmed_at := None;
           resume_requested := false; paused_ms := paused_ms g + completedPauseMs }.
Definition completed_pause (goal : GoalRow) (t : Z) : Z :=
  match desired_state goal, paused_at goal with paused, Some p => Z.max 0 (t - p) | _, _ => 0 end.
Definition enqueueNextGoalAttempt (goal : GoalRow) (current : GoalJobData) (recovery : bool) : M bool :=
  claimId_ ← randomUUID;
  t ← asks now;
  let next := generation current + 1 in
  changed ← transaction (update_goal (goalId current)
    (fun g => attemptWhere current g && bool_decide (desired_state g = desired_state goal))
    (fun _ => rotate_columns next claimId_ (completed_pause goal t)));
  if negb changed then mret false
  else _ ← enqueue_job (job_of goal next claimId_ recovery); mret true.
