(* ===== verification/GoalCheckpoint.v ===== *)
(** * Goals: publishing checkpoints

    src/jobs/goalCheckpointPublisher.ts: a direct goal's work is committed, pushed and
    shown on its draft pull request by the worker, once per idempotency key. Git and
    GitHub are answers of the outside world; the in-process lock of a goal's publications
    only excludes interleavings, which the other steps include. *)

From S2P Require Import Prelude JsString Interleave Goals GoalAttempt.

Open Scope string_scope.
Open Scope Z_scope.

Record GoalCheckpointRequest := Request {
  rq_id : option string;
  rq_kind : string;
  commitMessage : option string;
  rq_include : option (list string);
  rq_exclude : option (list string);
  rq_summary : option string;
  turnId : option string;
}.
Inductive GoalCheckpointPublication :=
  | published (sha : option string) (pullRequest : PullRequestInfo)
  | rejected (error : string).

Definition checkpointKey (goal : GoalRow) (request : GoalCheckpointRequest) : string :=
  match truthy_string (rq_id request) with
  | Some id => id
  | None =>
      if bool_decide (rq_kind request = "bootstrap") then "goal-bootstrap:" ++ goal_id goal
      else if bool_decide (rq_kind request = "final") then "goal-final:" ++ goal_id goal ++ ":" ++ show (run_generation goal)
      else "goal-agent:" ++ goal_id goal ++ ":" ++ show (run_generation goal) ++ ":" ++ default "provider-turn" (turnId request)
  end.

(** The attempt of the goal, whatever its task *)
Definition attempt_row (job : GoalJobData) (g : GoalRow) : bool :=
  bool_decide (run_generation g = generation job) && bool_decide (run_claim g = Some (claimId job)) && bool_decide (result_state g = None).

Definition INVALID_SCOPE : string := "InvalidCheckpointScopeError: ".

Section Publisher.
(** SHA-256 of the request as JSON *)
Variable request_hash : string -> GoalCheckpointRequest -> option string -> string.

Definition new_checkpoint (job : GoalJobData) (goal : GoalRow) (request : GoalCheckpointRequest) (id : string) (state : CheckpointState) (error : option string) : GoalCheckpoint :=
  Checkpoint id (goal_id goal) (owner_id goal) (checkpointKey goal request) ("goal.checkpoint." ++ rq_kind request)
    (request_hash (goal_id goal) request error) (rq_kind request) state (generation job) (Some (claimId job)) None error.

Definition by_key (goal : GoalRow) (request : GoalCheckpointRequest) (c : GoalCheckpoint) : bool :=
  match truthy_string (rq_id request) with
  | Some id => bool_decide (checkpoint_id c = id) && bool_decide (cp_goal c = goal_id goal)
  | None => bool_decide (cp_owner c = owner_id goal) && bool_decide (cp_key c = checkpointKey goal request)
  end.

(** Claiming an earlier record of the same checkpoint, or opening one *)
Definition open_checkpoint (job : GoalJobData) (goal : GoalRow) (request : GoalCheckpointRequest) (checkpointId : string) (existing : option GoalCheckpoint) : M string :=
  match existing with
  | Some c =>
      claimed ← transaction (update_checkpoints
        (fun c' => bool_decide (checkpoint_id c' = checkpoint_id c) && bool_decide (cp_goal c' = goal_id goal) && bool_decide (cp_state c' ∈ [c_pending; c_failed]))
        (fun c' => { c' with cp_state := c_processing; cp_error := None }));
      if negb (bool_decide (claimed = 1%nat)) && negb (bool_decide (cp_state c = c_processing))
      then throw "Goal checkpoint request changed before publication" else mret (checkpoint_id c)
  | None =>
      _ ← transaction (insert_checkpoint (new_checkpoint job goal request checkpointId c_processing None));
      mret checkpointId
  end.

Definition publication_columns (base : string) (pull : PullRequestInfo) (commit : option string) (g : GoalRow) : GoalRow :=
  { g with base_branch := Some base; final_pr_number := Some (pr_number pull); final_pr_url := Some (pr_url pull);
           last_checkpoint_commit_sha := or_else commit (last_checkpoint_commit_sha g);
           checkpoint_count := if bool_decide (is_Some commit) then checkpoint_count g + 1 else checkpoint_count g;
           checkpoint_error := None }.
Definition publish_work (job : GoalJobData) (goal : GoalRow) (recordId : string) : M GoalCheckpointPublication :=
  _ ← external prepared_preview;
  sha ← external commit;
  _ ← external github_token;
  _ ← external push;
  base ← match truthy_string (base_branch goal) with Some b => mret b | None => external base_of_repository end;
  pull ← external draft_pull_request;
  _ ← external published_preview;
  updated ← transaction (update_goal (goalId job) (attempt_row job) (fun _ => publication_columns base pull sha));
  if negb updated then throw "Goal checkpoint result was fenced"
  else
    _ ← transaction (update_checkpoints (fun c => bool_decide (checkpoint_id c = recordId))
          (fun c => { c with cp_state := if bool_decide (is_Some sha) then c_completed else c_skipped; commit_sha := sha }));
    mret (published sha pull).

Definition invalid_scope (request : GoalCheckpointRequest) (e : string) : bool :=
  bool_decide (rq_kind request = "agent") && starts_with INVALID_SCOPE e.
Definition publication_failed (job : GoalJobData) (request : GoalCheckpointRequest) (recordId e : string) : M GoalCheckpointPublication :=
  _ ← transaction (update_checkpoints (fun c => bool_decide (checkpoint_id c = recordId))
        (fun c => { c with cp_state := if invalid_scope request e then c_rejected else c_failed; cp_error := Some e }));
  _ ← transaction (update_goal (goalId job) (attempt_row job) (fun _ g => { g with checkpoint_error := Some e }));
  if invalid_scope request e then mret (rejected e) else throw e.

Definition publishLocked (job : GoalJobData) (request : GoalCheckpointRequest) : M GoalCheckpointPublication :=
  goal ← transaction (goal_where (goalId job) (attempt_row job));
  match goal with
  | None => throw "Goal checkpoint attempt was superseded"
  | Some goal =>
      if negb (bool_decide (launch_strategy goal = direct)) then throw "Worker checkpoints only apply to direct goals"
      else match truthy_string (worktree_path goal), truthy_string (branch_name goal) with
      | Some _, Some _ =>
          checkpointId ← (match rq_id request with Some id => mret id | None => randomUUID end);
          existing ← transaction (checkpoint_where (by_key goal request));
          match existing, final_pr_number goal, truthy_string (final_pr_url goal) with
          | Some (Checkpoint _ _ _ _ _ _ _ c_completed _ _ sha _), Some n, Some url
          | Some (Checkpoint _ _ _ _ _ _ _ c_skipped _ _ sha _), Some n, Some url => mret (published sha (PullInfo n url))
          | Some (Checkpoint _ _ _ _ _ _ _ c_completed _ _ _ _), _, _
          | Some (Checkpoint _ _ _ _ _ _ _ c_skipped _ _ _ _), _, _ => throw "Completed checkpoint is missing its draft PR identity"
          | _, _, _ =>
              recordId ← open_checkpoint job goal request checkpointId existing;
              catch (publish_work job goal recordId) (publication_failed job request recordId)
          end
      | _, _ => throw "Goal checkpoint requires a saved worktree and branch"
      end
  end.
Definition publishDirectGoalCheckpoint := publishLocked.

Definition rejectDirectGoalCheckpoint (job : GoalJobData) (request : GoalCheckpointRequest) (error : string) : M unit :=
  goal ← transaction (goal_where (goalId job) (attempt_row job));
  match goal with
  | None => throw "Goal checkpoint rejection was superseded"
  | Some goal =>
      if negb (bool_decide (launch_strategy goal = direct)) then throw "Worker checkpoints only apply to direct goals"
      else
        checkpointId ← (match rq_id request with Some id => mret id | None => randomUUID end);
        existing ← transaction (checkpoint_where (fun c => bool_decide (cp_owner c = owner_id goal) && bool_decide (cp_key c = checkpointKey goal request)));
        match existing with
        | Some c =>
            if negb (bool_decide (cp_goal c = goal_id goal)) || negb (bool_decide (cp_hash c = request_hash (goal_id goal) request (Some error)))
            then throw "Goal checkpoint rejection changed before it was recorded" else mret tt
        | None =>
            transaction (
              _ ← insert_checkpoint (new_checkpoint job goal request checkpointId c_rejected (Some error));
              updated ← update_goal (goalId job) (attempt_row job) (fun _ g => { g with checkpoint_error := Some error });
              if updated : bool then mret tt else fails "Goal checkpoint rejection was fenced")
        end
  end.
End Publisher.
