(* ===== verification/GoalDeclaration.v ===== *)
(** * Goals: checkpoint declarations

    packages/shared/src/goalCheckpoints.ts: the JSON object by which an agent declares
    that its work may be committed, found in the text of its turn, and the file paths it
    may name. [JSON.parse] of a text is a parameter; the narration left around the
    declaration is not modelled. *)

From S2P Require Import Prelude JsString Json.

Open Scope string_scope.
Open Scope list_scope.

(** ** The objects in a text *)

Record Scan := Scanning { s_start : option nat; depth : nat; quoted : bool; escaped : bool }.
Definition outside_objects : Scan := Scanning None 0 false false.

Definition lbrace : ascii := char 123.
Definition rbrace : ascii := char 125.
Definition backslash : ascii := char 92.
Definition quote : ascii := char 34.

(** One character of the scan, and the object it closes. *)
Definition scan_character (index : nat) (c : ascii) (st : Scan) : Scan * option (nat * nat) :=
  match s_start st with
  | None => (if bool_decide (c = lbrace) then Scanning (Some index) 1 (quoted st) (escaped st) else st, None)
  | Some start =>
      if quoted st then
        (if escaped st then Scanning (Some start) (depth st) true false
         else if bool_decide (c = backslash) then Scanning (Some start) (depth st) true true
         else if bool_decide (c = quote) then Scanning (Some start) (depth st) false false
         else st, None)
      else if bool_decide (c = quote) then (Scanning (Some start) (depth st) true (escaped st), None)
      else if bool_decide (c = lbrace) then (Scanning (Some start) (S (depth st)) false (escaped st), None)
      else if bool_decide (c = rbrace) then
        match depth st with
        | S (S d) => (Scanning (Some start) (S d) false (escaped st), None)
        | _ => (Scanning None 0 false (escaped st), Some (start, S index))
        end
      else (st, None)
  end.
Fixpoint scan_objects (index : nat) (st : Scan) (text : string) : list (nat * nat) :=
  match text with
  | "" => []
  | String c text =>
      let '(st, closed) := scan_character index c st in
      match closed with Some span => span :: scan_objects (S index) st text | None => scan_objects (S index) st text end
  end.
Definition slice (span : nat * nat) (text : string) : string := Stdlib.Strings.String.substring (fst span) (snd span - fst span) text.

(** ** Errors as JSON strings *)

Definition hex (n : N) : string := of_chars [match n with 0%N => char 48 | 1%N => char 49 | 2%N => char 50 | 3%N => char 51 | 4%N => char 52
  | 5%N => char 53 | 6%N => char 54 | 7%N => char 55 | 8%N => char 56 | 9%N => char 57 | _ => char (87 + n) end].
Definition json_character (c : ascii) : string :=
  let n := Ascii.N_of_ascii c in
  if bool_decide (c = quote) || bool_decide (c = backslash) then of_chars [backslash; c]
  else if (n <? 32)%N then
    match n with
    | 8%N => of_chars [backslash; char 98] | 9%N => of_chars [backslash; char 116] | 10%N => of_chars [backslash; char 110]
    | 12%N => of_chars [backslash; char 102] | 13%N => of_chars [backslash; char 114]
    | _ => (of_chars [backslash; char 117; char 48; char 48] ++ hex (n / 16) ++ hex (n mod 16))%string
    end
  else of_chars [c].
(** [JSON.stringify(s)] *)
Definition json_string (s : string) : string := (of_chars [quote] ++ foldr (fun c acc => json_character c ++ acc) "" (chars s) ++ of_chars [quote])%string.

(** ** Paths *)

(** [[...new Set(l)]] *)
Definition unique (l : list string) : list string := foldl (fun acc x => if bool_decide (x ∈ acc) then acc else acc ++ [x]) [] l.

Definition forbidden_part (part : string) : bool := bool_decide (part ∈ [""; "."; ".."; ".git"]).
Definition invalid_path (file : string) : bool :=
  negb (bool_decide (trim file = file)) || includes_char backslash file || includes_char (char 0) file
  || includes_char newline file || includes_char (char 13) file || starts_with "/" file
  || existsb forbidden_part (split_char (char 47) file).

Definition texts (l : list json) : option (list string) := mapM (fun v => match v with JStr s => Some s | _ => None end) l.
Definition optionalPaths (value : option json) (field : string) : result (option (list string)) :=
  let malformed := Throw ("Checkpoint " ++ field ++ " must be a non-empty array of at most 1000 file paths when provided")%string in
  match value with
  | None | Some JNull => Ok None
  | Some (JArr l) =>
      match texts l with
      | Some items =>
          if bool_decide (length l = 0%nat) || (1000 <? length l)%nat || existsb (fun i => bool_decide (trim i = "")) items then malformed
          else
            let paths := unique items in
            match find invalid_path paths with
            | Some invalid => Throw ("Checkpoint " ++ field ++ " path must be a normalized repository-relative file: " ++ json_string invalid)%string
            | None => Ok (Some paths)
            end
      | None => malformed
      end
  | Some _ => malformed
  end.

(** ** Declarations *)

Record GoalCheckpointDeclaration := Declaration {
  d_message : option string;
  d_include : option (list string);
  d_exclude : option (list string);
  d_summary : option string;
}.
Inductive ParsedGoalCheckpointDeclaration :=
  | accepted (d : GoalCheckpointDeclaration)
  | refused_declaration (error : string) (d : GoalCheckpointDeclaration).

Definition stringPaths (value : option json) : option (list string) :=
  match value with Some (JArr l) => texts l | _ => None end.
Definition trimmed_text (value : option json) : option string := match value with Some (JStr s) => Some (trim s) | _ => None end.
Definition rejectedDeclaration (candidate : list (string * json)) (error : string) : ParsedGoalCheckpointDeclaration :=
  refused_declaration error (Declaration (trimmed_text (field "message" candidate)) (stringPaths (field "include" candidate))
    (stringPaths (field "exclude" candidate)) (trimmed_text (field "summary" candidate))).

Definition bounded_text (limit : nat) (s : string) : bool := negb (bool_decide (trim s = "")) && (String.length s <=? limit)%nat.
Definition validated (candidate : list (string * json)) : result GoalCheckpointDeclaration :=
  let message := field "message" candidate in
  let summary := field "summary" candidate in
  if negb (match message with Some (JStr s) => bounded_text 500 s | _ => false end)
  then Throw "Checkpoint message must be a non-empty string of at most 500 characters"
  else if negb (match summary with None | Some JNull => true | Some (JStr s) => bounded_text 4000 s | _ => false end)
  then Throw "Checkpoint summary must be a non-empty string of at most 4000 characters when provided"
  else
    include ← optionalPaths (field "include" candidate) "include";
    exclude ← optionalPaths (field "exclude" candidate) "exclude";
    match find (fun file => bool_decide (file ∈ default [] exclude)) (default [] include) with
    | Some overlap => Throw ("Checkpoint file cannot be both included and excluded: " ++ overlap)%string
    | None => Ok (Declaration (trimmed_text message) include exclude (trimmed_text summary))
    end.
Definition declaration_of (candidate : list (string * json)) : ParsedGoalCheckpointDeclaration :=
  match validated candidate with Ok d => accepted d | Throw e => rejectedDeclaration candidate e end.

Definition checkpoint_ready (value : json) : bool :=
  match as_record (Some value) with Some fs => is_true (field "checkpointReady" fs) | None => false end.

Section Parse.
Variable json_parse : string -> option json.

Definition jsonObjects (text : string) : list (json * (nat * nat)) :=
  omap (fun span => (fun v => (v, span)) <$> json_parse (slice span text)) (scan_objects 0 outside_objects text).
(** The last object that declares a checkpoint *)
Definition parseGoalCheckpointDeclaration (text : option string) : option ParsedGoalCheckpointDeclaration :=
  match truthy_string text with
  | None => None
  | Some text =>
      match find (fun source => checkpoint_ready (fst source)) (reverse (jsonObjects text)) with
      | Some (value, _) => declaration_of <$> as_record (Some value)
      | None => None
      end
  end.
End Parse.

(** ** What a declaration is, proved

    The file paths an agent may put into a checkpoint, read as the file system reads
    them, and the length bounds of what it writes. *)

(** [path.posix.resolve(cwd, file)]: the directory entries the file system follows. *)
Definition follow (cwd : list string) (part : string) : list string :=
  if bool_decide (part = "" \/ part = ".") then cwd
  else if bool_decide (part = "..") then removelast cwd
  else cwd ++ [part].
Definition resolve (cwd : list string) (file : string) : list string :=
  foldl follow (if starts_with "/" file then [] else cwd) (split_char (char 47) file).
(** The file named is strictly below the directory, and not in its [.git]. *)
Definition inside (file : string) : Prop :=
  forall cwd, exists parts, resolve cwd file = cwd ++ parts /\ parts <> [] /\ ".git" ∉ parts.

Lemma plain_parts parts : existsb forbidden_part parts = false -> forall p, p ∈ parts -> p ∉ [""; "."; ".."; ".git"].
Proof.
  intros H p Hp Hf. enough (existsb forbidden_part parts = true) by congruence.
  apply existsb_exists. exists p. split; [by apply list_elem_of_In|]. by apply bool_decide_eq_true_2.
Qed.
Lemma follow_plain parts cwd : (forall p, p ∈ parts -> p ∉ [""; "."; ".."; ".git"]) -> foldl follow cwd parts = cwd ++ parts.
Proof.
  revert cwd. induction parts as [|p parts IH]; intros cwd H; cbn; [by rewrite app_nil_r|].
  unfold follow at 2. rewrite !bool_decide_false by (specialize (H p); set_solver).
  rewrite IH by (intros; apply H; set_solver). by rewrite <- app_assoc.
Qed.
Lemma valid_inside file : invalid_path file = false -> inside file.
Proof.
  unfold invalid_path. intros [[_ Hroot]%orb_false_iff Hparts]%orb_false_iff cwd. pose proof (plain_parts _ Hparts) as H.
  exists (split_char (char 47) file). unfold resolve. rewrite Hroot, follow_plain by done. split_and!; [done|apply split_char_nonnil|].
  intros Hin. specialize (H _ Hin). set_solver.
Qed.

Lemma unique_spec l : NoDup (unique l) /\ (length (unique l) <= length l)%nat /\ forall x, x ∈ unique l <-> x ∈ l.
Proof.
  unfold unique. assert (H : forall acc, NoDup acc ->
    let r := foldl (fun acc x => if bool_decide (x ∈ acc) then acc else acc ++ [x]) acc l in
    NoDup r /\ (length r <= length acc + length l)%nat /\ forall x, x ∈ r <-> x ∈ acc \/ x ∈ l).
  { induction l as [|y l IH]; intros acc Ha; cbn; [split_and!; [done|lia|set_solver]|].
    case_bool_decide as Hy.
    - destruct (IH acc Ha) as (H1 & H2 & H3). split_and!; [done|lia|]. intros x. rewrite H3. set_solver.
    - destruct (IH (acc ++ [y])) as (H1 & H2 & H3); [apply NoDup_app; split_and!; [done|set_solver|apply NoDup_singleton]|].
      rewrite length_app in H2. cbn in H2. split_and!; [done|lia|]. intros x. rewrite H3. set_solver. }
  destruct (H [] (NoDup_nil_2)) as (H1 & H2 & H3). split_and!; [done|exact H2|]. intros x. rewrite H3. set_solver.
Qed.
Lemma texts_length l items : texts l = Some items -> length items = length l.
Proof. intros H. symmetry. by eapply length_mapM. Qed.
Lemma find_none {A} (f : A -> bool) l : List.find f l = None -> forall x, x ∈ l -> f x = false.
Proof. intros H x Hx. eapply List.find_none; [done|]. by apply list_elem_of_In. Qed.

(** The paths of one field *)
Definition declared (paths : list string) : Prop := NoDup paths /\ (0 < length paths <= 1000)%nat /\ Forall inside paths.
Lemma optionalPaths_declared value name paths : optionalPaths value name = Ok (Some paths) -> declared paths.
Proof.
  unfold optionalPaths. destruct value as [[| | | |l|]|]; try done. destruct (texts l) as [items|] eqn:Et; [|done].
  destruct (_ || _) eqn:Eb; [done|]. destruct (find invalid_path (unique items)) eqn:Ei; [done|]. intros [= <-].
  apply orb_false_iff in Eb as [[E0 E1]%orb_false_iff _]. apply bool_decide_eq_false in E0. apply Nat.ltb_ge in E1.
  pose proof (texts_length _ _ Et) as Hlen. destruct (unique_spec items) as (H1 & H2 & H3). split_and!; [done| |lia|].
  - destruct items as [|x items]; [cbn in Hlen; lia|]. destruct (unique (x :: items)) as [|y u] eqn:Eu; [|cbn; lia].
    assert (x ∈ []) by (apply H3; set_solver). set_solver.
  - apply Forall_forall. intros file Hf. by apply valid_inside, (find_none _ _ Ei).
Qed.

Lemma length_trim s : (String.length (trim s) <= String.length s)%nat.
Proof.
  assert (Hs : forall s, (String.length (trim_start s) <= String.length s)%nat).
  { induction s0 as [|c s0 IH]; cbn; [lia|]. destruct (is_space c); cbn; lia. }
  assert (He : forall s, (String.length (trim_end s) <= String.length s)%nat).
  { induction s0 as [|c s0 IH]; cbn; [lia|]. destruct (is_space c && is_blank s0); cbn; lia. }
  unfold trim. etransitivity; [apply He|apply Hs].
Qed.

Definition written (limit : nat) (s : string) : Prop := s <> "" /\ (String.length s <= limit)%nat.
Lemma bounded_written limit s : bounded_text limit s = true -> written limit (trim s).
Proof.
  unfold bounded_text. intros [H1%negb_true_iff%bool_decide_eq_false H2%Nat.leb_le]%andb_true_iff. split; [done|].
  pose proof (length_trim s). lia.
Qed.

Record well_declared (d : GoalCheckpointDeclaration) : Prop := {
  wd_message : exists m, d_message d = Some m /\ written 500 m;
  wd_summary : forall m, d_summary d = Some m -> written 4000 m;
  wd_paths : forall paths, d_include d = Some paths \/ d_exclude d = Some paths -> declared paths;
  wd_disjoint : forall file, file ∈ default [] (d_include d) -> file ∉ default [] (d_exclude d);
}.
Lemma validated_declared fields d : validated fields = Ok d -> well_declared d.
Proof.
  unfold validated. destruct (field "message" fields) as [[| | |m| |]|]; try discriminate.
  destruct (bounded_text 500 m) eqn:Em; [|discriminate]. cbn [negb].
  destruct (match field "summary" fields with Some (JStr s) => bounded_text 4000 s | None | Some JNull => true | _ => false end) eqn:Es; [|discriminate]. cbn [negb].
  destruct (optionalPaths (field "include" fields) "include") as [include|] eqn:Ei; cbn; [|done].
  destruct (optionalPaths (field "exclude" fields) "exclude") as [exclude|] eqn:Ee; cbn; [|done].
  destruct (find _ (default [] include)) eqn:Eo; cbn; [done|]. intros [= <-]. split; cbn.
  - exists (trim m). split; [done|by apply bounded_written].
  - intros s. destruct (field "summary" fields) as [[| | |s'| |]|]; cbn; try done. intros [= <-]. by apply bounded_written.
  - intros paths [H|H]; subst; eauto using optionalPaths_declared.
  - intros file Hi Hx. pose proof (find_none _ _ Eo file Hi) as Hf. by apply bool_decide_eq_false in Hf.
Qed.

(** C25. An accepted declaration commits only what it may: every path it includes or
    excludes names a file strictly below the checkout and outside its [.git], whatever
    directory the checkout is; no path is repeated or both included and excluded, and
    what the agent writes keeps to its bounds. *)
Theorem declared_paths_stay_inside json_parse text d :
  parseGoalCheckpointDeclaration json_parse text = Some (accepted d) -> well_declared d.
Proof.
  unfold parseGoalCheckpointDeclaration. destruct (truthy_string text) as [t|]; [|done].
  destruct (find _ _) as [[value span]|]; [|done]. cbn. destruct value; cbn; try done. unfold declaration_of.
  destruct (validated _) eqn:Ev; cbn; [|done]. intros [= <-]. by eapply validated_declared.
Qed.

(** ** The declaration is found where the agent put it *)

Local Open Scope string_scope.

(** The inside of a JSON string, and the text between two braces that match. *)
Inductive literal : string -> Prop :=
  | literal_end : literal ""
  | literal_char c s : c <> quote -> c <> backslash -> literal s -> literal (String c s)
  | literal_escape c s : literal s -> literal (String backslash (String c s)).
Inductive balanced : string -> Prop :=
  | balanced_end : balanced ""
  | balanced_char c s : c <> quote -> c <> lbrace -> c <> rbrace -> balanced s -> balanced (String c s)
  | balanced_string l s : literal l -> balanced s -> balanced (String quote (l ++ String quote s))
  | balanced_object b s : balanced b -> balanced s -> balanced (String lbrace (b ++ String rbrace s)).
Definition braced (body : string) : string := String lbrace (body ++ String rbrace "").

Definition within (start depth : nat) (quoted : bool) : Scan := Scanning (Some start) (S depth) quoted false.
Lemma append_cons (c : ascii) (s t : string) : String c s ++ t = String c (s ++ t). Proof. done. Qed.
Lemma append_assoc (s t u : string) : (s ++ t) ++ u = s ++ t ++ u.
Proof. induction s; cbn; [done|]. by f_equal. Qed.
Lemma append_nil (s : string) : s ++ "" = s.
Proof. induction s; cbn; [done|]. by f_equal. Qed.
Lemma length_append (s t : string) : String.length (s ++ t) = (String.length s + String.length t)%nat.
Proof. induction s; cbn; [done|]. by f_equal. Qed.
Lemma scan_step i st c text : scan_objects i st (String c text) =
  (let '(st', closed) := scan_character i c st in
   match closed with Some span => span :: scan_objects (S i) st' text | None => scan_objects (S i) st' text end).
Proof. done. Qed.

Ltac scan_char := rewrite scan_step; unfold scan_character at 1; cbn [s_start depth quoted escaped within outside_objects];
  repeat (first [rewrite bool_decide_true by done | rewrite bool_decide_false by done]); cbn [s_start depth quoted escaped].
Lemma scan_literal l rest i start d : literal l ->
  scan_objects i (within start d true) (l ++ rest) = scan_objects (i + String.length l) (within start d true) rest.
Proof.
  intros Hl. revert i. induction Hl as [|c s Hq Hb Hl IH|c s Hl IH]; intros i; cbn [String.append String.length].
  - by rewrite Nat.add_0_r.
  - scan_char. rewrite Nat.add_succ_r. apply (IH (S i)).
  - scan_char. rewrite scan_step. cbn [scan_character s_start quoted escaped]. rewrite !Nat.add_succ_r. apply (IH (S (S i))).
Qed.
Lemma scan_balanced b rest i start d : balanced b ->
  scan_objects i (within start d false) (b ++ rest) = scan_objects (i + String.length b) (within start d false) rest.
Proof.
  intros Hb. revert i d rest. induction Hb as [|c s Hq Ho Hc Hb IH|l s Hl Hb IH|b s Hb1 IH1 Hb2 IH2]; intros i d rest;
    rewrite ?append_cons, ?append_assoc, ?append_cons; cbn [String.append String.length]; rewrite ?length_append; cbn [String.length]; [by rewrite Nat.add_0_r|..].
  - scan_char. rewrite Nat.add_succ_r. apply (IH (S i)).
  - scan_char. change (Scanning (Some start) (S d) true false) with (within start d true). rewrite scan_literal by done.
    scan_char. change (Scanning (Some start) (S d) false false) with (within start d false). rewrite IH. f_equal. lia.
  - scan_char. change (Scanning (Some start) (S (S d)) false false) with (within start (S d) false). rewrite IH1.
    scan_char. change (Scanning (Some start) (S d) false false) with (within start d false). rewrite IH2. f_equal. lia.
Qed.
(** Text whose braces match: characters other than an opening brace, and objects, or what
    looks like one, that satisfy [P] *)
Inductive passage (P : string -> Prop) : string -> Prop :=
  | passage_end : passage P ""
  | passage_char c s : c <> lbrace -> passage P s -> passage P (String c s)
  | passage_object b s : balanced b -> P (braced b) -> passage P s -> passage P (braced b ++ s).
(** Where an object satisfying [P] stands in a text found from index [i] on *)
Definition stands (P : string -> Prop) (i : nat) (s : string) (span : nat * nat) : Prop :=
  exists pre b post, s = pre ++ b ++ post /\ P b /\ span = (i + String.length pre, i + String.length pre + String.length b)%nat.
Lemma scan_object body rest i : balanced body ->
  scan_objects i outside_objects (braced body ++ rest) =
  (i, i + String.length (braced body))%nat :: scan_objects (i + String.length (braced body)) outside_objects rest.
Proof.
  intros Hb. unfold braced. rewrite append_cons, append_assoc, append_cons. scan_char. cbn [outside_objects s_start quoted escaped].
  change (Scanning (Some ?n) 1 false false) with (within n 0 false). rewrite scan_balanced by done. scan_char.
  cbn [String.length]. rewrite length_append. cbn [String.length]. f_equal; [f_equal; lia|]. cbn [String.append]. f_equal. lia.
Qed.
Lemma scan_passage P s : passage P s -> forall i text, exists spans,
  scan_objects i outside_objects (s ++ text) = (spans ++ scan_objects (i + String.length s) outside_objects text)%list /\ Forall (stands P i s) spans.
Proof.
  induction 1 as [|c s Hc Hs IH|b s Hb HP Hs IH]; intros i text.
  - exists []. rewrite Nat.add_0_r. done.
  - destruct (IH (S i) text) as (spans & E & Hf). exists spans. cbn [String.append String.length]. scan_char. rewrite E, Nat.add_succ_r. split; [done|].
    eapply Forall_impl; [exact Hf|]. intros span (pre & b & post & -> & HP & ->). exists (String c pre), b, post. split_and!; [done..|]. cbn. f_equal; lia.
  - destruct (IH (i + String.length (braced b))%nat text) as (spans & E & Hf). exists ((i, i + String.length (braced b))%nat :: spans).
    rewrite append_assoc, scan_object, E, length_append, Nat.add_assoc by done. split; [done|]. apply Forall_cons. split.
    + exists "", (braced b), s. split_and!; [done..|]. cbn [String.length]. f_equal; lia.
    + eapply Forall_impl; [exact Hf|]. intros span (pre & b' & post & -> & HP' & ->). exists (braced b ++ pre), b', post.
      rewrite append_assoc, length_append. split_and!; [done..|]. f_equal; lia.
Qed.

Lemma slice_middle a b c : slice (String.length a, (String.length a + String.length b)%nat) (a ++ b ++ c) = b.
Proof.
  unfold slice. cbn [fst snd]. replace (String.length a + String.length b - String.length a)%nat with (String.length b) by lia.
  induction a as [|x a IH]; [|exact IH]. induction b as [|y b IH]; cbn; [by destruct c|]. f_equal. exact IH.
Qed.

Lemma find_app {A} (f : A -> bool) l k : List.find f (l ++ k)%list = match List.find f l with Some x => Some x | None => List.find f k end.
Proof. induction l as [|x l IH]; [done|]. cbn. by destruct (f x). Qed.
Lemma find_all_false {A} (f : A -> bool) l : Forall (fun x => f x = false) l -> List.find f l = None.
Proof. induction 1 as [|x l Hx Hl IH]; [done|]. cbn. by rewrite Hx. Qed.
(** What is no declaration: no JSON, or a value that does not declare readiness *)
Definition not_ready (json_parse : string -> option json) (object : string) : Prop :=
  forall fields, json_parse object = Some (JObj fields) -> field "checkpointReady" fields <> Some (JBool true).
Lemma not_ready_value json_parse object v : not_ready json_parse object -> json_parse object = Some v -> checkpoint_ready v = false.
Proof.
  intros H E. unfold checkpoint_ready. destruct v as [| | | | |fields]; try done. specialize (H fields E). cbn.
  destruct (field "checkpointReady" fields) as [[|[]| | | |]|]; done.
Qed.

