(* ===== verification/GoalContinuation.v ===== *)
(** * Goals: bringing the checkout of a continued goal back

    src/jobs/goalContinuation.ts: the branch, pull request and working directory a goal
    resumes on, and the notice owed to the provider when its checkout was rebuilt. Every
    external operation is preceded by a check that the attempt still owns the goal. *)

From S2P Require Import Prelude JsString Interleave GoalDeclaration Goals GoalAttempt.

Open Scope string_scope.
Open Scope Z_scope.

Definition GOAL_WORKTREE_RESTORED_NOTICE : string :=
  "ProPR rebuilt your checkout from the published goal branch because the previous working directory was gone. It contains the last published checkpoint; any uncommitted changes from before are lost. Review the working tree before continuing.".

(** A row of [goal_inputs] as it is inserted *)
Definition new_input (id goal owner key operation hash kind message : string) (state : InputState) : GoalInput :=
  Input 0 id goal owner key operation hash kind message state None None None None.

Definition recordRestorationNotice (inputId : string) (goal : GoalRow) : Tx unit :=
  insert_input (new_input inputId (goal_id goal) (owner_id goal) ("goal-restoration:" ++ inputId) "goal.restore"
    "goal-worktree-restored" "restoration" GOAL_WORKTREE_RESTORED_NOTICE pending).

Definition is_restoration (i : GoalInput) : bool := bool_decide (kind i = "restoration").
Definition RESTORATION_LOST : string := "Goal worktree restoration lost its attempt claim".
Definition CONTINUATION_LOST : string := "Continued goal preparation lost its attempt claim".
Definition persistRestorationObligation (job : GoalJobData) (goal : GoalRow) : M unit :=
  inputId ← randomUUID;
  transaction (
    owner ← owned job;
    match owner with
    | None => fails RESTORATION_LOST
    | Some _ =>
        waiting ← reads (input_where (fun i => is_pending (goal_id goal) (owner_id goal) i && is_restoration i));
        match waiting with [] => recordRestorationNotice inputId goal | _ => mret tt end
    end).

Definition hasSavedWorktree (goal : GoalRow) : option (string * string) :=
  match truthy_string (worktree_path goal), truthy_string (branch_name goal) with Some w, Some b => Some (w, b) | _, _ => None end.
Definition isDirectory (target : string) : M bool := asks (fun s => directory_exists (outside s) target).

Definition FRESH_BRANCH (g : GoalRow) : GoalRow :=
  { g with worktree_path := None; branch_name := None; final_pr_number := None; final_pr_url := None }.

Definition attemptClaimGuard (job : GoalJobData) (lost : string) : M unit :=
  goal ← fencedGoal job;
  match goal with Some _ => mret tt | None => throw lost end.

(** ** Transient failures *)

Definition TRANSIENT : string := "TransientError: ".
Definition transient_failure (status : Z) (code message : string) : bool :=
  (500 <=? status) || bool_decide (code ∈ ["ECONNRESET"; "ETIMEDOUT"; "EAI_AGAIN"])
  || existsb (fun p => includes p (to_lower message)) ["connection reset"; "fetch failed"; "socket hang up"; "timed out"].
(** The error of a failed request *)
Definition request_error (status : Z) (code message : string) : string :=
  if transient_failure status code message then TRANSIENT ++ message else message.
Definition retryTransient {A} (operation : M A) (assertCurrent : M unit) : M A :=
  catch operation (fun e => if starts_with TRANSIENT e then _ ← assertCurrent; operation else throw e).

(** ** GitHub and git *)

Definition readPullRequest : M (option GoalPullRequestState) := external pull_request.
Definition convertToDraft (assertCurrent : M unit) : M unit := _ ← assertCurrent; external convert_to_draft.
Definition cleanupWorktree (assertCurrent : M unit) : M unit :=
  _ ← external github_token; _ ← assertCurrent; _ ← external repository_clone; _ ← assertCurrent; external checkout_cleanup.
(** [None] only when the remote branch is confirmed absent *)
Definition rebuildWorktree (assertCurrent : M unit) : M (option string) :=
  present ← external published_branch;
  if negb present then mret None
  else
    _ ← external github_token; _ ← assertCurrent; _ ← external repository_clone; _ ← assertCurrent;
    path ← external rebuilt_checkout; mret (Some path).

(** ** A checkout that disappeared *)

Definition worktree_lost (path branch : string) : string :=
  "Saved goal worktree " ++ path ++ " is missing and branch " ++ branch ++ " no longer exists on the remote".
Definition restoreMissingGoalWorktree (job : GoalJobData) (goal : GoalRow) : M (GoalRow * bool) :=
  match hasSavedWorktree goal with
  | None => mret (goal, false)
  | Some (path, branch) =>
      there ← isDirectory path;
      if there : bool then mret (goal, false)
      else
        let assertCurrent := attemptClaimGuard job RESTORATION_LOST in
        _ ← persistRestorationObligation job goal;
        _ ← assertCurrent;
        rebuilt ← retryTransient (rebuildWorktree assertCurrent) assertCurrent;
        match rebuilt with
        | None => throw (worktree_lost path branch)
        | Some p =>
            _ ← transaction (
              changed ← update_goal (goalId job) (attemptWhere job) (fun _ g => { g with worktree_path := Some p });
              if changed : bool then mret tt else fails RESTORATION_LOST);
            updated ← fencedGoal job;
            match updated with Some g => mret (g, true) | None => throw RESTORATION_LOST end
        end
  end.

(** ** A continued goal *)

Record Updates := Changes { fresh_branch : bool; forget_pull : bool; rebuilt_at : option string }.
Definition no_updates : Updates := Changes false false None.
Definition apply_updates (u : Updates) (g : GoalRow) : GoalRow :=
  let g := if forget_pull u then { g with final_pr_number := None; final_pr_url := None } else g in
  let g := if fresh_branch u then FRESH_BRANCH g else g in
  match rebuilt_at u with Some p => { g with worktree_path := Some p } | None => g end.

Definition pull_updates (job : GoalJobData) (goal : GoalRow) (assertCurrent : M unit) : M Updates :=
  match final_pr_number goal with
  | None => mret no_updates
  | Some _ =>
      pull ← retryTransient readPullRequest assertCurrent;
      match pull with
      | Some p =>
          if merged p then mret (Changes true false None)
          else if negb (pr_open p) then mret (Changes false true None)
          else if negb (draft p) then
            _ ← assertCurrent; _ ← retryTransient (convertToDraft assertCurrent) assertCurrent; mret no_updates
          else mret no_updates
      | None => mret (Changes false true None)
      end
  end.
Definition checkout_updates (job : GoalJobData) (goal : GoalRow) (assertCurrent : M unit) (u : Updates) : M Updates :=
  match hasSavedWorktree goal with
  | Some (path, _) =>
      if fresh_branch u then mret u
      else
        there ← isDirectory path;
        if there : bool then mret u
        else
          _ ← persistRestorationObligation job goal;
          _ ← assertCurrent;
          rebuilt ← retryTransient (rebuildWorktree assertCurrent) assertCurrent;
          mret (match rebuilt with
                | None => Changes true (forget_pull u) None
                | Some p => Changes false (forget_pull u) (Some p)
                end)
  | None => mret u
  end.
(** The checkout left behind for a fresh branch is cleaned up, or kept where it holds unique work. *)
Definition preserve_checkout (goal : GoalRow) (assertCurrent : M unit) (u : Updates) : M (option string) :=
  match hasSavedWorktree goal with
  | Some (path, branch) =>
      if negb (fresh_branch u) then mret None
      else
        there ← isDirectory path;
        if negb there then mret None
        else
          _ ← assertCurrent;
          _ ← cleanupWorktree assertCurrent;
          mret (Some ("ProPR preserved the previous checkout at " ++ json_string path ++ " (previous branch " ++ json_string branch
                ++ "). Inspect it for uncommitted or unpublished work worth recovering onto the fresh branch."))
  | None => mret None
  end.

Definition supersede_notice (i : GoalInput) : GoalInput :=
  { i with in_state := superseded; delivery_error := Some "Goal moved to a fresh branch from base; the previous checkout restoration notice no longer applies." }.
Definition is_continue (job : GoalJobData) (i : GoalInput) : bool :=
  bool_decide (in_goal i = goalId job) && bool_decide (operation i = "goal.continue") && bool_decide (in_state i = pending).
Definition append_note (c : GoalInput) (note : string) (i : GoalInput) : GoalInput :=
  { i with message := message c ++ String newline (String newline note) }.
Definition save_updates (job : GoalJobData) (u : Updates) (preserved : option string) : Tx unit :=
  changed ← update_goal (goalId job) (attemptWhere job) (fun _ => apply_updates u);
  if negb changed then fails CONTINUATION_LOST
  else
    _ ← (if fresh_branch u
         then update_inputs (fun i => bool_decide (in_goal i = goalId job) && bool_decide (in_state i = pending) && is_restoration i) supersede_notice
         else mret 0%nat);
    match preserved with
    | None => mret tt
    | Some note =>
        continues ← reads (input_where (is_continue job));
        match last continues with
        | Some c => _ ← update_inputs (fun i => bool_decide (input_id i = input_id c))
                          (append_note c note); mret tt
        | None => mret tt
        end
    end.

Definition prepareContinuedGoal (job : GoalJobData) (goal : GoalRow) : M GoalRow :=
  if negb (continue_requested goal) then mret goal
  else
    let assertCurrent := attemptClaimGuard job CONTINUATION_LOST in
    u ← pull_updates job goal assertCurrent;
    _ ← assertCurrent;
    u ← checkout_updates job goal assertCurrent u;
    preserved ← preserve_checkout goal assertCurrent u;
    if negb (fresh_branch u) && negb (forget_pull u) && bool_decide (rebuilt_at u = None) then mret goal
    else
      _ ← transaction (save_updates job u preserved);
      updated ← fencedGoal job;
      match updated with Some g => mret g | None => throw CONTINUATION_LOST end.

Definition continuedGoalBootstrapId (goal : GoalRow) : M string :=
  continues ← transaction (reads (input_where (fun i => bool_decide (in_goal i = goal_id goal) && bool_decide (in_owner i = owner_id goal) && bool_decide (operation i = "goal.continue"))));
  mret ("goal-bootstrap:" ++ goal_id goal ++ ":" ++ match last continues with Some c => input_id c | None => show (run_generation goal) end).
