(* ===== verification/GoalWorker.v ===== *)
(** * Goals: the job that runs one attempt

    src/jobs/processGoalJob.ts. The agent is a tree of callbacks into the attempt: it may
    ask anything of the control surface, in any order and depending on the answers, and
    then ends. The heartbeat timer is one of the other steps: its writes are fenced like
    every other. Metrics, task records, previews and pull request texts are requests to
    the outside world that may fail. *)

From S2P Require Import Prelude JsString Interleave Json GoalDeclaration Goals GoalAttempt GoalCheckpoint GoalContinuation.

Open Scope list_scope.
Open Scope string_scope.
Open Scope Z_scope.

Definition GOAL_CONTINUE_INPUT : string := "ProPR has acknowledged any checkpoint request from the previous turn. Continue working toward the goal.".
Definition hasNativeGoalControl (agentType : string) : bool := bool_decide (agentType ∈ ["codex"; "claude"; "antigravity"]).

Record AgentExecutionResult := Result {
  success : bool;
  exitCode : option Z;
  terminationReason : option string;
  error : option string;
  r_session : option string;
  r_conversation : option string;
  providerModel : option string;
  r_summary : option string;
}.

Definition INTERRUPTIONS : list string :=
  ["docker"; "container"; "socket hang up"; "econnreset"; "econnrefused"; "sigkill"; "terminated"; "execution aborted"; "app server exited"].
Definition isRecoverableInterruption (result : AgentExecutionResult) : bool :=
  bool_decide (is_Some (truthy_string (terminationReason result)))
  || match exitCode result with Some n => bool_decide (n ∈ [125; 137; 143]) | None => false end
  || existsb (fun p => includes p (to_lower (default "" (error result)))) INTERRUPTIONS.

(** ** Terminal writes *)

(** The attempt still wants to run. *)
Definition running_attempt (job : GoalJobData) (g : GoalRow) : bool := attempt_row job g && bool_decide (desired_state g = running).

Definition finalizeGoal (job : GoalJobData) (resultState : ResultState) (failureReason : option string) : M bool :=
  transaction (update_goal (goalId job) (running_attempt job) (fun t g =>
    { g with result_state := Some resultState; failure_reason := failureReason; active_turn_id := None; completed_at := Some t })).

Definition markGoalTaskReconciled (job : GoalJobData) (resultState : ResultState) : M unit :=
  _ ← transaction (update_goal (goalId job)
    (fun g => bool_decide (run_generation g = generation job) && bool_decide (run_claim g = Some (claimId job))
              && bool_decide (result_state g = Some resultState) && bool_decide (task_reconciled_at g = None))
    (fun t g => { g with task_reconciled_at := Some t }));
  mret tt.

(** A change of the task's record; whether it reached the state asked for. *)
Definition task_change (change : string) : M bool := external (fun o => task_record o change).

Definition failGoalPreparation (job : GoalJobData) (reason : string) : M string :=
  _ ← fencedGoalUpdate job (fun _ g => { g with continue_requested := false });
  finalized ← finalizeGoal job r_failed (Some reason);
  if negb finalized then mret "skipped"
  else
    failed ← task_change "failed";
    _ ← (if failed : bool then markGoalTaskReconciled job r_failed else mret tt);
    mret "failed".

(** ** Preparation *)

Record GoalWorktree := Worktree { worktreePath : string; branchName : string }.

Definition ensureGoalWorktree (goal : GoalRow) (job : GoalJobData) : M GoalWorktree :=
  match truthy_string (worktree_path goal), truthy_string (branch_name goal) with
  | Some _, None | None, Some _ => throw "Saved goal worktree identity is incomplete; exact-session recovery cannot continue"
  | Some path, Some branch =>
      there ← isDirectory path;
      if there : bool then mret (Worktree path branch)
      else
        '(restored, _) ← restoreMissingGoalWorktree job goal;
        match hasSavedWorktree restored with
        | Some (path, branch) => mret (Worktree path branch)
        | None => throw "Goal worktree restoration left no checkout to resume"
        end
  | None, None =>
      _ ← external repository_clone;
      '(path, branch) ← external new_checkout;
      saved ← transaction (update_goal (goalId job)
        (fun g => running_attempt job g && bool_decide (worktree_path g = None))
        (fun t g => { g with worktree_path := Some path; branch_name := Some branch; attempt_heartbeat_at := Some t }));
      if negb saved then throw "Goal worktree allocation lost its attempt claim" else mret (Worktree path branch)
  end.

(** [m.then(Ok, Throw)] *)
Definition attempt_ {A} (m : M A) : M (result A) := catch (a ← m; mret (Ok a)) (fun e => mret (Throw e)).

Definition prepareGoalCheckout (job : GoalJobData) (claimed : GoalRow) : M (string + GoalWorktree) :=
  continued ← attempt_ (prepareContinuedGoal job claimed);
  match continued with
  | Throw e => status ← failGoalPreparation job ("Could not prepare the continued goal: " ++ e); mret (inl status)
  | Ok goal =>
      worktree ← attempt_ (ensureGoalWorktree goal job);
      match worktree with
      | Throw e => status ← failGoalPreparation job ("Could not restore the goal checkout: " ++ e); mret (inl status)
      | Ok w => mret (inr w)
      end
  end.

Record PreparedInputs := Inputs { pendingInput : option GoalInput; restorationInputIds : list string }.

Definition restoration_pending (goal : GoalRow) (i : GoalInput) : bool := is_pending (goal_id goal) (owner_id goal) i && is_restoration i.
Definition user_pending (goal : GoalRow) (i : GoalInput) : bool := is_pending (goal_id goal) (owner_id goal) i && negb (is_restoration i).
Definition blank_line : string := String newline (String newline "").
Definition prepareGoalAttemptInputs (goal : GoalRow) : M PreparedInputs :=
  notices ← transaction (reads (input_where (restoration_pending goal)));
  match notices with
  | [] => input ← firstPendingGoalInput goal; mret (Inputs input [])
  | notice :: _ =>
      if hasNativeGoalControl (agent_type goal) then mret (Inputs (Some notice) [])
      else
        userInput ← transaction (reads (fun s => head (input_where (user_pending goal) s)));
        let chosen := default notice userInput in
        let parts := filter (fun m => m <> "") ((message <$> notices) ++ match userInput with Some u => [message u] | None => [] end)%list in
        mret (Inputs (Some { chosen with message := join blank_line parts })
                (filter (fun id => id <> input_id chosen) (input_id <$> notices)))
  end.

Definition checkpoint_feedback (c : GoalCheckpoint) : option string :=
  match cp_state c, truthy_string (cp_error c), truthy_string (commit_sha c) with
  | c_rejected, Some e, _ => Some ("ProPR rejected your checkpoint declaration: " ++ e ++ ". No checkpoint was committed. Correct the declaration and continue working toward the goal.")
  | c_completed, _, Some sha => Some ("ProPR accepted and published your checkpoint as commit " ++ sha ++ ". Continue working toward the goal.")
  | c_skipped, _, _ => Some "ProPR accepted your checkpoint, but there were no matching changes to commit. Continue working toward the goal."
  | _, _, _ => None
  end.
Definition previousCheckpointFeedback (goal : GoalRow) (pendingInput : option GoalInput) : M (option string) :=
  match truthy_string (session_id goal), pendingInput with
  | Some _, None =>
      checkpoints ← transaction (reads (fun s => filter (fun c => cp_goal c = goal_id goal /\ cp_owner c = owner_id goal
        /\ requested_generation c = run_generation goal - 1 /\ cp_state c ∈ [c_completed; c_skipped; c_rejected]) (goal_checkpoints s)));
      mret (last checkpoints ≫= checkpoint_feedback)
  | _, _ => mret None
  end.

Record PreparedGoalAttempt := Prepared {
  p_goal : GoalRow;
  p_worktree : GoalWorktree;
  p_inputs : PreparedInputs;
  checkpointFeedback : option string;
}.

(** What the agent is started with *)
Record ExecutionRequest := Execution {
  prompt : string;
  resumeSessionId : option string;
  initialControlInputId : option string;
  initialGoalFeedback : option string;
  continueTerminalGoal : bool;
}.

(** What the agent asks of its goal while it runs *)
Inductive Callback :=
  | ask_load
  | ask_heartbeat
  | ask_active_turn (turn : option string)
  | ask_delivered (inputId turn : string)
  | ask_undeliverable (inputId reason : string)
  | ask_publish (request : GoalCheckpointRequest)
  | ask_reject (request : GoalCheckpointRequest) (error : string)
  | ask_blocker (report : GoalBlockerReport)
  | ask_resolve (requestKey resolution : string)
  | ask_session (session : string) (conversation : option string)
  | ask_rearmed.
Inductive Answer :=
  | done_
  | snapshot (s : GoalControlSnapshot)
  | publication (p : GoalCheckpointPublication)
  | boundary (n : option Z)
  | aborted (b : bool).
Inductive Provider :=
  | ends (r : result AgentExecutionResult)
  | asks_goal (c : Callback) (k : result Answer -> Provider).

Section Worker.
Variable bound_text : string -> string.
Variable request_hash : string -> GoalCheckpointRequest -> option string -> string.
Variable json_parse : string -> option json.
(** The line of an agent's error that names the failure *)
Variable agentFailureLine : string -> option string.
Variable executeTask : ExecutionRequest -> Provider.

Abbreviation publishDirectGoalCheckpoint := (publishDirectGoalCheckpoint request_hash).
Abbreviation rejectDirectGoalCheckpoint := (rejectDirectGoalCheckpoint request_hash).
Definition checkpoint_request (id : option string) (kind : string) : GoalCheckpointRequest := Request id kind None None None None None.

Definition pause_at_boundary (job : GoalJobData) : M (option GoalRow) :=
  _ ← fencedGoalUpdate job (fun t g => { g with pause_confirmed_at := Some t; active_turn_id := None });
  fencedGoal job.
Definition prepareClaimedGoalAttempt (job : GoalJobData) (claimed : GoalRow) : M (string + PreparedGoalAttempt) :=
  _ ← task_change "initialize";
  _ ← external agent_ready;
  _ ← external github_token;
  checkout ← prepareGoalCheckout job claimed;
  match checkout with
  | inl status => mret (inl status)
  | inr worktree =>
      boundaryGoal ← fencedGoal job;
      match boundaryGoal with
      | None => mret (inl "skipped")
      | Some goal =>
          match desired_state goal with
          | paused =>
              confirmed ← pause_at_boundary job;
              _ ← (match confirmed with
                   | Some c => if resume_requested c then enqueueNextGoalAttempt c job false else mret false
                   | None => mret false
                   end);
              mret (inl "paused")
          | cancelled => mret (inl "skipped")
          | running =>
              bootstrapped ← (if bool_decide (launch_strategy goal = direct) && negb (bool_decide (is_Some (truthy_string (final_pr_url goal))))
                then
                  id ← (if continue_requested goal then id ← continuedGoalBootstrapId goal; mret (Some id) else mret None);
                  _ ← publishDirectGoalCheckpoint job (checkpoint_request id "bootstrap");
                  fencedGoal job
                else mret (Some goal));
              match bootstrapped with
              | None => mret (inl "skipped")
              | Some goal =>
                  inputs ← prepareGoalAttemptInputs goal;
                  feedback ← previousCheckpointFeedback goal (pendingInput inputs);
                  mret (inr (Prepared goal worktree inputs feedback))
              end
          end
      end
  end.

(** ** Execution *)

Definition saveSessionAndTaskState (job : GoalJobData) (goal : GoalRow) (session : string) (conversation : option string) (acknowledgeControls : bool) : M unit :=
  saved ← saveFencedGoalSession job session conversation;
  if negb saved then throw "Goal session identity write was fenced"
  else
    acknowledged ← fencedGoalUpdate job (fun _ g => if acknowledgeControls then { g with control_ack_generation := control_generation goal } else g);
    if negb acknowledged then throw "Goal control acknowledgement was fenced"
    else _ ← task_change "executing"; mret tt.

Definition fresh_session (goal : GoalRow) : bool := bool_decide (truthy_string (session_id goal) = None).
Definition initial_context (p : PreparedGoalAttempt) : bool :=
  fresh_session (p_goal p) && negb (hasNativeGoalControl (agent_type (p_goal p)))
  && match pendingInput (p_inputs p) with Some i => bool_decide (kind i = "context") | None => false end.
Definition execution_request (p : PreparedGoalAttempt) : ExecutionRequest :=
  let goal := p_goal p in
  let input := pendingInput (p_inputs p) in
  let live := hasNativeGoalControl (agent_type goal) in
  Execution
    (if fresh_session goal then
       match input with
       | Some i => if initial_context p then initial_prompt goal ++ blank_line ++ message i else initial_prompt goal
       | None => initial_prompt goal
       end
     else match input with Some i => message i | None => default GOAL_CONTINUE_INPUT (checkpointFeedback p) end)
    (session_id goal) (if live then input_id <$> input else None) (if live then checkpointFeedback p else None) (continue_requested goal).

(** A correction that arrived before the session was known stops it, to be resumed with it. *)
Definition stop_for_correction (job : GoalJobData) : M bool :=
  now_ ← load job;
  if negb (bool_decide (desiredState now_ = running)) then mret true
  else match pendingInputs now_ with
  | [] => mret false
  | _ =>
      paused_ ← transaction (update_goal (goalId job)
        (fun g => attemptWhere job g && bool_decide (desired_state g = running))
        (fun t g => { g with desired_state := paused; paused_at := Some t; pause_confirmed_at := None; resume_requested := true; attempt_heartbeat_at := Some t }));
      if paused_ : bool then mret true else again ← load job; mret (negb (bool_decide (desiredState again = running)))
  end.
Definition onSessionId (job : GoalJobData) (p : PreparedGoalAttempt) (session : string) (conversation : option string) : M bool :=
  let goal := p_goal p in
  let live := hasNativeGoalControl (agent_type goal) in
  _ ← saveSessionAndTaskState job goal session conversation (bool_decide (pendingInput (p_inputs p) = None));
  _ ← (match pendingInput (p_inputs p) with
       | Some i => if negb (is_restoration i) && negb live && (negb (fresh_session goal) || initial_context p)
                   then markInputDelivered job (input_id i) ("session:" ++ session) else mret tt
       | None => mret tt
       end);
  if fresh_session goal && negb live then stop_for_correction job else mret false.
Definition onGoalRearmed (job : GoalJobData) (p : PreparedGoalAttempt) : M unit :=
  if continue_requested (p_goal p) then
    written ← fencedGoalUpdate job (fun _ g => { g with continue_requested := false });
    or_fenced written "Continued goal re-arm lost its attempt claim"
  else mret tt.

Definition callback (job : GoalJobData) (p : PreparedGoalAttempt) (c : Callback) : M Answer :=
  match c with
  | ask_load => s ← load job; mret (snapshot s)
  | ask_heartbeat => _ ← heartbeat job; mret done_
  | ask_active_turn turn => _ ← setActiveTurn job turn; mret done_
  | ask_delivered inputId turn => _ ← markInputDelivered job inputId turn; mret done_
  | ask_undeliverable inputId reason => _ ← markInputUndeliverable job inputId reason; mret done_
  | ask_publish request => r ← publishDirectGoalCheckpoint job request; mret (publication r)
  | ask_reject request e => _ ← rejectDirectGoalCheckpoint job request e; mret done_
  | ask_blocker report => n ← reportBlocker bound_text job report; mret (boundary n)
  | ask_resolve key resolution => _ ← resolveBlocker job key resolution; mret done_
  | ask_session session conversation => b ← onSessionId job p session conversation; mret (aborted b)
  | ask_rearmed => _ ← onGoalRearmed job p; mret done_
  end.
Fixpoint run_provider (job : GoalJobData) (p : PreparedGoalAttempt) (provider : Provider) : M AgentExecutionResult :=
  match provider with
  | ends r => or_throw r
  | asks_goal c k => a ← attempt_ (callback job p c); run_provider job p (k a)
  end.
Definition runPreparedGoal (job : GoalJobData) (p : PreparedGoalAttempt) : M AgentExecutionResult :=
  run_provider job p (executeTask (execution_request p)).
Definition executePreparedGoal (job : GoalJobData) (p : PreparedGoalAttempt) : M AgentExecutionResult :=
  r ← attempt_ (runPreparedGoal job p);
  _ ← catch (closeAttemptBlockers job) (fun _ => mret tt);
  or_throw r.

(** ** The result *)

Definition saveProviderResult (job : GoalJobData) (goal : GoalRow) (result : AgentExecutionResult) : M (option PullRequestInfo) :=
  _ ← (match truthy_string (or_else (r_session result) (session_id goal)) with
       | Some session =>
           saved ← saveFencedGoalSession job session (r_conversation result);
           or_fenced saved "Goal provider identity write was fenced"
       | None => mret tt
       end);
  finalPr ← external final_pull_request;
  saved ← fencedGoalUpdate job (fun t g =>
    { g with effective_model := or_else (truthy_string (providerModel result)) (effective_model g);
             final_pr_number := pr_number <$> finalPr; final_pr_url := pr_url <$> finalPr; attempt_heartbeat_at := Some t });
  if negb saved then throw "Goal provider result write was fenced" else mret finalPr.

Definition recordGoalMetrics (job : GoalJobData) : M unit :=
  goal ← fencedGoal job;
  match goal with None => throw "Goal metrics write was fenced" | Some _ => external metrics end.

Definition settled_by (job : GoalJobData) (owner id : string) (i : GoalInput) : bool :=
  bool_decide (input_id i = id) && bool_decide (in_goal i = goalId job) && bool_decide (in_owner i = owner) && bool_decide (in_state i = delivered)
  && bool_decide (delivered_generation i = Some (generation job)) && bool_decide (delivered_claim i = Some (claimId job)).
Fixpoint deliver_all (job : GoalJobData) (owner : string) (ids : list string) : Tx unit :=
  match ids with
  | [] => mret tt
  | id :: ids =>
      changed ← update_inputs (fun i => bool_decide (input_id i = id) && is_pending (goalId job) owner i)
        (fun i => { i with in_state := delivered; delivered_generation := Some (generation job); delivered_claim := Some (claimId job) });
      settled ← reads (fun s => existsb (settled_by job owner id) (goal_inputs s));
      if negb (bool_decide (changed = 1%nat)) && negb settled then fails "Goal input was already delivered or superseded"
      else deliver_all job owner ids
  end.
Definition acknowledged_inputs (p : PreparedGoalAttempt) (result : AgentExecutionResult) : list string :=
  match pendingInput (p_inputs p) with
  | Some i =>
      if hasNativeGoalControl (agent_type (p_goal p)) || fresh_session (p_goal p) then []
      else ((if negb (is_restoration i) || success result then [input_id i] else [])
            ++ (if success result then restorationInputIds (p_inputs p) else []))%list
  | None => []
  end.
Definition acknowledgeWholeSessionInput (job : GoalJobData) (p : PreparedGoalAttempt) (result : AgentExecutionResult) : M unit :=
  match acknowledged_inputs p result with
  | [] => mret tt
  | ids =>
      transaction (
        owner ← owned job;
        match owner with
        | None => fails "Goal input acknowledgement was fenced"
        | Some g =>
            _ ← deliver_all job (owner_id g) ids;
            _ ← update_goal (goalId job) (attempt_row job) (fun _ g => { g with control_ack_generation := control_generation g });
            mret tt
        end)
  end.

(** A stop the operator asked for *)
Definition handleStoppedGoal (job : GoalJobData) (latest : option GoalRow) : M (option string) :=
  match latest with
  | None => mret (Some "skipped")
  | Some g =>
      match desired_state g with
      | cancelled =>
          reconciled ← task_change "cancelled";
          if negb reconciled then throw "Goal cancellation could not reconcile its backing task"
          else
            _ ← fencedGoalUpdate job (fun t g => { g with result_state := Some r_cancelled; active_turn_id := None; completed_at := Some t; task_reconciled_at := Some t });
            mret (Some "cancelled")
      | running => mret None
      | paused =>
          _ ← fencedGoalUpdate job (fun t g => { g with pause_confirmed_at := Some t; active_turn_id := None });
          _ ← task_change "paused";
          _ ← (if resume_requested g then enqueueNextGoalAttempt g job false else mret false);
          mret (Some "paused")
      end
  end.

Definition scheduleFurtherWork (job : GoalJobData) (latest : GoalRow) (result : AgentExecutionResult) (checkpointPublished : bool) : M (option string) :=
  let recoverable := negb (success result) && isRecoverableInterruption result
    && bool_decide (is_Some (truthy_string (session_id latest))) && bool_decide (is_Some (truthy_string (worktree_path latest))) in
  pending ← (if success result || recoverable then firstPendingGoalInput latest
             else transaction (reads (fun s => head (input_where (user_pending latest) s))));
  if bool_decide (is_Some pending) || checkpointPublished then _ ← enqueueNextGoalAttempt latest job false; mret (Some "continuing")
  else if negb recoverable then mret None
  else _ ← enqueueNextGoalAttempt latest job true; mret (Some "recovering").

Definition declared_request (d : GoalCheckpointDeclaration) : GoalCheckpointRequest :=
  Request None "agent" (d_message d) (d_include d) (d_exclude d) (d_summary d) None.
Definition publish_declaration (job : GoalJobData) (d : ParsedGoalCheckpointDeclaration) : M unit :=
  match d with
  | refused_declaration e d => rejectDirectGoalCheckpoint job (declared_request d) e
  | accepted d => _ ← publishDirectGoalCheckpoint job (declared_request d); mret tt
  end.

Definition MISSING_PULL_REQUEST : string := "Provider completed without the required open draft PR for the saved goal branch and expected base".
Definition failure_of (result : AgentExecutionResult) (missing : bool) : string :=
  if missing then MISSING_PULL_REQUEST
  else default "Native goal execution failed" (truthy_string (truthy_string (error result) ≫= agentFailureLine)).
Definition conclude (job : GoalJobData) (result : AgentExecutionResult) (finalPr : option PullRequestInfo) : M string :=
  let missing := success result && bool_decide (finalPr = None) in
  let resultState := if success result && negb missing then r_completed else r_failed in
  completed ← finalizeGoal job resultState (match resultState with r_failed => Some (failure_of result missing) | _ => None end);
  if negb completed then mret "skipped"
  else if success result && negb missing then
    _ ← external pull_request_description;
    _ ← external pull_request_label;
    reconciled ← task_change "completed";
    if negb reconciled then throw "Completed goal could not reconcile its backing task"
    else _ ← markGoalTaskReconciled job resultState; mret "complete"
  else
    reconciled ← task_change "failed";
    if negb reconciled then throw "Failed goal could not reconcile its backing task"
    else _ ← markGoalTaskReconciled job resultState; mret "failed".

Definition conclude_direct (job : GoalJobData) (goal : GoalRow) (branch : string) (result : AgentExecutionResult) (finalPr : option PullRequestInfo) : M string :=
  if bool_decide (launch_strategy goal = direct) then
    _ ← publishDirectGoalCheckpoint job (checkpoint_request None "final");
    checkpointed ← fencedGoal job;
    match checkpointed with
    | None => mret "skipped"
    | Some g => finalPr ← saveProviderResult job { g with branch_name := Some branch } result; conclude job result finalPr
    end
  else conclude job result finalPr.

Definition handleGoalResult (job : GoalJobData) (p : PreparedGoalAttempt) (result : AgentExecutionResult) : M string :=
  let goal := p_goal p in
  let branch := branchName (p_worktree p) in
  post ← transaction (any_goal (goalId job));
  match post with
  | Some row =>
      if negb (bool_decide (run_generation row = generation job)) || negb (bool_decide (run_claim row = Some (claimId job)))
         || bool_decide (result_state row = Some r_cancelled)
      then mret (if bool_decide (result_state row = Some r_cancelled) then "cancelled" else "skipped")
      else
        _ ← acknowledgeWholeSessionInput job p result;
        _ ← recordGoalMetrics job;
        boundaryGoal ← fencedGoal job;
        let declaration := if success result && bool_decide (launch_strategy goal = direct) && negb (hasNativeGoalControl (agent_type goal))
                           then parseGoalCheckpointDeclaration json_parse (r_summary result) else None in
        _ ← (match boundaryGoal, declaration with
             | Some g, Some d => if bool_decide (launch_strategy g = direct) && negb (bool_decide (desired_state g = cancelled))
                                 then publish_declaration job d else mret tt
             | _, _ => mret tt
             end);
        stopped ← handleStoppedGoal job boundaryGoal;
        match stopped with
        | Some status => mret status
        | None =>
            finalPr ← saveProviderResult job { goal with branch_name := Some branch } result;
            _ ← (if negb (bool_decide (launch_strategy goal = direct)) && bool_decide (is_Some finalPr)
                 then external published_preview else mret tt);
            latest ← fencedGoal job;
            stopped ← handleStoppedGoal job latest;
            match stopped, latest with
            | Some status, _ => mret status
            | None, None => throw "no latest goal"
            | None, Some l =>
                further ← scheduleFurtherWork job l result (bool_decide (is_Some declaration));
                match further with Some status => mret status | None => conclude_direct job goal branch result finalPr end
            end
        end
  | None => mret "skipped"
  end.

Definition processGoalJob (job : GoalJobData) : M string :=
  claimed ← claimGoalAttempt job;
  match claimed with
  | None => mret "skipped"
  | Some goal =>
      preparation ← prepareClaimedGoalAttempt job goal;
      match preparation with
      | inl status => mret status
      | inr p => result ← executePreparedGoal job p; handleGoalResult job p result
      end
  end.
End Worker.
