(* ===== verification/GoalRecovery.v ===== *)
(** * Goals: leased recovery

    src/goalRecovery.ts: the sweep that finishes, confirms, fails or re-queues every goal
    whose worker went away. Docker and the task records are answers of the outside world,
    as the code takes them from its caller. *)

From S2P Require Import Prelude JsString Interleave Goals GoalAttempt.

Open Scope string_scope.
Open Scope Z_scope.

Section Recovery.
Variable staleMs : Z.

Definition stale (goal : GoalRow) (s : gdb) : bool :=
  match claimed_at goal with
  | None => true
  | Some c => staleMs <=? now s - local_reading (outside s) (default c (attempt_heartbeat_at goal))
  end.
Definition local_pause (goal : GoalRow) (s : gdb) : Z :=
  match desired_state goal with paused => local_elapsed (paused_at goal) s | _ => 0 end.

Definition isTaskContainerLive (task attempt : string) : M bool := asks (fun s => container_live (outside s) task attempt).
Definition stopTaskContainer (task attempt : string) : M bool := asks (fun s => container_stopped (outside s) task attempt).
Definition reconcileTask (goal : GoalRow) : M unit := _ ← external (fun o => task_record o "reconcile"); mret tt.
Definition supersedeBlockers (goalId : string) (scope : BlockerScope) (resolution : string) : M unit :=
  _ ← catch (transaction (closeGoalBlockers goalId scope resolution)) (fun _ => mret 0%nat); mret tt.

(** The columns the sweep read are still those of the row. *)
Definition same_attempt (goal g : GoalRow) : bool :=
  bool_decide (run_generation g = run_generation goal) && bool_decide (run_claim g = run_claim goal) && bool_decide (result_state g = None).

Inductive RecoveryOutcome := recovered | failedClosed | skippedLive | unchanged.
Definition recovered_if (b : bool) : RecoveryOutcome := if b then recovered else unchanged.

Definition failIdentityLessAttempt (goal : GoalRow) : M bool :=
  changed ← transaction (update_goal (goal_id goal)
    (fun g => same_attempt goal g && bool_decide (desired_state g = running))
    (fun t g => { g with result_state := Some r_failed;
                         failure_reason := Some "Worker/container was lost before a resumable provider identity was persisted"; completed_at := Some t }));
  _ ← (if changed : bool then supersedeBlockers (goal_id goal) every_blocker "goal_terminal" else mret tt);
  mret changed.

Definition recoverClaimedAttempt (goal : GoalRow) : M bool :=
  claimId_ ← randomUUID;
  completedPauseMs ← asks (local_pause goal);
  let next := run_generation goal + 1 in
  changed ← transaction (update_goal (goal_id goal)
    (fun g => same_attempt goal g && bool_decide (desired_state g = desired_state goal))
    (fun _ => rotate_columns next claimId_ completedPauseMs));
  if negb changed then mret false
  else
    _ ← supersedeBlockers (goal_id goal) (except_claim claimId_) "superseded_by_attempt";
    _ ← enqueue_job (job_of goal next claimId_ true);
    mret true.

Definition finished_job (state : string) : bool := bool_decide (state ∈ ["completed"; "failed"]).
Definition has_session (goal : GoalRow) : bool := bool_decide (is_Some (truthy_string (session_id goal))).
(** A job is kept under this identifier: in a final state it makes way for the next generation. *)
Definition rotate_past_job (goal : GoalRow) (claimId_ : string) : M bool :=
  rotatedClaim ← randomUUID;
  let next := run_generation goal + 1 in
  changed ← transaction (update_goal (goal_id goal)
    (fun g => bool_decide (run_generation g = run_generation goal) && bool_decide (run_claim g = Some claimId_)
              && bool_decide (result_state g = None) && bool_decide (claimed_at g = None))
    (fun _ g => { g with run_generation := next; run_claim := Some rotatedClaim }));
  if negb changed then mret false
  else _ ← enqueue_job (job_of goal next rotatedClaim (has_session goal)); mret true.
Definition enqueueUnclaimedAttempt (goal : GoalRow) : M bool :=
  claimed ← (match run_claim goal with
             | Some c => mret (Some c)
             | None =>
                 claimId_ ← randomUUID;
                 changed ← transaction (update_goal (goal_id goal)
                   (fun g => bool_decide (run_generation g = run_generation goal) && bool_decide (result_state g = None) && bool_decide (run_claim g = None))
                   (fun _ g => { g with run_claim := Some claimId_ }));
                 mret (if changed : bool then Some claimId_ else None)
             end);
  match claimed with
  | None => mret false
  | Some claimId_ =>
      existing ← asks (fun s => snd <$> queue s !! goalJobId (goal_id goal) (run_generation goal));
      match existing with
      | Some state =>
          if negb (finished_job state) then mret false else rotate_past_job goal claimId_
      | None => _ ← enqueue_job (job_of goal (run_generation goal) claimId_ (has_session goal)); mret true
      end
  end.

Definition mark_reconciled (id : string) (result : ResultState) : M unit :=
  _ ← transaction (update_goal id
    (fun g => bool_decide (result_state g = Some result) && bool_decide (task_reconciled_at g = None))
    (fun t g => { g with task_reconciled_at := Some t }));
  mret tt.

Definition recover_cancelled (goal : GoalRow) : M RecoveryOutcome :=
  stopped ← (match run_claim goal with
             | Some c => stopTaskContainer (current_task_id goal) (goalAttemptLabel (run_generation goal) c)
             | None => mret true
             end);
  if negb stopped then mret unchanged
  else
    done ← transaction (update_goal (goal_id goal)
      (fun g => same_attempt goal g && bool_decide (desired_state g = cancelled))
      (fun t g => { g with result_state := Some r_cancelled; active_turn_id := None; completed_at := Some t }));
    if negb done then mret unchanged
    else
      _ ← reconcileTask { goal with result_state := Some r_cancelled };
      _ ← mark_reconciled (goal_id goal) r_cancelled;
      mret recovered.

Definition confirm_pause (goal : GoalRow) : M RecoveryOutcome :=
  stopped ← (match run_claim goal, claimed_at goal with
             | Some c, Some _ =>
                 let label := goalAttemptLabel (run_generation goal) c in
                 live ← isTaskContainerLive (current_task_id goal) label;
                 if negb live then mret true else stopTaskContainer (current_task_id goal) label
             | _, _ => mret true
             end);
  if negb stopped then mret unchanged
  else
    confirmed ← transaction (update_goal (goal_id goal)
      (fun g => same_attempt goal g && bool_decide (desired_state g = paused))
      (fun t g => { g with pause_confirmed_at := Some t; active_turn_id := None }));
    if negb confirmed then mret unchanged
    else if resume_requested goal then b ← recoverClaimedAttempt goal; mret (recovered_if b)
    else mret recovered.

Definition recover_running (goal : GoalRow) : M RecoveryOutcome :=
  match claimed_at goal with
  | None => b ← enqueueUnclaimedAttempt goal; mret (recovered_if b)
  | Some _ =>
      match run_claim goal with
      | None => b ← failIdentityLessAttempt goal; mret (if b : bool then failedClosed else unchanged)
      | Some claim =>
          live ← isTaskContainerLive (current_task_id goal) (goalAttemptLabel (run_generation goal) claim);
          if live : bool then mret skippedLive
          else match truthy_string (session_id goal), truthy_string (worktree_path goal) with
          | Some _, Some _ => b ← recoverClaimedAttempt goal; mret (recovered_if b)
          | _, _ => b ← failIdentityLessAttempt goal; mret (if b : bool then failedClosed else unchanged)
          end
      end
  end.

Definition recoverGoal (goal : GoalRow) : M RecoveryOutcome :=
  match result_state goal with
  | Some r =>
      _ ← reconcileTask goal;
      _ ← mark_reconciled (goal_id goal) r;
      mret unchanged
  | None =>
      match desired_state goal with
      | cancelled => recover_cancelled goal
      | paused =>
          if resume_requested goal && bool_decide (is_Some (pause_confirmed_at goal))
          then b ← recoverClaimedAttempt goal; mret (recovered_if b)
          else if bool_decide (is_Some (pause_confirmed_at goal)) then mret unchanged
          else old ← asks (stale goal); if negb old then mret unchanged else confirm_pause goal
      | running => old ← asks (stale goal); if negb old then mret unchanged else recover_running goal
      end
  end.

(** The rows the sweep reads *)
Definition needs_recovery (goal : GoalRow) : bool :=
  match result_state goal with None => true | Some _ => bool_decide (task_reconciled_at goal = None) end.
Definition recoverable_goals (s : gdb) : list GoalRow := filter (fun g => needs_recovery g = true) (snd <$> map_to_list (goals s)).
Definition recoverNonterminalGoals : M (list RecoveryOutcome) :=
  rows ← transaction (reads recoverable_goals);
  each recoverGoal rows.
End Recovery.

Definition STALE_MS : Z := 90000.
