(* ===== verification/GoalControls.v ===== *)
(** * Goals: what an operator may ask of one

    The lifecycle handlers of packages/api/routes/goalRoutes.ts: create, pause, resume,
    cancel, remove, change the model, send input and continue. A request carries an
    idempotency key; the handlers answer a repeated one with the goal as it is. Uploads,
    titles and the checks of a new goal's options are left out. *)

From S2P Require Import Prelude JsString Interleave Goals GoalAttempt GoalContinuation GoalWorker.

Open Scope list_scope.
Open Scope string_scope.
Open Scope Z_scope.

Inductive Response :=
  | replied (goal : GoalRow)
  | created (goal : GoalRow)
  | refused (status : Z) (error : string)
  | no_content.

Record Req := Request_ { user : option string; params_goal : string; idempotency : option string }.

Definition KEY_CONFLICT : string := "IdempotencyConflictError: Idempotency-Key was already used for a different goal, operation, or payload".
Definition is_conflict (e : string) : bool := starts_with "IdempotencyConflictError: " e.
Definition MESSAGE_LIMIT : nat := Z.to_nat 65536.
Definition too_long (message : string) : bool := (MESSAGE_LIMIT <? String.length message)%nat.

Definition requestIdempotencyKey (req : Req) : option string :=
  match truthy_string (idempotency req) with Some k => if (String.length k <=? 255)%nat then Some k else None | None => None end.
Definition owned_by (owner : string) (g : GoalRow) : bool := bool_decide (owner_id g = owner).
(** [findOwnedGoal] and [requiredIdempotencyKey], and the handler when both pass *)
Definition findOwnedGoal (req : Req) (handler : GoalRow -> M Response) : M Response :=
  match truthy_string (user req) with
  | None => mret (refused 401 "Authentication required")
  | Some owner =>
      row ← transaction (goal_where (params_goal req) (owned_by owner));
      match row with None => mret (refused 404 "Goal not found") | Some row => handler row end
  end.
Definition requiredIdempotencyKey (req : Req) (handler : string -> M Response) : M Response :=
  match requestIdempotencyKey req with
  | None => mret (refused 400 "A valid Idempotency-Key header is required")
  | Some key => handler key
  end.

(** ** Idempotency *)

(** The stored use of an idempotency key: an input in its state, or a checkpoint. *)
Inductive Mutation := of_input (state : InputState) | of_checkpoint.

Definition created_with (owner key : string) (g : GoalRow) : bool := owned_by owner g && bool_decide (create_idempotency_key g = key).
Definition goals_where (where_ : GoalRow -> bool) (s : gdb) : list GoalRow := filter (fun g => where_ g = true) (snd <$> map_to_list (goals s)).
Definition checkpoint_key (owner key : string) (c : GoalCheckpoint) : bool := bool_decide (cp_owner c = owner) && bool_decide (cp_key c = key).
Definition existingMutation (row : GoalRow) (key operation_ payloadHash : string) : M (option Mutation) :=
  createUse ← transaction (reads (fun s => head (goals_where (created_with (owner_id row) key) s)));
  match createUse with
  | Some _ => throw KEY_CONFLICT
  | None =>
      existing ← transaction (reads (fun s => head (input_where (same_key (owner_id row) key) s)));
      match existing with
      | Some i =>
          if bool_decide (in_goal i = goal_id row) && bool_decide (operation i = operation_) && bool_decide (payload_hash i = payloadHash)
          then mret (Some (of_input (in_state i))) else throw KEY_CONFLICT
      | None =>
          checkpoint ← transaction (checkpoint_where (checkpoint_key (owner_id row) key));
          match checkpoint with
          | None => mret None
          | Some c =>
              if bool_decide (cp_goal c = goal_id row) && bool_decide (cp_operation c = operation_) && bool_decide (cp_hash c = payloadHash)
              then mret (Some of_checkpoint) else throw KEY_CONFLICT
          end
      end
  end.
(** Answering a conflict *)
Definition unless_conflict {A} (m : M A) (handler : A -> M Response) : M Response :=
  found ← catch (a ← m; mret (inr a)) (fun e => if is_conflict e then mret (inl (refused 409 e)) else throw e);
  match found with inl r => mret r | inr a => handler a end.

Definition recordControlMutation (row : GoalRow) (key operation payloadHash : string) : M unit :=
  inputId ← randomUUID;
  catch (transaction (insert_input (new_input inputId (goal_id row) (owner_id row) key operation payloadHash "control" "" delivered)))
    (fun e => existing ← existingMutation row key operation payloadHash;
              match existing with None => throw e | Some _ => mret tt end).

Inductive Disposition := inserted | still_pending | settled.
Definition disposition (m : Mutation) : Disposition := match m with of_input pending => still_pending | _ => settled end.
Definition addGoalInput (row : GoalRow) (key message kind payloadHash : string) : M Disposition :=
  let operation := "goal." ++ kind in
  existing ← existingMutation row key operation payloadHash;
  match existing with
  | Some m => mret (disposition m)
  | None =>
      inputId ← randomUUID;
      catch
        (_ ← transaction (insert_input (new_input inputId (goal_id row) (owner_id row) key operation payloadHash kind message pending));
         mret inserted)
        (fun e =>
          existing ← existingMutation row key operation payloadHash;
          match existing with
          | None => throw e
          | Some _ =>
              raced ← existingMutation row key operation payloadHash;
              mret (match raced with Some m => disposition m | None => settled end)
          end)
  end.

(** ** Answers *)

Definition same_read (row g : GoalRow) : bool :=
  owned_by (owner_id row) g && bool_decide (run_generation g = run_generation row) && bool_decide (run_claim g = run_claim row)
  && bool_decide (result_state g = None).
(** [UPDATE goals ... WHERE goal_id, owner_id, run_generation and run_claim are those read and there is no result] *)
Definition update_read (row : GoalRow) (where_ : GoalRow -> bool) (set : Z -> GoalRow -> GoalRow) : M bool :=
  transaction (update_goal (goal_id row) (fun g => same_read row g && where_ g) set).
Definition is_desired (d : DesiredState) (g : GoalRow) : bool := bool_decide (desired_state g = d).

Definition current (row : GoalRow) : M (option GoalRow) := transaction (any_goal (goal_id row)).
Definition reply (updated : option GoalRow) : M Response := match updated with Some g => mret (replied g) | None => throw "goal is undefined" end.
Definition respondWithGoalTransition (row : GoalRow) : M Response := updated ← current row; reply updated.
Definition reply_owned (row : GoalRow) : M Response := updated ← transaction (goal_where (goal_id row) (owned_by (owner_id row))); reply updated.

Definition stop (task : string) : M StopTaskExecutionResult := external stop_execution.
Definition stop_when (b : bool) (task : string) : M unit := if b then _ ← stop task; mret tt else mret tt.
Definition elapsed (since : option Z) (t : Z) : Z := match since with Some p => Z.max 0 (t - p) | None => 0 end.

Definition continuation_columns (generation : Z) (claimId : string) (pausedMs : Z) (g : GoalRow) : GoalRow :=
  { g with desired_state := running; paused_at := None; paused_ms := pausedMs; run_generation := generation; run_claim := Some claimId;
           claimed_at := None; attempt_heartbeat_at := None; active_turn_id := None; pause_confirmed_at := None; resume_requested := false }.
Definition beginPausedContinuation (row : GoalRow) : M bool :=
  claimId_ ← randomUUID;
  completedPauseMs ← asks (local_elapsed (paused_at row));
  let next := run_generation row + 1 in
  changed ← update_read row (fun g => is_desired paused g && bool_decide (is_Some (pause_confirmed_at g)))
    (fun _ => continuation_columns next claimId_ (paused_ms row + completedPauseMs));
  if negb changed then mret false
  else
    _ ← clear_abort (current_task_id row);
    _ ← enqueue_job (job_of row next claimId_ false);
    mret true.
Definition continue_confirmed (latest : option GoalRow) : M unit :=
  match latest with
  | Some l => if bool_decide (is_Some (pause_confirmed_at l)) then _ ← beginPausedContinuation l; mret tt else mret tt
  | None => mret tt
  end.

Section Handlers.
(** SHA-256 and JSON of a payload *)
Variable sha256 : string -> string.
Variable stringify : list (string * string) -> string.
Definition mutationHash (operation : string) (payload : list (string * string)) : string :=
  sha256 (operation ++ String newline (stringify payload)).

(** ** Pause *)

Definition pause_columns (confirmed : bool) (t : Z) (g : GoalRow) : GoalRow :=
  { g with desired_state := paused; paused_at := Some t; pause_confirmed_at := if confirmed then Some t else None }.
Definition unclaimed (row : GoalRow) : bool := bool_decide (claimed_at row = None).
Definition is_terminal (row : GoalRow) : bool := bool_decide (is_Some (result_state row)) || is_desired cancelled row.
Definition pause (req : Req) : M Response :=
  findOwnedGoal req (fun row => requiredIdempotencyKey req (fun key =>
    let operation := "goal.pause" in
    let payloadHash := mutationHash operation [("goalId", goal_id row)] in
    unless_conflict (existingMutation row key operation payloadHash) (fun existing =>
      if bool_decide (is_Some (pause_confirmed_at row)) && match existing with Some _ => true | None => false end then mret (replied row)
      else if is_terminal row then mret (refused 409 "Goal is terminal")
      else
        changed ← (if is_desired paused row then mret true
                   else update_read row (is_desired running) (pause_columns (unclaimed row)));
        if negb changed then mret (refused 409 "Goal state changed before pause could be claimed")
        else
          _ ← stop_when (negb (hasNativeGoalControl (agent_type row)) && negb (unclaimed row)
                         && bool_decide (is_Some (truthy_string (session_id row))) && negb (bool_decide (is_Some (pause_confirmed_at row)))) (current_task_id row);
          _ ← recordControlMutation row key operation payloadHash;
          respondWithGoalTransition row))).

(** ** Resume *)

Definition resume_columns (bump : bool) (_ : Z) (g : GoalRow) : GoalRow :=
  { g with resume_requested := true; control_generation := if bump then control_generation g + 1 else control_generation g }.
Definition resume (req : Req) : M Response :=
  findOwnedGoal req (fun row => requiredIdempotencyKey req (fun key =>
    let session := bool_decide (is_Some (truthy_string (session_id row))) in
    let nativeResume := hasNativeGoalControl (agent_type row) && session in
    let resumeMessage := if session || negb (unclaimed row) then GOAL_CONTINUE_INPUT else initial_prompt row in
    let operation := "goal.resume" in
    let payloadHash := mutationHash operation [("goalId", goal_id row); if nativeResume then ("transport", "native-goal") else ("message", resumeMessage)] in
    unless_conflict (existingMutation row key operation payloadHash) (fun existing =>
      let resumeInserted := match existing with None => true | Some _ => false end in
      if negb resumeInserted && is_desired running row then mret (replied row)
      else if is_terminal row then mret (refused 409 "Goal is terminal")
      else if negb (is_desired paused row) then mret (refused 409 "Goal is not paused")
      else
        _ ← (if resumeInserted then
               if nativeResume then recordControlMutation row key operation payloadHash
               else _ ← addGoalInput row key resumeMessage "resume" (mutationHash operation [("goalId", goal_id row); ("message", resumeMessage)]); mret tt
             else mret tt);
        _ ← update_read row (is_desired paused) (resume_columns resumeInserted);
        latest ← current row;
        _ ← continue_confirmed latest;
        respondWithGoalTransition row))).

(** ** Cancel *)

Definition cancel_columns (pausedMs : Z) (_ : Z) (g : GoalRow) : GoalRow :=
  { g with desired_state := cancelled; paused_at := None; paused_ms := pausedMs }.
Definition cancelled_columns (t : Z) (g : GoalRow) : GoalRow := { g with result_state := Some r_cancelled; completed_at := Some t }.
Definition NATIVE_CLEAR : StopTaskExecutionResult := Stop false false false false 0.
Definition stopped_directly (r : StopTaskExecutionResult) : bool :=
  containerStopped r || notRunning r || notFound r || (0 <? removedQueuedJobs r).
Definition cancel (req : Req) : M Response :=
  findOwnedGoal req (fun row => requiredIdempotencyKey req (fun key =>
    let operation := "goal.cancel" in
    let payloadHash := mutationHash operation [("goalId", goal_id row)] in
    unless_conflict (existingMutation row key operation payloadHash) (fun existing =>
      match result_state row with
      | Some r_cancelled => mret (replied row)
      | Some _ => mret (refused 409 "Goal is already complete")
      | None =>
          finalPauseMs ← asks (local_elapsed (paused_at row));
          changed ← (if is_desired cancelled row then mret true
                     else update_read row (fun _ => true) (cancel_columns (paused_ms row + finalPauseMs)));
          if negb changed then mret (refused 409 "Goal state changed before cancellation could be claimed")
          else
            stopped ← (if hasNativeGoalControl (agent_type row) && negb (unclaimed row) then mret NATIVE_CLEAR else stop (current_task_id row));
            _ ← (if stopped_directly stopped then update_read row (is_desired cancelled) cancelled_columns else mret false);
            _ ← recordControlMutation row key operation payloadHash;
            respondWithGoalTransition row
      end))).

(** ** Remove *)

(** The row, and the rows of the tables that refer to it *)
Definition delete_goal (row : GoalRow) : Tx unit := fun s =>
  match goals s !! goal_id row with
  | Some g =>
      if owned_by (owner_id row) g then
        (Ok tt, { s with goals := delete (goal_id row) (goals s);
                         goal_inputs := filter (fun i => in_goal i <> goal_id row) (goal_inputs s);
                         goal_checkpoints := filter (fun c => cp_goal c <> goal_id row) (goal_checkpoints s);
                         goal_blockers := filter (fun b => b_goal b <> goal_id row) (goal_blockers s) })
      else (Ok tt, s)
  | None => (Ok tt, s)
  end.
Definition needs_stop (row : GoalRow) : bool :=
  bool_decide (result_state row = None)
  && match desired_state row with paused => negb (bool_decide (is_Some (pause_confirmed_at row))) | _ => true end.
Definition remove (req : Req) : M Response :=
  findOwnedGoal req (fun row =>
    let delete_row := _ ← transaction (delete_goal row); mret no_content in
    if negb (needs_stop row) then delete_row
    else
      fenced ← (if is_desired cancelled row then mret true
                else update_read row (fun _ => true) (fun _ g => { g with desired_state := cancelled; paused_at := None }));
      if negb fenced then mret (refused 409 "Goal state changed before deletion could stop it")
      else
        stopped ← stop (current_task_id row);
        if abortSignalled stopped && negb (containerStopped stopped) then mret (refused 409 "Goal is still stopping")
        else delete_row).

(** ** Model *)

Definition model_columns (model : string) (was_running confirmed : bool) (t : Z) (g : GoalRow) : GoalRow :=
  let g := { g with requested_model := model; control_generation := control_generation g + 1 } in
  if was_running
  then { g with desired_state := paused; paused_at := Some t; pause_confirmed_at := if confirmed then Some t else None; resume_requested := true }
  else g.
Definition continue_requested_boundary (boundary : option GoalRow) : M unit :=
  match boundary with
  | Some b => if is_desired paused b && bool_decide (is_Some (pause_confirmed_at b)) && resume_requested b
              then _ ← beginPausedContinuation b; mret tt else mret tt
  | None => mret tt
  end.
Definition requestModel (req : Req) (model : option string) : M Response :=
  findOwnedGoal req (fun row => requiredIdempotencyKey req (fun key =>
    let operation := "goal.model" in
    let payloadHash := mutationHash operation (("goalId", goal_id row) :: match model with Some m => [("model", m)] | None => [] end) in
    unless_conflict (existingMutation row key operation payloadHash) (fun existing =>
      match existing with
      | Some _ => mret (replied row)
      | None =>
          if bool_decide (is_Some (result_state row)) then mret (refused 409 "Goal is terminal")
          else
            supported ← asks (fun s => match model with Some m => model_supported (outside s) m | None => false end);
            if negb supported then mret (refused 400 "Unsupported model")
            else
              changed ← update_read row (fun _ => true) (model_columns (default "" model) (is_desired running row) (unclaimed row));
              if negb changed then mret (refused 409 "Goal state changed before the model request was saved")
              else
                _ ← stop_when (is_desired running row && negb (hasNativeGoalControl (agent_type row)) && negb (unclaimed row)
                               && bool_decide (is_Some (truthy_string (session_id row)))) (current_task_id row);
                boundary ← current row;
                _ ← continue_requested_boundary boundary;
                _ ← recordControlMutation row key operation payloadHash;
                respondWithGoalTransition row
      end))).

(** ** Input *)

Definition canned_input (name : string) : option string :=
  if bool_decide (name = "done") then Some "What's done?" else if bool_decide (name = "left") then Some "What's left?" else None.
Definition input_message (canned body : option string) : option string :=
  match truthy_string canned with Some c => canned_input c | None => body end.
Definition bump_columns (_ : Z) (g : GoalRow) : GoalRow := { g with control_generation := control_generation g + 1 }.
Definition interrupt_columns (confirmed bump : bool) (t : Z) (g : GoalRow) : GoalRow :=
  { g with desired_state := paused; paused_at := Some t; pause_confirmed_at := if confirmed then Some t else None; resume_requested := true;
           control_generation := if bump then control_generation g + 1 else control_generation g }.

Definition input_while_paused (row : GoalRow) (d : Disposition) : M unit :=
  let bump := match d with inserted => true | _ => negb (resume_requested row) end in
  _ ← update_read row (is_desired paused) (resume_columns bump);
  _ ← stop_when (negb (hasNativeGoalControl (agent_type row)) && negb (unclaimed row) && negb (bool_decide (is_Some (pause_confirmed_at row)))) (current_task_id row);
  latest ← current row;
  continue_confirmed latest.
Definition announce_input (row : GoalRow) (d : Disposition) : M unit :=
  match d with inserted => _ ← update_read row (is_desired running) bump_columns; mret tt | _ => mret tt end.
Definition input_before_session (row : GoalRow) (d : Disposition) : M unit :=
  _ ← announce_input row d;
  identified ← current row;
  match identified with
  | Some g =>
      if bool_decide (is_Some (truthy_string (session_id g))) && is_desired running g then
        paused_ ← update_read g (is_desired running) (interrupt_columns (unclaimed g) false);
        _ ← stop_when (paused_ && negb (unclaimed g)) (current_task_id g);
        boundary ← current row;
        if paused_ : bool then continue_confirmed boundary else mret tt
      else mret tt
  | None => mret tt
  end.
Definition input_interrupts (row : GoalRow) : M unit :=
  _ ← update_read row (is_desired running) (interrupt_columns (unclaimed row) true);
  _ ← stop_when (negb (unclaimed row)) (current_task_id row);
  boundary ← current row;
  continue_confirmed boundary.
Definition route_input (row : GoalRow) (d : Disposition) : M unit :=
  if is_desired paused row then input_while_paused row d
  else if hasNativeGoalControl (agent_type row) then announce_input row d
  else if negb (bool_decide (is_Some (truthy_string (session_id row)))) then input_before_session row d
  else input_interrupts row.
Definition addInput (req : Req) (canned body : option string) : M Response :=
  findOwnedGoal req (fun row => requiredIdempotencyKey req (fun key =>
    if is_terminal row then mret (refused 409 "Goal is terminal")
    else match input_message canned body with
    | None => mret (refused 400 "A valid message or canned status request is required")
    | Some message =>
        if bool_decide (trim message = "") || too_long message then mret (refused 400 "A valid message or canned status request is required")
        else
          let operation := "goal.input" in
          let payloadHash := mutationHash operation [("goalId", goal_id row); ("message", trim message)] in
          unless_conflict
            (existing ← existingMutation row key operation payloadHash;
             match existing with Some m => mret (disposition m) | None => addGoalInput row key (trim message) "input" payloadHash end)
            (fun d =>
              match d with
              | settled => reply_owned row
              | still_pending => if is_desired running row && unclaimed row then reply_owned row
                                 else _ ← route_input row d; respondWithGoalTransition row
              | inserted => _ ← route_input row d; respondWithGoalTransition row
              end)
    end)).

(** ** Continue *)

Definition buildGoalContinuationMessage (previousResult : ResultState) (failureReason operatorMessage : option string) : string :=
  let stopped := match previousResult with
    | r_failed => "the previous run failed" ++ match truthy_string (trim <$> failureReason) with Some r => ": " ++ r | None => "" end
    | r_cancelled => "it was cancelled"
    | r_completed => "it was completed"
    end in
  let lines := ["The user reopened this goal after " ++ stopped ++ ".";
                "Check the current state of the branch and pull request before repeating any work, then continue working toward the goal."] in
  join (String newline "") (lines ++ match truthy_string (trim <$> operatorMessage) with
                                     | Some added => [""; "The user added these instructions:"; added]
                                     | None => [] end)%list.

Definition reopen_columns (generation : Z) (claimId : string) (pausedMs : Z) (model : option string) (g : GoalRow) : GoalRow :=
  { g with result_state := None; failure_reason := None; completed_at := None; task_reconciled_at := None;
           desired_state := running; run_generation := generation; run_claim := Some claimId;
           claimed_at := None; attempt_heartbeat_at := None; active_turn_id := None;
           pause_confirmed_at := None; paused_at := None; resume_requested := false;
           paused_ms := pausedMs; continue_requested := true;
           requested_model := default (requested_model g) model;
           control_generation := control_generation g + 1 }.
Definition reopen_goal (row : GoalRow) (result : ResultState) (generation : Z) (claimId : string) (pausedMs : Z) (model : option string) (input : GoalInput) : Tx bool :=
  changed ← update_goal (goal_id row)
    (fun g => owned_by (owner_id row) g && bool_decide (run_generation g = run_generation row) && bool_decide (result_state g = Some result))
    (fun _ => reopen_columns generation claimId pausedMs model);
  if negb changed then mret false else _ ← insert_input input; mret true.
(** The answer to a request that was already carried out *)
Definition replay_of (row : GoalRow) (key operation payloadHash : string) (otherwise : M Response) : M Response :=
  unless_conflict (existingMutation row key operation payloadHash) (fun existing =>
    match existing with Some _ => reply_owned row | None => otherwise end).
Definition reopen (req : Req) (body model : option string) : M Response :=
  findOwnedGoal req (fun row => requiredIdempotencyKey req (fun key =>
    let message := trim (default "" body) in
    if too_long message then mret (refused 400 "Message is too long")
    else
      let operation := "goal.continue" in
      let payloadHash := mutationHash operation (("goalId", goal_id row) :: ("message", message) :: match model with Some m => [("model", m)] | None => [] end) in
      let replay := replay_of row key operation payloadHash in
      replay (
        supported ← asks (fun s => match model with Some m => model_supported (outside s) m | None => true end);
        if negb supported then mret (refused 400 "Unsupported model")
        else match result_state row with
        | None => mret (refused 409 (if is_desired cancelled row then "Goal is still being cancelled; continue it once the cancellation finishes"
                                     else "Goal is still active; send it input or resume it instead"))
        | Some result =>
            if bool_decide (task_reconciled_at row = None) then mret (refused 409 "Goal is still finalizing; try continuing again shortly")
            else
              let continuation := buildGoalContinuationMessage result (failure_reason row) (Some message) in
              if too_long continuation then mret (refused 400 "Message and attachment references are too long")
              else
                claimId_ ← randomUUID;
                inputId ← randomUUID;
                t ← asks now;
                let next := run_generation row + 1 in
                let input := new_input inputId (goal_id row) (owner_id row) key operation payloadHash (if bool_decide (message = "") then "resume" else "input") continuation pending in
                reopened ← attempt_ (transaction (reopen_goal row result next claimId_ (paused_ms row + elapsed (completed_at row) t) model input));
                match reopened with
                | Throw e => replay (throw e)
                | Ok false => replay (mret (refused 409 "Goal changed while it was being continued; reload it and try again"))
                | Ok true =>
                    _ ← clear_abort (current_task_id row);
                    _ ← catch (enqueue_job (job_of row next claimId_ false)) (fun _ => mret tt);
                    respondWithGoalTransition row
                end
        end))).

(** ** Create *)

Record GoalCreation := Creation {
  n_repository : string;
  n_objective : string;
  n_strategy : LaunchStrategy;
  n_base : option string;
  n_agent_type : string;
  n_model : string;
  n_context : string;
  n_hash : string;
}.
Definition new_goal (id owner key claimId : string) (c : GoalCreation) : GoalRow :=
  Goal id owner (n_repository c) (n_strategy c) ("/goal " ++ n_objective c) (truthy_string (n_base c)) None None (n_agent_type c) (n_model c)
    running None ("goal-" ++ id) None None 0 (Some claimId) None None None None false false None None 0 None 0 0 None None None None None None 0 None
    key "goal.create" (n_hash c).
Definition insert_goal (g : GoalRow) : Tx unit := fun s =>
  if bool_decide (is_Some (goals s !! goal_id g)) || existsb (fun r => created_with (owner_id g) (create_idempotency_key g) r || bool_decide (current_task_id r = current_task_id g)) (snd <$> map_to_list (goals s))
  then (Throw UNIQUE_FAILED, s)
  else (Ok tt, { s with goals := <[goal_id g := g]> (goals s) }).
Definition create_conflict (existing : option GoalRow) (c : GoalCreation) : option Response :=
  match existing with
  | None => None
  | Some g => Some (if bool_decide (create_idempotency_operation g = "goal.create") && bool_decide (create_payload_hash g = n_hash c)
                    then replied g else refused 409 "Idempotency-Key was already used for a different operation or payload")
  end.
Definition findExistingGoalCreation (owner key : string) (c : GoalCreation) : M (option Response) :=
  inputUse ← transaction (reads (fun s => head (input_where (same_key owner key) s)));
  checkpointUse ← transaction (checkpoint_where (checkpoint_key owner key));
  match inputUse, checkpointUse with
  | None, None =>
      existing ← transaction (reads (fun s => head (goals_where (created_with owner key) s)));
      mret (create_conflict existing c)
  | _, _ => mret (Some (refused 409 "Idempotency-Key was already used for a different operation or payload"))
  end.
Definition createGoal (req : Req) (c : GoalCreation) : M Response :=
  match truthy_string (user req) with
  | None => mret (refused 401 "Authentication required")
  | Some owner => requiredIdempotencyKey req (fun key =>
      existing ← findExistingGoalCreation owner key c;
      match existing with
      | Some r => mret r
      | None =>
          goalId_ ← randomUUID;
          claimId_ ← randomUUID;
          inputId ← randomUUID;
          let row := new_goal goalId_ owner key claimId_ c in
          let contextHash := mutationHash "goal.context" [("goalId", goalId_); ("message", n_context c)] in
          saved ← attempt_ (transaction (
            _ ← insert_goal row;
            insert_input (new_input inputId goalId_ owner ("goal-initial-context:" ++ goalId_) "goal.context" contextHash "context" (n_context c) pending)));
          match saved with
          | Throw e =>
              raced ← transaction (reads (fun s => head (goals_where (created_with owner key) s)));
              match create_conflict raced c with Some r => mret r | None => throw e end
          | Ok _ =>
              saved ← current row;
              queued ← attempt_ (enqueue_job (job_of row 0 claimId_ false));
              match queued, saved with
              | Ok _, Some g => mret (created g)
              | Ok _, None => throw "goal is undefined"
              | Throw _, _ => mret (refused 503 "Goal was saved but its first attempt could not be queued; recovery will retry it safely")
              end
          end
      end)
  end.
End Handlers.
