(* ===== verification/GoalRules.v ===== *)
(** * Goals: the life of a goal, and how steps are shown to respect it

    [transition] is the state machine of a goal's row, [input_step] the life of an input.
    [own] is what a program may do to the tables in one step: move goals along the state
    machine, only the rows that are its own, and settle or add inputs. The rules below show
    that a program built from the statements of Goals.v does nothing else, whatever other
    processes do between its statements. *)

From S2P Require Import Prelude JsString Interleave Goals GoalAttempt.

Open Scope string_scope.
Open Scope Z_scope.
Open Scope list_scope.

(** ** The state machine *)

(** What no operation changes; a session, once known, stays. *)
Definition kept (g g' : GoalRow) : Prop :=
  goal_id g' = goal_id g /\ owner_id g' = owner_id g /\ repository g' = repository g /\ current_task_id g' = current_task_id g
  /\ launch_strategy g' = launch_strategy g /\ agent_type g' = agent_type g /\ initial_prompt g' = initial_prompt g
  /\ create_idempotency_key g' = create_idempotency_key g
  /\ forall x, session_id g = Some x -> session_id g' = Some x.
Definition same_run (g g' : GoalRow) : Prop :=
  run_generation g' = run_generation g /\ run_claim g' = run_claim g /\ claimed_at g' = claimed_at g.
(** The next generation, to be claimed under a new identifier *)
Definition next_run (g g' : GoalRow) : Prop :=
  run_generation g' = run_generation g + 1 /\ is_Some (run_claim g') /\ claimed_at g' = None.

(** [racy] admits what only an unfenced race does: taking back a cancellation. *)
Inductive transition (racy : bool) (g g' : GoalRow) : Prop :=
  | edited : kept g g' -> same_run g g' -> desired_state g' = desired_state g -> result_state g' = result_state g -> transition racy g g'
  | identified : kept g g' -> run_generation g' = run_generation g -> run_claim g = None -> is_Some (run_claim g') ->
      claimed_at g' = claimed_at g -> desired_state g' = desired_state g -> result_state g' = result_state g -> transition racy g g'
  | claimed : kept g g' -> run_generation g' = run_generation g -> run_claim g' = run_claim g -> claimed_at g = None -> is_Some (claimed_at g') ->
      desired_state g = running -> desired_state g' = running -> result_state g = None -> result_state g' = None -> transition racy g g'
  | interrupted : kept g g' -> same_run g g' -> desired_state g = running -> desired_state g' = paused ->
      result_state g = None -> result_state g' = None -> transition racy g g'
  | withdrawn : kept g g' -> same_run g g' -> desired_state g' = cancelled ->
      result_state g = None -> result_state g' = None -> transition racy g g'
  | rotated : kept g g' -> next_run g g' -> desired_state g <> cancelled \/ racy = true -> desired_state g' = running ->
      result_state g = None -> result_state g' = None -> transition racy g g'
  | requeued : kept g g' -> next_run g g' -> claimed_at g = None -> desired_state g' = desired_state g ->
      result_state g = None -> result_state g' = None -> transition racy g g'
  | finished r : kept g g' -> same_run g g' -> desired_state g' = desired_state g ->
      result_state g = None -> result_state g' = Some r -> r = r_cancelled \/ desired_state g = running -> transition racy g g'
  | reopened : kept g g' -> next_run g g' -> desired_state g' = running ->
      is_Some (result_state g) -> result_state g' = None -> continue_requested g' = true -> transition racy g g'
  | revived : racy = true -> kept g g' -> same_run g g' -> desired_state g = cancelled -> desired_state g' = paused ->
      result_state g = None -> result_state g' = None -> transition racy g g'.
Definition moves (racy : bool) : GoalRow -> GoalRow -> Prop := rtc (transition racy).

Lemma transition_racy g g' : transition false g g' -> forall racy, transition racy g g'.
Proof.
  intros H racy. destruct H; try discriminate.
  - by apply edited. - by apply identified. - by apply claimed. - by apply interrupted. - by apply withdrawn.
  - apply rotated; try done. destruct H1; [by left|done]. - by apply requeued. - by eapply finished. - by apply reopened.
Qed.
Lemma moves_racy racy g g' : moves false g g' -> moves racy g g'.
Proof. intros H. eapply rtc_subrel; [|exact H]. intros x y Hxy. by apply transition_racy. Qed.

(** A goal as [createGoal] makes it *)
Definition newborn (g : GoalRow) : Prop :=
  desired_state g = running /\ result_state g = None /\ run_generation g = 0 /\ is_Some (run_claim g) /\ claimed_at g = None /\ session_id g = None.

(** ** The life of an input *)

Definition input_step (i i' : GoalInput) : Prop :=
  sequence i' = sequence i /\ input_id i' = input_id i /\ in_goal i' = in_goal i /\ in_owner i' = in_owner i
  /\ idempotency_key i' = idempotency_key i /\ operation i' = operation i /\ payload_hash i' = payload_hash i /\ kind i' = kind i
  /\ (in_state i <> pending -> i' = i).
Definition input_key (i : GoalInput) : string * string := (in_owner i, idempotency_key i).
Definition wf_inputs (l : list GoalInput) : Prop := NoDup (input_id <$> l) /\ NoDup (input_key <$> l).
Definition inputs_grow (l l' : list GoalInput) : Prop := exists kept_ new, l' = kept_ ++ new /\ Forall2 input_step l kept_.

Lemma input_step_refl i : input_step i i.
Proof. by repeat split. Qed.
Lemma input_step_trans i j k : input_step i j -> input_step j k -> input_step i k.
Proof.
  intros (?&?&?&?&?&?&?&?&Hij) (?&?&?&?&?&?&?&?&Hjk). unfold input_step. split_and!; try congruence.
  intros Hi. specialize (Hij Hi) as ->. auto.
Qed.
Lemma steps_refl l : Forall2 input_step l l.
Proof. induction l; constructor; [apply input_step_refl|done]. Qed.
Lemma inputs_grow_refl l : inputs_grow l l.
Proof. exists l, []. split; [by rewrite app_nil_r|apply steps_refl]. Qed.
Lemma Forall2_step_trans l l' l'' : Forall2 input_step l l' -> Forall2 input_step l' l'' -> Forall2 input_step l l''.
Proof.
  intros H. revert l''. induction H as [|x y l l' Hxy Hl IH]; intros l'' H'; inversion H'; subst; constructor.
  - by eapply input_step_trans. - by apply IH.
Qed.
Lemma inputs_grow_trans l l' l'' : inputs_grow l l' -> inputs_grow l' l'' -> inputs_grow l l''.
Proof.
  intros (k & n & -> & Hk) (k' & n' & -> & Hk'). apply Forall2_app_inv_l in Hk' as (k1 & k2 & H1 & H2 & ->).
  exists k1, (k2 ++ n'). split; [by rewrite app_assoc|]. by eapply Forall2_step_trans.
Qed.

Section Own.
Variable racy : bool.
(** The rows this program may write *)
Variable mine : string -> option GoalRow -> Prop.

Definition own_tables (G : gmap string GoalRow) (L : list GoalInput) (G' : gmap string GoalRow) (L' : list GoalInput) : Prop :=
  (forall id, mine id (G !! id) \/ G' !! id = G !! id)
  /\ (L' = L \/ exists id, mine id (G !! id))
  /\ (wf_inputs L -> wf_inputs L' /\ inputs_grow L L')
  /\ (forall id g, G !! id = Some g -> exists g', G' !! id = Some g' /\ moves racy g g')
  /\ (forall id g', G !! id = None -> G' !! id = Some g' -> exists g0, newborn g0 /\ moves racy g0 g').
Definition own (s s' : gdb) : Prop := own_tables (goals s) (goal_inputs s) (goals s') (goal_inputs s').

Lemma own_same s s' : goals s' = goals s -> goal_inputs s' = goal_inputs s -> own s s'.
Proof.
  intros Hg Hi. unfold own, own_tables. rewrite Hg, Hi. split_and!; [by right|by left| | |].
  - intros H. split; [done|apply inputs_grow_refl].
  - intros id g H. exists g. split; [done|constructor].
  - intros id g' H H'. congruence.
Qed.
Lemma own_table_refl s : own s s.
Proof. by apply own_same. Qed.
Lemma own_trans s1 s2 s3 : own s1 s2 -> own s2 s3 -> own s1 s3.
Proof.
  intros (A1 & B1 & C1 & D1 & E1) (A2 & B2 & C2 & D2 & E2). unfold own, own_tables. split_and!.
  - intros id. destruct (A1 id) as [|H1]; [by left|]. destruct (A2 id) as [H2|H2]; [left; by rewrite <- H1|right; congruence].
  - destruct B1 as [H1|]; [|by right]. destruct B2 as [H2|[id H2]]; [left; congruence|].
    right. exists id. destruct (A1 id) as [|H]; [done|]. by rewrite <- H.
  - intros H. destruct (C1 H) as [H1 H1']. destruct (C2 H1) as [H2 H2']. split; [done|]. by eapply inputs_grow_trans.
  - intros id g H. destruct (D1 id g H) as (g' & H1 & H1'). destruct (D2 id g' H1) as (g'' & H2 & H2').
    exists g''. split; [done|]. by etrans.
  - intros id g'' H H''. destruct (goals s2 !! id) as [g'|] eqn:E.
    + destruct (E1 id g' H E) as (g0 & H0 & H0'). destruct (D2 id g' E) as (g1 & H1 & H1'). exists g0. split; [done|].
      replace g'' with g1 by congruence. by etrans.
    + by apply (E2 id).
Qed.

(** ** Transactions *)

Definition tx {A} (pre : gdb -> Prop) (t : Tx A) (post : A -> gdb -> Prop) : Prop := forall s, pre s ->
  own s (snd (t s)) /\ match fst (t s) with Ok a => post a (snd (t s)) | Throw _ => True end.
Definition any : gdb -> Prop := fun _ => True.
Definition whatever {A} : A -> gdb -> Prop := fun _ _ => True.

Lemma tx_ret {A} (pre : gdb -> Prop) (a : A) (post : A -> gdb -> Prop) : (forall s, pre s -> post a s) -> tx pre (mret a) post.
Proof. intros H s Hs. split; [apply own_table_refl|by apply H]. Qed.
Lemma tx_fails {A} pre e (post : A -> gdb -> Prop) : tx pre (fails e) post.
Proof. intros s Hs. split; [apply own_table_refl|done]. Qed.
Lemma tx_reads {A} (pre : gdb -> Prop) (f : gdb -> A) (post : A -> gdb -> Prop) : (forall s, pre s -> post (f s) s) -> tx pre (reads f) post.
Proof. intros H s Hs. split; [apply own_table_refl|by apply H]. Qed.
Lemma tx_bind {A B} pre (t : Tx A) (f : A -> Tx B) mid post : tx pre t mid -> (forall a, tx (mid a) (f a) post) -> tx pre (t ≫= f) post.
Proof.
  intros Ht Hf s Hs. destruct (Ht s Hs) as [Ho Hm]. unfold mbind, Tx_bind. destruct (t s) as [[a|e] s1]; simpl in *; [|done].
  destruct (Hf a s1 Hm) as [Ho' Hp]. split; [by eapply own_trans|done].
Qed.
Lemma tx_weaken {A} (pre pre' : gdb -> Prop) (t : Tx A) (post post' : A -> gdb -> Prop) :
  (forall s, pre s -> pre' s) -> (forall a s, post' a s -> post a s) -> tx pre' t post' -> tx pre t post.
Proof. intros H1 H2 H s Hs. destruct (H s (H1 s Hs)) as [Ho Hp]. split; [done|]. destruct (fst (t s)); auto. Qed.

Lemma tx_update_goal_at (pre : gdb -> Prop) id where_ set :
  (forall s g, pre s -> goals s !! id = Some g -> where_ g = true -> mine id (Some g) /\ moves racy g (set (now s) g)) ->
  tx pre (update_goal id where_ set) (fun b s => b = true -> exists t g, where_ g = true /\ goals s !! id = Some (set t g)).
Proof.
  intros H s Hs. unfold update_goal. destruct (goals s !! id) as [g|] eqn:E; [|split; [apply own_table_refl|done]].
  destruct (bool_decide (goal_id g = id) && where_ g) eqn:Ew; [|split; [apply own_table_refl|done]].
  apply andb_prop in Ew as [_ Ew]. destruct (H s g Hs E Ew) as [Hm Hmv].
  split; [|intros _; exists (now s), g; split; [done|apply lookup_insert_eq]].
  change (own_tables (goals s) (goal_inputs s) (<[id := set (now s) g]> (goals s)) (goal_inputs s)). split_and!.
  - intros id'. destruct (decide (id' = id)) as [->|]; [left; by rewrite E|right; by rewrite lookup_insert_ne].
  - by left.
  - intros Hw. split; [done|apply inputs_grow_refl].
  - intros id' g' H'. destruct (decide (id' = id)) as [->|].
    + rewrite lookup_insert_eq. eexists; split; [done|]. by replace g' with g by congruence.
    + rewrite lookup_insert_ne by done. exists g'. split; [done|constructor].
  - intros id' g' H'. rewrite lookup_insert_ne by congruence. congruence.
Qed.
Lemma tx_update_goal (pre : gdb -> Prop) id where_ set :
  (forall s g, pre s -> goals s !! id = Some g -> where_ g = true -> mine id (Some g) /\ moves racy g (set (now s) g)) ->
  tx pre (update_goal id where_ set) whatever.
Proof. intros H. eapply tx_weaken; [| |by apply tx_update_goal_at]; done. Qed.

Lemma tx_update_or_fail (pre : gdb -> Prop) id where_ set e :
  (forall s g, pre s -> goals s !! id = Some g -> where_ g = true -> mine id (Some g) /\ moves racy g (set (now s) g)) ->
  tx pre (changed ← update_goal id where_ set; if changed : bool then mret tt else fails e) whatever.
Proof.
  intros H. eapply tx_bind with (mid := fun _ _ => True); [by apply tx_update_goal|]. intros []; [by apply tx_ret|apply tx_fails].
Qed.

Lemma wf_steps l l' : Forall2 input_step l l' -> wf_inputs l -> wf_inputs l'.
Proof.
  intros H. assert (E : input_id <$> l' = input_id <$> l /\ input_key <$> l' = input_key <$> l).
  { induction H as [|i i' l l' Hi Hl [IH1 IH2]]; [done|]. rewrite !fmap_cons, IH1, IH2. unfold input_key.
    destruct Hi as (?&->&?&->&->&?). done. }
  unfold wf_inputs. destruct E as [-> ->]. done.
Qed.
Lemma own_inputs s l : (exists id, mine id (goals s !! id)) -> (wf_inputs (goal_inputs s) -> Forall2 input_step (goal_inputs s) l) ->
  own s { s with goal_inputs := l }.
Proof.
  intros Hm Hl. change (own_tables (goals s) (goal_inputs s) (goals s) l). split_and!; [by right|by right| | |].
  - intros Hw. specialize (Hl Hw). split; [by eapply wf_steps|]. exists l, []. by rewrite app_nil_r.
  - intros id g H. exists g. split; [done|constructor].
  - congruence.
Qed.
Lemma tx_update_inputs_at (pre : gdb -> Prop) (where_ : GoalInput -> bool) set :
  (forall s, pre s -> exists id, mine id (goals s !! id)) ->
  (forall s, pre s -> wf_inputs (goal_inputs s) -> Forall2 input_step (goal_inputs s) ((fun i => if where_ i then set i else i) <$> goal_inputs s)) ->
  tx pre (update_inputs where_ set) (fun _ s => exists s0, pre s0 /\ goals s = goals s0).
Proof. intros Hm Hset s Hs. split; [|by exists s]. apply own_inputs; [by apply Hm|by apply Hset]. Qed.
Lemma tx_update_inputs (pre : gdb -> Prop) where_ set :
  (forall s, pre s -> exists id, mine id (goals s !! id)) -> (forall i, where_ i = true -> input_step i (set i)) ->
  tx pre (update_inputs where_ set) (fun _ s => exists s0, pre s0 /\ goals s = goals s0).
Proof.
  intros Hm Hset. apply tx_update_inputs_at; [done|]. intros s _ _.
  induction (goal_inputs s) as [|i l IH]; constructor; [|done]. destruct (where_ i) eqn:E; [by apply Hset|apply input_step_refl].
Qed.

Lemma tx_insert_input (pre : gdb -> Prop) i :
  (forall s g, pre s -> goals s !! in_goal i = Some g -> mine (in_goal i) (Some g)) -> tx pre (insert_input i) whatever.
Proof.
  intros Hm s Hs. unfold insert_input. destruct (goals s !! in_goal i) as [g|] eqn:Eg; [|split; [apply own_table_refl|done]].
  destruct (existsb _ _) eqn:Ek; [split; [apply own_table_refl|done]|]. split; [|done].
  change (own_tables (goals s) (goal_inputs s) (goals s) (goal_inputs s ++ [{ i with sequence := last_sequence s + 1 }])). split_and!.
  - by right.
  - right. exists (in_goal i). rewrite Eg. by eapply Hm.
  - intros [H1 H2]. assert (Hn : forall i', i' ∈ goal_inputs s -> input_id i' <> input_id i /\ input_key i' <> input_key i).
    { intros i' Hi'. assert (Hc : same_key (in_owner i) (idempotency_key i) i' || bool_decide (input_id i' = input_id i) = false).
      { apply not_true_iff_false. intros Hc. rewrite <- not_true_iff_false in Ek. apply Ek, existsb_exists. exists i'.
        split; [by apply list_elem_of_In|done]. }
      apply orb_false_iff in Hc as [Hk Hid]. apply bool_decide_eq_false in Hid. split; [done|].
      intros [= Ho Hi]. unfold same_key in Hk. by rewrite Ho, Hi, !bool_decide_true in Hk. }
    split; [|exists (goal_inputs s); eexists; split; [done|apply steps_refl]]. unfold wf_inputs. rewrite !fmap_app, !NoDup_app.
    split_and!; try done; try apply NoDup_singleton;
      intros x (i' & -> & Hi')%list_elem_of_fmap; cbn; rewrite list_elem_of_singleton; by apply Hn.
  - intros id g' H. exists g'. split; [done|constructor].
  - congruence.
Qed.

(** Statements on other tables *)
Lemma tx_elsewhere {A} (pre : gdb -> Prop) (t : Tx A) (post : A -> gdb -> Prop) :
  (forall s, goals (snd (t s)) = goals s /\ goal_inputs (snd (t s)) = goal_inputs s) ->
  (forall s a, pre s -> fst (t s) = Ok a -> post a (snd (t s))) -> tx pre t post.
Proof.
  intros H Hp s Hs. destruct (H s). split; [by apply own_same|]. destruct (fst (t s)) eqn:E; [by apply Hp|done].
Qed.

(** ** Programs *)

Abbreviation ok := (steps own).

Lemma ok_elsewhere {A} (f : gdb -> A * gdb) : (forall s, goals (snd (f s)) = goals s /\ goal_inputs (snd (f s)) = goal_inputs s) -> ok (call f).
Proof. intros H. apply steps_call. intros s. by apply own_same; apply H. Qed.
Lemma ok_asks {A} (f : gdb -> A) : ok (asks f).
Proof. by apply ok_elsewhere. Qed.
Lemma ok_or_throw {A} (r : result A) : ok (or_throw r).
Proof. destruct r; [apply steps_ret|apply steps_throw]. Qed.
Lemma ok_external {A} (f : Outside -> result A) : ok (external f).
Proof. apply steps_bind; [apply ok_asks|apply ok_or_throw]. Qed.
Lemma ok_uuid : ok randomUUID.
Proof. by apply ok_elsewhere. Qed.
Lemma add_job_elsewhere data s : goals (add_job data s) = goals s /\ goal_inputs (add_job data s) = goal_inputs s.
Proof. unfold add_job. by destruct (queue s !! _). Qed.
Lemma ok_enqueue data : ok (enqueue_job data).
Proof.
  apply steps_bind; [|apply ok_or_throw]. apply ok_elsewhere. intros s. destruct (jobs (outside s)); cbn; [apply add_job_elsewhere|done|apply add_job_elsewhere].
Qed.
Lemma ok_clear_abort task : ok (clear_abort task).
Proof. apply steps_bind; [|apply ok_or_throw]. apply ok_elsewhere. intros s. by destruct (abort_flag (outside s)). Qed.

Lemma ok_transaction {A} (t : Tx A) : tx any t whatever -> ok (transaction t).
Proof.
  intros H. apply steps_bind; [|apply ok_or_throw]. apply steps_call. intros s. destruct (H s I) as [Ho _].
  unfold commits. destruct (database (outside s)); cbn; [|apply own_table_refl|];
    destruct (t s) as [[a|e] s']; simpl in *; try done; apply own_table_refl.
Qed.
Lemma ok_read {A} (f : gdb -> A) : ok (transaction (reads f)).
Proof. by apply ok_transaction, tx_reads. Qed.
Lemma ok_update id where_ set :
  (forall t g, where_ g = true -> mine id (Some g) /\ moves racy g (set t g)) -> ok (transaction (update_goal id where_ set)).
Proof. intros H. apply ok_transaction, tx_update_goal. intros s g _ _. apply H. Qed.
Lemma ok_close id scope r : ok (transaction (closeGoalBlockers id scope r)).
Proof. by apply ok_transaction, tx_elsewhere. Qed.
End Own.
Create HintDb goal_steps.
#[export] Hint Resolve ok_asks ok_external ok_uuid ok_enqueue ok_clear_abort ok_read ok_close ok_or_throw : goal_steps.

(** One move of a row, by the constructor of [transition] that fits *)
Ltac one_move := first [by apply rtc_refl | apply rtc_once;
  first [by apply edited | by apply interrupted | by apply withdrawn | by eapply finished; auto | by apply requeued ]].
(** The shape of a program *)
Ltac program :=
  repeat first
    [ solve [auto with goal_steps]
    | match goal with
      | |- steps _ (_ ≫= _) => apply steps_bind; [|intros ?]
      | |- steps _ (catch _ _) => apply steps_catch; [|intros ?]
      | |- steps _ (mret _) => apply steps_ret
      | |- steps _ (throw _) => apply steps_throw
      | |- steps _ (match ?x with _ => _ end) => destruct x
      | |- steps _ ((match ?x with _ => _ end) _) => destruct x
      end ].
