(* ===== verification/GoalSteps.v ===== *)
(** * Goals: an attempt writes only what is its own

    Every statement of the worker's job (GoalAttempt.v, GoalCheckpoint.v,
    GoalContinuation.v, GoalWorker.v) is shown to be a step of [own] for the rows of its
    attempt, whatever the agent does and other processes do. *)

From S2P Require Import Prelude JsString Interleave Json GoalDeclaration Goals GoalAttempt GoalCheckpoint GoalContinuation GoalWorker GoalRules.

Open Scope string_scope.
Open Scope Z_scope.

(** The row is the goal of the job, in the job's attempt. *)
Definition attempt_of (job : GoalJobData) (id : string) (row : option GoalRow) : Prop :=
  id = goalId job /\ exists g, row = Some g /\ run_generation g = generation job /\ run_claim g = Some (claimId job).

(** The conditions of a WHERE clause as propositions *)
Ltac where_holds :=
  unfold attemptWhere, running_attempt, attempt_row, is_pending in *;
  repeat match goal with
  | H : (_ && _) = true |- _ => apply andb_prop in H; destruct H
  | H : bool_decide _ = true |- _ => apply bool_decide_eq_true in H
  end.
Ltac own_row := intros; where_holds; split; [try (split; [done|eexists; split_and!; [done|congruence..]])|try one_move].

Section Worker.
Variable racy : bool.
Variable job : GoalJobData.
Abbreviation P := (own racy (attempt_of job)).
Abbreviation ok := (steps P).

(** ** The attempt *)

Lemma ok_fencedGoal : ok (fencedGoal job).
Proof. apply ok_read. Qed.
Lemma ok_claim : ok (claimGoalAttempt job).
Proof.
  unfold claimGoalAttempt. program; try apply ok_fencedGoal. apply ok_update. own_row.
  apply rtc_once, claimed; try done; by eexists.
Qed.
Lemma ok_fencedUpdate values :
  (forall t g, result_state g = None -> moves racy g (values t g)) -> ok (fencedGoalUpdate job values).
Proof. intros H. apply ok_update. own_row. by apply H. Qed.

Lemma ok_saveSession session conversation : ok (saveFencedGoalSession job session conversation).
Proof.
  eapply ok_transaction, tx_bind with (mid := fun o s => forall g, o = Some g -> goals s !! goalId job = Some g).
  { apply tx_reads. intros s _ g. destruct (goals s !! goalId job) as [g'|]; [|done]. by destruct (bool_decide _ && _). }
  intros [g|]; [|by apply tx_ret]. destruct (assertProviderIdentityMatches _ _ _); [|apply tx_fails].
  eapply tx_update_goal. intros s g' Hs Hg Hw. replace g' with g in * by (specialize (Hs g eq_refl); congruence). own_row.
  apply rtc_once, edited; try done. repeat split; try done. cbn. by intros x ->.
Qed.
Lemma ok_closeAttempt : ok (closeAttemptBlockers job).
Proof. unfold closeAttemptBlockers. program. Qed.
Lemma ok_load : ok (load job).
Proof. unfold load. program; apply ok_fencedGoal. Qed.
Lemma ok_fenced b e : ok (or_fenced b e).
Proof. unfold or_fenced. program. Qed.
Lemma ok_heartbeat : ok (heartbeat job).
Proof. unfold heartbeat. program; [|apply ok_fenced]. apply ok_fencedUpdate. intros. one_move. Qed.
Lemma ok_setActiveTurn turn : ok (setActiveTurn job turn).
Proof. unfold setActiveTurn. program; [|apply ok_fenced]. apply ok_fencedUpdate. intros. one_move. Qed.

(** A transaction that found its attempt in place *)
Definition holds (s : gdb) : Prop := exists g, goals s !! goalId job = Some g /\ run_generation g = generation job /\ run_claim g = Some (claimId job).
Lemma holds_mine s : holds s -> exists id, attempt_of job id (goals s !! id).
Proof. intros (g & H & Hr). exists (goalId job). split; [done|]. by exists g. Qed.
Lemma tx_owned {A} (t : GoalRow -> Tx A) (none : Tx A) post :
  (forall g, tx racy (attempt_of job) holds (t g) post) -> tx racy (attempt_of job) any none post ->
  tx racy (attempt_of job) any (g ← owned job; match g with Some g => t g | None => none end) post.
Proof.
  intros H H0. eapply tx_bind with (mid := fun o s => is_Some o -> holds s).
  - apply tx_reads. intros s _. destruct (goals s !! goalId job) as [g|] eqn:E; [|by intros []].
    destruct (bool_decide (goal_id g = goalId job) && attemptWhere job g) eqn:Ew; [|intros [? [=]]]. intros _. where_holds. by exists g.
  - intros [g|]; [eapply tx_weaken; [|done|apply H]; intros s Hs; apply Hs; by eexists|]. eapply tx_weaken; [exact (fun _ _ => I)|done|exact H0].
Qed.
Lemma tx_acknowledge (pre : gdb -> Prop) where_ :
  (forall g, where_ g = true -> run_generation g = generation job /\ run_claim g = Some (claimId job)) ->
  tx racy (attempt_of job) pre (update_goal (goalId job) where_ (fun _ g => { g with control_ack_generation := control_generation g })) whatever.
Proof. intros H. apply tx_update_goal. intros s g _ _ [H1 H2]%H. split; [|one_move]. split; [done|]. by exists g. Qed.
Lemma attemptWhere_mine g : attemptWhere job g = true -> run_generation g = generation job /\ run_claim g = Some (claimId job).
Proof. intros. by where_holds. Qed.
Lemma attempt_row_mine g : attempt_row job g = true -> run_generation g = generation job /\ run_claim g = Some (claimId job).
Proof. intros. by where_holds. Qed.

Lemma settles (where_ : GoalInput -> bool) i i' :
  in_state i = pending -> sequence i' = sequence i -> input_id i' = input_id i -> in_goal i' = in_goal i -> in_owner i' = in_owner i ->
  idempotency_key i' = idempotency_key i -> operation i' = operation i -> payload_hash i' = payload_hash i -> kind i' = kind i -> input_step i i'.
Proof. intros. unfold input_step. split_and!; try done. Qed.
Lemma ok_settle id fenced set : (forall i, in_state i = pending -> input_step i (set i)) -> ok (settle_input job id fenced set).
Proof.
  intros Hset. eapply ok_transaction, tx_owned; [|apply tx_fails]. intros g.
  eapply tx_bind; [apply tx_update_inputs; [apply holds_mine|]|].
  - intros i Hi. where_holds. by apply Hset.
  - intros n. simpl. destruct (negb _); [apply tx_fails|]. eapply tx_bind; [by apply tx_acknowledge, attemptWhere_mine|]. intros b. by apply tx_ret.
Qed.
Lemma ok_delivered id turn : ok (markInputDelivered job id turn).
Proof. apply ok_settle. intros i Hi. by apply (settles (fun _ => true)). Qed.
Lemma ok_undeliverable id reason : ok (markInputUndeliverable job id reason).
Proof. apply ok_settle. intros i Hi. by apply (settles (fun _ => true)). Qed.

Lemma ok_report bound report : ok (reportBlocker bound job report).
Proof.
  unfold reportBlocker. program. eapply ok_transaction, tx_owned; [|by apply tx_ret].
  intros g. apply tx_elsewhere; [|done]. intros s. unfold recordGoalBlocker, reads, mbind, Tx_bind.
  destruct (head _); [|done]. by destruct (negb _ || negb _).
Qed.
Lemma ok_resolve key r : ok (resolveBlocker job key r).
Proof. unfold resolveBlocker. program. eapply ok_transaction. by apply tx_elsewhere. Qed.

Lemma ok_next goal rec : desired_state goal <> cancelled \/ racy = true -> ok (enqueueNextGoalAttempt goal job rec).
Proof.
  intros Hd. unfold enqueueNextGoalAttempt. program. apply ok_update. own_row.
  apply rtc_once, rotated; try done; [|by replace (desired_state g) with (desired_state goal)].
  split_and!; [|by eexists|done]. by match goal with H : run_generation g = _ |- _ => rewrite H end.
Qed.
End Worker.
#[export] Hint Resolve ok_fencedGoal ok_closeAttempt ok_load ok_fenced ok_saveSession ok_delivered ok_undeliverable : goal_steps.

Section Job.
Variable racy : bool.
Variable job : GoalJobData.
Abbreviation P := (own racy (attempt_of job)).
Abbreviation ok := (steps P).
Variable bound_text : string -> string.
Variable request_hash : string -> GoalCheckpointRequest -> option string -> string.
Variable json_parse : string -> option json.
Variable agentFailureLine : string -> option string.
Variable executeTask : ExecutionRequest -> Provider.

(** ** Checkpoints *)

Lemma ok_checkpoints where_ set : ok (transaction (update_checkpoints where_ set)).
Proof. by apply ok_transaction, tx_elsewhere. Qed.
Lemma insert_checkpoint_elsewhere c s : goals (snd (insert_checkpoint c s)) = goals s /\ goal_inputs (snd (insert_checkpoint c s)) = goal_inputs s.
Proof. unfold insert_checkpoint. destruct (goals s !! _); [|done]. by destruct (existsb _ _). Qed.
Lemma ok_insert_checkpoint c : ok (transaction (insert_checkpoint c)).
Proof. apply ok_transaction, tx_elsewhere; [apply insert_checkpoint_elsewhere|done]. Qed.
Lemma ok_goal_where id where_ : ok (transaction (goal_where id where_)).
Proof. apply ok_read. Qed.
Lemma ok_checkpoint_where where_ : ok (transaction (checkpoint_where where_)).
Proof. apply ok_read. Qed.
Hint Resolve ok_checkpoints ok_insert_checkpoint ok_goal_where ok_checkpoint_where : goal_steps.

Lemma ok_attempt_row values : (forall t g, result_state g = None -> moves racy g (values t g)) ->
  ok (transaction (update_goal (goalId job) (attempt_row job) values)).
Proof. intros H. apply ok_update. own_row. by apply H. Qed.

Lemma ok_publish_work goal id : ok (publish_work job goal id).
Proof. unfold publish_work. program. apply ok_attempt_row. intros. one_move. Qed.
Lemma ok_publication_failed request id e : ok (publication_failed job request id e).
Proof. unfold publication_failed. program. apply ok_attempt_row. intros. one_move. Qed.
Hint Resolve ok_publish_work ok_publication_failed : goal_steps.
Lemma ok_publish request : ok (publishDirectGoalCheckpoint request_hash job request).
Proof. unfold publishDirectGoalCheckpoint, publishLocked. program; unfold open_checkpoint; program. Qed.
Lemma ok_reject request e : ok (rejectDirectGoalCheckpoint request_hash job request e).
Proof.
  unfold rejectDirectGoalCheckpoint. program. apply ok_transaction.
  eapply tx_bind with (mid := fun _ _ => True); [apply tx_elsewhere; [apply insert_checkpoint_elsewhere|done]|]. intros _.
  apply tx_update_or_fail. own_row.
Qed.
Hint Resolve ok_publish ok_reject : goal_steps.

(** ** Continuation *)

Lemma ok_guard lost : ok (attemptClaimGuard job lost).
Proof. unfold attemptClaimGuard. program. Qed.
Lemma ok_retry {A} (m : M A) c : ok m -> ok c -> ok (retryTransient m c).
Proof. intros. unfold retryTransient. program. Qed.
Lemma ok_rebuild c : ok c -> ok (rebuildWorktree c).
Proof. intros. unfold rebuildWorktree. program. Qed.
Lemma ok_draft c : ok c -> ok (convertToDraft c).
Proof. intros. unfold convertToDraft. program. Qed.
Lemma ok_cleanup c : ok c -> ok (cleanupWorktree c).
Proof. intros. unfold cleanupWorktree. program. Qed.
Lemma ok_isDirectory path : ok (isDirectory path).
Proof. apply ok_asks. Qed.
Hint Resolve ok_guard ok_retry ok_rebuild ok_draft ok_cleanup ok_isDirectory : goal_steps.

Definition same_goal (goal : GoalRow) : Prop := goal_id goal = goalId job.
Lemma ok_obligation goal : same_goal goal -> ok (persistRestorationObligation job goal).
Proof.
  intros Hid. unfold persistRestorationObligation. program. apply ok_transaction, tx_owned; [|apply tx_fails]. intros _.
  eapply tx_bind with (mid := fun _ => holds job); [by apply tx_reads|]. intros []; [|by apply tx_ret].
  apply tx_insert_input. intros s g (g' & Hg' & Hr) Hg. cbn in *. split; [done|]. exists g'. split; [congruence|done].
Qed.
Lemma ok_restore goal : same_goal goal -> ok (restoreMissingGoalWorktree job goal).
Proof.
  intros Hid. pose proof (ok_obligation goal Hid). unfold restoreMissingGoalWorktree. program.
  apply ok_transaction, tx_update_or_fail. own_row.
Qed.

Lemma apply_updates_move u g : moves racy g (apply_updates u g).
Proof. unfold apply_updates. destruct (forget_pull u), (fresh_branch u), (rebuilt_at u); one_move. Qed.

(** The row of an identifier is unique. *)
Lemma update_one_input s c set : wf_inputs (goal_inputs s) -> c ∈ goal_inputs s -> input_step c (set c) ->
  Forall2 input_step (goal_inputs s) ((fun i => if bool_decide (input_id i = input_id c) then set i else i) <$> goal_inputs s).
Proof.
  intros [Hn _] Hc Hset. assert (Hu : forall i, i ∈ goal_inputs s -> input_id i = input_id c -> i = c).
  { intros i Hi Heq. apply list_elem_of_lookup_1 in Hi as [k Hk], Hc as [k' Hk'].
    assert (k = k') as -> by (eapply (NoDup_lookup _ _ _ (input_id c) Hn); rewrite list_lookup_fmap; [rewrite Hk; cbn; by f_equal|by rewrite Hk']).
    congruence. }
  revert Hu. generalize (goal_inputs s). induction l as [|i l IH]; intros Hu; constructor.
  - case_bool_decide as Hi; [|apply input_step_refl]. rewrite (Hu i); [done|by left|done].
  - apply IH. intros i' Hi'. apply Hu. by right.
Qed.
Lemma ok_save_updates u note : ok (transaction (save_updates job u note)).
Proof.
  apply ok_transaction. unfold save_updates. eapply tx_bind; [apply tx_update_goal_at; own_row; apply apply_updates_move|].
  intros b. simpl. destruct (negb b) eqn:Eb; [apply tx_fails|]. apply negb_false_iff in Eb as ->.
  eapply tx_bind with (mid := fun _ => holds job).
  { eapply tx_weaken with (pre' := holds job) (post' := fun _ => holds job); [|done|].
    - intros s (t & g & Hw & Hg)%(fun H => H eq_refl). where_holds. exists (apply_updates u g). split; [done|].
      unfold apply_updates. destruct (forget_pull u), (fresh_branch u), (rebuilt_at u); done.
    - destruct (fresh_branch u); [|by apply tx_ret].
      eapply tx_weaken; [done| |apply tx_update_inputs; [apply holds_mine|]].
      + intros n s (s0 & (g & Hg & Hr) & E). exists g. by rewrite E.
      + intros i Hi. where_holds. by apply (settles (fun _ => true)). }
  intros _. destruct note as [note|]; [|by apply tx_ret].
  eapply tx_bind with (mid := fun l s => holds job s /\ forall c, last l = Some c -> c ∈ goal_inputs s /\ in_state c = pending).
  { apply tx_reads. intros s Hs. split; [done|]. intros c Hc. apply last_Some_elem_of in Hc.
    unfold input_where in Hc. apply list_elem_of_filter in Hc as [Hc Hin]. split; [done|]. unfold is_continue in Hc. by where_holds. }
  intros l. destruct (last l) as [c|]; [|by apply tx_ret].
  eapply tx_bind with (mid := fun _ _ => True); [|intros n; by apply tx_ret].
  eapply tx_weaken; [exact (fun _ H => H)| |apply tx_update_inputs_at; [intros s [H _]; by apply holds_mine|]]; [done|].
  intros s [_ Hc] Hw. destruct (Hc c eq_refl) as [Hin Hp].
  apply (update_one_input s c (append_note c note)); [done|done|].
  by apply (settles (fun _ => true)).
Qed.
Hint Resolve ok_obligation ok_restore ok_save_updates : goal_steps.
Lemma ok_pull_updates goal c : ok c -> ok (pull_updates job goal c).
Proof. intros. unfold pull_updates. program. apply ok_retry; [apply ok_external|done]. Qed.
Lemma ok_checkout_updates goal c u : same_goal goal -> ok c -> ok (checkout_updates job goal c u).
Proof. intros. unfold checkout_updates. program. Qed.
Lemma ok_preserve goal c u : ok c -> ok (preserve_checkout goal c u).
Proof. intros. unfold preserve_checkout. program. Qed.
Hint Resolve ok_pull_updates ok_checkout_updates ok_preserve : goal_steps.
Lemma ok_continued goal : same_goal goal -> ok (prepareContinuedGoal job goal).
Proof. intros. unfold prepareContinuedGoal. program. Qed.

(** ** What the programs return *)

Lemma returns_transaction {A} (t : Tx A) (Q : A -> Prop) : (forall s a, fst (t s) = Ok a -> Q a) -> returns (transaction t) Q.
Proof.
  intros H w a. unfold transaction, mbind, M_bind, call. destruct (database _); cbn; [|done..].
  set (s := match others w with g :: _ => g (store w) | [] => store w end). specialize (H s).
  destruct (t s) as [[a'|e] s']; cbn; [|done]. intros [= <-]. by apply H.
Qed.
Definition found (o : option GoalRow) : Prop := forall g, o = Some g -> same_goal g.
Lemma returns_fenced : returns (fencedGoal job) found.
Proof.
  apply returns_transaction. intros s o [= <-]. destruct (goals s !! goalId job) as [g|]; [|done].
  destruct (bool_decide (goal_id g = goalId job)) eqn:E; simpl; [|done]. apply bool_decide_eq_true in E.
  destruct (attemptWhere job g); [|done]. by intros ? [= <-].
Qed.
Lemma returns_claim : returns (claimGoalAttempt job) found.
Proof.
  unfold claimGoalAttempt. apply returns_bind. intros _. apply returns_bind. intros b. destruct (negb b); [by apply returns_ret|].
  apply returns_bind. intros _. apply returns_fenced.
Qed.
Lemma returns_continued goal : same_goal goal -> returns (prepareContinuedGoal job goal) same_goal.
Proof.
  intros H. unfold prepareContinuedGoal. destruct (negb _); [by apply returns_ret|]. do 4 (apply returns_bind; intros ?).
  destruct (_ && _); [by apply returns_ret|]. apply returns_bind; intros _.
  eapply returns_bind_with; [apply returns_fenced|]. intros [g|] Hg; [by apply returns_ret, Hg|apply returns_throw].
Qed.
Lemma returns_stopped latest : returns (handleStoppedGoal job latest) (fun r => r = None -> exists g, latest = Some g /\ desired_state g = running).
Proof.
  unfold handleStoppedGoal. destruct latest as [g|]; [|by apply returns_ret]. destruct (desired_state g) eqn:E.
  - apply returns_ret. eauto.
  - do 3 (apply returns_bind; intros ?). by apply returns_ret.
  - apply returns_bind. intros b. destruct (negb b); [apply returns_throw|]. apply returns_bind; intros _. by apply returns_ret.
Qed.

(** ** The job *)

Lemma ok_finalize r reason : ok (finalizeGoal job r reason).
Proof. apply ok_update. own_row. Qed.
Lemma ok_reconciled r : ok (markGoalTaskReconciled job r).
Proof. unfold markGoalTaskReconciled. program. apply ok_update. own_row. Qed.
Lemma ok_task change : ok (task_change change).
Proof. apply ok_external. Qed.
Hint Resolve ok_finalize ok_reconciled ok_task ok_continued : goal_steps.
Lemma ok_edit values : (forall t g, transition racy g (values t g)) -> ok (fencedGoalUpdate job values).
Proof. intros H. apply ok_fencedUpdate. intros. by apply rtc_once. Qed.
Lemma ok_failPreparation reason : ok (failGoalPreparation job reason).
Proof. unfold failGoalPreparation. program. apply ok_edit. intros. by apply edited. Qed.
Lemma ok_ensure goal : same_goal goal -> ok (ensureGoalWorktree goal job).
Proof. intros. unfold ensureGoalWorktree. program. apply ok_update. own_row. Qed.
Lemma ok_attempt {A} (m : M A) : ok m -> ok (attempt_ m).
Proof. intros. unfold attempt_. program. Qed.
Hint Resolve ok_failPreparation ok_ensure ok_attempt : goal_steps.

Lemma ok_checkout goal : same_goal goal -> ok (prepareGoalCheckout job goal).
Proof.
  intros Hg. unfold prepareGoalCheckout. eapply steps_bind_returns with (Q := fun r => forall g, r = Ok g -> same_goal g).
  - by auto with goal_steps.
  - unfold attempt_. intros w r. unfold catch. pose proof (returns_continued goal Hg) as HQ. unfold mbind, M_bind.
    destruct (prepareContinuedGoal job goal w) as [[g|e] w'] eqn:E; cbn; intros [= <-]; [|done]. intros g' [= <-]. apply (HQ w). by rewrite E.
  - intros [g|e] Hr; [|by program]. pose proof (Hr g eq_refl). program.
Qed.
Lemma ok_prepareInputs goal : ok (prepareGoalAttemptInputs goal).
Proof. unfold prepareGoalAttemptInputs, firstPendingGoalInput, first_pending. program. Qed.
Lemma ok_feedback goal i : ok (previousCheckpointFeedback goal i).
Proof. unfold previousCheckpointFeedback. program. Qed.
Lemma ok_bootstrapId goal : ok (continuedGoalBootstrapId goal).
Proof. unfold continuedGoalBootstrapId. program. Qed.
Hint Resolve ok_checkout ok_prepareInputs ok_feedback ok_bootstrapId : goal_steps.
Lemma ok_pause_at_boundary : ok (pause_at_boundary job).
Proof. unfold pause_at_boundary. program. apply ok_edit. intros. by apply edited. Qed.
Hint Resolve ok_pause_at_boundary : goal_steps.
Lemma ok_prepare goal : same_goal goal -> racy = true -> ok (prepareClaimedGoalAttempt request_hash job goal).
Proof. intros. unfold prepareClaimedGoalAttempt. program; apply ok_next; by right. Qed.

Lemma ok_saveSessionState goal session conversation a : ok (saveSessionAndTaskState job goal session conversation a).
Proof. unfold saveSessionAndTaskState. program. apply ok_edit. intros. destruct a; by apply edited. Qed.
Lemma ok_stop_for_correction : ok (stop_for_correction job).
Proof. unfold stop_for_correction. program. apply ok_update. own_row. Qed.
Hint Resolve ok_saveSessionState ok_stop_for_correction : goal_steps.
Lemma ok_onSession p session conversation : ok (onSessionId job p session conversation).
Proof. unfold onSessionId. program. Qed.
Lemma ok_onRearmed p : ok (onGoalRearmed job p).
Proof. unfold onGoalRearmed. program. apply ok_edit. intros. by apply edited. Qed.
Hint Resolve ok_onSession ok_onRearmed ok_heartbeat ok_setActiveTurn ok_report ok_resolve : goal_steps.
Lemma ok_callback p c : ok (callback bound_text request_hash job p c).
Proof. unfold callback. program. Qed.
Hint Resolve ok_callback : goal_steps.
Lemma ok_provider p tree : ok (run_provider bound_text request_hash job p tree).
Proof. induction tree as [r|c k IH]; cbn [run_provider]; program. Qed.
Lemma ok_execute p : ok (executePreparedGoal bound_text request_hash executeTask job p).
Proof. unfold executePreparedGoal, runPreparedGoal. program. apply ok_attempt, ok_provider. Qed.

Lemma ok_saveResult goal result : ok (saveProviderResult job goal result).
Proof. unfold saveProviderResult. program. apply ok_edit. intros. by apply edited. Qed.
Lemma ok_metrics : ok (recordGoalMetrics job).
Proof. unfold recordGoalMetrics. program. Qed.
Lemma tx_deliver owner ids : tx racy (attempt_of job) (holds job) (deliver_all job owner ids) (fun _ => holds job).
Proof.
  induction ids as [|id ids IH]; cbn [deliver_all]; [by apply tx_ret|].
  eapply tx_bind with (mid := fun _ => holds job).
  - eapply tx_weaken; [done| |apply tx_update_inputs; [apply holds_mine|]].
    + intros n s (s0 & (g & Hg & Hr) & E). exists g. by rewrite E.
    + intros i Hi. where_holds. by apply (settles (fun _ => true)).
  - intros n. eapply tx_bind with (mid := fun _ => holds job); [by apply tx_reads|]. intros b.
    destruct (_ && _); [apply tx_fails|apply IH].
Qed.
Lemma ok_acknowledge p result : ok (acknowledgeWholeSessionInput job p result).
Proof.
  unfold acknowledgeWholeSessionInput. destruct (acknowledged_inputs p result); [apply steps_ret|].
  apply ok_transaction, tx_owned; [|apply tx_fails]. intros g. eapply tx_bind; [apply tx_deliver|]. intros [].
  eapply tx_bind with (mid := fun _ _ => True); [by apply tx_acknowledge, attempt_row_mine|]. intros ?. by apply tx_ret.
Qed.
Lemma ok_stopped latest : ok (handleStoppedGoal job latest).
Proof.
  unfold handleStoppedGoal. destruct latest as [g|]; [|apply steps_ret]. destruct (desired_state g) eqn:E; program.
  - apply ok_edit. intros. by apply edited.
  - apply ok_next. left. by rewrite E.
  - apply ok_fencedUpdate. intros. apply rtc_once. eapply finished; try done. by left.
Qed.
Lemma ok_further latest result b : desired_state latest = running -> ok (scheduleFurtherWork job latest result b).
Proof.
  intros H. unfold scheduleFurtherWork, firstPendingGoalInput, first_pending. program; apply ok_next; left; by rewrite H.
Qed.
Lemma ok_publish_declaration d : ok (publish_declaration request_hash job d).
Proof. unfold publish_declaration. program. Qed.
Lemma ok_conclude result pr : ok (conclude agentFailureLine job result pr).
Proof. unfold conclude. program. Qed.
Hint Resolve ok_saveResult ok_metrics ok_acknowledge ok_stopped ok_publish_declaration ok_conclude : goal_steps.
Lemma ok_conclude_direct goal branch result pr : ok (conclude_direct request_hash agentFailureLine job goal branch result pr).
Proof. unfold conclude_direct. program. Qed.
Hint Resolve ok_conclude_direct : goal_steps.
Lemma ok_result p result : ok (handleGoalResult request_hash json_parse agentFailureLine job p result).
Proof.
  unfold handleGoalResult, any_goal. apply steps_bind; [by auto with goal_steps|]. intros [row|]; [|apply steps_ret].
  destruct (_ || _); [apply steps_ret|].
  apply steps_bind; [by auto with goal_steps|]. intros _. apply steps_bind; [by auto with goal_steps|]. intros _.
  apply steps_bind; [by auto with goal_steps|]. intros boundary. apply steps_bind; [by program|]. intros _.
  apply steps_bind; [by auto with goal_steps|]. intros [status|]; [apply steps_ret|].
  apply steps_bind; [by auto with goal_steps|]. intros pr. apply steps_bind; [by program|]. intros _.
  apply steps_bind; [by auto with goal_steps|]. intros latest.
  eapply steps_bind_returns; [by auto with goal_steps|apply returns_stopped|]. intros [status|] Hs; [apply steps_ret|].
  destruct (Hs eq_refl) as (g & -> & Hg). apply steps_bind; [by apply ok_further|].
  intros [status|]; [apply steps_ret|by auto with goal_steps].
Qed.
End Job.
