(* ===== verification/GoalOperatorSteps.v ===== *)
(** * Goals: what operators and recovery do to goals

    The handlers of GoalControls.v and the sweep of GoalRecovery.v, step by step: each
    statement moves goals along the state machine of GoalRules.v. *)

From S2P Require Import Prelude JsString Interleave Goals GoalAttempt GoalContinuation GoalWorker GoalRules GoalSteps GoalRecovery GoalControls.

Open Scope string_scope.
Open Scope Z_scope.

(** Any row *)
Definition every_row : string -> option GoalRow -> Prop := fun _ _ => True.

Ltac where_read := unfold same_read, same_attempt, is_desired in *; where_holds.
Ltac free_row := intros; where_read; split; [done|try one_move].

Section Operators.
Variable racy : bool.
Abbreviation P := (own racy every_row).
Abbreviation ok := (steps P).

(** ** Recovery *)

Lemma ok_supersede id scope r : ok (supersedeBlockers id scope r).
Proof. unfold supersedeBlockers. program. Qed.
Hint Resolve ok_supersede : goal_steps.
Lemma ok_failClosed goal : ok (failIdentityLessAttempt goal).
Proof. unfold failIdentityLessAttempt. program. apply ok_update. free_row. Qed.
Lemma rotate_move goal g next claim ms : next = run_generation goal + 1 -> run_generation g = run_generation goal -> result_state g = None ->
  desired_state g <> cancelled \/ racy = true -> moves racy g (rotate_columns next claim ms g).
Proof. intros -> Hg Hr Hd. apply rtc_once, rotated; try done. split_and!; [by rewrite Hg|by eexists|done]. Qed.
Lemma ok_recoverClaimed goal : desired_state goal <> cancelled \/ racy = true -> ok (recoverClaimedAttempt goal).
Proof.
  intros Hd. unfold recoverClaimedAttempt. program. apply ok_update. free_row. eapply rotate_move; [done..|].
  by replace (desired_state g) with (desired_state goal).
Qed.
Lemma ok_rotate_past goal claim : ok (rotate_past_job goal claim).
Proof.
  unfold rotate_past_job. program. apply ok_update. free_row. apply rtc_once, requeued; try done.
  split_and!; [|by eexists|done]. by match goal with H : run_generation g = _ |- _ => rewrite H end.
Qed.
Hint Resolve ok_rotate_past ok_failClosed : goal_steps.
Lemma ok_enqueueUnclaimed goal : ok (enqueueUnclaimedAttempt goal).
Proof. unfold enqueueUnclaimedAttempt. program. apply ok_update. free_row. by apply rtc_once, identified. Qed.
Lemma ok_mark id r : ok (mark_reconciled id r).
Proof. unfold mark_reconciled. program. apply ok_update. free_row. Qed.
Lemma ok_reconcile goal : ok (reconcileTask goal).
Proof. unfold reconcileTask. program. Qed.
Lemma ok_live task a : ok (isTaskContainerLive task a).
Proof. apply ok_asks. Qed.
Lemma ok_stop_container task a : ok (stopTaskContainer task a).
Proof. apply ok_asks. Qed.
Hint Resolve ok_enqueueUnclaimed ok_mark ok_reconcile ok_live ok_stop_container : goal_steps.
Lemma ok_recover_cancelled goal : ok (recover_cancelled goal).
Proof. unfold recover_cancelled. program. apply ok_update. free_row. Qed.
Lemma ok_confirm goal : desired_state goal <> cancelled -> ok (confirm_pause goal).
Proof. intros. unfold confirm_pause. program; [|by apply ok_recoverClaimed; left]. apply ok_update. free_row. Qed.
Lemma ok_recover_running goal : desired_state goal <> cancelled -> ok (recover_running goal).
Proof. intros. unfold recover_running. program. by apply ok_recoverClaimed; left. Qed.
Lemma ok_recover staleMs goal : ok (recoverGoal staleMs goal).
Proof.
  unfold recoverGoal. destruct (result_state goal); [program|]. destruct (desired_state goal) eqn:E; [| |apply ok_recover_cancelled].
  - program. apply ok_recover_running. by rewrite E.
  - program; [apply ok_recoverClaimed; left|apply ok_confirm]; by rewrite E.
Qed.
Lemma ok_sweep staleMs : ok (recoverNonterminalGoals staleMs).
Proof. unfold recoverNonterminalGoals. program. apply steps_each, ok_recover. Qed.

(** ** Handlers *)

Lemma ok_find req h : (forall row, ok (h row)) -> ok (findOwnedGoal req h).
Proof. intros H. unfold findOwnedGoal, goal_where. program. Qed.
Lemma ok_key req h : (forall key, ok (h key)) -> ok (requiredIdempotencyKey req h).
Proof. intros H. unfold requiredIdempotencyKey. program. Qed.
Lemma ok_existing row key op hash : ok (existingMutation row key op hash).
Proof. unfold existingMutation, checkpoint_where. program. Qed.
Lemma ok_unless {A} (m : M A) h : ok m -> (forall a, ok (h a)) -> ok (unless_conflict m h).
Proof. intros Hm Hh. unfold unless_conflict. program. Qed.
Lemma ok_insert i : ok (transaction (insert_input i)).
Proof. by apply ok_transaction, tx_insert_input. Qed.
Hint Resolve ok_existing ok_insert : goal_steps.
Lemma ok_control row key op hash : ok (recordControlMutation row key op hash).
Proof. unfold recordControlMutation. program. Qed.
Lemma ok_add row key message kind hash : ok (addGoalInput row key message kind hash).
Proof. unfold addGoalInput. program. Qed.
Lemma ok_current row : ok (current row).
Proof. apply ok_read. Qed.
Lemma ok_reply o : ok (reply o).
Proof. unfold reply. program. Qed.
Lemma ok_respond row : ok (respondWithGoalTransition row).
Proof. unfold respondWithGoalTransition. apply steps_bind; [apply ok_current|apply ok_reply]. Qed.
Lemma ok_reply_owned row : ok (reply_owned row).
Proof. unfold reply_owned. apply steps_bind; [apply ok_read|apply ok_reply]. Qed.
Lemma ok_stop_call task : ok (stop task).
Proof. apply ok_external. Qed.
Lemma ok_stop_when b task : ok (stop_when b task).
Proof. unfold stop_when. destruct b; [|apply steps_ret]. apply steps_bind; [apply ok_stop_call|]. intros ?. apply steps_ret. Qed.
Lemma ok_update_read row where_ set :
  (forall t g, same_read row g = true -> where_ g = true -> moves racy g (set t g)) -> ok (update_read row where_ set).
Proof. intros H. apply ok_update. intros t g [H1 H2]%andb_prop. split; [done|auto]. Qed.
Hint Resolve ok_control ok_add ok_current ok_reply ok_respond ok_reply_owned ok_stop_call ok_stop_when : goal_steps.

Lemma ok_begin row : ok (beginPausedContinuation row).
Proof.
  unfold beginPausedContinuation. program. apply ok_update_read. intros. where_read. apply rtc_once, rotated; try done.
  - split_and!; [|by eexists|done]. by match goal with H : run_generation g = _ |- _ => rewrite H end.
  - left. congruence.
Qed.
Hint Resolve ok_begin : goal_steps.
Lemma ok_continue o : ok (continue_confirmed o).
Proof. unfold continue_confirmed. program. Qed.
Lemma ok_boundary o : ok (continue_requested_boundary o).
Proof. unfold continue_requested_boundary. program. Qed.
Hint Resolve ok_continue ok_boundary : goal_steps.

Variable sha256 : string -> string.
Variable stringify : list (string * string) -> string.

Ltac handler := program; apply ok_update_read; intros; where_read; one_move.
Lemma ok_pause req : ok (pause sha256 stringify req).
Proof. unfold pause. apply ok_find. intros row. apply ok_key. intros key. apply ok_unless; [auto with goal_steps|]. intros o. handler. Qed.
Lemma ok_resume req : ok (resume sha256 stringify req).
Proof. unfold resume. apply ok_find. intros row. apply ok_key. intros key. apply ok_unless; [auto with goal_steps|]. intros o. handler. Qed.
Lemma ok_cancel req : ok (cancel sha256 stringify req).
Proof. unfold cancel. apply ok_find. intros row. apply ok_key. intros key. apply ok_unless; [auto with goal_steps|]. intros o. handler. Qed.
Lemma ok_paused row d : ok (input_while_paused row d).
Proof. unfold input_while_paused. handler. Qed.
Lemma ok_announce row d : ok (announce_input row d).
Proof. unfold announce_input. handler. Qed.
Hint Resolve ok_announce : goal_steps.
Lemma ok_before row d : ok (input_before_session row d).
Proof. unfold input_before_session. handler. Qed.
Lemma ok_interrupts row : ok (input_interrupts row).
Proof. unfold input_interrupts. handler. Qed.
Hint Resolve ok_paused ok_before ok_interrupts : goal_steps.
Lemma ok_route row d : ok (route_input row d).
Proof. unfold route_input. program. Qed.
Hint Resolve ok_route : goal_steps.
Lemma ok_input req canned body : ok (addInput sha256 stringify req canned body).
Proof.
  unfold addInput. apply ok_find. intros row. apply ok_key. intros key. destruct (is_terminal row); [apply steps_ret|].
  destruct (input_message canned body); [|apply steps_ret]. destruct (_ || _); [apply steps_ret|].
  apply ok_unless; [program|]. intros d. program.
Qed.

Lemma ok_model req model : racy = true -> ok (requestModel sha256 stringify req model).
Proof.
  intros Hr. unfold requestModel. apply ok_find. intros row. apply ok_key. intros key. apply ok_unless; [auto with goal_steps|]. intros o.
  program. apply ok_update_read. intros t g Hs _. where_read. unfold model_columns. destruct (bool_decide (desired_state row = running)); [|one_move].
  apply rtc_once. destruct (desired_state g) eqn:E; [by apply interrupted|by apply edited|by apply revived].
Qed.

Lemma ok_reopen_goal row r gen claim ms model i : gen = run_generation row + 1 ->
  ok (transaction (reopen_goal row r gen claim ms model i)).
Proof.
  intros ->. apply ok_transaction. eapply tx_bind with (mid := fun _ _ => True).
  - apply tx_update_goal. free_row. apply rtc_once, reopened; try done.
    split_and!; [|by eexists|done]. by match goal with H : run_generation g = _ |- _ => rewrite H end.
  - intros b. destruct (negb b); [by apply tx_ret|]. eapply tx_bind with (mid := fun _ _ => True); [by apply tx_insert_input|]. intros u. by apply tx_ret.
Qed.
Lemma ok_try {A} (m : M A) : ok m -> ok (attempt_ m).
Proof. intros. unfold attempt_. program. Qed.
Hint Resolve ok_reopen_goal ok_try : goal_steps.
Lemma ok_replay row key op hash m : ok m -> ok (replay_of row key op hash m).
Proof. intros. unfold replay_of. apply ok_unless; [auto with goal_steps|]. intros o. program. Qed.
Lemma ok_reopen req body model : ok (reopen sha256 stringify req body model).
Proof.
  unfold reopen. apply ok_find. intros row. apply ok_key. intros key. destruct (too_long _); [apply steps_ret|].
  apply ok_replay. program; apply ok_replay; program.
Qed.

Lemma tx_insert_goal g : newborn g -> tx racy every_row any (insert_goal g) whatever.
Proof.
  intros Hn s _. unfold insert_goal. destruct (_ || _) eqn:E; [split; [apply own_table_refl|done]|]. split; [|done].
  apply orb_false_iff in E as [E _]. apply bool_decide_eq_false, eq_None_not_Some in E.
  change (own_tables racy every_row (goals s) (goal_inputs s) (<[goal_id g := g]> (goals s)) (goal_inputs s)). split_and!.
  - by left.
  - by left.
  - intros H. split; [done|apply inputs_grow_refl].
  - intros id g' H. rewrite lookup_insert_ne by congruence. exists g'. split; [done|constructor].
  - intros id g' H. destruct (decide (id = goal_id g)) as [->|]; [|rewrite lookup_insert_ne by done; congruence].
    rewrite lookup_insert_eq. intros [= <-]. exists g. split; [done|constructor].
Qed.
Lemma ok_create req c : ok (createGoal sha256 stringify req c).
Proof.
  unfold createGoal. destruct (truthy_string (user req)); [|apply steps_ret]. apply ok_key. intros key.
  apply steps_bind; [unfold findExistingGoalCreation, checkpoint_where; program|]. intros [r|]; [apply steps_ret|].
  program. apply ok_try, ok_transaction. eapply tx_bind with (mid := fun _ _ => True).
  - apply tx_insert_goal. repeat split. by eexists.
  - intros u. by apply tx_insert_input.
Qed.
End Operators.

(** ** Deletion *)

(** A step of [own], or the end of one goal and of its inputs *)
Definition own_or_removed (s s' : gdb) : Prop :=
  own false every_row s s'
  \/ exists id, goals s' = delete id (goals s) /\ goal_inputs s' = filter (fun i => in_goal i <> id) (goal_inputs s).
Lemma own_removed : forall s s', own false every_row s s' -> own_or_removed s s'.
Proof. by left. Qed.
Lemma steps_weaken (P Q : gdb -> gdb -> Prop) {A} (m : M A) : (forall s s', P s s' -> Q s s') -> steps P m -> steps Q m.
Proof. intros H Hm w. destruct (Hm w) as (l & Hl & HP). exists l. split; [done|]. eapply Forall_impl; [exact HP|]. intros [s s']. apply H. Qed.
Lemma ok_remove req : steps own_or_removed (remove req).
Proof.
  assert (Hown : forall A (m : M A), steps (own false every_row) m -> steps own_or_removed m) by (intros A m; apply steps_weaken, own_removed).
  assert (Hdel : forall row, steps own_or_removed (transaction (delete_goal row))).
  { intros row. apply steps_bind; [|intros r; apply Hown, ok_or_throw]. apply steps_call. intros s.
    unfold commits, delete_goal. destruct (database (outside s)); cbn [snd]; [|left; apply own_table_refl|];
      (destruct (goals s !! goal_id row) as [g|]; [destruct (owned_by _ g)|]; cbn [snd]; [right; by exists (goal_id row)|left; apply own_table_refl..]). }
  unfold remove, findOwnedGoal. destruct (truthy_string (user req)) as [owner|]; [|apply steps_ret].
  apply steps_bind; [apply Hown, ok_read|]. intros [row|]; [|apply steps_ret].
  assert (Hfin : steps own_or_removed (_ ← transaction (delete_goal row); mret no_content)) by (apply steps_bind; [apply Hdel|intros ?; apply steps_ret]).
  destruct (negb (needs_stop row)); [done|]. apply steps_bind.
  { apply Hown. destruct (is_desired cancelled row); [apply steps_ret|]. apply ok_update_read. intros. where_read. one_move. }
  intros b. destruct (negb b); [apply steps_ret|]. apply steps_bind; [apply Hown, ok_stop_call|]. intros r. destruct (_ && _); [apply steps_ret|done].
Qed.
