(* ===== verification/GoalProps.v ===== *)
(** * Goals: what the orchestration promises

    The lifecycle of a goal under every interleaving, the fencing of attempts, exclusive
    claims, single delivery of an operator's request, and what recovery leaves behind. *)

From S2P Require Import Prelude JsString Interleave Json GoalDeclaration Goals GoalAttempt GoalCheckpoint GoalContinuation GoalWorker GoalRecovery GoalControls GoalRules GoalSteps GoalOperatorSteps.

Open Scope string_scope.
Open Scope Z_scope.

(** ** Consequences of the state machine *)

Lemma moves_invariant racy (P : GoalRow -> Prop) : (forall g g', transition racy g g' -> P g -> P g') -> forall g g', moves racy g g' -> P g -> P g'.
Proof. intros H g g' Hm. induction Hm; eauto. Qed.

Lemma moves_kept racy g g' : moves racy g g' -> kept g g'.
Proof.
  intros H. induction H as [g|g h g' Ht _ IH]; [by repeat split|]. assert (Hk : kept g h) by by destruct Ht.
  destruct Hk as (?&?&?&?&?&?&?&?&Hs), IH as (?&?&?&?&?&?&?&?&Hs'). unfold kept. split_and!; try congruence. auto.
Qed.
(** What a generation has fixed for the rest of its life *)
Definition fixed_run (g g' : GoalRow) : Prop :=
  run_generation g <= run_generation g'
  /\ (run_generation g = run_generation g' ->
      (forall c, run_claim g = Some c -> run_claim g' = Some c) /\ (is_Some (claimed_at g) -> is_Some (claimed_at g'))
      /\ forall r, result_state g = Some r -> result_state g' = Some r).
Lemma fixed_refl g : fixed_run g g.
Proof. split; [lia|]. auto. Qed.
Lemma fixed_trans g h g' : fixed_run g h -> fixed_run h g' -> fixed_run g g'.
Proof.
  intros [H1 H2] [H3 H4]. split; [lia|]. intros E. destruct H2 as (A & B & C); [lia|]. destruct H4 as (A' & B' & C'); [lia|]. split_and!; auto.
Qed.
Lemma transition_fixed racy g g' : transition racy g g' -> fixed_run g g'.
Proof.
  intros H. split.
  - destruct H; unfold same_run, next_run in *; intuition lia.
  - intros E. destruct H; unfold same_run, next_run in *; intuition (try congruence; try lia).
    all: match goal with H : is_Some None |- _ => by destruct H | _ => idtac end.
Qed.
Lemma moves_fixed racy g g' : moves racy g g' -> fixed_run g g'.
Proof. intros H. induction H as [g|g h g' Ht _ IH]; [apply fixed_refl|]. eapply fixed_trans; [by eapply transition_fixed|done]. Qed.

(** A cancellation is only taken back once the goal has ended as cancelled. *)
Lemma cancellation_holds g g' : moves false g g' -> desired_state g = cancelled -> result_state g = None ->
  desired_state g' = cancelled \/ exists h, moves false g h /\ result_state h = Some r_cancelled /\ moves false h g'.
Proof.
  intros H. induction H as [g|g h g' Ht Hm IH]; [by left|]. intros Hd Hr.
  assert (Hh : desired_state h = cancelled /\ result_state h = None \/ result_state h = Some r_cancelled).
  { destruct Ht as [? ? E1 E2|? ? ? ? ? E1 E2| | |? ? E1 ? E2|? ? [|] ? ? ?|? ? ? E1 ? E2|r ? ? E1 ? E2 [->|]|? ? ? [] ? ?|];
      try congruence; try (by right); left; split; congruence. }
  destruct Hh as [[Hd' Hr']|Hh]; [|right; exists h; split_and!; [by apply rtc_once|done|done]].
  destruct (IH Hd' Hr') as [|(x & H1 & H2 & H3)]; [by left|]. right. exists x. split_and!; [by eapply rtc_l|done|done].
Qed.

Section Props.
Variable bound_text : string -> string.
Variable request_hash : string -> GoalCheckpointRequest -> option string -> string.
Variable json_parse : string -> option json.
Variable agentFailureLine : string -> option string.
Variable executeTask : ExecutionRequest -> Provider.
Variable sha256 : string -> string.
Variable stringify : list (string * string) -> string.
Abbreviation processGoalJob := (processGoalJob bound_text request_hash json_parse agentFailureLine executeTask).
Abbreviation executePreparedGoal := (executePreparedGoal bound_text request_hash executeTask).
Abbreviation handleGoalResult := (handleGoalResult request_hash json_parse agentFailureLine).

Lemma ok_job job : steps (own true (attempt_of job)) (processGoalJob job).
Proof.
  unfold GoalWorker.processGoalJob. eapply steps_bind_returns; [apply ok_claim|apply returns_claim|]. intros [goal|] Hg; [|apply steps_ret].
  apply steps_bind; [apply ok_prepare; [by apply Hg|done]|]. intros [status|p]; [apply steps_ret|].
  apply steps_bind; [apply ok_execute|]. intros r. apply ok_result.
Qed.

(** What one step of [m] does to every goal there is *)
Definition each_goal (R : GoalRow -> GoalRow -> Prop) (s s' : gdb) : Prop :=
  forall id g g', goals s !! id = Some g -> goals s' !! id = Some g' -> R g g'.
Definition stays_cancelled (g g' : GoalRow) : Prop := desired_state g = cancelled -> result_state g = None ->
  desired_state g' = cancelled \/ exists h, moves false g h /\ result_state h = Some r_cancelled /\ moves false h g'.
Definition lives (racy : bool) (g g' : GoalRow) : Prop :=
  moves racy g g' /\ kept g g' /\ fixed_run g g' /\ (racy = false -> stays_cancelled g g').
Lemma moves_lives racy g g' : moves racy g g' -> lives racy g g'.
Proof.
  intros H. split_and!; [done|by eapply moves_kept|by eapply moves_fixed|]. intros ->. intros ? ?. by apply cancellation_holds.
Qed.
Lemma own_lives racy mine s s' : own racy mine s s' -> each_goal (lives racy) s s'.
Proof.
  intros (_ & _ & _ & H & _) id g g' Hg Hg'. destruct (H id g Hg) as (h & Hh & Hm). replace g' with h by congruence.
  by apply moves_lives.
Qed.
Lemma removed_lives s s' : own_or_removed s s' -> each_goal (lives false) s s'.
Proof.
  intros [H|(id & Hg & _)]; [by eapply own_lives|]. intros id' g g' H H'. rewrite Hg in H'. apply lookup_delete_Some in H' as [_ H'].
  replace g' with g by congruence. by apply moves_lives.
Qed.
Lemma lives_of racy mine {A} (m : M A) : steps (own racy mine) m -> steps (each_goal (lives racy)) m.
Proof. apply steps_weaken. intros s s'. apply own_lives. Qed.

(** C3. Whatever other processes do in between, every step of the worker, the operator's
    handlers and recovery takes each goal along its state machine: generations only grow, a
    generation keeps its claim, its claim time and its result, a session once known is
    never replaced, and nothing but Continue takes a goal out of an ended or cancelled
    state, except the preparation of an attempt and a change of model. *)
Theorem goals_follow_lifecycle job p result req c message canned model staleMs :
  steps (each_goal (lives false)) (claimGoalAttempt job)
  /\ steps (each_goal (lives false)) (executePreparedGoal job p)
  /\ steps (each_goal (lives false)) (handleGoalResult job p result)
  /\ steps (each_goal (lives true)) (processGoalJob job)
  /\ steps (each_goal (lives false)) (recoverNonterminalGoals staleMs)
  /\ steps (each_goal (lives false)) (createGoal sha256 stringify req c)
  /\ steps (each_goal (lives false)) (pause sha256 stringify req)
  /\ steps (each_goal (lives false)) (resume sha256 stringify req)
  /\ steps (each_goal (lives false)) (cancel sha256 stringify req)
  /\ steps (each_goal (lives false)) (remove req)
  /\ steps (each_goal (lives false)) (addInput sha256 stringify req canned message)
  /\ steps (each_goal (lives true)) (requestModel sha256 stringify req model)
  /\ steps (each_goal (lives false)) (reopen sha256 stringify req message model).
Proof.
  repeat match goal with |- _ /\ _ => split end.
  - eapply lives_of, ok_claim.
  - eapply lives_of, ok_execute.
  - eapply lives_of, ok_result.
  - eapply lives_of, ok_job.
  - eapply lives_of, ok_sweep.
  - eapply lives_of, ok_create.
  - eapply lives_of, ok_pause.
  - eapply lives_of, ok_resume.
  - eapply lives_of, ok_cancel.
  - eapply steps_weaken, ok_remove. apply removed_lives.
  - eapply lives_of, ok_input.
  - by eapply lives_of, ok_model.
  - eapply lives_of, ok_reopen.
Qed.

(** C4. A superseded attempt writes nothing: every step of a worker's job, whatever its
    agent asks and other processes do in between, leaves alone every goal that is not in
    the attempt of the job, and every input when its goal is not. *)
Theorem superseded_attempt_writes_nothing job :
  steps (fun s s' => (forall id, ~ attempt_of job id (goals s !! id) -> goals s' !! id = goals s !! id)
                     /\ (~ attempt_of job (goalId job) (goals s !! goalId job) -> goal_inputs s' = goal_inputs s)) (processGoalJob job).
Proof.
  eapply steps_weaken; [|apply ok_job]. intros s s' (A & B & _). split.
  - intros id Hn. by destruct (A id).
  - intros Hn. destruct B as [|[id Hid]]; [done|]. destruct Hid as [-> Hid]. by destruct Hn.
Qed.

(** ** Claims *)

(** Other processes move the goal along its state machine or delete it; its identifier is not given again. *)
Definition respects (id : string) (f : gdb -> gdb) : Prop := forall s,
  match goals s !! id with
  | Some g => match goals (f s) !! id with Some g' => fixed_run g g' | None => True end
  | None => goals (f s) !! id = None
  end.
Definition taken (job : GoalJobData) (s : gdb) : Prop :=
  match goals s !! goalId job with
  | Some g => generation job < run_generation g \/ (run_generation g = generation job /\ is_Some (claimed_at g))
  | None => True
  end.
Lemma taken_stable job f s : respects (goalId job) f -> taken job s -> taken job (f s).
Proof.
  intros Hf. specialize (Hf s). unfold taken. destruct (goals s !! goalId job) as [g|].
  - destruct (goals (f s) !! goalId job) as [g'|]; [|done]. destruct Hf as [H1 H2]. intros [H|[H H']]; [left; lia|].
    destruct (decide (run_generation g = run_generation g')) as [E|]; [|left; lia]. right. split; [lia|by apply H2].
  - by rewrite Hf.
Qed.

Lemma own_respects racy mine id f :
  (forall s, own racy mine s (f s)) -> (forall s, goals s !! id = None -> goals (f s) !! id = None) -> respects id f.
Proof.
  intros Ho Hn s. destruct (Ho s) as (_ & _ & _ & H & _). destruct (goals s !! id) as [g|] eqn:E; [|by apply Hn].
  destruct (H id g E) as (g' & -> & Hm). by eapply moves_fixed.
Qed.

Abbreviation tri job := (triple (respects (goalId job)) (fun _ _ => True)).
Lemma triple_conseq good I (P : gdb -> Prop) {A} (m : M A) (Q Q' : A -> gdb -> Prop) : triple good I P m Q' -> (forall a s, Q' a s -> Q a s) -> triple good I P m Q.
Proof. intros H HQ. eapply etriple_weaken; [exact (fun _ H => H)|exact HQ|exact (fun _ _ H => H)|exact H]. Qed.
(** A transaction, from an assertion other processes keep *)
Lemma tri_transaction (good : (gdb -> gdb) -> Prop) {A} (pre : gdb -> Prop) (t : Tx A) (post : A -> gdb -> Prop) :
  (forall f s, good f -> pre s -> pre (f s)) ->
  (forall s a, pre s -> fst (t s) = Ok a -> post a (snd (t s))) -> triple good (fun _ _ => True) pre (transaction t) post.
Proof.
  intros Hs Ht. unfold transaction. eapply triple_bind with (Q := fun r s => forall a, r = Ok a -> post a s).
  - apply triple_call; [done|]. intros s Hpre. split; [done|]. specialize (Ht s). unfold commits.
    destruct (database (outside s)); [|done..]. destruct (t s) as [[x|e] s'] eqn:E; cbn; [|done]. intros a [= <-]. by apply (Ht x).
  - intros [a|e]; [|apply triple_throw]. apply triple_ret. intros s H. by apply H.
Qed.
Lemma tri_keep job {A} (t : Tx A) : (forall s, goals (snd (t s)) = goals s) -> tri job (taken job) (transaction t) (fun _ => taken job).
Proof.
  intros H. apply tri_transaction; [apply taken_stable|]. intros s a Hs _. unfold taken. by rewrite H.
Qed.

Lemma refused_when_taken job : tri job (taken job) (claimGoalAttempt job) (fun o _ => o = None).
Proof.
  unfold claimGoalAttempt. eapply triple_bind; [by apply tri_keep|]. intros ?.
  eapply triple_bind with (Q := fun b _ => b = false).
  - apply tri_transaction; [apply taken_stable|]. intros s b Hs. unfold update_goal, taken in *. destruct (goals s !! goalId job) as [g|]; [|by intros [= <-]].
    destruct (bool_decide _ && _) eqn:E; [|by intros [= <-]]. where_holds. destruct Hs as [|[_ Hc]]; [lia|].
    match goal with H : claimed_at g = None |- _ => rewrite H in Hc; by destruct Hc end.
  - intros b. apply triple_weaken with (P' := fun s => True /\ b = false); [done|]. apply triple_pure. intros ->. by apply triple_ret.
Qed.
Lemma goals_set s G : goals { s with goals := G } = G.
Proof. done. Qed.
Lemma claim_takes job : tri job (fun _ => True) (claimGoalAttempt job) (fun o s => o = None \/ taken job s).
Proof.
  unfold claimGoalAttempt. eapply triple_bind with (Q := fun _ _ => True); [by apply tri_transaction|]. intros _.
  eapply triple_bind with (Q := fun b s => b = true -> taken job s).
  - apply tri_transaction; [done|]. intros s b _. unfold update_goal, taken. destruct (goals s !! goalId job) as [g|] eqn:Eg; [|by intros [= <-]].
    destruct (bool_decide (goal_id g = goalId job) && _) eqn:E; [|by intros [= <-]]. intros _ _. cbn [snd]. rewrite goals_set, lookup_insert_eq. where_holds. right. split; [done|by eexists].
  - intros [|]; cbn [negb]; [|apply triple_ret; by left]. apply triple_weaken with (P' := taken job); [auto|].
    eapply triple_bind with (Q := fun _ => taken job).
    + eapply etriple_catch with (E := fun _ => taken job); [|intros e; by apply etriple_ret].
      unfold transaction. eapply etriple_bind with (Q := fun _ => taken job).
      * apply etriple_call; [apply taken_stable|]. intros s Hs. split; [done|]. unfold commits. by destruct (database (outside s)).
      * intros [a|e]; [by apply etriple_ret|by apply etriple_throw].
    + intros _. unfold fencedGoal. eapply triple_conseq; [by apply tri_keep|]. by right.
Qed.

(** C16. An attempt is claimed at most once: of two deliveries of a job, with anything of
    other processes in between, at most one starts executing. *)
Theorem claims_are_exclusive job :
  tri job (fun _ => True) (first ← claimGoalAttempt job; second ← claimGoalAttempt job; mret (first, second))
    (fun r _ => fst r = None \/ snd r = None).
Proof.
  eapply triple_bind; [apply claim_takes|]. intros [g|].
  - eapply triple_bind with (Q := fun o _ => o = None).
    + eapply triple_weaken; [|apply refused_when_taken]. by intros s [|].
    + intros o. apply triple_ret. by right.
  - eapply triple_bind with (Q := fun _ _ => True); [|intros o; apply triple_ret; by left].
    eapply triple_weaken with (P' := fun _ => True); [done|]. eapply triple_conseq; [apply claim_takes|done].
Qed.

(** ** Requests *)

(** Other processes settle and add inputs. *)
Definition keeps_inputs (f : gdb -> gdb) : Prop := forall s, wf_inputs (goal_inputs s) ->
  wf_inputs (goal_inputs (f s)) /\ inputs_grow (goal_inputs s) (goal_inputs (f s)).
Definition used (owner key : string) (s : gdb) : Prop := exists i, i ∈ goal_inputs s /\ same_key owner key i = true.
Definition wf_db (s : gdb) : Prop := wf_inputs (goal_inputs s).

Lemma used_grows owner key s s' : inputs_grow (goal_inputs s) (goal_inputs s') -> used owner key s -> used owner key s'.
Proof.
  intros (k & n & E & Hk) (i & Hi & Hkey). unfold used. rewrite E. apply list_elem_of_lookup_1 in Hi as [x Hx].
  destruct (Forall2_lookup_l _ _ _ _ _ Hk Hx) as (i' & Hi' & Hs). exists i'. split; [apply elem_of_app; left; by eapply list_elem_of_lookup_2|].
  destruct Hs as (_ & _ & _ & E1 & E2 & _). unfold same_key in *. by rewrite E1, E2.
Qed.
Definition used_wf owner key (s : gdb) : Prop := wf_db s /\ used owner key s.
Lemma wf_stable f s : keeps_inputs f -> wf_db s -> wf_db (f s).
Proof. intros Hf Hs. by apply Hf. Qed.
Lemma used_stable owner key f s : keeps_inputs f -> used_wf owner key s -> used_wf owner key (f s).
Proof. intros Hf [Hs Hu]. destruct (Hf s Hs). split; [done|by eapply used_grows]. Qed.

Abbreviation rely := (triple keeps_inputs (fun _ _ => True)).
Lemma rely_read {A} pre (f : gdb -> A) post : (forall g s, keeps_inputs g -> pre s -> pre (g s)) -> (forall s, pre s -> post (f s) s) ->
  rely pre (transaction (reads f)) post.
Proof. intros H Hp. apply tri_transaction; [done|]. intros s a Hs [= <-]. by apply Hp. Qed.

Lemma existing_when_used row key op hash :
  rely (used_wf (owner_id row) key) (existingMutation row key op hash) (fun o s => used_wf (owner_id row) key s /\ is_Some o).
Proof.
  unfold existingMutation. eapply triple_bind; [apply rely_read with (post := fun _ => used_wf (owner_id row) key); [apply used_stable|done]|].
  intros [g|]; [apply triple_throw|].
  eapply triple_bind; [apply rely_read with (post := fun o s => used_wf (owner_id row) key s /\ is_Some o); [apply used_stable|]|].
  - intros s [Hw (i & Hi & Hk)]. split; [by split; [|exists i]|]. unfold input_where.
    assert (Hin : i ∈ filter (fun i => same_key (owner_id row) key i = true) (goal_inputs s)) by by apply list_elem_of_filter.
    destruct (filter _ _); [by apply elem_of_nil in Hin|by eexists].
  - intros [i|]; [|intros w _ [_ []%is_Some_None]].
    destruct (_ && _); [apply triple_ret; intros s [H _]; by split; [|eexists]|apply triple_throw].
Qed.
Lemma existing_keeps row key op hash : rely wf_db (existingMutation row key op hash) (fun _ => wf_db).
Proof.
  unfold existingMutation, checkpoint_where.
  repeat first [apply triple_throw | by apply triple_ret | eapply triple_bind; [by apply rely_read with (post := fun _ => wf_db); [apply wf_stable|]|]
    | intros [?|] | match goal with |- triple _ _ _ (if ?b then _ else _) _ => destruct b end ].
Qed.
Lemma add_when_used row key message kind hash :
  rely (used_wf (owner_id row) key) (addGoalInput row key message kind hash) (fun d s => wf_db s /\ d <> inserted).
Proof.
  unfold addGoalInput. eapply triple_bind; [apply existing_when_used|]. intros [m|]; [|intros w _ [_ []%is_Some_None]].
  apply triple_ret. intros s [[Hw _] _]. split; [done|]. by destruct m as [[]|].
Qed.
Lemma add_uses row key message kind hash :
  rely wf_db (addGoalInput row key message kind hash) (fun d s => wf_db s /\ (d = inserted -> used_wf (owner_id row) key s)).
Proof.
  unfold addGoalInput. eapply triple_bind; [apply existing_keeps|]. intros [m|].
  { apply triple_ret. intros s Hs. split; [done|]. by destruct m as [[]|]. }
  eapply triple_bind with (Q := fun _ => wf_db); [apply triple_call; [apply wf_stable|done]|]. intros id.
  eapply etriple_catch with (E := fun _ => wf_db).
  - eapply etriple_bind with (Q := fun _ => used_wf (owner_id row) key); [|intros []; apply etriple_ret; intros s [Hw Hu]; by split].
    unfold transaction. set (i := new_input _ _ _ _ _ _ _ _ _).
    assert (Hins : forall s, wf_db s -> wf_db (commits (insert_input i) s) /\ (fst (insert_input i s) = Ok tt -> used (owner_id row) key (commits (insert_input i) s))).
    { intros s Hs. destruct (tx_insert_input false (fun _ _ => True) any i (fun _ _ _ _ => I) s I) as [(_ & _ & H & _) _]. destruct (H Hs) as [Hw _].
      unfold commits, insert_input in *. destruct (goals s !! in_goal i); [|done]. destruct (existsb _ _); [done|]. split; [done|]. intros _.
      eexists. split; [apply elem_of_app; right; by apply list_elem_of_singleton|]. unfold same_key; cbn. by rewrite !bool_decide_true. }
    eapply etriple_bind with (Q := fun r s => wf_db s /\ (r = Ok tt -> used (owner_id row) key s)).
    + apply etriple_call; [apply wf_stable|]. intros s Hs. split; [done|]. destruct (Hins s Hs). by destruct (database (outside s)).
    + intros [[]|e]; [apply etriple_ret; intros s [Hw Hu]; split; auto|apply etriple_throw; by intros s []].
  - intros e. eapply triple_bind; [apply existing_keeps|]. intros [m|]; [|apply triple_throw].
    eapply triple_bind; [apply existing_keeps|]. intros o. apply triple_ret. intros s Hs. split; [done|]. by destruct o as [[[]|]|].
Qed.

(** C19. A request sent twice under one idempotency key is recorded at most once, even when
    the answer of the database was lost: of the two at most one inserts an input, and the
    keys of the inputs stay unique. *)
Theorem request_recorded_once row key message kind hash message' kind' hash' :
  rely wf_db (first ← addGoalInput row key message kind hash; second ← addGoalInput row key message' kind' hash'; mret (first, second))
    (fun r s => (fst r <> inserted \/ snd r <> inserted) /\ NoDup (input_key <$> goal_inputs s)).
Proof.
  eapply triple_bind; [apply add_uses|]. intros d. destruct d as [| |].
  - eapply triple_bind; [eapply triple_weaken; [|apply add_when_used]; intros s [_ H]; by apply H|]. intros d'. apply triple_ret. intros s [[_ Hw] Hd]. split; [by right|done].
  - eapply triple_bind; [eapply triple_weaken; [|apply add_uses]; by intros s [H _]|]. intros d'. apply triple_ret. intros s [[_ Hw] _]. split; [by left|done].
  - eapply triple_bind; [eapply triple_weaken; [|apply add_uses]; by intros s [H _]|]. intros d'. apply triple_ret. intros s [[_ Hw] _]. split; [by left|done].
Qed.
End Props.
