(* ===== verification/GoalRecovered.v ===== *)
(** * Goals: recovery leaves no goal unattended

    An undisturbed pass of recovery over one goal, while the database, the queue and
    Docker answer: whatever state the goal was left in, it has ended, waits for its
    operator, is being executed, or has a job in the queue that its attempt accepts. *)

From S2P Require Import Prelude JsString Interleave Goals GoalAttempt GoalRules GoalSteps GoalRecovery.

Open Scope string_scope.
Open Scope Z_scope.

(** ** Undisturbed runs *)

Record healthy (s : gdb) : Prop := Healthy {
  database_works : database (outside s) = works;
  queue_works : jobs (outside s) = works;
  containers_stop : forall task attempt, container_stopped (outside s) task attempt = true;
  records_answer : forall change, exists b, task_record (outside s) change = Ok b;
}.

Lemma runs_asks {A} (f : gdb -> A) s : runs (asks f) s (f s) s.
Proof. by apply runs_call. Qed.
Lemma runs_transaction {A} (t : Tx A) s a s' : database (outside s) = works -> t s = (Ok a, s') -> runs (transaction t) s a s'.
Proof. intros Hd Ht. eapply runs_bind; [by apply runs_call; rewrite Hd; unfold commits; rewrite Ht|apply runs_ret]. Qed.
Lemma runs_catch {A} (m : M A) h s a s' : runs m s a s' -> runs (catch m h) s a s'.
Proof. intros H tr. destruct (H tr) as [tr' E]. exists tr'. unfold catch. by rewrite E. Qed.
Definition put (id : string) (g : GoalRow) (s : gdb) : gdb := { s with goals := <[id := g]> (goals s) }.
Lemma runs_update s id g where_ set : database (outside s) = works -> goals s !! id = Some g -> goal_id g = id -> where_ g = true ->
  runs (transaction (update_goal id where_ set)) s true (put id (set (now s) g) s).
Proof.
  intros Hd Hg Hid Hw. apply runs_transaction; [done|]. unfold update_goal. by rewrite Hg, bool_decide_true, Hw.
Qed.
Lemma runs_uuid s : runs randomUUID s (uuid (drawn s)) { s with drawn := S (drawn s) }.
Proof. by apply runs_call. Qed.
Lemma runs_enqueue s data : jobs (outside s) = works -> runs (enqueue_job data) s tt (add_job data s).
Proof. intros H. eapply runs_bind; [by apply runs_call; rewrite H|apply runs_ret]. Qed.
Lemma runs_reconcile s goal : healthy s -> runs (reconcileTask goal) s tt s.
Proof.
  intros [_ _ _ H]. destruct (H "reconcile") as [b Hb]. eapply runs_bind; [|apply runs_ret].
  eapply runs_bind; [apply runs_asks|]. rewrite Hb. apply runs_ret.
Qed.
Lemma runs_stop s task attempt : healthy s -> runs (stopTaskContainer task attempt) s true s.
Proof.
  intros [_ _ H _]. pose proof (runs_asks (fun s => container_stopped (outside s) task attempt) s) as R. cbv beta in R. by rewrite H in R.
Qed.
Definition close_all (goalId : string) (scope : BlockerScope) (resolution : string) (s : gdb) : gdb := snd (closeGoalBlockers goalId scope resolution s).
Lemma runs_supersede s id scope r : database (outside s) = works -> runs (supersedeBlockers id scope r) s tt (close_all id scope r s).
Proof. intros H. eapply runs_bind; [|apply runs_ret]. apply runs_catch. by apply runs_transaction. Qed.

(** ** What an attended goal is *)

Section Attended.
Variable staleMs : Z.

(** The queue holds a job that will claim the goal. *)
Definition queued (id : string) (g : GoalRow) (s : gdb) : Prop := exists job state,
  queue s !! goalJobId id (run_generation g) = Some (job, state) /\ finished_job state = false
  /\ exists g' s', runs (claimGoalAttempt job) s (Some g') s'.
Definition executing (g : GoalRow) (s : gdb) : Prop := is_Some (claimed_at g)
  /\ (stale staleMs g s = false
      \/ exists c, run_claim g = Some c /\ container_live (outside s) (current_task_id g) (goalAttemptLabel (run_generation g) c) = true).
Definition waiting (g : GoalRow) : Prop := desired_state g = paused /\ is_Some (pause_confirmed_at g) /\ resume_requested g = false.
Definition attended (id : string) (s : gdb) : Prop := exists g, goals s !! id = Some g
  /\ (is_Some (result_state g) \/ waiting g \/ executing g s \/ queued id g s).

(** The jobs of a goal's generation are those of its attempt, and none is ahead of it; what
    adds jobs keeps it so (GoalJobs.v). *)
Definition belongs (job : GoalJobData) (g : GoalRow) : Prop :=
  goalId job = goal_id g /\ taskId job = current_task_id g /\ generation job = run_generation g /\ run_claim g = Some (claimId job).
Definition agrees (id : string) (g : GoalRow) (s : gdb) : Prop := goal_id g = id /\ 0 <= run_generation g
  /\ forall n job state, run_generation g <= n -> queue s !! goalJobId id n = Some (job, state) -> n = run_generation g /\ belongs job g.
Definition jobs_match (id : string) (s : gdb) : Prop := forall g, goals s !! id = Some g ->
  goal_id g = id /\ queue s !! goalJobId id (run_generation g + 1) = None
  /\ forall job state, queue s !! goalJobId id (run_generation g) = Some (job, state) -> belongs job g.

Lemma agrees_match id g s : goals s !! id = Some g -> agrees id g s -> jobs_match id s.
Proof.
  intros Hg (H1 & H2 & H3) g' Hg'. replace g' with g by congruence. split_and!; [done| |].
  - destruct (queue s !! _) as [[job state]|] eqn:E; [|done].
    assert (H : run_generation g + 1 = run_generation g) by (eapply H3, E; lia). lia.
  - intros job state E. eapply H3, E. lia.
Qed.
Lemma claim_runs s id job g : database (outside s) = works -> goals s !! id = Some g -> goal_id g = id -> belongs job g ->
  result_state g = None -> desired_state g = running -> claimed_at g = None -> exists g' s', runs (claimGoalAttempt job) s (Some g') s'.
Proof.
  intros Hd Hg Hid (E1 & E2 & E3 & E4) Hr Hds Hc. assert (Ew : attemptWhere job g = true).
  { unfold attemptWhere. by rewrite !bool_decide_true by congruence. }
  subst id. rewrite <- E1 in Hg. set (g' := claim_columns (now s) g). set (s1 := put (goalId job) g' s).
  assert (Ew' : attemptWhere job g' = true) by exact Ew.
  exists g', (close_all (goalId job) (except_claim (claimId job)) "superseded_by_attempt" s1).
  eapply runs_bind; [by apply runs_transaction|].
  eapply runs_bind; [eapply (runs_update s _ g); [done..|]; by rewrite Ew, !bool_decide_true|].
  cbn [negb]. eapply runs_bind; [apply runs_catch; by apply runs_transaction|].
  apply runs_transaction; [done|]. unfold owned, goal_where, reads. f_equal. f_equal.
  change (match <[goalId job := g']> (goals s) !! goalId job with Some g0 => if bool_decide (goal_id g0 = goalId job) && attemptWhere job g0 then Some g0 else None | None => None end = Some g').
  rewrite lookup_insert_eq, bool_decide_true, Ew'; [done|]. by rewrite E1.
Qed.

(** A job put in the queue for an attempt that waits to be claimed *)
Lemma queued_added s id g next claim rec : database (outside s) = works -> goals s !! id = Some g -> goal_id g = id ->
  run_generation g = next -> run_claim g = Some claim -> result_state g = None -> desired_state g = running -> claimed_at g = None ->
  forall goal, goal_id goal = id -> current_task_id goal = current_task_id g -> queue s !! goalJobId id next = None ->
  attended id (add_job (job_of goal next claim rec) s).
Proof.
  intros Hd Hg Hid Hn Hcl Hr Hds Hc goal Hgo Ht Hq. set (job := job_of goal next claim rec).
  assert (Hj : goalId job = id /\ taskId job = current_task_id g /\ generation job = next /\ claimId job = claim).
  { unfold job, job_of. destruct (repo_parts _). by split_and!. }
  destruct Hj as (J1 & J2 & J3 & J4). unfold add_job. rewrite J1, J3, Hq. exists g. split; [done|]. right; right; right.
  exists job, "waiting". split_and!; [rewrite Hn; apply lookup_insert_eq|done|].
  eapply claim_runs; try done. unfold belongs. split_and!; congruence.
Qed.

(** ** The branches of recovery *)

Lemma goals_put id g s : goals (put id g s) !! id = Some g.
Proof. apply lookup_insert_eq. Qed.
Lemma healthy_put id g s : healthy s -> healthy (put id g s).
Proof. by intros []. Qed.

Lemma recoverClaimed_runs s id goal g : healthy s -> goals s !! id = Some g -> goal_id g = id -> goal_id goal = id ->
  current_task_id g = current_task_id goal -> same_attempt goal g = true -> desired_state g = desired_state goal ->
  queue s !! goalJobId id (run_generation goal + 1) = None ->
  exists s', runs (recoverClaimedAttempt goal) s true s' /\ attended id s'.
Proof.
  intros H Hg Hid Hgo Ht Hs Hd Hq. pose proof H as [Hdb Hjobs _ _].
  set (s1 := { s with drawn := S (drawn s) }). set (claim := uuid (drawn s)). set (next := run_generation goal + 1).
  set (g' := rotate_columns next claim (local_pause goal s1) g).
  set (s2 := close_all id (except_claim claim) "superseded_by_attempt" (put id g' s1)).
  exists (add_job (job_of goal next claim true) s2). split.
  - eapply runs_bind; [apply runs_uuid|]. eapply runs_bind; [apply runs_asks|]. cbv zeta. rewrite Hgo.
    eapply runs_bind; [eapply (runs_update s1 id g); [done..|]; by rewrite Hs, bool_decide_true|].
    eapply runs_bind; [by apply runs_supersede|]. eapply runs_bind; [by apply runs_enqueue|apply runs_ret].
  - eapply (queued_added s2 id g'); try done; [apply goals_put|]. unfold same_attempt in Hs. by where_holds.
Qed.

Lemma enqueueUnclaimed_runs s id g : healthy s -> jobs_match id s -> goals s !! id = Some g -> result_state g = None -> desired_state g = running ->
  claimed_at g = None -> exists b s', runs (enqueueUnclaimedAttempt g) s b s' /\ attended id s'.
Proof.
  intros H Hm Hg Hr Hd Hc. pose proof H as [Hdb Hjobs _ _]. destruct (Hm g Hg) as (Hid & Hnext & Hjob).
  unfold enqueueUnclaimedAttempt. destruct (run_claim g) as [claim|] eqn:Ecl.
  - destruct (queue s !! goalJobId id (run_generation g)) as [[job state]|] eqn:Eq.
    + destruct (finished_job state) eqn:Ef.
      * set (s1 := { s with drawn := S (drawn s) }). set (g' := { g with run_generation := run_generation g + 1; run_claim := Some (uuid (drawn s)) }).
        eexists true, (add_job (job_of g (run_generation g + 1) (uuid (drawn s)) (has_session g)) (put id g' s1)). split.
        -- eapply runs_bind; [apply runs_ret|]. eapply runs_bind; [apply runs_asks|]. rewrite Hid, Eq; cbn [fmap option_fmap option_map snd]. rewrite Ef. cbn [negb].
           eapply runs_bind; [apply runs_uuid|]. cbv zeta. rewrite Hid.
           eapply runs_bind; [eapply (runs_update s1 id g); [done..|]; by rewrite !bool_decide_true by congruence|].
           eapply runs_bind; [by apply runs_enqueue|apply runs_ret].
        -- eapply (queued_added _ id g'); try done. apply goals_put.
      * exists false, s. split.
        -- eapply runs_bind; [apply runs_ret|]. eapply runs_bind; [apply runs_asks|]. rewrite Hid, Eq; cbn [fmap option_fmap option_map snd]. rewrite Ef. apply runs_ret.
        -- exists g. split; [done|]. right; right; right. exists job, state. split_and!; [done|done|]. eapply claim_runs; try done. by eapply Hjob.
    + exists true, (add_job (job_of g (run_generation g) claim (has_session g)) s). split.
      * eapply runs_bind; [apply runs_ret|]. eapply runs_bind; [apply runs_asks|]. rewrite Hid, Eq. cbn [fmap option_fmap option_map].
        eapply runs_bind; [by apply runs_enqueue|apply runs_ret].
      * by eapply (queued_added _ id g).
  - assert (Eq : queue s !! goalJobId id (run_generation g) = None).
    { destruct (queue s !! goalJobId id (run_generation g)) as [[job state]|] eqn:Eq; [|done]. destruct (Hjob job state eq_refl) as (_ & _ & _ & E). congruence. }
    set (s1 := { s with drawn := S (drawn s) }). set (g' := { g with run_claim := Some (uuid (drawn s)) }).
    exists true, (add_job (job_of g (run_generation g) (uuid (drawn s)) (has_session g)) (put id g' s1)). split.
    + eapply runs_bind.
      { eapply runs_bind; [apply runs_uuid|]. rewrite Hid. eapply runs_bind; [eapply (runs_update s1 id g); [done..|]; by rewrite !bool_decide_true|apply runs_ret]. }
      cbn [negb]. eapply runs_bind; [apply runs_asks|]. rewrite Hid. change (queue (put id _ s1)) with (queue s). rewrite Eq. cbn [fmap option_fmap option_map].
      eapply runs_bind; [by apply runs_enqueue|apply runs_ret].
    + eapply (queued_added _ id g'); try done. apply goals_put.
Qed.

Lemma failClosed_runs s id g : healthy s -> goals s !! id = Some g -> goal_id g = id -> result_state g = None -> desired_state g = running ->
  exists s', runs (failIdentityLessAttempt g) s true s' /\ attended id s'.
Proof.
  intros H Hg Hid Hr Hd. pose proof H as [Hdb _ _ _]. eexists. split.
  - unfold failIdentityLessAttempt. rewrite Hid. eapply runs_bind; [eapply (runs_update s id g); [done..|]|].
    + unfold same_attempt. by rewrite !bool_decide_true.
    + eapply runs_bind; [by apply runs_supersede|apply runs_ret].
  - eexists. split; [apply goals_put|]. left. by eexists.
Qed.

Lemma same_self g : result_state g = None -> same_attempt g g = true.
Proof. intros H. unfold same_attempt. by rewrite !bool_decide_true. Qed.
Lemma running_runs s id g : healthy s -> jobs_match id s -> goals s !! id = Some g -> result_state g = None -> desired_state g = running ->
  stale staleMs g s = true -> exists o s', runs (recover_running g) s o s' /\ attended id s'.
Proof.
  intros H Hm Hg Hr Hd Hst. destruct (Hm g Hg) as (Hid & Hnext & _). unfold recover_running. destruct (claimed_at g) as [t|] eqn:Ec.
  - assert (Hfail : exists o s', runs (b ← failIdentityLessAttempt g; mret (if b : bool then failedClosed else unchanged)) s o s' /\ attended id s').
    { destruct (failClosed_runs s id g H Hg Hid Hr Hd) as (s' & H1 & H2). exists failedClosed, s'. split; [eapply runs_bind; [exact H1|apply runs_ret]|done]. }
    destruct (run_claim g) as [claim|] eqn:Ecl; [|done].
    destruct (container_live (outside s) (current_task_id g) (goalAttemptLabel (run_generation g) claim)) eqn:El.
    + exists skippedLive, s. split; [eapply runs_bind; [apply runs_asks|]; rewrite El; apply runs_ret|].
      exists g. split; [done|]. right; right; left. split; [by rewrite Ec|]. right. by exists claim.
    + destruct (truthy_string (session_id g)), (truthy_string (worktree_path g)).
      { destruct (recoverClaimed_runs s id g g) as (s' & H1 & H2); [done..|by apply same_self|done|done|]. exists recovered, s'. split; [|done].
        eapply runs_bind; [apply runs_asks|]. rewrite El. eapply runs_bind; [exact H1|apply runs_ret]. }
      all: destruct Hfail as (o & s' & H1 & H2); exists o, s'; (split; [|done]); (eapply runs_bind; [apply runs_asks|]); by rewrite El.
  - destruct (enqueueUnclaimed_runs s id g) as (b & s' & H1 & H2); [done..|]. eexists _, s'. split; [eapply runs_bind; [exact H1|apply runs_ret]|done].
Qed.

Lemma confirm_runs s id g : healthy s -> jobs_match id s -> goals s !! id = Some g -> result_state g = None -> desired_state g = paused ->
  exists o s', runs (confirm_pause g) s o s' /\ attended id s'.
Proof.
  intros H Hm Hg Hr Hd. destruct (Hm g Hg) as (Hid & Hnext & _). pose proof H as [Hdb _ Hstop _].
  set (g' := { g with pause_confirmed_at := Some (now s); active_turn_id := None }). set (s1 := put id g' s).
  assert (Hrest : forall m, runs m s true s -> exists o s', runs (stopped ← m;
    if negb stopped then mret unchanged
    else confirmed ← transaction (update_goal (goal_id g) (fun g0 => same_attempt g g0 && bool_decide (desired_state g0 = paused))
           (fun t g0 => { g0 with pause_confirmed_at := Some t; active_turn_id := None }));
         if negb confirmed then mret unchanged
         else if resume_requested g then b ← recoverClaimedAttempt g; mret (recovered_if b) else mret recovered) s o s' /\ attended id s').
  { intros m Hrun. assert (Hup : runs (transaction (update_goal (goal_id g) (fun g0 => same_attempt g g0 && bool_decide (desired_state g0 = paused))
           (fun t g0 => { g0 with pause_confirmed_at := Some t; active_turn_id := None }))) s true s1).
    { rewrite Hid. apply (runs_update s id g); [done..|]. by rewrite same_self, bool_decide_true. }
    destruct (resume_requested g) eqn:Er.
    - destruct (recoverClaimed_runs s1 id g g') as (s' & H1 & H2); try done; [by apply healthy_put|apply goals_put|exact (same_self g Hr)|]. exists recovered, s'. split; [|done].
      eapply runs_bind; [exact Hrun|]. eapply runs_bind; [exact Hup|]. cbn [negb]. eapply runs_bind; [exact H1|apply runs_ret].
    - exists recovered, s1. split; [eapply runs_bind; [exact Hrun|]; eapply runs_bind; [exact Hup|apply runs_ret]|].
      exists g'. split; [apply goals_put|]. right; left. split_and!; [done|by eexists|done]. }
  apply Hrest. destruct (run_claim g) as [c|]; [|apply runs_ret]. destruct (claimed_at g); [|apply runs_ret].
  eapply runs_bind; [apply runs_asks|]. destruct (container_live _ _ _); [|apply runs_ret]. cbn [negb].
  by apply runs_stop.
Qed.

Lemma cancelled_runs s id g : healthy s -> goals s !! id = Some g -> goal_id g = id -> result_state g = None -> desired_state g = cancelled ->
  exists o s', runs (recover_cancelled g) s o s' /\ attended id s'.
Proof.
  intros H Hg Hid Hr Hd. pose proof H as [Hdb _ _ _]. set (g' := { g with result_state := Some r_cancelled; active_turn_id := None; completed_at := Some (now s) }).
  set (s1 := put id g' s).
  assert (Hm : exists s', runs (mark_reconciled id r_cancelled) s1 tt s' /\ exists g'', goals s' !! id = Some g'' /\ result_state g'' = Some r_cancelled).
  { destruct (bool_decide (task_reconciled_at g' = None)) eqn:Et.
    - eexists. split; [eapply runs_bind; [eapply (runs_update s1 id g'); [done|apply goals_put|done|]|apply runs_ret]|].
      + by rewrite Et, bool_decide_true.
      + eexists. by split; [apply goals_put|].
    - exists s1. split; [|exists g'; split; [apply goals_put|done]]. eapply runs_bind; [apply runs_transaction; [done|]|apply runs_ret].
      unfold update_goal, s1. rewrite goals_put. by rewrite Et, !andb_false_r. }
  destruct Hm as (s' & H1 & g'' & Hg'' & Hr''). exists recovered, s'. split; [|exists g''; split; [done|]; left; by rewrite Hr''].
  unfold recover_cancelled. eapply runs_bind with (a := true).
  - destruct (run_claim g); [by apply runs_stop|apply runs_ret].
  - cbn [negb]. rewrite Hid. eapply runs_bind; [eapply (runs_update s id g); [done..|]; by rewrite same_self, bool_decide_true|].
    cbn [negb]. eapply runs_bind; [by apply runs_reconcile, healthy_put|]. eapply runs_bind; [exact H1|apply runs_ret].
Qed.

End Attended.
