(* ===== verification/GoalQueue.v ===== *)
(** * Goals: the queue follows the goals

    Jobs of a goal are never ahead of its generation, and the jobs of its generation carry
    its claim. A program adds a job only for the generation and claim that it, a moment
    before, gave to the goal; [fits] is what makes that still true when the job is added,
    whatever other processes do in between. *)

From S2P Require Import Prelude JsString Interleave Json GoalDeclaration Goals GoalAttempt GoalCheckpoint GoalContinuation GoalWorker GoalRecovery GoalControls GoalRules GoalSteps GoalOperatorSteps GoalProps.

Open Scope string_scope.
Open Scope Z_scope.

(** ** What other processes may do, and what a step may do to the queue *)

Section Rely.
(** Identifiers that no other process gives to a new goal *)
Variable ids : string -> Prop.

Definition row_rely (s s' : gdb) : Prop := forall id,
  match goals s !! id, goals s' !! id with
  | Some g, Some g' => kept g g' /\ fixed_run g g'
  | None, Some _ => ~ ids id
  | _, None => True
  end.
Definition good (f : gdb -> gdb) : Prop := forall s, row_rely s (f s).

Definition known (goal : GoalRow) (s : gdb) : Prop := forall g, goals s !! goal_id goal = Some g ->
  goal_id g = goal_id goal -> current_task_id g = current_task_id goal.
(** A job of the goal's past, or of its present attempt *)
Definition fits (job : GoalJobData) (s : gdb) : Prop := forall g, goals s !! goalId job = Some g -> goal_id g = goalId job ->
  taskId job = current_task_id g
  /\ (generation job < run_generation g \/ (generation job = run_generation g /\ run_claim g = Some (claimId job))).
Definition queue_step (s s' : gdb) : Prop := queue s' = queue s \/ exists job, s' = add_job job s /\ fits job s.

Lemma known_stable goal f s : ids (goal_id goal) -> good f -> known goal s -> known goal (f s).
Proof.
  intros Hid Hf Hk g' Hg' E. specialize (Hf s (goal_id goal)). rewrite Hg' in Hf. destruct (goals s !! goal_id goal) as [g|] eqn:Eg; [|done].
  destruct Hf as [(E1&_&_&E2&_) _]. rewrite E2. apply Hk; [done|congruence].
Qed.
Lemma fits_stable job f s : ids (goalId job) -> good f -> fits job s -> fits job (f s).
Proof.
  intros Hid Hf Hk g' Hg' E. specialize (Hf s (goalId job)). rewrite Hg' in Hf. destruct (goals s !! goalId job) as [g|] eqn:Eg; [|done].
  destruct Hf as [(E1&_&_&E2&_) [H1 H2]]. destruct (Hk g Eg) as [E3 H]; [congruence|]. split; [congruence|].
  destruct H as [|[H3 H4]]; [left; lia|]. destruct (decide (run_generation g = run_generation g')) as [E4|]; [|left; lia].
  right. split; [lia|]. by apply H2.
Qed.

(** ** Programs *)

Abbreviation under A m Q := (etriple good queue_step A m Q (fun _ _ => True)).
Definition queues {A} (m : M A) : Prop := under any m whatever.

(** A transaction that leaves the queue alone *)
Definition unqueued {A} (t : Tx A) : Prop := forall s, queue (snd (t s)) = queue s.
Lemma unqueued_bind {A B} (t : Tx A) (f : A -> Tx B) : unqueued t -> (forall a, unqueued (f a)) -> unqueued (t ≫= f).
Proof.
  intros Ht Hf s. unfold mbind, Tx_bind. specialize (Ht s). destruct (t s) as [[a|e] s'] eqn:E; [|done]. cbn in *. by rewrite Hf.
Qed.
Lemma unqueued_ret {A} (a : A) : unqueued (mret a).
Proof. done. Qed.
Lemma unqueued_goal id where_ set : unqueued (update_goal id where_ set).
Proof. intros s. unfold update_goal. destruct (goals s !! id); [|done]. by destruct (_ && _). Qed.
Lemma unqueued_input i : unqueued (insert_input i).
Proof. intros s. unfold insert_input. destruct (goals s !! _); [|done]. by destruct (existsb _ _). Qed.
Lemma unqueued_checkpoint c : unqueued (insert_checkpoint c).
Proof. intros s. unfold insert_checkpoint. destruct (goals s !! _); [|done]. by destruct (existsb _ _). Qed.
Lemma unqueued_insert g : unqueued (insert_goal g).
Proof. intros s. unfold insert_goal. by destruct (_ || _). Qed.
Lemma unqueued_delete row : unqueued (delete_goal row).
Proof. intros s. unfold delete_goal. destruct (goals s !! _) as [g|]; [|done]. by destruct (owned_by _ g). Qed.

Lemma queues_ret {A} (a : A) : queues (mret a).
Proof. by apply etriple_ret. Qed.
Lemma queues_throw {A} e : queues (throw e : M A).
Proof. by apply etriple_throw. Qed.
Lemma queues_bind {A B} (m : M A) (f : A -> M B) : queues m -> (forall a, queues (f a)) -> queues (m ≫= f).
Proof. intros Hm Hf. eapply etriple_bind; [exact Hm|exact Hf]. Qed.
Lemma queues_catch {A} (m : M A) h : queues m -> (forall e, queues (h e)) -> queues (catch m h).
Proof. intros Hm Hh. eapply etriple_catch; [exact Hm|intros e; exact (Hh e)]. Qed.
Lemma queues_call {A} (f : gdb -> A * gdb) : (forall s, queue (snd (f s)) = queue s) -> queues (call f).
Proof. intros H. apply etriple_call; [done|]. intros s _. split; [by left|done]. Qed.
Lemma queues_or_throw {A} (r : result A) : queues (or_throw r).
Proof. destruct r; [apply queues_ret|apply queues_throw]. Qed.
Lemma queues_asks {A} (f : gdb -> A) : queues (asks f).
Proof. by apply queues_call. Qed.
Lemma queues_external {A} (f : Outside -> result A) : queues (external f).
Proof. apply queues_bind; [apply queues_asks|intros ?; apply queues_or_throw]. Qed.
Lemma queues_uuid : queues randomUUID.
Proof. by apply queues_call. Qed.
Lemma queues_abort task : queues (clear_abort task).
Proof. apply queues_bind; [|intros ?; apply queues_or_throw]. apply queues_call. intros s. by destruct (abort_flag (outside s)). Qed.
Lemma commits_queue {A} (t : Tx A) s : unqueued t -> queue (commits t s) = queue s.
Proof. intros H. specialize (H s). unfold commits. by destruct (t s) as [[] ?]. Qed.
Lemma queues_transaction {A} (t : Tx A) : unqueued t -> queues (transaction t).
Proof.
  intros H. apply queues_bind; [|intros ?; apply queues_or_throw]. apply queues_call. intros s.
  destruct (database (outside s)); cbn; [by apply commits_queue|done|by apply commits_queue].
Qed.
Lemma queues_each {A B} (f : A -> M B) l : (forall a, a ∈ l -> queues (f a)) -> queues (each f l).
Proof.
  induction l as [|a l IH]; intros H; cbn [each]; [apply queues_ret|]. apply queues_bind; [apply H; by left|]. intros b.
  apply queues_bind; [apply IH; intros; apply H; by right|]. intros bs. apply queues_ret.
Qed.
End Rely.
Create HintDb goal_queue.
#[export] Hint Resolve queues_asks queues_external queues_uuid queues_abort queues_or_throw queues_ret queues_throw : goal_queue.
#[export] Hint Resolve unqueued_goal unqueued_input unqueued_checkpoint unqueued_insert unqueued_delete unqueued_ret : goal_queue.

(** A transaction that leaves the queue alone, statement by statement *)
Ltac unqueued_tx :=
  repeat first
    [ solve [auto with goal_queue]
    | match goal with
      | |- unqueued (_ ≫= _) => apply unqueued_bind; [|intros ?]
      | |- unqueued (match ?x with _ => _ end) => destruct x
      end
    | solve [intros ?; reflexivity] ].
(** A program none of whose calls adds a job but those proved already *)
Ltac queued_with rule :=
  repeat first
    [ solve [auto with goal_queue]
    | rule
    | match goal with
      | |- queues _ (_ ≫= _) => apply queues_bind; [|intros ?]
      | |- queues _ (catch _ _) => apply queues_catch; [|intros ?]
      | |- queues _ (transaction _) => apply queues_transaction; unqueued_tx
      | |- queues _ (match ?x with _ => _ end) => destruct x
      | |- queues _ ((match ?x with _ => _ end) _) => destruct x
      end ].
Ltac queued_program := queued_with fail.

(** ** Programs that add no job *)

Section Quiet.
Variable ids : string -> Prop.
Abbreviation ok := (queues ids).

Lemma queues_fencedGoal job : ok (fencedGoal job).
Proof. unfold fencedGoal. queued_program. Qed.
Lemma queues_fencedUpdate job values : ok (fencedGoalUpdate job values).
Proof. unfold fencedGoalUpdate. queued_program. Qed.
Lemma queues_close id scope r : ok (transaction (closeGoalBlockers id scope r)).
Proof. by apply queues_transaction. Qed.
Lemma queues_fenced b e : ok (or_fenced b e).
Proof. unfold or_fenced. queued_program. Qed.
Lemma queues_attempt {A} (m : M A) : ok m -> ok (attempt_ m).
Proof. intros. unfold attempt_. queued_program. Qed.
Lemma queues_task change : ok (task_change change).
Proof. apply queues_external. Qed.
Hint Resolve queues_fencedGoal queues_fencedUpdate queues_close queues_fenced queues_attempt queues_task : goal_queue.

Lemma queues_claim job : ok (claimGoalAttempt job).
Proof. unfold claimGoalAttempt. queued_program. Qed.
Lemma queues_saveSession job s c : ok (saveFencedGoalSession job s c).
Proof. unfold saveFencedGoalSession, owned. queued_program. Qed.
Lemma queues_load job : ok (load job).
Proof. unfold load. queued_program. Qed.
Lemma queues_settle job id e set : ok (settle_input job id e set).
Proof. unfold settle_input, owned. queued_program. Qed.
Lemma unqueued_report bound job session report id : unqueued (recordGoalBlocker bound job session report id).
Proof. unfold recordGoalBlocker. unqueued_tx. Qed.
Lemma queues_report bound job report : ok (reportBlocker bound job report).
Proof. unfold reportBlocker, owned. queued_program. apply unqueued_report. Qed.
Lemma queues_resolve job key r : ok (resolveBlocker job key r).
Proof. unfold resolveBlocker, resolveGoalBlocker. queued_program. Qed.
Hint Resolve queues_saveSession queues_load queues_settle queues_report queues_resolve : goal_queue.

Variable request_hash : string -> GoalCheckpointRequest -> option string -> string.
Lemma queues_publish job request : ok (publishDirectGoalCheckpoint request_hash job request).
Proof.
  unfold publishDirectGoalCheckpoint, publishLocked, checkpoint_where, goal_where. queued_program;
    unfold open_checkpoint, publish_work, publication_failed; queued_program.
Qed.
Lemma queues_reject job request e : ok (rejectDirectGoalCheckpoint request_hash job request e).
Proof. unfold rejectDirectGoalCheckpoint, checkpoint_where, goal_where. queued_program. Qed.
Hint Resolve queues_publish queues_reject : goal_queue.

(** *** Continuation *)

Lemma queues_guard job lost : ok (attemptClaimGuard job lost).
Proof. unfold attemptClaimGuard. queued_program. Qed.
Lemma queues_retry {A} (m : M A) c : ok m -> ok c -> ok (retryTransient m c).
Proof. intros. unfold retryTransient. queued_program. Qed.
Lemma queues_obligation job goal : ok (persistRestorationObligation job goal).
Proof. unfold persistRestorationObligation, owned, recordRestorationNotice. queued_program. Qed.
Lemma queues_rebuild job lost : ok (rebuildWorktree (attemptClaimGuard job lost)).
Proof. unfold rebuildWorktree, attemptClaimGuard. queued_program. Qed.
Hint Resolve queues_guard queues_retry queues_obligation queues_rebuild : goal_queue.
Lemma queues_restore job goal : ok (restoreMissingGoalWorktree job goal).
Proof. unfold restoreMissingGoalWorktree, isDirectory. queued_program. Qed.
Hint Resolve queues_restore : goal_queue.
Lemma queues_continued job goal : ok (prepareContinuedGoal job goal).
Proof.
  unfold prepareContinuedGoal. destruct (negb _); [apply queues_ret|].
  apply queues_bind. { unfold pull_updates. queued_program; try apply queues_retry; unfold readPullRequest, convertToDraft; queued_program. } intros u.
  apply queues_bind; [auto with goal_queue|]. intros _.
  apply queues_bind. { unfold checkout_updates, isDirectory. queued_program. } intros u'.
  apply queues_bind. { unfold preserve_checkout, isDirectory, cleanupWorktree. queued_program. } intros note.
  destruct (_ && _); [apply queues_ret|]. apply queues_bind; [unfold save_updates; queued_program|]. intros _. queued_program.
Qed.
Lemma queues_bootstrap goal : ok (continuedGoalBootstrapId goal).
Proof. unfold continuedGoalBootstrapId. queued_program. Qed.
Hint Resolve queues_continued queues_bootstrap : goal_queue.

(** *** The job *)

Lemma queues_finalize job r reason : ok (finalizeGoal job r reason).
Proof. unfold finalizeGoal. queued_program. Qed.
Lemma queues_reconciled job r : ok (markGoalTaskReconciled job r).
Proof. unfold markGoalTaskReconciled. queued_program. Qed.
Hint Resolve queues_finalize queues_reconciled : goal_queue.
Lemma queues_checkout job goal : ok (prepareGoalCheckout job goal).
Proof. unfold prepareGoalCheckout, ensureGoalWorktree, failGoalPreparation, isDirectory. queued_program. apply queues_attempt. queued_program. Qed.
Lemma queues_inputs goal : ok (prepareGoalAttemptInputs goal).
Proof. unfold prepareGoalAttemptInputs, firstPendingGoalInput, first_pending. queued_program. Qed.
Lemma queues_feedback goal i : ok (previousCheckpointFeedback goal i).
Proof. unfold previousCheckpointFeedback. queued_program. Qed.
Hint Resolve queues_checkout queues_inputs queues_feedback : goal_queue.

Variable bound_text : string -> string.
Variable executeTask : ExecutionRequest -> Provider.
Lemma queues_onSession job p s c : ok (onSessionId job p s c).
Proof. unfold onSessionId, saveSessionAndTaskState, stop_for_correction, markInputDelivered. queued_program. Qed.
Hint Resolve queues_onSession : goal_queue.
Lemma queues_callback job p c : ok (callback bound_text request_hash job p c).
Proof. unfold callback, heartbeat, setActiveTurn, onGoalRearmed, markInputDelivered, markInputUndeliverable. queued_program. Qed.
Hint Resolve queues_callback : goal_queue.
Lemma queues_provider job p tree : ok (run_provider bound_text request_hash job p tree).
Proof. induction tree as [r|c k IH]; cbn [run_provider]; queued_program. Qed.
Lemma queues_execute job p : ok (executePreparedGoal bound_text request_hash executeTask job p).
Proof. unfold executePreparedGoal, runPreparedGoal, closeAttemptBlockers. queued_program. apply queues_attempt, queues_provider. Qed.
Lemma unqueued_deliver job owner l : unqueued (deliver_all job owner l).
Proof. induction l as [|id l IH]; cbn [deliver_all]; unqueued_tx. Qed.
Lemma queues_acknowledge job p result : ok (acknowledgeWholeSessionInput job p result).
Proof. unfold acknowledgeWholeSessionInput, owned. queued_program. apply unqueued_deliver. Qed.
Lemma queues_saveResult job goal result : ok (saveProviderResult job goal result).
Proof. unfold saveProviderResult. queued_program. Qed.
Lemma queues_metrics job : ok (recordGoalMetrics job).
Proof. unfold recordGoalMetrics. queued_program. Qed.
Lemma queues_declaration job d : ok (publish_declaration request_hash job d).
Proof. unfold publish_declaration. queued_program. Qed.
Hint Resolve queues_saveResult : goal_queue.
Variable agentFailureLine : string -> option string.
Lemma queues_conclude job goal branch result pr : ok (conclude_direct request_hash agentFailureLine job goal branch result pr).
Proof. unfold conclude_direct, conclude. queued_program. Qed.
End Quiet.
#[export] Hint Resolve queues_fencedGoal queues_fencedUpdate queues_close queues_task queues_claim queues_publish queues_reject queues_bootstrap queues_checkout
  queues_inputs queues_feedback queues_execute queues_acknowledge queues_saveResult queues_metrics queues_declaration queues_conclude : goal_queue.

(** ** Programs that add the job they just made way for *)

Section Adding.
Variable ids : string -> Prop.
Abbreviation ok := (queues ids).
Abbreviation under A m Q := (etriple (good ids) queue_step A m Q (fun _ _ => True)).

(** A program that touches neither goals nor queue keeps what other processes keep. *)
Definition stable (P : gdb -> Prop) : Prop := forall f s, good ids f -> P s -> P (f s).
Definition on_goals (P : gdb -> Prop) : Prop := forall s s', goals s' = goals s -> P s -> P s'.
Definition aside {A} (t : Tx A) : Prop := forall s, goals (snd (t s)) = goals s /\ queue (snd (t s)) = queue s.
Lemma under_call P {A} (f : gdb -> A * gdb) : stable P -> on_goals P -> (forall s, goals (snd (f s)) = goals s /\ queue (snd (f s)) = queue s) ->
  under P (call f) (fun _ => P).
Proof. intros Hs Hg Hf. apply etriple_call; [exact Hs|]. intros s Hp. destruct (Hf s). split; [by left|]. by eapply Hg. Qed.
Lemma under_asks P {A} (f : gdb -> A) : stable P -> on_goals P -> under P (asks f) (fun _ => P).
Proof. intros. by apply under_call. Qed.
Lemma under_uuid P : stable P -> on_goals P -> under P randomUUID (fun _ => P).
Proof. intros. by apply under_call. Qed.
Lemma under_or_throw P {A} (r : result A) : under P (or_throw r) (fun _ => P).
Proof. destruct r; [by apply etriple_ret|by apply etriple_throw]. Qed.
Lemma under_external P {A} (f : Outside -> result A) : stable P -> on_goals P -> under P (external f) (fun _ => P).
Proof. intros. eapply etriple_bind; [by apply under_asks|]. intros ?. apply under_or_throw. Qed.
Lemma under_abort P task : stable P -> on_goals P -> under P (clear_abort task) (fun _ => P).
Proof.
  intros. eapply etriple_bind; [|intros ?; apply under_or_throw]. apply under_call; [done..|]. intros s. by destruct (abort_flag (outside s)).
Qed.
(** A statement that makes [P] true, or fails *)
Lemma under_transaction (P0 P : gdb -> Prop) {A} (t : Tx A) (Q : A -> gdb -> Prop) : stable P0 -> unqueued t ->
  (forall s a, P0 s -> fst (t s) = Ok a -> Q a (snd (t s))) -> under P0 (transaction t) Q.
Proof.
  intros Hs Hq Ht. unfold transaction. eapply etriple_bind with (Q := fun r s => forall a, r = Ok a -> Q a s).
  - apply etriple_call; [exact Hs|]. intros s Hp. specialize (Ht s). split.
    + left. destruct (database (outside s)); cbn; [by apply commits_queue|done|by apply commits_queue].
    + unfold commits. destruct (database (outside s)); [|done..]. destruct (t s) as [[x|e] s'] eqn:E; cbn; [|done]. intros a [= <-]. by apply (Ht x).
  - intros [a|e]; [|by apply etriple_throw]. apply etriple_ret. intros s H. by apply H.
Qed.
Lemma under_aside P {A} (t : Tx A) : stable P -> on_goals P -> aside t -> under P (transaction t) (fun _ => P).
Proof.
  intros Hs Hg Ht. apply under_transaction; [done|done|intros s; apply Ht|]. intros s a Hp _. destruct (Ht s). by eapply Hg.
Qed.
Lemma fits_on_goals job : on_goals (fits job).
Proof. intros s s' E H g. rewrite E. apply H. Qed.
Lemma known_on_goals goal : on_goals (known goal).
Proof. intros s s' E H g. rewrite E. apply H. Qed.

Lemma under_enqueue job : ids (goalId job) -> under (fits job) (enqueue_job job) whatever.
Proof.
  intros Hid. eapply etriple_bind with (Q := fun _ _ => True); [|intros r; eapply etriple_weaken; [| | |apply (under_or_throw any)]; done].
  apply etriple_call; [intros f s; by apply fits_stable|]. intros s Hf. split; [|done].
  destruct (jobs (outside s)); cbn; [|by left|]; right; by exists job.
Qed.
Lemma under_forget P {A} (m : M A) : ok m -> under P m whatever.
Proof. intros H. eapply etriple_weaken; [| | |exact H]; done. Qed.
Lemma under_then P {A B} (m : M A) (f : A -> M B) Q : under P m Q -> (forall a, under (Q a) (f a) whatever) -> under P (m ≫= f) whatever.
Proof. intros Hm Hf. eapply etriple_bind; [exact Hm|exact Hf]. Qed.

(** The update that makes way for a job, and what follows when it changed the row *)
Lemma under_rotation P id where_ set job {B} (no yes : M B) : stable P -> goalId job = id ->
  (forall t g, goal_id g = id -> where_ g = true -> forall s, P s -> goals s !! id = Some g ->
     taskId job = current_task_id g /\ generation job = run_generation (set t g) /\ run_claim (set t g) = Some (claimId job)
     /\ current_task_id (set t g) = current_task_id g) ->
  under any no whatever -> under (fits job) yes whatever ->
  under P (changed ← transaction (update_goal id where_ set); if negb changed then no else yes) whatever.
Proof.
  intros Hs <- Hset Hno Hyes. eapply etriple_bind with (Q := fun b s => b = true -> fits job s).
  - apply under_transaction with (P := fits job); [done|apply unqueued_goal|]. intros s b Hp. unfold update_goal.
    destruct (goals s !! goalId job) as [g|] eqn:Eg; [|by intros [= <-]]. destruct (bool_decide (goal_id g = goalId job) && where_ g) eqn:Ew; [|by intros [= <-]].
    apply andb_prop in Ew as [Eid Ew]. apply bool_decide_eq_true in Eid. intros _ _ g' Hg'.
    assert (g' = set (now s) g) as ->. { cbn [snd] in Hg'. rewrite goals_set, lookup_insert_eq in Hg'. congruence. }
    intros _. destruct (Hset (now s) g Eid Ew s Hp Eg) as (E1 & E2 & E3 & E4). split; [congruence|]. right. by split.
  - intros [|]; cbn [negb]; [|by eapply etriple_weaken; [| | |exact Hno]]. eapply etriple_weaken; [| | |exact Hyes]; auto.
Qed.
End Adding.

Section Programs.
Variable ids : string -> Prop.
Abbreviation ok := (queues ids).
Abbreviation under A m Q := (etriple (good ids) queue_step A m Q (fun _ _ => True)).

Lemma job_of_fields goal n c r : let job := job_of goal n c r in
  goalId job = goal_id goal /\ taskId job = current_task_id goal /\ generation job = n /\ claimId job = c.
Proof. unfold job_of. by destruct (repo_parts _). Qed.
Ltac job_fields goal n c r := destruct (job_of_fields goal n c r) as (?J1 & ?J2 & ?J3 & ?J4).

Lemma yes_enqueue {A} job (a : A) : ids (goalId job) -> under (fits job) (_ ← enqueue_job job; mret a) whatever.
Proof. intros H. eapply under_then; [by apply under_enqueue|]. intros ?. by apply etriple_ret. Qed.

(** *** The worker *)

Definition row_of_job (job : GoalJobData) (g : GoalRow) : Prop := goal_id g = goalId job /\ current_task_id g = taskId job.
Lemma queues_next goal job rec : ids (goalId job) -> row_of_job job goal -> ok (enqueueNextGoalAttempt goal job rec).
Proof.
  intros Hid [E1 E2]. unfold enqueueNextGoalAttempt. apply queues_bind; [auto with goal_queue|]. intros c. apply queues_bind; [auto with goal_queue|]. intros t.
  job_fields goal (generation job + 1) c rec. eapply under_rotation; [done|by rewrite J1|..].
  - intros t' g _ Hw s _ _. apply andb_prop in Hw as [Hw _]. unfold attemptWhere in Hw. where_holds.
    split_and!; [congruence|exact J3|rewrite J4; reflexivity|reflexivity].
  - by apply etriple_ret.
  - apply yes_enqueue. by rewrite J1, E1.
Qed.

Definition yields {A} (m : M A) (Q : A -> Prop) : Prop := under any m (fun a _ => Q a).
Lemma queues_with {A B} (m : M A) (f : A -> M B) Q : yields m Q -> (forall a, Q a -> ok (f a)) -> ok (m ≫= f).
Proof.
  intros Hm Hf. eapply under_then; [exact Hm|]. intros a. eapply etriple_weaken with (P' := fun s => any s /\ Q a); [done|done|done|].
  apply etriple_pure. apply Hf.
Qed.
Definition found_row (job : GoalJobData) (o : option GoalRow) : Prop := forall g, o = Some g -> row_of_job job g.
Lemma yields_fenced job : yields (fencedGoal job) (found_row job).
Proof.
  apply under_transaction with (P := any); [done|done|]. intros s o _ [= <-] g. destruct (goals s !! goalId job) as [g'|]; [|done].
  destruct (_ && _) eqn:E; [|done]. intros [= <-]. where_holds. by split.
Qed.
Lemma yields_boundary job : yields (pause_at_boundary job) (found_row job).
Proof. eapply etriple_bind; [apply queues_fencedUpdate|]. intros b. apply yields_fenced. Qed.

Variable bound_text : string -> string.
Variable request_hash : string -> GoalCheckpointRequest -> option string -> string.
Variable json_parse : string -> option json.
Variable agentFailureLine : string -> option string.
Variable executeTask : ExecutionRequest -> Provider.
Variable job : GoalJobData.
Hypothesis known_job : ids (goalId job).

Lemma queues_prepare goal : ok (prepareClaimedGoalAttempt request_hash job goal).
Proof.
  unfold prepareClaimedGoalAttempt. do 3 (apply queues_bind; [by auto with goal_queue|]; intros ?).
  apply queues_bind; [by auto with goal_queue|]. intros [status|w]; [apply queues_ret|].
  apply queues_bind; [by auto with goal_queue|]. intros [g|]; [|apply queues_ret]. destruct (desired_state g); [|..|apply queues_ret].
  - queued_program.
  - eapply queues_with; [apply yields_boundary|]. intros [c|] Hc; [|queued_program].
    apply queues_bind; [|intros ?; apply queues_ret]. destruct (resume_requested c); [|apply queues_ret]. by apply queues_next, Hc.
Qed.
Lemma queues_stopped latest : found_row job latest -> ok (handleStoppedGoal job latest).
Proof.
  intros Hl. unfold handleStoppedGoal. destruct latest as [g|]; [|apply queues_ret]. destruct (desired_state g); [apply queues_ret| |queued_program].
  do 2 (apply queues_bind; [by auto with goal_queue|]; intros ?). apply queues_bind; [|intros ?; apply queues_ret].
  destruct (resume_requested g); [|apply queues_ret]. by apply queues_next, Hl.
Qed.
Lemma queues_further latest result b : row_of_job job latest -> ok (scheduleFurtherWork job latest result b).
Proof.
  intros Hl. unfold scheduleFurtherWork, firstPendingGoalInput, first_pending. apply queues_bind; [by queued_program|]. intros o.
  destruct (_ || _); [|destruct (negb _); [apply queues_ret|]]; (apply queues_bind; [by apply queues_next|intros ?; apply queues_ret]).
Qed.
Lemma queues_result p result : ok (handleGoalResult request_hash json_parse agentFailureLine job p result).
Proof.
  unfold handleGoalResult, any_goal, goal_where. apply queues_bind; [by queued_program|]. intros [row|]; [|apply queues_ret].
  destruct (_ || _); [apply queues_ret|]. do 2 (apply queues_bind; [by auto with goal_queue|]; intros ?).
  eapply queues_with; [apply yields_fenced|]. intros boundary Hb. apply queues_bind; [by queued_program|]. intros _.
  apply queues_bind; [by apply queues_stopped|]. intros [status|]; [apply queues_ret|].
  apply queues_bind; [by auto with goal_queue|]. intros pr. apply queues_bind; [by queued_program|]. intros _.
  eapply queues_with; [apply yields_fenced|]. intros latest Hl. apply queues_bind; [by apply queues_stopped|].
  intros [status|]; [apply queues_ret|]. destruct latest as [l|]; [|apply queues_throw].
  apply queues_bind; [by apply queues_further, Hl|]. intros [status|]; [apply queues_ret|]. by auto with goal_queue.
Qed.
Lemma queues_job : ok (processGoalJob bound_text request_hash json_parse agentFailureLine executeTask job).
Proof.
  unfold processGoalJob. apply queues_bind; [by auto with goal_queue|]. intros [goal|]; [|apply queues_ret].
  apply queues_bind; [apply queues_prepare|]. intros [status|p]; [apply queues_ret|].
  apply queues_bind; [by auto with goal_queue|]. intros r. apply queues_result.
Qed.
End Programs.

(** *** Recovery *)

Section Recovery.
Variable ids : string -> Prop.
Abbreviation ok := (queues ids).
Abbreviation under A m Q := (etriple (good ids) queue_step A m Q (fun _ _ => True)).
Variable staleMs : Z.
Variable goal : GoalRow.
Hypothesis known_goal : ids (goal_id goal).

(** The goal was read, and has moved on at most. *)
Definition as_read (s : gdb) : Prop := forall g, goals s !! goal_id goal = Some g -> goal_id g = goal_id goal ->
  current_task_id g = current_task_id goal
  /\ (run_generation goal < run_generation g
      \/ (run_generation g = run_generation goal /\ forall c, run_claim goal = Some c -> run_claim g = Some c)).
Lemma as_read_stable : stable ids as_read.
Proof.
  intros f s Hf H g' Hg' E. specialize (Hf s (goal_id goal)). rewrite Hg' in Hf. destruct (goals s !! goal_id goal) as [g|] eqn:Eg; [|done].
  destruct Hf as [(E1&_&_&E2&_) [H1 H2]]. destruct (H g Eg) as [E3 H3]; [congruence|]. split; [congruence|].
  destruct H3 as [|[H3 H4]]; [left; lia|]. destruct (decide (run_generation g = run_generation g')) as [E4|]; [|left; lia].
  right. split; [lia|]. intros c Hc. by apply H2, H4.
Qed.
Lemma as_read_on_goals : on_goals as_read.
Proof. intros s s' E H g. rewrite E. apply H. Qed.
Lemma fits_stable' job : goalId job = goal_id goal -> stable ids (fits job).
Proof. intros E f s. apply fits_stable. by rewrite E. Qed.

Lemma under_supersede P id scope r : stable ids P -> on_goals P -> under P (supersedeBlockers id scope r) (fun _ => P).
Proof.
  intros Hs Hg. unfold supersedeBlockers. eapply etriple_bind with (Q := fun _ => P); [|intros ?; by apply etriple_ret].
  eapply etriple_catch with (E := fun _ => P); [|intros e; by apply etriple_ret].
  unfold transaction. eapply etriple_bind with (Q := fun _ => P).
  - apply etriple_call; [exact Hs|]. intros s Hp. unfold commits. split; [left; by destruct (database (outside s))|]. by destruct (database (outside s)); apply (Hg s).
  - intros [a|e]; [by apply etriple_ret|by apply etriple_throw].
Qed.
Lemma queues_supersede id scope r : ok (supersedeBlockers id scope r).
Proof. unfold supersedeBlockers. queued_program. Qed.
Lemma queues_reconcile g : ok (reconcileTask g).
Proof. unfold reconcileTask. queued_program. Qed.
Lemma queues_mark id r : ok (mark_reconciled id r).
Proof. unfold mark_reconciled. queued_program. Qed.
Hint Resolve queues_supersede queues_reconcile queues_mark : goal_queue.
Lemma queues_failClosed : ok (failIdentityLessAttempt goal).
Proof. unfold failIdentityLessAttempt. queued_program. Qed.
Lemma queues_cancelled : ok (recover_cancelled goal).
Proof. unfold recover_cancelled, stopTaskContainer. queued_program. Qed.
Hint Resolve queues_failClosed queues_cancelled : goal_queue.

Ltac job_fields n c r := destruct (job_of_fields goal n c r) as (?J1 & ?J2 & ?J3 & ?J4).
Lemma under_recoverClaimed : under as_read (recoverClaimedAttempt goal) whatever.
Proof.
  unfold recoverClaimedAttempt. eapply under_then; [apply under_uuid; [apply as_read_stable|apply as_read_on_goals]|]. intros c.
  eapply under_then; [apply under_asks; [apply as_read_stable|apply as_read_on_goals]|]. intros t. job_fields (run_generation goal + 1) c true.
  eapply under_rotation; [apply as_read_stable|exact J1|..].
  - intros t' g Eid Hw s Hs Hg. destruct (Hs g Hg Eid) as [Et _]. split_and!; [by rewrite J2, Et|exact J3|rewrite J4; reflexivity|reflexivity].
  - by apply etriple_ret.
  - eapply under_then; [apply under_supersede; [by apply fits_stable'|apply fits_on_goals]|]. intros ?. apply yes_enqueue. by rewrite J1.
Qed.
Lemma under_rotate_past c : under (fits (job_of goal (run_generation goal) c (has_session goal))) (rotate_past_job goal c) whatever.
Proof.
  unfold rotate_past_job. job_fields (run_generation goal) c (has_session goal). assert (Hst := fits_stable' _ J1).
  eapply under_then; [apply under_uuid; [exact Hst|apply fits_on_goals]|]. intros c'. job_fields (run_generation goal + 1) c' (has_session goal).
  eapply under_rotation; [exact Hst|done|..].
  - intros t' g Eid Hw s Hs Hg. destruct (Hs g) as [Et _]; [by rewrite J1|congruence|]. split_and!; [congruence|done|by f_equal|done].
  - by apply etriple_ret.
  - apply yes_enqueue. congruence.
Qed.
Lemma under_unclaimed : under as_read (enqueueUnclaimedAttempt goal) whatever.
Proof.
  unfold enqueueUnclaimedAttempt.
  eapply under_then with (Q := fun o s => forall c, o = Some c -> fits (job_of goal (run_generation goal) c (has_session goal)) s).
  - destruct (run_claim goal) as [c|] eqn:Ec.
    + apply etriple_ret. intros s Hs c' [= <-] g Hg Eid. job_fields (run_generation goal) c (has_session goal). rewrite J1 in *.
      destruct (Hs g Hg Eid) as [Et H]. rewrite J2, J3, J4. split; [done|]. destruct H as [|[H1 H2]]; [by left|right; split; [done|by apply H2]].
    + eapply etriple_bind; [apply under_uuid; [apply as_read_stable|apply as_read_on_goals]|]. intros c. job_fields (run_generation goal) c (has_session goal).
      eapply etriple_bind with (Q := fun b s => b = true -> fits (job_of goal (run_generation goal) c (has_session goal)) s);
        [|intros [|]; apply etriple_ret; intros s H ?; [intros [= <-]; by apply H|done]].
      apply under_transaction with (P := as_read); [apply as_read_stable|apply unqueued_goal|]. intros s b Hs. unfold update_goal.
      destruct (goals s !! goal_id goal) as [g|] eqn:Eg; [|by intros [= <-]]. destruct (bool_decide (goal_id g = goal_id goal) && _) eqn:Ew; [|by intros [= <-]].
      where_holds. intros _ _ g' Hg' _. cbn [snd] in Hg'. rewrite goals_set, J1, lookup_insert_eq in Hg'. injection Hg' as <-.
      destruct (Hs g Eg) as [Et _]; [done|]. rewrite J2, J3, J4. split; [by rewrite <- Et|]. right. by split.
  - intros [c|]; [|by apply etriple_ret]. job_fields (run_generation goal) c (has_session goal). set (job := job_of goal (run_generation goal) c (has_session goal)) in *.
    apply etriple_weaken with (P' := fits job) (Q' := whatever) (E' := fun _ _ => True); [intros s H; by apply H|done|done|].
    eapply under_then; [apply under_asks; [by apply fits_stable'|apply fits_on_goals]|]. intros [state|].
    + destruct (negb _); [by apply etriple_ret|apply under_rotate_past].
    + apply yes_enqueue. by rewrite J1.
Qed.

Lemma under_running : under as_read (recover_running goal) whatever.
Proof.
  unfold recover_running. destruct (claimed_at goal); [|eapply under_then; [apply under_unclaimed|intros ?; by apply etriple_ret]].
  destruct (run_claim goal) as [c|]; [|apply under_forget; queued_program].
  eapply under_then; [apply under_asks; [apply as_read_stable|apply as_read_on_goals]|]. intros [|]; [by apply etriple_ret|].
  destruct (truthy_string (session_id goal)), (truthy_string (worktree_path goal)); try solve [apply under_forget; queued_program].
  eapply under_then; [apply under_recoverClaimed|]. intros ?. by apply etriple_ret.
Qed.
Lemma under_confirm : under as_read (confirm_pause goal) whatever.
Proof.
  unfold confirm_pause. eapply under_then with (Q := fun _ => as_read).
  - destruct (run_claim goal), (claimed_at goal); try by apply etriple_ret.
    eapply etriple_bind; [apply under_asks; [apply as_read_stable|apply as_read_on_goals]|]. intros b. destruct (negb b); [by apply etriple_ret|].
    apply under_asks; [apply as_read_stable|apply as_read_on_goals].
  - intros b. destruct (negb b); [by apply etriple_ret|]. eapply under_then with (Q := fun _ => as_read).
    + apply under_transaction with (P := as_read); [apply as_read_stable|apply unqueued_goal|]. intros s b' Hs _. unfold update_goal.
      destruct (goals s !! goal_id goal) as [g|] eqn:Eg; [|done]. destruct (bool_decide (goal_id g = goal_id goal) && _) eqn:Ew; [|done].
      where_holds. intros g' Hg' _. cbn [snd] in Hg'. rewrite goals_set, lookup_insert_eq in Hg'. injection Hg' as <-. by apply (Hs g).
    + intros b'. destruct (negb b'); [by apply etriple_ret|]. destruct (resume_requested goal); [|by apply etriple_ret].
      eapply under_then; [apply under_recoverClaimed|]. intros ?. by apply etriple_ret.
Qed.
Lemma under_recover : under as_read (recoverGoal staleMs goal) whatever.
Proof.
  unfold recoverGoal. destruct (result_state goal); [apply under_forget; queued_program|].
  assert (Ht : forall k, (forall old, under as_read (k old) whatever) -> under as_read (old ← asks (stale staleMs goal); k old : M RecoveryOutcome) whatever).
  { intros k Hk. eapply under_then; [apply under_asks; [apply as_read_stable|apply as_read_on_goals]|exact Hk]. }
  destruct (desired_state goal); [..|apply under_forget; queued_program].
  - apply Ht. intros t. destruct (negb _); [by apply etriple_ret|apply under_running].
  - destruct (_ && _); [eapply under_then; [apply under_recoverClaimed|intros ?; by apply etriple_ret]|].
    destruct (bool_decide _); [by apply etriple_ret|]. apply Ht. intros t. destruct (negb _); [by apply etriple_ret|apply under_confirm].
Qed.
End Recovery.

(** *** Handlers *)

Section Handlers.
Variable ids : string -> Prop.
Abbreviation ok := (queues ids).
Abbreviation under A m Q := (etriple (good ids) queue_step A m Q (fun _ _ => True)).
Variable sha256 : string -> string.
Variable stringify : list (string * string) -> string.

Lemma known_keeps row : ids (goal_id row) -> stable ids (known row).
Proof. intros H f s. by apply known_stable. Qed.

(** A read of the row of [row]'s identifier *)
Definition read_of (id : string) (o : option GoalRow) (s : gdb) : Prop := forall l, o = Some l -> goal_id l = id /\ known l s.
Lemma under_read (P : gdb -> Prop) id where_ : stable ids P -> under P (transaction (goal_where id where_)) (read_of id).
Proof.
  intros Hs. apply under_transaction with (P := P); [done|done|]. intros s o _ [= <-] l. destruct (goals s !! id) as [g|] eqn:Eg; [|done].
  destruct (bool_decide (goal_id g = id) && where_ g) eqn:Ew; [|done]. apply andb_prop in Ew as [Eid _]. apply bool_decide_eq_true in Eid.
  intros [= <-]. split; [done|]. intros g'. cbn. rewrite Eid, Eg. by intros [= <-].
Qed.
Lemma queues_read id where_ : ok (transaction (goal_where id where_)).
Proof. unfold goal_where. queued_program. Qed.
Lemma under_find req h : (forall row, goal_id row = params_goal req -> under (known row) (h row) whatever) -> ok (findOwnedGoal req h).
Proof.
  intros H. unfold findOwnedGoal. destruct (truthy_string (user req)); [|apply queues_ret]. eapply under_then; [by apply under_read|].
  intros [row|]; [|by apply etriple_ret]. intros w Hw Hr. destruct (Hr row eq_refl) as [E Hk]. by apply (H row E w).
Qed.
Lemma under_key P req h : (forall key, under P (h key) whatever) -> under P (requiredIdempotencyKey req h) whatever.
Proof. intros H. unfold requiredIdempotencyKey. destruct (requestIdempotencyKey req); [apply H|by apply etriple_ret]. Qed.

(** Reads and requests keep what is known of the goal, also where they fail. *)
Definition still (P : gdb -> Prop) {A} (m : M A) : Prop := etriple (good ids) queue_step P m (fun _ => P) (fun _ => P).
Lemma still_call P {A} (f : gdb -> A * gdb) : stable ids P -> on_goals P -> (forall s, goals (snd (f s)) = goals s /\ queue (snd (f s)) = queue s) -> still P (call f).
Proof. intros Hs Hg Hf. apply etriple_call; [exact Hs|]. intros s Hp. destruct (Hf s). split; [by left|]. by apply (Hg s). Qed.
Lemma still_transaction P {A} (t : Tx A) : stable ids P -> on_goals P -> aside t -> still P (transaction t).
Proof.
  intros Hs Hg Ht. unfold transaction. eapply etriple_bind with (Q := fun _ => P); [|intros [a|e]; [by apply etriple_ret|by apply etriple_throw]].
  apply still_call; [done..|]. intros s. specialize (Ht s). unfold commits. destruct (database (outside s)); cbn; try done; by destruct (t s) as [[] ?].
Qed.
Lemma still_existing P row key op hash : stable ids P -> on_goals P -> still P (existingMutation row key op hash).
Proof.
  intros Hs Hg. unfold existingMutation, checkpoint_where.
  repeat first [by apply etriple_ret | by apply etriple_throw | by apply still_transaction
    | eapply etriple_bind with (Q := fun _ => P); [|intros ?] | match goal with |- etriple _ _ _ (match ?x with _ => _ end) _ _ => destruct x end ].
Qed.
Lemma under_unless P {A} (m : M A) h : still P m -> (forall a, under P (h a) whatever) -> under P (unless_conflict m h) whatever.
Proof.
  intros Hm Hh. unfold unless_conflict. eapply etriple_bind with (Q := fun _ => P).
  - eapply etriple_catch with (E := fun _ => P); [eapply etriple_bind; [exact Hm|intros a; by apply etriple_ret]|].
    intros e. destruct (is_conflict e); [by apply etriple_ret|by apply etriple_throw].
  - intros [r|a]; [by apply etriple_ret|apply Hh].
Qed.

(** Programs of the handlers that add no job *)
Lemma queues_existing row key op hash : ok (existingMutation row key op hash).
Proof. unfold existingMutation, checkpoint_where. queued_program. Qed.
Hint Resolve queues_existing : goal_queue.
Lemma queues_control row key op hash : ok (recordControlMutation row key op hash).
Proof. unfold recordControlMutation. queued_program. Qed.
Lemma queues_add row key message kind hash : ok (addGoalInput row key message kind hash).
Proof. unfold addGoalInput. queued_program. Qed.
Lemma queues_update_read row where_ set : ok (update_read row where_ set).
Proof. unfold update_read. queued_program. Qed.
Lemma queues_reply o : ok (reply o).
Proof. unfold reply. queued_program. Qed.
Hint Resolve queues_control queues_add queues_update_read queues_reply : goal_queue.
Lemma queues_respond row : ok (respondWithGoalTransition row).
Proof. unfold respondWithGoalTransition, current, any_goal, goal_where. queued_program. Qed.
Lemma queues_reply_owned row : ok (reply_owned row).
Proof. unfold reply_owned, goal_where. queued_program. Qed.
Lemma queues_stop_when b task : ok (stop_when b task).
Proof. unfold stop_when, stop. queued_program. Qed.
Hint Resolve queues_respond queues_reply_owned queues_stop_when : goal_queue.
Lemma queues_unless {A} (m : M A) h : ok m -> (forall a, ok (h a)) -> ok (unless_conflict m h).
Proof. intros. unfold unless_conflict. queued_program. Qed.

(** A confirmed pause that is continued *)
Lemma under_begin row : ids (goal_id row) -> under (known row) (beginPausedContinuation row) whatever.
Proof.
  intros Hid. pose proof (known_keeps row Hid) as Hs. unfold beginPausedContinuation.
  eapply under_then; [by apply under_uuid; [|apply known_on_goals]|]. intros c.
  eapply under_then; [by apply under_asks; [|apply known_on_goals]|]. intros t.
  destruct (job_of_fields row (run_generation row + 1) c false) as (J1 & J2 & J3 & J4). unfold update_read.
  eapply under_rotation; [exact Hs|exact J1|..].
  - intros t' g Eid Hw s Hk Hg. split_and!; [rewrite J2; symmetry; by apply Hk|exact J3|rewrite J4; reflexivity|reflexivity].
  - by apply etriple_ret.
  - eapply under_then; [apply under_abort; [intros f s; apply fits_stable; by rewrite J1|apply fits_on_goals]|]. intros ?. apply yes_enqueue. by rewrite J1.
Qed.
Lemma under_continue row (b : GoalRow -> bool) o : ids (goal_id row) ->
  under (read_of (goal_id row) o) (match o with Some l => if b l then _ ← beginPausedContinuation l; mret tt else mret tt | None => mret tt end) whatever.
Proof.
  intros Hid. destruct o as [l|]; [|by apply etriple_ret]. destruct (b l); [|by apply etriple_ret]. intros w Hw Hr. destruct (Hr l eq_refl) as [E Hk].
  assert (H : under (known l) (_ ← beginPausedContinuation l; mret tt) whatever); [|by apply (H w)].
  eapply under_then; [apply under_begin; by rewrite E|intros ?; by apply etriple_ret].
Qed.
Lemma queues_continue row : ids (goal_id row) -> ok (latest ← current row; continue_confirmed latest).
Proof. intros Hid. eapply under_then; [by apply under_read|]. intros o. by apply (under_continue row (fun l => bool_decide (is_Some (pause_confirmed_at l)))). Qed.
Lemma queues_continue_then row {A} (m : M A) : ids (goal_id row) -> ok m -> ok (latest ← current row; _ ← continue_confirmed latest; m).
Proof.
  intros Hid Hm. eapply under_then; [by apply under_read|]. intros o.
  eapply under_then; [by apply (under_continue row (fun l => bool_decide (is_Some (pause_confirmed_at l))))|intros ?; exact Hm].
Qed.
Lemma queues_boundary_then row {A} (m : M A) : ids (goal_id row) -> ok m -> ok (latest ← current row; _ ← continue_requested_boundary latest; m).
Proof.
  intros Hid Hm. eapply under_then; [by apply under_read|]. intros o.
  eapply under_then; [by apply (under_continue row (fun l => is_desired paused l && bool_decide (is_Some (pause_confirmed_at l)) && resume_requested l))|intros ?; exact Hm].
Qed.
Lemma queues_current row : ok (current row).
Proof. apply queues_read. Qed.
Hint Resolve queues_current : goal_queue.

Ltac handled row := apply under_find; intros row ?; apply under_forget; apply under_key; intros key.
Ltac handler_program := queued_with ltac:(first [apply queues_continue; [done] | apply queues_continue_then; [done|] | apply queues_boundary_then; [done|]]).
Variable req : Req.
Hypothesis known_req : ids (params_goal req).
Lemma known_row row : goal_id row = params_goal req -> ids (goal_id row).
Proof. by intros ->. Qed.

Lemma queues_pause : ok (pause sha256 stringify req).
Proof. unfold pause. handled row. apply queues_unless; [auto with goal_queue|]. intros o. queued_program. Qed.
Lemma queues_cancel : ok (cancel sha256 stringify req).
Proof. unfold cancel. handled row. apply queues_unless; [auto with goal_queue|]. intros o. unfold stop. queued_program. Qed.
Lemma queues_remove : ok (remove req).
Proof. unfold remove. apply under_find. intros row _. apply under_forget. unfold stop. queued_program. Qed.
Lemma queues_resume : ok (resume sha256 stringify req).
Proof.
  unfold resume. apply under_find; intros row Hid%known_row; apply under_forget; apply under_key; intros key.
  apply queues_unless; [auto with goal_queue|]. intros o. handler_program.
Qed.
Lemma queues_model model : ok (requestModel sha256 stringify req model).
Proof.
  unfold requestModel. apply under_find; intros row Hid%known_row; apply under_forget; apply under_key; intros key.
  apply queues_unless; [auto with goal_queue|]. intros o. handler_program.
Qed.
Lemma queues_continue_if row (b : bool) : ids (goal_id row) -> ok (boundary ← current row; if b then continue_confirmed boundary else mret tt).
Proof. intros Hid. destruct b; [by apply queues_continue|queued_program]. Qed.
Lemma queues_route row d : ids (goal_id row) -> ok (route_input row d).
Proof.
  intros Hid. unfold route_input, input_while_paused, input_interrupts, announce_input. destruct (is_desired paused row); [handler_program|].
  destruct (hasNativeGoalControl _); [queued_program|]. destruct (negb _); [|handler_program].
  unfold input_before_session, announce_input. apply queues_bind; [queued_program|]. intros _. apply queues_bind; [auto with goal_queue|].
  intros [g|]; [|apply queues_ret]. destruct (_ && _); [|apply queues_ret]. do 2 (apply queues_bind; [auto with goal_queue|]; intros ?).
  by apply queues_continue_if.
Qed.
Lemma queues_addInput canned body : ok (addInput sha256 stringify req canned body).
Proof.
  unfold addInput. apply under_find; intros row Hid%known_row; apply under_forget; apply under_key; intros key.
  destruct (is_terminal row); [apply queues_ret|]. destruct (input_message canned body); [|apply queues_ret]. destruct (_ || _); [apply queues_ret|].
  apply queues_unless; [queued_program|]. intros d. pose proof (fun d => queues_route row d Hid). queued_program.
Qed.

(** *** Continue *)

Lemma queues_replay row key op hash m : ok m -> ok (replay_of row key op hash m).
Proof. intros. unfold replay_of. apply queues_unless; [auto with goal_queue|]. intros o. queued_program. Qed.
Lemma under_replay P row key op hash m : stable ids P -> on_goals P -> under P m whatever -> under P (replay_of row key op hash m) whatever.
Proof.
  intros Hs Hg Hm. unfold replay_of. apply under_unless; [by apply still_existing|]. intros [o|]; [|exact Hm]. apply under_forget. auto with goal_queue.
Qed.
Lemma reopened_fits row r c ms model i s job : job = job_of row (run_generation row + 1) c false -> known row s ->
  fst (reopen_goal row r (run_generation row + 1) c ms model i s) = Ok true -> fits job (snd (reopen_goal row r (run_generation row + 1) c ms model i s)).
Proof.
  intros -> Hk. destruct (job_of_fields row (run_generation row + 1) c false) as (J1 & J2 & J3 & J4). set (job := job_of _ _ _ _) in *. unfold reopen_goal, update_goal, mbind, Tx_bind.
  destruct (goals s !! goal_id row) as [g|] eqn:Eg; [|done]. destruct (bool_decide (goal_id g = goal_id row) && _) eqn:Ew; [|done]. cbn [negb].
  apply andb_prop in Ew as [Eid _]. apply bool_decide_eq_true in Eid. set (s1 := { s with goals := _ }).
  assert (Hf : fits job s1).
  { intros g' Hg' _. unfold s1 in Hg'. rewrite goals_set, J1, lookup_insert_eq in Hg'. injection Hg' as <-.
    split; [rewrite J2; symmetry; exact (Hk g Eg Eid)|]. right. split; [exact J3|rewrite J4; reflexivity]. }
  unfold insert_input. destruct (goals s1 !! in_goal i); [|done]. destruct (existsb _ _); [done|]. intros _. exact Hf.
Qed.
Lemma unqueued_reopen row r n c ms model i : unqueued (reopen_goal row r n c ms model i).
Proof. unfold reopen_goal. unqueued_tx. Qed.
Lemma queues_reopen body model : ok (reopen sha256 stringify req body model).
Proof.
  unfold reopen. apply under_find. intros row Hid%known_row. apply under_key. intros key. pose proof (known_keeps row Hid) as Hs. pose proof (known_on_goals row) as Hg.
  destruct (too_long _); [by apply etriple_ret|]. apply under_replay; [done..|]. eapply under_then; [by apply under_asks|]. intros b.
  destruct (negb b); [by apply etriple_ret|]. destruct (result_state row) as [r|]; [|by apply etriple_ret]. destruct (bool_decide _); [by apply etriple_ret|].
  destruct (too_long _); [by apply etriple_ret|]. eapply under_then; [by apply under_uuid|]. intros c. eapply under_then; [by apply under_uuid|]. intros i.
  eapply under_then; [by apply under_asks|]. intros t. set (job := job_of row (run_generation row + 1) c false).
  assert (J1 : goalId job = goal_id row) by apply job_of_fields. assert (Hsj : stable ids (fits job)) by (intros f s; apply fits_stable; by rewrite J1).
  eapply under_then with (Q := fun o s => o = Ok true -> fits job s).
  - unfold attempt_. eapply etriple_catch with (E := fun _ _ => True); [|intros e; by apply etriple_ret].
    eapply etriple_bind with (Q := fun b s => b = true -> fits job s); [|intros b'; apply etriple_ret; intros s H [= ->]; by apply H].
    apply under_transaction with (P := known row); [done|apply unqueued_reopen|]. intros s b' Hk E ->. by eapply reopened_fits.
  - intros [[|]|e].
    + eapply etriple_weaken with (P' := fits job) (Q' := whatever) (E' := fun _ _ => True); [intros s H; by apply H|done|done|].
      eapply under_then; [by apply under_abort; [|apply fits_on_goals]|]. intros ?.
      eapply under_then with (Q := whatever); [|intros ?; apply queues_respond].
      eapply etriple_catch with (E := fun _ _ => True); [apply under_enqueue; by rewrite J1|intros e; by apply etriple_ret].
    + apply under_forget, queues_replay. queued_program.
    + apply under_forget, queues_replay. queued_program.
Qed.

(** *** Create *)

Hypothesis known_uuids : forall n, ids (uuid n).
Lemma yields_uuid : yields ids randomUUID ids.
Proof. apply etriple_call; [done|]. intros s _. split; [by left|apply known_uuids]. Qed.
Lemma created_fits g i s job : goalId job = goal_id g -> taskId job = current_task_id g -> generation job = run_generation g -> run_claim g = Some (claimId job) ->
  fst ((_ ← insert_goal g; insert_input i) s) = Ok tt -> fits job (snd ((_ ← insert_goal g; insert_input i) s)).
Proof.
  intros E1 E2 E3 E4. unfold mbind, Tx_bind, insert_goal. destruct (_ || _); [done|]. set (s1 := { s with goals := _ }).
  assert (Hf : fits job s1).
  { intros g' Hg' _. unfold s1 in Hg'. rewrite goals_set, E1, lookup_insert_eq in Hg'. injection Hg' as <-. split; [done|]. right. by split. }
  unfold insert_input. destruct (goals s1 !! in_goal i); [|done]. destruct (existsb _ _); [done|]. intros _. exact Hf.
Qed.
Lemma queues_create c : ok (createGoal sha256 stringify req c).
Proof.
  unfold createGoal. destruct (truthy_string (user req)) as [owner|]; [|apply queues_ret]. apply under_key. intros key.
  apply queues_bind; [unfold findExistingGoalCreation, checkpoint_where; queued_program|]. intros [r|]; [apply queues_ret|].
  eapply queues_with; [apply yields_uuid|]. intros id Hid. apply queues_bind; [apply queues_uuid|]. intros claim. apply queues_bind; [apply queues_uuid|]. intros input.
  set (row := new_goal id owner key claim c). set (job := job_of row 0 claim false). destruct (job_of_fields row 0 claim false) as (J1 & J2 & J3 & J4).
  assert (Hsj : stable ids (fits job)) by (intros f s; by apply fits_stable). eapply under_then with (Q := fun o s => o = Ok tt -> fits job s).
  - unfold attempt_. eapply etriple_catch with (E := fun _ _ => True); [|intros e; by apply etriple_ret].
    eapply etriple_bind with (Q := fun _ s => fits job s); [|intros []; by apply etriple_ret].
    apply under_transaction with (P := any); [done|unqueued_tx|]. intros s [] _. by apply created_fits; [..|f_equal].
  - intros [[]|e]; [|apply under_forget; queued_program].
    eapply etriple_weaken with (P' := fits job) (Q' := whatever) (E' := fun _ _ => True); [intros s H; by apply H|done|done|].
    eapply under_then with (Q := fun _ => fits job); [apply under_aside; [done|apply fits_on_goals|done]|]. intros saved.
    eapply under_then with (Q := whatever); [|intros [?|?]; apply under_forget; destruct saved; queued_program].
    unfold attempt_. eapply etriple_catch with (E := fun _ _ => True); [|intros e; by apply etriple_ret].
    eapply etriple_bind; [by apply under_enqueue|intros ?; by apply etriple_ret].
Qed.
End Handlers.
