(* ===== verification/GoalJobs.v ===== *)
(** * Goals: every job in the queue is a job of its goal

    What adds jobs (GoalQueue.v) and what moves goals (GoalSteps.v, GoalOperatorSteps.v)
    keep the queue and the goals in agreement, which is what recovery relies on
    (GoalRecovered.v). *)

From S2P Require Import Prelude JsString Interleave Json GoalDeclaration Goals GoalAttempt GoalCheckpoint GoalContinuation GoalWorker GoalRecovery GoalControls GoalRules GoalSteps GoalOperatorSteps GoalProps GoalQueue GoalRecovered.

Open Scope string_scope.
Open Scope Z_scope.

(** ** Names of jobs *)

Definition dash : ascii := "-".
Definition named (id : string) : Prop := forall a, id <> a ++ "-".

Lemma assoc_string a b c : (a ++ b) ++ c = a ++ (b ++ c).
Proof. induction a; cbn; congruence. Qed.
Lemma digit_dash x : pretty_N_char x <> dash.
Proof. unfold pretty_N_char. by repeat case_match. Qed.
Lemma digits_dash x s : dash ∉ chars s -> dash ∉ chars (pretty_N_go x s).
Proof.
  revert s. induction (N.lt_wf_0 x) as [x _ IH]. intros s Hs. destruct (decide (x = 0)%N) as [->|]; [by rewrite pretty_N_go_0|].
  rewrite pretty_N_go_step by lia. apply IH; [apply N.div_lt; lia|]. cbn [chars]. intros [E|]%elem_of_cons; [|done]. by eapply digit_dash.
Qed.
Lemma dash_in_number (x : N) : dash ∉ chars (pretty x).
Proof. unfold pretty, pretty_N. case_match; [|by apply digits_dash, not_elem_of_nil]. cbn. intros [?|[]%elem_of_nil]%elem_of_cons. done. Qed.
Lemma last_dash (a b x y : list ascii) : dash ∉ x -> dash ∉ y -> (a ++ dash :: x = b ++ dash :: y)%list -> a = b.
Proof.
  intros Hx Hy. revert b. induction a as [|c a IH]; intros [|d b] E; [done|..]; simplify_list_eq; [destruct Hx; set_solver|destruct Hy; set_solver|].
  f_equal. by apply IH.
Qed.
Lemma split_name a b (m n : N) : a ++ "-" ++ pretty m = b ++ "-" ++ pretty n -> a = b.
Proof.
  intros E. apply (f_equal chars) in E. rewrite !chars_app in E. apply last_dash in E; [|apply dash_in_number..]. by rewrite <- (of_chars_chars a), E, of_chars_chars.
Qed.
Lemma show_cases n : (0 <= n /\ show n = pretty (Z.to_N n)) \/ (n < 0 /\ exists m : N, show n = "-" ++ pretty m).
Proof. destruct n as [|p|p]; [left; split; [lia|done]..|right; split; [lia|]]. by exists (Npos p). Qed.
Lemma goalJobId_inj a b m n : named b -> 0 <= n -> goalJobId a m = goalJobId b n -> a = b /\ m = n.
Proof.
  intros Hb Hn E. assert (a = b) as ->; [|split; [done|]].
  - unfold goalJobId in E. apply (inj (String.append "goal-")) in E. destruct (show_cases n) as [[_ E2]|]; [|lia].
    rewrite E2 in E. destruct (show_cases m) as [[_ E1]|[_ [k E1]]]; rewrite E1 in E; [by eapply split_name|].
    destruct (Hb a). symmetry. eapply split_name with (m := k) (n := Z.to_N n). rewrite <- E. apply assoc_string.
  - unfold goalJobId in E. apply (inj (String.append "goal-")), (inj (String.append b)), (inj (String.append "-")) in E. by apply (inj pretty).
Qed.

(** ** Agreement *)

Definition follows (s s' : gdb) : Prop := forall id g g', named id -> goals s !! id = Some g -> goals s' !! id = Some g' -> agrees id g s -> agrees id g' s'.

Lemma agrees_later id g g' s s' : kept g g' -> fixed_run g g' -> queue s' = queue s -> agrees id g s -> agrees id g' s'.
Proof.
  intros (K1 & _ & _ & K2 & _) [F1 F2] Eq (A1 & A2 & A3). split_and!; [congruence|lia|]. intros n job st Hn Hj. rewrite Eq in Hj.
  destruct (A3 n job st) as [E (B1 & B2 & B3 & B4)]; [lia|done|]. destruct F2 as [F2 _]; [lia|]. split; [lia|].
  unfold belongs. split_and!; [congruence|congruence|lia|auto].
Qed.
Lemma agrees_added id g job s : named id -> goals s !! id = Some g -> fits job s -> agrees id g s -> agrees id g (add_job job s).
Proof.
  intros Hid Hg Hf Ha. unfold add_job. destruct (queue s !! _) eqn:Eq; [done|]. destruct Ha as (A1 & A2 & A3). split_and!; [done..|].
  intros n job' st Hn Hj. cbn in Hj. apply lookup_insert_Some in Hj as [[E [= <- <-]]|[_ Hj]]; [|by eapply A3].
  apply goalJobId_inj in E as [E1 E2]; [|done|lia]. destruct (Hf g) as [T H]; [congruence..|]. destruct H as [H|[H1 H2]]; [lia|].
  split; [lia|]. unfold belongs. split_and!; congruence.
Qed.
Lemma step_follows racy s s' : queue_step s s' -> each_goal (lives racy) s s' -> follows s s'.
Proof.
  intros [Eq|(job & -> & Hf)] Hl id g g' Hid Hg Hg' Ha.
  - destruct (Hl id g g' Hg Hg') as (_ & Hk & Hr & _). by eapply agrees_later.
  - assert (goals (add_job job s) = goals s) as E by (unfold add_job; by destruct (queue s !! _)). rewrite E in Hg'.
    assert (g' = g) as -> by congruence. by apply agrees_added.
Qed.

Lemma both {A} good I P (m : M A) Q E (R T : gdb -> gdb -> Prop) : (forall s s', I s s' -> R s s' -> T s s') ->
  etriple good I P m Q E -> steps R m -> etriple good T P m Q E.
Proof.
  intros HT Hm Hs w Hg Hw. destruct (Hm w Hg Hw) as (l & Hl & HI & ?). destruct (Hs w) as (l' & Hl' & HR). exists l. split; [done|].
  split; [|done]. assert (l' = l) as -> by (eapply app_inv_head; by rewrite <- Hl', <- Hl). apply Forall_forall. intros x Hx.
  rewrite Forall_forall in HI, HR. auto.
Qed.
Definition keeps_agreement (ids : string -> Prop) (P : gdb -> Prop) {A} (m : M A) : Prop := triple (good ids) follows P m (fun _ _ => True).
Lemma agreement racy ids P {A} (m : M A) : etriple (good ids) queue_step P m (fun _ _ => True) (fun _ _ => True) ->
  steps (each_goal (lives racy)) m -> keeps_agreement ids P m.
Proof. intros H1 H2. eapply both; [|exact H1|exact H2]. intros s s'. apply step_follows. Qed.

Section Jobs.
Variable bound_text : string -> string.
Variable request_hash : string -> GoalCheckpointRequest -> option string -> string.
Variable json_parse : string -> option json.
Variable agentFailureLine : string -> option string.
Variable executeTask : ExecutionRequest -> Provider.
Variable stringify : list (string * string) -> string.
Variable sha256 : string -> string.

(** C13. The queue follows the goals: every step of a worker's job, of recovery of a goal
    that was read, of the operator's handlers and of Create keeps the jobs of every goal in
    agreement with it, whatever other processes do to the goals in between: no job is
    ahead of its goal's generation, and a job of that generation carries the claim, the
    task and the goal that its worker will check. *)
Theorem queue_follows_goals job goal staleMs req canned message model c :
  keeps_agreement (eq (goalId job)) (fun _ => True) (processGoalJob bound_text request_hash json_parse agentFailureLine executeTask job)
  /\ keeps_agreement (eq (goal_id goal)) (as_read goal) (recoverGoal staleMs goal)
  /\ keeps_agreement (eq (params_goal req)) (fun _ => True) (pause sha256 stringify req)
  /\ keeps_agreement (eq (params_goal req)) (fun _ => True) (resume sha256 stringify req)
  /\ keeps_agreement (eq (params_goal req)) (fun _ => True) (cancel sha256 stringify req)
  /\ keeps_agreement (eq (params_goal req)) (fun _ => True) (remove req)
  /\ keeps_agreement (eq (params_goal req)) (fun _ => True) (addInput sha256 stringify req canned message)
  /\ keeps_agreement (eq (params_goal req)) (fun _ => True) (requestModel sha256 stringify req model)
  /\ keeps_agreement (eq (params_goal req)) (fun _ => True) (reopen sha256 stringify req message model)
  /\ keeps_agreement (fun id => exists n, id = uuid n) (fun _ => True) (createGoal sha256 stringify req c).
Proof.
  repeat match goal with |- _ /\ _ => split end.
  - apply (agreement true); [by apply queues_job|eapply lives_of, ok_job].
  - apply (agreement false); [by apply under_recover|eapply lives_of, ok_recover].
  - apply (agreement false); [by apply queues_pause|eapply lives_of, ok_pause].
  - apply (agreement false); [by apply queues_resume|eapply lives_of, ok_resume].
  - apply (agreement false); [by apply queues_cancel|eapply lives_of, ok_cancel].
  - apply (agreement false); [by apply queues_remove|eapply steps_weaken, ok_remove; apply removed_lives].
  - apply (agreement false); [by apply queues_addInput|eapply lives_of, ok_input].
  - apply (agreement true); [by apply queues_model|by eapply lives_of, ok_model].
  - apply (agreement false); [by apply queues_reopen|eapply lives_of, ok_reopen].
  - apply (agreement false); [apply queues_create; by eexists|eapply lives_of, ok_create].
Qed.
End Jobs.
