(* ===== verification/GoalAttention.v ===== *)
(** * Goals: what needs the operator

    packages/shared/src/goalBlockers.ts: the projection of a goal's row and of the
    blockers its provider raised into what the operator is asked for, and packages/core's
    goalActivityState. The questions' text and its bounds are not modelled, nor are the
    hints shown with an action. Instants order blockers as [Date.parse] does. *)

From S2P Require Import Prelude JsString Goals.

Open Scope string_scope.
Open Scope Z_scope.
Open Scope list_scope.

(** ** The activity a client sees *)

Definition goalActivityState (goal : GoalRow) : string :=
  match result_state goal with
  | Some r_completed => "completed"
  | Some r_failed => "failed"
  | Some r_cancelled => "cancelled"
  | None =>
      match desired_state goal with
      | cancelled => "cancelled"
      | paused => "paused"
      | running => match claimed_at goal, started_at goal with None, None => "queued" | _, _ => "running" end
      end
  end.

(** ** Blockers *)

Definition GOAL_BLOCKER_ACTIONS : list string := ["send_input"; "resume"; "pause"; "cancel"].
(** Known actions, each once, in their order *)
Definition normalizeActions (value : list string) : list string :=
  foldl (fun acc a => if bool_decide (a ∈ acc) then acc else acc ++ [a]) [] (filter (fun a => a ∈ GOAL_BLOCKER_ACTIONS) value).

Record GoalBlocker := Projected {
  pb_id : string;
  pb_category : string;
  pb_claim : option string;
  firstObservedAt : option Z;
  actionable : bool;
  actions : list string;
}.

Definition isGoalPausedAwaitingOperator (goal : GoalRow) : bool :=
  bool_decide (result_state goal = None) && bool_decide (desired_state goal = paused)
  && bool_decide (is_Some (pause_confirmed_at goal)) && negb (resume_requested goal).
Definition pausedBlocker (goal : GoalRow) : GoalBlocker :=
  Projected ("goal-pause:" ++ goal_id goal ++ ":" ++ match pause_confirmed_at goal with Some t => show t | None => "confirmed" end)%string
    "paused" (run_claim goal) (pause_confirmed_at goal) true ["resume"; "send_input"; "cancel"].

Definition replaced_session (goal : GoalRow) (row : GoalBlockerRow) : bool :=
  match truthy_string (b_session row), truthy_string (session_id goal) with
  | Some b, Some g => negb (bool_decide (b = g))
  | _, _ => false
  end.
Definition isCurrentGoalBlocker (goal : GoalRow) (row : GoalBlockerRow) : bool :=
  if negb (bool_decide (status row = b_open)) || negb (bool_decide (b_goal row = goal_id goal)) then false
  else if bool_decide (is_Some (result_state goal)) || negb (bool_decide (desired_state goal = running)) then false
  else if negb (bool_decide (b_generation row = run_generation goal)) then false
  else if negb (bool_decide (run_claim goal = Some (b_claim row))) then false
  else if replaced_session goal row then false
  else bool_decide (category row = "question") || bool_decide (category row = "approval").

Definition providerBlocker (row : GoalBlockerRow) : GoalBlocker :=
  let acts := normalizeActions (response_actions row) in
  Projected (blocker_id row) (category row) (Some (b_claim row)) (Some (first_observed_at row)) (negb (bool_decide (acts = []))) acts.

(** The rows of the live attempt, each once *)
Fixpoint current_blockers (goal : GoalRow) (seen : list string) (rows : list GoalBlockerRow) : list GoalBlocker :=
  match rows with
  | [] => []
  | row :: rows =>
      if bool_decide (blocker_id row ∈ seen) || negb (isCurrentGoalBlocker goal row) then current_blockers goal seen rows
      else providerBlocker row :: current_blockers goal (blocker_id row :: seen) rows
  end.
Definition is_answerable (b : GoalBlocker) : bool := bool_decide (pb_category b = "question") && bool_decide ("send_input" ∈ actions b).
(** A goal input names no question, so it can answer one only while no other is waiting. *)
Definition withhold_input (b : GoalBlocker) : GoalBlocker :=
  if is_answerable b then
    let acts := filter (fun a => a <> "send_input") (actions b) in
    Projected (pb_id b) (pb_category b) (pb_claim b) (firstObservedAt b) (negb (bool_decide (acts = []))) acts
  else b.
Definition one_answerable (blockers : list GoalBlocker) : list GoalBlocker :=
  if (1 <? length (filter (fun b => is_answerable b = true) blockers))%nat then withhold_input <$> blockers else blockers.

Definition observed (b : GoalBlocker) : Z := default 0 (firstObservedAt b).
Definition blocker_le (a b : GoalBlocker) : bool :=
  (observed a <? observed b) || ((observed a =? observed b) && code_le (pb_id a) (pb_id b)).
Record GoalAttention := Attention { waitingForOperator : bool; reason : option string; blockers : list GoalBlocker }.
Definition ATTENTION_REASON (category : string) : string :=
  if bool_decide (category = "paused") then "paused_awaiting_resume_or_input"
  else if bool_decide (category = "question") then "provider_question" else "provider_approval".
Definition projectGoalAttention (goal : GoalRow) (rows : list GoalBlockerRow) : GoalAttention :=
  let found := (if isGoalPausedAwaitingOperator goal then [pausedBlocker goal] else []) ++ current_blockers goal [] rows in
  let sorted := sort_by blocker_le (one_answerable found) in
  Attention (negb (bool_decide (sorted = []))) (ATTENTION_REASON <$> (pb_category <$> head sorted)) sorted.

(** ** What is shown *)

Lemma current_blockers_spec goal rows seen b : b ∈ current_blockers goal seen rows ->
  exists row, row ∈ rows /\ isCurrentGoalBlocker goal row = true /\ b = providerBlocker row.
Proof.
  revert seen. induction rows as [|row rows IH]; intros seen; cbn [current_blockers]; [by intros []%elem_of_nil|].
  destruct (_ || _) eqn:E.
  - intros (r & Hr & H)%IH. exists r. split; [by right|done].
  - apply orb_false_iff in E as [_ E]. apply negb_false_iff in E. intros [->|(r & Hr & H)%IH]%elem_of_cons.
    + exists row. split; [by left|done].
    + exists r. split; [by right|done].
Qed.
Lemma current_blockers_all goal rows seen row : row ∈ rows -> isCurrentGoalBlocker goal row = true -> blocker_id row ∉ seen ->
  exists b, b ∈ current_blockers goal seen rows /\ pb_id b = blocker_id row.
Proof.
  revert seen. induction rows as [|r rows IH]; intros seen Hr Hc Hs; [by apply elem_of_nil in Hr|]. cbn [current_blockers].
  destruct (decide (blocker_id r = blocker_id row)) as [E|E].
  - destruct (isCurrentGoalBlocker goal r) eqn:Er.
    + rewrite bool_decide_eq_false_2 by by rewrite E. cbn. exists (providerBlocker r). split; [by left|exact E].
    + rewrite orb_true_r. apply IH; [|done..]. apply elem_of_cons in Hr as [<-|]; [congruence|done].
  - apply elem_of_cons in Hr as [<-|Hr]; [done|]. destruct (_ || _); [by apply IH|]. destruct (IH (blocker_id r :: seen) Hr Hc) as (b & Hb & Hid).
    { by intros [E'|H]%elem_of_cons. }
    exists b. split; [by right|done].
Qed.

(** The goal is paused, the pause is confirmed, and nobody asked to resume it. *)
Definition awaits_resume (goal : GoalRow) : Prop :=
  result_state goal = None /\ desired_state goal = paused /\ is_Some (pause_confirmed_at goal) /\ resume_requested goal = false.
(** An open question or approval of the attempt, and of the session, that runs now *)
Definition raised_now (goal : GoalRow) (row : GoalBlockerRow) : Prop :=
  status row = b_open /\ b_goal row = goal_id goal /\ result_state goal = None /\ desired_state goal = running
  /\ b_generation row = run_generation goal /\ run_claim goal = Some (b_claim row)
  /\ (forall a b, b_session row = Some a -> session_id goal = Some b -> a <> "" -> b <> "" -> a = b)
  /\ (category row = "question" \/ category row = "approval").
Lemma awaits_operator goal : isGoalPausedAwaitingOperator goal = true <-> awaits_resume goal.
Proof. unfold isGoalPausedAwaitingOperator, awaits_resume. rewrite !andb_true_iff, !bool_decide_eq_true, negb_true_iff. tauto. Qed.
Lemma same_session goal row : replaced_session goal row = false <->
  (forall a b, b_session row = Some a -> session_id goal = Some b -> a <> "" -> b <> "" -> a = b).
Proof.
  unfold replaced_session. destruct (b_session row) as [x|]; [|done]. destruct (session_id goal) as [y|]; [|by destruct (truthy_string _)].
  destruct x as [|cx x]; [split; [naive_solver|done]|]. destruct y as [|cy y]; [split; [naive_solver|done]|]. cbn [truthy_string].
  rewrite negb_false_iff, bool_decide_eq_true. split; [by intros -> u v [= <-] [= <-]|intros H; by apply H].
Qed.
Lemma is_current goal row : isCurrentGoalBlocker goal row = true <-> raised_now goal row.
Proof.
  unfold raised_now. rewrite <- same_session. unfold isCurrentGoalBlocker.
  assert (Hres : result_state goal = None <-> ~ is_Some (result_state goal)) by apply eq_None_not_Some. rewrite Hres.
  repeat case_bool_decide; cbn [negb orb]; destruct (replaced_session goal row); naive_solver.
Qed.

(** ** One question can be answered at a time *)

Lemma withheld b : is_answerable (withhold_input b) = false.
Proof.
  unfold withhold_input. destruct (is_answerable b) eqn:E; [|done]. unfold is_answerable; cbn.
  rewrite (bool_decide_false ("send_input" ∈ _)); [apply andb_false_r|]. rewrite list_elem_of_filter. by intros [? _].
Qed.
Lemma one_answerable_spec l : (length (filter (fun b => is_answerable b = true) (one_answerable l)) <= 1)%nat.
Proof.
  unfold one_answerable. destruct (_ <? _)%nat eqn:E; [|by apply Nat.ltb_ge in E].
  assert (H : filter (fun b => is_answerable b = true) (withhold_input <$> l) = []); [|by rewrite H; simpl; lia]. clear E.
  induction l as [|b l IH]; [done|]. rewrite fmap_cons, filter_cons. rewrite decide_False by by rewrite withheld. exact IH.
Qed.
Lemma withhold_keeps b : pb_id (withhold_input b) = pb_id b /\ pb_category (withhold_input b) = pb_category b /\ pb_claim (withhold_input b) = pb_claim b.
Proof. unfold withhold_input. by destruct (is_answerable b). Qed.
Lemma one_answerable_from l b : b ∈ one_answerable l -> exists b0, b0 ∈ l /\ pb_id b = pb_id b0 /\ pb_category b = pb_category b0 /\ pb_claim b = pb_claim b0.
Proof.
  unfold one_answerable. destruct (_ <? _)%nat; [|by exists b]. intros (b0 & -> & H)%list_elem_of_fmap. exists b0. split; [done|]. apply withhold_keeps.
Qed.
Lemma one_answerable_all l b0 : b0 ∈ l -> exists b, b ∈ one_answerable l /\ pb_id b = pb_id b0.
Proof.
  intros H. unfold one_answerable. destruct (_ <? _)%nat; [|by exists b0]. exists (withhold_input b0). split; [by apply list_elem_of_fmap_2|apply withhold_keeps].
Qed.
Lemma one_answerable_length l : length (one_answerable l) = length l.
Proof. unfold one_answerable. destruct (_ <? _)%nat; [apply length_fmap|done]. Qed.
Lemma sort_by_nil {A} (le : A -> A -> bool) l : sort_by le l = [] <-> l = [].
Proof.
  split; [|by intros ->]. intros H. apply Permutation_nil. rewrite <- H. apply sort_by_perm.
Qed.
Lemma current_nil goal rows : current_blockers goal [] rows = [] <-> Forall (fun r => isCurrentGoalBlocker goal r = false) rows.
Proof.
  assert (H : forall seen, (forall r, r ∈ rows -> blocker_id r ∈ seen -> isCurrentGoalBlocker goal r = false) ->
    current_blockers goal seen rows = [] <-> Forall (fun r => isCurrentGoalBlocker goal r = false) rows).
  { induction rows as [|row rows IH]; intros seen Hs; cbn [current_blockers]; [by split; intros; constructor|].
    destruct (bool_decide (blocker_id row ∈ seen)) eqn:Ei; cbn [orb].
    - apply bool_decide_eq_true in Ei. rewrite Forall_cons, IH by (intros r Hr; apply Hs; by right). split; [|by intros []].
      intros H. split; [apply Hs; [by left|done]|done].
    - destruct (isCurrentGoalBlocker goal row) eqn:Ec; cbn [negb]; [by split; [|rewrite Forall_cons; intros []; congruence]|].
      rewrite Forall_cons, IH by (intros r Hr; apply Hs; by right). tauto. }
  apply H. intros r _ Hr. by apply elem_of_nil in Hr.
Qed.

(** C27. A goal asks for its operator exactly when it is paused, with the pause confirmed
    and no resume asked for, or an open question or approval of the attempt and the session
    now running waits; all of these are shown, nothing raised by an older attempt or
    session is, and at most one question offers to be answered. *)
Theorem attention_is_current goal rows :
  (waitingForOperator (projectGoalAttention goal rows) = true <-> awaits_resume goal \/ exists row, row ∈ rows /\ raised_now goal row)
  /\ (forall b, b ∈ blockers (projectGoalAttention goal rows) ->
        (awaits_resume goal /\ pb_category b = "paused")
        \/ exists row, row ∈ rows /\ raised_now goal row /\ pb_id b = blocker_id row /\ pb_category b = category row)
  /\ (forall row, row ∈ rows -> raised_now goal row -> exists b, b ∈ blockers (projectGoalAttention goal rows) /\ pb_id b = blocker_id row)
  /\ (length (filter (fun b => pb_category b = "question" /\ "send_input" ∈ actions b) (blockers (projectGoalAttention goal rows))) <= 1)%nat.
Proof.
  unfold projectGoalAttention; cbn [waitingForOperator blockers]. setoid_rewrite <- awaits_operator. setoid_rewrite <- is_current. set (found := _ ++ _). split_and!.
  - rewrite negb_true_iff, bool_decide_eq_false, sort_by_nil, <- length_zero_iff_nil, one_answerable_length, length_zero_iff_nil.
    unfold found. destruct (isGoalPausedAwaitingOperator goal); [split; [by left|done]|]. cbn [app]. rewrite current_nil. split.
    + intros H. right. apply not_Forall_Exists in H; [|apply _]. apply Exists_exists in H as (r & Hr & H). exists r. split; [done|]. by apply not_false_is_true.
    + intros [|(r & Hr & H)]; [done|]. rewrite Forall_forall. intros Hf. specialize (Hf r Hr). congruence.
  - intros b Hb. rewrite sort_by_perm in Hb. destruct (one_answerable_from _ _ Hb) as (b0 & H0 & Hid & Hcat & _). rewrite Hid, Hcat.
    unfold found in H0. apply elem_of_app in H0 as [H0|H0].
    + left. destruct (isGoalPausedAwaitingOperator goal); [|by apply elem_of_nil in H0]. by apply list_elem_of_singleton in H0 as ->.
    + right. destruct (current_blockers_spec _ _ _ _ H0) as (row & Hr & Hc & ->). by exists row.
  - intros row Hr Hc. destruct (current_blockers_all goal rows [] row Hr Hc) as (b0 & H0 & <-); [by intros ?%elem_of_nil|].
    destruct (one_answerable_all found b0) as (b & Hb & Hid); [apply elem_of_app; by right|]. exists b. by rewrite sort_by_perm.
  - rewrite sort_by_perm. etrans; [|apply (one_answerable_spec found)]. apply Nat.eq_le_incl. f_equal. apply list_filter_iff.
    intros b. unfold is_answerable. by rewrite andb_true_iff, !bool_decide_eq_true.
Qed.
