(* ===== verification/GoalWitness.v ===== *)
(** * Goals: concrete goals

    A goal in a small database, the theorems on it, and the runs in which an operator's
    cancellation is overwritten. *)

From S2P Require Import Prelude JsString Json Interleave Goals GoalAttempt GoalCheckpoint GoalDeclaration GoalContinuation GoalWorker GoalRecovery GoalControls GoalRules GoalSteps GoalProps GoalRecovered GoalJobs.

Open Scope string_scope.
Open Scope Z_scope.

Definition calm : Outside := {|
  database := works; jobs := works; container_live _ _ := false; container_stopped _ _ := true;
  stop_execution := Ok (Stop true false false true 0); task_record _ := Ok true; agent_ready := Ok tt; github_token := Ok tt;
  directory_exists _ := true; pull_request := Ok None; convert_to_draft := Ok tt; published_branch := Ok true;
  repository_clone := Ok tt; rebuilt_checkout := Ok "/work/a"; new_checkout := Ok ("/work/a", "goal/a"); checkout_cleanup := Ok tt;
  base_of_repository := Ok "main"; prepared_preview := Ok tt; commit := Ok (Some "abc"); push := Ok tt;
  draft_pull_request := Ok (PullInfo 7 "https://github.com/o/r/pull/7"); published_preview := Ok tt; final_pull_request := Ok None;
  metrics := Ok tt; pull_request_description := Ok tt; pull_request_label := Ok tt; model_supported _ := true; abort_flag := Ok tt; local_reading t := t;
|}.
Definition sample_goal : GoalRow := {|
  goal_id := "g"; owner_id := "ann"; repository := "o/r"; launch_strategy := orchestrate; initial_prompt := "Ship it";
  base_branch := Some "main"; branch_name := Some "goal/a"; worktree_path := Some "/work/a"; agent_type := "vibe"; requested_model := "m";
  desired_state := running; result_state := None; current_task_id := "t"; session_id := Some "s"; conversation_id := None;
  run_generation := 1; run_claim := Some "c1"; claimed_at := Some 1000; attempt_heartbeat_at := Some 1000; active_turn_id := None;
  pause_confirmed_at := None; resume_requested := false; continue_requested := false; started_at := Some 1000; paused_at := None; paused_ms := 0;
  completed_at := None; control_generation := 0; control_ack_generation := 0; task_reconciled_at := None; failure_reason := None;
  effective_model := None; final_pr_number := None; final_pr_url := None; checkpoint_error := None; checkpoint_count := 0;
  last_checkpoint_commit_sha := None; create_idempotency_key := "create"; create_idempotency_operation := "goal.create"; create_payload_hash := "h";
|}.
Definition sample_job : GoalJobData := Job "g" "t" (Some "o") (Some "r") 1 "c1" false.
Definition holding (g : GoalRow) (q : gmap string (GoalJobData * string)) (t : Z) : gdb := {|
  goals := {["g" := g]}; goal_inputs := []; last_sequence := 0; goal_checkpoints := []; goal_blockers := []; queue := q;
  worker_abort := ∅; now := t; drawn := 0; outside := calm;
|}.
Definition row_of (w : world gdb) : option GoalRow := goals (store w) !! "g".
(** What became of the goal, and the job of an attempt *)
Definition after (generation : Z) (w : world gdb) : option (DesiredState * Z) * option GoalJobData :=
  ((fun g => (desired_state g, run_generation g)) <$> row_of w, fst <$> queue (store w) !! goalJobId "g" generation).
Definition next_job (rec : bool) : GoalJobData := Job "g" "t" (Some "o") (Some "r") 2 "uuid-0" rec.

(** ** Recovery after the worker of an executing goal was lost *)

Definition crashed : gdb := holding sample_goal {["goal-g-1" := (sample_job, "active")]} 1000000.
Lemma crashed_healthy : healthy crashed.
Proof. split; try done. by exists true. Qed.
Lemma crashed_jobs : agrees "g" sample_goal crashed.
Proof.
  split_and!; [done|by vm_compute|]. intros n job state Hn H. change (queue crashed) with ({["goal-g-1" := (sample_job, "active")]} : gmap string (GoalJobData * string)) in H.
  apply lookup_singleton_Some in H as [E [= <- <-]]. change (1 <= n) in Hn. change (goalJobId "g" 1 = goalJobId "g" n) in E.
  apply goalJobId_inj in E as [_ <-]; [done|by intros [|? []]|lia].
Qed.
Example crashed_goal_recovers : after 2 (snd (recoverGoal STALE_MS sample_goal (World crashed [] []))) = (Some (running, 2), Some (next_job true)).
Proof. by vm_compute. Qed.

(** Two hours ahead of UTC an attempt whose heartbeat is a second old is taken for lost. *)
Definition ahead_of_utc : gdb := { holding sample_goal ∅ 2000 with outside := { calm with local_reading := fun t => t - 7200000 } }.
Example live_attempt_looks_stale : stale STALE_MS sample_goal (holding sample_goal ∅ 2000) = false /\ stale STALE_MS sample_goal ahead_of_utc = true.
Proof. by vm_compute. Qed.

(** ** Declarations *)

Definition sample_fields : list (string * json) :=
  [("checkpointReady", JBool true); ("message", JStr "Fix {braces}"); ("include", JArr [JStr "src/a.ts"; JStr "src/b.ts"])].
Definition sample_body : string := String quote ("Fix {braces}" ++ String quote "").
Definition sample_parser (text : string) : option json := if bool_decide (text = braced sample_body) then Some (JObj sample_fields) else None.
Lemma sample_balanced : balanced sample_body.
Proof. apply (balanced_string "Fix {braces}" ""); [|constructor]. repeat (apply literal_char; [done..|]). constructor. Qed.
Lemma plain_passage P text : includes_char lbrace text = false -> passage P text.
Proof.
  induction text as [|c text IH]; intros H; [constructor|]. unfold includes_char, index_of in *. cbn in H. case_bool_decide as Hc; [done|].
  apply passage_char; [done|]. apply IH. by destruct (find_index _ text).
Qed.
(** A brace that nothing closes hides the declaration after it. *)
Example open_brace_hides_declaration :
  parseGoalCheckpointDeclaration sample_parser (Some ("Fixed the { case. " ++ braced sample_body)) = None.
Proof. by vm_compute. Qed.
Definition sample_declaration : GoalCheckpointDeclaration := Declaration (Some "Fix {braces}") (Some ["src/a.ts"; "src/b.ts"]) None None.
Lemma declared_paths_witness : well_declared sample_declaration.
Proof. exact (declared_paths_stay_inside sample_parser (Some (braced sample_body)) sample_declaration eq_refl). Defined.

(** ** Overwritten cancellations *)

(** The write of the operator's cancellation *)
Definition cancel_lands (s : gdb) : gdb := commits (update_goal "g" (fun g => bool_decide (result_state g = None)) (cancel_columns 0)) s.
Definition quiet : gdb -> gdb := fun s => s.
Definition pausing : GoalRow := { sample_goal with desired_state := paused; paused_at := Some 1500; resume_requested := true }.

(** The attempt pauses at its boundary, the goal is cancelled, and the attempt, which reads
    the row again, resumes it: the goal runs on, its cancellation gone. *)
Example cancellation_lost_at_boundary :
  after 2 (snd (prepareClaimedGoalAttempt (fun _ _ _ => "h") sample_job sample_goal (World (holding pausing ∅ 2000) (repeat quiet 6 ++ [cancel_lands]) [])))
  = (Some (running, 2), Some (next_job false)).
Proof. by vm_compute. Qed.

(** A request for another model reads a running goal, the goal is cancelled, and the
    request, whose write asks only that the attempt is the same, pauses and resumes it. *)
Definition waiting_to_start : GoalRow := { sample_goal with claimed_at := None; attempt_heartbeat_at := None }.
Definition model_request : Req := Request_ (Some "ann") "g" (Some "key-1").
Example cancellation_lost_to_model_request :
  after 2 (snd (requestModel (fun s => s) (fun _ => "payload") model_request (Some "m2") (World (holding waiting_to_start ∅ 2000) (repeat quiet 5 ++ [cancel_lands]) [])))
  = (Some (running, 2), Some (next_job false)).
Proof. by vm_compute. Qed.
