(* ===== verification/RunCost.v ===== *)
(** * The spend cap of a run

    Resolution of the cap (packages/core/src/budget/runCostCap.ts), the usage tally of
    an execution's streamed lines (runUsageTally.ts) and the guard that stops a run
    at its cap (runCostGuard.ts). Amounts are rationals: the rounding of IEEE doubles
    is not modelled. The pricer is a parameter. *)

From S2P Require Import Prelude JsString Json.
From coqutil Require Import Datatypes.RecordSetters.
Import OCamlLikeNotations.

Open Scope Q_scope.
Open Scope list_scope.

(** ** The cap *)

Inductive RunCostCapSource := override | workflow | instance_default.
#[export] Instance RunCostCapSource_eq_dec : EqDecision RunCostCapSource.
Proof. solve_decision. Defined.

Record RunCostCap := Cap { capUsd : Q; cap_source : RunCostCapSource }.

Record RunCostCapInputs := CapInputs {
  in_override : option json;
  in_workflow : option json;
  in_instanceDefault : option json;
}.

Definition MAX_RUN_COST_CAP_USD : Q := 100000 # 1.

(** [Number(s)] of a string that matches [/^\s*\d+(?:\.\d+)?\s*$/]. *)
Definition parse_decimal (s : string) : option Q :=
  match split_char (Ascii.ascii_of_nat 46) (trim s) with
  | [whole] => if all_digits whole then Some (inject_Z (number_of_digits whole)) else None
  | [whole; frac] =>
      if all_digits whole && all_digits frac
      then Some (inject_Z (number_of_digits whole)
                 + inject_Z (number_of_digits frac) / inject_Z (10 ^ Z.of_nat (String.length frac)))
      else None
  | _ => None
  end.

(** Unset values, blank strings and 0 mean no cap; malformed or negative ones too. *)
Definition parseCostCapUsd (value : option json) : option Q :=
  match value with
  | None | Some JNull => None
  | Some v =>
      let amount := match v with
                    | JNum q => Some q
                    | JStr s => if is_blank s then None else parse_decimal s
                    | _ => None
                    end in
      match amount with
      | None => None
      | Some a => if negb (Qle_bool 0 a) then None
                  else if Qle_bool a 0 then None
                  else Some (Math_min a MAX_RUN_COST_CAP_USD)
      end
  end.

Fixpoint first_cap (levels : list (RunCostCapSource * option json)) : option RunCostCap :=
  match levels with
  | [] => None
  | (source, value) :: levels =>
      match parseCostCapUsd value with
      | Some a => Some (Cap a source)
      | None => first_cap levels
      end
  end.

Definition resolveRunCostCap (i : RunCostCapInputs) : option RunCostCap :=
  first_cap [(override, in_override i); (workflow, in_workflow i); (instance_default, in_instanceDefault i)].

Definition remainingRunBudget (capUsd spentUsd : Q) : Q :=
  let spent := if negb (Qle_bool spentUsd 0) then spentUsd else 0 in
  Math_max 0 (capUsd - spent).

(** ** The usage tally *)

Record RunTokenTotals := Tokens {
  inputTokens : Q;
  outputTokens : Q;
  cacheCreationTokens : Q;
  cacheReadTokens : Q;
}.

Definition ZERO : RunTokenTotals := Tokens 0 0 0 0.

Definition count (v : option json) : Q :=
  match v with Some (JNum q) => if negb (Qle_bool q 0) then q else 0 | _ => 0 end.

Definition normalizeUsage (u : list (string * json)) : RunTokenTotals :=
  let cachedInput := count (field "cached_input_tokens" u) in
  let input := count (nullish (field "input_tokens" u) (field "prompt_tokens" u)) in
  Tokens (if negb (Qle_bool cachedInput 0) then Math_max 0 (input - cachedInput) else input)
    (count (nullish (field "output_tokens" u) (field "completion_tokens" u)))
    (count (field "cache_creation_input_tokens" u))
    (cachedInput + count (field "cache_read_input_tokens" u)).

Definition tokens_add (a b : RunTokenTotals) : RunTokenTotals :=
  Tokens (inputTokens a + inputTokens b) (outputTokens a + outputTokens b)
    (cacheCreationTokens a + cacheCreationTokens b) (cacheReadTokens a + cacheReadTokens b).

Definition tokens_max (a b : RunTokenTotals) : RunTokenTotals :=
  Tokens (Math_max (inputTokens a) (inputTokens b)) (Math_max (outputTokens a) (outputTokens b))
    (Math_max (cacheCreationTokens a) (cacheCreationTokens b)) (Math_max (cacheReadTokens a) (cacheReadTokens b)).

Definition sessionIdOf (event : list (string * json)) : option string :=
  match as_text (field "session_id" event), as_text (field "thread_id" event) with
  | Some s, _ => Some s
  | None, Some s => Some s
  | None, None =>
      match field "event" event with
      | Some (JStr "init") =>
          as_text (nullish (field "conversation_id" event)
                     (as_record (field "init" event) ≫= field "conversation_id"))
      | _ => None
      end
  end.

Record RunUsageTally := Tally {
  t_model : option string;
  t_sessionId : option string;
  reportedCostUsd : Q;
  (** A [Map] in insertion order. *)
  messages : list (string * RunTokenTotals);
  unidentified : RunTokenTotals;
}.

Definition new_tally (model : option string) : RunUsageTally := Tally model None 0 [] ZERO.

(** [map.set(id, previous ? max(previous, totals) : totals)] *)
Fixpoint merge_message (id : string) (t : RunTokenTotals) (l : list (string * RunTokenTotals))
    : list (string * RunTokenTotals) :=
  match l with
  | [] => [(id, t)]
  | (i, u) :: l => if bool_decide (i = id) then (i, tokens_max u t) :: l else (i, u) :: merge_message id t l
  end.

(** The last session seen, the first model seen and the largest cost reported. *)
Definition seen_session (event : list (string * json)) (seen : option string) : option string :=
  match sessionIdOf event with Some s => Some s | None => seen end.
Definition seen_model (event : list (string * json)) (seen : option string) : option string :=
  match truthy_string seen with
  | Some m => Some m
  | None => match as_text (nullish (as_record (field "message" event) ≫= field "model") (field "model" event)) with
            | Some m => Some m
            | None => seen
            end
  end.
Definition reported_cost (event : list (string * json)) : Q :=
  let total := count (field "total_cost_usd" event) in
  if negb (Qle_bool total 0) then total else count (field "cost_usd" event).
Definition is_result (event : list (string * json)) : bool :=
  match field "type" event with Some (JStr "result") => true | _ => false end.
Definition usage_of (event : list (string * json)) : option (list (string * json)) :=
  match as_record (as_record (field "message" event) ≫= field "usage") with
  | Some u => Some u
  | None => as_record (field "usage" event)
  end.
Definition message_id (event : list (string * json)) : option string :=
  as_text (as_record (field "message" event) ≫= field "id").

(** [observeLine] of a line with a relevant key, from its parse; other lines and
    lines that do not parse are ignored. *)
Definition observe (parsed : option json) (t : RunUsageTally) : RunUsageTally :=
  match as_record parsed with
  | None => t
  | Some event =>
      let model := seen_model event (t_model t) in
      let session := seen_session event (t_sessionId t) in
      let reported := if negb (Qle_bool (reported_cost event) (reportedCostUsd t))
                      then reported_cost event else reportedCostUsd t in
      match (if is_result event then None else usage_of event) with
      | None => Tally model session reported (messages t) (unidentified t)
      | Some usage =>
          let totals := normalizeUsage usage in
          match message_id event with
          | Some id => Tally model session reported (merge_message id totals (messages t)) (unidentified t)
          | None => Tally model session reported (messages t) (tokens_add (unidentified t) totals)
          end
      end
  end.

Definition totals (t : RunUsageTally) : RunTokenTotals :=
  foldl tokens_add (unidentified t) (map snd (messages t)).

(** ** Spend that is not recorded yet *)

Record RecordedSpend := Spend { totalUsd : Q; bySessionUsd : option (gmap string Q) }.
Definition NO_RECORDED_SPEND : RecordedSpend := Spend 0 None.

(** Negative amounts count as nothing. *)
Definition usd (amount : Q) : Q := if negb (Qle_bool amount 0) then amount else 0.
Definition normalizeRecordedSpend (r : RecordedSpend) : RecordedSpend :=
  Spend (usd (totalUsd r)) ((fun m : gmap string Q => usd <$> m) <$> bySessionUsd r).

Record FinishedExecution := Finished { f_tally : RunUsageTally; recordedAtFinish : RecordedSpend }.

(** The sessions matched to their own rows ([Set] in insertion order). *)
Definition matched_sessions (recorded : RecordedSpend) (finished : list FinishedExecution) : list string :=
  match bySessionUsd recorded with
  | Some _ => remove_dups (omap (fun f => truthy_string (t_sessionId (f_tally f))) finished)
  | None => []
  end.

Definition keyOf (matched : list string) (f : FinishedExecution) : option string :=
  match truthy_string (t_sessionId (f_tally f)) with
  | Some s => if bool_decide (s ∈ matched) then Some s else None
  | None => None
  end.

Definition session_amount (spend : RecordedSpend) (s : string) : Q :=
  default 0 (bySessionUsd spend ≫= (fun m => m !! s)).

Definition amount (matched : list string) (spend : RecordedSpend) (key : option string) : Q :=
  match key with
  | Some s => session_amount spend s
  | None => foldl (fun other s => other - session_amount spend s) (totalUsd spend) matched
  end.

(** What was recorded for the execution's group since it finished. *)
Definition sinceFinish (matched : list string) (recorded : RecordedSpend) (f : FinishedExecution) : Q :=
  let key := keyOf matched f in
  Math_max 0 (amount matched recorded key - amount matched (recordedAtFinish f) key).

(** The most the rows of each group can account for. *)
Definition initial_available (matched : list string) (recorded : RecordedSpend) (finished : list FinishedExecution)
    : option string -> Q :=
  foldl (fun available f key =>
           if bool_decide (key = keyOf matched f)
           then Math_max (available key) (sinceFinish matched recorded f) else available key)
    (fun _ => 0) finished.

(** What each finished execution's usage is covered by recorded rows, in order. *)
Fixpoint cover_rows (matched : list string) (recorded : RecordedSpend) (available : option string -> Q)
    (finished : list (FinishedExecution * Q)) : list Q :=
  match finished with
  | [] => []
  | (f, observed) :: finished =>
      let key := keyOf matched f in
      let c := Math_min (Math_min observed (sinceFinish matched recorded f)) (available key) in
      c :: cover_rows matched recorded
             (fun k => if bool_decide (k = key) then available k - c else available k) finished
  end.

Definition covered_by_rows (recorded : RecordedSpend) (finished : list (FinishedExecution * Q)) : list Q :=
  let matched := matched_sessions recorded (map fst finished) in
  cover_rows matched recorded (initial_available matched recorded (map fst finished)) finished.

Definition unrecordedUsd (recorded : RecordedSpend) (finished : list (FinishedExecution * Q)) : Q :=
  sumQ (zip_with (fun f c => snd f - c) finished (covered_by_rows recorded finished)).

(** ** The guard *)

(** An exhausted run's snapshot; the percentage and the task ID are left out. *)
Record RunCostSnapshot := Snapshot {
  snap_cap : RunCostCap;
  spentUsd : Q;
  snap_priorSpentUsd : Q;
  remainingUsd : Q;
}.

(** A check or an admission between its awaits: the cap it started with and the spend it
    falls back to; then the recorded spend it read, the finished executions it captured,
    the executions still to price (the first [lives] were live), what the pricer said of
    the first of these, and the prices so far. The tallies are shared objects: lines that
    arrive while others are priced still count. *)
Inductive Evaluation :=
  | Reading (cap : RunCostCap) (fallback : RecordedSpend)
  | Pricing (cap : RunCostCap) (recorded : RecordedSpend) (fins : list (nat * RecordedSpend)) (lives : nat)
      (todo : list nat) (asked : option Q) (prices : list Q).

Record RunCostGuard := Guard {
  g_inputs : RunCostCapInputs;
  resolvedCap : option RunCostCap;
  (** The tally of every execution begun *)
  tallies : gmap nat RunUsageTally;
  live : list nat;
  finished : list (nat * RecordedSpend);
  (** Executions whose [finish] waits for its read, with the fallback of that read, or is past it *)
  finishing : gmap nat (option RecordedSpend);
  priorSpentUsd : Q;
  lastRecorded : RecordedSpend;
  triggered : bool;
  exceededSnapshot : option RunCostSnapshot;
  evaluations : list Evaluation;
  (** What the guard did to others: executions told to stop, [onExceeded] calls. *)
  stopped : list nat;
  exceeded_calls : nat;
  (** Executions begun so far (their identities). *)
  begun : nat;
}.

Definition new_guard (i : RunCostCapInputs) : RunCostGuard :=
  Guard i (resolveRunCostCap i) ∅ [] [] ∅ 0 NO_RECORDED_SPEND false None [] [] 0 0.
Definition tally_of (g : RunCostGuard) (id : nat) : RunUsageTally := default (new_tally None) (tallies g !! id).

(** The pricer's answer, or 0 where it fails. *)
Section Guard.
Variable price : string -> RunTokenTotals -> Q.
Variable defaultModel : option string.

(** [cost]: the pricer is asked with the tally as it is, and its answer compared with the
    cost reported when it arrives. *)
Definition cost_asked (t : RunUsageTally) : Q :=
  match truthy_string (match t_model t with Some m => Some m | None => defaultModel end) with
  | Some m => price m (totals t)
  | None => 0
  end.
Definition cost_answered (priced : Q) (t : RunUsageTally) : Q := Math_max priced (reportedCostUsd t).

Definition spent (g : RunCostGuard) (recorded : RecordedSpend) (fins : list (nat * RecordedSpend)) (lives : nat) (prices : list Q) : Q :=
  totalUsd recorded + sumQ (list.take lives prices)
  + unrecordedUsd recorded (zip_with (fun f c => (Finished (tally_of g (fst f)) (snd f), c)) fins (list.drop lives prices)).

Definition snapshot (g : RunCostGuard) (cap : RunCostCap) (s : Q) : RunCostSnapshot :=
  Snapshot cap s (priorSpentUsd g) (remainingRunBudget (capUsd cap) s).

(** [readRecorded]: a read that succeeds is the last recorded spend, one that fails keeps
    the fallback. *)
Definition readRecorded (read : option RecordedSpend) (fallback : RecordedSpend) : RecordedSpend :=
  match read with Some r => normalizeRecordedSpend r | None => fallback end.
Definition note_recorded (read : option RecordedSpend) (g : RunCostGuard) : RunCostGuard :=
  match read with Some r => { g with lastRecorded := normalizeRecordedSpend r } | None => g end.

(** [start]: a capped attempt needs its recorded spend. *)
Definition start (read : option RecordedSpend) (g : RunCostGuard) : RunCostGuard :=
  match resolvedCap g, read with
  | Some _, None => g
  | _, _ => note_recorded read { g with priorSpentUsd := totalUsd (readRecorded read NO_RECORDED_SPEND) }
  end.

Definition setWorkflowCap (value : option json) (g : RunCostGuard) : RunCostGuard :=
  let i := CapInputs (in_override (g_inputs g)) value (in_instanceDefault (g_inputs g)) in
  { g with g_inputs := i; resolvedCap := resolveRunCostCap i }.

Inductive BeginResult := Refused | NotEnforced | Begun (id : nat).

Definition beginExecution (model : option string) (g : RunCostGuard) : BeginResult * RunCostGuard :=
  if triggered g then (Refused, g)
  else match resolvedCap g with
  | None => (NotEnforced, g)
  | Some _ =>
      (Begun (begun g), { g with live := live g ++ [begun g]; tallies := <[begun g := new_tally model]> (tallies g); begun := S (begun g) })
  end.

Definition observeLine (id : nat) (line : option json) (g : RunCostGuard) : RunCostGuard :=
  { g with tallies := alter (observe line) id (tallies g) }.

(** [finishExecution], once for an execution: it reads the recorded spend, then moves it. *)
Definition finish_start (id : nat) (g : RunCostGuard) : RunCostGuard :=
  if (id <? begun g)%nat && bool_decide (finishing g !! id = None) then { g with finishing := <[id := Some (lastRecorded g)]> (finishing g) } else g.
Definition finishExecution (id : nat) (read : option RecordedSpend) (g : RunCostGuard) : RunCostGuard :=
  match finishing g !! id with
  | Some (Some fallback) =>
      let recordedAtFinish := readRecorded read fallback in
      let g := note_recorded read { g with finishing := <[id := None]> (finishing g) } in
      if bool_decide (id ∈ live g)
      then { g with live := filter (fun x => x <> id) (live g); finished := finished g ++ [(id, recordedAtFinish)] }
      else g
  | _ => g
  end.

Definition close (g : RunCostGuard) : RunCostGuard := { g with live := [] }.

(** ** [evaluate], split at its awaits *)

Definition evaluate_start (g : RunCostGuard) : RunCostGuard :=
  match resolvedCap g with
  | Some cap => if triggered g then g else { g with evaluations := evaluations g ++ [Reading cap (lastRecorded g)] }
  | None => g
  end.

(** The recorded spend arrives and both collections are captured. *)
Definition pricing (cap : RunCostCap) (recorded : RecordedSpend) (g : RunCostGuard) : Evaluation :=
  Pricing cap recorded (finished g) (length (live g)) (live g ++ map fst (finished g)) None [].
Definition evaluate_capture (i : nat) (read : option RecordedSpend) (g : RunCostGuard) : RunCostGuard :=
  match evaluations g !! i with
  | Some (Reading cap fallback) =>
      note_recorded read { g with evaluations := <[i := pricing cap (readRecorded read fallback) g]> (evaluations g) }
  | _ => g
  end.

(** [admit] reads the recorded spend before it evaluates; a read that fails rejects it. *)
Definition admit_run (read : RecordedSpend) (g : RunCostGuard) : RunCostGuard :=
  let g := note_recorded (Some read) g in
  match resolvedCap g with
  | Some cap => if triggered g then g
                else { g with evaluations := evaluations g ++ [pricing cap (readRecorded (Some read) NO_RECORDED_SPEND) g] }
  | None => g
  end.

(** The pricer is asked for the next execution, and answers. *)
Definition evaluate_ask (i : nat) (g : RunCostGuard) : RunCostGuard :=
  match evaluations g !! i with
  | Some (Pricing cap recorded fins lives (id :: todo) None prices) =>
      { g with evaluations := <[i := Pricing cap recorded fins lives (id :: todo) (Some (cost_asked (tally_of g id))) prices]> (evaluations g) }
  | _ => g
  end.
Definition evaluate_answer (i : nat) (g : RunCostGuard) : RunCostGuard :=
  match evaluations g !! i with
  | Some (Pricing cap recorded fins lives (id :: todo) (Some priced) prices) =>
      { g with evaluations := <[i := Pricing cap recorded fins lives todo None (prices ++ [cost_answered priced (tally_of g id)])]> (evaluations g) }
  | _ => g
  end.

(** All are priced. *)
Definition evaluate_decide (i : nat) (g : RunCostGuard) : RunCostGuard :=
  match evaluations g !! i with
  | Some (Pricing cap recorded fins lives [] _ prices) =>
      let g := { g with evaluations := delete i (evaluations g) } in
      let s := snapshot g cap (spent g recorded fins lives prices) in
      if triggered g || negb (Qle_bool (capUsd cap) (spentUsd s)) then g
      else { g with triggered := true; exceededSnapshot := Some s; stopped := stopped g ++ live g; exceeded_calls := S (exceeded_calls g) }
  | _ => g
  end.

(** [admit] ends with [refuseIfExceeded], after its evaluation. *)
Definition admit_ends (g : RunCostGuard) : bool := negb (triggered g).

Inductive guard_event :=
  | Start (read : option RecordedSpend)
  | SetWorkflowCap (value : option json)
  | Begin (model : option string)
  | Observe (id : nat) (line : option json)
  | FinishStart (id : nat)
  | Finish (id : nat) (read : option RecordedSpend)
  | Close
  | EvaluateStart
  | AdmitRead (read : RecordedSpend)
  | EvaluateCapture (i : nat) (read : option RecordedSpend)
  | EvaluateAsk (i : nat)
  | EvaluateAnswer (i : nat)
  | EvaluateDecide (i : nat).

Definition guard_step (ev : guard_event) (g : RunCostGuard) : RunCostGuard :=
  match ev with
  | Start r => start r g
  | SetWorkflowCap v => setWorkflowCap v g
  | Begin m => snd (beginExecution m g)
  | Observe id line => observeLine id line g
  | FinishStart id => finish_start id g
  | Finish id r => finishExecution id r g
  | Close => close g
  | EvaluateStart => evaluate_start g
  | AdmitRead r => admit_run r g
  | EvaluateCapture i r => evaluate_capture i r g
  | EvaluateAsk i => evaluate_ask i g
  | EvaluateAnswer i => evaluate_answer i g
  | EvaluateDecide i => evaluate_decide i g
  end.

Definition guard_run (evs : list guard_event) (i : RunCostCapInputs) : RunCostGuard :=
  foldl (fun g ev => guard_step ev g) (new_guard i) evs.
End Guard.
