(* ===== verification/RunCostFacts.v ===== *)
(** * Properties of the spend cap *)

From S2P Require Import Prelude JsString Json RunCost.
From coqutil Require Import Datatypes.RecordSetters.
Import OCamlLikeNotations.

Open Scope Q_scope.
Open Scope list_scope.

(** ** The cap that applies *)

Lemma parse_cap_bounds v a : parseCostCapUsd v = Some a -> 0 < a /\ a <= MAX_RUN_COST_CAP_USD.
Proof.
  unfold parseCostCapUsd. destruct v as [v|]; [|done]. intros H.
  assert (Hamount : exists amount, a = Math_min amount MAX_RUN_COST_CAP_USD /\ Qle_bool amount 0 = false).
  { destruct v; try done; repeat case_match; simplify_eq; eauto. }
  destruct Hamount as (x & -> & Hx). qb. split; [|apply Math_min_r].
  unfold Math_min. destruct (Qle_bool x MAX_RUN_COST_CAP_USD); [done|]. reflexivity.
Qed.

(** The cap of a run is the first level that sets a positive amount, in the order
    override, workflow, instance default, and is positive and at most the maximum:
    a typo can never become a cap of zero dollars. *)
Theorem cap_resolution i cap :
  resolveRunCostCap i = Some cap ->
  0 < capUsd cap /\ capUsd cap <= MAX_RUN_COST_CAP_USD
  /\ match cap_source cap with
     | override => parseCostCapUsd (in_override i) = Some (capUsd cap)
     | workflow => parseCostCapUsd (in_override i) = None /\ parseCostCapUsd (in_workflow i) = Some (capUsd cap)
     | instance_default =>
         parseCostCapUsd (in_override i) = None /\ parseCostCapUsd (in_workflow i) = None
         /\ parseCostCapUsd (in_instanceDefault i) = Some (capUsd cap)
     end.
Proof.
  unfold resolveRunCostCap, first_cap.
  destruct (parseCostCapUsd (in_override i)) as [a|] eqn:E1; [intros; simplify_eq/=; split_and!; try done; by eapply parse_cap_bounds|].
  destruct (parseCostCapUsd (in_workflow i)) as [a|] eqn:E2; [intros; simplify_eq/=; split_and!; try done; by eapply parse_cap_bounds|].
  destruct (parseCostCapUsd (in_instanceDefault i)) as [a|] eqn:E3; [|done].
  intros; simplify_eq/=; split_and!; try done; by eapply parse_cap_bounds.
Qed.

(** ** The tally *)

Definition tokens_le (a b : RunTokenTotals) : Prop :=
  inputTokens a <= inputTokens b /\ outputTokens a <= outputTokens b
  /\ cacheCreationTokens a <= cacheCreationTokens b /\ cacheReadTokens a <= cacheReadTokens b.

#[export] Instance tokens_le_preorder : PreOrder tokens_le.
Proof.
  split; [intros a; split_and!; apply Qle_refl|]. intros a b c (H1 & H2 & H3 & H4) (K1 & K2 & K3 & K4).
  split_and!; eapply Qle_trans; eauto.
Qed.

Lemma tokens_max_idem a b : tokens_max (tokens_max a b) b = tokens_max a b.
Proof. unfold tokens_max. simpl. by rewrite !Math_max_idem. Qed.
Lemma tokens_max_l a b : tokens_le a (tokens_max a b).
Proof. split_and!; apply Math_max_l. Qed.
Lemma tokens_add_mono a b c d : tokens_le a b -> tokens_le c d -> tokens_le (tokens_add a c) (tokens_add b d).
Proof. intros (H1 & H2 & H3 & H4) (K1 & K2 & K3 & K4). split_and!; simpl; lra. Qed.

Lemma count_nonneg v : 0 <= count v.
Proof. unfold count. destruct v as [[]|]; try lra. destruct (Qle_bool q 0) eqn:E; simpl; qb; lra. Qed.

Lemma normalize_nonneg u : tokens_le ZERO (normalizeUsage u).
Proof.
  unfold normalizeUsage. split_and!; simpl.
  - destruct (negb _); [apply Math_max_l|apply count_nonneg].
  - apply count_nonneg.
  - apply count_nonneg.
  - pose proof (count_nonneg (field "cached_input_tokens" u)).
    pose proof (count_nonneg (field "cache_read_input_tokens" u)). lra.
Qed.

Lemma foldl_add_mono l a b : tokens_le a b -> tokens_le (foldl tokens_add a l) (foldl tokens_add b l).
Proof.
  revert a b; induction l as [|x l IH]; intros a b H; [done|]. simpl. apply IH, tokens_add_mono; [done|reflexivity].
Qed.

Lemma foldl_add_le l a : Forall (tokens_le ZERO) l -> tokens_le a (foldl tokens_add a l).
Proof.
  intros H. revert a. induction H as [|x l Hx H IH]; intros a; [reflexivity|]. simpl. etrans; [|apply IH].
  destruct Hx as (H1 & H2 & H3 & H4). split_and!; simpl in *; lra.
Qed.

(** The totals of a tally only grow when a message is merged. *)
Lemma merge_totals_mono id t l a :
  tokens_le ZERO t ->
  tokens_le (foldl tokens_add a (map snd l)) (foldl tokens_add a (map snd (merge_message id t l))).
Proof.
  intros Ht. revert a; induction l as [|[i u] l IH]; intros a; simpl.
  - destruct Ht as (H1 & H2 & H3 & H4). split_and!; simpl in *; lra.
  - case_bool_decide; simpl; [|apply IH]. apply foldl_add_mono, tokens_add_mono; [reflexivity|apply tokens_max_l].
Qed.

Lemma merge_twice id t l : merge_message id t (merge_message id t l) = merge_message id t l.
Proof.
  induction l as [|[i u] l IH]; simpl.
  - rewrite bool_decide_true by done. f_equal. f_equal. unfold tokens_max, Math_max.
    destruct t; simpl. by repeat case_match.
  - case_bool_decide; simpl; [|rewrite bool_decide_false by done; by rewrite IH].
    rewrite bool_decide_true by done. by rewrite tokens_max_idem.
Qed.

Lemma Qle_bool_refl x : Qle_bool x x = true.
Proof. apply Qle_bool_iff, Qle_refl. Qed.

(** A line that is counted at most once: a [result] line or one with a message ID. *)
Definition identified (parsed : option json) : Prop :=
  exists event, as_record parsed = Some event /\ (is_result event = true \/ message_id event <> None).

Lemma seen_model_again e m : seen_model e (seen_model e m) = seen_model e m.
Proof.
  unfold seen_model. destruct (truthy_string m) as [x|] eqn:Em; [|].
  - destruct m as [[|]|]; by simplify_eq/=.
  - destruct (as_text _) as [x|] eqn:Ea; [|by rewrite Em]. by destruct x.
Qed.

Lemma seen_session_again e m : seen_session e (seen_session e m) = seen_session e m.
Proof. unfold seen_session. by destruct (sessionIdOf e). Qed.

Lemma Qle_bool_max a b : Qle_bool a (if negb (Qle_bool a b) then a else b) = true.
Proof. destruct (Qle_bool a b) eqn:E; simpl; [done|apply Qle_bool_refl]. Qed.

(** The tally counts every message once: no line ever lowers the token totals or
    the reported cost, and repeating a line that names its message (or the final
    result line) changes nothing. *)
Theorem tally_counts_once parsed t :
  tokens_le (totals t) (totals (observe parsed t)) /\ reportedCostUsd t <= reportedCostUsd (observe parsed t)
  /\ (identified parsed -> observe parsed (observe parsed t) = observe parsed t).
Proof.
  unfold observe, identified. destruct (as_record parsed) as [e|]; [|split_and!; [reflexivity|apply Qle_refl|done]].
  cbv zeta. split_and!.
  - destruct (if is_result e then None else usage_of e) as [u|]; [|reflexivity].
    destruct (message_id e) as [id|]; unfold totals; simpl; [apply merge_totals_mono, normalize_nonneg|].
    apply foldl_add_mono. pose proof (normalize_nonneg u) as (H1 & H2 & H3 & H4). split_and!; simpl in *; lra.
  - assert (H : reportedCostUsd t <= if negb (Qle_bool (reported_cost e) (reportedCostUsd t)) then reported_cost e else reportedCostUsd t).
    { destruct (Qle_bool _ _) eqn:E; simpl; qb; lra. }
    destruct (if is_result e then None else usage_of e); [|done]. by destruct (message_id e).
  - intros (e' & He & Hid). simplify_eq.
    destruct (is_result e'), (usage_of e'), (message_id e') eqn:Em; destruct Hid; try done; simpl;
      rewrite ?seen_model_again, ?seen_session_again, ?Qle_bool_max, ?merge_twice; done.
Qed.

(** ** Spend that is not recorded yet *)

Lemma covered_length matched recorded av fs : length (cover_rows matched recorded av fs) = length fs.
Proof. revert av; induction fs as [|[f o] fs IH]; intros av; [done|]. simpl. by rewrite IH. Qed.

(** What the executions of a group are covered by. *)
Definition group_covered (matched : list string) (k : option string) (fs : list (FinishedExecution * Q)) (cs : list Q) : Q :=
  sumQ (zip_with (fun f c => if bool_decide (keyOf matched (fst f) = k) then c else 0) fs cs).

Lemma covered_bounds matched recorded av fs :
  (forall k, 0 <= av k) -> Forall (fun f => 0 <= snd f) fs ->
  Forall2 (fun f c => 0 <= c <= snd f /\ c <= sinceFinish matched recorded (fst f)) fs (cover_rows matched recorded av fs)
  /\ forall k, group_covered matched k fs (cover_rows matched recorded av fs) <= av k.
Proof.
  intros Hav Hobs. revert av Hav. induction Hobs as [|[f o] fs Ho Hobs IH]; intros av Hav.
  { split; [constructor|]. intros k. simpl. apply Hav. }
  cbn [cover_rows]. set (c := Math_min _ (av _)).
  assert (Hc : 0 <= c /\ c <= o /\ c <= sinceFinish matched recorded f /\ c <= av (keyOf matched f)).
  { unfold c. split_and!.
    - repeat apply Math_min_glb; [done|apply Math_max_l|apply Hav].
    - eapply Qle_trans; [apply Math_min_l|apply Math_min_l].
    - eapply Qle_trans; [apply Math_min_l|apply Math_min_r].
    - apply Math_min_r. }
  destruct Hc as (H0 & H1 & H2 & H3). clearbody c.
  destruct (IH (fun k => if bool_decide (k = keyOf matched f) then av k - c else av k)) as [IH1 IH2].
  { intros k. case_bool_decide; [subst; lra|apply Hav]. }
  split; [constructor; [done|exact IH1]|]. intros k. unfold group_covered. cbn [zip_with sumQ foldr].
  specialize (IH2 k). unfold group_covered in IH2. fold (sumQ (zip_with (fun f c => if bool_decide (keyOf matched (fst f) = k) then c else 0) fs (cover_rows matched recorded (fun k => if bool_decide (k = keyOf matched f) then av k - c else av k) fs))).
  simpl fst. destruct (decide (k = keyOf matched f)) as [->|Hne].
  - rewrite bool_decide_true in * by done. lra.
  - rewrite (bool_decide_false (keyOf matched f = k)) by congruence. rewrite (bool_decide_false (k = keyOf matched f)) in IH2 by done. lra.
Qed.

Lemma available_fold matched recorded fs av k :
  foldl (fun available f key =>
           if bool_decide (key = keyOf matched f)
           then Math_max (available key) (sinceFinish matched recorded f) else available key) av fs k
  = foldl Math_max (av k) (map (sinceFinish matched recorded) (filter (fun f => keyOf matched f = k) fs)).
Proof.
  revert av; induction fs as [|f fs IH]; intros av; [done|]. simpl. rewrite IH.
  rewrite filter_cons. case_bool_decide; case_decide; simpl; congruence.
Qed.

Lemma foldl_max_bounds l a B : a <= B -> Forall (fun x => x <= B) l -> a <= foldl Math_max a l /\ foldl Math_max a l <= B.
Proof.
  intros Ha H. revert a Ha. induction H as [|x l Hx H IH]; intros a Ha; simpl; [split; [apply Qle_refl|done]|].
  destruct (IH (Math_max a x)) as [H1 H2]; [by apply Math_max_lub|]. split; [|done].
  eapply Qle_trans; [apply Math_max_l|exact H1].
Qed.

Lemma foldl_max_nonneg l a : a <= foldl Math_max a l.
Proof.
  revert a; induction l as [|x l IH]; intros a; simpl; [apply Qle_refl|].
  eapply Qle_trans; [apply Math_max_l|apply IH].
Qed.

Lemma foldl_max_in l a x : x ∈ l -> x <= foldl Math_max a l.
Proof.
  revert a; induction l as [|y l IH]; intros a Hx; [by apply elem_of_nil in Hx|]. simpl.
  apply elem_of_cons in Hx as [->|Hx]; [|by apply IH].
  eapply Qle_trans; [apply Math_max_r|apply foldl_max_nonneg].
Qed.

Lemma available_nonneg matched recorded fs k : 0 <= initial_available matched recorded fs k.
Proof. unfold initial_available. rewrite available_fold. apply foldl_max_nonneg. Qed.

Lemma available_le matched recorded fs k B :
  0 <= B -> (forall f, f ∈ fs -> keyOf matched f = k -> sinceFinish matched recorded f <= B) ->
  initial_available matched recorded fs k <= B.
Proof.
  intros HB H. unfold initial_available. rewrite available_fold. apply foldl_max_bounds; [done|].
  apply Forall_fmap, Forall_forall. intros f [Hk Hf]%list_elem_of_filter. simpl. auto.
Qed.

Lemma unrecorded_bounds fs cs :
  Forall2 (fun (f : FinishedExecution * Q) c => 0 <= c <= snd f) fs cs ->
  0 <= sumQ (zip_with (fun f c => snd f - c) fs cs) <= sumQ (map snd fs).
Proof.
  induction 1 as [|[f o] c fs cs Hc H IH]; simpl; [split; apply Qle_refl|]. simpl in Hc.
  unfold sumQ in *. lra.
Qed.

(** No recorded dollar covers two executions: of the observed usage of a group of
    finished executions (one session, or all those without their own row) no more is
    taken as already recorded than was recorded since one of them finished, never
    more than an execution's own usage, and the rest still counts. *)
Theorem recorded_dollars_cover_once recorded fs :
  Forall (fun f => 0 <= snd f) fs ->
  let matched := matched_sessions recorded (map fst fs) in
  Forall2 (fun f c => 0 <= c <= snd f /\ c <= sinceFinish matched recorded (fst f)) fs (covered_by_rows recorded fs)
  /\ (forall k B, 0 <= B ->
      (forall f, f ∈ map fst fs -> keyOf matched f = k -> sinceFinish matched recorded f <= B) ->
      group_covered matched k fs (covered_by_rows recorded fs) <= B)
  /\ 0 <= unrecordedUsd recorded fs <= sumQ (map snd fs).
Proof.
  intros Hobs matched. unfold covered_by_rows. fold matched.
  destruct (covered_bounds matched recorded (initial_available matched recorded (map fst fs)) fs) as [H1 H2];
    [apply available_nonneg|done|].
  split_and!; [done| |..].
  - intros k B HB Hk. eapply Qle_trans; [apply H2|by apply available_le].
  - apply (unrecorded_bounds fs). unfold covered_by_rows. fold matched.
    eapply Forall2_impl; [exact H1|]. intros f c [H _]. exact H.
  - apply (unrecorded_bounds fs). unfold covered_by_rows. fold matched.
    eapply Forall2_impl; [exact H1|]. intros f c [H _]. exact H.
Qed.

(** ** Own rows *)

Lemma covered_own matched recorded (growth : FinishedExecution -> Q) av fs :
  NoDup (map (fun f => keyOf matched (fst f)) fs) ->
  (forall f, f ∈ fs -> sinceFinish matched recorded (fst f) = growth (fst f)
     /\ growth (fst f) <= av (keyOf matched (fst f))) ->
  Forall2 (fun f c => c == Math_min (snd f) (growth (fst f))) fs (cover_rows matched recorded av fs).
Proof.
  revert av; induction fs as [|[f o] fs IH]; intros av Hnd Hav; [constructor|]. cbn [cover_rows].
  apply NoDup_cons in Hnd as [Hk Hnd]. constructor.
  - destruct (Hav (f, o)) as [Hg Hle]; [by left|]. simpl in *. rewrite Hg.
    apply Qle_antisym; [apply Math_min_l|]. apply Math_min_glb; [apply Qle_refl|].
    eapply Qle_trans; [apply Math_min_r|done].
  - apply IH; [done|]. intros g Hg. rewrite bool_decide_false.
    + apply Hav. by right.
    + intros Heq. apply Hk. simpl. rewrite <- Heq.
      exact (list_elem_of_fmap_2 (fun f => keyOf matched (fst f)) fs g Hg).
Qed.

(** What the row of an execution's session grew by since it finished. *)
Definition row_growth (recorded : RecordedSpend) (f : FinishedExecution) : Q :=
  let s := default ""%string (t_sessionId (f_tally f)) in
  Math_max 0 (session_amount recorded s - session_amount (recordedAtFinish f) s).

(** An execution that reported its session is matched to its own row only: with
    distinct sessions, each finished execution is covered by exactly the growth of its
    own session's row since it finished, up to its observed usage, whatever the other
    executions used. *)
Theorem session_rows_cover_exactly recorded fs sessions :
  map (fun f => t_sessionId (f_tally (fst f))) fs = map Some sessions ->
  NoDup sessions -> (forall s, s ∈ sessions -> s <> ""%string) -> bySessionUsd recorded <> None ->
  Forall2 (fun f c => c == Math_min (snd f) (row_growth recorded (fst f))) fs (covered_by_rows recorded fs).
Proof.
  intros Hs Hnd Hne Hsplit. unfold covered_by_rows. set (matched := matched_sessions recorded (map fst fs)).
  assert (Hkey : forall f, f ∈ fs -> exists s, t_sessionId (f_tally (fst f)) = Some s /\ keyOf matched (fst f) = Some s).
  { intros f Hf. assert (Hin : t_sessionId (f_tally (fst f)) ∈ map Some sessions).
    { rewrite <- Hs. exact (list_elem_of_fmap_2 (fun f => t_sessionId (f_tally (fst f))) fs f Hf). }
    apply list_elem_of_fmap in Hin as (s & Hts & Hin). exists s. split; [done|]. unfold keyOf. rewrite Hts.
    assert (truthy_string (Some s) = Some s) as ->; [by specialize (Hne s Hin); destruct s|].
    rewrite bool_decide_true; [done|]. unfold matched, matched_sessions. destruct (bySessionUsd recorded); [|done].
    apply elem_of_remove_dups, list_elem_of_omap. exists (fst f). split.
    - by apply list_elem_of_fmap_2.
    - rewrite Hts. specialize (Hne s Hin). by destruct s. }
  assert (Hkeys : map (fun f => keyOf matched (fst f)) fs = map Some sessions).
  { rewrite <- Hs. apply map_ext_in. intros f Hf. apply list_elem_of_In in Hf.
    destruct (Hkey f Hf) as (s & H1 & H2). by rewrite H1, H2. }
  apply covered_own.
  - rewrite Hkeys. by apply NoDup_fmap_2; [intros ? ? [= ->]|].
  - intros f Hf. destruct (Hkey f Hf) as (s & H1 & H2).
    assert (Hg : sinceFinish matched recorded (fst f) = row_growth recorded (fst f)).
    { unfold sinceFinish, row_growth. by rewrite H2, H1. }
    split; [done|]. unfold initial_available. rewrite available_fold. apply foldl_max_in.
    rewrite <- Hg. apply list_elem_of_fmap_2, list_elem_of_filter. split; [done|]. by apply list_elem_of_fmap_2.
Qed.

(** ** The guard *)

Section Guard.
Variable price : string -> RunTokenTotals -> Q.
Variable defaultModel : option string.

Abbreviation guard_step := (guard_step price defaultModel).
Abbreviation guard_run := (guard_run price defaultModel).

Definition evaluation_cap (e : Evaluation) : RunCostCap :=
  match e with Reading cap _ => cap | Pricing cap _ _ _ _ _ _ => cap end.

(** What every reachable guard satisfies. *)
Record guard_inv (g : RunCostGuard) : Prop := {
  inv_cap : forall cap, resolvedCap g = Some cap -> 0 < capUsd cap;
  inv_evaluations : Forall (fun e => 0 < capUsd (evaluation_cap e)) (evaluations g);
  inv_live : NoDup (live g);
  inv_live_begun : forall id, id ∈ live g -> (id < begun g)%nat;
  inv_calls : exceeded_calls g = (if triggered g then 1 else 0)%nat;
  inv_nodup : NoDup (stopped g);
  inv_untriggered : triggered g = false -> stopped g = [] /\ exceededSnapshot g = None;
  inv_triggered : triggered g = true ->
    (forall id, id ∈ live g -> id ∈ stopped g)
    /\ exists s, exceededSnapshot g = Some s /\ 0 < capUsd (snap_cap s) /\ capUsd (snap_cap s) <= spentUsd s;
}.

Lemma resolved_positive i cap : resolveRunCostCap i = Some cap -> 0 < capUsd cap.
Proof.
  unfold resolveRunCostCap, first_cap. intros H. repeat case_match; simplify_eq/=; by eapply parse_cap_bounds.
Qed.

Lemma new_guard_inv i : guard_inv (new_guard i).
Proof.
  constructor; simpl; try done; try constructor; [apply resolved_positive|].
  intros e He. by apply elem_of_nil in He.
Qed.

(** A step that leaves the cap and the log alone, keeps the caps of the evaluations
    and only shrinks the live set. *)
Lemma inv_same_log g g' :
  guard_inv g -> resolvedCap g' = resolvedCap g -> Forall (fun e => 0 < capUsd (evaluation_cap e)) (evaluations g') -> begun g' = begun g ->
  triggered g' = triggered g -> stopped g' = stopped g -> exceeded_calls g' = exceeded_calls g ->
  exceededSnapshot g' = exceededSnapshot g -> NoDup (live g') -> (forall id, id ∈ live g' -> id ∈ live g) -> guard_inv g'.
Proof.
  intros [] H1 H2 H3 H4 H5 H6 H7 H8 H9. constructor; rewrite ?H1, ?H3, ?H4, ?H5, ?H6, ?H7; try done.
  - auto.
  - intros Ht. destruct (inv_triggered0 Ht) as [Ha Hb]. split; [auto|done].
Qed.
Lemma inv_noted read g : guard_inv g -> guard_inv (note_recorded read g).
Proof. intros []. destruct read; by constructor. Qed.
(** One evaluation goes on under its cap. *)
Lemma inv_went_on g i e e' : guard_inv g -> evaluations g !! i = Some e -> evaluation_cap e' = evaluation_cap e ->
  Forall (fun e => 0 < capUsd (evaluation_cap e)) (<[i := e']> (evaluations g)).
Proof.
  intros [] Hi He. apply Forall_insert; [done|]. rewrite He. rewrite Forall_lookup in inv_evaluations0. by apply (inv_evaluations0 i).
Qed.

Lemma begin_inv model g : guard_inv g -> guard_inv (snd (beginExecution model g)).
Proof.
  intros Hg. unfold beginExecution. destruct (triggered g) eqn:Et; [done|]. destruct (resolvedCap g) eqn:Er; [|done].
  destruct g as [inp rcap tal liv fin fing prior last trig snap evals stp calls beg]. destruct Hg. simpl in *. subst. constructor; unfold constant; simpl; try done.
  - apply NoDup_app. split_and!; [done| |apply NoDup_singleton]. intros x Hx Hb. apply inv_live_begun0 in Hx. apply list_elem_of_singleton in Hb. lia.
  - intros id [Hi|Hi]%elem_of_app; [apply inv_live_begun0 in Hi; lia|]. apply list_elem_of_singleton in Hi as ->. lia.
Qed.
Lemma finish_inv id read g : guard_inv g -> guard_inv (finishExecution id read g).
Proof.
  intros Hg. unfold finishExecution. destruct (finishing g !! id) as [[fallback|]|]; try done.
  assert (Hn : guard_inv (note_recorded read { g with finishing := <[id := None]> (finishing g) })) by (apply inv_noted; by apply (inv_same_log g); try apply Hg).
  revert Hn. generalize (note_recorded read { g with finishing := <[id := None]> (finishing g) }). intros g1 Hn.
  case_bool_decide; [|done]. pose proof Hn as []. apply (inv_same_log g1); try done; simpl.
  - by apply NoDup_filter.
  - by intros x [_ Hx]%list_elem_of_filter.
Qed.
Lemma decide_inv i g : guard_inv g -> guard_inv (evaluate_decide i g).
Proof.
  intros Hg. unfold evaluate_decide. destruct (evaluations g !! i) as [[|cap r fins lives [|] asked prices]|] eqn:Ei; try done.
  cbv zeta. generalize (spent { g with evaluations := delete i (evaluations g) } r fins lives prices). intros total.
  destruct g as [inp rcap tal liv fin fing prior last trig snap evals stp calls beg]. destruct Hg. simpl in *.
  assert (Hev : Forall (fun e => 0 < capUsd (evaluation_cap e)) (delete i evals)) by by apply Forall_delete.
  assert (Hcap : 0 < capUsd cap) by (rewrite Forall_lookup in inv_evaluations0; apply (inv_evaluations0 i _ Ei)).
  destruct trig; simpl; [by constructor|]. destruct (inv_untriggered0 eq_refl) as [-> Hsn].
  destruct (Qle_bool (capUsd cap) _) eqn:Eq; simpl; [|by constructor].
  constructor; unfold constant; simpl; try done.
  - by rewrite inv_calls0.
  - intros _. split; [done|]. eexists. split_and!; [done|done|by apply Qle_bool_true].
Qed.
Lemma run_admitted_inv read g : guard_inv g -> guard_inv (admit_run read g).
Proof.
  intros Hg. unfold admit_run. pose proof (inv_noted (Some read) g Hg) as Hn. revert Hn. generalize (note_recorded (Some read) g). intros g1 Hn.
  destruct (resolvedCap g1) eqn:Er; [|done]. destruct (triggered g1) eqn:Et; [done|]. pose proof Hn as []. apply (inv_same_log g1); try done; simpl.
  apply Forall_app. split; [done|]. apply Forall_singleton. by apply inv_cap0.
Qed.
Lemma step_inv ev g : guard_inv g -> guard_inv (guard_step ev g).
Proof.
  intros Hg. pose proof Hg as []. destruct ev as [read|value|model|id line|id|id read| | |read|i read|i|i|i]; simpl.
  - unfold start. destruct (resolvedCap g) eqn:Er, read; try done; by apply (inv_same_log g).
  - constructor; simpl; try done. apply resolved_positive.
  - by apply begin_inv.
  - by apply (inv_same_log g).
  - unfold finish_start. destruct (_ && _); [by apply (inv_same_log g)|done].
  - by apply finish_inv.
  - apply (inv_same_log g); try done; simpl; [constructor|]. intros e He. by apply elem_of_nil in He.
  - unfold evaluate_start. destruct (resolvedCap g) eqn:Er; [|done]. destruct (triggered g) eqn:Et; [done|]. apply (inv_same_log g); try done; simpl.
    apply Forall_app. split; [done|]. apply Forall_singleton. by apply inv_cap0.
  - by apply run_admitted_inv.
  - unfold evaluate_capture. destruct (evaluations g !! i) as [[cap fallback|]|] eqn:Ei; try done. apply inv_noted. apply (inv_same_log g); try done. by eapply inv_went_on.
  - unfold evaluate_ask. destruct (evaluations g !! i) as [[|cap r fins lives [|id todo] [|] prices]|] eqn:Ei; try done. apply (inv_same_log g); try done. by eapply inv_went_on.
  - unfold evaluate_answer. destruct (evaluations g !! i) as [[|cap r fins lives [|id todo] [|] prices]|] eqn:Ei; try done. apply (inv_same_log g); try done. by eapply inv_went_on.
  - by apply decide_inv.
Qed.

Lemma run_from_inv evs g : guard_inv g -> guard_inv (foldl (fun g ev => guard_step ev g) g evs).
Proof. revert g; induction evs as [|ev evs IH]; intros g Hg; [done|]. simpl. by apply IH, step_inv. Qed.

(** C38. The cap is enforced exactly once: in every interleaving of executions, usage,
    workflow changes and checks, the run is recorded as exceeded at most once, with a
    snapshot that reached a positive cap; each execution is told to stop at most once
    and only then; and once the cap is reached every execution still live was told
    to stop and no new one begins. *)
Theorem cap_is_enforced_once evs i :
  let g := guard_run evs i in
  exceeded_calls g = (if triggered g then 1 else 0)%nat /\ NoDup (stopped g)
  /\ (triggered g = false -> stopped g = [])
  /\ (triggered g = true ->
      (forall id, id ∈ live g -> id ∈ stopped g)
      /\ (forall model, beginExecution model g = (Refused, g))
      /\ exists s, exceededSnapshot g = Some s /\ 0 < capUsd (snap_cap s) /\ capUsd (snap_cap s) <= spentUsd s).
Proof.
  intros g. assert (Hg : guard_inv g) by apply run_from_inv, new_guard_inv. clearbody g. destruct Hg.
  split_and!; [done|done| |].
  - intros Ht. by apply inv_untriggered0.
  - intros Ht. destruct (inv_triggered0 Ht) as [H1 H2]. split_and!; [done| |done].
    intros model. unfold beginExecution. by rewrite Ht.
Qed.

Definition same_stop (g g' : RunCostGuard) : Prop :=
  triggered g' = triggered g /\ exceededSnapshot g' = exceededSnapshot g /\ stopped g' = stopped g
  /\ exceeded_calls g' = exceeded_calls g /\ begun g' = begun g.

Lemma step_same_stop ev g : triggered g = true -> same_stop g (guard_step ev g).
Proof.
  intros Ht. unfold same_stop. destruct ev as [read|value|model|id line|id|id read| | |read|i read|i|i|i]; simpl; try done.
  - unfold start. by destruct (resolvedCap g), read.
  - unfold beginExecution. by rewrite Ht.
  - unfold finish_start. by destruct (_ && _).
  - unfold finishExecution. destruct (finishing g !! id) as [[]|]; try done. by destruct read; cbn; destruct (bool_decide _).
  - unfold evaluate_start. rewrite Ht. by destruct (resolvedCap g).
  - unfold admit_run. cbn. destruct g; simpl in *. subst. by case_match.
  - unfold evaluate_capture. destruct (evaluations g !! i) as [[]|]; try done. by destruct read.
  - unfold evaluate_ask. by destruct (evaluations g !! i) as [[|? ? ? ? [|] [|] ?]|].
  - unfold evaluate_answer. by destruct (evaluations g !! i) as [[|? ? ? ? [|] [|] ?]|].
  - unfold evaluate_decide. destruct (evaluations g !! i) as [[|? ? ? ? [|] ? ?]|]; try done. cbv zeta. cbn -[spent]. by destruct g; simpl in *; subst.
Qed.

(** A run stopped at its cap stays stopped: whatever happens later (a raised
    workflow cap, finished executions, further checks), nothing is stopped or
    reported again and no execution begins. *)
Theorem stopped_run_stays_stopped evs evs' i :
  triggered (guard_run evs i) = true -> same_stop (guard_run evs i) (guard_run (evs ++ evs') i).
Proof.
  unfold RunCost.guard_run. rewrite foldl_app. set (g := foldl _ _ evs). clearbody g.
  revert g. induction evs' as [|ev evs' IH]; intros g Ht; [done|]. simpl.
  pose proof (step_same_stop ev g Ht) as (H1 & H2 & H3 & H4 & H5).
  destruct (IH (guard_step ev g)) as (K1 & K2 & K3 & K4 & K5); [congruence|].
  split_and!; congruence.
Qed.
End Guard.

(** ** A concrete run

    Two executions, one of which reports its session, under a cap of two dollars. *)

Definition inputs : RunCostCapInputs := CapInputs (Some (JNum 0)) (Some (JStr " 2.00 ")) (Some (JNum 5)).

Lemma cap_resolution_witness :
  exists cap, resolveRunCostCap inputs = Some cap /\ cap_source cap = workflow
  /\ 0 < capUsd cap /\ capUsd cap <= MAX_RUN_COST_CAP_USD
  /\ match cap_source cap with
     | override => parseCostCapUsd (in_override inputs) = Some (capUsd cap)
     | workflow => parseCostCapUsd (in_override inputs) = None /\ parseCostCapUsd (in_workflow inputs) = Some (capUsd cap)
     | instance_default =>
         parseCostCapUsd (in_override inputs) = None /\ parseCostCapUsd (in_workflow inputs) = None
         /\ parseCostCapUsd (in_instanceDefault inputs) = Some (capUsd cap)
     end.
Proof.
  eexists. split; [vm_compute; reflexivity|]. split; [reflexivity|].
  refine (cap_resolution inputs _ _). vm_compute. reflexivity.
Defined.

(** An execution of session [s] that finished when nothing was recorded for it. *)
Definition finished_in (s : string) (total : Q) : FinishedExecution :=
  Finished (Tally None (Some s) 0 [] ZERO) (Spend total (Some ∅)).

Definition two_finished : list (FinishedExecution * Q) := [(finished_in "a" 1, 3); (finished_in "b" 1, 2)].
(** Only session a's row is recorded so far. *)
Definition recorded_a : RecordedSpend := Spend 4 (Some {[ "a"%string := 3 ]}).

Lemma recorded_dollars_cover_once_witness :
  unrecordedUsd recorded_a two_finished == 2
  /\ let matched := matched_sessions recorded_a (map fst two_finished) in
  Forall2 (fun f c => 0 <= c <= snd f /\ c <= sinceFinish matched recorded_a (fst f)) two_finished
    (covered_by_rows recorded_a two_finished)
  /\ (forall k B, 0 <= B ->
      (forall f, f ∈ map fst two_finished -> keyOf matched f = k -> sinceFinish matched recorded_a f <= B) ->
      group_covered matched k two_finished (covered_by_rows recorded_a two_finished) <= B)
  /\ 0 <= unrecordedUsd recorded_a two_finished <= sumQ (map snd two_finished).
Proof.
  split; [vm_compute; reflexivity|]. apply (recorded_dollars_cover_once recorded_a two_finished).
  repeat constructor; vm_compute; discriminate.
Defined.

Lemma session_rows_cover_exactly_witness :
  Forall2 (fun f c => c == Math_min (snd f) (row_growth recorded_a (fst f))) two_finished
    (covered_by_rows recorded_a two_finished).
Proof.
  apply (session_rows_cover_exactly recorded_a two_finished ["a"; "b"]%string); try done.
  - repeat constructor; rewrite ?elem_of_cons, ?elem_of_nil; naive_solver.
  - intros s. rewrite !elem_of_cons, elem_of_nil. naive_solver.
Defined.

Definition price_output (model : string) (t : RunTokenTotals) : Q := outputTokens t / 1000.

(** One execution streams 2500 output tokens and a check prices them. *)
Definition usage_line : json :=
  JObj [("message", JObj [("id", JStr "msg_1"); ("model", JStr "opus");
                          ("usage", JObj [("output_tokens", JNum 2500)])])]%string.
Definition demo_events : list guard_event :=
  [Start (Some (Spend 0 None)); Begin None; Observe 0 (Some usage_line); EvaluateStart;
   EvaluateCapture 0 (Some (Spend 0 None)); EvaluateAsk 0; EvaluateAnswer 0; EvaluateDecide 0].

(** A line that arrives while another execution is priced still counts. *)
Example late_line_counts :
  exceededSnapshot (guard_run price_output None
    [Start (Some (Spend 0 None)); Begin None; Begin None; EvaluateStart; EvaluateCapture 0 (Some (Spend 0 None)); EvaluateAsk 0;
     Observe 1 (Some usage_line); EvaluateAnswer 0; EvaluateAsk 0; EvaluateAnswer 0; EvaluateDecide 0] inputs) <> None.
Proof. by vm_compute. Qed.

Lemma stopped_run_stays_stopped_witness :
  triggered (guard_run price_output None demo_events inputs) = true
  /\ same_stop (guard_run price_output None demo_events inputs)
       (guard_run price_output None (demo_events ++ [SetWorkflowCap (Some (JNum 50)); Begin None]) inputs).
Proof.
  split; [vm_compute; reflexivity|].
  refine (stopped_run_stays_stopped price_output None demo_events _ inputs _). vm_compute. reflexivity.
Defined.
