(* ===== verification/AutoMerge.v ===== *)
(** * The auto-merge policy

    packages/core/src/workflow/autoMergePolicy.ts: validation of the policy, the
    protected-path globs compiled to a state machine and simulated, and the decision
    whether auto-merge is armed. Paths and patterns are Latin-1 strings; a character
    class is parsed as the source of the regular expression it becomes. *)

From S2P Require Import Prelude JsString Json.

Open Scope Z_scope.
Open Scope list_scope.

(** ** One-character tests *)

Definition slash : ascii := char 47.
Definition backslash : ascii := char 92.

(** [Canonicalize] of the [i] flag, on Latin-1: the upper case, where it is Latin-1. *)
Definition canon (c : ascii) : ascii :=
  let n := code c in
  if ((97 <=? n) && (n <=? 122) || (224 <=? n) && (n <=? 254) && negb (n =? 247))%Z
  then char (Ascii.N_of_ascii c - 32) else c.

Definition CharTest := ascii -> bool.
Definition anyChar : CharTest := fun _ => true.
Definition notSlash : CharTest := fun c => negb (bool_decide (c = slash)).
Definition isSlash : CharTest := fun c => bool_decide (c = slash).
(** [singleCharTest(escapeRegExp(char))] *)
Definition literal (x : ascii) : CharTest := fun c => bool_decide (canon c = canon x).

(** The ranges of a class body; [None] where a range is reversed. *)
Fixpoint class_ranges (body : list ascii) : option (list (ascii * ascii)) :=
  match body with
  | [] => Some []
  | a :: rest =>
      match rest with
      | d :: b :: rest' =>
          if bool_decide (d = char 45)
          then if code b <? code a then None else cons (a, b) <$> class_ranges rest'
          else cons (a, a) <$> class_ranges rest
      | _ => cons (a, a) <$> class_ranges rest
      end
  end.

(** A class contains a character when it has a member with the same canonical form. *)
Definition in_class (ranges : list (ascii * ascii)) : CharTest := fun c =>
  existsb (fun r => existsb (fun m => (code (fst r) <=? code m) && (code m <=? code (snd r)))
                      [c; canon c; lower_char c]) ranges.

(** [singleCharTest] of [[body]], negated classes never match a slash. *)
Definition class_test (body : list ascii) : option CharTest :=
  match body with
  | c :: rest =>
      if bool_decide (c = char 33) || bool_decide (c = char 94)
      then (fun rs ch => negb (in_class rs ch)) <$> class_ranges (slash :: rest)
      else in_class <$> class_ranges body
  | [] => in_class <$> class_ranges []
  end.

(** ** Patterns *)

Fixpoint strip_dot_slash (fuel : nat) (s : string) : string :=
  match fuel with
  | O => s
  | S fuel => if starts_with "./" s then strip_dot_slash fuel (drop 2 s) else s
  end.
Fixpoint strip_slashes (s : string) : string :=
  match s with String c s' => if bool_decide (c = slash) then strip_slashes s' else s | EmptyString => s end.
(** [replace(/\/{2,}/g, '/')] *)
Fixpoint collapse_slashes (s : string) : string :=
  match s with
  | EmptyString => s
  | String c s' =>
      match s' with
      | String d _ => if bool_decide (c = slash) && bool_decide (d = slash) then collapse_slashes s'
                      else String c (collapse_slashes s')
      | EmptyString => s
      end
  end.

Definition normalizePath (path : string) : string :=
  let p := map_string (fun c => if bool_decide (c = backslash) then slash else c) (trim path) in
  collapse_slashes (strip_slashes (strip_dot_slash (String.length p) p)).

Fixpoint trimTrailingSlashes (path : list ascii) : list ascii :=
  match path with
  | [] => []
  | c :: path =>
      match trimTrailingSlashes path with
      | [] => if bool_decide (c = slash) then [] else [c]
      | path' => c :: path'
      end
  end.

(** What one iteration of the compiler's loop adds: a test to consume, a repetition,
    or the directories of a leading or inner [**] segment. *)
Inductive piece := One (t : CharTest) | Repeat (t : CharTest) | Directories.

(** The index of the first [x] at or after position [n] of the rest. *)
Fixpoint index_from (x : ascii) (l : list ascii) : option nat :=
  match l with
  | [] => None
  | c :: l => if bool_decide (c = x) then Some O else S <$> index_from x l
  end.

(** One iteration at [glob = before ++ c :: rest]: the piece and how many characters
    after [c] it also takes. [previous] is [glob[index - 1]]. *)
Definition next_piece (previous : option ascii) (c : ascii) (rest : list ascii) : option (piece * nat) :=
  if bool_decide (c = char 42) then
    let doubleStar := bool_decide (rest !! 0%nat = Some (char 42)) in
    let atSegmentStart := match previous with None => true | Some p => bool_decide (p = slash) end in
    let followedBySlash := bool_decide (rest !! 1%nat = Some slash) in
    let wholeSegment := doubleStar && atSegmentStart && (followedBySlash || bool_decide (length rest = 1%nat)) in
    if wholeSegment && followedBySlash then Some (Directories, 2%nat)
    else Some (Repeat (if wholeSegment then anyChar else notSlash), if doubleStar then 1%nat else 0%nat)
  else if bool_decide (c = char 63) then Some (One notSlash, 0%nat)
  else if bool_decide (c = char 91) then
    match index_from (char 93) (list.drop 1 rest) with
    | None => Some (One (literal (char 91)), 0%nat)
    | Some n => (fun t => (One t, S (S n))) <$> class_test (list.take (S n) rest)
    end
  else Some (One (literal c), 0%nat).

(** The pieces of a glob, [skip] characters of which are already taken. *)
Fixpoint pieces_from (previous : option ascii) (skip : nat) (glob : list ascii) : option (list piece) :=
  match glob with
  | [] => Some []
  | c :: rest =>
      match skip with
      | S skip => pieces_from (Some c) skip rest
      | O =>
          match next_piece previous c rest with
          | None => None
          | Some (p, n) => cons p <$> pieces_from (Some c) n rest
          end
      end
  end.

Definition glob_of (pattern : string) : list ascii := trimTrailingSlashes (chars (normalizePath pattern)).
Definition pieces (pattern : string) : option (list piece) := pieces_from None 0 (glob_of pattern).

(** ** The state machine *)

Record GlobState := State { epsilon : list nat; edges : list (CharTest * nat) }.
Definition no_edges : GlobState := State [] [].
Abbreviation states_t := (list GlobState).

Definition push_edges (es : list (CharTest * nat)) (s : GlobState) : GlobState := State (epsilon s) (edges s ++ es).
Definition push_epsilon (es : list nat) (s : GlobState) : GlobState := State (epsilon s ++ es) (edges s).

(** [current] and the states after a piece. *)
Definition add_piece (p : piece) (m : nat * states_t) : nat * states_t :=
  let '(current, states) := m in
  let next := length states in
  match p with
  | One t => (next, alter (push_edges [(t, next)]) current states ++ [no_edges])
  | Repeat t => (next, alter (push_epsilon [next]) current states ++ [State [] [(t, next)]])
  | Directories =>
      (S next, alter (push_epsilon [S next; next]) current states
                 ++ [State [] [(anyChar, next); (isSlash, S next)]; no_edges])
  end.

Record ProtectedPathMatcher := Matcher { m_states : states_t; m_accepting : list nat }.

Definition compile_pieces (ps : list piece) : ProtectedPathMatcher :=
  let '(current, states) := foldl (fun m p => add_piece p m) (0%nat, [no_edges]) ps in
  let descendants := length states in
  Matcher (alter (push_edges [(isSlash, descendants)]) current states ++ [State [] [(anyChar, descendants)]])
    [current; descendants].

Definition compileProtectedPathGlob (pattern : string) : option ProtectedPathMatcher :=
  compile_pieces <$> pieces pattern.

Definition state_at (states : states_t) (q : nat) : GlobState := default no_edges (states !! q).

(** The depth-first closure under epsilon edges; [fuel] bounds the pops. *)
Fixpoint closure_loop (fuel : nat) (states : states_t) (active : gset nat) (stack : list nat) : gset nat :=
  match fuel, stack with
  | S fuel, p :: stack =>
      let '(active, stack) :=
        foldl (fun (acc : gset nat * list nat) (next : nat) =>
                 let '(a, st) := acc in if bool_decide (next ∈ a) then (a, st) else ({[next]} ∪ a, next :: st))
          (active, stack) (epsilon (state_at states p)) in
      closure_loop fuel states active stack
  | _, _ => active
  end.

Definition closure (states : states_t) (active : gset nat) : gset nat :=
  closure_loop (S (length states)) states active (elements active).

Definition targets (states : states_t) (c : ascii) (active : gset nat) : gset nat :=
  list_to_set (concat (map (fun q =>
    omap (fun e : CharTest * nat => if fst e c then Some (snd e) else None) (edges (state_at states q))) (elements active))).

Fixpoint simulate (states : states_t) (path : list ascii) (active : gset nat) : gset nat :=
  match path with
  | [] => active
  | c :: path => if bool_decide (active = ∅) then active
                 else simulate states path (closure states (targets states c active))
  end.

Definition test (m : ProtectedPathMatcher) (path : string) : bool :=
  existsb (fun q => bool_decide (q ∈ simulate (m_states m) (chars path) (closure (m_states m) {[0%nat]}))) (m_accepting m).

(** ** The decision *)

Definition ALWAYS_PROTECTED_PATHS : list string := [".propr"%string].
Definition AUTO_MERGE_METHODS : list string := ["merge"; "squash"; "rebase"]%string.
Definition AUTO_MERGE_MAX_PROTECTED_PATHS : nat := 200.

Inductive ConfigError :=
  | not_a_mapping | unknown_field (key : string) | enabled_not_boolean | unknown_method | paths_not_a_list
  | empty_pattern (index : nat) | parent_segment (index : nat) | invalid_glob (index : nat).

Definition includes_nul (s : string) : bool := includes_char (char 0) s.

Definition pattern_error (index : nat) (v : json) : option ConfigError :=
  match v with
  | JStr s =>
      if is_blank s || includes_nul s then Some (empty_pattern index)
      else if bool_decide (".."%string ∈ split_char slash (normalizePath s)) then Some (parent_segment index)
      else match compileProtectedPathGlob s with Some _ => None | None => Some (invalid_glob index) end
  | _ => Some (empty_pattern index)
  end.

Fixpoint patterns_error (index : nat) (l : list json) : option ConfigError :=
  match l with
  | [] => None
  | v :: l => match pattern_error index v with Some e => Some e | None => patterns_error (S index) l end
  end.

(** The first error, or none. *)
Definition validateAutoMergeConfig (value : json) : option ConfigError :=
  match value with
  | JObj record =>
      match find (fun f => negb (bool_decide (fst f ∈ ["enabled"; "method"; "protected_paths"]%string))) record with
      | Some (key, _) => Some (unknown_field key)
      | None =>
          if match field "enabled" record with None | Some (JBool _) => false | _ => true end
          then Some enabled_not_boolean
          else if match field "method" record with
                  | None => false
                  | Some (JStr m) => negb (bool_decide (m ∈ AUTO_MERGE_METHODS))
                  | _ => true
                  end then Some unknown_method
          else match field "protected_paths" record with
               | None => None
               | Some (JArr l) => if bool_decide (length l <= AUTO_MERGE_MAX_PROTECTED_PATHS)%nat
                                  then patterns_error 0 l else Some paths_not_a_list
               | Some _ => Some paths_not_a_list
               end
      end
  | _ => Some not_a_mapping
  end.

Definition json_strings (l : list json) : list string :=
  omap (fun v => match v with JStr s => Some s | _ => None end) l.

Definition protected_paths (config : json) : list string :=
  match config with
  | JObj r => match field "protected_paths" r with Some (JArr l) => json_strings l | _ => [] end
  | _ => []
  end.

(** The matched paths, each once, in order; [None] where compiling a glob throws. *)
Definition findProtectedPaths (changedFiles protectedPaths : list string) : option (list string) :=
  matchers ← mapM compileProtectedPathGlob (ALWAYS_PROTECTED_PATHS ++ protectedPaths);
  Some (sort_by code_le (remove_dups (filter (fun file => existsb (fun m => test m file) matchers = true) changedFiles))).

Inductive AutoMergePolicyInput := policy_valid (config : option json) | policy_invalid (error : string).

Inductive AutoMergeDecision :=
  | armed (method : option string)
  | skipped_policy_error (error : string)
  | skipped_policy_invalid (error : ConfigError)
  | skipped_disabled | skipped_diff_unavailable | skipped_empty_diff
  | skipped_protected_path (matchedPaths : list string)
  | decision_threw.

(** [policy.config ?? {}] *)
Definition effective_config (config : option json) : json :=
  match config with None | Some JNull => JObj [] | Some config => config end.

(** [changedFiles] is [None] where the diff could not be fetched. *)
Definition decideAutoMerge (policy : AutoMergePolicyInput) (changedFiles : option (list string)) : AutoMergeDecision :=
  match policy with
  | policy_invalid error => skipped_policy_error error
  | policy_valid c =>
      let config := effective_config c in
      match validateAutoMergeConfig config with
      | Some e => skipped_policy_invalid e
      | None =>
          let fields := match config with JObj r => r | _ => [] end in
          if match field "enabled" fields with Some (JBool false) => true | _ => false end then skipped_disabled
          else
            match changedFiles with
            | None => skipped_diff_unavailable
            | Some l =>
                match filter (fun file => file <> ""%string) l with
                | [] => skipped_empty_diff
                | files =>
                    match findProtectedPaths files (protected_paths config) with
                    | None => decision_threw
                    | Some [] => armed (match field "method" fields with Some (JStr m) => Some m | _ => None end)
                    | Some matched => skipped_protected_path matched
                    end
                end
            end
      end
  end.
