(* ===== verification/AutoMergeFacts.v ===== *)
(** * Correctness of the protected-path matcher and of the decision

    The language of a glob, the state machine that recognizes it, and what an armed
    auto-merge guarantees. *)

From S2P Require Import Prelude JsString Json AutoMerge.

Open Scope Z_scope.
Open Scope list_scope.

(** ** The language of a glob *)

Definition accepts_all (t : CharTest) (s : list ascii) : Prop := Forall (fun c => t c = true) s.

Definition piece_matches (p : piece) (s : list ascii) : Prop :=
  match p with
  | One t => exists c, s = [c] /\ t c = true
  | Repeat t => accepts_all t s
  | Directories => s = [] \/ exists dirs, s = dirs ++ [slash]
  end.

Fixpoint matches (ps : list piece) (s : list ascii) : Prop :=
  match ps with
  | [] => s = []
  | p :: ps => exists s1 s2, s = s1 ++ s2 /\ piece_matches p s1 /\ matches ps s2
  end.

(** A path is protected when it matches or lies below a path that matches. *)
Definition protects (ps : list piece) (path : list ascii) : Prop :=
  matches ps path \/ exists dir below, path = dir ++ slash :: below /\ matches ps dir.

Lemma matches_app ps qs s :
  matches (ps ++ qs) s <-> exists s1 s2, s = s1 ++ s2 /\ matches ps s1 /\ matches qs s2.
Proof.
  revert s; induction ps as [|p ps IH]; intros s; simpl.
  - split; [intros H; by exists [], s|]. intros (s1 & s2 & -> & -> & H). done.
  - split.
    + intros (s1 & s2 & -> & H1 & H2). apply IH in H2 as (s3 & s4 & -> & H3 & H4).
      exists (s1 ++ s3), s4. rewrite app_assoc. split_and!; [done|by exists s1, s3|done].
    + intros (s12 & s3 & -> & (s1 & s2 & -> & H1 & H2) & H3). exists s1, (s2 ++ s3).
      rewrite app_assoc. split_and!; [done..|]. apply IH. eauto.
Qed.

Lemma matches_one p s : matches [p] s <-> piece_matches p s.
Proof.
  simpl. split; [intros (s1 & s2 & -> & H & ->); by rewrite app_nil_r|].
  intros H. exists s, []. by rewrite app_nil_r.
Qed.

(** ** Runs of a state machine *)

Inductive reach (states : states_t) : nat -> list ascii -> Prop :=
  | reach_start : reach states 0 []
  | reach_epsilon p q s : reach states p s -> q ∈ epsilon (state_at states p) -> reach states q s
  | reach_edge p q s t c : reach states p s -> (t, q) ∈ edges (state_at states p) -> t c = true ->
      reach states q (s ++ [c]).

(** Every transition leads to a state. *)
Definition closed (states : states_t) : Prop :=
  forall p, (forall q, q ∈ epsilon (state_at states p) -> (q < length states)%nat)
    /\ (forall t q, (t, q) ∈ edges (state_at states p) -> (q < length states)%nat).

(** [states'] extends [states]: old states gain only transitions to new states. *)
Definition extends (states states' : states_t) : Prop :=
  forall p, (p < length states)%nat ->
    (forall q, (q < length states)%nat -> q ∈ epsilon (state_at states' p) <-> q ∈ epsilon (state_at states p))
    /\ (forall t q, (q < length states)%nat -> (t, q) ∈ edges (state_at states' p) <-> (t, q) ∈ edges (state_at states p)).

(** New states have no transition to old ones. *)
Definition forward (states states' : states_t) : Prop :=
  forall p, (length states <= p)%nat ->
    (forall q, q ∈ epsilon (state_at states' p) -> (length states <= q)%nat)
    /\ (forall t q, (t, q) ∈ edges (state_at states' p) -> (length states <= q)%nat).

Lemma state_at_old states p : state_at states p <> no_edges -> (p < length states)%nat.
Proof. unfold state_at. intros H. destruct (states !! p) eqn:E; [by eapply lookup_lt_Some|done]. Qed.

Lemma reach_old states states' q s :
  closed states -> extends states states' -> forward states states' -> (q < length states)%nat ->
  reach states' q s <-> reach states q s.
Proof.
  intros Hc He Hf Hq. split.
  - intros H. induction H as [|p q s Hr IH Hin|p q s t c Hr IH Hin Ht]; [constructor| |].
    + destruct (decide (p < length states)%nat) as [Hp|Hp]; [|apply (Hf p) in Hin; lia].
      eapply reach_epsilon; [by apply IH|]. by apply (He p Hp).
    + destruct (decide (p < length states)%nat) as [Hp|Hp]; [|apply (Hf p) in Hin; lia].
      eapply reach_edge; [by apply IH| |done]. by apply (He p Hp).
  - clear Hq. intros H. induction H as [|p q s Hr IH Hin|p q s t c Hr IH Hin Ht]; [constructor| |].
    all: assert (Hp : (p < length states)%nat) by
      (apply state_at_old; intros Heq; rewrite Heq in Hin; by apply elem_of_nil in Hin).
    + eapply reach_epsilon; [done|]. apply (He p Hp); [|done]. by apply (Hc p) in Hin.
    + eapply reach_edge; [done| |done]. apply (He p Hp); [|done]. by apply (Hc p) in Hin.
Qed.

(** How the states of an extended machine read. *)
Lemma state_at_extended f cur states new p :
  (cur < length states)%nat ->
  state_at (alter f cur states ++ new) p =
    if decide (p = cur) then f (state_at states cur)
    else if decide (p < length states)%nat then state_at states p
    else default no_edges (new !! (p - length states)%nat).
Proof.
  intros Hc. unfold state_at. case_decide as E1; [subst|case_decide as E2].
  - rewrite lookup_app_l by by rewrite length_alter. rewrite list_lookup_alter_eq.
    destruct (lookup_lt_is_Some_2 states cur Hc) as [x Hx]. by rewrite Hx.
  - rewrite lookup_app_l by by rewrite length_alter. by rewrite list_lookup_alter_ne.
  - rewrite lookup_app_r by (rewrite length_alter; lia). by rewrite length_alter.
Qed.

(** ** The machine of a glob *)

(** The machine reaches [cur] with exactly the strings that match [ps]. *)
Definition built (ps : list piece) (m : nat * list GlobState) : Prop :=
  let '(cur, states) := m in
  closed states /\ (cur < length states)%nat /\ forall s, reach states cur s <-> matches ps s.

(** [explore Hin] splits a transition of an extended machine into its cases. *)
Ltac explore Hin :=
  rewrite state_at_extended in Hin by done;
  repeat (case_decide; simplify_eq/=);
  rewrite ?elem_of_app, ?elem_of_cons, ?elem_of_nil in Hin.

(** An extension by new states that lead only to new states. *)
Lemma extension_ok f cur states new es ees :
  closed states -> (cur < length states)%nat ->
  (forall s, epsilon (f s) = epsilon s ++ es) -> (forall s, edges (f s) = edges s ++ ees) ->
  Forall (fun q => (length states <= q < length states + length new)%nat) es ->
  Forall (fun e => (length states <= snd e < length states + length new)%nat) ees ->
  Forall (fun st => Forall (fun q => (length states <= q < length states + length new)%nat) (epsilon st)
     /\ Forall (fun e => (length states <= snd e < length states + length new)%nat) (edges st)) new ->
  let states' := alter f cur states ++ new in
  closed states' /\ extends states states' /\ forward states states'
  /\ length states' = (length states + length new)%nat.
Proof.
  intros Hc Hcur He Hee Hes Hees Hnew states'. rewrite !Forall_forall in *.
  assert (Hlen : length states' = (length states + length new)%nat) by (unfold states'; by rewrite length_app, length_alter).
  assert (Hn : forall p, default no_edges (new !! p) ∈ new \/ default no_edges (new !! p) = no_edges).
  { intros p. destruct (new !! p) eqn:E; [left; by eapply list_elem_of_lookup_2|by right]. }
  split_and!; [|..|done].
  - intros p. rewrite Hlen. unfold states'. rewrite state_at_extended by done.
    repeat case_decide; [subst; rewrite He, Hee|..].
    + split; [intros q [Hq|Hq]%elem_of_app|intros t q [Hq|Hq]%elem_of_app].
      * apply (Hc cur) in Hq. lia.
      * apply Hes in Hq. lia.
      * apply (Hc cur) in Hq. lia.
      * apply (Hees (t, q)) in Hq. simpl in Hq. lia.
    + split; [intros q Hq|intros t q Hq]; apply (Hc p) in Hq; lia.
    + destruct (Hn (p - length states)%nat) as [Hin|Heq]; [|rewrite Heq; split; intros *; by intros ?%elem_of_nil].
      apply Hnew in Hin as [H1 H2]. rewrite Forall_forall in H1; rewrite Forall_forall in H2. split; [intros q Hq; apply H1 in Hq; lia|].
      intros t q Hq. apply (H2 (t, q)) in Hq. simpl in Hq. lia.
  - intros p Hp. unfold states'. rewrite state_at_extended by done. case_decide; [subst|by rewrite decide_True by done].
    rewrite He, Hee. split; [intros q Hq|intros t q Hq]; rewrite elem_of_app; (split; [|by left]).
    + intros [?|Hin]; [done|]. apply Hes in Hin. lia.
    + intros [?|Hin]; [done|]. apply (Hees (t, q)) in Hin. simpl in Hin. lia.
  - intros p Hp. unfold states'. rewrite state_at_extended by done. rewrite decide_False by lia. rewrite decide_False by lia.
    destruct (Hn (p - length states)%nat) as [Hin|Heq]; [|rewrite Heq; split; intros *; by intros ?%elem_of_nil].
    apply Hnew in Hin as [H1 H2]. rewrite Forall_forall in H1; rewrite Forall_forall in H2. split; [intros q Hq; apply H1 in Hq; lia|].
    intros t q Hq. apply (H2 (t, q)) in Hq. simpl in Hq. lia.
Qed.

Lemma closed_eps states p q : closed states -> q ∈ epsilon (state_at states p) -> (q < length states)%nat.
Proof. intros H. apply H. Qed.
Lemma closed_edge states p t q : closed states -> (t, q) ∈ edges (state_at states p) -> (q < length states)%nat.
Proof. intros H. apply H. Qed.

(** Transitions of old states lead to old states: they cannot enter a new one. *)
Ltac old_only :=
  match goal with
  | Hc : closed ?st, H : ?q ∈ epsilon (state_at ?st _) |- _ => apply (closed_eps _ _ _ Hc) in H; exfalso; lia
  | Hc : closed ?st, H : (_, ?q) ∈ edges (state_at ?st _) |- _ => apply (closed_edge _ _ _ _ Hc) in H; exfalso; lia
  end.

(** The only new state of a one-piece machine. *)
Lemma singleton_state x k : default no_edges ([x] !! k) = if decide (k = 0%nat) then x else no_edges.
Proof. by destruct k. Qed.

Lemma built_one ps t cur states : built ps (cur, states) -> built (ps ++ [One t]) (add_piece (One t) (cur, states)).
Proof.
  intros (Hc & Hcur & Hr). simpl. set (n := length states).
  destruct (extension_ok (push_edges [(t, n)]) cur states [no_edges] [] [(t, n)]) as (Hc' & He & Hf & Hl); try done.
  { intros s. simpl. by rewrite app_nil_r. }
  { repeat constructor; simpl; lia. }
  { repeat constructor. }
  split_and!; [done|rewrite Hl; simpl; lia|]. intros s. rewrite matches_app. split.
  - intros H. inversion H as [|p q s' Hp Hin|p q s' t' c Hp Hin Ht]; subst; [lia| |].
    + explore Hin; try old_only. rewrite singleton_state in Hin. case_decide; by apply elem_of_nil in Hin.
    + explore Hin; [|old_only|rewrite singleton_state in Hin; case_decide; by apply elem_of_nil in Hin].
      destruct Hin as [Hin|[Hin|[]]]; [old_only|]. simplify_eq. exists s', [c].
      split_and!; [done| |apply (proj2 (matches_one (One t) [c])); by exists c]. apply Hr. by apply (reach_old _ _ _ _ Hc He Hf Hcur).
  - intros (s1 & s2 & -> & H1 & (c & -> & Ht)%matches_one). eapply reach_edge; [|..|done].
    + apply (reach_old _ _ _ _ Hc He Hf Hcur). by apply Hr.
    + rewrite state_at_extended by done. rewrite decide_True by done. simpl. apply elem_of_app. right. by left.
Qed.

Lemma accepts_all_snoc t s c : accepts_all t (s ++ [c]) <-> accepts_all t s /\ t c = true.
Proof. unfold accepts_all. rewrite Forall_app, Forall_singleton. done. Qed.

Lemma built_repeat ps t cur states : built ps (cur, states) -> built (ps ++ [Repeat t]) (add_piece (Repeat t) (cur, states)).
Proof.
  intros (Hc & Hcur & Hr). simpl. set (n := length states).
  destruct (extension_ok (push_epsilon [n]) cur states [State [] [(t, n)]] [n] []) as (Hc' & He & Hf & Hl); try done.
  { intros s. simpl. by rewrite app_nil_r. }
  { repeat constructor; simpl; lia. }
  { repeat constructor; simpl; lia. }
  set (states' := alter _ _ _ ++ _) in *.
  split_and!; [done|rewrite Hl; simpl; lia|]. intros s. rewrite matches_app. split.
  - enough (Hgen : forall q, reach states' q s -> q = n -> exists s1 s2, s = s1 ++ s2 /\ matches ps s1 /\ accepts_all t s2).
    { intros H. destruct (Hgen n H eq_refl) as (s1 & s2 & -> & H1 & H2). exists s1, s2. by rewrite matches_one. }
    intros q H. induction H as [|p q s' Hp IH Hin|p q s' t' c Hp IH Hin Ht]; [lia|intros ->|intros ->].
    + clear IH. unfold states' in Hin. explore Hin; [destruct Hin as [Hin|[_|[]]]; [old_only|]|old_only|].
      * exists s', []. rewrite app_nil_r. split_and!; [done| |constructor].
        apply Hr. by apply (reach_old _ _ _ _ Hc He Hf Hcur).
      * rewrite singleton_state in Hin. case_decide; by apply elem_of_nil in Hin.
    + unfold states' in Hin. explore Hin; [old_only|old_only|].
      rewrite singleton_state in Hin. case_decide as Hd; [|by apply elem_of_nil in Hin].
      apply list_elem_of_singleton in Hin. simplify_eq. assert (p = n) as -> by (unfold n in *; lia).
      destruct (IH eq_refl) as (s1 & s2 & -> & H1 & H2). exists s1, (s2 ++ [c]). rewrite app_assoc.
      split_and!; [done|done|]. by apply accepts_all_snoc.
  - intros (s1 & s2 & -> & H1 & H2%matches_one). simpl in H2. induction s2 as [|c s2 IH] using rev_ind.
    + rewrite app_nil_r. eapply (reach_epsilon _ cur); [apply (reach_old _ _ _ _ Hc He Hf Hcur); by apply Hr|].
      unfold states'. rewrite state_at_extended, decide_True by done. simpl. apply elem_of_app. right. by left.
    + apply accepts_all_snoc in H2 as [H2 Ht]. rewrite app_assoc. eapply (reach_edge _ n); [by apply IH| |done].
      unfold states'. rewrite state_at_extended by done. rewrite decide_False by lia. rewrite decide_False by lia.
      rewrite singleton_state, decide_True by lia. by left.
Qed.

Lemma pair_state x y k : default no_edges ([x; y] !! k) = if decide (k = 0%nat) then x else if decide (k = 1%nat) then y else no_edges.
Proof. by destruct k as [|[|k]]. Qed.

Lemma built_directories ps cur states :
  built ps (cur, states) -> built (ps ++ [Directories]) (add_piece Directories (cur, states)).
Proof.
  intros (Hc & Hcur & Hr). simpl. set (n := length states).
  set (dirs := State [] [(anyChar, n); (isSlash, S n)]).
  destruct (extension_ok (push_epsilon [S n; n]) cur states [dirs; no_edges] [S n; n] []) as (Hc' & He & Hf & Hl); try done.
  { intros s. simpl. by rewrite app_nil_r. }
  { repeat constructor; simpl; lia. }
  { repeat constructor; simpl; lia. }
  set (states' := alter _ _ _ ++ _) in *.
  assert (Hold : forall s, reach states' cur s <-> matches ps s) by (intros s; rewrite <- Hr; by apply reach_old).
  (* the directory state is entered by an epsilon edge and loops *)
  assert (Hdir : forall q s, reach states' q s -> q = n -> exists s1 s2, s = s1 ++ s2 /\ matches ps s1).
  { intros q s H. induction H as [|p q s' Hp IH Hin|p q s' t' c Hp IH Hin Ht]; [lia|intros ->|intros ->].
    + unfold states' in Hin. explore Hin; [|old_only|].
      * exists s', []. rewrite app_nil_r. by rewrite <- Hold.
      * rewrite pair_state in Hin. repeat case_decide; by apply elem_of_nil in Hin.
    + unfold states' in Hin. explore Hin; [old_only|old_only|]. rewrite pair_state in Hin.
      repeat case_decide; [|by apply elem_of_nil in Hin..]. assert (p = n) as -> by (unfold n in *; lia).
      destruct (IH eq_refl) as (s1 & s2 & -> & Hm). exists s1, (s2 ++ [c]). by rewrite app_assoc. }
  split_and!; [done|rewrite Hl; simpl; lia|]. intros s. rewrite matches_app. split.
  - intros H. inversion H as [|p q s' Hp Hin|p q s' t' c Hp Hin Ht]; subst.
    + unfold states' in Hin. explore Hin; [destruct Hin as [Hin|[_|[Hin|[]]]]; [old_only| |lia]|old_only|].
      * exists s, []. rewrite app_nil_r. split_and!; [done|by apply Hold|]. apply (proj2 (matches_one Directories [])). by left.
      * rewrite pair_state in Hin. repeat case_decide; by apply elem_of_nil in Hin.
    + unfold states' in Hin. explore Hin; [old_only|old_only|]. rewrite pair_state in Hin.
      repeat case_decide; [|by apply elem_of_nil in Hin..]. assert (p = n) as -> by (unfold n in *; lia).
      unfold dirs in Hin; simpl in Hin. rewrite !elem_of_cons, elem_of_nil in Hin. destruct Hin as [Hin|[Hin|[]]]; simplify_eq; [lia|].
      apply bool_decide_eq_true in Ht as ->. destruct (Hdir n s' Hp eq_refl) as (s1 & s2 & -> & Hm).
      exists s1, (s2 ++ [slash]). rewrite app_assoc. split_and!; [done|done|].
      apply (proj2 (matches_one Directories (s2 ++ [slash]))). right. by exists s2.
  - intros (s1 & s2 & -> & Hm%Hold & [->|[dir ->]]%matches_one).
    + rewrite app_nil_r. eapply (reach_epsilon _ cur); [done|].
      unfold states'. rewrite state_at_extended, decide_True by done. simpl. apply elem_of_app. right. by left.
    + rewrite app_assoc. eapply (reach_edge _ n _ _ isSlash); [| |done].
      * clear - Hm Hcur. induction dir as [|c dir IH] using rev_ind.
        { rewrite app_nil_r. eapply (reach_epsilon _ cur); [done|]. unfold states'.
          rewrite state_at_extended, decide_True by done. simpl. apply elem_of_app. right. right. by left. }
        rewrite app_assoc. eapply (reach_edge _ n _ _ anyChar); [done| |done]. unfold states'.
        rewrite state_at_extended by done. rewrite decide_False by lia. rewrite decide_False by lia.
        rewrite pair_state, decide_True by lia. by left.
      * unfold states'. rewrite state_at_extended by done. rewrite decide_False by lia. rewrite decide_False by lia.
        rewrite pair_state, decide_True by lia. right. by left.
Qed.

Lemma built_pieces qs ps m : built ps m -> built (ps ++ qs) (foldl (fun m p => add_piece p m) m qs).
Proof.
  revert ps m; induction qs as [|q qs IH]; intros ps [cur states] H; simpl; [by rewrite app_nil_r|].
  replace (ps ++ q :: qs) with ((ps ++ [q]) ++ qs) by by rewrite <- app_assoc. apply IH.
  destruct q; [by apply built_one|by apply built_repeat|by apply built_directories].
Qed.

Lemma built_initial : built [] (0%nat, [no_edges]).
Proof.
  split_and!; [|simpl; lia|].
  - intros p. unfold state_at. rewrite singleton_state. case_decide; split; intros *; by intros ?%elem_of_nil.
  - intros s. simpl. split; [|intros ->; constructor]. intros H. inversion H as [|p q s' Hp Hin|p q s' t c Hp Hin Ht]; [done|..].
    all: unfold state_at in Hin; rewrite singleton_state in Hin; case_decide; by apply elem_of_nil in Hin.
Qed.

(** The states below a match. *)
Lemma compiled_reach ps :
  let m := compile_pieces ps in
  closed (m_states m) /\ exists cur desc, m_accepting m = [cur; desc]
    /\ (forall s, reach (m_states m) cur s <-> matches ps s)
    /\ (forall s, reach (m_states m) desc s <-> exists dir below, s = dir ++ slash :: below /\ matches ps dir).
Proof.
  simpl. unfold compile_pieces. pose proof (built_pieces ps [] _ built_initial) as Hb. simpl in Hb.
  destruct (foldl _ _ ps) as [cur states]. destruct Hb as (Hc & Hcur & Hr). set (n := length states).
  destruct (extension_ok (push_edges [(isSlash, n)]) cur states [State [] [(anyChar, n)]] [] [(isSlash, n)])
    as (Hc' & He & Hf & Hl); try done.
  { intros s. simpl. by rewrite app_nil_r. }
  { repeat constructor; simpl; lia. }
  { repeat constructor; simpl; lia. }
  simpl. set (states' := alter _ _ _ ++ _) in *. split; [done|]. exists cur, n. split; [done|].
  assert (Hold : forall s, reach states' cur s <-> matches ps s) by (intros s; rewrite <- Hr; by apply reach_old).
  split; [done|]. intros s. split.
  - enough (Hgen : forall q, reach states' q s -> q = n -> exists dir below, s = dir ++ slash :: below /\ matches ps dir)
      by (intros H; by apply (Hgen n)).
    intros q H. induction H as [|p q s' Hp IH Hin|p q s' t' c Hp IH Hin Ht]; [lia|intros ->|intros ->]; unfold states' in Hin.
    + explore Hin; [old_only|old_only|]. rewrite singleton_state in Hin. case_decide; by apply elem_of_nil in Hin.
    + explore Hin; [destruct Hin as [Hin|[Hin|[]]]; [old_only|]|old_only|].
      * simplify_eq. apply bool_decide_eq_true in Ht as ->. exists s', []. split; [done|]. by apply Hold.
      * rewrite singleton_state in Hin. case_decide; [|by apply elem_of_nil in Hin].
        assert (p = n) as -> by (unfold n in *; lia). destruct (IH eq_refl) as (dir & below & -> & Hm).
        exists dir, (below ++ [c]). by rewrite <- app_assoc.
  - intros (dir & below & -> & Hm%Hold). induction below as [|c below IH] using rev_ind.
    + eapply (reach_edge _ cur _ _ isSlash); [done| |done]. unfold states'.
      rewrite state_at_extended, decide_True by done. simpl. apply elem_of_app. right. by left.
    + replace (dir ++ slash :: below ++ [c]) with ((dir ++ slash :: below) ++ [c]) by by rewrite <- app_assoc.
      eapply (reach_edge _ n _ _ anyChar); [done| |done]. unfold states'.
      rewrite state_at_extended by done. rewrite decide_False by lia. rewrite decide_False by lia.
      rewrite singleton_state, decide_True by lia. by left.
Qed.

(** ** The simulation *)

(** States reachable by epsilon edges. *)
Inductive eps_reach (states : list GlobState) (start : gset nat) : nat -> Prop :=
  | eps_here q : q ∈ start -> eps_reach states start q
  | eps_step p q : eps_reach states start p -> q ∈ epsilon (state_at states p) -> eps_reach states start q.

(** One pop of the depth-first search: unseen successors become active and stacked. *)
Lemma visit_spec es a st :
  let '(a', st') := foldl (fun (acc : gset nat * list nat) (next : nat) =>
    let '(a, st) := acc in if bool_decide (next ∈ a) then (a, st) else ({[next]} ∪ a, next :: st)) (a, st) es in
  (forall q, q ∈ a' <-> q ∈ a \/ q ∈ es) /\ (forall q, q ∈ st' <-> q ∈ st \/ (q ∈ es /\ q ∉ a))
  /\ (size a' - size a = length st' - length st)%nat /\ (size a <= size a')%nat /\ (length st <= length st')%nat.
Proof.
  revert a st; induction es as [|e es IH]; intros a st; simpl.
  { split_and!; try lia; intros q; rewrite elem_of_nil; tauto. }
  case_bool_decide as Hd.
  - specialize (IH a st). destruct (foldl _ _ es) as [a' st']. destruct IH as (H1 & H2 & H3 & H4 & H5).
    split_and!; try done; intros q; rewrite elem_of_cons; [rewrite H1|rewrite H2]; naive_solver.
  - specialize (IH ({[e]} ∪ a) (e :: st)). destruct (foldl _ _ es) as [a' st']. destruct IH as (H1 & H2 & H3 & H4 & H5).
    rewrite size_union_alt, size_singleton in H3, H4. simpl in *.
    assert (Hs : size (a ∖ {[e]}) = size a).
    { f_equal. apply leibniz_equiv. intros q. rewrite elem_of_difference, elem_of_singleton. naive_solver. }
    rewrite Hs in *. split_and!; [..|lia|lia|lia].
    + intros q. rewrite H1, elem_of_union, elem_of_singleton, elem_of_cons. tauto.
    + intros q. rewrite H2, !elem_of_cons, elem_of_union, elem_of_singleton.
      destruct (decide (q = e)) as [->|]; naive_solver.
Qed.

Lemma size_bounded (a : gset nat) n : (forall q, q ∈ a -> (q < n)%nat) -> (size a <= n)%nat.
Proof.
  intros H. etrans; [apply (subseteq_size a (list_to_set (seq 0 n)))|].
  - intros q Hq. apply elem_of_list_to_set, elem_of_seq. specialize (H q Hq). lia.
  - rewrite size_list_to_set by apply NoDup_seq. by rewrite length_seq.
Qed.

Lemma closure_loop_spec states start fuel : forall a st,
  closed states -> (forall q, q ∈ a -> (q < length states)%nat) ->
  (forall q, q ∈ st -> q ∈ a) -> start ⊆ a -> (forall q, q ∈ a -> eps_reach states start q) ->
  (forall p, p ∈ a -> p ∉ st -> forall q, q ∈ epsilon (state_at states p) -> q ∈ a) ->
  (length st + (length states - size a) <= fuel)%nat ->
  forall q, q ∈ closure_loop fuel states a st <-> eps_reach states start q.
Proof.
  induction fuel as [|fuel IH]; intros a st Hc Hb Hst Hstart Hsound Hdone Hfuel q; simpl.
  all: destruct st as [|p st]; [|try (simpl in Hfuel; lia)].
  1,2: split; [auto|]; induction 1 as [q Hq|p q Hp IHp Hin]; [auto|]; apply (Hdone p IHp); [apply not_elem_of_nil|done].
  pose proof (visit_spec (epsilon (state_at states p)) a st) as Hv.
  destruct (foldl _ _ (epsilon (state_at states p))) as [a' st']. destruct Hv as (H1 & H2 & H3 & H4 & H5).
  assert (Hb' : forall q, q ∈ a' -> (q < length states)%nat).
  { intros x [Hx|Hx]%H1; [auto|]. by apply (Hc p) in Hx. }
  pose proof (size_bounded _ _ Hb'). apply IH; try done.
  - intros x [Hx|[Hx _]]%H2; apply H1; [left; apply Hst; by right|by right].
  - intros x Hx. apply H1. left. by apply Hstart.
  - intros x [Hx|Hx]%H1; [auto|]. eapply eps_step; [|exact Hx]. apply Hsound, Hst. by left.
  - intros x Hx Hnst y Hy. destruct (decide (x = p)) as [->|Hne]; [apply H1; by right|].
    apply H1. left. apply (Hdone x); [|..|done].
    + destruct (decide (x ∈ a)) as [|Hna]; [done|]. exfalso. apply Hnst, H2. right. split; [|done].
      apply H1 in Hx as [|]; done.
    + intros Hin%elem_of_cons. destruct Hin as [|Hin]; [done|]. apply Hnst, H2. by left.
  - simpl in Hfuel. lia.
Qed.

Lemma closure_spec states start q :
  closed states -> (forall q, q ∈ start -> (q < length states)%nat) ->
  q ∈ closure states start <-> eps_reach states start q.
Proof.
  intros Hc Hb. unfold closure. apply closure_loop_spec; try done.
  - intros x. by rewrite elem_of_elements.
  - intros x Hx. by constructor.
  - intros p Hp Hn. rewrite elem_of_elements in Hn. done.
  - pose proof (size_bounded _ _ Hb). unfold size, set_size in *. simpl in *. lia.
Qed.

(** The active set holds exactly the states the read prefix reaches. *)
Definition tracks (states : list GlobState) (active : gset nat) (s : list ascii) : Prop :=
  forall q, q ∈ active <-> reach states q s.

Lemma reach_bounded states q s : closed states -> (0 < length states)%nat -> reach states q s -> (q < length states)%nat.
Proof. intros Hc H0. induction 1 as [|p q s Hr IH Hin|p q s t c Hr IH Hin Ht]; [done|..]; by apply (Hc p) in Hin. Qed.

Lemma tracks_start states : closed states -> (0 < length states)%nat -> tracks states (closure states {[0%nat]}) [].
Proof.
  intros Hc H0 q. rewrite closure_spec; [|done|intros x ->%elem_of_singleton; done]. split.
  - induction 1 as [q Hq|p q Hp IH Hin]; [apply elem_of_singleton in Hq as ->; constructor|]. by eapply reach_epsilon.
  - intros H. remember [] as s eqn:Es. induction H as [|p q s Hr IH Hin|p q s t c Hr IH Hin Ht].
    + constructor. by apply elem_of_singleton.
    + eapply eps_step; [by apply IH|done].
    + by apply app_eq_nil in Es as [_ ?].
Qed.

Lemma elem_of_targets states c active q :
  q ∈ targets states c active <-> exists p t, p ∈ active /\ (t, q) ∈ edges (state_at states p) /\ t c = true.
Proof.
  unfold targets. rewrite elem_of_list_to_set, list_elem_of_In, in_concat. split.
  - intros (l & (p & <- & Hp)%in_map_iff & Hq). apply list_elem_of_In, list_elem_of_omap in Hq as ([t q'] & He & Heq).
    simpl in Heq. destruct (t c) eqn:Et; simplify_eq. exists p, t.
    split_and!; [by apply elem_of_elements, list_elem_of_In|done..].
  - intros (p & t & Hp & He & Ht). eexists. split; [apply in_map_iff; exists p; split; [reflexivity|]|].
    + by apply list_elem_of_In, elem_of_elements.
    + apply list_elem_of_In, list_elem_of_omap. exists (t, q). simpl. by rewrite Ht.
Qed.

Lemma tracks_step states active s c :
  closed states -> (0 < length states)%nat -> tracks states active s ->
  tracks states (closure states (targets states c active)) (s ++ [c]).
Proof.
  intros Hc H0 Ht q.
  assert (Hb : forall q, q ∈ targets states c active -> (q < length states)%nat).
  { intros x (p & t & _ & He & _)%elem_of_targets. by apply (Hc p) in He. }
  rewrite closure_spec by done. split.
  - induction 1 as [q Hq|p q Hp IH Hin]; [|by eapply reach_epsilon].
    apply elem_of_targets in Hq as (p & t & Hp & He & Htc). eapply reach_edge; [by apply Ht|done|done].
  - intros H. remember (s ++ [c]) as s' eqn:Es. revert Es.
    induction H as [|p q s' Hr IH Hin|p q s' t c' Hr IH Hin Htc]; intros Es.
    + by destruct s.
    + eapply eps_step; [by apply IH|done].
    + apply app_inj_2 in Es as [-> Hcc]; [|done]. simplify_eq. constructor. apply elem_of_targets.
      exists p, t. split_and!; [by apply Ht|done|done].
Qed.

Lemma simulate_tracks states path : forall active s,
  closed states -> (0 < length states)%nat -> tracks states active s ->
  tracks states (simulate states path active) (s ++ path).
Proof.
  induction path as [|c path IH]; intros active s Hc H0 Ht; simpl; [by rewrite app_nil_r|].
  case_bool_decide as He.
  - subst. intros q. split; [by intros ?%elem_of_empty|]. intros Hr. exfalso.
    assert (Hno : forall q x, reach states q x -> forall y, x = s ++ y -> False).
    { induction 1 as [|p q' x Hx IHx Hin|p q' x t d Hx IHx Hin Htd]; intros y Hy.
      - symmetry in Hy. apply app_eq_nil in Hy as [-> ->]. assert (H0' : 0%nat ∈ (∅ : gset nat)) by by apply Ht; constructor.
        by apply elem_of_empty in H0'.
      - by apply (IHx y).
      - destruct y as [|e y _] using rev_ind.
        + rewrite app_nil_r in Hy. assert (Hq' : q' ∈ (∅ : gset nat)) by (apply Ht; rewrite <- Hy; by eapply reach_edge).
          by apply elem_of_empty in Hq'.
        + rewrite app_assoc in Hy. apply app_inj_2 in Hy as [Hy _]; [|done]. by apply (IHx y). }
    by apply (Hno _ _ Hr (c :: path)).
  - replace (s ++ c :: path) with ((s ++ [c]) ++ path) by by rewrite <- app_assoc. apply IH; [done..|]. by apply tracks_step.
Qed.

Lemma test_spec ps path : test (compile_pieces ps) path = true <-> protects ps (chars path).
Proof.
  destruct (compiled_reach ps) as (Hc & cur & desc & Hacc & Hcur & Hdesc).
  set (mm := compile_pieces ps) in *.
  assert (H0 : (0 < length (m_states mm))%nat).
  { unfold mm, compile_pieces. destruct (foldl _ _ ps) as [c st]. simpl. rewrite length_app. simpl. lia. }
  pose proof (simulate_tracks (m_states mm) (chars path) _ [] Hc H0 (tracks_start _ Hc H0)) as Ht.
  unfold tracks in Ht. simpl in Ht.
  unfold test. rewrite Hacc. simpl. rewrite orb_false_r, orb_true_iff, !bool_decide_eq_true, !Ht, Hcur, Hdesc.
  unfold protects. tauto.
Qed.

(** ** The language of a glob, by its characters

    What the policy's documentation says of a pattern, read off the pattern itself. *)

Definition star : ascii := char 42.
Definition question : ascii := char 63.
Definition lbracket : ascii := char 91.
Definition rbracket : ascii := char 93.
Definition hyphen : ascii := char 45.
(** Letters match in either case. *)
Definition same_letter (x c : ascii) : Prop := lower_char x = lower_char c.

(** What a class lists: single characters and ranges *)
Inductive listed : list ascii -> ascii -> Prop :=
  | listed_range a b rest x : code a <= code x <= code b -> listed (a :: hyphen :: b :: rest) x
  | listed_after_range a b rest x : listed rest x -> listed (a :: hyphen :: b :: rest) x
  | listed_single a rest : (forall b rest', rest <> hyphen :: b :: rest') -> listed (a :: rest) a
  | listed_after a rest x : (forall b rest', rest <> hyphen :: b :: rest') -> listed rest x -> listed (a :: rest) x.
Definition in_set (body : list ascii) (c : ascii) : Prop := exists x, listed body x /\ same_letter x c.
Definition negation (c : ascii) : bool := bool_decide (c = char 33) || bool_decide (c = char 94).
(** A negated class stays within a path segment. *)
Definition class_matches (body : list ascii) (c : ascii) : Prop :=
  match body with
  | x :: listed_not => if negation x then c <> slash /\ ~ in_set listed_not c else in_set body c
  | [] => False
  end.

Definition in_segment (run : list ascii) : Prop := slash ∉ run.
(** The rest of a pattern, at the start of a path segment or not, and the rest of a path *)
Inductive glob_matches : bool -> list ascii -> list ascii -> Prop :=
  | glob_end start : glob_matches start [] []
  | glob_no_directory g p : glob_matches true g p -> glob_matches true (star :: star :: slash :: g) p
  | glob_directories g dirs p : glob_matches true g p -> glob_matches true (star :: star :: slash :: g) (dirs ++ slash :: p)
  | glob_anything p : glob_matches true [star; star] p
  | glob_two_stars start g run p : (start = true -> g <> [] /\ head g <> Some slash) ->
      in_segment run -> glob_matches false g p -> glob_matches start (star :: star :: g) (run ++ p)
  | glob_star start g run p : head g <> Some star -> in_segment run -> glob_matches false g p -> glob_matches start (star :: g) (run ++ p)
  | glob_question start g c p : c <> slash -> glob_matches false g p -> glob_matches start (question :: g) (c :: p)
  | glob_class start x body g c p : rbracket ∉ body -> class_matches (x :: body) c -> glob_matches false g p ->
      glob_matches start (lbracket :: x :: body ++ rbracket :: g) (c :: p)
  | glob_open_bracket start g p : rbracket ∉ tail g -> glob_matches false g p -> glob_matches start (lbracket :: g) (lbracket :: p)
  | glob_character start x g c p : x ∉ [star; question; lbracket] -> same_letter x c ->
      glob_matches (bool_decide (x = slash)) g p -> glob_matches start (x :: g) (c :: p).
(** A pattern protects what it matches and everything below that. *)
Definition glob_protects (g path : list ascii) : Prop :=
  glob_matches true g path \/ exists dir below, path = dir ++ slash :: below /\ glob_matches true g dir.

(** *** Letters *)

Definition all_chars : list ascii := map Ascii.ascii_of_nat (List.seq 0 256).
Lemma in_all_chars c : c ∈ all_chars.
Proof.
  apply list_elem_of_In, in_map_iff. exists (Ascii.nat_of_ascii c). split; [apply Ascii.ascii_nat_embedding|]. apply in_seq.
  pose proof (Ascii.nat_ascii_bounded c). lia.
Qed.
Lemma check_chars2 (f : ascii -> ascii -> bool) : forallb (fun x => forallb (f x) all_chars) all_chars = true -> forall x c, f x c = true.
Proof.
  intros H x c. rewrite forallb_forall in H. specialize (H x (proj1 (list_elem_of_In _ _) (in_all_chars x))).
  rewrite forallb_forall in H. apply H, list_elem_of_In, in_all_chars.
Qed.
Lemma letter_cases x c : same_letter x c <-> x ∈ [c; canon c; lower_char c].
Proof.
  assert (H : eqb (bool_decide (lower_char x = lower_char c)) (bool_decide (x ∈ [c; canon c; lower_char c])) = true).
  { revert x c. apply (check_chars2 (fun x c => eqb (bool_decide (lower_char x = lower_char c)) (bool_decide (x ∈ [c; canon c; lower_char c])))). by vm_compute. }
  apply eqb_prop in H. unfold same_letter. rewrite <- (bool_decide_eq_true (lower_char x = lower_char c)), H. apply bool_decide_eq_true.
Qed.
Lemma letter_canon x c : same_letter x c <-> canon c = canon x.
Proof.
  assert (H : eqb (bool_decide (lower_char x = lower_char c)) (bool_decide (canon c = canon x)) = true).
  { revert x c. apply (check_chars2 (fun x c => eqb (bool_decide (lower_char x = lower_char c)) (bool_decide (canon c = canon x)))). by vm_compute. }
  apply eqb_prop in H. unfold same_letter. rewrite <- (bool_decide_eq_true (lower_char x = lower_char c)), H. apply bool_decide_eq_true.
Qed.
(** The slash and the brackets have one case. *)
Lemma caseless x c : x ∈ [slash; lbracket] -> same_letter x c <-> c = x.
Proof.
  rewrite !elem_of_cons, elem_of_nil, letter_cases. intros [-> | [-> | []]]; (split; [|intros ->; by left]); revert c;
    [assert (H : forallb (fun c => negb (bool_decide (slash ∈ [c; canon c; lower_char c])) || bool_decide (c = slash)) all_chars = true) by by vm_compute
    |assert (H : forallb (fun c => negb (bool_decide (lbracket ∈ [c; canon c; lower_char c])) || bool_decide (c = lbracket)) all_chars = true) by by vm_compute];
    intros c Hc; rewrite forallb_forall in H; specialize (H c (proj1 (list_elem_of_In _ _) (in_all_chars c)));
    rewrite (bool_decide_eq_true_2 _ Hc) in H; by apply bool_decide_eq_true in H.
Qed.

(** *** Classes *)

Lemma ranges_listed body : forall rs, class_ranges body = Some rs ->
  forall x, (exists r, r ∈ rs /\ code (fst r) <= code x <= code (snd r)) <-> listed body x.
Proof.
  remember (length body) as n eqn:En. revert body En. induction (lt_wf n) as [n _ IH]. intros body -> rs H x.
  assert (Hcons : forall a b rs, (exists r, r ∈ (a, b) :: rs /\ code (fst r) <= code x <= code (snd r))
    <-> code a <= code x <= code b \/ exists r, r ∈ rs /\ code (fst r) <= code x <= code (snd r)).
  { intros a b rs'. split; [intros (r & [->|Hr]%elem_of_cons & Hx); eauto|]. intros [Hx|(r & Hr & Hx)]; [exists (a, b)|exists r]; rewrite elem_of_cons; auto. }
  assert (Hcode : forall y, code y <= code x <= code y <-> x = y).
  { intros y. unfold code. split; [|intros ->; lia]. intros Hy. rewrite <- (Ascii.ascii_N_embedding x), <- (Ascii.ascii_N_embedding y). f_equal. lia. }
  assert (Hone : forall a rest rs, (forall b rest', rest <> hyphen :: b :: rest') -> (length rest < length body)%nat -> cons (a, a) <$> class_ranges rest = Some rs ->
    (exists r, r ∈ rs /\ code (fst r) <= code x <= code (snd r)) <-> listed (a :: rest) x).
  { intros a rest rs' Hr Hl (rs0 & Hrs & ->)%fmap_Some. rewrite Hcons, (IH _ Hl rest eq_refl rs0 Hrs x), Hcode. split.
    - intros [->|Hx]; [by apply listed_single|by apply listed_after].
    - inversion 1; subst; [by destruct (Hr b rest0)|by destruct (Hr b rest0)|by left|by right]. }
  destruct body as [|a [|d [|b rest]]]; cbn [class_ranges] in H.
  - injection H as <-. split; [by intros (r & ?%elem_of_nil & _)|inversion 1].
  - apply (Hone a []); [done|cbn; lia|exact H].
  - apply (Hone a [d]); [done|cbn; lia|exact H].
  - case_bool_decide as Hd; [subst d|].
    + change (char 45) with hyphen. case_bool; [done|]. apply fmap_Some in H as (rs0 & Hrs & ->). apply Z.ltb_ge in E.
      rewrite Hcons, (IH (length rest) ltac:(cbn; lia) rest eq_refl rs0 Hrs x). split; [intros [Hx|Hx]; [by apply listed_range|by apply listed_after_range]|].
      inversion 1 as [| |? ? Hn|? ? ? Hn]; subst; [by left|by right|by destruct (Hn b rest)|by destruct (Hn b rest)].
    + apply (Hone a (d :: b :: rest)); [by intros ? ? [= -> -> ->]|cbn; lia|exact H].
Qed.
Lemma in_class_spec body rs c : class_ranges body = Some rs -> in_class rs c = true <-> in_set body c.
Proof.
  intros H. unfold in_class, in_set. rewrite existsb_exists. split.
  - intros (r & Hr & (x & Hx & [H1%Z.leb_le H2%Z.leb_le]%andb_true_iff)%existsb_exists). apply list_elem_of_In in Hr, Hx. exists x.
    split; [apply (ranges_listed body rs H); eauto|by apply letter_cases].
  - intros (x & Hl & Hx). apply (ranges_listed body rs H) in Hl as (r & Hr & H1). exists r. split; [by apply list_elem_of_In|].
    apply existsb_exists. exists x. split; [by apply list_elem_of_In, letter_cases|]. apply andb_true_iff. rewrite !Z.leb_le. lia.
Qed.
Lemma class_test_spec x body t c : class_test (x :: body) = Some t -> (negation x = true -> forall b rest, body <> hyphen :: b :: rest) ->
  t c = true <-> class_matches (x :: body) c.
Proof.
  unfold class_test, class_matches, negation. destruct (_ || _); intros (rs & Hrs & ->)%fmap_Some Hreg; [|by apply in_class_spec].
  rewrite negb_true_iff, <- not_true_iff_false, (in_class_spec (slash :: body) rs c Hrs). unfold in_set.
  assert (Hcons : forall y, listed (slash :: body) y <-> y = slash \/ listed body y).
  { intros y. split; [|intros [->|Hy]; [apply listed_single; by apply Hreg|apply listed_after; [by apply Hreg|done]]].
    inversion 1; subst; [by destruct (Hreg eq_refl b rest)|by destruct (Hreg eq_refl b rest)|by left|by right]. }
  setoid_rewrite Hcons. assert (Hs : same_letter slash c <-> c = slash) by (apply caseless; by left). naive_solver.
Qed.

(** *** What matches each piece of a glob *)

Lemma glob_end_iff start p : glob_matches start [] p <-> p = [].
Proof. split; [by inversion 1|intros ->; constructor]. Qed.
Lemma glob_directories_iff g p : glob_matches true (star :: star :: slash :: g) p <->
  glob_matches true g p \/ exists dirs p', p = dirs ++ slash :: p' /\ glob_matches true g p'.
Proof.
  split; [|intros [H|(dirs & p' & -> & H)]; [by apply glob_no_directory|by apply glob_directories]].
  inversion 1 as [|? ? H1|? dirs p' H1| |? ? ? ? Hs|? ? ? ? Hn| | | |? ? ? ? ? Hn]; subst; eauto; [|done|exfalso; apply Hn; by left].
  by destruct (Hs eq_refl).
Qed.
Lemma glob_anything_iff p : glob_matches true [star; star] p <-> True.
Proof. split; [done|intros _; apply glob_anything]. Qed.
Lemma glob_two_stars_iff start g p : (start = true -> g <> [] /\ head g <> Some slash) -> glob_matches start (star :: star :: g) p <->
  exists run p', p = run ++ p' /\ in_segment run /\ glob_matches false g p'.
Proof.
  intros Hg. split; [|intros (run & p' & -> & H1 & H2); by apply glob_two_stars].
  inversion 1 as [| | | |? ? ? ? Hs|? ? ? ? Hn| | | |? ? ? ? ? Hn]; subst; [by destruct (Hg eq_refl)..|eauto|done|exfalso; apply Hn; by left].
Qed.
Lemma glob_star_iff start g p : head g <> Some star -> glob_matches start (star :: g) p <->
  exists run p', p = run ++ p' /\ in_segment run /\ glob_matches false g p'.
Proof.
  intros Hg. split; [|intros (run & p' & -> & H1 & H2); by apply glob_star].
  inversion 1 as [| | | | | | | | |? ? ? ? ? Hn]; subst; [done..|eauto|exfalso; apply Hn; by left].
Qed.
Lemma glob_question_iff start g p : glob_matches start (question :: g) p <-> exists c p', p = c :: p' /\ c <> slash /\ glob_matches false g p'.
Proof.
  split; [|intros (c & p' & -> & H1 & H2); by apply glob_question].
  inversion 1 as [| | | | | | | | |? ? ? ? ? Hn]; subst; [eauto|exfalso; apply Hn; right; by left].
Qed.
Lemma split_at_bracket a b a' b' : rbracket ∉ a -> rbracket ∉ a' -> a ++ rbracket :: b = a' ++ rbracket :: b' -> a = a' /\ b = b'.
Proof.
  revert a'. induction a as [|x a IH]; intros [|x' a'] Ha Ha' E; simplify_eq/=; [done|set_solver..|].
  destruct (IH a') as [-> ->]; [set_solver..|done|done].
Qed.
Lemma glob_class_iff start x body g p : rbracket ∉ body -> glob_matches start (lbracket :: x :: body ++ rbracket :: g) p <->
  exists c p', p = c :: p' /\ class_matches (x :: body) c /\ glob_matches false g p'.
Proof.
  intros Hb. split; [|intros (c & p' & -> & H1 & H2); by apply glob_class].
  inversion 1 as [| | | | | | |? ? body' g' ? ? Hb'|? ? ? Hn|? ? ? ? ? Hn]; subst.
  - match goal with E : body' ++ _ = _ |- _ => destruct (split_at_bracket _ _ _ _ Hb' Hb E) as [-> ->] end. eauto.
  - exfalso. apply Hn. cbn. set_solver.
  - exfalso. apply Hn. set_solver.
Qed.
Lemma glob_open_bracket_iff start g p : rbracket ∉ tail g -> glob_matches start (lbracket :: g) p <-> exists p', p = lbracket :: p' /\ glob_matches false g p'.
Proof.
  intros Hg. split; [|intros (p' & -> & H); by apply glob_open_bracket].
  inversion 1 as [| | | | | | | | |? ? ? ? ? Hn]; subst; [exfalso; apply Hg; cbn; set_solver|eauto|exfalso; apply Hn; set_solver].
Qed.
Lemma glob_character_iff start x g p : x ∉ [star; question; lbracket] -> glob_matches start (x :: g) p <->
  exists c p', p = c :: p' /\ same_letter x c /\ glob_matches (bool_decide (x = slash)) g p'.
Proof.
  intros Hx. split; [|intros (c & p' & -> & H1 & H2); by apply glob_character].
  inversion 1; subst; try (exfalso; apply Hx; set_solver). eauto.
Qed.

(** The pieces, by the first of them *)
Lemma one_iff t ps p : matches (One t :: ps) p <-> exists c p', p = c :: p' /\ t c = true /\ matches ps p'.
Proof. cbn. split; [intros (s1 & s2 & -> & (c & -> & Hc) & H); eauto|]. intros (c & p' & -> & Hc & H). exists [c], p'. eauto. Qed.
Lemma repeat_iff t ps p : matches (Repeat t :: ps) p <-> exists run p', p = run ++ p' /\ Forall (fun c => t c = true) run /\ matches ps p'.
Proof. done. Qed.
Lemma repeat_any_iff ps p : ps = [] -> matches (Repeat anyChar :: ps) p <-> True.
Proof. intros ->. split; [done|]. intros _. exists p, []. rewrite app_nil_r. split_and!; [done| |done]. by apply Forall_forall. Qed.
Lemma repeat_segment_iff ps p : matches (Repeat notSlash :: ps) p <-> exists run p', p = run ++ p' /\ in_segment run /\ matches ps p'.
Proof.
  rewrite repeat_iff. assert (H : forall run, Forall (fun c => notSlash c = true) run <-> in_segment run); [|by setoid_rewrite H].
  intros run. rewrite Forall_forall. unfold notSlash, in_segment. split.
  - intros H Hin. specialize (H _ Hin). by rewrite bool_decide_eq_true_2 in H.
  - intros H c Hc. apply negb_true_iff, bool_decide_eq_false. by intros ->.
Qed.
Lemma directories_iff ps p : matches (Directories :: ps) p <-> matches ps p \/ exists dirs p', p = dirs ++ slash :: p' /\ matches ps p'.
Proof.
  cbn. split.
  - intros (s1 & s2 & -> & [->|(dirs & ->)] & H); [by left|]. right. exists dirs, s2. by rewrite <- app_assoc.
  - intros [H|(dirs & p' & -> & H)]; [exists [], p; eauto|]. exists (dirs ++ [slash]), p'. rewrite <- app_assoc. eauto.
Qed.

(** *** The pieces denote the glob *)

(** Characters that were taken with a piece are passed over. *)
Lemma pieces_skip n glob : forall previous, (n < length glob)%nat -> pieces_from previous (S n) glob = pieces_from (glob !! n) 0 (list.drop (S n) glob).
Proof.
  revert n. induction glob as [|c glob IH]; intros n previous Hn; [cbn in Hn; lia|]. destruct n as [|n]; [done|]. cbn in Hn.
  change (pieces_from previous (S (S n)) (c :: glob)) with (pieces_from (Some c) (S n) glob). rewrite IH by lia. done.
Qed.
Lemma index_from_spec x l n : index_from x l = Some n -> exists a b, l = a ++ x :: b /\ (x ∉ a) /\ n = length a.
Proof.
  revert n. induction l as [|c l IH]; intros n; [done|]. cbn. case_bool_decide as E.
  - intros [= <-]. exists [], l. subst. split_and!; [done|by apply not_elem_of_nil|done].
  - intros (n' & H & ->)%fmap_Some. destruct (IH n' H) as (a & b & -> & Ha & ->). exists (c :: a), b. split_and!; [done| |done]. set_solver.
Qed.
Lemma index_from_none x l : index_from x l = None -> x ∉ l.
Proof.
  induction l as [|c l IH]; [intros _; by apply not_elem_of_nil|]. cbn. case_bool_decide as E; [done|]. intros H%fmap_None. specialize (IH H). set_solver.
Qed.

(** No negated class lists a hyphen first: its compiled form would be another class. *)
Fixpoint regular_glob (g : list ascii) : bool :=
  match g with
  | [] => true
  | c :: g' => negb (bool_decide (c = lbracket) && match g' with x :: d :: _ => negation x && bool_decide (d = hyphen) | _ => false end) && regular_glob g'
  end.
Lemma regular_suffix a b : regular_glob (a ++ b) = true -> regular_glob b = true.
Proof. induction a as [|c a IH]; [done|]. cbn. by intros [_ H]%andb_true_iff; apply IH. Qed.

Definition at_start (previous : option ascii) : bool := match previous with None => true | Some p => bool_decide (p = slash) end.
(** One iteration of the compiler, on a glob whose remainder is denoted by its pieces *)
Definition denoted (previous : option ascii) (g : list ascii) : Prop :=
  forall ps, pieces_from previous 0 g = Some ps -> forall p, matches ps p <-> glob_matches (at_start previous) g p.
Lemma taken previous c rest piece n ps : next_piece previous c rest = Some (piece, n) -> pieces_from previous 0 (c :: rest) = Some ps -> (n <= length rest)%nat ->
  exists ps', ps = piece :: ps' /\ pieces_from ((c :: rest) !! n) 0 (list.drop n rest) = Some ps'.
Proof.
  intros Hn Hps Hl. cbn [pieces_from] in Hps. rewrite Hn in Hps. apply fmap_Some in Hps as (ps' & Hps & ->). exists ps'. split; [done|].
  destruct n as [|n]; [done|]. by rewrite pieces_skip in Hps by lia.
Qed.
Lemma next_star previous rest : next_piece previous star rest =
  (let doubleStar := bool_decide (rest !! 0%nat = Some star) in
   let followedBySlash := bool_decide (rest !! 1%nat = Some slash) in
   let wholeSegment := doubleStar && at_start previous && (followedBySlash || bool_decide (length rest = 1%nat)) in
   if wholeSegment && followedBySlash then Some (Directories, 2%nat)
   else Some (Repeat (if wholeSegment then anyChar else notSlash), if doubleStar then 1%nat else 0%nat)).
Proof. done. Qed.
Lemma denoted_star previous rest : (forall previous' n, denoted previous' (list.drop n rest)) -> denoted previous (star :: rest).
Proof.
  intros IH ps Hps p. unfold next_piece in *. destruct (decide (head rest = Some star)) as [Hh|Hh].
  - destruct rest as [|y rest]; [done|]. injection Hh as ->. destruct (at_start previous && (bool_decide (head rest = Some slash) || bool_decide (rest = []))) eqn:Ew.
    + apply andb_true_iff in Ew as [Es Ew]. rewrite Es. destruct rest as [|y rest].
      * destruct (taken previous star [star] (Repeat anyChar) 1 ps) as (ps' & -> & H); [|done|cbn; lia|].
        { by rewrite next_star, Es. }
        cbn in H. injection H as <-. rewrite glob_anything_iff. by apply repeat_any_iff.
      * rewrite (bool_decide_eq_false_2 (y :: rest = [])), orb_false_r, bool_decide_eq_true in Ew by done. injection Ew as ->.
        destruct (taken previous star (star :: slash :: rest) Directories 2 ps) as (ps' & -> & H); [|done|cbn; lia|].
        { by rewrite next_star, Es. }
        pose proof (IH (Some slash) 2%nat ps' H) as E. cbn in E. rewrite directories_iff, glob_directories_iff. by setoid_rewrite E.
    + destruct (taken previous star (star :: rest) (Repeat notSlash) 1 ps) as (ps' & -> & H); [|done|cbn; lia|].
      { rewrite next_star. assert (Ew' : at_start previous && (bool_decide ((star :: rest) !! 1%nat = Some slash) || bool_decide (length (star :: rest) = 1%nat)) = false).
        { rewrite <- Ew. f_equal. f_equal; [by destruct rest|]. apply bool_decide_ext. destruct rest; cbn; split; (done || lia). }
        rewrite (bool_decide_eq_true_2 ((star :: rest) !! 0%nat = Some star)) by done. cbv zeta. cbn [andb]. by rewrite Ew'. }
      pose proof (IH (Some star) 1%nat ps' H) as E. cbn in E. rewrite repeat_segment_iff, glob_two_stars_iff; [by setoid_rewrite E|].
      intros Hs. rewrite Hs in Ew. cbn in Ew. by apply orb_false_iff in Ew as [?%bool_decide_eq_false ?%bool_decide_eq_false].
  - destruct (taken previous star rest (Repeat notSlash) 0 ps) as (ps' & -> & H); [|done|lia|].
    { rewrite next_star, (bool_decide_eq_false_2 (rest !! 0%nat = Some star)); [done|]. by destruct rest. }
    pose proof (IH (Some star) 0%nat ps' H) as E. cbn in E. rewrite drop_0 in E. rewrite repeat_segment_iff, glob_star_iff by done. by setoid_rewrite E.
Qed.
Lemma next_class previous x body g : index_from rbracket (body ++ rbracket :: g) = Some (length body) ->
  next_piece previous lbracket (x :: body ++ rbracket :: g) = (fun t => (One t, S (S (length body)))) <$> class_test (x :: body).
Proof.
  intros Ei. unfold next_piece. rewrite (bool_decide_eq_false_2 (lbracket = char 42)), (bool_decide_eq_false_2 (lbracket = char 63)), (bool_decide_eq_true_2 (lbracket = char 91)) by done.
  change (list.drop 1 (x :: body ++ rbracket :: g)) with (list.drop 0 (body ++ rbracket :: g)). rewrite drop_0. change (char 93) with rbracket. rewrite Ei.
  change (list.take (S (length body)) (x :: body ++ rbracket :: g)) with (x :: list.take (length body) (body ++ rbracket :: g)). by rewrite take_app_length.
Qed.
Lemma next_open previous rest : index_from rbracket (list.drop 1 rest) = None -> next_piece previous lbracket rest = Some (One (literal lbracket), 0%nat).
Proof.
  intros Ei. unfold next_piece. rewrite (bool_decide_eq_false_2 (lbracket = char 42)), (bool_decide_eq_false_2 (lbracket = char 63)), (bool_decide_eq_true_2 (lbracket = char 91)) by done.
  change (char 93) with rbracket. by rewrite Ei.
Qed.
Lemma denoted_bracket previous rest : regular_glob (lbracket :: rest) = true -> (forall previous' n, denoted previous' (list.drop n rest)) -> denoted previous (lbracket :: rest).
Proof.
  intros Hreg IH ps Hps p. destruct (index_from rbracket (list.drop 1 rest)) as [n|] eqn:Ei.
  - destruct rest as [|x rest]; [done|]. cbn [list.drop] in Ei. rewrite drop_0 in Ei. destruct (index_from_spec _ _ _ Ei) as (body & g & -> & Hb & ->).
    destruct (class_test (x :: body)) as [t|] eqn:Et.
    2: { cbn [pieces_from] in Hps. by rewrite next_class, Et in Hps by done. }
    destruct (taken previous lbracket (x :: body ++ rbracket :: g) (One t) (S (S (length body))) ps) as (ps' & -> & H); [|done|cbn; rewrite length_app; cbn; lia|].
    { by rewrite next_class, Et by done. }
    assert (El : (lbracket :: x :: body ++ rbracket :: g) !! S (S (length body)) = Some rbracket) by (change ((body ++ rbracket :: g) !! length body = Some rbracket); by rewrite lookup_app_r, Nat.sub_diag).
    rewrite El in H. pose proof (IH (Some rbracket) (S (S (length body))) ps' H) as E.
    assert (Ed : list.drop (S (S (length body))) (x :: body ++ rbracket :: g) = g) by (change (list.drop (S (length body)) (body ++ rbracket :: g) = g); rewrite <- Nat.add_1_r, <- drop_drop; by rewrite drop_app_length).
    rewrite Ed in E. rewrite one_iff, glob_class_iff by done. setoid_rewrite E. assert (Hc : forall c, t c = true <-> class_matches (x :: body) c); [|by setoid_rewrite Hc].
    intros c. apply class_test_spec; [done|]. intros Hx b rest' ->. cbn in Hreg. by rewrite Hx in Hreg.
  - destruct (taken previous lbracket rest (One (literal lbracket)) 0 ps) as (ps' & -> & H); [|done|lia|].
    { by apply next_open. }
    pose proof (IH (Some lbracket) 0%nat ps' H) as E. cbn in E. rewrite drop_0 in E. rewrite one_iff, glob_open_bracket_iff by (apply index_from_none in Ei; by destruct rest).
    setoid_rewrite E. unfold literal. setoid_rewrite bool_decide_eq_true. setoid_rewrite <- letter_canon.
    assert (Hc : forall c, same_letter lbracket c <-> c = lbracket) by (intros c; apply caseless; right; by left). setoid_rewrite Hc. naive_solver.
Qed.
Lemma denoted_character previous c rest : c ∉ [star; lbracket] -> denoted (Some c) rest -> denoted previous (c :: rest).
Proof.
  rewrite !elem_of_cons, elem_of_nil. intros Hc IH ps Hps p. destruct (decide (c = question)) as [->|Hq].
  - destruct (taken previous question rest (One notSlash) 0 ps) as (ps' & -> & H); [done|done|lia|]. cbn in H. rewrite drop_0 in H.
    rewrite one_iff, glob_question_iff. setoid_rewrite (IH ps' H). unfold notSlash. setoid_rewrite negb_true_iff. by setoid_rewrite bool_decide_eq_false.
  - destruct (taken previous c rest (One (literal c)) 0 ps) as (ps' & -> & H); [|done|lia|].
    { unfold next_piece. by rewrite !bool_decide_eq_false_2 by naive_solver. }
    cbn in H. rewrite drop_0 in H. rewrite one_iff, glob_character_iff by (rewrite !elem_of_cons, elem_of_nil; naive_solver). setoid_rewrite (IH ps' H).
    unfold literal. setoid_rewrite bool_decide_eq_true. by setoid_rewrite <- letter_canon.
Qed.
Lemma pieces_denote g : regular_glob g = true -> forall previous, denoted previous g.
Proof.
  remember (length g) as n eqn:En. revert g En. induction (lt_wf n) as [n _ IH]. intros g -> Hreg previous. destruct g as [|c rest].
  - intros ps [= <-] p. by rewrite glob_end_iff.
  - assert (Hrest : forall k previous', denoted previous' (list.drop k rest)).
    { intros k previous'. apply (IH (length (list.drop k rest))); [rewrite length_drop; cbn; lia|done|].
      apply (regular_suffix (c :: list.take k rest)). cbn [app]. by rewrite take_drop. }
    destruct (decide (c = star)) as [->|Hs]; [by apply denoted_star|]. destruct (decide (c = lbracket)) as [->|Hb]; [by apply denoted_bracket|].
    apply denoted_character; [rewrite !elem_of_cons, elem_of_nil; naive_solver|]. specialize (Hrest 0%nat (Some c)). by rewrite drop_0 in Hrest.
Qed.

(** C36. The state machine decides the language of the glob, as the pattern's documentation
    gives it: [*] and [?] stay within a path segment, [**/] at the start of one spans any
    number of directories and a last [**] anything, [[...]] is one character of a class that
    never leaves the segment when negated, letters match in either case, and a pattern
    protects what lies below what it matches. The pattern is any that compiles and has no
    negated class that begins with a hyphen. *)
Theorem matcher_decides_glob pattern m path :
  compileProtectedPathGlob pattern = Some m -> regular_glob (glob_of pattern) = true ->
  test m path = true <-> glob_protects (glob_of pattern) (chars path).
Proof.
  unfold compileProtectedPathGlob. destruct (pieces pattern) as [ps|] eqn:Eps; [|done]. intros [= <-] Hreg. rewrite test_spec.
  unfold protects, glob_protects. by setoid_rewrite (pieces_denote _ Hreg None ps Eps).
Qed.

(** ** The decision *)

(** Some configured or built-in pattern protects the file. *)
Definition protected_by (patterns : list string) (file : string) : Prop :=
  exists p ps, p ∈ ALWAYS_PROTECTED_PATHS ++ patterns /\ pieces p = Some ps /\ protects ps (chars file).

Lemma matchers_spec patterns matchers file :
  mapM compileProtectedPathGlob patterns = Some matchers ->
  existsb (fun m => test m file) matchers = true <->
  exists p ps, p ∈ patterns /\ pieces p = Some ps /\ protects ps (chars file).
Proof.
  intros H. apply mapM_Some in H. rewrite existsb_exists. split.
  - intros (m & Hm & Ht). apply list_elem_of_In in Hm.
    apply list_elem_of_lookup_1 in Hm as [i Hi]. destruct (Forall2_lookup_r _ _ _ _ _ H Hi) as (p & Hp & Hc).
    apply list_elem_of_lookup_2 in Hp. exists p. unfold compileProtectedPathGlob in Hc.
    destruct (pieces p) as [ps|] eqn:E; [|done]. simplify_eq/=. exists ps. split_and!; [done|done|]. by apply test_spec.
  - intros (p & ps & Hp & Hps & Hpr). apply list_elem_of_lookup_1 in Hp as [i Hi].
    destruct (Forall2_lookup_l _ _ _ _ _ H Hi) as (m & Hm & Hc). apply list_elem_of_lookup_2 in Hm.
    exists m. split; [by apply list_elem_of_In|]. unfold compileProtectedPathGlob in Hc. rewrite Hps in Hc.
    simplify_eq/=. by apply test_spec.
Qed.

Lemma found_spec files patterns found :
  findProtectedPaths files patterns = Some found ->
  forall file, file ∈ found <-> file ∈ files /\ protected_by patterns file.
Proof.
  unfold findProtectedPaths. destruct (mapM _ _) as [ms|] eqn:E; [|done]. intros [= <-] file.
  rewrite sort_by_perm, elem_of_remove_dups, list_elem_of_filter, (matchers_spec _ _ _ E). unfold protected_by. tauto.
Qed.

(** Validated patterns compile. *)
Lemma patterns_compile l i : patterns_error i l = None -> Forall (fun p => is_Some (compileProtectedPathGlob p)) (json_strings l).
Proof.
  revert i; induction l as [|v l IH]; intros i H; [constructor|]. simpl in H.
  destruct (pattern_error i v) eqn:E; [done|]. destruct v; simpl in E; try done. simpl. constructor; [|by eapply IH].
  repeat (case_bool; [done|]). by destruct (compileProtectedPathGlob s).
Qed.

Lemma find_never_throws config files :
  validateAutoMergeConfig config = None -> is_Some (findProtectedPaths files (protected_paths config)).
Proof.
  intros H. unfold findProtectedPaths.
  assert (Hall : Forall (fun p => is_Some (compileProtectedPathGlob p)) (ALWAYS_PROTECTED_PATHS ++ protected_paths config)).
  { apply Forall_app. split; [by repeat constructor|].
    unfold validateAutoMergeConfig in H. unfold protected_paths. destruct config; try constructor.
    destruct (find _ fields) as [[]|]; [done|]. do 2 (case_bool; [done|]).
    destruct (field "protected_paths" fields) as [[]|]; try constructor. case_bool; [|done].
    by eapply patterns_compile. }
  apply mapM_is_Some in Hall as [ms Hms]. simpl in *. rewrite Hms. by eexists.
Qed.

Lemma decision_total policy changedFiles : decideAutoMerge policy changedFiles <> decision_threw.
Proof.
  unfold decideAutoMerge. destruct policy as [c|]; [|done].
  destruct (validateAutoMergeConfig _) eqn:Ev; [done|]. case_bool; [done|]. destruct changedFiles as [l|]; [|done].
  destruct (filter _ l) as [|f fs]; [done|]. destruct (find_never_throws _ (f :: fs) Ev) as [found ->]. by destruct found.
Qed.

(** Auto-merge is fail-closed: it is armed exactly when the policy is readable,
    valid and not disabled, the diff is known and not empty, and no changed file is
    protected by `.propr` or a configured pattern; in every other case the decision
    is a skip with its reason, and it never throws. *)
Theorem armed_iff policy changedFiles :
  decideAutoMerge policy changedFiles <> decision_threw
  /\ ((exists method, decideAutoMerge policy changedFiles = armed method) <->
  exists c files, policy = policy_valid c /\ changedFiles = Some files
    /\ validateAutoMergeConfig (effective_config c) = None
    /\ (forall r, effective_config c = JObj r -> field "enabled" r <> Some (JBool false))
    /\ (exists file, file ∈ files /\ file <> ""%string)
    /\ (forall file, file ∈ files -> file <> ""%string -> ~ protected_by (protected_paths (effective_config c)) file)).
Proof.
  split; [apply decision_total|]. unfold decideAutoMerge. split.
  - intros [method H]. destruct policy as [c|]; [|done]. set (config := effective_config c) in *.
    destruct (validateAutoMergeConfig config) eqn:Ev; [done|]. case_bool; [done|].
    destruct changedFiles as [l|]; [|done]. exists c, l. split_and!; [done..| | |].
    + intros r Hr Hf. change (config = JObj r) in Hr. by rewrite Hr, Hf in E.
    + destruct (filter _ l) as [|f fs] eqn:Ef; [done|]. exists f.
      assert (Hf : f ∈ filter (fun file => file <> ""%string) l) by (rewrite Ef; by left).
      apply list_elem_of_filter in Hf as [? ?]. done.
    + intros file Hin Hne Hp. assert (Hf : file ∈ filter (fun file => file <> ""%string) l) by by apply list_elem_of_filter.
      destruct (filter _ l) as [|f fs]; [by apply elem_of_nil in Hf|].
      destruct (findProtectedPaths (f :: fs) (protected_paths config)) as [[|x xs]|] eqn:Efp; [|done..].
      assert (Hbad : file ∈ @nil string) by by apply (found_spec _ _ _ Efp). by apply elem_of_nil in Hbad.
  - intros (c & files & -> & -> & Hv & Hen & (file & Hin & Hne) & Hno). rewrite Hv.
    set (config := effective_config c) in *. case_bool.
    { exfalso. destruct config; try done. specialize (Hen fields eq_refl). by repeat case_match. }
    assert (Hf : file ∈ filter (fun file => file <> ""%string) files) by by apply list_elem_of_filter.
    destruct (filter _ files) as [|f fs] eqn:Ef; [by apply elem_of_nil in Hf|].
    destruct (find_never_throws config (f :: fs) Hv) as [found Hfound]. rewrite Hfound.
    destruct found as [|x xs]; [by eexists|]. exfalso.
    destruct (proj1 (found_spec _ _ _ Hfound x)) as [Hx Hp]; [by left|]. rewrite <- Ef in Hx.
    apply list_elem_of_filter in Hx as [H1 H2]. by apply (Hno x).
Qed.

Lemma matches_literals l s : map canon s = map canon l -> matches (map (fun c => One (literal c)) l) s.
Proof.
  revert s; induction l as [|x l IH]; intros [|c s] H; simplify_eq/=; [done|].
  exists [c], s. split_and!; [done| |by apply IH]. exists c. split; [done|]. unfold literal. by apply bool_decide_eq_true.
Qed.

(** Repository configuration is always protected: a diff that touches `.propr`, in
    any letter case, or anything below it is never armed, whatever the policy says. *)
Theorem repository_policy_never_armed policy files file dir rest method :
  file ∈ files -> chars file = dir ++ rest -> map canon dir = map canon (chars ".propr") ->
  rest = [] \/ head rest = Some slash ->
  decideAutoMerge policy (Some files) <> armed method.
Proof.
  intros Hin Hfile Hdir Hrest H. unfold decideAutoMerge in H. destruct policy as [c|]; [|done].
  destruct (validateAutoMergeConfig _) eqn:Ev; [done|]. case_bool; [done|].
  assert (Hne : file <> ""%string) by (intros ->; destruct dir; simplify_eq/=).
  assert (Hf : file ∈ filter (fun file => file <> ""%string) files) by by apply list_elem_of_filter.
  destruct (filter _ files) as [|f fs]; [by apply elem_of_nil in Hf|].
  destruct (findProtectedPaths (f :: fs) _) as [[|x xs]|] eqn:Efp; [|done..].
  assert (Hbad : file ∈ @nil string); [|by apply elem_of_nil in Hbad].
  apply (found_spec _ _ _ Efp). split; [done|].
  exists ".propr"%string, (map (fun c => One (literal c)) (chars ".propr")).
  split_and!; [by left|reflexivity|]. rewrite Hfile. pose proof (matches_literals _ _ Hdir) as Hm.
  destruct Hrest as [->|Hr]; [left; by rewrite app_nil_r|right].
  destruct rest as [|r rest]; [done|]. simplify_eq/=. by exists dir, rest.
Qed.

(** A negated class is written as the characters it excludes, but the slash that is
    excluded implicitly forms a range with a leading hyphen. *)
Example negated_class_range :
  (fun m => test m "5") <$> compileProtectedPathGlob "[!-a]" = Some false
  /\ (fun m => test m "5") <$> compileProtectedPathGlob "[!a-]" = Some true.
Proof. split; vm_compute; reflexivity. Qed.

(** ** Concrete policies *)

(** The pattern `docs/**/[a-c]*.md` compiles. *)
Lemma matcher_decides_glob_witness :
  glob_protects (glob_of "docs/**/[a-c]*.md") (chars "Docs/x/y/base.md") /\ ~ glob_protects (glob_of "docs/**/[a-c]*.md") (chars "docs/zebra.md").
Proof.
  assert (Hd : (fun m => (test m "Docs/x/y/base.md", test m "docs/zebra.md")) <$> compileProtectedPathGlob "docs/**/[a-c]*.md"
               = Some (true, false)) by (vm_compute; reflexivity).
  destruct (compileProtectedPathGlob "docs/**/[a-c]*.md") as [m|] eqn:E; [|discriminate Hd]. injection Hd as H1 H2. split.
  - apply (matcher_decides_glob "docs/**/[a-c]*.md" m "Docs/x/y/base.md" E); [vm_compute; reflexivity|assumption].
  - intros H. apply (matcher_decides_glob "docs/**/[a-c]*.md" m "docs/zebra.md" E) in H; [congruence|vm_compute; reflexivity].
Defined.

Lemma repository_policy_never_armed_witness :
  decideAutoMerge (policy_valid None) (Some ["src/a.ts"; ".ProPR/workflow.yml"]%string) <> armed None
  /\ decideAutoMerge (policy_valid None) (Some ["src/a.ts"; ".ProPR/workflow.yml"]%string)
     = skipped_protected_path [".ProPR/workflow.yml"%string]
  /\ decideAutoMerge (policy_valid None) (Some ["src/a.ts"; ".proprs"]%string) = armed None.
Proof.
  split; [|split; vm_compute; reflexivity].
  apply (repository_policy_never_armed _ _ ".ProPR/workflow.yml" (chars ".ProPR") (chars "/workflow.yml")).
  - right. left.
  - reflexivity.
  - reflexivity.
  - right. reflexivity.
Defined.
