(* ===== verification/TaskState.v ===== *)
(** * The state of a task

    The record a worker keeps of every task (packages/core/src/utils/workerStateManager.types.ts),
    its transitions (workerStateTransition.ts), the operations of [WorkerStateManager]
    (workerStateManager.ts) as programs over the task's Redis key.
    Timestamps are milliseconds: the code only compares the ISO strings for equality and
    parses them. Publishing to the database and the event bus never throws and is left out.
    Redaction of secrets is a parameter: the theorems hold for every redaction. *)

From S2P Require Import Prelude JsString Json Interleave.

Open Scope Z_scope.
Open Scope list_scope.

Inductive TaskState :=
  | PENDING | PROCESSING | CLAUDE_EXECUTION | POST_PROCESSING | COMPLETED | FAILED | CANCELLED.
#[export] Instance TaskState_eq_dec : EqDecision TaskState.
Proof. solve_decision. Defined.

Inductive TaskTerminalReason :=
  | timed_out | cost_cap_exceeded | stalled | degenerate_output | cancelled_issue_closed
  | cancelled_label_removed | cancelled_pr_closed | cancelled_by_user | pr_merged | skipped_issue_done.
#[export] Instance TaskTerminalReason_eq_dec : EqDecision TaskTerminalReason.
Proof. solve_decision. Defined.

Definition reason_text (r : TaskTerminalReason) : string :=
  match r with
  | timed_out => "timed_out" | cost_cap_exceeded => "cost_cap_exceeded" | stalled => "stalled"
  | degenerate_output => "degenerate_output" | cancelled_issue_closed => "cancelled_issue_closed"
  | cancelled_label_removed => "cancelled_label_removed" | cancelled_pr_closed => "cancelled_pr_closed"
  | cancelled_by_user => "cancelled_by_user" | pr_merged => "pr_merged" | skipped_issue_done => "skipped_issue_done"
  end.
Definition knownReasons : list TaskTerminalReason :=
  [timed_out; cost_cap_exceeded; stalled; degenerate_output; cancelled_issue_closed; cancelled_label_removed;
   cancelled_pr_closed; cancelled_by_user; pr_merged; skipped_issue_done].
Definition known_reason (s : string) : option TaskTerminalReason :=
  find (fun r => bool_decide (reason_text r = s)) knownReasons.

Definition state_text (s : TaskState) : string :=
  match s with
  | PENDING => "pending" | PROCESSING => "processing" | CLAUDE_EXECUTION => "claude_execution"
  | POST_PROCESSING => "post_processing" | COMPLETED => "completed" | FAILED => "failed" | CANCELLED => "cancelled"
  end.

Abbreviation object := (list (string * json)).

Record HistoryEntry := Entry {
  h_state : TaskState;
  h_timestamp : Z;
  h_reason : string;
  h_metadata : option object;
}.

Record LastError := TaskError { e_message : string; e_category : string; e_timestamp : Z }.

Record TaskStateData := Task {
  taskId : string;
  issueRef : object;
  correlationId : string;
  state : TaskState;
  createdAt : Z;
  updatedAt : Z;
  version : option Z;
  attempts : Z;
  history : list HistoryEntry;
  lastError : option LastError;
  terminalReason : option TaskTerminalReason;
  worktreeInfo : option object;
  claudeResult : option object;
  prResult : option object;
}.

Record TaskStateExpectation := Expect {
  x_state : TaskState;
  x_createdAt : Z;
  x_updatedAt : Z;
  x_correlationId : string;
  x_version : option Z;
}.

Record UpdateMetadata := Update {
  m_terminalReason : option TaskTerminalReason;
  m_isRetry : bool;
  m_reopenTerminal : bool;
  m_withdrawnQueuedRetry : bool;
  m_error : option (string * option string);
  m_worktreeInfo : option object;
  m_claudeResult : option object;
  m_prResult : option object;
  m_reason : option string;
  m_historyMetadata : option object;
  m_errorCategory : option string;
}.
Definition no_metadata : UpdateMetadata :=
  Update None false false false None None None None None None None.

(** [metadata.historyMetadata?.k] *)
Definition history_field (k : string) (m : UpdateMetadata) : option json := m_historyMetadata m ≫= field k.

Definition TERMINAL_TASK_STATES : list TaskState := [COMPLETED; FAILED; CANCELLED].

(** The text of [String(v)] where it is a word without a comma: arrays of one element
    print as that element, other values never print as such a word. *)
Fixpoint word_of (v : json) : option string :=
  match v with JStr s => Some s | JArr [v] => word_of v | _ => None end.

(** [/^Task job (requeued|rescheduled)(:|$)/] *)
Definition handoff_reason (reason : string) : bool :=
  existsb (fun p => starts_with p reason
             && match drop (String.length p) reason with EmptyString => true | String c _ => bool_decide (c = char 58) end)
    ["Task job requeued"; "Task job rescheduled"]%string.

Definition isBookkeepingCancellation (task : TaskStateData) : bool :=
  if negb (bool_decide (state task = CANCELLED)) || bool_decide (terminalReason task <> None) then false
  else
    let entry := last (history task) in
    bool_decide ((((entry ≫= h_metadata) ≫= field "jobResultStatus") ≫= word_of) ∈ [Some "requeued"; Some "rescheduled"]%string)
    || handoff_reason (default ""%string (h_reason <$> entry)).

(** ** Transitions *)

Definition taskStateExpectation (task : TaskStateData) : TaskStateExpectation :=
  Expect (state task) (createdAt task) (updatedAt task) (correlationId task) (version task).

Definition matchesExpectation (task : TaskStateData) (x : TaskStateExpectation) : bool :=
  bool_decide (state task = x_state x) && (createdAt task =? x_createdAt x) && (updatedAt task =? x_updatedAt x)
  && bool_decide (correlationId task = x_correlationId x) && (default 0 (version task) =? default 0 (x_version x)).

(** The record with its revision advanced, before the mutation proper. *)
Definition touch (current : TaskStateData) (now : Z) : TaskStateData :=
  Task (taskId current) (issueRef current) (correlationId current) (state current) (createdAt current) now
    (Some (default 0 (version current) + 1)) (attempts current) (history current) (lastError current)
    (terminalReason current) (worktreeInfo current) (claudeResult current) (prResult current).

Definition buildTaskStateMutation (current : TaskStateData) (now : Z) (mutate : TaskStateData -> Z -> TaskStateData) : TaskStateData :=
  mutate (touch current now) now.

Record TaskStateTransition := Transition {
  t_state : TaskStateData;
  t_previousState : TaskState;
  t_reason : string;
}.

(** The spend-cap guard active around the caller: its task and whether it was exceeded. *)
Definition runCostCapTerminalReason (guard : option (string * bool)) (taskId : string) (newState : TaskState) : option TaskTerminalReason :=
  if bool_decide (newState = COMPLETED) || bool_decide (newState = FAILED) then
    match guard with
    | Some (id, true) => if bool_decide (id = taskId) then Some cost_cap_exceeded else None
    | _ => None
    end
  else None.

Definition or_else {A} (a b : option A) : option A := match a with Some _ => a | None => b end.

Definition resolveTerminalReason (guard : option (string * bool)) (taskId : string) (newState : TaskState) (metadata : UpdateMetadata) : option TaskTerminalReason :=
  let cancellationReason :=
    match history_field "cancellationReason" metadata with
    | Some (JStr s) => known_reason (if bool_decide (s = "user_cancelled"%string) then "cancelled_by_user" else s)
    | _ => None
    end in
  let reason := to_lower (default ""%string (m_reason metadata)) in
  or_else (m_terminalReason metadata)
    (or_else cancellationReason
      (or_else (if bool_decide (newState = CANCELLED) && (includes "cancelled by user" reason || includes "user request" reason)
                then Some cancelled_by_user else None)
         (runCostCapTerminalReason guard taskId newState))).

(** [{ ...metadata, ...(terminalReason ? { terminalReason } : {}) }] *)
Definition entry_metadata (metadata : option object) (r : option TaskTerminalReason) : object :=
  spread (default [] metadata) (match r with Some r => [("terminalReason"%string, JStr (reason_text r))] | None => [] end).

Section Tasks.
Context {raw : Type} `{!EqDecision raw} `{!Serial raw TaskStateData}.
Variable redactSecrets : string -> string.
Variable guard : option (string * bool).

Definition buildTaskStateTransition (current : TaskStateData) (newState : TaskState) (metadata : UpdateMetadata) (now : Z) : TaskStateTransition :=
  let previousState := state current in
  let reason := redactSecrets (default ("State changed from " ++ state_text previousState)%string (m_reason metadata)) in
  let terminal := resolveTerminalReason guard (taskId current) newState metadata in
  let next := buildTaskStateMutation current now (fun next timestamp =>
    Task (taskId next) (issueRef next) (correlationId next) newState (createdAt next) (updatedAt next) (version next)
      (if m_isRetry metadata then attempts next + 1 else attempts next)
      (history next ++ [Entry newState timestamp reason (Some (entry_metadata (m_historyMetadata metadata) terminal))])
      (match m_error metadata with
       | Some (message, category) => Some (TaskError (redactSecrets message) (default "unknown"%string category) timestamp)
       | None => lastError next
       end)
      terminal
      (or_else (m_worktreeInfo metadata) (worktreeInfo next))
      (or_else (m_claudeResult metadata) (claudeResult next))
      (or_else (m_prResult metadata) (prResult next))) in
  Transition next previousState reason.

(** ** The manager's operations on one key *)

Abbreviation M := (Interleave.M (option raw)).

Definition get : M (option raw) := call (fun s => (s, s)).
Definition parse_json (j : raw) : M TaskStateData :=
  match parse j with Some task => mret task | None => throw "Unexpected token in JSON" end.

(** The script: replace the value if it is still [currentJson]. *)
Definition compareAndSetTaskStateData (currentJson : raw) (next : TaskStateData) : M bool :=
  call (fun s => if bool_decide (s = Some currentJson) then (true, Some (stringify next)) else (false, s)).

Definition MAX_ATOMIC_UPDATE_ATTEMPTS : nat := 8.

(** [for (attempt = 0; attempt < n; attempt++)]: [body] answers, or is tried again. *)
Fixpoint atomic_attempts {A} (n attempt : nat) (body : nat -> M (option A)) (conflict : string) : M A :=
  match n with
  | O => throw conflict
  | S n => r ← body attempt; match r with Some a => mret a | None => atomic_attempts n (S attempt) body conflict end
  end.

Definition hasPullRequestResult (task : TaskStateData) : bool :=
  truthy_json (prResult task ≫= field "prNumber") || is_true (prResult task ≫= field "prCreated").

Definition isTerminalTaskContinuation (current : TaskStateData) (newState : TaskState) (metadata : UpdateMetadata) : bool :=
  bool_decide (newState = PROCESSING) && m_reopenTerminal metadata
  || bool_decide (state current = FAILED)
     && (bool_decide (newState = PROCESSING) && m_isRetry metadata
         || bool_decide (newState = CANCELLED) && m_withdrawnQueuedRetry metadata).

(** The transition is ignored: the current record is the answer. *)
Definition keeps_current (current : TaskStateData) (newState : TaskState) (metadata : UpdateMetadata) : bool :=
  let isHandoff := isBookkeepingCancellation current in
  let continuation := isTerminalTaskContinuation current newState metadata in
  bool_decide (newState = CANCELLED) && hasPullRequestResult current
    && match m_terminalReason metadata with
       | Some r => bool_decide (r = cancelled_issue_closed)
       | None => is_text "cancelled_issue_closed" (history_field "cancellationReason" metadata)
       end
  || bool_decide (state current = CANCELLED) && negb isHandoff && negb continuation
  || bool_decide (state current ∈ TERMINAL_TASK_STATES) && negb (bool_decide (state current = newState))
     && negb continuation && negb isHandoff.

Variable clock : nat -> Z.

Definition not_found (taskId : string) : string := "Task state not found for taskId: " ++ taskId.
Definition conflicted (what taskId : string) : string :=
  what ++ " conflicted " ++ show (Z.of_nat MAX_ATOMIC_UPDATE_ATTEMPTS) ++ " times for taskId: " ++ taskId.

Definition update_attempt (taskId : string) (newState : TaskState) (metadata : UpdateMetadata) (attempt : nat) : M (option TaskStateData) :=
  stateJson ← get;
  match stateJson with
  | None => throw (not_found taskId)
  | Some j =>
      current ← parse_json j;
      if keeps_current current newState metadata then mret (Some current)
      else
        let next := t_state (buildTaskStateTransition current newState metadata (clock attempt)) in
        updated ← compareAndSetTaskStateData j next;
        mret (if updated : bool then Some next else None)
  end.

Definition updateTaskState (taskId : string) (newState : TaskState) (metadata : UpdateMetadata) : M TaskStateData :=
  atomic_attempts MAX_ATOMIC_UPDATE_ATTEMPTS 0 (update_attempt taskId newState metadata) (conflicted "Task state update" taskId).

Definition updateTaskStateIfCurrent (expectation : TaskStateExpectation) (newState : TaskState) (metadata : UpdateMetadata) : M (option TaskStateData) :=
  currentJson ← get;
  match currentJson with
  | None => mret None
  | Some j =>
      current ← parse_json j;
      if negb (matchesExpectation current expectation) then mret None
      else
        let next := t_state (buildTaskStateTransition current newState metadata (clock 0)) in
        updated ← compareAndSetTaskStateData j next;
        mret (if updated : bool then Some next else None)
  end.

Definition patch_issue (patch : object) (next : TaskStateData) : TaskStateData :=
  Task (taskId next) (spread (issueRef next) patch) (correlationId next) (state next) (createdAt next) (updatedAt next)
    (version next) (attempts next) (history next) (lastError next) (terminalReason next) (worktreeInfo next)
    (claudeResult next) (prResult next).

Definition issue_attempt (patch : object) (attempt : nat) : M (option (option TaskStateData)) :=
  stateJson ← get;
  match stateJson with
  | None => mret (Some None)
  | Some j =>
      current ← parse_json j;
      let next := buildTaskStateMutation current (clock attempt) (fun next _ => patch_issue patch next) in
      updated ← compareAndSetTaskStateData j next;
      mret (if updated : bool then Some (Some next) else None)
  end.

Definition updateIssueRef (taskId : string) (patch : object) : M (option TaskStateData) :=
  atomic_attempts MAX_ATOMIC_UPDATE_ATTEMPTS 0 (issue_attempt patch) (conflicted "Task issue reference update" taskId).

(** The index of the last entry in a state. *)
Definition findLastIndex (s : TaskState) (h : list HistoryEntry) : option nat :=
  match list_find (fun e => h_state e = s) (reverse h) with Some (i, _) => Some (length h - 1 - i)%nat | None => None end.

Definition patch_history (index : nat) (metadata : object) (next : TaskStateData) : TaskStateData :=
  Task (taskId next) (issueRef next) (correlationId next) (state next) (createdAt next) (updatedAt next) (version next)
    (attempts next)
    (alter (fun e => Entry (h_state e) (h_timestamp e) (h_reason e) (Some (spread (default [] (h_metadata e)) metadata))) index (history next))
    (lastError next) (terminalReason next) (worktreeInfo next) (claudeResult next) (prResult next).

Definition history_attempt (taskId : string) (historyState : TaskState) (metadata : object) (attempt : nat) : M (option TaskStateData) :=
  stateJson ← get;
  match stateJson with
  | None => throw (not_found taskId)
  | Some j =>
      current ← parse_json j;
      match findLastIndex historyState (history current) with
      | None => mret (Some current)
      | Some index =>
          let next := buildTaskStateMutation current (clock attempt) (fun next _ => patch_history index metadata next) in
          updated ← compareAndSetTaskStateData j next;
          mret (if updated : bool then Some next else None)
      end
  end.

Definition updateHistoryMetadata (taskId : string) (historyState : TaskState) (metadata : object) : M TaskStateData :=
  atomic_attempts MAX_ATOMIC_UPDATE_ATTEMPTS 0 (history_attempt taskId historyState metadata) (conflicted "Task history metadata update" taskId).

Definition buildInitialTaskState (taskId : string) (ref : object) (correlationId : string) (now : Z) : TaskStateData :=
  Task taskId ref correlationId PENDING now now (Some 1) 0 [Entry PENDING now "Task created" None] None None None None None.

Definition createTaskState (taskId : string) (ref : object) (correlationId : string) : M TaskStateData :=
  let initial := buildInitialTaskState taskId ref correlationId (clock 0) in
  call (fun _ => (initial, Some (stringify initial))).

Definition getTaskState : M (option TaskStateData) :=
  j ← get; match j with None => mret None | Some j => task ← parse_json j; mret (Some task) end.

Definition createTaskStateIfAbsent (taskId : string) (ref : object) (correlationId : string) : M (option TaskStateData) :=
  let initial := buildInitialTaskState taskId ref correlationId (clock 0) in
  created ← call (fun s => match s with None => (true, Some (stringify initial)) | Some _ => (false, s) end);
  if created : bool then mret (Some initial) else getTaskState.

(** ** Ways a task ends *)

Definition markTaskFailed (taskId : string) (message : string) (metadata : UpdateMetadata) : M TaskStateData :=
  updateTaskState taskId FAILED
    (Update (m_terminalReason metadata) (m_isRetry metadata) (m_reopenTerminal metadata) (m_withdrawnQueuedRetry metadata)
       (Some (message, Some (default "unknown"%string (m_errorCategory metadata)))) (m_worktreeInfo metadata) (m_claudeResult metadata)
       (m_prResult metadata) (Some ("Task failed: " ++ message)%string) (m_historyMetadata metadata) (m_errorCategory metadata)).

(** [cancelledAt] is the ISO text of the caller's clock. *)
Definition markTaskCancelled (taskId cancelledBy cancelledAt : string) (metadata : UpdateMetadata) : M TaskStateData :=
  let inferred :=
    if negb (bool_decide (cancelledBy = "system"%string)) && bool_decide (m_terminalReason metadata = None)
       && negb (truthy_json (history_field "cancellationReason" metadata))
    then Some cancelled_by_user else m_terminalReason metadata in
  updateTaskState taskId CANCELLED
    (Update inferred (m_isRetry metadata) (m_reopenTerminal metadata) (m_withdrawnQueuedRetry metadata) (m_error metadata)
       (m_worktreeInfo metadata) (m_claudeResult metadata) (m_prResult metadata)
       (Some (default ("Task cancelled by " ++ cancelledBy)%string (m_reason metadata)))
       (Some (spread (default [] (m_historyMetadata metadata)) [("cancelledBy", JStr cancelledBy); ("cancelledAt", JStr cancelledAt)]%string))
       (m_errorCategory metadata)).

Definition markTaskCompleted (taskId : string) (result : object) : M TaskStateData :=
  let reason := match field "terminalReason" result with Some (JStr s) => known_reason s | _ => None end in
  let pr := match field "prUrl" result, field "prNumber" result with
            | Some url, Some n => if truthy_json (Some url) && truthy_json (Some n) then JObj [("number", n); ("url", url)]%string else JNull
            | _, _ => JNull
            end in
  updateTaskState taskId COMPLETED
    (Update (if bool_decide (reason ∈ [Some timed_out; Some cost_cap_exceeded; Some stalled; Some degenerate_output]) then reason else None)
       false false false None None None (Some result) (Some "Task completed successfully"%string)
       (Some [("pr", pr); ("commitResult", default JNull (nullish (field "commitResult" result) None))]%string) None).

(** ** Recovery *)

Definition resumableStates : list TaskState := [PROCESSING; CLAUDE_EXECUTION; POST_PROCESSING].
Definition staleThreshold : Z := 30 * 60 * 1000.

(** The resumable task, whether it is stale and for how long. *)
Definition getResumableTask (now : Z) : M (option (TaskStateData * bool * option Z)) :=
  r ← getTaskState;
  mret (task ← r;
        if negb (bool_decide (state task ∈ resumableStates)) then None
        else if staleThreshold <? now - updatedAt task then Some (task, true, Some (now - updatedAt task))
        else Some (task, false, None)).

(** One key's turn in [cleanupOldTasks]: whether it was deleted; a parse failure skips it. *)
Definition cleanup_key (maxAge now : Z) : M bool :=
  catch (j ← get;
         match j with
         | None => mret false
         | Some j =>
             task ← parse_json j;
             if bool_decide (state task ∈ TERMINAL_TASK_STATES) && (updatedAt task <? now - maxAge * 1000)
             then call (fun _ => (true, None)) else mret false
         end) (fun _ => mret false).
End Tasks.
