(* ===== verification/TaskFacts.v ===== *)
(** * Correctness of the task state manager

    Every update is one atomic transition of the record it was decided on, under any
    interference; revisions identify records; a finished task stays finished; and what
    the reconciler writes is read back as it was meant. *)

From S2P Require Import Prelude JsString Json Interleave TaskState.

Open Scope Z_scope.
Open Scope list_scope.

Section TaskFacts.
Context {raw : Type} `{!EqDecision raw} `{!Serial raw TaskStateData}.
Variable redactSecrets : string -> string.
Variable guard : option (string * bool).
Variable clock : nat -> Z.

Abbreviation M := (Interleave.M (option raw)).
Abbreviation world := (Interleave.world (option raw)).
Abbreviation update := (updateTaskState redactSecrets guard clock).
Abbreviation update_once := (update_attempt redactSecrets guard clock).
Abbreviation transition := (buildTaskStateTransition redactSecrets guard).

(** ** Runs of one attempt *)

(** What the next call finds, and the world after a call that leaves [s']. *)
Definition seen (w : world) : option raw := match others w with g :: _ => g (store w) | [] => store w end.
Definition after (w : world) (s' : option raw) : world := World s' (tail (others w)) (trace w ++ [(seen w, s')]).

Lemma get_run w : get w = (Ok (seen w), after w (seen w)).
Proof. done. Qed.

Lemma cas_run j next w :
  compareAndSetTaskStateData j next w =
  if bool_decide (seen w = Some j) then (Ok true, after w (Some (stringify next))) else (Ok false, after w (seen w)).
Proof. unfold compareAndSetTaskStateData, call. fold (seen w). by case_bool_decide. Qed.

(** One attempt either throws or answers without a write, or writes the transition of
    the record it read, or leaves the key alone and is tried again. *)
Lemma update_attempt_run taskId newState metadata k w :
  let w1 := after w (seen w) in
  match seen w with
  | None => exists e, update_once taskId newState metadata k w = (Throw e, w1)
  | Some j =>
      match parse j with
      | None => exists e, update_once taskId newState metadata k w = (Throw e, w1)
      | Some cur =>
          let next := t_state (transition cur newState metadata (clock k)) in
          update_once taskId newState metadata k w =
          if keeps_current cur newState metadata then (Ok (Some cur), w1)
          else if bool_decide (seen w1 = Some j) then (Ok (Some next), after w1 (Some (stringify next)))
          else (Ok None, after w1 (seen w1))
      end
  end.
Proof.
  intros w1. unfold update_attempt, mbind, M_bind. rewrite get_run.
  destruct (seen w) as [j|] eqn:E; [|by eexists]. unfold parse_json. destruct (parse j) as [cur|]; [|by eexists].
  unfold mret, M_ret. destruct (keeps_current _ _ _); [done|]. rewrite cas_run.
  unfold w1. by destruct (bool_decide _).
Qed.

Definition unchanged (l : list (option raw * option raw)) : Prop := Forall (fun ss => ss.2 = ss.1) l.

(** What [n] attempts do, whatever other processes do in between. *)
Definition atomic_update (newState : TaskState) (metadata : UpdateMetadata) (w : world) (r : result TaskStateData) (w' : world) : Prop :=
  exists l, trace w' = trace w ++ l /\
    match r with
    | Throw _ => unchanged l
    | Ok st => exists l0 j cur, unchanged l0 /\ parse j = Some cur /\
        ((keeps_current cur newState metadata = true /\ st = cur /\ l = l0 ++ [(Some j, Some j)])
         \/ (keeps_current cur newState metadata = false
             /\ exists now, st = t_state (transition cur newState metadata now) /\ l = l0 ++ [(Some j, Some (stringify st))]))
    end.

Lemma atomic_update_later newState metadata w w1 l1 r w' :
  trace w1 = trace w ++ l1 -> unchanged l1 -> atomic_update newState metadata w1 r w' -> atomic_update newState metadata w r w'.
Proof.
  intros H1 Hl (l & Hl' & Hr). exists (l1 ++ l). rewrite Hl', H1, app_assoc. split; [done|].
  destruct r as [st|e]; [|by apply Forall_app].
  destruct Hr as (l0 & j & cur & H0 & Hp & Hr). exists (l1 ++ l0), j, cur. split_and!; [by apply Forall_app|done|].
  destruct Hr as [(? & ? & ->)|(? & now & ? & ->)]; [left|right; split; [done|exists now]]; by rewrite <- app_assoc.
Qed.

Lemma attempts_atomic taskId newState metadata conflict n : forall k w r w',
  atomic_attempts n k (update_once taskId newState metadata) conflict w = (r, w') -> atomic_update newState metadata w r w'.
Proof.
  induction n as [|n IH]; intros k w r w' H.
  { simpl in H. injection H as <- <-. exists []. rewrite app_nil_r. split; [done|constructor]. }
  simpl in H. unfold mbind, M_bind in H. pose proof (update_attempt_run taskId newState metadata k w) as Hrun. cbv zeta in Hrun.
  destruct (seen w) as [j|] eqn:E.
  2: { destruct Hrun as [e Hrun]. rewrite Hrun in H. injection H as <- <-. exists [(None, None)]. simpl. rewrite E. split; [done|by repeat constructor]. }
  destruct (parse j) as [cur|] eqn:Ep.
  2: { destruct Hrun as [e Hrun]. rewrite Hrun in H. injection H as <- <-. exists [(Some j, Some j)]. simpl. rewrite E. split; [done|by repeat constructor]. }
  rewrite Hrun in H. destruct (keeps_current cur newState metadata) eqn:Ek.
  { injection H as <- <-. exists [(Some j, Some j)]. simpl. rewrite E. split; [done|].
    exists [], j, cur. split_and!; [constructor|done|]. by left. }
  set (w1 := after w (Some j)) in *.
  assert (Ht : trace w1 = trace w ++ [(Some j, Some j)]) by (unfold w1, after; simpl; by rewrite E).
  case_bool_decide as Es.
  - injection H as <- <-. eexists. unfold after at 1. cbn [trace]. rewrite Ht, Es, <- app_assoc. split; [reflexivity|].
    exists [(Some j, Some j)], j, cur. split_and!; [by repeat constructor|done|]. right. split; [done|]. by eexists.
  - eapply (atomic_update_later _ _ _ (after w1 (seen w1)) [(Some j, Some j); (seen w1, seen w1)]); [|by repeat constructor|by eapply IH].
    unfold after at 1. cbn [trace]. by rewrite Ht, <- app_assoc.
Qed.

(** An update is atomic under any interference: it answers with the unchanged record
    it read, or with the transition of the record that its single write replaced; when
    it throws it has written nothing. *)
Theorem update_is_atomic taskId newState metadata w :
  atomic_update newState metadata w (fst (update taskId newState metadata w)) (snd (update taskId newState metadata w)).
Proof. eapply attempts_atomic. by apply surjective_pairing. Qed.
(** ** Progress *)

Definition readable (s : option raw) : Prop := exists j cur, s = Some j /\ parse j = Some cur.
Definition keeps_readable (g : option raw -> option raw) : Prop := forall s, readable s -> readable (g s).
(** Nothing happens before the call with index [i]. *)
Definition quiet_at (fs : list (option raw -> option raw)) (i : nat) : Prop :=
  match fs !! i with Some g => forall s, g s = s | None => True end.

Lemma seen_readable w : readable (store w) -> Forall keeps_readable (others w) -> readable (seen w).
Proof. intros Hr Hg. unfold seen. destruct (others w) as [|g gs]; [done|]. inversion Hg; auto. Qed.

Lemma attempts_progress taskId newState metadata conflict n : forall a w k,
  readable (store w) -> Forall keeps_readable (others w) -> (k < n)%nat -> quiet_at (others w) (2 * k + 1) ->
  exists st, fst (atomic_attempts n a (update_once taskId newState metadata) conflict w) = Ok st.
Proof.
  induction n as [|n IH]; intros a w k Hr Hg Hk Hq; [lia|]. simpl. unfold mbind, M_bind.
  pose proof (update_attempt_run taskId newState metadata a w) as Hrun. cbv zeta in Hrun.
  assert (Hs : readable (seen w)) by by apply seen_readable.
  destruct Hs as (j & cur & Hj & Hp). rewrite Hj, Hp in Hrun. rewrite Hrun.
  destruct (keeps_current cur newState metadata); [by eexists|]. case_bool_decide as Es; [by eexists|].
  set (w1 := after w (Some j)) in *.
  assert (Hg1 : Forall keeps_readable (others w1)) by (unfold w1, after; simpl; destruct (others w); [constructor|by inversion Hg]).
  assert (Hr1 : readable (seen w1)) by (apply seen_readable; [by exists j, cur|done]).
  destruct k as [|k].
  - exfalso. apply Es. unfold quiet_at in Hq. unfold seen, w1, after. simpl. destruct (others w) as [|g [|g' gs]]; simpl in *; try done.
  - apply (IH _ _ k); [done| |lia|].
    + simpl. simpl in Hg1. destruct (others w) as [|g [|g' gs]]; simpl in *; [constructor..|by inversion Hg1].
    + replace (2 * S k + 1)%nat with (S (S (2 * k + 1))) in Hq by lia. unfold quiet_at in *. simpl.
      destruct (others w) as [|g [|g' gs]]; done.
Qed.

(** An update only fails on a conflict when every one of its eight attempts was
    interrupted: if the record stays readable and nothing happens between the read and
    the write of some attempt, the update answers. *)
Theorem one_quiet_attempt_suffices taskId newState metadata w k :
  readable (store w) -> Forall keeps_readable (others w) ->
  (k < MAX_ATOMIC_UPDATE_ATTEMPTS)%nat -> quiet_at (others w) (2 * k + 1) ->
  exists st, fst (update taskId newState metadata w) = Ok st.
Proof. intros Hr Hg Hk Hq. by apply (attempts_progress _ _ _ _ _ _ _ k). Qed.

(** ** The life of a record *)

(** The writes of the four operations that change a record. *)
Inductive task_step : TaskStateData -> TaskStateData -> Prop :=
  | step_update cur newState metadata now :
      keeps_current cur newState metadata = false -> task_step cur (t_state (transition cur newState metadata now))
  | step_expected cur x newState metadata now :
      matchesExpectation cur x = true -> task_step cur (t_state (transition cur newState metadata now))
  | step_issue cur patch now : task_step cur (patch_issue patch (touch cur now))
  | step_history cur i patch now : task_step cur (patch_history i patch (touch cur now)).

(** A write of the key that is nothing or a step of the record. *)
Definition own_write (s s' : option raw) : Prop :=
  s' = s \/ exists j cur next, s = Some j /\ parse j = Some cur /\ s' = Some (stringify next) /\ task_step cur next.

Lemma steps_cas j cur next :
  parse j = Some cur -> task_step cur next -> steps own_write (compareAndSetTaskStateData j next).
Proof.
  intros Hp Hs. apply steps_call. intros s. case_bool_decide as E; simpl; [|by left].
  right. by exists j, cur, next.
Qed.

Lemma steps_get : steps own_write get.
Proof. apply steps_call. intros s. by left. Qed.

(** A read, the decision on the parsed record, and the write. *)
Lemma steps_rmw {A} (missing : M A) (body : raw -> TaskStateData -> M A) :
  steps own_write missing -> (forall j cur, parse j = Some cur -> steps own_write (body j cur)) ->
  steps own_write (j ← get; match j with None => missing | Some j => cur ← parse_json j; body j cur end).
Proof.
  intros Hm Hb. apply steps_bind; [apply steps_get|]. intros [j|]; [|done]. unfold parse_json.
  destruct (parse j) as [cur|] eqn:E; intros w; [by apply (Hb j cur E w)|].
  exists []. rewrite app_nil_r. split; [done|constructor].
Qed.

Lemma steps_attempts {A} n : forall k (body : nat -> M (option A)) conflict,
  (forall k, steps own_write (body k)) -> steps own_write (atomic_attempts n k body conflict).
Proof.
  induction n as [|n IH]; intros k body conflict H; simpl; [apply steps_throw|].
  apply steps_bind; [apply H|]. intros [a|]; [apply steps_ret|by apply IH].
Qed.
(** Every write of an operation is a step of the record. *)
Lemma update_writes_steps taskId newState metadata : steps own_write (update taskId newState metadata).
Proof.
  apply steps_attempts. intros k. apply steps_rmw; [apply steps_throw|]. intros j cur Hp.
  destruct (keeps_current cur newState metadata) eqn:Ek; [apply steps_ret|].
  apply steps_bind; [apply steps_cas with cur; [done|by constructor]|intros []; apply steps_ret].
Qed.

Lemma conditional_writes_steps x newState metadata :
  steps own_write (updateTaskStateIfCurrent redactSecrets guard clock x newState metadata).
Proof.
  apply steps_rmw; [apply steps_ret|]. intros j cur Hp.
  destruct (matchesExpectation cur x) eqn:Ex; [|apply steps_ret].
  apply steps_bind; [apply steps_cas with cur; [done|by apply (step_expected cur x)]|intros []; apply steps_ret].
Qed.

Lemma issue_writes_steps taskId patch : steps own_write (updateIssueRef clock taskId patch).
Proof.
  apply steps_attempts. intros k. apply steps_rmw; [apply steps_ret|]. intros j cur Hp.
  apply steps_bind; [apply steps_cas with cur; [done|apply step_issue]|intros []; apply steps_ret].
Qed.

Lemma history_writes_steps taskId historyState metadata :
  steps own_write (updateHistoryMetadata clock taskId historyState metadata).
Proof.
  apply steps_attempts. intros k. apply steps_rmw; [apply steps_throw|]. intros j cur Hp.
  destruct (findLastIndex historyState (history cur)) as [i|]; [|apply steps_ret].
  apply steps_bind; [apply steps_cas with cur; [done|apply step_history]|intros []; apply steps_ret].
Qed.

(** A conditional update writes only while the record is the expected one: it answers
    with the transition it wrote over a record that matched, or with nothing and then
    has written nothing. *)
Theorem conditional_update_is_guarded x newState metadata w :
  let '(r, w') := updateTaskStateIfCurrent redactSecrets guard clock x newState metadata w in
  match r with
  | Ok (Some st) => exists l0 j cur, trace w' = trace w ++ l0 ++ [(Some j, Some (stringify st))]
      /\ unchanged l0 /\ parse j = Some cur /\ matchesExpectation cur x = true
      /\ st = t_state (transition cur newState metadata (clock 0))
  | _ => exists l, trace w' = trace w ++ l /\ unchanged l
  end.
Proof.
  unfold updateTaskStateIfCurrent, mbind, M_bind. rewrite get_run. destruct (seen w) as [j|] eqn:E.
  2: { exists [(None, None)]. simpl. rewrite E. split; [done|by repeat constructor]. }
  assert (Ht : trace (after w (Some j)) = trace w ++ [(Some j, Some j)]) by (unfold after; simpl; by rewrite E).
  unfold parse_json. destruct (parse j) as [cur|] eqn:Ep.
  2: { exists [(Some j, Some j)]. split; [done|by repeat constructor]. }
  unfold mret, M_ret. destruct (matchesExpectation cur x) eqn:Ex; cbn [negb]; cbv beta iota.
  2: { exists [(Some j, Some j)]. split; [done|by repeat constructor]. }
  rewrite cas_run. case_bool_decide as Es.
  - exists [(Some j, Some j)], j, cur. unfold after at 1. cbn [trace]. rewrite Ht, Es, <- app_assoc.
    split_and!; [done|by repeat constructor|done..].
  - eexists. unfold after at 1. cbn [trace]. rewrite Ht, <- app_assoc. split; [reflexivity|by repeat constructor].
Qed.

(** ** Revisions *)

Definition revision (task : TaskStateData) : Z := default 0 (version task).
Definition outline (task : TaskStateData) : list (TaskState * Z * string) :=
  (fun e => (h_state e, h_timestamp e, h_reason e)) <$> history task.

Record extends (a b : TaskStateData) : Prop := {
  ext_id : taskId b = taskId a;
  ext_created : createdAt b = createdAt a;
  ext_correlation : correlationId b = correlationId a;
  ext_history : outline a `prefix_of` outline b;
  ext_attempts : attempts a <= attempts b;
}.

#[local] Instance extends_preorder : PreOrder extends.
Proof.
  split; [by intros a; split; try done; lia|].
  intros a b c [? ? ? Hab ?] [? ? ? Hbc ?]. split; [congruence..|by etrans|lia].
Qed.

Lemma outline_patch i patch t : outline (patch_history i patch t) = outline t.
Proof.
  unfold outline, patch_history. simpl. apply list_eq. intros k. rewrite !list_lookup_fmap.
  destruct (decide (i = k)) as [->|]; [|by rewrite list_lookup_alter_ne].
  rewrite list_lookup_alter_eq. by destruct (history t !! k).
Qed.

Lemma step_extends a b : task_step a b -> extends a b /\ revision b = revision a + 1.
Proof.
  assert (Htr : forall cur newState metadata now,
    extends cur (t_state (transition cur newState metadata now)) /\ revision (t_state (transition cur newState metadata now)) = revision cur + 1).
  { intros cur newState metadata now. split; [|done]. split; simpl; try done.
    - unfold outline; simpl. rewrite fmap_app. by apply prefix_app_r.
    - destruct (m_isRetry metadata); lia. }
  intros [cur ? ? ? _|cur ? ? ? ? _|cur patch now|cur i patch now]; [apply Htr..| |].
  - split; [|done]. split; simpl; try done; lia.
  - split; [|done]. split; simpl; try done. by rewrite outline_patch.
Qed.

Lemma steps_extend a b : rtc task_step a b -> extends a b /\ (a = b \/ revision a < revision b).
Proof.
  induction 1 as [a|a b c Hab Hbc [IH1 IH2]]; [split; [done|by left]|].
  apply step_extends in Hab as [H1 H2]. split; [by etrans|right]. destruct IH2 as [<-|]; lia.
Qed.

(** The revision identifies the record: along any history of writes the task keeps its
    identity, never loses an entry of its history or an attempt, and an expectation taken
    from a record matches a later one only if nothing was written in between. *)
Theorem expectation_identifies_record a b :
  rtc task_step a b ->
  extends a b /\ (matchesExpectation b (taskStateExpectation a) = true -> b = a).
Proof.
  intros H. destruct (steps_extend a b H) as [He [->|Hr]]; split; try done.
  unfold matchesExpectation, taskStateExpectation, revision in *. simpl. intros Hm. zb. lia.
Qed.

(** ** Finished tasks *)

Definition terminal (task : TaskStateData) : Prop :=
  state task ∈ TERMINAL_TASK_STATES /\ isBookkeepingCancellation task = false.

(** Writes that neither reopen, retry or withdraw a task, nor expect a terminal record,
    nor rewrite the outcome of a queue hand-off. *)
Inductive ordinary_step : TaskStateData -> TaskStateData -> Prop :=
  | ordinary_update cur newState metadata now :
      keeps_current cur newState metadata = false ->
      m_reopenTerminal metadata = false -> m_isRetry metadata = false -> m_withdrawnQueuedRetry metadata = false ->
      ordinary_step cur (t_state (transition cur newState metadata now))
  | ordinary_expected cur x newState metadata now :
      matchesExpectation cur x = true -> x_state x ∉ TERMINAL_TASK_STATES ->
      ordinary_step cur (t_state (transition cur newState metadata now))
  | ordinary_issue cur patch now : ordinary_step cur (patch_issue patch (touch cur now))
  | ordinary_history cur i patch now :
      field "jobResultStatus" patch = None -> ordinary_step cur (patch_history i patch (touch cur now)).

Lemma last_alter {A} (f : A -> A) i (l : list A) : last (alter f i l) = if decide (S i = length l) then f <$> last l else last l.
Proof.
  rewrite !last_lookup, length_alter. case_decide as H.
  - replace (Init.Nat.pred (length l)) with i by lia. by rewrite list_lookup_alter_eq.
  - destruct l as [|x l]; [by rewrite !lookup_nil|]. rewrite list_lookup_alter_ne; [done|simpl in *; lia].
Qed.

Lemma patch_keeps_bookkeeping i patch t :
  field "jobResultStatus" patch = None -> isBookkeepingCancellation (patch_history i patch t) = isBookkeepingCancellation t.
Proof.
  intros Hp. unfold isBookkeepingCancellation. simpl. destruct (_ || _); [done|]. rewrite last_alter.
  case_decide; [|done]. destruct (last (history t)) as [e|]; [|done]. simpl. rewrite field_spread, Hp.
  by destruct (h_metadata e).
Qed.

Lemma not_terminal_kept cur newState metadata :
  terminal cur -> m_reopenTerminal metadata = false -> m_isRetry metadata = false -> m_withdrawnQueuedRetry metadata = false ->
  keeps_current cur newState metadata = false -> newState = state cur /\ newState <> CANCELLED.
Proof.
  intros [Ht Hb] H1 H2 H3. unfold keeps_current, isTerminalTaskContinuation. rewrite Hb, H1, H2, H3.
  rewrite (bool_decide_eq_true_2 (state cur ∈ TERMINAL_TASK_STATES)) by done.
  rewrite ?andb_false_r, ?orb_false_r, ?andb_true_r. simpl. rewrite ?andb_false_r, ?andb_true_r. simpl. rewrite ?andb_true_r.
  intros [[_ Hc]%orb_false_elim Hs]%orb_false_elim.
  apply bool_decide_eq_false in Hc. apply negb_false_iff, bool_decide_eq_true in Hs. subst. done.
Qed.

(** C20. A finished task stays finished: whatever ordinary writes follow, in any order, a
    completed, failed or cancelled task keeps its state; a cancellation that is only a
    hand-off of the queue is the exception the code makes. *)
Theorem finished_task_stays_finished a b :
  rtc ordinary_step a b -> terminal a -> state b = state a /\ terminal b.
Proof.
  induction 1 as [a|a b c Hab Hbc IH]; [done|]. intros Ht.
  enough (Hstep : state b = state a /\ terminal b).
  { destruct Hstep as [Hs Htb]. destruct (IH Htb) as [Hs' Htc]. split; [congruence|done]. }
  clear IH Hbc c. destruct Hab as [cur newState metadata now Hk H1 H2 H3|cur x newState metadata now Hm Hx|cur patch now|cur i patch now Hp].
  - destruct (not_terminal_kept _ _ _ Ht H1 H2 H3 Hk) as [-> Hc]. split; [done|]. split; [apply Ht|].
    unfold isBookkeepingCancellation. simpl. by rewrite (bool_decide_eq_false_2 (state cur = CANCELLED)).
  - exfalso. apply Hx. unfold matchesExpectation in Hm. zb.
    match goal with H : bool_decide (state cur = _) = true |- _ => apply bool_decide_eq_true in H; rewrite <- H end. apply Ht.
  - split; [done|exact Ht].
  - split; [done|]. split; [apply Ht|]. rewrite patch_keeps_bookkeeping by done. apply Ht.
Qed.
End TaskFacts.
