(* ===== verification/TaskReconcile.v ===== *)
(** * The reconciler of stale tasks

    The transitions derived from a finished queue job (src/taskReconciliationTransitions.ts),
    the tables it shares with the workers (src/persistedTaskStateStore.ts) and one candidate's
    reconciliation (src/taskStateReconciler.ts, src/orphanReplacement.ts,
    src/taskReconciliationTime.ts) as a program over the task's Redis key and the database.

    The queue, the containers and the replacement service are an [Env]. The time budget may
    end a run before any call: the properties of every own step hold of each prefix. The
    repository and issue number of a row are only passed on to events and left out. *)

From S2P Require Import Prelude JsString Json Interleave TaskState.

Open Scope Z_scope.
Open Scope list_scope.

(** ** Transitions of the reconciler *)

Record PersistedTaskTerminalTransition := Terminal {
  p_state : TaskState;
  p_reason : string;
  p_metadata : object;
}.

Definition formatTaskTerminalReason (reason : string) : string :=
  if bool_decide (reason = "user_cancelled"%string) then "Cancelled by a user."
  else match known_reason reason with
  | Some cancelled_issue_closed => "Cancelled because the issue was closed."
  | Some cancelled_label_removed => "Cancelled because the processing trigger label was removed."
  | Some cancelled_pr_closed => "Cancelled because the pull request was closed without merging."
  | Some cancelled_by_user => "Cancelled by a user."
  | Some timed_out => "The task exceeded its time limit."
  | Some cost_cap_exceeded => "The run was stopped because it reached its spend cap."
  | Some stalled => "The agent stopped producing output; the stall watchdog stopped the run."
  | Some degenerate_output => "The agent produced only whitespace output; the watchdog stopped the run."
  | Some pr_merged => "The pull request was merged."
  | Some skipped_issue_done => "Skipped because the issue was already completed by another run."
  | None => "The task ended."
  end.

Section Reconciliation.
Variable sanitizeErrorMessage : string -> string.
Variable toISOString : Z -> string.

Definition processorText (v : option json) : option string :=
  match v with Some (JStr s) => if is_blank s then None else Some (sanitizeErrorMessage s) | _ => None end.

Definition failedTaskTransition (message finalizedBy : string) : PersistedTaskTerminalTransition :=
  Terminal FAILED "Task execution failed"
    [("finalizedBy", JStr finalizedBy);
     ("error", JObj [("message", JStr (sanitizeErrorMessage message)); ("category", JStr "worker")])]%string.

Definition with_reason (text : string) (reason : option string) : string :=
  (text ++ match truthy_string reason with Some r => ": " ++ r | None => "" end)%string.

Definition cancelledJobTransition (status : string) (reason : option string) (metadata : object) : PersistedTaskTerminalTransition :=
  let cancelled := bool_decide (status = "cancelled"%string) in
  Terminal CANCELLED
    (if cancelled then formatTaskTerminalReason (default ""%string reason) else with_reason ("Task job " ++ status) reason)
    (spread (spread metadata (if cancelled && bool_decide (reason = Some "user_cancelled"%string)
                              then [("terminalReason", JStr "cancelled_by_user")]%string else []))
       (match reason with
        | Some r => if cancelled && starts_with "cancelled_" r then [("terminalReason"%string, JStr r)] else []
        | None => []
        end)).

Definition text_or_null (s : option string) : json := match s with Some s => JStr s | None => JNull end.

Definition completedJobTransition (value : json) : PersistedTaskTerminalTransition :=
  let result := match value with JObj r => r | _ => [] end in
  let status := processorText (field "status" result) in
  let reason := processorText (field "reason" result) in
  let metadata := [("finalizedBy", JStr "bullmq_completed_reconciliation");
                   ("jobResultStatus", text_or_null status); ("jobResultReason", text_or_null reason)]%string in
  match truthy_string status with
  | None => failedTaskTransition "Task job completed without a result status" "bullmq_completed_reconciliation"
  | Some s =>
      if bool_decide (s ∈ ["cancelled"; "requeued"; "rescheduled"]%string) then cancelledJobTransition s reason metadata
      else if bool_decide (s = "failed"%string)
      then failedTaskTransition (default "Task job returned a failed result"%string reason) "bullmq_completed_reconciliation"
      else if bool_decide (s ∈ ["complete"; "completed"; "partial"; "skipped"]%string)
      then Terminal COMPLETED (if bool_decide (s = "skipped"%string) then with_reason "Task job skipped" reason else "Task job completed") metadata
      else failedTaskTransition ("Unexpected task job result status: " ++ s) "bullmq_completed_reconciliation"
  end.

Definition redisTerminalTransition (task : TaskStateData) : PersistedTaskTerminalTransition :=
  let terminalEntry := findLastIndex (state task) (history task) ≫= fun i => history task !! i in
  let originalMetadata := default [] (terminalEntry ≫= h_metadata) in
  Terminal (state task)
    (match h_reason <$> terminalEntry with
     | Some r => if is_blank r then "Recovered terminal task state from Redis"%string else r
     | None => "Recovered terminal task state from Redis"%string
     end)
    (spread originalMetadata
       ([("originalFinalizedBy", default JNull (field "finalizedBy" originalMetadata));
         ("finalizedBy", JStr "redis_terminal_reconciliation"); ("redisUpdatedAt", JStr (toISOString (updatedAt task)));
         ("redisVersion", match version task with Some v => JNum (inject_Z v) | None => JNull end)]%string
        ++ match terminalReason task with Some r => [("terminalReason"%string, JStr (reason_text r))] | None => [] end)).

(** What [finalizeCandidate] passes to the conditional update. *)
Definition finalize_metadata (transition : PersistedTaskTerminalTransition) : UpdateMetadata :=
  Update None false false false
    (if bool_decide (p_state transition = FAILED)
     then match field "error" (p_metadata transition) with
          | Some (JObj e) =>
              match field "message" e with
              | Some (JStr m) => Some (m, match field "category" e with Some (JStr c) => Some c | _ => None end)
              | _ => None
              end
          | _ => None
          end
     else None)
    None None None (Some (p_reason transition)) (Some (p_metadata transition)) None.
End Reconciliation.

(** ** The database *)

(** A timestamp column holds a number or a text. *)
Inductive timestamp := Number (n : Z) | Text (s : string).

Record TaskRow := Row { job_id : option string; task_type : option string }.
Record HistoryRow := Hist {
  history_id : Z;
  hr_task : string;
  hr_state : TaskState;
  hr_timestamp : timestamp;
  hr_reason : string;
  hr_metadata : object;
}.
Record ObservationRow := Observation {
  expected_history_id : Z;
  first_missing_at : timestamp;
  observations : Z;
}.

Record PersistedTaskStateCandidate := Candidate {
  c_taskId : string;
  c_jobId : option string;
  c_taskType : option string;
  c_state : TaskState;
  c_updatedAt : timestamp;
  c_historyId : Z;
}.

(** The task's Redis key and the tables; [task_history] in the order of its ids. *)
Record store_t {raw : Type} := Store {
  task_key : option raw;
  tasks : gmap string TaskRow;
  task_history : list HistoryRow;
  missing : gmap string ObservationRow;
}.
Arguments store_t raw : clear implicits.
Arguments Store {raw} _ _ _ _.

Definition RECONCILABLE_PERSISTED_TASK_STATES : list TaskState := [PENDING; PROCESSING; CLAUDE_EXECUTION; POST_PROCESSING].

Definition latest_history (id : string) (h : list HistoryRow) : option HistoryRow :=
  last (filter (fun r => hr_task r = id) h).

Definition next_history_id (h : list HistoryRow) : Z := 1 + foldr Z.max 0 (history_id <$> h).

Definition insert_history (id : string) (s : TaskState) (ts : timestamp) (reason : string) (metadata : object) (h : list HistoryRow) : list HistoryRow :=
  h ++ [Hist (next_history_id h) id s ts reason metadata].

Section Store.
Context {raw : Type}.
Abbreviation store := (store_t raw).

Definition candidateFromRow (id : string) (t : TaskRow) (h : HistoryRow) : PersistedTaskStateCandidate :=
  Candidate id (job_id t) (task_type t) (hr_state h) (hr_timestamp h) (history_id h).

(** [count] candidates after [cursor] in the order of their ids, and the next cursor. *)
Definition scanNonTerminalTasks (cursor : string) (count : nat) (s : store) : list PersistedTaskStateCandidate * string :=
  let ids := sort_by code_le (elements (dom (tasks s))) in
  let candidates := omap (fun id =>
    t ← tasks s !! id;
    h ← latest_history id (task_history s);
    if negb (bool_decide (task_type t = Some "goal"%string)) && bool_decide (hr_state h ∈ RECONCILABLE_PERSISTED_TASK_STATES)
       && (bool_decide (cursor = ""%string) || bool_decide (cursor = "0"%string) || negb (code_le id cursor))
    then Some (candidateFromRow id t h) else None) ids in
  let page := list.take count candidates in
  (page, if bool_decide (length page < count)%nat then "0"%string else default "0"%string (c_taskId <$> last page)).

Definition recordMissing (c : PersistedTaskStateCandidate) (observedAt : timestamp) (s : store) : (Z * timestamp) * store :=
  let put o := Store (task_key s) (tasks s) (task_history s) (<[c_taskId c := o]> (missing s)) in
  let fresh := ((1, observedAt), put (Observation (c_historyId c) observedAt 1)) in
  match missing s !! c_taskId c with
  | Some o => if expected_history_id o =? c_historyId c
              then ((observations o + 1, first_missing_at o), put (Observation (c_historyId c) (first_missing_at o) (observations o + 1)))
              else fresh
  | None => fresh
  end.

Definition clearMissing (id : string) (s : store) : store :=
  Store (task_key s) (tasks s) (task_history s) (delete id (missing s)).

Definition ownsJobAssignment (c : PersistedTaskStateCandidate) (s : store) : bool :=
  match tasks s !! c_taskId c with None => false | Some t => bool_decide (job_id t = c_jobId c) end.

(** The guarded insert of [finalizeIfCurrent]: the candidate's history row is still the
    task's latest, in the candidate's state, and the job assignment is the scanned one. *)
Definition finalize_guard (c : PersistedTaskStateCandidate) (s : store) : bool :=
  bool_decide ((history_id <$> latest_history (c_taskId c) (task_history s)) = Some (c_historyId c))
  && existsb (fun r => (history_id r =? c_historyId c) && bool_decide (hr_task r = c_taskId c) && bool_decide (hr_state r = c_state c)) (task_history s)
  && ownsJobAssignment c s.

Definition finalizeIfCurrent (c : PersistedTaskStateCandidate) (tr : PersistedTaskTerminalTransition) (ts : timestamp) (s : store) : bool * store :=
  if finalize_guard c s then
    let metadata := spread (p_metadata tr) [("previousState", JStr (state_text (c_state c))); ("expectedHistoryId", JNum (inject_Z (c_historyId c)))]%string in
    (true, Store (task_key s) (tasks s) (insert_history (c_taskId c) (p_state tr) ts (p_reason tr) metadata (task_history s))
             (delete (c_taskId c) (missing s)))
  else (false, s).
End Store.

(** ** Ages *)

(** A run of at least ten digits is an epoch in seconds below 10^11, else in milliseconds. *)
Definition timestampMilliseconds (Date_parse : string -> option Z) (value : timestamp) : option Z :=
  match value with
  | Number n => Some n
  | Text s =>
      let text := trim s in
      if all_digits text && (10 <=? Z.of_nat (String.length text)) then
        let numeric := number_of_digits text in
        Some (if numeric <? 100000000000 then numeric * 1000 else numeric)
      else Date_parse text
  end.

Definition taskAgeMs (Date_parse : string -> option Z) (updatedAt : timestamp) (now : Z) : option Z :=
  t ← timestampMilliseconds Date_parse updatedAt;
  if now <? t then None else Some (now - t).

Definition age_at_least (age : option Z) (ms : Z) : bool := match age with Some a => ms <=? a | None => false end.

(** ** One candidate *)

Record ReconciliationJob := Job {
  job_state : string;
  failedReason : option string;
  returnvalue : json;
}.
Inductive TaskContainerLiveness := running | not_found_ | unavailable.
Record ReplacementPlan := Plan { eligible : bool; plan_reason : option string }.

(** The answers of the queue, the containers and, where one is configured, the replacement
    service; what of a publication succeeds. *)
Record Env := Environment {
  e_job : option ReconciliationJob;
  e_container : TaskContainerLiveness;
  e_replacement : bool;
  e_awaitingDelivery : bool;
  e_prepare : result (option ReplacementPlan);
  e_complete : result unit;
  e_withdraw : result unit;
  e_historyPersisted : bool;
  e_eventPublished : bool;
  e_now : Z;
  e_staleMs : Z;
  e_orphanGraceMs : Z;
}.

Inductive counter := c_stale | c_live | c_suspected | c_recovered | c_skipped | c_errors.
(** Calls to the replacement service that decide or settle a replacement. *)
Inductive replacement_call := prepared | completed | withdrawn.

Definition DEFAULT_RECONCILIATION_STALE_MS : Z := 15 * 60 * 1000.
Definition DEFAULT_RECONCILIATION_ORPHAN_GRACE_MS : Z := 60 * 1000.
Definition LEGACY_UNLINKED_TASK_MIN_AGE_MS : Z := 7 * 24 * 60 * 60 * 1000.
Definition LIVE_JOB_STATES : list string := ["active"; "waiting"; "delayed"; "prioritized"; "waiting-children"; "paused"]%string.
Definition ORPHANED_TASK_MESSAGE : string :=
  "Task was orphaned after worker restart; no BullMQ job or running task container was found".
Definition ORPHAN_FINALIZER : string := "orphan_reconciliation".

Definition taskIdIsQueueJobId (c : PersistedTaskStateCandidate) : bool :=
  bool_decide (c_taskType c ∈ [Some "pr-comment"; Some "review"; Some "merge_conflict"]%string)
  || starts_with "pr-comment-" (c_taskId c) || starts_with "pr-comments-" (c_taskId c).

Section Reconcile.
Context {raw : Type} `{!EqDecision raw} `{!Serial raw TaskStateData}.
Variable redactSecrets sanitizeErrorMessage : string -> string.
Variable toISOString : Z -> string.
Variable Date_parse : string -> option Z.
Variable guard : option (string * bool).
Variable env : Env.

Abbreviation store := (store_t raw).
Abbreviation M := (Interleave.M (store_t raw)).

Definition age (t : timestamp) : option Z := taskAgeMs Date_parse t (e_now env).

Definition with_key (k : option raw) (s : store) : store := Store k (tasks s) (task_history s) (missing s).

Definition parse_task (j : raw) : M TaskStateData :=
  match parse j with Some task => mret task | None => throw "Unexpected token in JSON" end.

Definition read_task : M (option TaskStateData) :=
  j ← call (fun s : store => (task_key s, s));
  match j with None => mret None | Some j => task ← parse_task j; mret (Some task) end.

(** The history row a published transition inserts; a failure is reported, not thrown. *)
Definition publishTaskStateTransition (tr : TaskStateTransition) (metadata : UpdateMetadata) : M (bool * bool) :=
  let st := t_state tr in
  let row := spread (entry_metadata (m_historyMetadata metadata) (terminalReason st))
    [("previousState", JStr (state_text (t_previousState tr))); ("attempts", JNum (inject_Z (attempts st)))]%string in
  if e_historyPersisted env then
    call (fun s => ((true, e_eventPublished env),
      Store (task_key s) (tasks s) (insert_history (taskId st) (state st) (Text (toISOString (updatedAt st))) (t_reason tr) row (task_history s)) (missing s)))
  else mret (false, e_eventPublished env).

(** The state and the publication [(historyPersisted, eventPublished)], if it was written. *)
Definition updateTaskStateIfCurrentDetailed (x : TaskStateExpectation) (newState : TaskState) (metadata : UpdateMetadata) : M (option (bool * bool)) :=
  j ← call (fun s : store => (task_key s, s));
  match j with
  | None => mret None
  | Some j =>
      current ← parse_task j;
      if negb (matchesExpectation current x) then mret None
      else
        let tr := buildTaskStateTransition redactSecrets guard current newState metadata (e_now env) in
        updated ← call (fun s : store => if bool_decide (task_key s = Some j) then (true, with_key (Some (stringify (t_state tr))) s) else (false, s));
        if updated : bool then p ← publishTaskStateTransition tr metadata; mret (Some p) else mret None
  end.

(** Whether this run moved the task to the transition's state, and what it counts. *)
Definition finalizeCandidate (c : PersistedTaskStateCandidate) (tr : PersistedTaskTerminalTransition) (current : option TaskStateData) : M (bool * list counter) :=
  let finalize :=
    changed ← call (finalizeIfCurrent c tr (Text (toISOString (e_now env))));
    if changed : bool then mret (true, c_recovered :: if e_eventPublished env then [] else [c_errors])
    else mret (false, [c_skipped]) in
  ownsJob ← call (fun s : store => (ownsJobAssignment c s, s));
  if negb ownsJob then mret (false, [c_skipped])
  else
    match current with
    | Some cur =>
        if negb (bool_decide (state cur ∈ TERMINAL_TASK_STATES)) then
          updated ← updateTaskStateIfCurrentDetailed (taskStateExpectation cur) (p_state tr) (finalize_metadata tr);
          match (updated : option (bool * bool)) with
          | None => mret (false, [c_skipped])
          | Some (true, eventPublished) =>
              _ ← call (fun s : store => (tt, clearMissing (c_taskId c) s));
              mret (true, c_recovered :: if eventPublished then [] else [c_errors])
          | Some (false, _) => finalize
          end
        else finalize
    | None => finalize
    end.

Definition finalizeOrphan (c : PersistedTaskStateCandidate) (current : option TaskStateData) : M (list counter * list replacement_call) :=
  if e_replacement env && e_awaitingDelivery env then mret ([c_skipped], [])
  else
    let plan := if e_replacement env then match e_prepare env with Ok p => p | Throw _ => None end else None in
    let calls := if e_replacement env then [prepared] else [] in
    let tr := failedTaskTransition sanitizeErrorMessage ORPHANED_TASK_MESSAGE ORPHAN_FINALIZER in
    let tr := if default false (eligible <$> plan)
              then Terminal (p_state tr) (p_reason tr) (set_field "replacement" (JStr "pending") (p_metadata tr)) else tr in
    '(finalized, counters) ← finalizeCandidate c tr current;
    let pending := negb finalized && match plan with Some p => eligible p || bool_decide (plan_reason p <> None) | None => false end in
    if negb (e_replacement env) || negb finalized && negb pending then mret (counters, calls)
    else
      let '(answer, call) := if pending then (e_withdraw env, withdrawn) else (e_complete env, completed) in
      mret (match answer with Ok _ => counters | Throw _ => counters ++ [c_errors] end, calls ++ [call]).

Definition reconcileQueueJob (c : PersistedTaskStateCandidate) (current : option TaskStateData) (job : ReconciliationJob) : M (list counter) :=
  if bool_decide (job_state job ∈ LIVE_JOB_STATES) then
    _ ← call (fun s : store => (tt, clearMissing (c_taskId c) s)); mret [c_live]
  else if bool_decide (job_state job = "completed"%string) then
    r ← finalizeCandidate c (completedJobTransition sanitizeErrorMessage (returnvalue job)) current; mret (snd r)
  else if bool_decide (job_state job = "failed"%string) then
    r ← finalizeCandidate c
      (failedTaskTransition sanitizeErrorMessage
         (default "Task job failed before task finalization"%string (truthy_string (failedReason job))) "bullmq_failed_reconciliation") current;
    mret (snd r)
  else mret [c_skipped].

Definition reconcileMissingJob (c : PersistedTaskStateCandidate) (current : option TaskStateData) : M (list counter * list replacement_call) :=
  match e_container env with
  | running => _ ← call (fun s : store => (tt, clearMissing (c_taskId c) s)); mret ([c_live], [])
  | unavailable => mret ([c_errors], [])
  | not_found_ =>
      let unlinked := bool_decide (c_jobId c = None) && negb (taskIdIsQueueJobId c) in
      if bool_decide (is_Some current) && unlinked then mret ([c_skipped], [])
      else if unlinked && negb (age_at_least (age (c_updatedAt c)) LEGACY_UNLINKED_TASK_MIN_AGE_MS) then mret ([c_skipped], [])
      else
        '(count, first) ← call (recordMissing c (Text (toISOString (e_now env))));
        if (count <? 2) || negb (age_at_least (age first) (e_orphanGraceMs env)) then mret ([c_suspected], [])
        else finalizeOrphan c current
  end.

Definition reconcileCandidate (c : PersistedTaskStateCandidate) : M (list counter * list replacement_call) :=
  if negb (age_at_least (age (c_updatedAt c)) (e_staleMs env)) then mret ([c_skipped], [])
  else
    current ← read_task;
    let live := call (fun s : store => (tt, clearMissing (c_taskId c) s)) ≫= fun _ => mret ([c_stale; c_live], []) in
    let by_job :=
      match e_job env with
      | Some job => r ← reconcileQueueJob c current job; mret (c_stale :: r, [])
      | None => r ← reconcileMissingJob c current; mret (c_stale :: fst r, snd r)
      end in
    match current with
    | None => by_job
    | Some cur =>
        if bool_decide (state cur ∈ TERMINAL_TASK_STATES) then
          r ← finalizeCandidate c (redisTerminalTransition toISOString cur) current; mret (c_stale :: snd r, [])
        else
          match age (Text (toISOString (updatedAt cur))) with
          | Some a => if a <? e_staleMs env then live else by_job
          | None => by_job
          end
    end.
End Reconcile.
