(* ===== verification/TaskReconcileFacts.v ===== *)
(** * The reconciler only ends tasks it has evidence about

    Every own write of a candidate's reconciliation is guarded, whatever other processes
    do, and a task is only ended on evidence: its own terminal record, a finished queue
    job, or two sufficiently old observations that its job and container are gone. *)

From S2P Require Import Prelude JsString Interleave Json TaskState TaskFacts TaskReconcile.

Open Scope Z_scope.
Open Scope list_scope.

Section Facts.
Context {raw : Type} `{!EqDecision raw} `{!Serial raw TaskStateData}.
Variable redactSecrets sanitizeErrorMessage : string -> string.
Variable toISOString : Z -> string.
Variable Date_parse : string -> option Z.
Variable guard : option (string * bool).
Variable env : Env.

Abbreviation store := (store_t raw).
Abbreviation M := (Interleave.M (store_t raw)).
Abbreviation reconcile := (reconcileCandidate redactSecrets sanitizeErrorMessage toISOString Date_parse guard env).
Abbreviation finalize := (finalizeCandidate redactSecrets toISOString guard env).
Abbreviation age := (TaskReconcile.age Date_parse env).

(** ** Own writes *)

(** Nothing but observations changes. *)
Definition quiet (s s' : store) : Prop :=
  task_key s' = task_key s /\ tasks s' = tasks s /\ task_history s' = task_history s.

(** A write of the Redis key: a record that had not ended is replaced by one that has. *)
Definition ends_record (s s' : store) (next : TaskStateData) : Prop :=
  (exists j cur, task_key s = Some j /\ parse j = Some cur /\ (state cur ∉ TERMINAL_TASK_STATES))
  /\ s' = with_key (Some (stringify next)) s /\ state next ∈ TERMINAL_TASK_STATES.

(** One guarded write. *)
Definition guarded (c : PersistedTaskStateCandidate) (s s' : store) : Prop :=
  (quiet s s' /\ forall id, id <> c_taskId c -> missing s' !! id = missing s !! id)
  \/ (exists next, ends_record s s' next)
  \/ (finalize_guard c s = true /\ exists ts tr, p_state tr ∈ TERMINAL_TASK_STATES /\ s' = snd (finalizeIfCurrent c tr ts s)).

(** The history row of the record this run has just ended. *)
Definition published (next : TaskStateData) (s s' : store) : Prop :=
  exists reason metadata,
    s' = Store (task_key s) (tasks s)
           (insert_history (taskId next) (state next) (Text (toISOString (updatedAt next))) reason metadata (task_history s)) (missing s).

Inductive own_writes (c : PersistedTaskStateCandidate) : list (store * store) -> Prop :=
  | own_nil : own_writes c []
  | own_guarded s s' l : guarded c s s' -> own_writes c l -> own_writes c ((s, s') :: l)
  | own_published s s' next t t' l :
      ends_record s s' next -> published next t t' -> own_writes c l -> own_writes c ((s, s') :: (t, t') :: l).

Lemma own_app c l l' : own_writes c l -> own_writes c l' -> own_writes c (l ++ l').
Proof. induction 1; simpl; intros; [done|apply own_guarded; auto|eapply own_published; eauto]. Qed.
Lemma own_one c s s' : guarded c s s' -> own_writes c [(s, s')].
Proof. intros H. apply own_guarded; [done|constructor]. Qed.

(** Splits the condition the program branches on. *)
Ltac step_if := match goal with |- traces _ (if ?b then _ else _) => destruct b end.

Lemma quiet_refl s : quiet s s.
Proof. done. Qed.

Lemma guarded_refl c s : guarded c s s.
Proof. by left. Qed.

Lemma guarded_clear c s : guarded c s (clearMissing (c_taskId c) s).
Proof. left. split; [done|]. intros id Hid. simpl. by rewrite lookup_delete_ne. Qed.

Lemma quiet_record c at_ s : quiet s (snd (recordMissing c at_ s)).
Proof. unfold recordMissing. destruct (missing s !! c_taskId c) as [o|]; [case_bool|]; done. Qed.

Lemma guarded_record c at_ s : guarded c s (snd (recordMissing c at_ s)).
Proof.
  left. split; [apply quiet_record|]. unfold recordMissing.
  destruct (missing s !! c_taskId c) as [o|]; [case_bool|]; intros id Hid; simpl; by rewrite lookup_insert_ne.
Qed.

Lemma guarded_finalize c tr ts s : p_state tr ∈ TERMINAL_TASK_STATES -> guarded c s (snd (finalizeIfCurrent c tr ts s)).
Proof.
  intros Htr. destruct (finalize_guard c s) eqn:E; [right; right; eauto|]. unfold finalizeIfCurrent. rewrite E. apply guarded_refl.
Qed.

(** The transitions that finalize a candidate are terminal. *)
Lemma completed_job_terminal v : p_state (completedJobTransition sanitizeErrorMessage v) ∈ TERMINAL_TASK_STATES.
Proof.
  unfold completedJobTransition. destruct (truthy_string _) as [s|]; [|simpl; set_solver].
  repeat case_bool; simpl; set_solver.
Qed.
Lemma failed_terminal m f : p_state (failedTaskTransition sanitizeErrorMessage m f) ∈ TERMINAL_TASK_STATES.
Proof. simpl. set_solver. Qed.

Abbreviation publish := (publishTaskStateTransition toISOString env).
Abbreviation update_detailed := (updateTaskStateIfCurrentDetailed redactSecrets toISOString guard env).

Lemma owned_ret {A} c (a : A) : traces (own_writes c) (mret a : M A).
Proof. apply traces_ret. constructor. Qed.
Lemma owned_bind {A B} c (m : M A) (f : A -> M B) :
  traces (own_writes c) m -> (forall a, traces (own_writes c) (f a)) -> traces (own_writes c) (m ≫= f).
Proof. apply traces_bind. apply own_app. Qed.
Lemma owned_call {A} c (f : store -> A * store) : (forall s, guarded c s (snd (f s))) -> traces (own_writes c) (call f).
Proof. intros H. apply traces_call. intros s. by apply own_one. Qed.

Lemma owned_parse {A} c j (k : TaskStateData -> M A) :
  (forall cur, parse j = Some cur -> traces (own_writes c) (k cur)) -> traces (own_writes c) (parse_task j ≫= k).
Proof.
  intros H. unfold parse_task. destruct (parse j) as [cur|] eqn:E; intros w; [by apply (H cur eq_refl w)|].
  exists []. rewrite app_nil_r. split; [done|constructor].
Qed.

(** The conditional write of the key and, where it succeeds, its publication. *)
Lemma owned_cas c j tr metadata :
  (exists cur, parse j = Some cur /\ (state cur ∉ TERMINAL_TASK_STATES)) -> state (t_state tr) ∈ TERMINAL_TASK_STATES ->
  traces (own_writes c)
    (updated ← call (fun s : store => if bool_decide (task_key s = Some j) then (true, with_key (Some (stringify (t_state tr))) s) else (false, s));
     if updated : bool then p ← publish tr metadata; mret (Some p) else mret None).
Proof.
  intros (cur & Hp & Hcur) Hnext w.
  match goal with |- context [(call ?f ≫= ?k) w] => destruct (call_bind f k w) as (s & w1 & Hrun & Htr) end.
  rewrite Hrun. clear Hrun. case_bool_decide as E; cbn [fst snd] in *; cbv beta iota.
  2: { exists [(s, s)]. simpl. split; [done|]. apply own_one, guarded_refl. }
  assert (He : ends_record s (with_key (Some (stringify (t_state tr))) s) (t_state tr)).
  { split_and!; [by exists j, cur|done|done]. }
  unfold publishTaskStateTransition. destruct (e_historyPersisted env).
  - match goal with |- context [(call ?f ≫= ?k) w1] => destruct (call_bind f k w1) as (t & w2 & Hrun & Htr2) end.
    rewrite Hrun. simpl. rewrite Htr2, Htr, <- app_assoc. eexists. split; [reflexivity|].
    eapply own_published; [exact He| |constructor]. by eexists _, _.
  - exists [(s, with_key (Some (stringify (t_state tr))) s)]. simpl. split; [done|]. apply own_one. right. left. by exists (t_state tr).
Qed.

Lemma owned_update c cur0 newState metadata :
  (state cur0 ∉ TERMINAL_TASK_STATES) -> newState ∈ TERMINAL_TASK_STATES ->
  traces (own_writes c) (update_detailed (taskStateExpectation cur0) newState metadata).
Proof.
  intros Hcur Hnew. unfold updateTaskStateIfCurrentDetailed.
  apply owned_bind; [apply owned_call; intros s; apply guarded_refl|]. intros [j|]; [|apply owned_ret].
  apply owned_parse. intros cur Hp.
  destruct (matchesExpectation cur (taskStateExpectation cur0)) eqn:Ex; cbn [negb]; cbv beta iota; [|apply owned_ret].
  apply owned_cas; [|done]. exists cur. split; [done|]. unfold matchesExpectation in Ex. zb.
  match goal with H : bool_decide (state cur = _) = true |- _ => apply bool_decide_eq_true in H; by rewrite H end.
Qed.

Lemma owned_finalize c tr current : p_state tr ∈ TERMINAL_TASK_STATES -> traces (own_writes c) (finalize c tr current).
Proof.
  intros Htr. unfold finalizeCandidate.
  assert (Hf : forall k, (forall b, traces (own_writes c) (k b : M (bool * list counter))) ->
    traces (own_writes c) (call (finalizeIfCurrent c tr (Text (toISOString (e_now env)))) ≫= k)).
  { intros k Hk. apply owned_bind; [|done]. apply owned_call. intros s. by apply guarded_finalize. }
  apply owned_bind; [apply owned_call; intros s; apply guarded_refl|]. intros []; [|apply owned_ret].
  destruct current as [cur|]; [|apply Hf; intros []; apply owned_ret].
  case_bool_decide as Hcur; cbn [negb]; cbv beta iota; [apply Hf; intros []; apply owned_ret|].
  apply owned_bind; [by apply owned_update|]. intros [[[] ev]|].
  - apply owned_bind; [apply owned_call; intros s; apply guarded_clear|intros _; apply owned_ret].
  - apply Hf. intros []; apply owned_ret.
  - apply owned_ret.
Qed.

Lemma owned_orphan c current : traces (own_writes c) (finalizeOrphan redactSecrets sanitizeErrorMessage toISOString guard env c current).
Proof.
  unfold finalizeOrphan. step_if; [apply owned_ret|]. apply owned_bind.
  - apply owned_finalize. destruct (default _ _); simpl; set_solver.
  - intros [fin cs]. step_if; [apply owned_ret|]. destruct (negb fin && _); apply owned_ret.
Qed.

Lemma owned_clear {A} c (k : unit -> M A) :
  (forall u, traces (own_writes c) (k u)) -> traces (own_writes c) (call (fun s : store => (tt, clearMissing (c_taskId c) s)) ≫= k).
Proof. intros H. apply owned_bind; [|done]. apply owned_call. intros s. apply guarded_clear. Qed.

Lemma owned_queue_job c current job :
  traces (own_writes c) (reconcileQueueJob redactSecrets sanitizeErrorMessage toISOString guard env c current job).
Proof.
  unfold reconcileQueueJob. step_if; [apply owned_clear; intros _; apply owned_ret|].
  step_if; [apply owned_bind; [apply owned_finalize, completed_job_terminal|intros r; apply owned_ret]|].
  step_if; [apply owned_bind; [apply owned_finalize, failed_terminal|intros r; apply owned_ret]|apply owned_ret].
Qed.

Lemma owned_missing_job c current :
  traces (own_writes c) (reconcileMissingJob redactSecrets sanitizeErrorMessage toISOString Date_parse guard env c current).
Proof.
  unfold reconcileMissingJob. destruct (e_container env); [apply owned_clear; intros _; apply owned_ret| |apply owned_ret].
  step_if; [apply owned_ret|]. step_if; [apply owned_ret|].
  apply owned_bind; [apply owned_call; intros s; apply guarded_record|]. intros [n first].
  step_if; [apply owned_ret|apply owned_orphan].
Qed.

Lemma owned_by_job c current k1 k2 :
  (forall r, traces (own_writes c) (k1 r : M (list counter * list replacement_call))) -> (forall r, traces (own_writes c) (k2 r)) ->
  traces (own_writes c) (match e_job env with
    | Some job => reconcileQueueJob redactSecrets sanitizeErrorMessage toISOString guard env c current job ≫= k1
    | None => reconcileMissingJob redactSecrets sanitizeErrorMessage toISOString Date_parse guard env c current ≫= k2
    end).
Proof.
  intros H1 H2. destruct (e_job env); (apply owned_bind; [|done]); [apply owned_queue_job|apply owned_missing_job].
Qed.

Lemma owned_read_task c : traces (own_writes c) (read_task : M (option TaskStateData)).
Proof.
  unfold read_task. apply owned_bind; [apply owned_call; intros s; apply guarded_refl|].
  intros [j|]; [|apply owned_ret]. apply owned_parse. intros cur _. apply owned_ret.
Qed.
(** Every write of the reconciler is guarded, under any interference: it replaces the
    task's key only from a record that had not ended, to one that has; it appends to the
    history either the row of the record it has just ended, or, in one transaction, a
    terminal row while the candidate's row is still the latest and its job assignment the
    scanned one; and it touches nothing else but the candidate's observation. *)
Theorem reconciler_writes_are_guarded c : traces (own_writes c) (reconcile c).
Proof.
  unfold reconcileCandidate. step_if; [apply owned_ret|]. apply owned_bind; [apply owned_read_task|].
  intros [cur|]; [|apply owned_by_job; intros r; apply owned_ret].
  case_bool_decide as Ht; [apply owned_bind; [by apply owned_finalize|intros r; apply owned_ret]|].
  destruct (age (Text (toISOString (updatedAt cur)))) as [a|]; [|apply owned_by_job; intros r; apply owned_ret].
  step_if; [apply owned_clear; intros _; apply owned_ret|apply owned_by_job; intros r; apply owned_ret].
Qed.

(** ** Evidence *)

(** Whatever ends a task, durably or in its key, is a step that is not [quiet]. *)
Definition evidence (c : PersistedTaskStateCandidate) (l : list (store * store)) : Prop :=
  age_at_least (age (c_updatedAt c)) (e_staleMs env) = true /\
  ((exists ss j cur, ss ∈ l /\ task_key ss.1 = Some j /\ parse j = Some cur /\ state cur ∈ TERMINAL_TASK_STATES)
   \/ (exists job, e_job env = Some job /\ job_state job ∈ ["completed"; "failed"]%string)
   \/ (e_job env = None /\ e_container env = not_found_ /\ e_replacement env && e_awaitingDelivery env = false
       /\ exists ss o, ss ∈ l /\ missing ss.2 !! c_taskId c = Some o /\ expected_history_id o = c_historyId c
            /\ 2 <= observations o /\ age_at_least (age (first_missing_at o)) (e_orphanGraceMs env) = true)).

(** [m] is quiet, or the evidence is there once [l0] came before. *)
Definition justified (c : PersistedTaskStateCandidate) (l0 : list (store * store)) {A} (m : M A) : Prop :=
  forall w, exists l, trace (snd (m w)) = trace w ++ l
    /\ (Forall (fun ss => quiet ss.1 ss.2) l \/ evidence c (l0 ++ l)).

Lemma evidence_more c l l' : evidence c l -> evidence c (l ++ l').
Proof.
  intros [Ha [(ss & j & cur & Hin & H)|[H|(H1 & H2 & H3 & ss & o & Hin & H)]]]; split; try done.
  - left. exists ss, j, cur. split; [apply elem_of_app; by left|done].
  - right. by left.
  - right. right. split_and!; [done..|]. exists ss, o. split; [apply elem_of_app; by left|done].
Qed.

Lemma justified_ret c l0 {A} (a : A) : justified c l0 (mret a).
Proof. intros w. exists []. rewrite app_nil_r. split; [done|left; constructor]. Qed.

(** With the evidence at hand, anything the reconciler does is justified. *)
Lemma justified_evidence c l0 {A} (m : M A) : traces (own_writes c) m -> evidence c l0 -> justified c l0 m.
Proof. intros Hm He w. destruct (Hm w) as (l & Hl & _). exists l. split; [done|]. right. by apply evidence_more. Qed.

Lemma justified_call c l0 {A B} (f : store -> A * store) (k : A -> M B) :
  (forall s, quiet s (snd (f s))) -> (forall s, justified c (l0 ++ [(s, snd (f s))]) (k (fst (f s)))) ->
  justified c l0 (call f ≫= k).
Proof.
  intros Hq Hk w. destruct (call_bind f k w) as (s & w1 & -> & Htr). destruct (Hk s w1) as (l & Hl & He).
  exists ((s, snd (f s)) :: l). rewrite Hl, Htr, <- app_assoc. split; [done|].
  destruct He as [He|He]; [left; by constructor|right]. by rewrite <- app_assoc in He.
Qed.

Lemma justified_clear c l0 {B} (k : unit -> M B) :
  (forall l, justified c l (k tt)) -> justified c l0 (call (fun s : store => (tt, clearMissing (c_taskId c) s)) ≫= k).
Proof. intros H. apply justified_call; [done|]. intros s. apply H. Qed.

Lemma justified_bind_ret c l0 {A B} (m : M A) (g : A -> B) : justified c l0 m -> justified c l0 (m ≫= fun a => mret (g a)).
Proof.
  intros H w. destruct (H w) as (l & Hl & He). exists l. unfold mbind, M_bind.
  by destruct (m w) as [[a|e] w'].
Qed.

Lemma justified_queue_job c l0 current job :
  age_at_least (age (c_updatedAt c)) (e_staleMs env) = true -> e_job env = Some job ->
  justified c l0 (reconcileQueueJob redactSecrets sanitizeErrorMessage toISOString guard env c current job).
Proof.
  intros Ha Hj.
  assert (He : job_state job ∈ ["completed"; "failed"]%string -> evidence c l0) by (intros H; split; [done|right; left; eauto]).
  destruct (decide (job_state job ∈ ["completed"; "failed"]%string)) as [H|H].
  - apply justified_evidence; [apply owned_queue_job|auto].
  - unfold reconcileQueueJob. case_bool_decide; [apply justified_clear; intros l; apply justified_ret|].
    case_bool_decide; [exfalso; apply H; set_solver|]. case_bool_decide; [exfalso; apply H; set_solver|]. apply justified_ret.
Qed.

(** What the observation that is read says of the one that is written. *)
Lemma recordMissing_spec c at_ (s : store) :
  exists o, missing (snd (recordMissing c at_ s)) !! c_taskId c = Some o /\ expected_history_id o = c_historyId c
    /\ fst (recordMissing c at_ s) = (observations o, first_missing_at o).
Proof.
  unfold recordMissing. destruct (missing s !! c_taskId c) as [o|]; [case_bool|];
    (eexists; simpl; rewrite lookup_insert_eq; split; [reflexivity|done]).
Qed.

Lemma justified_missing_job c l0 current :
  age_at_least (age (c_updatedAt c)) (e_staleMs env) = true -> e_job env = None ->
  justified c l0 (reconcileMissingJob redactSecrets sanitizeErrorMessage toISOString Date_parse guard env c current).
Proof.
  intros Ha Hj. unfold reconcileMissingJob. destruct (e_container env) eqn:Ec; [apply justified_clear; intros l; apply justified_ret| |apply justified_ret].
  case_bool; [apply justified_ret|]. clear E. case_bool; [apply justified_ret|]. clear E.
  apply justified_call; [intros s; apply quiet_record|]. intros s.
  destruct (recordMissing_spec c (Text (toISOString (e_now env))) s) as (o & Ho & Hid & ->).
  destruct ((observations o <? 2) || _) eqn:E; [apply justified_ret|]. zb.
  destruct (e_replacement env && e_awaitingDelivery env) eqn:Er.
  - unfold finalizeOrphan. rewrite Er. apply justified_ret.
  - apply justified_evidence; [apply owned_orphan|]. split; [done|]. right. right. split_and!; [done..|].
    eexists _, o. split; [apply elem_of_app; right; by left|]. done.
Qed.

(** C23. A task is only ended on evidence: if a run does more than record observations, the
    candidate was stale and either the task's own record had already ended, or its queue
    job has completed or failed, or job and container are gone and two observations of the
    same history row, the first older than the grace period, say so, with no replacement
    awaiting delivery. *)
Theorem finalization_needs_evidence c w :
  exists l, trace (snd (reconcile c w)) = trace w ++ l
    /\ (Forall (fun ss => quiet ss.1 ss.2) l \/ evidence c l).
Proof.
  revert w. change (justified c [] (reconcile c)). unfold reconcileCandidate.
  destruct (age_at_least _ _) eqn:Ha; cbn [negb]; cbv beta iota; [|apply justified_ret].
  set (k := fun current : option TaskStateData => _). 
  assert (Hjob : forall l0 current, justified c l0 (match e_job env with
      | Some job => reconcileQueueJob redactSecrets sanitizeErrorMessage toISOString guard env c current job ≫= fun r => mret (c_stale :: r, [])
      | None => reconcileMissingJob redactSecrets sanitizeErrorMessage toISOString Date_parse guard env c current ≫= fun r => mret (c_stale :: fst r, snd r)
      end : M (list counter * list replacement_call))).
  { intros l0 current. destruct (e_job env) eqn:Ej; apply justified_bind_ret; [by apply justified_queue_job|by apply justified_missing_job]. }
  assert (Hk : forall s j cur, task_key s = Some j -> parse j = Some cur -> justified c [(s, s)] (k (Some cur))).
  { intros s j cur Hs Hp. unfold k. cbv beta zeta. case_bool_decide as Ht.
    - apply justified_evidence; [apply owned_bind; [by apply owned_finalize|intros r; apply owned_ret]|].
      split; [done|]. left. exists (s, s), j, cur. split; [by left|done].
    - destruct (age (Text (toISOString (updatedAt cur)))) as [a|]; [|apply Hjob]. case_bool; [apply justified_clear; intros l; apply justified_ret|apply Hjob]. }
  assert (Hn : forall s, justified c [(s, s)] (k None)) by (intros s; apply Hjob). clearbody k. clear Hjob.
  intros w. unfold read_task, mbind, M_bind, call. set (s := match others w with g :: _ => g (Interleave.store w) | [] => Interleave.store w end).
  destruct (task_key s) as [j|] eqn:Es.
  2: { destruct (Hn s (World s (tail (others w)) (trace w ++ [(s, s)]))) as (l & Hl & He). exists ((s, s) :: l).
       simpl in *. rewrite Hl, <- app_assoc. split; [done|]. destruct He; [left; by constructor|by right]. }
  unfold parse_task. destruct (parse j) as [cur|] eqn:Ep.
  2: { exists [(s, s)]. split; [done|]. left. by repeat constructor. }
  destruct (Hk s j cur Es Ep (World s (tail (others w)) (trace w ++ [(s, s)]))) as (l & Hl & He). exists ((s, s) :: l).
  simpl in *. rewrite Hl, <- app_assoc. split; [done|]. destruct He; [left; by constructor|by right].
Qed.
(** ** What is written is read back as it was meant *)

Abbreviation transition := (buildTaskStateTransition redactSecrets guard).

Lemma findLastIndex_snoc h e : findLastIndex (h_state e) (h ++ [e]) = Some (length h).
Proof.
  unfold findLastIndex. rewrite reverse_snoc. simpl. rewrite decide_True by done. simpl. rewrite length_app. simpl. f_equal. lia.
Qed.

(** Replaying a terminal record preserves its outcome: the row the reconciler writes
    for a record that ended carries its state, its reason and every field of its history
    metadata but the four the replay itself records. *)
Theorem replay_preserves_outcome cur newState metadata now k :
  let next := t_state (transition cur newState metadata now) in
  let replay := redisTerminalTransition toISOString next in
  p_state replay = newState
  /\ p_reason replay = (let r := t_reason (transition cur newState metadata now) in
                        if is_blank r then "Recovered terminal task state from Redis"%string else r)
  /\ field "originalFinalizedBy" (p_metadata replay)
     = Some (default JNull (field "finalizedBy" (entry_metadata (m_historyMetadata metadata) (terminalReason next))))
  /\ (if decide (k ∈ ["originalFinalizedBy"; "finalizedBy"; "redisUpdatedAt"; "redisVersion"]%string) then True
      else field k (p_metadata replay) = field k (entry_metadata (m_historyMetadata metadata) (terminalReason next))).
Proof.
  intros next replay. set (e := Entry newState now (t_reason (transition cur newState metadata now))
    (Some (entry_metadata (m_historyMetadata metadata) (terminalReason next)))).
  assert (Hh : history next = history cur ++ [e]) by done.
  assert (He : findLastIndex newState (history next) ≫= (fun i => history next !! i) = Some e).
  { rewrite Hh. change newState with (h_state e). rewrite (findLastIndex_snoc (history cur) e). simpl. by rewrite lookup_app_r, Nat.sub_diag. }
  unfold replay, redisTerminalTransition. change (state next) with newState. rewrite He. simpl.
  split_and!; [done|done| |].
  - rewrite field_spread, !field_set_field. by destruct (resolveTerminalReason _ _ _ _).
  - case_decide as Hk; [done|]. rewrite !elem_of_cons in Hk. rewrite field_spread, !field_set_field.
    rewrite !bool_decide_eq_false_2 by naive_solver. unfold entry_metadata.
    destruct (resolveTerminalReason _ _ _ _) as [r|]; [|done]. rewrite field_spread. by destruct (field k [_]).
Qed.

(** The texts that make a transition a user's cancellation. *)
Definition mentions_user (reason : string) : bool :=
  includes "cancelled by user" (to_lower reason) || includes "user request" (to_lower reason).

(** A queue hand-off does not end the task: the record the reconciler writes for a
    requeued or rescheduled job is recognized as bookkeeping, and every later update but
    a cancellation is applied to it. *)
Theorem handoff_task_continues fields s cur now :
  let tr := completedJobTransition sanitizeErrorMessage (JObj fields) in
  let next := t_state (transition cur (p_state tr) (finalize_metadata tr) now) in
  field "status" fields = Some (JStr s) -> s ∈ ["requeued"; "rescheduled"]%string -> sanitizeErrorMessage s = s ->
  mentions_user (p_reason tr) = false ->
  state next = CANCELLED /\ isBookkeepingCancellation next = true
  /\ forall newState metadata, newState <> CANCELLED -> keeps_current next newState metadata = false.
Proof.
  intros tr next Hs Hin Hsan Hm.
  assert (Htr : tr = cancelledJobTransition s (processorText sanitizeErrorMessage (field "reason" fields))
    [("finalizedBy", JStr "bullmq_completed_reconciliation"); ("jobResultStatus", JStr s);
     ("jobResultReason", text_or_null (processorText sanitizeErrorMessage (field "reason" fields)))]%string).
  { unfold tr, completedJobTransition. rewrite Hs. simpl. rewrite !elem_of_cons in Hin.
    destruct Hin as [->|[->|Hin]]; [simpl; by rewrite Hsan..|by apply elem_of_nil in Hin]. }
  clearbody tr. set (r := processorText _ _) in *. clearbody r.
  assert (Hmeta : p_state tr = CANCELLED /\ p_metadata tr = [("finalizedBy", JStr "bullmq_completed_reconciliation"); ("jobResultStatus", JStr s);
     ("jobResultReason", text_or_null r)]%string).
  { subst tr. rewrite !elem_of_cons in Hin. destruct Hin as [->|[->|Hin]]; [by destruct r..|by apply elem_of_nil in Hin]. }
  destruct Hmeta as [Hst Hmeta]. unfold mentions_user in Hm.
  assert (Hterm : terminalReason next = None).
  { unfold next. simpl. unfold resolveTerminalReason, history_field, finalize_metadata. simpl. rewrite Hmeta, Hst. simpl.
    rewrite Hm. done. }
  assert (Hb : isBookkeepingCancellation next = true).
  { unfold isBookkeepingCancellation. rewrite Hterm. unfold next. simpl. rewrite Hst, last_snoc. simpl.
    rewrite Hmeta. unfold entry_metadata. simpl. rewrite field_spread.
    replace (resolveTerminalReason guard (taskId cur) CANCELLED (finalize_metadata tr)) with (@None TaskTerminalReason)
      by (rewrite <- Hst; symmetry; exact Hterm).
    simpl. rewrite !elem_of_cons in Hin. destruct Hin as [->|[->|Hin]]; [done..|by apply elem_of_nil in Hin]. }
  split_and!; [by unfold next; simpl; rewrite Hst|done|].
  intros newState metadata Hns. unfold keeps_current. rewrite Hb, (bool_decide_eq_false_2 (newState = CANCELLED)) by done.
  simpl. by rewrite !andb_false_r.
Qed.
End Facts.

(** ** A concrete task

    The theorems on the task state applied to a concrete record, its serialization the
    record itself, with a guard and a redaction that do nothing. *)

#[export] Instance task_eq_dec : EqDecision TaskStateData.
Proof. unfold EqDecision. repeat (intros; unfold Decision; decide equality; try apply (_ : EqDecision _)). Defined.

#[export, refine] Instance task_serial : Serial TaskStateData TaskStateData := { stringify t := t; parse t := Some t }.
Proof. done. Defined.

Definition created : TaskStateData :=
  buildInitialTaskState "issue-7" [("number", JNum 7); ("repoOwner", JStr "integry"); ("repoName", JStr "propr")]%string "c-1" 1000.
Definition working : TaskStateData := t_state (buildTaskStateTransition id None created PROCESSING no_metadata 2000).
Definition done_task : TaskStateData := t_state (buildTaskStateTransition id None working COMPLETED no_metadata 3000).

(** Another process that rewrites the record at every call but one. *)
Definition rival (s : option TaskStateData) : option TaskStateData :=
  match s with Some t => Some (touch t (updatedAt t + 1)) | None => None end.

Lemma one_quiet_attempt_suffices_witness :
  exists st, fst (updateTaskState id None (fun _ => 2000) "issue-7" PROCESSING no_metadata
                    (World (Some created) [rival; rival; rival; id] [])) = Ok st.
Proof.
  apply (one_quiet_attempt_suffices id None (fun _ => 2000) "issue-7" PROCESSING no_metadata _ 1).
  - exists created, created. split; reflexivity.
  - assert (Hr : keeps_readable rival) by (intros s (j & cur & -> & Hp); simpl; eexists _, _; split; reflexivity).
    repeat constructor; [exact Hr..|intros s H; exact H].
  - unfold MAX_ATOMIC_UPDATE_ATTEMPTS. lia.
  - intros s. reflexivity.
Defined.

Lemma expectation_identifies_record_witness :
  extends created working
  /\ (matchesExpectation working (taskStateExpectation created) = true -> working = created)
  /\ matchesExpectation working (taskStateExpectation created) = false.
Proof.
  split; [|split; [|vm_compute; reflexivity]];
    apply (expectation_identifies_record id None created working); eapply rtc_once, step_update; vm_compute; reflexivity.
Defined.

(** A completed task answers a cancellation with its own record, and an issue patch
    leaves it completed. *)
Lemma finished_task_stays_finished_witness :
  keeps_current done_task CANCELLED no_metadata = true
  /\ state (patch_issue [("agentAlias", JStr "claude")]%string (touch done_task 4000)) = state done_task.
Proof.
  split; [vm_compute; reflexivity|].
  apply (finished_task_stays_finished id None done_task (patch_issue [("agentAlias", JStr "claude")]%string (touch done_task 4000))).
  - apply rtc_once, ordinary_issue.
  - split; [left|vm_compute; reflexivity].
Defined.

Definition requeued : object := [("status", JStr "requeued"); ("reason", JStr "worker shutting down")]%string.

Lemma handoff_task_continues_witness :
  keeps_current (t_state (buildTaskStateTransition id None working CANCELLED
     (finalize_metadata (completedJobTransition id (JObj requeued))) 5000)) PROCESSING no_metadata = false.
Proof.
  apply (handoff_task_continues id id None requeued "requeued" working 5000).
  - reflexivity.
  - left.
  - reflexivity.
  - vm_compute. reflexivity.
  - discriminate.
Defined.

(** The reason of a cancelled job reaches the history entry, not the record: the
    transition carries it where [resolveTerminalReason] does not look. *)
Example reconciled_cancellation_reason :
  let tr := completedJobTransition id (JObj [("status", JStr "cancelled"); ("reason", JStr "cancelled_by_user")]%string) in
  let next := t_state (buildTaskStateTransition id None working (p_state tr) (finalize_metadata tr) 5000) in
  field "terminalReason" (p_metadata tr) = Some (JStr "cancelled_by_user") /\ terminalReason next = None.
Proof. vm_compute. split; reflexivity. Qed.
