(* ===== verification/TaskIds.v ===== *)
(** * Task identifiers

    packages/shared/src/taskIdentifiers.ts: the identifier of an issue execution is built
    from sanitized components, bounded to 255 characters, and keeps its correlation id. *)

From S2P Require Import Prelude JsString.

Open Scope list_scope.

Definition MAX_TASK_ID_LENGTH : nat := 255.
Definition MAX_TASK_ID_COMPONENT_LENGTH : nat := 80.

(** [/[a-zA-Z0-9_.-]/] and [/[._-]/]. *)
Definition task_id_char (c : ascii) : bool :=
  let n := code c in
  ((97 <=? n) && (n <=? 122) || (65 <=? n) && (n <=? 90) || is_digit c || (n =? 95) || (n =? 46) || (n =? 45))%Z.
Definition edge_char (c : ascii) : bool := let n := code c in ((n =? 46) || (n =? 95) || (n =? 45))%Z.
Definition hyphen : ascii := char 45.

(** [TASK_ID_PATTERN.test] *)
Definition task_id_pattern (s : string) : bool := negb (bool_decide (s = ""%string)) && forallb task_id_char (chars s).

(** [replace(/r+/g, '-')] for a class [r] of characters; [open] inside a run. *)
Fixpoint squeeze (r : ascii -> bool) (open : bool) (l : list ascii) : list ascii :=
  match l with
  | [] => []
  | c :: l => if r c then (if open then squeeze r true l else hyphen :: squeeze r true l) else c :: squeeze r false l
  end.

(** [replace(/^r+|r+$/g, '')] *)
Fixpoint drop_edge (l : list ascii) : list ascii :=
  match l with [] => [] | c :: l' => if edge_char c then drop_edge l' else l end.
Fixpoint drop_edge_end (l : list ascii) : list ascii :=
  match l with
  | [] => []
  | c :: l => if edge_char c && forallb edge_char l then [] else c :: drop_edge_end l
  end.

Definition sanitizeTaskIdComponent (value fallback : string) : string :=
  let l := chars (take MAX_TASK_ID_COMPONENT_LENGTH (trim value)) in
  let l := squeeze (fun c => negb (task_id_char c)) false l in
  let l := squeeze (fun c => bool_decide (c = hyphen)) false l in
  match drop_edge_end (drop_edge l) with [] => fallback | l => of_chars l end.

Record IssueTaskIdParts := Parts {
  repoOwner : string;
  repoName : string;
  issueNumber : Z;
  agentAlias : string;
  modelName : string;
  correlationId : string;
}.

Definition buildIssueTaskId (parts : IssueTaskIdParts) : string :=
  let prefix := join "-"
    [sanitizeTaskIdComponent (repoOwner parts) "owner"; sanitizeTaskIdComponent (repoName parts) "repository";
     sanitizeTaskIdComponent (show (issueNumber parts)) "issue"; sanitizeTaskIdComponent (agentAlias parts) "agent";
     sanitizeTaskIdComponent (modelName parts) "model"]%string in
  let suffix := ("-" ++ sanitizeTaskIdComponent (correlationId parts) "correlation")%string in
  let prefixBudget := (MAX_TASK_ID_LENGTH - String.length suffix)%nat in
  let bounded := match drop_edge_end (chars (take prefixBudget prefix)) with [] => "task"%string | l => of_chars l end in
  (bounded ++ suffix)%string.

(** ** Facts *)

Definition ok (l : list ascii) : Prop := Forall (fun c => task_id_char c = true) l.

Lemma length_chars s : length (chars s) = String.length s.
Proof. induction s; simpl; congruence. Qed.
Lemma length_of_chars l : String.length (of_chars l) = length l.
Proof. induction l; simpl; congruence. Qed.
Lemma chars_take n s : chars (take n s) = list.take n (chars s).
Proof. revert n; induction s as [|c s IH]; intros [|n]; try done. simpl. by rewrite IH. Qed.

Lemma length_squeeze r b l : (length (squeeze r b l) <= length l)%nat.
Proof.
  revert b; induction l as [|c l IH]; intros b; simpl; [lia|].
  destruct (r c), b; simpl; pose proof (IH true); pose proof (IH false); lia.
Qed.
Lemma squeeze_bad b l : ok (squeeze (fun c => negb (task_id_char c)) b l).
Proof.
  revert b; induction l as [|c l IH]; intros b; simpl; [constructor|].
  destruct (task_id_char c) eqn:E; simpl; [constructor; [done|apply IH]|]. destruct b; [apply IH|constructor; [done|apply IH]].
Qed.
Lemma squeeze_ok r b l : ok l -> ok (squeeze r b l).
Proof.
  revert b; induction l as [|c l IH]; intros b H; simpl; [constructor|]. inversion H; subst.
  destruct (r c), b; try (by apply IH); (constructor; [done|by apply IH]).
Qed.
Lemma drop_edge_suffix l : drop_edge l `suffix_of` l.
Proof. induction l as [|c l IH]; simpl; [done|]. destruct (edge_char c); [by apply suffix_cons_r|done]. Qed.
Lemma drop_edge_end_prefix l : drop_edge_end l `prefix_of` l.
Proof. induction l as [|c l IH]; simpl; [done|]. destruct (_ && _); [apply prefix_nil|by apply prefix_cons]. Qed.
Lemma ok_prefix l k : l `prefix_of` k -> ok k -> ok l.
Proof. intros [m ->] H. by apply Forall_app in H as [? _]. Qed.
Lemma ok_suffix l k : l `suffix_of` k -> ok k -> ok l.
Proof. intros [m ->] H. by apply Forall_app in H as [_ ?]. Qed.
Lemma ok_app l k : ok (l ++ k) <-> ok l /\ ok k.
Proof. apply Forall_app. Qed.

(** A component is short and of the identifier's alphabet, if its fallback is. *)
Lemma sanitize_spec value fallback :
  ok (chars fallback) -> (0 < String.length fallback <= MAX_TASK_ID_COMPONENT_LENGTH)%nat ->
  ok (chars (sanitizeTaskIdComponent value fallback))
  /\ (0 < String.length (sanitizeTaskIdComponent value fallback) <= MAX_TASK_ID_COMPONENT_LENGTH)%nat.
Proof.
  intros Hok Hlen. unfold sanitizeTaskIdComponent.
  set (l0 := chars (take _ _)). set (l1 := squeeze _ false l0). set (l2 := squeeze _ false l1).
  assert (H2 : ok l2) by apply squeeze_ok, squeeze_bad.
  assert (Hl : (length l2 <= MAX_TASK_ID_COMPONENT_LENGTH)%nat).
  { pose proof (length_squeeze (fun c => bool_decide (c = hyphen)) false l1). pose proof (length_squeeze (fun c => negb (task_id_char c)) false l0).
    assert (length l0 <= MAX_TASK_ID_COMPONENT_LENGTH)%nat by (unfold l0; rewrite chars_take, length_take; lia). unfold l2, l1 in *. lia. }
  pose proof (drop_edge_suffix l2) as Hs. pose proof (drop_edge_end_prefix (drop_edge l2)) as Hp.
  destruct (drop_edge_end (drop_edge l2)) as [|c l] eqn:E; [done|]. rewrite chars_of_chars, length_of_chars.
  split; [eapply ok_prefix, ok_suffix; done|]. apply prefix_length in Hp. apply suffix_length in Hs. simpl in *. lia.
Qed.

Lemma ok_joined l : Forall (fun s => ok (chars s)) l -> ok (chars (join "-" l)).
Proof.
  induction 1 as [|s l Hs Hl IH]; [constructor|]. destruct l as [|s' l]; [done|].
  change (join "-" (s :: s' :: l)) with (s ++ "-" ++ join "-" (s' :: l))%string.
  rewrite !chars_app, !ok_app. split_and!; [done|by repeat constructor|done].
Qed.

(** The bounded prefix before the correlation id. *)
Lemma bounded_spec n l : ok l -> (4 <= n)%nat ->
  let b := match drop_edge_end (list.take n l) with [] => "task"%string | l => of_chars l end in
  ok (chars b) /\ (0 < String.length b <= n)%nat.
Proof.
  intros Hl Hn b. pose proof (drop_edge_end_prefix (list.take n l)) as Hp. unfold b.
  destruct (drop_edge_end (list.take n l)) as [|c k] eqn:E; [split; [by repeat constructor|simpl; lia]|].
  rewrite chars_of_chars, length_of_chars. split.
  - eapply ok_prefix; [exact Hp|]. eapply ok_prefix; [|exact Hl]. apply prefix_take.
  - apply prefix_length in Hp. rewrite length_take in Hp. simpl in *. lia.
Qed.

Lemma correlation_component parts :
  ok (chars (sanitizeTaskIdComponent (correlationId parts) "correlation"))
  /\ (0 < String.length (sanitizeTaskIdComponent (correlationId parts) "correlation") <= MAX_TASK_ID_COMPONENT_LENGTH)%nat.
Proof. apply sanitize_spec; [by repeat constructor|unfold MAX_TASK_ID_COMPONENT_LENGTH; simpl; lia]. Qed.

(** Every task identifier is within the storage contract, whatever its parts hold: at
    most 255 characters, all of them of the identifier alphabet, ending in the sanitized
    correlation id. *)
Theorem task_id_within_contract parts :
  (String.length (buildIssueTaskId parts) <= MAX_TASK_ID_LENGTH)%nat
  /\ task_id_pattern (buildIssueTaskId parts) = true
  /\ exists prefix, buildIssueTaskId parts = (prefix ++ "-" ++ sanitizeTaskIdComponent (correlationId parts) "correlation")%string.
Proof.
  destruct (correlation_component parts) as [Hcok Hclen]. unfold buildIssueTaskId.
  set (corr := sanitizeTaskIdComponent (correlationId parts) "correlation") in *.
  match goal with |- context [take ?n ?p] => set (prefix := p); set (n0 := n) end.
  assert (Hpre : ok (chars prefix)).
  { apply ok_joined. repeat constructor; apply sanitize_spec; try (by repeat constructor);
      unfold MAX_TASK_ID_COMPONENT_LENGTH; simpl; lia. }
  assert (Hn : (4 <= n0 /\ n0 + S (String.length corr) = MAX_TASK_ID_LENGTH)%nat).
  { unfold n0, MAX_TASK_ID_LENGTH, MAX_TASK_ID_COMPONENT_LENGTH in *. simpl. lia. }
  rewrite chars_take. destruct (bounded_spec n0 (chars prefix) Hpre) as [Hbok Hblen]; [lia|].
  set (b := match drop_edge_end _ with [] => _ | _ => _ end) in *. clearbody b.
  assert (Hlen : String.length (b ++ String hyphen corr) = (String.length b + S (String.length corr))%nat).
  { rewrite <- !length_chars, chars_app, length_app. done. }
  split_and!; [change ("-" ++ corr)%string with (String hyphen corr); rewrite Hlen; lia| |by exists b].
  unfold task_id_pattern. change ("-" ++ corr)%string with (String hyphen corr). rewrite bool_decide_eq_false_2.
  - simpl. apply forallb_forall. intros c Hc. rewrite chars_app in Hc. apply list_elem_of_In in Hc.
    assert (H : ok (chars b ++ chars (String hyphen corr))) by (apply ok_app; split; [done|by constructor]).
    by apply (proj1 (Forall_forall _ _) H).
  - intros H. rewrite H in Hlen. simpl in Hlen. lia.
Qed.

Lemma string_app_inj_r (a b c d : string) : String.length c = String.length d -> (a ++ c)%string = (b ++ d)%string -> c = d.
Proof.
  intros Hl H. apply (f_equal chars) in H. rewrite !chars_app in H. apply app_inj_2 in H as [_ H]; [|by rewrite !length_chars].
  by rewrite <- (of_chars_chars c), H, of_chars_chars.
Qed.

(** Distinct correlation ids of the same length that need no sanitizing (as UUIDs)
    give distinct task identifiers, however the rest is shortened. *)
Theorem fresh_correlation_fresh_task_id p q :
  sanitizeTaskIdComponent (correlationId p) "correlation" = correlationId p ->
  sanitizeTaskIdComponent (correlationId q) "correlation" = correlationId q ->
  String.length (correlationId p) = String.length (correlationId q) ->
  buildIssueTaskId p = buildIssueTaskId q -> correlationId p = correlationId q.
Proof.
  intros Hp Hq Hl H. unfold buildIssueTaskId in H. rewrite Hp, Hq in H.
  apply string_app_inj_r in H; [|simpl; by rewrite Hl]. by injection H.
Qed.

Lemma fresh_correlation_fresh_task_id_witness :
  let p c := Parts "integry" "propr" 7 "claude" "openai/gpt-5.6" c in
  buildIssueTaskId (p "6f1c2d3e-0000-4000-8000-000000000001"%string)
    = "integry-propr-7-claude-openai-gpt-5.6-6f1c2d3e-0000-4000-8000-000000000001"%string
  /\ (buildIssueTaskId (p "6f1c2d3e-0000-4000-8000-000000000001"%string) = buildIssueTaskId (p "6f1c2d3e-0000-4000-8000-000000000002"%string)
      -> "6f1c2d3e-0000-4000-8000-000000000001"%string = "6f1c2d3e-0000-4000-8000-000000000002"%string).
Proof.
  split; [vm_compute; reflexivity|].
  apply (fresh_correlation_fresh_task_id (Parts "integry" "propr" 7 "claude" "openai/gpt-5.6" "6f1c2d3e-0000-4000-8000-000000000001")
           (Parts "integry" "propr" 7 "claude" "openai/gpt-5.6" "6f1c2d3e-0000-4000-8000-000000000002")); vm_compute; reflexivity.
Defined.
