(* ===== verification/PrLock.v ===== *)
(** * The pull-request processing lock

    src/jobs/prProcessingLock.ts: the scripts that acquire, renew, adopt and release a
    lease, the acquisition of the lease a pull request currently resolves to, and the
    heartbeat. A lease is a token with the instant (in milliseconds) it expires at; the
    time to live Redis answers is that remaining time rounded to seconds. *)

From S2P Require Import Prelude Interleave.

Open Scope Z_scope.
Open Scope list_scope.

Definition PR_PROCESSING_LOCK_TTL_SECONDS : Z := 60 * 60.
Definition PR_PROCESSING_LOCK_RENEW_INTERVAL_MS : Z := 30 * 1000.
Definition PR_PROCESSING_LOCK_FRESHNESS_SECONDS : Z := 4 * (PR_PROCESSING_LOCK_RENEW_INTERVAL_MS / 1000).

Record locks := Locks {
  now : Z;
  leases : gmap string (string * Z);
}.

Definition lease_at (k : string) (s : locks) : option (string * Z) :=
  match leases s !! k with Some (t, e) => if now s <? e then Some (t, e) else None | None => None end.
Definition set_lease (k t : string) (ttl : Z) (s : locks) : locks := Locks (now s) (<[k := (t, now s + 1000 * ttl)]> (leases s)).
Definition elapse (d : Z) (s : locks) : locks := Locks (now s + d) (leases s).

(** ** Scripts *)

(** [SET key token EX ttl NX] *)
Definition SET_NX (k t : string) (ttl : Z) (s : locks) : bool * locks :=
  match lease_at k s with None => (true, set_lease k t ttl s) | Some _ => (false, s) end.

Definition RENEW_LOCK_SCRIPT (k t : string) (ttl : Z) (s : locks) : bool * locks :=
  match lease_at k s with
  | Some (t', _) => if bool_decide (t' = t) then (true, set_lease k t ttl s) else (false, s)
  | None => (false, s)
  end.

Definition RELEASE_LOCK_SCRIPT (k t : string) (s : locks) : bool * locks :=
  match lease_at k s with
  | Some (t', _) => if bool_decide (t' = t) then (true, Locks (now s) (delete k (leases s))) else (false, s)
  | None => (false, s)
  end.

(** [TTL key] of a live lease. *)
Definition ttl_seconds (e : Z) (s : locks) : Z := (e - now s + 500) / 1000.

Inductive PRProcessingLockAdoption := adopted | live_owner | other_owner.

Definition ADOPT_LOCK_SCRIPT (k predecessor successor : string) (ttl fresh : Z) (s : locks) : PRProcessingLockAdoption * locks :=
  match lease_at k s with
  | None => (adopted, set_lease k successor ttl s)
  | Some (t, e) =>
      if negb (bool_decide (t = predecessor)) then (other_owner, s)
      else if fresh <? ttl_seconds e s then (live_owner, s)
      else (adopted, set_lease k successor ttl s)
  end.

(** ** Operations *)

Abbreviation M := (Interleave.M locks).

Definition renewPRProcessingLock (k t : string) (ttl : Z) : M bool := call (RENEW_LOCK_SCRIPT k t ttl).
Definition releasePRProcessingLock (k t : string) : M bool := call (RELEASE_LOCK_SCRIPT k t).

Definition acquirePRProcessingLock (k t : string) (ttl : Z) : M bool :=
  acquired ← call (SET_NX k t ttl);
  if acquired : bool then mret true else renewPRProcessingLock k t ttl.

Definition adoptPRProcessingLock (k predecessor successor : string) (ttl freshness : Z) : M PRProcessingLockAdoption :=
  call (ADOPT_LOCK_SCRIPT k predecessor successor ttl (ttl - freshness)).

(** Acquires the lease the pull request resolves to; [resolve i] is the [i]-th answer of
    [resolveLockKey]. The loop has no bound of its own: [fuel] bounds its turns, and
    the answer [None] is that it ran out. *)
Fixpoint acquireCurrent (fuel i : nat) (resolve : nat -> result string) (k t : string) : M (option (option string)) :=
  match fuel with
  | O => mret None
  | S fuel =>
      acquired ← acquirePRProcessingLock k t PR_PROCESSING_LOCK_TTL_SECONDS;
      if negb acquired then mret (Some None)
      else
        match resolve i with
        | Throw e => _ ← releasePRProcessingLock k t; throw e
        | Ok resolved =>
            if bool_decide (resolved = k) then mret (Some (Some k))
            else _ ← releasePRProcessingLock k t; acquireCurrent fuel (S i) resolve resolved t
        end
  end.
Definition acquireCurrentPRProcessingLock (fuel : nat) (resolve : nat -> result string) (k t : string) : M (option (option string)) :=
  acquireCurrent fuel 0 resolve k t.

(** ** The execution's token *)

Definition createPRProcessingLockToken (correlationId uuid : string) : string := (correlationId ++ ":" ++ uuid)%string.

(** The job's token after the call, and the answer: [persist] is what [job.updateData] did. *)
Definition ensurePRProcessingLockToken (token : option string) (correlationId uuid : string) (persist : result unit) : option string * result string :=
  match token with
  | Some (String c t) => (token, Ok (String c t))
  | _ =>
      let t := createPRProcessingLockToken correlationId uuid in
      (Some t, match persist with Ok _ => Ok t | Throw e => Throw e end)
  end.

(** ** The heartbeat *)

Record Heartbeat := Beat {
  stopped : bool;
  renewing : bool;
  lockLost : nat;
  failures : nat;
}.
Definition heartbeat_started : Heartbeat := Beat false false 0 0.

(** The timer fires: whether a renewal is sent. *)
Definition heartbeat_renew (h : Heartbeat) : bool * Heartbeat :=
  if stopped h || renewing h then (false, h) else (true, Beat (stopped h) true (lockLost h) (failures h)).
(** The renewal settles: it answered, or failed. *)
Definition renewal_settled (answer : option bool) (h : Heartbeat) : Heartbeat :=
  match answer with
  | Some renewed => Beat (stopped h) false (if negb renewed && negb (stopped h) then S (lockLost h) else lockLost h) (failures h)
  | None => Beat (stopped h) false (lockLost h) (if stopped h then failures h else S (failures h))
  end.
Definition heartbeat_stop (h : Heartbeat) : Heartbeat := Beat true (renewing h) (lockLost h) (failures h).

(** ** Facts *)

Lemma lease_at_set k t ttl s : 0 < ttl -> lease_at k (set_lease k t ttl s) = Some (t, now s + 1000 * ttl).
Proof. intros H. unfold lease_at. simpl. rewrite lookup_insert_eq. destruct (now s <? _) eqn:E; zb; [done|lia]. Qed.
Lemma lease_at_set_ne k k' t ttl s : k <> k' -> lease_at k' (set_lease k t ttl s) = lease_at k' s.
Proof. intros H. unfold lease_at. simpl. by rewrite lookup_insert_ne. Qed.
Lemma lease_at_elapse k t e d s : lease_at k (elapse d s) = Some (t, e) <-> leases s !! k = Some (t, e) /\ now s + d < e.
Proof.
  unfold lease_at. simpl. destruct (leases s !! k) as [[t' e']|]; [|naive_solver].
  destruct (now s + d <? e') eqn:E; zb; [naive_solver|]. split; [done|]. intros [[= -> ->] ?]. lia.
Qed.
Lemma lease_at_Some k t e s : lease_at k s = Some (t, e) <-> leases s !! k = Some (t, e) /\ now s < e.
Proof.
  unfold lease_at. destruct (leases s !! k) as [[t' e']|]; [|naive_solver].
  destruct (now s <? e') eqn:E; zb; [naive_solver|]. split; [done|]. intros [[= -> ->] ?]. lia.
Qed.

(** ** Leases of other executions *)

(** An own write leaves every live lease of another token as it is, and time too. *)
Definition respects (t : string) (s s' : locks) : Prop :=
  now s' = now s /\ forall k u e, u <> t -> lease_at k s = Some (u, e) -> lease_at k s' = Some (u, e).

Lemma respects_set t k ttl s : (forall u e, lease_at k s = Some (u, e) -> u = t) -> respects t s (set_lease k t ttl s).
Proof.
  intros H. split; [done|]. intros k' u e Hu Hl. destruct (decide (k = k')) as [->|]; [|by rewrite lease_at_set_ne].
  by apply H in Hl.
Qed.

Lemma respects_set_nx t k ttl s : respects t s (snd (SET_NX k t ttl s)).
Proof. unfold SET_NX. destruct (lease_at k s) as [[u e]|] eqn:E; [done|]. apply respects_set. by rewrite E. Qed.
Lemma respects_renew t k ttl s : respects t s (snd (RENEW_LOCK_SCRIPT k t ttl s)).
Proof.
  unfold RENEW_LOCK_SCRIPT. destruct (lease_at k s) as [[u e]|] eqn:E; [|done]. case_bool_decide; [|done]. subst.
  apply respects_set. rewrite E. intros u e' [= <- <-]. done.
Qed.
Lemma respects_release t k s : respects t s (snd (RELEASE_LOCK_SCRIPT k t s)).
Proof.
  unfold RELEASE_LOCK_SCRIPT. destruct (lease_at k s) as [[u e]|] eqn:E; [|done]. case_bool_decide; [|done]. subst.
  split; [done|]. intros k' u e' Hu Hl. destruct (decide (k = k')) as [->|]; [rewrite E in Hl; by simplify_eq|].
  unfold lease_at in *. simpl. by rewrite lookup_delete_ne.
Qed.

Lemma steps_acquire t k ttl : steps (respects t) (acquirePRProcessingLock k t ttl).
Proof.
  apply steps_bind; [apply steps_call; apply respects_set_nx|]. intros []; [apply steps_ret|apply steps_call; apply respects_renew].
Qed.

(** Acquiring, re-resolving and releasing never touches another execution's lease:
    under any interference, each own write of [acquireCurrentPRProcessingLock] keeps every
    live lease of a different token. *)
Theorem acquisition_respects_others fuel resolve k t : steps (respects t) (acquireCurrentPRProcessingLock fuel resolve k t).
Proof.
  unfold acquireCurrentPRProcessingLock. generalize 0%nat as i. revert k. induction fuel as [|fuel IH]; intros k i; cbn [acquireCurrent]; [exact (steps_ret (respects t) (@None (option string)))|].
  apply steps_bind; [apply steps_acquire|]. intros []; cbn [negb]; cbv beta iota; [|apply steps_ret]. destruct (resolve i) as [r|e].
  - case_bool_decide; [apply steps_ret|]. apply steps_bind; [apply steps_call; apply respects_release|]. intros _. apply IH.
  - apply steps_bind; [apply steps_call; apply respects_release|]. intros _. apply steps_throw.
Qed.

Lemma acquire_never_throws k t ttl w : exists b w', acquirePRProcessingLock k t ttl w = (Ok b, w').
Proof.
  unfold acquirePRProcessingLock, renewPRProcessingLock, mbind, M_bind, call. destruct (SET_NX _ _ _ _) as [[] s']; [by eexists _, _|].
  destruct (RENEW_LOCK_SCRIPT _ _ _ _) as [b s'']. by eexists _, _.
Qed.

(** The turns left at turn [i] with key [k0]. *)
Definition turns_left (n i : nat) (k k0 : string) : nat :=
  if bool_decide (k0 = k) && bool_decide (n <= i)%nat then 1 else (n - i) + 2.

Lemma acquire_turns n resolve k t fuel : forall i k0 w,
  (forall i, (n <= i)%nat -> resolve i = Ok k) -> (turns_left n i k k0 <= fuel)%nat ->
  fst (acquireCurrent fuel i resolve k0 t w) <> Ok None.
Proof.
  induction fuel as [|fuel IH]; intros i k0 w Hres Hf; unfold turns_left in Hf.
  { destruct (_ && _) in Hf; lia. }
  simpl. unfold mbind, M_bind. destruct (acquire_never_throws k0 t PR_PROCESSING_LOCK_TTL_SECONDS w) as (b & w1 & ->).
  destruct b; cbn [negb]; cbv beta iota; [|discriminate].
  destruct (resolve i) as [r|e] eqn:Er; [destruct (bool_decide (r = k0)) eqn:Hr; [discriminate|apply bool_decide_eq_false in Hr]|];
    unfold releasePRProcessingLock, call; destruct (RELEASE_LOCK_SCRIPT _ _ _) as [b s']; [|discriminate].
  apply IH; [done|]. unfold turns_left. repeat case_bool_decide; simpl in *; try lia;
    (rewrite (Hres i) in Er by lia; simplify_eq; done).
Qed.

(** The acquisition ends: once the resolver answers the same key from turn [n] on, two
    more turns suffice, whatever other processes do in between. *)
Theorem acquisition_terminates n resolve k k0 t w :
  (forall i, (n <= i)%nat -> resolve i = Ok k) ->
  fst (acquireCurrentPRProcessingLock (n + 2) resolve k0 t w) <> Ok None.
Proof. intros Hres. apply (acquire_turns n resolve k); [done|]. unfold turns_left. destruct (_ && _); lia. Qed.

(** ** A heartbeating owner *)

(** What other executions may do to the lease [k] of token [t], and time. *)
Inductive other_step (k t : string) (s : locks) : locks -> Prop :=
  | other_elapse d : 0 <= d -> other_step k t s (elapse d s)
  | other_set_nx k' u ttl : 0 < ttl -> (k' <> k \/ u <> t) -> other_step k t s (snd (SET_NX k' u ttl s))
  | other_renew k' u ttl : 0 < ttl -> (k' <> k \/ u <> t) -> other_step k t s (snd (RENEW_LOCK_SCRIPT k' u ttl s))
  | other_release k' u : (k' <> k \/ u <> t) -> other_step k t s (snd (RELEASE_LOCK_SCRIPT k' u s))
  | other_adopt k' p u :
      (k' <> k \/ u <> t) ->
      other_step k t s (snd (ADOPT_LOCK_SCRIPT k' p u PR_PROCESSING_LOCK_TTL_SECONDS
                               (PR_PROCESSING_LOCK_TTL_SECONDS - PR_PROCESSING_LOCK_FRESHNESS_SECONDS) s)).

(** The lease as the owner's renewal at the instant [last] left it. *)
Definition renewed_at (k t : string) (last : Z) (s : locks) : Prop :=
  leases s !! k = Some (t, last + 1000 * PR_PROCESSING_LOCK_TTL_SECONDS).

(** How long after a renewal a lease is safe from adoption: the freshness window less the
    half second by which the server may round the remaining time. *)
Definition safe_ms : Z := 1000 * PR_PROCESSING_LOCK_FRESHNESS_SECONDS - 500.

Lemma renewed_live k t last s :
  renewed_at k t last s -> now s - last <= safe_ms -> lease_at k s = Some (t, last + 1000 * PR_PROCESSING_LOCK_TTL_SECONDS).
Proof.
  intros H Hn. apply lease_at_Some. split; [done|].
  unfold safe_ms, PR_PROCESSING_LOCK_FRESHNESS_SECONDS, PR_PROCESSING_LOCK_RENEW_INTERVAL_MS, PR_PROCESSING_LOCK_TTL_SECONDS in *.
  change (30 * 1000 / 1000) with 30 in *. lia.
Qed.

(** The time to live Redis answers for a healthy lease is above the freshness threshold. *)
Lemma healthy_ttl last s :
  now s - last <= safe_ms ->
  PR_PROCESSING_LOCK_TTL_SECONDS - PR_PROCESSING_LOCK_FRESHNESS_SECONDS < ttl_seconds (last + 1000 * PR_PROCESSING_LOCK_TTL_SECONDS) s.
Proof.
  unfold ttl_seconds, safe_ms, PR_PROCESSING_LOCK_FRESHNESS_SECONDS, PR_PROCESSING_LOCK_RENEW_INTERVAL_MS, PR_PROCESSING_LOCK_TTL_SECONDS.
  change (60 * 60 - 4 * (30 * 1000 / 1000)) with 3480. change (4 * (30 * 1000 / 1000)) with 120. intros H.
  apply (Z.lt_le_trans _ 3481); [lia|]. apply Z.div_le_lower_bound; lia.
Qed.

Lemma leases_set_ne k k' u ttl s : k' <> k -> leases (set_lease k' u ttl s) !! k = leases s !! k.
Proof. intros H. simpl. by rewrite lookup_insert_ne. Qed.

(** A healthy lease is refused to every other execution: each script leaves it as it is. *)
Lemma other_keeps k t last s s' :
  other_step k t s s' -> renewed_at k t last s -> last <= now s -> now s - last <= safe_ms -> renewed_at k t last s'.
Proof.
  intros Hs H Hl Hn. pose proof (renewed_live _ _ _ _ H Hn) as Hlive. unfold renewed_at in *.
  assert (Hset : forall k' u ttl, k' <> k -> leases (set_lease k' u ttl s) !! k = leases s !! k) by (intros; by apply leases_set_ne).
  destruct Hs as [d Hd|k' u ttl Ht Hk|k' u ttl Ht Hk|k' u Hk|k' p u Hk].
  - done.
  - unfold SET_NX. destruct (lease_at k' s) as [[v e]|] eqn:E; simpl snd; [done|].
    destruct (decide (k' = k)) as [->|]; [congruence|]. by rewrite Hset.
  - unfold RENEW_LOCK_SCRIPT. destruct (lease_at k' s) as [[v e]|] eqn:E; [|done]. case_bool_decide; simpl snd; [|done]. subst.
    destruct (decide (k' = k)) as [->|]; [|by rewrite Hset]. rewrite Hlive in E. naive_solver.
  - unfold RELEASE_LOCK_SCRIPT. destruct (lease_at k' s) as [[v e]|] eqn:E; [|done]. case_bool_decide; [|done]. subst. simpl.
    destruct (decide (k' = k)) as [->|]; [rewrite Hlive in E; naive_solver|]. by rewrite lookup_delete_ne.
  - unfold ADOPT_LOCK_SCRIPT. destruct (lease_at k' s) as [[v e]|] eqn:E.
    + destruct (decide (k' = k)) as [->|]; [|destruct (negb _); [done|]; destruct (_ <? _); simpl snd; [done|by rewrite Hset]].
      rewrite Hlive in E. simplify_eq. destruct (negb _); [done|]. destruct (_ <? _) eqn:Ef; [done|]. zb. exfalso.
      pose proof (healthy_ttl _ _ Hn). lia.
    + destruct (decide (k' = k)) as [->|]; [congruence|]. simpl snd. by rewrite Hset.
Qed.

(** ** The owner's execution *)

(** The server, the heartbeat, the answer of a renewal under way, and the instant of the
    last renewal the server executed. *)
Record owner := Owner {
  server : locks;
  beat : Heartbeat;
  answer : option bool;
  last_renewal : Z;
}.

Inductive owner_step (k t : string) : owner -> owner -> Prop :=
  | own_other o s' :
      other_step k t (server o) s' -> now s' - last_renewal o <= safe_ms ->
      owner_step k t o (Owner s' (beat o) (answer o) (last_renewal o))
  | own_tick o :
      owner_step k t o (Owner (server o) (snd (heartbeat_renew (beat o))) (answer o) (last_renewal o))
  | own_execute o : renewing (beat o) = true -> answer o = None ->
      owner_step k t o (let '(r, s') := RENEW_LOCK_SCRIPT k t PR_PROCESSING_LOCK_TTL_SECONDS (server o) in
                        Owner s' (beat o) (Some r) (if r then now (server o) else last_renewal o))
  | own_settle o r : answer o = Some r -> owner_step k t o (Owner (server o) (renewal_settled (Some r) (beat o)) None (last_renewal o))
  | own_fail o : renewing (beat o) = true -> owner_step k t o (Owner (server o) (renewal_settled None (beat o)) None (last_renewal o))
  | own_stop o : owner_step k t o (Owner (server o) (heartbeat_stop (beat o)) (answer o) (last_renewal o)).

Definition owner_ok (k t : string) (o : owner) : Prop :=
  renewed_at k t (last_renewal o) (server o) /\ last_renewal o <= now (server o)
  /\ now (server o) - last_renewal o <= safe_ms /\ answer o <> Some false /\ lockLost (beat o) = O.

Lemma other_time k t s s' : other_step k t s s' -> now s <= now s'.
Proof.
  destruct 1 as [d Hd| | | |]; simpl; [lia|..];
    unfold SET_NX, RENEW_LOCK_SCRIPT, RELEASE_LOCK_SCRIPT, ADOPT_LOCK_SCRIPT; repeat case_match; simpl; lia.
Qed.

Lemma owner_step_ok k t o o' : owner_step k t o o' -> owner_ok k t o -> owner_ok k t o'.
Proof.
  intros Hs (Hr & Hl & Hn & Ha & Hlost). pose proof (renewed_live _ _ _ _ Hr Hn) as Hlive.
  destruct Hs as [o s' Ho Hn'|o|o Hren Hans|o r Hans|o Hren|o].
  - pose proof (other_time _ _ _ _ Ho). split_and!; simpl; [by eapply other_keeps|lia|done..].
  - split_and!; simpl; try done. unfold heartbeat_renew. by destruct (_ || _).
  - unfold RENEW_LOCK_SCRIPT. rewrite Hlive, (bool_decide_eq_true_2 (t = t)) by done. split_and!; simpl; [|lia|..|done|done].
    + unfold renewed_at. simpl. by rewrite lookup_insert_eq.
    + unfold safe_ms, PR_PROCESSING_LOCK_FRESHNESS_SECONDS, PR_PROCESSING_LOCK_RENEW_INTERVAL_MS.
      change (30 * 1000 / 1000) with 30. lia.
  - split_and!; simpl; try done. destruct r; [done|]. rewrite Hans in Ha. done.
  - split_and!; done.
  - split_and!; done.
Qed.

(** C37. A heartbeating owner is never displaced: however other executions acquire, renew,
    release or adopt, and whatever they believe about its token, as long as the server
    executes a renewal at least every 119.5 seconds the lease stays the owner's, each
    renewal succeeds, and the heartbeat never reports it lost. *)
Theorem heartbeating_owner_keeps_lease k t o o' :
  owner_ok k t o -> rtc (owner_step k t) o o' ->
  lease_at k (server o') = Some (t, last_renewal o' + 1000 * PR_PROCESSING_LOCK_TTL_SECONDS)
  /\ fst (RENEW_LOCK_SCRIPT k t PR_PROCESSING_LOCK_TTL_SECONDS (server o')) = true
  /\ lockLost (beat o') = O.
Proof.
  intros Hok Hs. induction Hs as [o|o o1 o2 Hs _ IH]; [|apply IH; by eapply owner_step_ok].
  destruct Hok as (Hr & Hl & Hn & Ha & Hlost). pose proof (renewed_live _ _ _ _ Hr Hn) as Hlive.
  split_and!; [done| |done]. unfold RENEW_LOCK_SCRIPT. by rewrite Hlive, bool_decide_eq_true_2.
Qed.

(** ** Concrete leases *)

Definition demo_owner : owner :=
  Owner (Locks 1000 {["lock:pr:7" := ("a:1", 1000 + 1000 * PR_PROCESSING_LOCK_TTL_SECONDS)]}%string) heartbeat_started None 1000.

(** A successor that names the owner's token is refused 100 seconds later. *)
Lemma heartbeating_owner_keeps_lease_witness :
  exists s, s = snd (ADOPT_LOCK_SCRIPT "lock:pr:7" "a:1" "b:2" PR_PROCESSING_LOCK_TTL_SECONDS
                       (PR_PROCESSING_LOCK_TTL_SECONDS - PR_PROCESSING_LOCK_FRESHNESS_SECONDS) (elapse 100000 (server demo_owner)))
  /\ lease_at "lock:pr:7" s = Some ("a:1"%string, 1000 + 1000 * PR_PROCESSING_LOCK_TTL_SECONDS).
Proof.
  eexists. split; [reflexivity|].
  refine (proj1 (heartbeating_owner_keeps_lease "lock:pr:7" "a:1" demo_owner (Owner _ heartbeat_started None 1000) _ _)).
  - split; [reflexivity|]. split; [vm_compute; discriminate|]. split; [vm_compute; discriminate|]. split; [discriminate|reflexivity].
  - eapply rtc_l.
    { apply (own_other _ _ demo_owner (elapse 100000 (server demo_owner))); [apply other_elapse; lia|vm_compute; discriminate]. }
    eapply rtc_once. apply (own_other _ _ (Owner (elapse 100000 (server demo_owner)) heartbeat_started None 1000)).
    + apply other_adopt. right. discriminate.
    + vm_compute. discriminate.
Defined.

Lemma acquisition_terminates_witness :
  fst (acquireCurrentPRProcessingLock (1 + 2) (fun i => match i with O => Ok "lock:b"%string | _ => Ok "lock:c"%string end) "lock:a" "a:1"
         (World (Locks 0 ∅) [] [])) <> Ok None
  /\ fst (acquireCurrentPRProcessingLock (1 + 2) (fun i => match i with O => Ok "lock:b"%string | _ => Ok "lock:c"%string end) "lock:a" "a:1"
         (World (Locks 0 ∅) [] [])) = Ok (Some (Some "lock:c"%string)).
Proof.
  split; [|vm_compute; reflexivity].
  apply (acquisition_terminates 1 _ "lock:c"). intros [|i] Hi; [lia|reflexivity].
Defined.
