(* ===== verification/Replacement.v ===== *)
(** * Task replacement: policy and store

    packages/shared/src/taskReplacement.ts and src/taskReplacement/policy.ts (settings and
    exclusions) and src/taskReplacement/store.ts: the columns of a task, its history, the
    statements that read and write them. Each statement, and the claim's transaction, is one
    atomic function of the database. A JSON column holds the record it was written from; the
    replayed payload is an object. *)

From S2P Require Import Prelude JsString Json TaskIds.

Open Scope Z_scope.
Open Scope list_scope.

Abbreviation object := (list (string * json)).

(** ** Policy *)

Definition DEFAULT_MAX_PROVIDER_REPLACEMENTS : Z := 2.
Definition MAX_PROVIDER_REPLACEMENTS_LIMIT : Z := 10.

Definition parseMaxProviderReplacements (value : option json) : option Z :=
  let candidate :=
    match value with
    | Some (JStr s) => if all_digits (trim s) then Some (JNum (inject_Z (number_of_digits (trim s)))) else value
    | _ => value
    end in
  match candidate with
  | Some (JNum q) =>
      match safe_integer q with
      | Some n => if (0 <=? n) && (n <=? MAX_PROVIDER_REPLACEMENTS_LIMIT) then Some n else None
      | None => None
      end
  | _ => None
  end.

Inductive ReplacementCause := infra_lost | provider_transient.
#[export] Instance ReplacementCause_eq_dec : EqDecision ReplacementCause.
Proof. solve_decision. Defined.

Inductive ReplacementSkipReason :=
  | r_disabled | cap_reached | budget_exhausted | r_user_cancelled | issue_closed
  | watchdog_stop | cost_cap_stop | goal_task | unsupported_task | replacement_not_started.
#[export] Instance ReplacementSkipReason_eq_dec : EqDecision ReplacementSkipReason.
Proof. solve_decision. Defined.

Definition MAX_INFRA_LOST_REPLACEMENTS : Z := 1.

Definition describeReplacementSkip (reason : ReplacementSkipReason) : string :=
  match reason with
  | r_disabled => "automatic replacement is disabled"
  | cap_reached => "the replacement cap was reached"
  | budget_exhausted => "earlier attempts used the whole per-run cost cap"
  | r_user_cancelled => "the task was cancelled"
  | issue_closed => "the issue was closed"
  | watchdog_stop => "the task was stopped by the stall watchdog or its run timeout"
  | cost_cap_stop => "the task was stopped by its cost cap"
  | goal_task => "goal tasks use goal recovery instead"
  | unsupported_task => "this task type cannot be replaced automatically"
  | replacement_not_started => "the replacement attempt was ended by reconciliation before it started"
  end.

Definition resolveMaxProviderReplacements (settingValue env : option json) : Z :=
  match parseMaxProviderReplacements settingValue with
  | Some n => n
  | None => default DEFAULT_MAX_PROVIDER_REPLACEMENTS (parseMaxProviderReplacements env)
  end.

Definition infraLostReplacementEnabled (env : option string) : bool :=
  negb (bool_decide (to_lower (trim (default ""%string env)) ∈ ["false"; "0"; "no"; "off"]%string)).

Definition contains_any (words : list string) (text : string) : bool := existsb (fun w => includes w text) words.

Definition stopReasonExclusion (terminalReason : option string) : option ReplacementSkipReason :=
  match truthy_string terminalReason with
  | None => None
  | Some r =>
      let lower := to_lower r in
      if starts_with "cancelled_" r || bool_decide (r = "user_cancelled"%string) then Some r_user_cancelled
      else if contains_any ["watchdog"; "stall"; "timed_out"]%string lower then Some watchdog_stop
      else if contains_any ["cost_cap"; "costcap"; "spend_cap"; "spendcap"; "budget_cap"; "budgetcap"; "budget_exceeded"; "cost_limit"]%string lower
      then Some cost_cap_stop
      else None
  end.

(** ** Records *)

Inductive ReplacementState := pending | dispatched | skipped | exhausted.
#[export] Instance ReplacementState_eq_dec : EqDecision ReplacementState.
Proof. solve_decision. Defined.

Record FailureNoticeRecord := Notice {
  n_id : string;
  n_cause : ReplacementCause;
  n_reason : option ReplacementSkipReason;
  n_exhausted : bool;
  n_maxReplacements : option Z;
  n_failure : option string;
  n_replacementTaskId : option string;
  n_attemptNumber : option Z;
  n_publish : bool;
  n_recordedAt : string;
  commentAttempts : option Z;
  commentDelivered : bool;
}.
#[export] Instance FailureNoticeRecord_eq_dec : EqDecision FailureNoticeRecord.
Proof. solve_decision. Defined.

Record ReplacementDispatchRecord := Dispatch {
  d_replacementTaskId : string;
  d_jobId : string;
  d_jobData : object;
  d_attemptNumber : Z;
  d_maxReplacements : Z;
  d_remainingBudgetUsd : option Q;
  d_failure : option string;
  claimedAt : string;
}.
#[export] Instance ReplacementDispatchRecord_eq_dec : EqDecision ReplacementDispatchRecord.
Proof. solve_decision. Defined.

(** The column may hold a follow-up only, so every field may be absent. *)
Record ReplacementRequestRecord := Request {
  q_cause : option ReplacementCause;
  q_terminalReason : option string;
  q_requestedAt : option string;
  q_finalizedBy : option string;
  q_dispatch : option ReplacementDispatchRecord;
  q_failureNotice : option FailureNoticeRecord;
}.
#[export] Instance ReplacementRequestRecord_eq_dec : EqDecision ReplacementRequestRecord.
Proof. solve_decision. Defined.
Definition empty_request : ReplacementRequestRecord := Request None None None None None None.

(** ** The database *)

Record AttemptRow := ARow {
  a_repository : string;
  a_issue_number : option Z;
  a_task_type : option string;
  a_model_name : option string;
  a_job_id : option string;
  replaces_task_id : option string;
  replaced_by_task_id : option string;
  attempt_number : option Z;
  lineage_root_task_id : option string;
  replacement_cause : option ReplacementCause;
  replacement_state : option ReplacementState;
  replacement_request : option ReplacementRequestRecord;
  replay_job_data : option object;
  branch_name : option string;
}.

Record TransitionRow := Transition {
  tr_task : string;
  tr_state : string;
  tr_timestamp : string;
  tr_reason : string;
  tr_metadata : option object;
}.

Record database := Database {
  task_rows : gmap string AttemptRow;
  transitions : list TransitionRow;
  execution_costs : gmap string Q;
}.

Definition update_rows (f : gmap string AttemptRow -> gmap string AttemptRow) (s : database) : database :=
  Database (f (task_rows s)) (transitions s) (execution_costs s).
Definition update_row (id : string) (f : AttemptRow -> AttemptRow) (s : database) : database := update_rows (alter f id) s.
Definition insert_transition (t : TransitionRow) (s : database) : database :=
  Database (task_rows s) (transitions s ++ [t]) (execution_costs s).

Definition with_request (state : option ReplacementState) (request : option ReplacementRequestRecord) (r : AttemptRow) : AttemptRow :=
  ARow (a_repository r) (a_issue_number r) (a_task_type r) (a_model_name r) (a_job_id r) (replaces_task_id r) (replaced_by_task_id r)
    (attempt_number r) (lineage_root_task_id r) (replacement_cause r) state request (replay_job_data r) (branch_name r).
Definition with_lineage (replaces : option string) (attempt : option Z) (root : option string) (cause : option ReplacementCause) (r : AttemptRow) : AttemptRow :=
  ARow (a_repository r) (a_issue_number r) (a_task_type r) (a_model_name r) (a_job_id r) replaces (replaced_by_task_id r)
    attempt root cause (replacement_state r) (replacement_request r) (replay_job_data r) (branch_name r).
Definition with_replaced_by (by_ : option string) (r : AttemptRow) : AttemptRow :=
  ARow (a_repository r) (a_issue_number r) (a_task_type r) (a_model_name r) (a_job_id r) (replaces_task_id r) by_
    (attempt_number r) (lineage_root_task_id r) (replacement_cause r) (replacement_state r) (replacement_request r) (replay_job_data r) (branch_name r).
Definition with_run (job : option string) (replay : option object) (branch : option string) (r : AttemptRow) : AttemptRow :=
  ARow (a_repository r) (a_issue_number r) (a_task_type r) (a_model_name r) job (replaces_task_id r) (replaced_by_task_id r)
    (attempt_number r) (lineage_root_task_id r) (replacement_cause r) (replacement_state r) (replacement_request r) replay branch.

(** ** Reading a task *)

Record ReplaceableTask := Task {
  t_taskId : string;
  t_repository : string;
  t_issueNumber : option Z;
  t_taskType : option string;
  t_modelName : option string;
  replacesTaskId : option string;
  replacedByTaskId : option string;
  attemptNumber : Z;
  lineageRootTaskId : string;
  replacementCause : option ReplacementCause;
  replacementState : option ReplacementState;
  replacementRequest : option ReplacementRequestRecord;
  replayData : option object;
  branchName : option string;
  latestState : option string;
  latestTerminalReason : option string;
  latestFinalizedBy : option string;
}.

Record LineageAttempt := Attempt {
  l_taskId : string;
  l_attemptNumber : Z;
  l_cause : option ReplacementCause;
  l_state : option string;
  costUsd : Q;
}.

Definition positiveInteger (value : option Z) : option Z :=
  match value with Some n => if (0 <? n) && (n <=? MAX_SAFE_INTEGER) then Some n else None | None => None end.

(** Timeline events repeat the current state; metadata comes from the last transition. *)
Definition is_event (t : TransitionRow) : bool :=
  match field "event" (default [] (tr_metadata t)) with None | Some JNull => false | Some _ => true end.
Definition history_of (id : string) (s : database) : list TransitionRow := filter (fun t => tr_task t = id) (transitions s).
Definition latest_state (id : string) (s : database) : option string := truthy_string (tr_state <$> last (history_of id s)).
Definition latest_metadata (id : string) (s : database) : object :=
  default [] (last (filter (fun t => is_event t = false) (history_of id s)) ≫= tr_metadata).
Definition text_value (v : option json) : option string := match v with Some (JStr s) => Some s | _ => None end.
Definition finalizedBy (metadata : object) : option string := text_value (field "finalizedBy" metadata).

Definition attempt_of (r : AttemptRow) : Z := default 1 (positiveInteger (attempt_number r)).
Definition root_of (id : string) (r : AttemptRow) : string := default id (truthy_string (lineage_root_task_id r)).

Definition taskFromRow (id : string) (r : AttemptRow) (s : database) : ReplaceableTask :=
  Task id (a_repository r) (positiveInteger (a_issue_number r)) (truthy_string (a_task_type r)) (truthy_string (a_model_name r))
    (truthy_string (replaces_task_id r)) (truthy_string (replaced_by_task_id r)) (attempt_of r) (root_of id r)
    (replacement_cause r) (replacement_state r) (replacement_request r) (replay_job_data r) (truthy_string (branch_name r))
    (latest_state id s) (text_value (field "terminalReason" (latest_metadata id s))) (finalizedBy (latest_metadata id s)).

Definition loadTask (id : string) (s : database) : option ReplaceableTask := (fun r => taskFromRow id r s) <$> task_rows s !! id.

Definition in_lineage (root id : string) (r : AttemptRow) : bool :=
  bool_decide (id = root) || bool_decide (lineage_root_task_id r = Some root).
Definition lineage_rows (root : string) (s : database) : list ReplaceableTask :=
  (fun p => taskFromRow p.1 p.2 s) <$> filter (fun p => in_lineage root p.1 p.2 = true) (map_to_list (task_rows s)).
(** [SUM(cost_usd)] of the tasks, read after their rows. *)
Definition loadLineage (tasks : list ReplaceableTask) (s : database) : list LineageAttempt :=
  sort_by (fun x y => l_attemptNumber x <=? l_attemptNumber y)
    ((fun t => Attempt (t_taskId t) (attemptNumber t) (replacementCause t) (latestState t) (default 0%Q (execution_costs s !! t_taskId t))) <$> tasks).

(** ** Statements *)

Definition is_null {A} (v : option A) : bool := match v with None => true | Some _ => false end.
(** [UPDATE tasks SET ... WHERE task_id = id AND guard]: whether a row was updated. *)
Definition update_where (id : string) (guard : AttemptRow -> bool) (f : AttemptRow -> AttemptRow) (s : database) : bool * database :=
  match task_rows s !! id with
  | Some r => if guard r then (true, update_row id f s) else (false, s)
  | None => (false, s)
  end.

Definition markRequested (id : string) (request : ReplacementRequestRecord) : database -> bool * database :=
  update_where id (fun r => is_null (replaced_by_task_id r)) (with_request (Some pending) (Some request)).

Definition setState (id : string) (state : option ReplacementState) (s : database) : database :=
  update_row id (fun r => with_request state (replacement_request r) r) s.

Definition set_notice (notice : option FailureNoticeRecord) (q : ReplacementRequestRecord) : ReplacementRequestRecord :=
  Request (q_cause q) (q_terminalReason q) (q_requestedAt q) (q_finalizedBy q) (q_dispatch q) notice.
Definition recordSkipped (id : string) (state : ReplacementState) (notice : FailureNoticeRecord) (s : database) : database :=
  update_row id (fun r => with_request (Some state) (Some (set_notice (Some notice) (default empty_request (replacement_request r)))) r) s.

Definition notice_of (r : AttemptRow) : option FailureNoticeRecord := replacement_request r ≫= q_failureNotice.
Definition has_notice (noticeId : string) (r : AttemptRow) : bool := bool_decide (n_id <$> notice_of r = Some noticeId).

Inductive NoticePatch := patch_attempts (n : Z) | patch_delivered | patch_publish (b : bool).
Definition patch_notice (p : NoticePatch) (n : FailureNoticeRecord) : FailureNoticeRecord :=
  let set publish attempts delivered :=
    Notice (n_id n) (n_cause n) (n_reason n) (n_exhausted n) (n_maxReplacements n) (n_failure n) (n_replacementTaskId n)
      (n_attemptNumber n) publish (n_recordedAt n) attempts delivered in
  match p with
  | patch_attempts a => set (n_publish n) (Some a) (commentDelivered n)
  | patch_delivered => set (n_publish n) (commentAttempts n) true
  | patch_publish b => set b (commentAttempts n) (commentDelivered n)
  end.
Definition map_notice (f : FailureNoticeRecord -> option FailureNoticeRecord) (q : ReplacementRequestRecord) : ReplacementRequestRecord :=
  set_notice (q_failureNotice q ≫= f) q.

Definition updateFailureNotice (id noticeId : string) (patch : NoticePatch) (s : database) : database :=
  snd (update_where id (has_notice noticeId)
         (fun r => with_request (replacement_state r) (map_notice (fun n => Some (patch_notice patch n)) <$> replacement_request r) r) s).

(** A withdrawn decision kept nothing but its follow-up. *)
Definition non_empty (q : ReplacementRequestRecord) : option ReplacementRequestRecord :=
  if bool_decide (q = empty_request) then None else Some q.
Definition clearFailureNotice (id noticeId : string) (s : database) : database :=
  snd (update_where id (has_notice noticeId)
         (fun r => with_request (replacement_state r) (replacement_request r ≫= (fun q => non_empty (set_notice None q))) r) s).

(** The rows of [SELECT ... WHERE p ORDER BY task_id LIMIT limit]. *)
Definition select_rows (p : AttemptRow -> bool) (limit : nat) (s : database) : list (string * AttemptRow) :=
  list.take limit (sort_by (fun x y => code_le x.1 y.1) (filter (fun x => p x.2 = true) (map_to_list (task_rows s)))).

Definition listFailureNotices (recordedBefore : string) (limit : nat) (s : database) : list (string * FailureNoticeRecord) :=
  omap (fun p => (fun n => (p.1, n)) <$> notice_of p.2)
    (select_rows (fun r => match notice_of r with Some n => code_le (n_recordedAt n) recordedBefore | None => false end) limit s).

Record CreateReplacementInput := Input {
  original : ReplaceableTask;
  i_replacementTaskId : string;
  i_jobId : string;
  i_correlationId : string;
  i_attemptNumber : Z;
  i_cause : ReplacementCause;
  i_jobData : object;
  i_replayData : object;
  i_timestamp : string;
  i_maxReplacements : Z;
  i_remainingBudgetUsd : option Q;
  i_failure : option string;
}.

Definition TRANSIENT_JOB_FIELDS : list string :=
  ["issuePayload"; "repoPayload"; "isRetryFromRateLimit"; "replacementBranch"; "costBudgetTaskIds"]%string.
Definition replayJobData (data : object) : object :=
  filter (fun f : string * json => (f.1 ∉ TRANSIENT_JOB_FIELDS) /\ starts_with "repositoryWorkflow" f.1 = false) data.

Definition input_dispatch (i : CreateReplacementInput) : ReplacementDispatchRecord :=
  Dispatch (i_replacementTaskId i) (i_jobId i) (i_jobData i) (i_attemptNumber i) (i_maxReplacements i) (i_remainingBudgetUsd i)
    (truthy_string (i_failure i)) (i_timestamp i).

Definition claimed_request (i : CreateReplacementInput) : ReplacementRequestRecord :=
  let base := default (Request None None (Some (i_timestamp i)) None None None) (replacementRequest (original i)) in
  Request (Some (i_cause i)) (q_terminalReason base) (q_requestedAt base) (q_finalizedBy base) (Some (input_dispatch i)) (q_failureNotice base).

Definition claim_slot (i : CreateReplacementInput) : gmap string AttemptRow -> gmap string AttemptRow :=
  alter (fun r => with_request (Some pending) (Some (claimed_request i)) (with_replaced_by (Some (i_replacementTaskId i)) r)) (t_taskId (original i)).
(** The job id moves to the replacement's row. *)
Definition free_job_id (i : CreateReplacementInput) (m : gmap string AttemptRow) : gmap string AttemptRow :=
  map_imap (fun id r =>
    Some (if bool_decide (a_job_id r = Some (i_jobId i)) && negb (bool_decide (id = i_replacementTaskId i))
          then with_run None (replay_job_data r) (branch_name r) r else r)) m.
Definition replacement_row (i : CreateReplacementInput) : AttemptRow :=
  ARow (t_repository (original i)) (t_issueNumber (original i)) (Some (default "issue"%string (t_taskType (original i))))
    (match text_value (field "modelName" (i_jobData i)) with Some m => Some m | None => t_modelName (original i) end)
    (Some (i_jobId i)) (Some (t_taskId (original i))) None (Some (i_attemptNumber i)) (Some (lineageRootTaskId (original i)))
    (Some (i_cause i)) None None (Some (replayJobData (i_replayData i))) None.
Definition stamp_root (i : CreateReplacementInput) : gmap string AttemptRow -> gmap string AttemptRow :=
  alter (fun r => match lineage_root_task_id r with
                  | None => with_lineage (replaces_task_id r) (attempt_number r) (Some (lineageRootTaskId (original i))) (replacement_cause r) r
                  | Some _ => r
                  end) (t_taskId (original i)).
Definition cause_text (c : ReplacementCause) : string :=
  match c with infra_lost => "infra_lost" | provider_transient => "provider_transient" end.

(** The claim's transaction; a task id that is already taken rolls it back. *)
Definition createReplacement (i : CreateReplacementInput) (s : database) : result bool * database :=
  match task_rows s !! t_taskId (original i) with
  | Some r =>
      if is_null (replaced_by_task_id r) then
        if bool_decide (is_Some (task_rows s !! i_replacementTaskId i)) then (Throw "UNIQUE constraint failed: tasks.task_id", s)
        else
          (Ok true,
           insert_transition
             (Transition (i_replacementTaskId i) "pending" (i_timestamp i) ("Replacement attempt " ++ show (i_attemptNumber i) ++ " queued")
                (Some [("replacesTaskId", JStr (t_taskId (original i))); ("attemptNumber", JNum (inject_Z (i_attemptNumber i)));
                       ("replacementCause", JStr (cause_text (i_cause i)))]))%string
             (update_rows (fun m => stamp_root i (<[i_replacementTaskId i := replacement_row i]> (free_job_id i (claim_slot i m)))) s))
      else (Ok false, s)
  | None => (Ok false, s)
  end.

Definition withdrawn_request (notice : FailureNoticeRecord) : ReplacementRequestRecord := set_notice (Some notice) empty_request.
Definition withdrawRequest (id : string) (request : ReplacementRequestRecord) (notice : FailureNoticeRecord) : database -> bool * database :=
  update_where id
    (fun r => bool_decide (replacement_state r = Some pending) && bool_decide (replacement_request r = Some request)
              && is_null (replaced_by_task_id r))
    (with_request None (Some (withdrawn_request notice))).

(** ** Timeline events *)

Record TimelineEvent := Event {
  e_taskId : string;
  e_event : string;
  e_reason : string;
  e_metadata : object;
  e_timestamp : string;
}.
(** [once]: the event is recorded at most once, or once for the notice. *)
Inductive once := always | once_ever | once_for (noticeId : string).

Definition event_recorded (e : TimelineEvent) (o : once) (s : database) : bool :=
  match o with
  | always => false
  | _ =>
      existsb (fun t =>
        is_text (e_event e) (field "event" (default [] (tr_metadata t)))
        && match o with once_for n => is_text n (field "noticeId" (default [] (tr_metadata t))) | _ => true end)
        (history_of (e_taskId e) s)
  end.
Definition event_state (id : string) (s : database) : string := default "failed"%string (tr_state <$> last (history_of id s)).
Definition insert_event (e : TimelineEvent) (state : string) (s : database) : database :=
  insert_transition (Transition (e_taskId e) state (e_timestamp e) (e_reason e) (Some (set_field "event" (JStr (e_event e)) (e_metadata e)))) s.

(** Evidence that a worker, or a user, acted on the task. *)
Definition run_transition (t : TransitionRow) : bool :=
  negb (bool_decide (tr_state t = "pending"%string))
  && is_null (field "event" (default [] (tr_metadata t)))
  && is_null (text_value (field "finalizedBy" (default [] (tr_metadata t)))).
Definition hasRunTransition (id : string) (s : database) : bool := existsb run_transition (history_of id s).

(** ** Recovery's worklist *)

Record PendingReplacementRequest := PendingRequest {
  pr_taskId : string;
  pr_request : ReplacementRequestRecord;
  pr_latestState : option string;
  pr_latestFinalizedBy : option string;
  pr_replacedByTaskId : option string;
}.

(** [None] where the row is left out of the list. *)
Definition pending_entry (requestedBefore : string) (s : database) (p : string * AttemptRow) : option PendingReplacementRequest :=
  request ← replacement_request p.2;
  requestedAt ← q_requestedAt request;
  let replacedBy := truthy_string (replaced_by_task_id p.2) in
  let entry := PendingRequest p.1 request (latest_state p.1 s) (finalizedBy (latest_metadata p.1 s)) replacedBy in
  match replacedBy with
  | Some b =>
      dispatch ← q_dispatch request;
      if bool_decide (d_replacementTaskId dispatch = b) && code_le (claimedAt dispatch) requestedBefore then Some entry else None
  | None => if code_le requestedAt requestedBefore then Some entry else None
  end.
Definition listPendingRequests (requestedBefore : string) (limit : nat) (s : database) : list PendingReplacementRequest :=
  omap (pending_entry requestedBefore s) (select_rows (fun r => bool_decide (replacement_state r = Some pending)) limit s).

(** ** What a running task records *)

Definition record_replay (id : string) (data : object) (s : database) : database :=
  snd (update_where id (fun r => is_null (replay_job_data r)) (fun r => with_run (a_job_id r) (Some (replayJobData data)) (branch_name r) r) s).
Definition as_cause (v : option json) : option ReplacementCause :=
  match text_value v with
  | Some t => if bool_decide (t = "infra_lost"%string) then Some infra_lost
              else if bool_decide (t = "provider_transient"%string) then Some provider_transient else None
  | None => None
  end.
Definition as_integer (v : option json) : option Z := match v with Some (JNum q) => safe_integer q | _ => None end.
Definition stamp_replacement (id replaces : string) (data : object) (s : database) : database :=
  snd (update_where id (fun r => is_null (replaces_task_id r))
         (with_lineage (Some replaces) (Some (default 2 (as_integer (field "attemptNumber" data))))
            (Some (default replaces (text_value (field "lineageRootTaskId" data)))) (as_cause (field "replacementCause" data))) s).

Definition recordLineageCostCap (id : string) (capUsd : option Q) (s : database) : database :=
  snd (update_where id (fun r => is_null (replaces_task_id r) && negb (is_null (replay_job_data r)))
         (fun r => with_run (a_job_id r)
            (option_map (fun data => match capUsd with
                                     | None => filter (fun f : string * json => f.1 <> "lineageCostCapUsd"%string) data
                                     | Some q => set_field "lineageCostCapUsd" (JNum q) data
                                     end) (replay_job_data r)) (branch_name r) r) s).
Definition recordPushedBranch (id branch : string) (s : database) : database :=
  update_row id (fun r => with_run (a_job_id r) (replay_job_data r) (Some branch) r) s.
