(* ===== verification/ReplaceService.v ===== *)
(** * Task replacement: the service

    src/taskReplacement/service.ts, delivery.ts and exhaustedComment.ts: what decides,
    claims, dispatches, announces, skips and recovers replacement attempts, as programs
    whose every statement may be preceded by steps of other processes. The site is the
    database, the jobs the queue accepted, the updates and comments that were published,
    and how the outside world currently answers. *)

From Stdlib Require Import Qround.
From S2P Require Import Prelude JsString Json Interleave TaskIds Replacement.

Open Scope Z_scope.
Open Scope list_scope.

Definition PENDING_REPLACEMENT_RECOVERY_MS : Z := 5 * 60 * 1000.
Definition MAX_EXHAUSTED_COMMENT_ATTEMPTS : Z := 5.
Definition REPLACEMENT_JOB_NAME : string := "processGitHubIssue".
Definition TERMINAL_STATES : list string := ["completed"; "failed"; "cancelled"]%string.

(** ** The site *)

(** What a call of the queue, or of GitHub, does: it succeeds, fails after it took effect,
    or fails without effect. *)
Inductive delivery := taken | taken_but_failed | refused.

(** [None] where the dependency is not configured. *)
Record SiteAnswers := Answers {
  v_now : Z;
  v_randomId : string;
  v_settings : result (option json);
  v_MAX_PROVIDER_REPLACEMENTS : option json;
  v_INFRA_LOST_REPLACEMENT : option string;
  v_issueState : option (result (option string));
  v_enqueue : delivery;
  v_publish : option (result bool);
  v_comment : option delivery;
  v_findComment : option (result unit);
}.

(** A published task update. *)
Record TaskUpdate := Published { u_taskId : string; u_state : string; u_skip : option ReplacementSkipReason; u_replaces : option string }.

Record site := Site {
  db : database;
  delivered : gset string;
  updates : list TaskUpdate;
  comments : list (string * Z * string);
  env : SiteAnswers;
}.

Abbreviation M := (Interleave.M site).

Definition set_db (d : database) (s : site) : site := Site d (delivered s) (updates s) (comments s) (env s).
Definition query {A} (f : database -> A) : M A := call (fun s => (f (db s), s)).
Definition statement {A} (f : database -> A * database) : M A := call (fun s => let '(a, d) := f (db s) in (a, set_db d s)).
Definition execute (f : database -> database) : M unit := call (fun s => (tt, set_db (f (db s)) s)).
Definition ask {A} (f : SiteAnswers -> A) : M A := call (fun s => (f (env s), s)).

(** ** External calls *)

Definition enqueue_job (jobId : string) : M unit :=
  answer ← call (fun s =>
    (v_enqueue (env s),
     match v_enqueue (env s) with
     | refused => s
     | _ => Site (db s) ({[jobId]} ∪ delivered s) (updates s) (comments s) (env s)
     end));
  match answer with taken => mret tt | _ => throw "queue unavailable" end.

(** [None] where no publisher is configured. *)
Definition publishTaskUpdate (u : TaskUpdate) : M (option bool) :=
  answer ← call (fun s =>
    (v_publish (env s),
     match v_publish (env s) with
     | Some (Ok true) => Site (db s) (delivered s) (updates s ++ [u]) (comments s) (env s)
     | _ => s
     end));
  match answer with None => mret None | Some (Ok b) => mret (Some b) | Some (Throw e) => throw e end.

Definition postIssueComment (repo : string) (issue : Z) (body : string) : M unit :=
  answer ← call (fun s =>
    (v_comment (env s),
     match v_comment (env s) with
     | Some taken | Some taken_but_failed => Site (db s) (delivered s) (updates s) (comments s ++ [(repo, issue, body)]) (env s)
     | _ => s
     end));
  match answer with Some taken => mret tt | _ => throw "comment failed" end.

(** Whether a comment with the marker is on the issue; [false] where it cannot be asked. *)
Definition findIssueComment (repo : string) (issue : Z) (marker : string) : M bool :=
  answer ← call (fun s => ((v_findComment (env s), existsb (fun c => bool_decide (c.1 = (repo, issue)) && includes marker c.2) (comments s)), s));
  match answer with (None, _) => mret false | (Some (Ok _), found) => mret found | (Some (Throw e), _) => throw e end.

Definition loadMaxProviderReplacements (e : SiteAnswers) : Z :=
  match v_settings e with
  | Ok v => resolveMaxProviderReplacements v (v_MAX_PROVIDER_REPLACEMENTS e)
  | Throw _ => resolveMaxProviderReplacements None (v_MAX_PROVIDER_REPLACEMENTS e)
  end.

(** ** Reading a lineage *)

Definition load_task (id : string) : M (option ReplaceableTask) := query (loadTask id).
(** The rows, then the costs of their executions. *)
Definition load_lineage (root : string) : M (list LineageAttempt) :=
  tasks ← query (lineage_rows root);
  query (loadLineage tasks).

(** ** Decisions *)

Record ReplacementRequest := Asked {
  k_taskId : string;
  k_cause : ReplacementCause;
  k_terminalReason : option string;
  k_error : option string;
  k_finalizedBy : option string;
}.

Inductive ReplacementEvaluation :=
  | eligible (task : ReplaceableTask) (lineage : list LineageAttempt) (attempt maxReplacements : Z) (remainingBudgetUsd : option Q)
  | ineligible (reason : ReplacementSkipReason) (task : ReplaceableTask) (lineage : list LineageAttempt) (maxReplacements : Z)
  | nothing.

Inductive ReplacementOutcome :=
  | o_dispatched (replacementTaskId : string) (attempt : Z) (lineage : list LineageAttempt)
  | o_delivery_pending (replacementTaskId : string) (attempt : Z)
  | o_skipped (reason : ReplacementSkipReason) (exhausted : bool) (lineage : list LineageAttempt)
  | o_none.

Definition EXHAUSTING_REASONS : list ReplacementSkipReason := [cap_reached; budget_exhausted].

Definition splitRepository (repository : string) : option (string * string) :=
  match split_char "/" repository with
  | [owner; name] => if bool_decide (owner = ""%string) || bool_decide (name = ""%string) then None else Some (owner, name)
  | _ => None
  end.

Definition causeCount (lineage : list LineageAttempt) (cause : ReplacementCause) : Z :=
  Z.of_nat (length (filter (fun a => l_cause a = Some cause) lineage)).

Definition replay_ok (task : ReplaceableTask) : bool :=
  bool_decide (default "issue"%string (t_taskType task) = "issue"%string)
  && match replayData task with
     | Some replay => truthy_json (field "agentAlias" replay) && truthy_json (field "modelName" replay)
     | None => false
     end
  && negb (is_null (t_issueNumber task)).

Definition first_some {A} (a b : option A) : option A := match a with Some _ => a | None => b end.

Definition exclusionFor (task : ReplaceableTask) (request : ReplacementRequest) (maxReplacements : Z) : option ReplacementSkipReason :=
  if bool_decide (t_taskType task = Some "goal"%string) then Some goal_task
  else
    match first_some (stopReasonExclusion (k_terminalReason request))
            (first_some (stopReasonExclusion (latestTerminalReason task))
               (if bool_decide (latestState task = Some "cancelled"%string) then Some r_user_cancelled else None)) with
    | Some stopped => Some stopped
    | None =>
        if maxReplacements =? 0 then Some r_disabled
        else if negb (replay_ok task) then Some unsupported_task
        else None
    end.

Definition lineageCostCap (replay : object) : option Q :=
  match field "lineageCostCapUsd" replay with
  | Some (JNum q) => if Qle_bool q 0 then None else Some q
  | _ => None
  end.

(** [Math.round(x * 1e6) / 1e6] *)
Definition round_micro (x : Q) : Q := (inject_Z (Qfloor (x * 1000000 + (1 # 2))) / 1000000)%Q.
Definition remainingBudget (replay : object) (lineage : list LineageAttempt) : option Q :=
  (fun cap => round_micro (cap - sumQ (costUsd <$> lineage))) <$> lineageCostCap replay.

Definition closedIssue (task : ReplaceableTask) : M bool :=
  answer ← ask v_issueState;
  match answer, splitRepository (t_repository task), t_issueNumber task with
  | Some (Ok (Some state)), Some _, Some _ => mret (bool_decide (state = "closed"%string))
  | _, _, _ => mret false
  end.

Definition max_replacements (cause : ReplacementCause) (e : SiteAnswers) : Z :=
  match cause with
  | infra_lost => if infraLostReplacementEnabled (v_INFRA_LOST_REPLACEMENT e) then MAX_INFRA_LOST_REPLACEMENTS else 0
  | provider_transient => loadMaxProviderReplacements e
  end.

Definition next_attempt (task : ReplaceableTask) (lineage : list LineageAttempt) : Z :=
  foldr Z.max (attemptNumber task) (l_attemptNumber <$> lineage) + 1.

Definition evaluate (request : ReplacementRequest) : M ReplacementEvaluation :=
  task ← load_task (k_taskId request);
  match task with
  | None => mret nothing
  | Some task =>
      if negb (is_null (replacedByTaskId task)) then mret nothing
      else
        lineage ← load_lineage (lineageRootTaskId task);
        maxReplacements ← ask (max_replacements (k_cause request));
        match exclusionFor task request maxReplacements with
        | Some reason => mret (ineligible reason task lineage maxReplacements)
        | None =>
            if maxReplacements <=? causeCount lineage (k_cause request) then mret (ineligible cap_reached task lineage maxReplacements)
            else
              let budget := remainingBudget (default [] (replayData task)) lineage in
              if match budget with Some b => Qle_bool b 0 | None => false end then mret (ineligible budget_exhausted task lineage maxReplacements)
              else
                closed ← closedIssue task;
                if closed : bool then mret (ineligible issue_closed task lineage maxReplacements)
                else mret (eligible task lineage (next_attempt task lineage) maxReplacements budget)
        end
  end.

Definition lineageOrSelf (task : ReplaceableTask) (lineage : list LineageAttempt) : list LineageAttempt :=
  match lineage with
  | [] => [Attempt (t_taskId task) (attemptNumber task) (replacementCause task) (latestState task) 0]
  | _ => lineage
  end.

Section Service.
Variable toISOString : Z -> string.
Variable shortHash taskUrl : string -> string.

(** ** The follow-up of a released decision *)

Definition formatAttempts (lineage : list LineageAttempt) : string :=
  join (String newline "") ((fun a =>
    (show (l_attemptNumber a) ++ ". [" ++ l_taskId a ++ "](" ++ taskUrl (l_taskId a) ++ ") — " ++ default "unknown" (l_state a)
     ++ match l_cause a with
        | Some infra_lost => " — replaced a run lost with its worker"
        | Some provider_transient => " — replaced a run ended by a provider error"
        | None => ""
        end)%string) <$> lineage).

(** What a caller of [newNotice] chooses. *)
Record NoticeFields := Fields {
  f_cause : ReplacementCause;
  f_reason : option ReplacementSkipReason;
  f_exhausted : bool;
  f_maxReplacements : option Z;
  f_failure : option string;
  f_replacementTaskId : option string;
  f_attemptNumber : option Z;
}.

(** The failure alert was held back only while a replacement was expected. *)
Definition newNotice (task : ReplaceableTask) (f : NoticeFields) (e : SiteAnswers) : FailureNoticeRecord :=
  Notice (v_randomId e) (f_cause f) (f_reason f) (f_exhausted f) (f_maxReplacements f) (f_failure f) (f_replacementTaskId f)
    (f_attemptNumber f) (bool_decide (replacementState task = Some pending)) (toISOString (v_now e)) None false.

Definition exhaustedCommentMarker (noticeId : string) : string := ("<!-- propr-replacement-exhausted:" ++ noticeId ++ " -->")%string.

Definition comment_body (count : Z) (formatted marker : string) : string :=
  let nl := String newline "" in
  ("❌ **Failed to process this issue after " ++ show count ++ " attempts**" ++ nl ++ nl
   ++ "The last attempt was lost with its worker (no queue job or running task container remained), "
   ++ "and a second loss in the same lineage is final." ++ nl ++ nl
   ++ "**Attempts:**" ++ nl ++ formatted ++ nl ++ nl
   ++ "---" ++ nl ++ "*Re-apply the trigger label to start a new run.*" ++ nl ++ marker)%string.

(** Posts an exhausted lineage's final comment; whether the obligation is settled. *)
Definition deliverExhaustedComment (task : ReplaceableTask) (notice : FailureNoticeRecord) (count : Z) (formatted : string) : M bool :=
  configured ← ask v_comment;
  match configured, splitRepository (t_repository task), t_issueNumber task with
  | Some _, Some _, Some issue =>
      if commentDelivered notice || negb (bool_decide (n_cause notice = infra_lost)) then mret true
      else
        let marker := exhaustedCommentMarker (n_id notice) in
        let attempts := default 0 (commentAttempts notice) in
        let delivered := _ ← execute (updateFailureNotice (t_taskId task) (n_id notice) patch_delivered); mret true in
        catch
          (posted ← (if 0 <? attempts then findIssueComment (t_repository task) issue marker else mret false);
           if posted : bool then delivered
           else if MAX_EXHAUSTED_COMMENT_ATTEMPTS <=? attempts then mret true
           else
             _ ← execute (updateFailureNotice (t_taskId task) (n_id notice) (patch_attempts (attempts + 1)));
             _ ← postIssueComment (t_repository task) issue (comment_body count formatted marker);
             delivered)
          (fun _ => mret false)
  | _, _, _ => mret true
  end.

Definition appendEvent (e : TimelineEvent) (o : once) : M bool :=
  recorded ← query (event_recorded e o);
  if recorded : bool then mret false
  else
    state ← query (event_state (e_taskId e));
    _ ← execute (insert_event e state);
    mret true.

Definition optional (k : string) (v : option json) : object := match v with Some v => [(k, v)] | None => [] end.
Definition number (n : Z) : json := JNum (inject_Z n).
Definition reason_code (r : ReplacementSkipReason) : string :=
  match r with
  | r_disabled => "disabled" | cap_reached => "cap_reached" | budget_exhausted => "budget_exhausted" | r_user_cancelled => "user_cancelled"
  | issue_closed => "issue_closed" | watchdog_stop => "watchdog_stop" | cost_cap_stop => "cost_cap_stop" | goal_task => "goal_task"
  | unsupported_task => "unsupported_task" | replacement_not_started => "replacement_not_started"
  end.

Definition skipped_event (task : ReplaceableTask) (notice : FailureNoticeRecord) (reason : ReplacementSkipReason) : TimelineEvent :=
  Event (t_taskId task) "replacement.skipped" ("Replacement skipped: " ++ describeReplacementSkip reason)
    ([("reason", JStr (reason_code reason)); ("cause", JStr (cause_text (n_cause notice))); ("noticeId", JStr (n_id notice))]
     ++ optional "maxReplacements" (number <$> n_maxReplacements notice)
     ++ optional "failure" (JStr <$> truthy_string (n_failure notice))
     ++ match truthy_string (n_replacementTaskId notice) with
        | Some b => ("replacementTaskId", JStr b) :: optional "attemptNumber" (number <$> n_attemptNumber notice)
        | None => []
        end)%list (n_recordedAt notice).

Definition attempt_json (a : LineageAttempt) : json :=
  JObj [("taskId", JStr (l_taskId a)); ("attemptNumber", number (l_attemptNumber a)); ("state", match l_state a with Some s => JStr s | None => JNull end)]%string.
Definition exhausted_event (task : ReplaceableTask) (notice : FailureNoticeRecord) (reason : ReplacementSkipReason) (lineage : list LineageAttempt) : TimelineEvent :=
  Event (t_taskId task) "replacement.exhausted" ("All " ++ show (Z.of_nat (length lineage)) ++ " attempts failed")
    ([("reason", JStr (reason_code reason)); ("cause", JStr (cause_text (n_cause notice))); ("noticeId", JStr (n_id notice))]
     ++ optional "maxReplacements" (number <$> n_maxReplacements notice)
     ++ [("attempts", JArr (attempt_json <$> lineage))])%list (n_recordedAt notice).

(** The events of a skipped decision; whether the final comment is still owed. *)
Definition announce_skip (task : ReplaceableTask) (notice : FailureNoticeRecord) (reason : ReplacementSkipReason) (known : option (list LineageAttempt)) : M bool :=
  _ ← appendEvent (skipped_event task notice reason) (once_for (n_id notice));
  if n_exhausted notice then
    loaded ← match known with Some l => mret l | None => load_lineage (lineageRootTaskId task) end;
    let lineage := lineageOrSelf task loaded in
    _ ← appendEvent (exhausted_event task notice reason lineage) (once_for (n_id notice));
    settled ← deliverExhaustedComment task notice (Z.of_nat (length lineage)) (formatAttempts lineage);
    mret (negb settled)
  else mret false.

(** Publishes the held-back failure alert; whether the follow-up may go on. *)
Definition publish_failure (task : ReplaceableTask) (notice : FailureNoticeRecord) : M bool :=
  if n_publish notice && (negb (is_null (n_reason notice)) || bool_decide (latestState task = Some "failed"%string)) then
    published ← publishTaskUpdate (Published (t_taskId task) "failed" (n_reason notice) None);
    mret (match published with None => true | Some b => b end)
  else mret true.

Definition deliverFailureNotice (task : ReplaceableTask) (notice : FailureNoticeRecord) (known : option (list LineageAttempt)) : M unit :=
  commentPending ← match n_reason notice with Some reason => announce_skip task notice reason known | None => mret false end;
  published ← publish_failure task notice;
  if negb published then mret tt
  else if commentPending : bool then
    (if n_publish notice then execute (updateFailureNotice (t_taskId task) (n_id notice) (patch_publish false)) else mret tt)
  else execute (clearFailureNotice (t_taskId task) (n_id notice)).

Definition releaseSkipped (task : ReplaceableTask) (state : ReplacementState) (f : NoticeFields) (lineage : option (list LineageAttempt)) : M unit :=
  notice ← ask (newNotice task f);
  _ ← execute (recordSkipped (t_taskId task) state notice);
  deliverFailureNotice task notice lineage.

Definition failure_text (error : option string) : option string := take 500 <$> truthy_string error.

Definition recordSkip (reason : ReplacementSkipReason) (task : ReplaceableTask) (evaluated : list LineageAttempt) (maxReplacements : Z) (request : ReplacementRequest) : M ReplacementOutcome :=
  let lineage := lineageOrSelf task evaluated in
  let is_exhausted := bool_decide (reason ∈ EXHAUSTING_REASONS) in
  _ ← releaseSkipped task (if is_exhausted then exhausted else skipped)
        (Fields (k_cause request) (Some reason) is_exhausted (Some maxReplacements) (failure_text (k_error request)) None None) (Some lineage);
  mret (o_skipped reason is_exhausted lineage).

(** ** Delivery of a claimed replacement *)

Definition dispatched_event (task : ReplaceableTask) (cause : ReplacementCause) (d : ReplacementDispatchRecord) (timestamp : string) : TimelineEvent :=
  Event (t_taskId task) "replacement.dispatched" ("Replacement attempt " ++ show (d_attemptNumber d) ++ " dispatched")
    ([("cause", JStr (cause_text cause)); ("replacementTaskId", JStr (d_replacementTaskId d)); ("attemptNumber", number (d_attemptNumber d));
      ("maxReplacements", number (d_maxReplacements d))]
     ++ optional "branch" (JStr <$> truthy_string (branchName task))
     ++ optional "remainingBudgetUsd" (JNum <$> d_remainingBudgetUsd d)
     ++ optional "failure" (JStr <$> truthy_string (d_failure d)))%list timestamp.

Definition confirmDispatched (task : ReplaceableTask) (cause : ReplacementCause) (d : ReplacementDispatchRecord) (timestamp : string) (announceState : option string) : M bool :=
  _ ← appendEvent (dispatched_event task cause d timestamp) once_ever;
  announced ← match truthy_string announceState with
              | None => mret true
              | Some state =>
                  answer ← publishTaskUpdate (Published (d_replacementTaskId d) state None (Some (t_taskId task)));
                  mret (match answer with None => true | Some b => b end)
              end;
  if negb announced then mret false
  else _ ← execute (setState (t_taskId task) (Some dispatched)); mret true.

Definition releaseNotStarted (task : ReplaceableTask) (cause : ReplacementCause) (d : ReplacementDispatchRecord) : M unit :=
  releaseSkipped task skipped
    (Fields cause (Some replacement_not_started) false None None (Some (d_replacementTaskId d)) (Some (d_attemptNumber d))) None.

Definition announce_state (state : option string) : option string :=
  match state with Some s => if bool_decide (s ∈ TERMINAL_STATES) then None else Some s | None => None end.

(** Redelivers, or resolves, a claim an interrupted dispatch left pending. *)
Definition resumeClaimed (originalTaskId : string) (cause : ReplacementCause) (d : ReplacementDispatchRecord) : M bool :=
  task ← load_task originalTaskId;
  replacement ← load_task (d_replacementTaskId d);
  match task, replacement with
  | Some task, Some replacement =>
      if negb (bool_decide (replacedByTaskId task = Some (d_replacementTaskId d))) then mret false
      else
        let confirm := timestamp ← ask (fun e => toISOString (v_now e));
                       confirmDispatched task cause d timestamp (announce_state (latestState replacement)) in
        if bool_decide (latestState replacement = Some "pending"%string) then
          queued ← catch (_ ← enqueue_job (d_jobId d); mret true) (fun _ => mret false);
          if queued : bool then confirm else mret false
        else
          run ← query (hasRunTransition (t_taskId replacement));
          if run : bool then confirm
          else _ ← releaseNotStarted task cause d; mret true
  | _, _ => mret false
  end.

Definition awaitingDelivery (taskId : string) : M bool :=
  replacement ← load_task taskId;
  match replacement ≫= replacesTaskId with
  | None => mret false
  | Some originalId =>
      original ← load_task originalId;
      mret match original with
           | None => false
           | Some o =>
               bool_decide (replacedByTaskId o = Some taskId) && bool_decide (replacementState o = Some pending)
               && bool_decide (d_replacementTaskId <$> (replacementRequest o ≫= q_dispatch) = Some taskId)
           end
  end.

(** ** Dispatch *)

Definition text_at (k : string) (o : object) : string := default ""%string (text_value (field k o)).
Definition without (k : string) (o : object) : object := filter (fun f : string * json => f.1 <> k) o.
(** [[...new Set(ids)]] *)
Definition unique (ids : list string) : list string :=
  foldl (fun acc id => if bool_decide (id ∈ acc) then acc else acc ++ [id]) [] ids.

Definition replacement_task_id (replay : object) (correlationId : string) : string :=
  buildIssueTaskId (Parts (text_at "repoOwner" replay) (text_at "repoName" replay) (default 0 (as_integer (field "number" replay)))
                      (text_at "agentAlias" replay) (text_at "modelName" replay) correlationId).
Definition replacement_job_id (replay : object) (taskId : string) : string :=
  ("issue-" ++ text_at "repoOwner" replay ++ "-" ++ text_at "repoName" replay ++ "-" ++ show (default 0%Z (as_integer (field "number" replay)))
   ++ "-replacement-" ++ shortHash taskId)%string.

Definition replacement_job_data (task : ReplaceableTask) (lineage : list LineageAttempt) (attempt : Z) (cause : ReplacementCause)
    (replay : object) (cap : option Q) (correlationId : string) : object :=
  spread replay
    ([("correlationId", JStr correlationId); ("isChildJob", JBool true); ("replacesTaskId", JStr (t_taskId task)); ("attemptNumber", number attempt);
      ("lineageRootTaskId", JStr (lineageRootTaskId task)); ("replacementCause", JStr (cause_text cause))]
     ++ optional "replacementBranch" (JStr <$> truthy_string (branchName task))
     ++ optional "maxCostUsd" (JNum <$> cap)
     ++ [("costBudgetTaskIds", JArr (JStr <$> unique ((l_taskId <$> lineage) ++ [t_taskId task])))])%list%string.

Definition replacement_input (task : ReplaceableTask) (lineage : list LineageAttempt) (attempt maxReplacements : Z) (budget : option Q)
    (request : ReplacementRequest) (correlationId timestamp : string) : CreateReplacementInput :=
  let stored := default [] (replayData task) in
  let cap := lineageCostCap stored in
  let replay := without "lineageCostCapUsd" stored in
  let id := replacement_task_id replay correlationId in
  let jobData := replacement_job_data task lineage attempt (k_cause request) replay cap correlationId in
  Input task id (replacement_job_id replay id) correlationId attempt (k_cause request) jobData
    (spread jobData (optional "lineageCostCapUsd" (JNum <$> cap))) timestamp maxReplacements budget (failure_text (k_error request)).

Definition dispatch (task : ReplaceableTask) (lineage : list LineageAttempt) (attempt maxReplacements : Z) (budget : option Q) (request : ReplacementRequest) : M ReplacementOutcome :=
  correlationId ← ask v_randomId;
  timestamp ← ask (fun e => toISOString (v_now e));
  let input := replacement_input task lineage attempt maxReplacements budget request correlationId timestamp in
  claimed ← statement (createReplacement input);
  match claimed with
  | Throw e => throw e
  | Ok false => mret o_none
  | Ok true =>
      let d := input_dispatch input in
      let owed := o_delivery_pending (d_replacementTaskId d) attempt in
      queued ← catch (_ ← enqueue_job (d_jobId d); mret true) (fun _ => mret false);
      if negb queued then mret owed
      else
        confirmed ← confirmDispatched task (k_cause request) d timestamp (Some "pending"%string);
        if negb confirmed then mret owed
        else mret (o_dispatched (d_replacementTaskId d) attempt
                     (lineage ++ [Attempt (d_replacementTaskId d) attempt (Some (k_cause request)) (Some "pending"%string) 0]))
  end.

(** ** Entry points *)

Definition withdraw (taskId : string) (request : ReplacementRequestRecord) : M bool :=
  notice ← ask (fun e => Notice (v_randomId e) (default infra_lost (q_cause request)) None false None None None None true (toISOString (v_now e)) None false);
  withdrawn ← statement (withdrawRequest taskId request notice);
  if negb withdrawn then mret false
  else
    task ← load_task taskId;
    _ ← match task with Some task => deliverFailureNotice task notice None | None => mret tt end;
    mret true.

Definition withdrawUnbound (task : ReplaceableTask) (finalized : string) : M bool :=
  match (if bool_decide (replacementState task = Some pending) then replacementRequest task else None) with
  | Some request =>
      if negb (is_null (q_dispatch request)) || negb (bool_decide (q_finalizedBy request = Some finalized)) then mret false
      else withdraw (t_taskId task) request
  | None => mret false
  end.

(** Whether the decision is bound to a failure that the task's latest transition is not. *)
Definition unbound (request : ReplacementRequest) : M bool :=
  match truthy_string (k_finalizedBy request) with
  | None => mret false
  | Some finalized =>
      task ← load_task (k_taskId request);
      match task with
      | Some task =>
          if is_null (replacedByTaskId task) && negb (bool_decide (latestFinalizedBy task = Some finalized)) then
            _ ← withdrawUnbound task finalized; mret true
          else mret false
      | None => mret false
      end
  end.

Definition complete (request : ReplacementRequest) : M ReplacementOutcome :=
  withdrawn ← unbound request;
  if withdrawn : bool then mret o_none
  else
    evaluation ← evaluate request;
    match evaluation with
    | eligible task lineage attempt maxReplacements budget => dispatch task lineage attempt maxReplacements budget request
    | nothing => mret o_none
    | ineligible reason task lineage maxReplacements => recordSkip reason task lineage maxReplacements request
    end.

(** The evaluation, and the pending decision it recorded. *)
Definition prepare (request : ReplacementRequest) : M (ReplacementEvaluation * option ReplacementRequestRecord) :=
  evaluation ← evaluate request;
  match evaluation with
  | nothing => mret (nothing, None)
  | _ =>
      now ← ask v_now;
      let record := Request (Some (k_cause request)) (truthy_string (k_terminalReason request)) (Some (toISOString now))
                      (truthy_string (k_finalizedBy request)) None None in
      marked ← statement (markRequested (k_taskId request) record);
      mret (evaluation, if marked : bool then Some record else None)
  end.

Definition is_terminal (state : option string) : bool := match state with Some s => bool_decide (s ∈ TERMINAL_STATES) | None => false end.

(** One entry of recovery's worklist: what it adds to the counts of resumed and cleared. *)
Definition resume_entry (entry : PendingReplacementRequest) : M (nat * nat) :=
  let request := pr_request entry in
  let finalized := truthy_string (q_finalizedBy request) in
  let cause := default infra_lost (q_cause request) in
  match pr_replacedByTaskId entry, q_dispatch request with
  | Some _, Some d => resumed ← resumeClaimed (pr_taskId entry) cause d; mret (if resumed : bool then (1, 0) else (0, 0))%nat
  | _, _ =>
      if match finalized with Some f => is_terminal (pr_latestState entry) && negb (bool_decide (pr_latestFinalizedBy entry = Some f)) | None => false end
      then cleared ← withdraw (pr_taskId entry) request; mret (if cleared : bool then (0, 1) else (0, 0))%nat
      else if bool_decide (pr_latestState entry = Some "failed"%string) then
        _ ← complete (Asked (pr_taskId entry) cause (q_terminalReason request) None finalized);
        mret (1, 0)%nat
      else if is_terminal (pr_latestState entry) then
        _ ← execute (setState (pr_taskId entry) None);
        mret (0, 1)%nat
      else mret (0, 0)%nat
  end.

Definition resume_notice (entry : string * FailureNoticeRecord) : M nat :=
  task ← load_task entry.1;
  match task with None => mret 0%nat | Some task => _ ← deliverFailureNotice task entry.2 None; mret 1%nat end.

Definition resumePending (limit : option nat) : M (nat * nat) :=
  cutoff ← ask (fun e => toISOString (v_now e - PENDING_REPLACEMENT_RECOVERY_MS));
  pending ← query (listPendingRequests cutoff (default 20%nat limit));
  counts ← each resume_entry pending;
  notices ← query (listFailureNotices cutoff (default 20%nat limit));
  delivered ← each resume_notice notices;
  mret (sum_list (fst <$> counts) + sum_list delivered, sum_list (snd <$> counts))%nat.

Definition lineage_of_task (taskId : string) : M (list LineageAttempt) :=
  task ← load_task taskId;
  match task with Some task => load_lineage (lineageRootTaskId task) | None => mret [] end.

Definition recordReplayableIssueTask (taskId : string) (data : object) : M unit :=
  _ ← execute (record_replay taskId data);
  match truthy_string (text_value (field "replacesTaskId" data)) with
  | Some replaces => execute (stamp_replacement taskId replaces data)
  | None => mret tt
  end.

End Service.
