(* ===== verification/Lineage.v ===== *)
(** * Lineages of replacement attempts

    What src/taskReplacement promises about the columns replaces_task_id,
    replaced_by_task_id, attempt_number, lineage_root_task_id and replacement_cause,
    independently of how it computes them: a forest of tasks that grows by new tasks and by
    claims. The invariants of such forests bound every lineage. *)

From S2P Require Import Prelude Replacement.

Open Scope Z_scope.
Open Scope list_scope.

Record Link := MkLink {
  parent : option string;
  child : option string;
  attempt : Z;
  root : string;
  cause : option ReplacementCause;
}.
Abbreviation forest := (gmap string Link).

(** The most replacements of one cause any lineage ever gets. *)
Definition limit (c : ReplacementCause) : Z :=
  match c with infra_lost => MAX_INFRA_LOST_REPLACEMENTS | provider_transient => MAX_PROVIDER_REPLACEMENTS_LIMIT end.

Definition members (r : string) (F : forest) : forest := filter (fun p => root p.2 = r) F.
Definition cause_count (r : string) (c : ReplacementCause) (F : forest) : Z :=
  Z.of_nat (size (filter (fun p => cause p.2 = Some c) (members r F))).

Definition new_task (id : string) : Link := MkLink None None 1 id None.
Definition replaced (b : string) (l : Link) : Link := MkLink (parent l) (Some b) (attempt l) (root l) (cause l).
Definition replacement (a : string) (l : Link) (c : ReplacementCause) : Link := MkLink (Some a) None (attempt l + 1) (root l) (Some c).
Definition claim (a b : string) (l : Link) (c : ReplacementCause) (F : forest) : forest :=
  <[b := replacement a l c]> (<[a := replaced b l]> F).

Inductive forest_step (F : forest) : forest -> Prop :=
  | step_same : forest_step F F
  | step_create id : F !! id = None -> id <> ""%string -> forest_step F (<[id := new_task id]> F)
  | step_claim a b l c :
      F !! a = Some l -> child l = None -> F !! b = None -> b <> ""%string -> cause_count (root l) c F < limit c ->
      forest_step F (claim a b l c F).

Record well_linked (F : forest) : Prop := {
  wl_named : F !! ""%string = None;
  wl_child a la b : F !! a = Some la -> child la = Some b ->
    exists lb, F !! b = Some lb /\ parent lb = Some a /\ attempt lb = attempt la + 1 /\ root lb = root la;
  wl_parent b lb a : F !! b = Some lb -> parent lb = Some a -> is_Some (cause lb) /\ exists la, F !! a = Some la /\ child la = Some b;
  wl_first a la : F !! a = Some la -> parent la = None -> attempt la = 1 /\ root la = a /\ cause la = None;
  wl_positive a la : F !! a = Some la -> 1 <= attempt la;
  wl_count r c : cause_count r c F <= limit c;
}.

(** ** Steps *)

Lemma forest_step_keeps F F' a la : forest_step F F' -> F !! a = Some la ->
  exists la', F' !! a = Some la' /\ attempt la' = attempt la /\ root la' = root la /\ parent la' = parent la /\ cause la' = cause la
    /\ (forall b, child la = Some b -> child la' = Some b).
Proof.
  intros [|id Hid _|x b l c Hx Hc Hb _ _] Ha; [by exists la| |]; unfold claim.
  - exists la. rewrite lookup_insert_ne by congruence. done.
  - rewrite lookup_insert_ne by congruence. destruct (decide (x = a)) as [->|Hne]; [|exists la; by rewrite lookup_insert_ne].
    rewrite lookup_insert_eq. exists (replaced b l). simplify_eq. split_and!; try done. intros b' Hb'. congruence.
Qed.

(** ** Counting the members of a lineage *)

Lemma count_insert_other r c F id l : F !! id = None -> root l <> r \/ cause l <> Some c -> cause_count r c (<[id := l]> F) = cause_count r c F.
Proof.
  intros Hid Hl. unfold cause_count, members. destruct (decide (root l = r)) as [Hr|Hr].
  - rewrite map_filter_insert_True by done. rewrite map_filter_insert_not'; [done|simpl; destruct Hl; done|].
    intros y Hy. by apply map_lookup_filter_Some in Hy as [Hy _]; simplify_eq.
  - rewrite map_filter_insert_not'; [done|done|]. intros y Hy. congruence.
Qed.

Lemma count_insert_same r c F id l : F !! id = None -> root l = r -> cause l = Some c -> cause_count r c (<[id := l]> F) = cause_count r c F + 1.
Proof.
  intros Hid Hr Hc. unfold cause_count, members. rewrite !map_filter_insert_True by done. rewrite map_size_insert_None; [lia|].
  rewrite map_lookup_filter, map_lookup_filter, Hid. done.
Qed.

Lemma count_update r c F a l l' : F !! a = Some l -> root l' = root l -> cause l' = cause l -> cause_count r c (<[a := l']> F) = cause_count r c F.
Proof.
  intros Ha Hr Hc. rewrite <- (insert_delete_id F a l) at 2 by done. rewrite <- (insert_delete_eq F a l').
  assert (Hd : delete a F !! a = None) by apply lookup_delete_eq.
  destruct (decide (root l = r /\ cause l = Some c)) as [[H1 H2]|Hn].
  - rewrite !count_insert_same by (done || congruence). done.
  - assert (Hl : root l <> r \/ cause l <> Some c) by (destruct (decide (root l = r)); tauto).
    rewrite !count_insert_other; [done|done|done|done|]. by rewrite Hr, Hc.
Qed.

Lemma count_claim r c F a b l c' : F !! a = Some l -> F !! b = None ->
  cause_count r c (claim a b l c' F) = cause_count r c F + (if decide (root l = r /\ c' = c) then 1 else 0).
Proof.
  intros Ha Hb. unfold claim. assert (Hb' : <[a := replaced b l]> F !! b = None) by (rewrite lookup_insert_ne; [done|congruence]).
  destruct (decide _) as [[Hr Hc]|Hn].
  - rewrite count_insert_same; [|done|done|simpl; by rewrite Hc]. by rewrite (count_update _ _ _ _ l).
  - rewrite count_insert_other; [|done|simpl; destruct (decide (root l = r)); [right; intros [= ->]; tauto|by left]].
    rewrite (count_update _ _ _ _ l); [lia|done..].
Qed.

(** ** Well-linked forests *)

Section WellLinked.
Variable F : forest.
Hypothesis W : well_linked F.

Lemma parent_link x lx p : F !! x = Some lx -> parent lx = Some p ->
  exists lp, F !! p = Some lp /\ child lp = Some x /\ attempt lx = attempt lp + 1 /\ root lx = root lp.
Proof.
  intros Hx Hp. destruct (wl_parent F W _ _ _ Hx Hp) as (_ & lp & Hlp & Hc).
  destruct (wl_child F W _ _ _ Hlp Hc) as (lx' & Hx' & _ & Ha & Hr). simplify_eq. by exists lp.
Qed.

(** Two attempts of a lineage differ in their numbers. *)
Lemma attempt_injective x lx y ly :
  F !! x = Some lx -> F !! y = Some ly -> root lx = root ly -> attempt lx = attempt ly -> x = y.
Proof.
  remember (Z.to_nat (attempt lx)) as n eqn:Hn. revert x lx y ly Hn. induction n as [n IH] using lt_wf_ind.
  intros x lx y ly Hn Hx Hy Hr Ha. pose proof (wl_positive F W _ _ Hx). pose proof (wl_positive F W _ _ Hy).
  destruct (parent lx) as [p|] eqn:Hpx, (parent ly) as [q|] eqn:Hpy.
  - destruct (parent_link _ _ _ Hx Hpx) as (lp & Hlp & Hcp & Hap & Hrp). destruct (parent_link _ _ _ Hy Hpy) as (lq & Hlq & Hcq & Haq & Hrq).
    pose proof (wl_positive F W _ _ Hlp). assert (p = q) as -> by (eapply (IH (Z.to_nat (attempt lp))); [lia|done|exact Hlp|exact Hlq|congruence|lia]).
    congruence.
  - destruct (parent_link _ _ _ Hx Hpx) as (lp & Hlp & _ & Hap & _). pose proof (wl_positive F W _ _ Hlp).
    destruct (wl_first F W _ _ Hy Hpy) as (? & _). lia.
  - destruct (parent_link _ _ _ Hy Hpy) as (lq & Hlq & _ & Haq & _). pose proof (wl_positive F W _ _ Hlq).
    destruct (wl_first F W _ _ Hx Hpx) as (? & _). lia.
  - destruct (wl_first F W _ _ Hx Hpx) as (_ & <- & _). by destruct (wl_first F W _ _ Hy Hpy) as (_ & <- & _).
Qed.

(** Attempts are numbered without gaps. *)
Lemma attempt_below x lx n : F !! x = Some lx -> 1 <= n <= attempt lx -> exists y ly, F !! y = Some ly /\ root ly = root lx /\ attempt ly = n.
Proof.
  remember (Z.to_nat (attempt lx - n)) as k eqn:Hk. revert x lx Hk. induction k as [|k IH]; intros x lx Hk Hx Hn.
  - exists x, lx. split_and!; [done|done|lia].
  - destruct (parent lx) as [p|] eqn:Hp; [|destruct (wl_first F W _ _ Hx Hp) as (? & _); lia].
    destruct (parent_link _ _ _ Hx Hp) as (lp & Hlp & _ & Ha & Hr). rewrite Hr. apply (IH p); [lia|done|lia].
Qed.

(** An attempt without a replacement is the last of its lineage. *)
Lemma unreplaced_last x lx y ly : F !! x = Some lx -> F !! y = Some ly -> root lx = root ly -> child lx = None -> attempt ly <= attempt lx.
Proof.
  intros Hx Hy Hr Hc. destruct (decide (attempt ly <= attempt lx)) as [|Hlt]; [done|]. exfalso.
  pose proof (wl_positive F W _ _ Hx).
  destruct (attempt_below y ly (attempt lx + 1) Hy) as (z & lz & Hz & Hrz & Haz); [lia|].
  destruct (parent lz) as [p|] eqn:Hp; [|destruct (wl_first F W _ _ Hz Hp) as (? & _); lia].
  destruct (parent_link _ _ _ Hz Hp) as (lp & Hlp & Hcp & Hap & Hrp).
  assert (p = x) as -> by (eapply attempt_injective; [exact Hlp|exact Hx|congruence|lia]). congruence.
Qed.

Lemma unreplaced_unique x lx y ly : F !! x = Some lx -> F !! y = Some ly -> root lx = root ly -> child lx = None -> child ly = None -> x = y.
Proof.
  intros Hx Hy Hr Hcx Hcy. pose proof (unreplaced_last _ _ _ _ Hx Hy Hr Hcx). pose proof (unreplaced_last _ _ _ _ Hy Hx (eq_sym Hr) Hcy).
  eapply attempt_injective; [exact Hx|exact Hy|done|lia].
Qed.

(** The root of a lineage is its first attempt. *)
Lemma root_member x lx : F !! x = Some lx -> exists lr, F !! root lx = Some lr /\ root lr = root lx.
Proof.
  intros Hx. pose proof (wl_positive F W _ _ Hx). destruct (attempt_below x lx 1 Hx) as (y & ly & Hy & Hr & Ha); [lia|].
  assert (Hp : parent ly = None).
  { destruct (parent ly) as [p|] eqn:Hp; [|done]. destruct (parent_link _ _ _ Hy Hp) as (lp & Hlp & _ & Hap & _).
    pose proof (wl_positive F W _ _ Hlp). lia. }
  destruct (wl_first F W _ _ Hy Hp) as (_ & Hry & _). rewrite <- Hr, Hry. by exists ly.
Qed.

Lemma members_size r : Z.of_nat (size (members r F)) <= 1 + cause_count r infra_lost F + cause_count r provider_transient F.
Proof.
  unfold cause_count. set (m := members r F).
  pose (f := fun c : option ReplacementCause => filter (fun p : string * Link => cause p.2 = c) m).
  assert (Hf : forall c id l, f c !! id = Some l <-> m !! id = Some l /\ cause l = c) by (intros; apply map_lookup_filter_Some).
  assert (Hdisj : forall c c', c <> c' -> f c ##ₘ f c').
  { intros c c' Hc. apply map_disjoint_spec. intros id x y Hx Hy. apply Hf in Hx as [Hx Hcx], Hy as [Hy Hcy]. congruence. }
  assert (Hsplit : m = f None ∪ (f (Some infra_lost) ∪ f (Some provider_transient))).
  { apply map_eq. intros id. apply option_eq. intros l.
    rewrite !lookup_union_Some, !Hf by (try apply map_disjoint_union_r_2; apply Hdisj; done). destruct (cause l) as [[]|]; naive_solver. }
  assert (Hnone : (size (f None) <= 1)%nat).
  { transitivity (size ({[r]} : gset string)); [|by rewrite size_singleton]. rewrite <- size_dom.
    apply subseteq_size. intros id [l Hl]%elem_of_dom. apply elem_of_singleton. apply Hf in Hl as [Hl Hc].
    apply map_lookup_filter_Some in Hl as [Hl Hr]. destruct (parent l) as [p|] eqn:Hp; [|by destruct (wl_first F W _ _ Hl Hp) as (_ & <- & _)].
    destruct (wl_parent F W _ _ _ Hl Hp) as [[c' Hc'] _]. simpl in *. congruence. }
  rewrite Hsplit at 1. rewrite !map_size_disj_union by (try apply map_disjoint_union_r_2; apply Hdisj; done). unfold f in *. lia.
Qed.

(** The attempts up to [x], as distinct members. *)
Lemma attempts_distinct n x lx : F !! x = Some lx -> attempt lx = Z.of_nat n ->
  exists l, length l = n /\ NoDup l /\ Forall (fun id => exists li, F !! id = Some li /\ root li = root lx /\ attempt li <= attempt lx) l.
Proof.
  revert x lx. induction n as [|n IH]; intros x lx Hx Ha; [pose proof (wl_positive F W _ _ Hx); lia|].
  destruct (parent lx) as [p|] eqn:Hp.
  - destruct (parent_link _ _ _ Hx Hp) as (lp & Hlp & _ & Hap & Hrp). destruct (IH p lp Hlp) as (l & Hlen & Hnd & Hl); [lia|].
    exists (x :: l). split_and!; [simpl; by rewrite Hlen| |].
    + constructor; [|done]. intros Hin. apply (proj1 (Forall_forall _ _) Hl) in Hin as (li & Hli & _ & Hle). simplify_eq. lia.
    + constructor; [exists lx; split_and!; [done|done|lia]|]. eapply Forall_impl; [exact Hl|]. intros id (li & Hli & Hri & Hle).
      exists li. split_and!; [done|congruence|lia].
  - destruct (wl_first F W _ _ Hx Hp) as (Hone & _). exists [x]. split_and!; [simpl; lia|apply NoDup_singleton|].
    constructor; [exists lx; split_and!; [done|done|lia]|constructor].
Qed.

(** No lineage is longer than its first attempt and its two caps allow. *)
Lemma attempt_bounded x lx : F !! x = Some lx -> attempt lx <= 1 + limit infra_lost + limit provider_transient.
Proof.
  intros Hx. pose proof (wl_positive F W _ _ Hx). destruct (attempts_distinct (Z.to_nat (attempt lx)) x lx Hx) as (l & Hlen & Hnd & Hl); [lia|].
  assert (Hsub : list_to_set l ⊆ dom (members (root lx) F)).
  { intros id Hid. apply elem_of_list_to_set in Hid. apply (proj1 (Forall_forall _ _) Hl) in Hid as (li & Hli & Hr & _).
    apply elem_of_dom. exists li. by apply map_lookup_filter_Some. }
  apply subseteq_size in Hsub. rewrite size_list_to_set, size_dom in Hsub by done.
  pose proof (members_size (root lx)). pose proof (wl_count F W (root lx) infra_lost). pose proof (wl_count F W (root lx) provider_transient). lia.
Qed.
End WellLinked.

(** ** Every step keeps a forest well linked *)

Lemma well_linked_create F id : well_linked F -> F !! id = None -> id <> ""%string -> well_linked (<[id := new_task id]> F).
Proof.
  intros W Hid Hne. split.
  - rewrite lookup_insert_ne by done. apply (wl_named F W).
  - intros a la b Ha Hc. apply lookup_insert_Some in Ha as [[<- <-]|[Hna Ha]]; [done|].
    destruct (wl_child F W _ _ _ Ha Hc) as (lb & Hb & ?). exists lb. rewrite lookup_insert_ne by congruence. done.
  - intros b lb a Hb Hp. apply lookup_insert_Some in Hb as [[<- <-]|[Hnb Hb]]; [done|].
    destruct (wl_parent F W _ _ _ Hb Hp) as (? & la & Ha & ?). split; [done|]. exists la. rewrite lookup_insert_ne by congruence. done.
  - intros a la Ha Hp. apply lookup_insert_Some in Ha as [[<- <-]|[Hna Ha]]; [done|]. by apply (wl_first F W).
  - intros a la Ha. apply lookup_insert_Some in Ha as [[<- <-]|[Hna Ha]]; [done|]. by apply (wl_positive F W a).
  - intros r c. rewrite count_insert_other by (done || by right). apply (wl_count F W).
Qed.

Lemma well_linked_claim F a b l c :
  well_linked F -> F !! a = Some l -> child l = None -> F !! b = None -> b <> ""%string -> cause_count (root l) c F < limit c ->
  well_linked (claim a b l c F).
Proof.
  intros W Ha Hc Hb Hne Hcount. assert (Hab : a <> b) by congruence. unfold claim. split.
  - rewrite !lookup_insert_ne by (congruence || (intros ->; pose proof (wl_named F W); congruence)). apply (wl_named F W).
  - intros x lx y Hx Hxc. apply lookup_insert_Some in Hx as [[<- <-]|[Hnx Hx]]; [done|].
    apply lookup_insert_Some in Hx as [[<- <-]|[Hnx' Hx]].
    + injection Hxc as <-. exists (replacement a l c). by rewrite lookup_insert_eq.
    + destruct (wl_child F W _ _ _ Hx Hxc) as (ly & Hy & Hp & Hrest).
      rewrite lookup_insert_ne by congruence. destruct (decide (y = a)) as [->|Hya]; [|exists ly; by rewrite lookup_insert_ne].
      rewrite lookup_insert_eq. exists (replaced b l). simplify_eq. done.
  - intros y ly x Hy Hp. apply lookup_insert_Some in Hy as [[<- <-]|[Hny Hy]].
    + injection Hp as <-. split; [by eexists|]. rewrite lookup_insert_ne, lookup_insert_eq by done. by eexists.
    + assert (Hold : exists l0, F !! y = Some l0 /\ parent l0 = Some x /\ cause l0 = cause ly).
      { apply lookup_insert_Some in Hy as [[<- <-]|[_ Hy]]; [by exists l|by exists ly]. }
      destruct Hold as (l0 & Hy0 & Hp0 & Hcause). destruct (wl_parent F W _ _ _ Hy0 Hp0) as (Hcs & lx & Hx & Hxc).
      split; [by rewrite <- Hcause|]. exists lx. assert (a <> x) by (intros ->; congruence). assert (b <> x) by (intros ->; congruence). by rewrite !lookup_insert_ne.
  - intros x lx Hx Hp. apply lookup_insert_Some in Hx as [[<- <-]|[Hnx Hx]]; [done|].
    apply lookup_insert_Some in Hx as [[<- <-]|[_ Hx]]; [exact (wl_first F W _ _ Ha Hp)|exact (wl_first F W _ _ Hx Hp)].
  - intros x lx Hx. apply lookup_insert_Some in Hx as [[<- <-]|[Hnx Hx]]; [simpl; pose proof (wl_positive F W _ _ Ha); lia|].
    apply lookup_insert_Some in Hx as [[<- <-]|[_ Hx]]; [exact (wl_positive F W _ _ Ha)|exact (wl_positive F W _ _ Hx)].
  - intros r c'. fold (claim a b l c F). rewrite count_claim by done. destruct (decide _) as [[<- <-]|]; [lia|].
    pose proof (wl_count F W r c'). lia.
Qed.

Lemma well_linked_step F F' : well_linked F -> forest_step F F' -> well_linked F'.
Proof. intros W [|id ? ?|a b l c]; [done|by apply well_linked_create|by apply well_linked_claim]. Qed.
