(* ===== verification/ReplaceFacts.v ===== *)
(** * Task replacement: refinement of the lineage forest

    Every statement the replacement service executes, under any interference of the same
    kind, is a step of the forest of Lineage.v: attempts are only ever added by claims
    within the caps. A decision is released as dispatched only after its delivery. *)

From S2P Require Import Prelude JsString Json Interleave TaskIds Replacement ReplaceService Lineage.

Open Scope Z_scope.
Open Scope list_scope.

(** ** The forest a database holds *)

Definition link_of (id : string) (r : AttemptRow) : Link :=
  MkLink (replaces_task_id r) (replaced_by_task_id r) (attempt_of r) (root_of id r) (replacement_cause r).
Definition links (d : database) : forest := map_imap (fun id r => Some (link_of id r)) (task_rows d).

Lemma links_lookup d id : links d !! id = link_of id <$> task_rows d !! id.
Proof. unfold links. rewrite map_lookup_imap. by destruct (task_rows d !! id). Qed.

Lemma links_lookup_Some d id l : links d !! id = Some l <-> exists r, task_rows d !! id = Some r /\ link_of id r = l.
Proof. rewrite links_lookup, fmap_Some. naive_solver. Qed.

Lemma links_same d d' :
  (forall id, link_of id <$> task_rows d !! id = link_of id <$> task_rows d' !! id) -> links d = links d'.
Proof. intros H. apply map_eq. intros id. by rewrite !links_lookup. Qed.

(** ** What the service's steps do *)

Definition dispatch_of (r : AttemptRow) : option ReplacementDispatchRecord := replacement_request r ≫= q_dispatch.

(** The decision of the task [id] was claimed by the replacement that [d] describes. *)
Definition claimed_as (id : string) (d : ReplacementDispatchRecord) (s : site) : Prop :=
  exists r, task_rows (db s) !! id = Some r /\ replaced_by_task_id r = Some (d_replacementTaskId d) /\ dispatch_of r = Some d.
(** The queue accepted its job, or the replacement has run. *)
Definition delivery_known (d : ReplacementDispatchRecord) (s : site) : Prop :=
  d_jobId d ∈ delivered s \/ hasRunTransition (d_replacementTaskId d) (db s) = true.

Record permitted (s s' : site) : Prop := {
  pm_forest : forest_step (links (db s)) (links (db s'));
  pm_delivered : delivered s ⊆ delivered s';
  pm_transitions : transitions (db s) `prefix_of` transitions (db s');
  pm_claimed id d : claimed_as id d s -> claimed_as id d s';
  pm_released id r r' :
    task_rows (db s) !! id = Some r -> task_rows (db s') !! id = Some r' ->
    replacement_state r <> Some dispatched -> replacement_state r' = Some dispatched ->
    exists d, claimed_as id d s /\ delivery_known d s;
}.

Definition linked (s : site) : Prop := well_linked (links (db s)).
(** Other processes: any steps that are permitted, whatever else they change. *)
Definition respectful (g : site -> site) : Prop := forall s, linked s -> permitted s (g s).

Lemma permitted_linked s s' : linked s -> permitted s s' -> linked s'.
Proof. intros W H. eapply well_linked_step; [exact W|apply (pm_forest _ _ H)]. Qed.

(** ** Programs *)

Definition stable (P : site -> Prop) : Prop := forall s s', linked s -> permitted s s' -> P s -> P s'.
Definition anything : site -> Prop := fun _ => True.

(** [m] takes permitted steps only from [P] to [Q], and keeps every stable assertion. *)
Definition holds (P : site -> Prop) {A} (m : M A) (Q : A -> site -> Prop) : Prop :=
  forall R, stable R -> etriple respectful permitted (fun s => linked s /\ P s /\ R s) m (fun a s => linked s /\ Q a s /\ R s) (fun _ s => linked s /\ R s).

Lemma holds_ret P {A} (a : A) (Q : A -> site -> Prop) : (forall s, P s -> Q a s) -> holds P (mret a) Q.
Proof. intros H R _. apply etriple_ret. naive_solver. Qed.
Lemma holds_throw P {A} e (Q : A -> site -> Prop) : holds P (throw e) Q.
Proof. intros R _. apply etriple_throw. naive_solver. Qed.
Lemma holds_bind P {A B} (m : M A) (f : A -> M B) Q R : holds P m Q -> (forall a, holds (Q a) (f a) R) -> holds P (m ≫= f) R.
Proof. intros Hm Hf F HF. eapply etriple_bind; [by apply Hm|]. intros a. by apply Hf. Qed.
Lemma holds_catch P {A} (m : M A) h Q : holds P m Q -> (forall e, holds anything (h e) Q) -> holds P (catch m h) Q.
Proof.
  intros Hm Hh F HF. eapply etriple_catch; [by apply Hm|]. intros e.
  eapply etriple_weaken; [|intros a s H; exact H|intros e' s H; exact H|by apply (Hh e F)].
  intros s [W HR]. split_and!; done.
Qed.
Lemma holds_call (P : site -> Prop) {A} (f : site -> A * site) (Q : A -> site -> Prop) :
  stable P -> (forall s, linked s -> P s -> permitted s (snd (f s)) /\ Q (fst (f s)) (snd (f s))) -> holds P (call f) Q.
Proof.
  intros Hst Hf F HF. apply etriple_call.
  - intros g s Hg (W & HP & HR). split; [eapply permitted_linked; eauto|]. split; [eapply Hst|eapply HF]; eauto.
  - intros s (W & HP & HR). destruct (Hf s W HP) as [HI HQ]. split; [done|]. split_and!; [by eapply permitted_linked|done|eapply HF; eauto].
Qed.
Lemma holds_weaken (P' P : site -> Prop) {A} (m : M A) (Q' Q : A -> site -> Prop) :
  (forall s, P s -> P' s) -> (forall a s, Q' a s -> Q a s) -> holds P' m Q' -> holds P m Q.
Proof.
  intros HP HQ H F HF. eapply etriple_weaken; [| |intros e s Hs; exact Hs|by apply (H F)]; [intros s (? & ? & ?)|intros a s (? & ? & ?)]; auto.
Qed.
Lemma holds_frame P R {A} (m : M A) Q : stable R -> holds P m Q -> holds (fun s => P s /\ R s) m (fun a s => Q a s /\ R s).
Proof.
  intros HR H F HF. eapply etriple_weaken; [| | |apply (H (fun s => R s /\ F s))]; [intros s (? & [? ?] & ?)|intros a s (? & ? & ? & ?)|intros e s (? & ? & ?)|]; auto.
  intros s s' W Hp [? ?]. split; [eapply HR|eapply HF]; eauto.
Qed.
Lemma holds_pure (phi : Prop) P {A} (m : M A) Q : (phi -> holds P m Q) -> holds (fun s => P s /\ phi) m Q.
Proof. intros H F HF w Hg (W & [HP Hphi] & HR). by apply (H Hphi F HF). Qed.

Lemma stable_anything : stable anything.
Proof. done. Qed.
Lemma stable_and P Q : stable P -> stable Q -> stable (fun s => P s /\ Q s).
Proof. intros HP HQ s s' W H [? ?]. split; [eapply HP|eapply HQ]; eauto. Qed.

Lemma stable_pure phi : stable (fun _ => phi).
Proof. by intros s s' _ _. Qed.

Lemma permitted_refl s : permitted s s.
Proof. split; [constructor|done|done|done|]. intros id r r' H1 H2. simplify_eq. done. Qed.

(** ** Statements *)

Lemma permitted_read {A} (f : site -> A) s : permitted s (snd (f s, s)).
Proof. apply permitted_refl. Qed.

Lemma set_db_id s : set_db (db s) s = s.
Proof. by destruct s. Qed.

Lemma links_update_row id f d : (forall r, task_rows d !! id = Some r -> link_of id (f r) = link_of id r) -> links (update_row id f d) = links d.
Proof.
  intros Hf. apply links_same. intros id'. simpl. destruct (decide (id = id')) as [<-|]; [|by rewrite lookup_alter_ne].
  rewrite lookup_alter_eq. destruct (task_rows d !! id) as [r|] eqn:E; simpl; [by rewrite Hf|done].
Qed.

(** What a permitted update of the row [r] of task [id] may do besides. *)
Record row_ok (id : string) (s : site) (r r' : AttemptRow) : Prop := {
  ok_link : link_of id r' = link_of id r;
  ok_dispatch b d : replaced_by_task_id r = Some b -> dispatch_of r = Some d -> dispatch_of r' = Some d;
  ok_released : replacement_state r <> Some dispatched -> replacement_state r' = Some dispatched -> exists d, claimed_as id d s /\ delivery_known d s;
}.

Lemma permitted_update id f s :
  (forall r, task_rows (db s) !! id = Some r -> row_ok id s r (f r)) -> permitted s (set_db (update_row id f (db s)) s).
Proof.
  intros Hf. split; simpl.
  - rewrite links_update_row; [constructor|]. intros r Hr. apply (ok_link _ _ _ _ (Hf r Hr)).
  - done.
  - done.
  - intros id' d (r & Hr & Hb & Hd). unfold claimed_as. simpl. destruct (decide (id = id')) as [<-|]; [|exists r; by rewrite lookup_alter_ne].
    exists (f r). rewrite lookup_alter_eq, Hr. destruct (Hf r Hr) as [Hl Hk _]. injection Hl as _ Hb' _ _ _.
    split_and!; [done|congruence|by eapply Hk].
  - intros id' r r' Hr Hr' Hn Hd. destruct (decide (id = id')) as [<-|]; [|rewrite lookup_alter_ne in Hr' by done; congruence].
    rewrite lookup_alter_eq, Hr in Hr'. injection Hr' as <-. by apply (ok_released _ _ _ _ (Hf r Hr)).
Qed.

Lemma permitted_update_where id g f s :
  (forall r, task_rows (db s) !! id = Some r -> g r = true -> row_ok id s r (f r)) ->
  permitted s (set_db (snd (update_where id g f (db s))) s).
Proof.
  intros Hf. unfold update_where. destruct (task_rows (db s) !! id) as [r|] eqn:E; [|simpl; rewrite set_db_id; apply permitted_refl].
  destruct (g r) eqn:Eg; [|simpl; rewrite set_db_id; apply permitted_refl]. apply permitted_update. intros r' Hr'. simplify_eq. auto.
Qed.

Lemma permitted_transition t s : permitted s (set_db (insert_transition t (db s)) s).
Proof.
  split; simpl; [constructor|done|by apply prefix_app_r|done|]. intros id r r' H1 H2. simpl in *. simplify_eq. done.
Qed.

(** A step that leaves the database alone. *)
Lemma permitted_outside s s' : db s' = db s -> delivered s ⊆ delivered s' -> permitted s s'.
Proof.
  intros Hdb Hd. split; rewrite ?Hdb; [constructor|done|done| |].
  - intros id d. unfold claimed_as. by rewrite Hdb.
  - intros id r r' H1 H2. simplify_eq. done.
Qed.

(** ** The claim *)

Section Claim.
Variable i : CreateReplacementInput.
Variable r : AttemptRow.
Let a := t_taskId (original i).
Let b := i_replacementTaskId i.
Hypothesis Hn : replaced_by_task_id r = None.
Hypothesis Ha : attempt_of r + 1 = i_attemptNumber i.
Hypothesis Hpos : 1 <= attempt_of r < MAX_SAFE_INTEGER.
Hypothesis Hroot : root_of a r = lineageRootTaskId (original i).
Hypothesis Hne : lineageRootTaskId (original i) <> ""%string.

Lemma truthy_nonempty t : t <> ""%string -> truthy_string (Some t) = Some t.
Proof. by destruct t. Qed.

Lemma link_replacement_row : link_of b (replacement_row i) = replacement a (link_of a r) (i_cause i).
Proof.
  unfold link_of, replacement. simpl. f_equal.
  - unfold attempt_of at 1. simpl. rewrite (proj2 (Z.ltb_lt 0 (i_attemptNumber i))), (proj2 (Z.leb_le (i_attemptNumber i) _)) by lia. by rewrite Ha.
  - unfold root_of at 1. simpl lineage_root_task_id. by rewrite truthy_nonempty, Hroot.
Qed.

(** The claimed row, as the transaction leaves it. *)
Definition claimed_row : AttemptRow :=
  let r1 := with_request (Some pending) (Some (claimed_request i)) (with_replaced_by (Some b) r) in
  let r2 := if bool_decide (a_job_id r1 = Some (i_jobId i)) && negb (bool_decide (a = b)) then with_run None (replay_job_data r1) (branch_name r1) r1 else r1 in
  match lineage_root_task_id r2 with
  | None => with_lineage (replaces_task_id r2) (attempt_number r2) (Some (lineageRootTaskId (original i))) (replacement_cause r2) r2
  | Some _ => r2
  end.

Lemma link_claimed_row : link_of a claimed_row = replaced b (link_of a r).
Proof.
  unfold claimed_row, link_of, replaced. simpl. destruct (lineage_root_task_id r) as [x|] eqn:E; destruct (_ && _); simpl; rewrite ?E; try done;
    (f_equal; unfold root_of at 1; simpl lineage_root_task_id; rewrite truthy_nonempty by done; by rewrite Hroot).
Qed.

Lemma claimed_row_request : dispatch_of claimed_row = Some (input_dispatch i) /\ replacement_state claimed_row = Some pending /\ replaced_by_task_id claimed_row = Some b.
Proof. unfold claimed_row, dispatch_of. simpl. destruct (lineage_root_task_id r) as [x|] eqn:E; destruct (_ && _); simpl; rewrite ?E; done. Qed.
End Claim.

Definition freed_row (i : CreateReplacementInput) (r : AttemptRow) : AttemptRow :=
  if bool_decide (a_job_id r = Some (i_jobId i)) then with_run None (replay_job_data r) (branch_name r) r else r.

Lemma createReplacement_rows i d r id :
  task_rows d !! t_taskId (original i) = Some r -> replaced_by_task_id r = None -> task_rows d !! i_replacementTaskId i = None ->
  fst (createReplacement i d) = Ok true
  /\ task_rows (snd (createReplacement i d)) !! id =
     if decide (id = i_replacementTaskId i) then Some (replacement_row i)
     else if decide (id = t_taskId (original i)) then Some (claimed_row i r)
     else freed_row i <$> task_rows d !! id.
Proof.
  intros Hr Hn Hb. unfold createReplacement. rewrite Hr, Hn, Hb. split; [done|]. simpl.
  assert (Hab : t_taskId (original i) <> i_replacementTaskId i) by congruence. unfold stamp_root, claim_slot, free_job_id.
  destruct (decide (id = i_replacementTaskId i)) as [->|Hib]; [by rewrite lookup_alter_ne, lookup_insert_eq|].
  destruct (decide (id = t_taskId (original i))) as [->|Hia].
  - rewrite lookup_alter_eq, lookup_insert_ne, map_lookup_imap, lookup_alter_eq, Hr by done. simpl. done.
  - rewrite lookup_alter_ne, lookup_insert_ne, map_lookup_imap, lookup_alter_ne by done. destruct (task_rows d !! id) as [x|]; [|done]. simpl.
    unfold freed_row. rewrite (bool_decide_eq_false_2 (id = i_replacementTaskId i)) by done. simpl. by rewrite andb_true_r.
Qed.

Lemma createReplacement_refused i d : fst (createReplacement i d) <> Ok true -> snd (createReplacement i d) = d.
Proof. unfold createReplacement. repeat case_match; done. Qed.
Lemma createReplacement_claims i d : fst (createReplacement i d) = Ok true ->
  exists r, task_rows d !! t_taskId (original i) = Some r /\ replaced_by_task_id r = None /\ task_rows d !! i_replacementTaskId i = None.
Proof.
  unfold createReplacement. destruct (task_rows d !! t_taskId _) as [r|]; [|done]. destruct (replaced_by_task_id r) eqn:E; simpl; [done|].
  case_bool_decide as Hb; [done|]. intros _. exists r. split_and!; [done|done|]. by apply eq_None_not_Some.
Qed.

(** The forest's conditions for the claim [i]. *)
Record claimable (i : CreateReplacementInput) (F : forest) : Prop := {
  cl_link l : F !! t_taskId (original i) = Some l -> child l = None ->
    attempt l + 1 = i_attemptNumber i /\ root l = lineageRootTaskId (original i) /\ cause_count (root l) (i_cause i) F < limit (i_cause i);
  cl_named : i_replacementTaskId i <> ""%string;
}.

Lemma links_claim i d r :
  well_linked (links d) -> claimable i (links d) ->
  task_rows d !! t_taskId (original i) = Some r -> replaced_by_task_id r = None -> task_rows d !! i_replacementTaskId i = None ->
  links (snd (createReplacement i d)) = claim (t_taskId (original i)) (i_replacementTaskId i) (link_of (t_taskId (original i)) r) (i_cause i) (links d)
  /\ cause_count (root_of (t_taskId (original i)) r) (i_cause i) (links d) < limit (i_cause i).
Proof.
  intros W C Hr Hn Hb. assert (Hl : links d !! t_taskId (original i) = Some (link_of (t_taskId (original i)) r)) by (by rewrite links_lookup, Hr).
  destruct (cl_link _ _ C _ Hl Hn) as (Ha & Hroot & Hcount). simpl in *. split; [|done].
  pose proof (attempt_bounded _ W _ _ Hl) as Hbound. pose proof (wl_positive _ W _ _ Hl) as Hpos. simpl in Hbound, Hpos.
  assert (Hrange : 1 <= attempt_of r < MAX_SAFE_INTEGER) by (unfold MAX_INFRA_LOST_REPLACEMENTS, MAX_PROVIDER_REPLACEMENTS_LIMIT in Hbound; unfold MAX_SAFE_INTEGER; lia).
  assert (Hne : lineageRootTaskId (original i) <> ""%string).
  { rewrite <- Hroot. destruct (root_member _ W _ _ Hl) as (lr & Hlr & _). intros E. simpl in Hlr. rewrite E, (wl_named _ W) in Hlr. done. }
  apply map_eq. intros id. rewrite links_lookup. destruct (createReplacement_rows i d r id Hr Hn Hb) as [_ ->].
  assert (Hab : t_taskId (original i) <> i_replacementTaskId i) by congruence. unfold claim.
  destruct (decide (id = i_replacementTaskId i)) as [->|Hib]; [rewrite lookup_insert_eq; simpl; by rewrite (link_replacement_row i r)|].
  rewrite lookup_insert_ne by done. destruct (decide (id = t_taskId (original i))) as [->|Hia].
  - rewrite lookup_insert_eq. simpl. by rewrite (link_claimed_row i r).
  - rewrite lookup_insert_ne, links_lookup by done. destruct (task_rows d !! id) as [x|]; [|done]. simpl. f_equal.
    unfold freed_row. by case_bool_decide.
Qed.

Lemma permitted_claim i s :
  linked s -> claimable i (links (db s)) ->
  permitted s (set_db (snd (createReplacement i (db s))) s)
  /\ (fst (createReplacement i (db s)) = Ok true -> claimed_as (t_taskId (original i)) (input_dispatch i) (set_db (snd (createReplacement i (db s))) s)).
Proof.
  intros W C. destruct (decide (fst (createReplacement i (db s)) = Ok true)) as [Hok|Hno].
  2: { rewrite createReplacement_refused, set_db_id by done. split; [apply permitted_refl|done]. }
  destruct (createReplacement_claims i (db s) Hok) as (r & Hr & Hn & Hb).
  destruct (links_claim i (db s) r W C Hr Hn Hb) as [Hlinks Hcount].
  pose proof (fun id => proj2 (createReplacement_rows i (db s) r id Hr Hn Hb)) as Hrows.
  assert (Hab : t_taskId (original i) <> i_replacementTaskId i) by congruence.
  destruct (claimed_row_request i r) as (Hd & Hst & Hby).
  split; [|intros _; exists (claimed_row i r); simpl; rewrite Hrows, decide_False, decide_True by done; done].
  split; simpl.
  - rewrite Hlinks. apply step_claim; [by rewrite links_lookup, Hr|done|by rewrite links_lookup, Hb|apply (cl_named _ _ C)|done].
  - done.
  - unfold createReplacement. rewrite Hr, Hn, Hb. simpl. by apply prefix_app_r.
  - intros id d (x & Hx & Hxb & Hxd). unfold claimed_as. simpl. rewrite Hrows. rewrite decide_False by congruence.
    rewrite decide_False by (intros ->; congruence). exists (freed_row i x). rewrite Hx.
    split; [done|]. unfold freed_row. case_bool_decide; exact (conj Hxb Hxd).
  - intros id x x' Hx Hx' Hs Hs'. rewrite Hrows in Hx'. exfalso. destruct (decide (id = i_replacementTaskId i)) as [->|]; [congruence|].
    destruct (decide (id = t_taskId (original i))); [injection Hx' as <-; congruence|].
    rewrite Hx in Hx'. injection Hx' as <-. unfold freed_row in Hs'. case_bool_decide; done.
Qed.
