(* ===== verification/ReplaceRefine.v ===== *)
(** * Task replacement: the service refines the lineage forest

    What the service read of a lineage is still the lineage as long as the task has no
    replacement; with that, every entry point takes only permitted steps, in every
    interleaving with other processes that do the same. *)

From S2P Require Import Prelude JsString Json Interleave TaskIds Replacement ReplaceService Lineage ReplaceFacts.

Open Scope Z_scope.
Open Scope list_scope.

(** ** A loaded lineage *)

Definition summary (x : LineageAttempt) : string * (Z * option ReplacementCause) := (l_taskId x, (l_attemptNumber x, l_cause x)).
Definition link_summary (p : string * Link) : string * (Z * option ReplacementCause) := (p.1, (attempt p.2, cause p.2)).

(** [L] lists the attempts of [m]. *)
Definition lists (L : list LineageAttempt) (m : forest) : Prop := summary <$> L ≡ₚ link_summary <$> map_to_list m.

Lemma lists_count L r c F : lists L (members r F) -> causeCount L c = cause_count r c F.
Proof.
  intros H. unfold causeCount, cause_count. f_equal.
  set (P := fun q : string * (Z * option ReplacementCause) => q.2.2 = Some c).
  transitivity (length (filter P (summary <$> L))); [symmetry; by apply length_filter_fmap|].
  rewrite H, <- length_map_to_list, map_to_list_filter. by apply length_filter_fmap.
Qed.

Lemma lists_next L x lx F : well_linked F -> F !! x = Some lx -> child lx = None -> lists L (members (root lx) F) ->
  foldr Z.max (attempt lx) (l_attemptNumber <$> L) + 1 = attempt lx + 1.
Proof.
  intros W Hx Hc H. f_equal. assert (Hall : Forall (fun n => n <= attempt lx) (l_attemptNumber <$> L)).
  { apply Forall_fmap, Forall_forall. intros y Hy. apply (list_elem_of_fmap_2 summary) in Hy. rewrite H in Hy.
    apply list_elem_of_fmap in Hy as ([id ly] & Heq & Hm). apply elem_of_map_to_list, map_lookup_filter_Some in Hm as [Hm Hr].
    injection Heq as _ Hat _. simpl in Hr.
    change (l_attemptNumber y <= attempt lx). rewrite Hat. by apply (unreplaced_last F W x lx id ly). }
  induction Hall as [|n l Hn _ IH]; simpl; [done|]. by rewrite IH, Z.max_r.
Qed.

Lemma members_insert_other r id l F : (forall l0, F !! id = Some l0 -> root l0 <> r) -> root l <> r -> members r (<[id := l]> F) = members r F.
Proof. intros H Hl. apply map_filter_insert_not'; done. Qed.

(** The attempts of the lineage of [task], as they still are unless it was replaced. *)
Definition lineage_snapshot (task : ReplaceableTask) (L : list LineageAttempt) (s : site) : Prop :=
  exists l, links (db s) !! t_taskId task = Some l /\ attempt l = attemptNumber task /\ root l = lineageRootTaskId task
    /\ (child l = None -> lists L (members (root l) (links (db s)))).
Definition task_read (task : ReplaceableTask) (s : site) : Prop :=
  exists l, links (db s) !! t_taskId task = Some l /\ attempt l = attemptNumber task /\ root l = lineageRootTaskId task.

Lemma stable_task_read task : stable (task_read task).
Proof.
  intros s s' W H (l & Hl & Ha & Hr). destruct (forest_step_keeps _ _ _ _ (pm_forest _ _ H) Hl) as (l' & Hl' & Ha' & Hr' & _).
  exists l'. split_and!; [done|congruence..].
Qed.

(** A step that leaves a task without replacement leaves its whole lineage as it was. *)
Lemma members_same F F' x l l' : well_linked F -> forest_step F F' -> F !! x = Some l -> F' !! x = Some l' -> child l' = None ->
  members (root l) F' = members (root l) F.
Proof.
  intros W Hs Hx Hx' Hc'. destruct (forest_step_keeps _ _ _ _ Hs Hx) as (l1 & Hl1 & _ & _ & _ & _ & Hchild).
  assert (Hc : child l = None) by (destruct (child l) as [b|] eqn:E; [|done]; specialize (Hchild b eq_refl); congruence).
  destruct Hs as [|id Hid _|a b la c Ha Hca Hb _ _]; [done| |].
  - apply members_insert_other; [congruence|]. simpl. destruct (root_member F W _ _ Hx) as (lr & Hlr & _). congruence.
  - assert (Hne : root la <> root l).
    { intros Hr. assert (a = x) as -> by (eapply (unreplaced_unique F W); eauto). simplify_eq. unfold claim in Hx'.
      rewrite lookup_insert_ne, lookup_insert_eq in Hx' by congruence. by injection Hx' as <-. }
    unfold claim. rewrite !members_insert_other; [done|congruence|done| |done]. intros l0. rewrite lookup_insert_ne by congruence. congruence.
Qed.

Lemma stable_snapshot task L : stable (lineage_snapshot task L).
Proof.
  intros s s' W H (l & Hl & Ha & Hr & HL). destruct (forest_step_keeps _ _ _ _ (pm_forest _ _ H) Hl) as (l' & Hl' & Ha' & Hr' & _ & _ & Hchild).
  exists l'. split_and!; [done|congruence|congruence|]. intros Hc'. rewrite Hr'.
  rewrite (members_same _ _ _ _ _ W (pm_forest _ _ H) Hl Hl' Hc'). apply HL. destruct (child l) as [b|]; [|done].
  specialize (Hchild b eq_refl). congruence.
Qed.

(** The rows [loadLineage] selects are the members of the lineage. *)
Lemma in_lineage_spec F d x l id r : F = links d -> well_linked F -> F !! x = Some l -> task_rows d !! id = Some r ->
  in_lineage (root l) id r = true <-> root_of id r = root l.
Proof.
  intros HF W Hx Hid. assert (Hne : root l <> ""%string).
  { destruct (root_member F W _ _ Hx) as (lr & Hlr & _). intros E. rewrite E, (wl_named F W) in Hlr. done. }
  unfold in_lineage. rewrite orb_true_iff, !bool_decide_eq_true. split.
  - intros [->|H]; [|unfold root_of; by rewrite H, truthy_nonempty]. destruct (root_member F W _ _ Hx) as (lr & Hlr & Hroot).
    rewrite HF, links_lookup, Hid in Hlr. injection Hlr as <-. done.
  - unfold root_of. destruct (lineage_root_task_id r) as [[|ch t]|]; simpl; naive_solver congruence.
Qed.

Lemma lineage_rows_list task s cs :
  linked s -> task_read task s -> lists (loadLineage (lineage_rows (lineageRootTaskId task) (db s)) cs) (members (lineageRootTaskId task) (links (db s))).
Proof.
  intros W (l & Hl & _ & <-). unfold lists, loadLineage. rewrite sort_by_perm, <- list_fmap_compose.
  unfold lineage_rows. rewrite <- list_fmap_compose.
  set (P := fun p : string * AttemptRow => in_lineage (root l) p.1 p.2 = true).
  apply NoDup_Permutation.
  - apply (NoDup_fmap_1 fst). rewrite <- list_fmap_compose. change (NoDup (fst <$> filter P (map_to_list (task_rows (db s))))).
    rewrite <- map_to_list_filter. apply NoDup_fst_map_to_list.
  - apply (NoDup_fmap_1 fst). rewrite <- list_fmap_compose. apply NoDup_fst_map_to_list.
  - intros y. rewrite !list_elem_of_fmap. setoid_rewrite list_elem_of_filter. split.
    + intros ([id r] & -> & HP & Hm). apply elem_of_map_to_list in Hm. exists (id, link_of id r). split; [done|].
      apply elem_of_map_to_list, map_lookup_filter_Some. split; [by rewrite links_lookup, Hm|]. by eapply in_lineage_spec.
    + intros ([id ly] & -> & Hm). apply elem_of_map_to_list, map_lookup_filter_Some in Hm as [Hm Hr]. apply links_lookup_Some in Hm as (r & Hid & <-).
      exists (id, r). split_and!; [done| |by apply elem_of_map_to_list]. by apply (in_lineage_spec _ (db s) _ l id r eq_refl W Hl Hid).
Qed.

(** ** Permitted statements *)

Lemma row_ok_same id s r r' :
  link_of id r' = link_of id r -> replacement_state r' = replacement_state r -> dispatch_of r' = dispatch_of r -> row_ok id s r r'.
Proof. intros Hl Hs Hd. split; [done|congruence|congruence]. Qed.

(** A row whose decision may still change: it has no replacement, and is not released. *)
Lemma row_ok_open id s r st q :
  replaced_by_task_id r = None -> st <> Some dispatched -> row_ok id s r (with_request st q r).
Proof. intros Hn Hst. split; [done|congruence|done]. Qed.

Lemma permitted_updateFailureNotice id n p s : permitted s (set_db (updateFailureNotice id n p (db s)) s).
Proof.
  apply permitted_update_where. intros r Hr _. apply row_ok_same; [done..|]. unfold dispatch_of. simpl.
  by destruct (replacement_request r).
Qed.

Lemma permitted_clearFailureNotice id n s : permitted s (set_db (clearFailureNotice id n (db s)) s).
Proof.
  apply permitted_update_where. intros r Hr _. apply row_ok_same; [done..|]. unfold dispatch_of. simpl.
  destruct (replacement_request r) as [q|]; [|done]. simpl. unfold non_empty. case_bool_decide as E; [|done].
  apply (f_equal q_dispatch) in E. done.
Qed.

Lemma permitted_recordSkipped id st n s : st <> dispatched -> permitted s (set_db (recordSkipped id st n (db s)) s).
Proof.
  intros Hst. apply permitted_update. intros r Hr. split; [done| |simpl; congruence].
  unfold dispatch_of. simpl. by destruct (replacement_request r).
Qed.

Lemma permitted_setState_none id s : permitted s (set_db (setState id None (db s)) s).
Proof. apply permitted_update. intros r Hr. split; [done|done|done]. Qed.

Lemma permitted_setState_dispatched id d s : claimed_as id d s -> delivery_known d s -> permitted s (set_db (setState id (Some dispatched) (db s)) s).
Proof. intros Hc Hd. apply permitted_update. intros r Hr. split; [done|done|]. intros _ _. by exists d. Qed.

Lemma permitted_markRequested id q s : permitted s (set_db (snd (markRequested id q (db s))) s).
Proof.
  apply permitted_update_where. intros r Hr Hg. apply row_ok_open; [by destruct (replaced_by_task_id r)|done].
Qed.

Lemma permitted_withdrawRequest id q n s : permitted s (set_db (snd (withdrawRequest id q n (db s))) s).
Proof.
  apply permitted_update_where. intros r Hr Hg. apply row_ok_open; [|done]. apply andb_prop in Hg as [_ Hg].
  by destruct (replaced_by_task_id r).
Qed.

Lemma permitted_event e st s : permitted s (set_db (insert_event e st (db s)) s).
Proof. apply permitted_transition. Qed.

Lemma permitted_run id g f s :
  (forall r, exists j p b, f r = with_run j p b r) -> permitted s (set_db (snd (update_where id g f (db s))) s).
Proof. intros Hf. apply permitted_update_where. intros r Hr _. destruct (Hf r) as (j & p & b & ->). by apply row_ok_same. Qed.

(** ** Programs of permitted steps *)

Definition keeps {A} (m : M A) : Prop := holds anything m (fun _ => anything).

Lemma keeps_ret {A} (a : A) : keeps (mret a).
Proof. by apply holds_ret. Qed.
Lemma keeps_throw {A} e : keeps (throw e : M A).
Proof. apply holds_throw. Qed.
Lemma keeps_bind {A B} (m : M A) (f : A -> M B) : keeps m -> (forall a, keeps (f a)) -> keeps (m ≫= f).
Proof. intros Hm Hf. by eapply holds_bind. Qed.
Lemma keeps_catch {A} (m : M A) h : keeps m -> (forall e, keeps (h e)) -> keeps (catch m h).
Proof. intros Hm Hh. by apply holds_catch. Qed.
Lemma keeps_call {A} (f : site -> A * site) : (forall s, linked s -> permitted s (snd (f s))) -> keeps (call f).
Proof. intros Hf. apply holds_call; [done|]. intros s W _. by split; [apply Hf|]. Qed.
Lemma keeps_holds {A} (m : M A) P : keeps m -> stable P -> holds P m (fun _ => P).
Proof. intros Hm HP. eapply holds_weaken; [| |by apply (holds_frame anything P m (fun _ => anything))]; [done|by intros a s []]. Qed.
Lemma keeps_from {A} (m : M A) P : keeps m -> holds P m (fun _ => anything).
Proof. intros Hm. by eapply holds_weaken; [| |exact Hm]. Qed.

Lemma keeps_query {A} (f : database -> A) : keeps (query f).
Proof. apply keeps_call. intros s _. apply permitted_refl. Qed.
Lemma keeps_ask {A} (f : SiteAnswers -> A) : keeps (ask f).
Proof. apply keeps_call. intros s _. apply permitted_refl. Qed.
Lemma keeps_execute f : (forall s, permitted s (set_db (f (db s)) s)) -> keeps (execute f).
Proof. intros H. apply keeps_call. auto. Qed.
Lemma keeps_statement {A} (f : database -> A * database) : (forall s, permitted s (set_db (snd (f (db s))) s)) -> keeps (statement f).
Proof. intros H. apply keeps_call. intros s _. specialize (H s). by destruct (f (db s)). Qed.

Create HintDb keeps.
#[export] Hint Resolve keeps_ret keeps_throw keeps_query keeps_ask : keeps.
#[export] Hint Resolve permitted_updateFailureNotice permitted_clearFailureNotice permitted_setState_none permitted_markRequested
  permitted_withdrawRequest permitted_event permitted_refl : keeps.

(** Walks through a program: binds, branches, statements and the programs it calls. *)
Ltac keeps :=
  repeat first
    [ solve [auto with keeps]
    | apply keeps_bind; [|intros ?]
    | apply keeps_catch; [|intros ?]
    | apply keeps_execute; intros ?
    | apply keeps_statement; intros ?
    | progress cbv beta iota zeta
    | case_match ].

Lemma keeps_publish u : keeps (publishTaskUpdate u).
Proof.
  unfold publishTaskUpdate. apply keeps_bind; [|intros [[[]|]|]; keeps].
  apply keeps_call. intros s _. simpl. destruct (v_publish (env s)) as [[[]|]|]; try apply permitted_refl. by apply permitted_outside.
Qed.
Lemma keeps_post repo issue body : keeps (postIssueComment repo issue body).
Proof.
  unfold postIssueComment. apply keeps_bind; [|intros; keeps].
  apply keeps_call. intros s _. simpl. destruct (v_comment (env s)) as [[]|]; try apply permitted_refl; by apply permitted_outside.
Qed.
Lemma keeps_find repo issue marker : keeps (findIssueComment repo issue marker).
Proof. unfold findIssueComment. apply keeps_bind; [|intros [[[]|] ?]; keeps]. apply keeps_call. intros s _. apply permitted_refl. Qed.
Lemma keeps_enqueue job : keeps (enqueue_job job).
Proof.
  unfold enqueue_job. apply keeps_bind; [|intros; keeps]. apply keeps_call. intros s _. simpl.
  destruct (v_enqueue (env s)); try apply permitted_refl; apply permitted_outside; simpl; done || set_solver.
Qed.
#[export] Hint Resolve keeps_publish keeps_post keeps_find keeps_enqueue : keeps.

Section Programs.
Variable toISOString : Z -> string.
Variable shortHash taskUrl : string -> string.

Lemma keeps_load_task id : keeps (load_task id).
Proof. apply keeps_query. Qed.
Lemma keeps_load_lineage r : keeps (load_lineage r).
Proof. unfold load_lineage. keeps. Qed.
Lemma keeps_appendEvent e o : keeps (appendEvent e o).
Proof. unfold appendEvent. keeps. Qed.
Lemma keeps_comment task n c t : keeps (deliverExhaustedComment task n c t).
Proof. unfold deliverExhaustedComment. keeps. Qed.
Lemma keeps_deliver task n l : keeps (deliverFailureNotice taskUrl task n l).
Proof.
  unfold deliverFailureNotice, publish_failure, announce_skip. pose proof keeps_appendEvent. pose proof keeps_comment. pose proof keeps_load_lineage.
  keeps.
Qed.
Lemma keeps_release task st f l : st <> dispatched -> keeps (releaseSkipped toISOString taskUrl task st f l).
Proof.
  intros Hst. unfold releaseSkipped. apply keeps_bind; [keeps|]. intros n. apply keeps_bind; [|intros _; apply keeps_deliver].
  apply keeps_execute. intros s. by apply permitted_recordSkipped.
Qed.
Lemma keeps_recordSkip reason task L n req : keeps (recordSkip toISOString taskUrl reason task L n req).
Proof. unfold recordSkip. apply keeps_bind; [apply keeps_release; by case_bool_decide|intros; keeps]. Qed.
Lemma keeps_withdraw id q : keeps (withdraw toISOString taskUrl id q).
Proof. unfold withdraw. pose proof keeps_load_task. pose proof keeps_deliver. keeps. Qed.
Lemma keeps_unbound req : keeps (unbound toISOString taskUrl req).
Proof. unfold unbound, withdrawUnbound. pose proof keeps_load_task. pose proof keeps_withdraw. keeps. Qed.

(** ** Deciding and claiming *)

Lemma holds_query P {A} (f : database -> A) (Q : A -> site -> Prop) :
  stable P -> (forall s, linked s -> P s -> Q (f (db s)) s) -> holds P (query f) Q.
Proof. intros HP HQ. apply holds_call; [done|]. intros s W Hs. split; [apply permitted_refl|by apply HQ]. Qed.
Lemma holds_ask P {A} (f : SiteAnswers -> A) (Q : A -> site -> Prop) :
  stable P -> (forall s, linked s -> P s -> Q (f (env s)) s) -> holds P (ask f) Q.
Proof. intros HP HQ. apply holds_call; [done|]. intros s W Hs. split; [apply permitted_refl|by apply HQ]. Qed.
Lemma holds_then P {A B} (m : M A) (f : A -> M B) Q : keeps m -> stable P -> (forall a, holds P (f a) Q) -> holds P (m ≫= f) Q.
Proof. intros Hm HP Hf. eapply holds_bind; [by apply keeps_holds|exact Hf]. Qed.

Lemma max_within_limit c e : max_replacements c e <= limit c.
Proof.
  assert (Hp : forall v n, parseMaxProviderReplacements v = Some n -> n <= MAX_PROVIDER_REPLACEMENTS_LIMIT).
  { intros v n. unfold parseMaxProviderReplacements. repeat case_match; intros; simplify_eq; zb; done. }
  assert (Hr : forall v w, resolveMaxProviderReplacements v w <= MAX_PROVIDER_REPLACEMENTS_LIMIT).
  { intros v w. unfold resolveMaxProviderReplacements. destruct (parseMaxProviderReplacements v) eqn:E; [by eapply Hp|].
    destruct (parseMaxProviderReplacements w) eqn:E'; [by eapply Hp|done]. }
  destruct c; simpl; [by case_match|]. unfold loadMaxProviderReplacements. case_match; apply Hr.
Qed.

(** What an evaluation that allows a replacement established. *)
Definition granted (req : ReplacementRequest) (ev : ReplacementEvaluation) (s : site) : Prop :=
  match ev with
  | eligible task L n _ _ => lineage_snapshot task L s /\ (n = next_attempt task L /\ causeCount L (k_cause req) < limit (k_cause req))
  | _ => True
  end.

Lemma load_task_read id : holds anything (load_task id) (fun t s => match t with Some t => task_read t s | None => True end).
Proof.
  apply holds_query; [done|]. intros s W _. unfold loadTask. destruct (task_rows (db s) !! id) as [r|] eqn:E; [|done]. simpl.
  exists (link_of id r). split_and!; [simpl; by rewrite links_lookup, E|done|done].
Qed.

Lemma load_lineage_snapshot task : holds (task_read task) (load_lineage (lineageRootTaskId task)) (fun L s => lineage_snapshot task L s).
Proof.
  unfold load_lineage.
  eapply (holds_bind _ _ _ (fun rows s => exists l, links (db s) !! t_taskId task = Some l /\ attempt l = attemptNumber task /\ root l = lineageRootTaskId task
    /\ (child l = None -> forall cs, lists (loadLineage rows cs) (members (root l) (links (db s)))))).
  - apply holds_query; [apply stable_task_read|]. intros s W Hs. pose proof Hs as (l & Hl & Ha & Hr). exists l. split_and!; [done..|].
    intros _ cs. rewrite Hr. by apply lineage_rows_list.
  - intros rows. apply holds_query; [|intros s W (l & ? & ? & ? & H); exists l; auto].
    intros s s' W Hp (l & Hl & Ha & Hr & H).
    destruct (forest_step_keeps _ _ _ _ (pm_forest _ _ Hp) Hl) as (l' & Hl' & Ha' & Hr' & _ & _ & Hchild).
    exists l'. split_and!; [done|congruence|congruence|]. intros Hc' cs.
    rewrite Hr', (members_same _ _ _ _ _ W (pm_forest _ _ Hp) Hl Hl' Hc'). apply H.
    destruct (child l) as [b|]; [|done]. specialize (Hchild b eq_refl). congruence.
Qed.

Lemma evaluate_grants req : holds anything (evaluate req) (granted req).
Proof.
  unfold evaluate. eapply holds_bind; [apply load_task_read|]. intros [task|]; [|by apply holds_ret].
  case_match; [by apply holds_ret|]. eapply holds_bind; [apply load_lineage_snapshot|]. intros L.
  eapply (holds_bind _ _ _ (fun n s => lineage_snapshot task L s /\ n <= limit (k_cause req))).
  { apply holds_ask; [apply stable_snapshot|]. intros s W Hs. split; [done|apply max_within_limit]. }
  intros n. apply holds_pure. intros Hn. case_match; [by apply holds_ret|]. destruct (n <=? _) eqn:En; [by apply holds_ret|].
  cbv zeta. destruct (match remainingBudget _ _ with Some b => _ | None => false end); [by apply holds_ret|].
  apply holds_then; [|apply stable_snapshot|].
  { unfold closedIssue. keeps. }
  intros closed. destruct closed; [by apply holds_ret|]. apply holds_ret. intros s Hs. split; [done|]. split; [done|]. zb. lia.
Qed.

Lemma keeps_evaluate req : keeps (evaluate req).
Proof. unfold evaluate, closedIssue. pose proof keeps_load_task. pose proof keeps_load_lineage. keeps. Qed.

Lemma buildIssueTaskId_nonempty p : buildIssueTaskId p <> ""%string.
Proof.
  unfold buildIssueTaskId. intros H. apply (f_equal String.length) in H. rewrite <- !length_chars, !chars_app, !length_app in H. simpl in H. lia.
Qed.

Lemma granted_claimable req task L n max budget correlation timestamp s :
  linked s -> granted req (eligible task L n max budget) s ->
  claimable (replacement_input shortHash task L n max budget req correlation timestamp) (links (db s)).
Proof.
  intros W ((l & Hl & Ha & Hr & HL) & -> & Hc). split; [|apply buildIssueTaskId_nonempty]. simpl. intros l' Hl' Hchild. assert (l' = l) as -> by congruence.
  specialize (HL Hchild). split_and!; [|done|].
  - unfold next_attempt. rewrite <- Ha. symmetry. by apply (lists_next L (t_taskId task) l (links (db s))).
  - by rewrite <- (lists_count L).
Qed.

(** ** Delivery *)

Lemma stable_claimed id d : stable (claimed_as id d).
Proof. intros s s' _ H. apply (pm_claimed _ _ H). Qed.

Lemma stable_delivery d : stable (delivery_known d).
Proof.
  intros s s' _ H [Hd|Hr]; [left; by apply (pm_delivered _ _ H)|right]. destruct (pm_transitions _ _ H) as [l Hl].
  unfold hasRunTransition, history_of in *. rewrite Hl, filter_app, existsb_app. by rewrite Hr.
Qed.

Definition confirmable (id : string) (d : ReplacementDispatchRecord) (s : site) : Prop := claimed_as id d s /\ delivery_known d s.
Lemma stable_confirmable id d : stable (confirmable id d).
Proof. apply stable_and; [apply stable_claimed|apply stable_delivery]. Qed.

Lemma confirmDispatched_permitted task c d ts st : holds (confirmable (t_taskId task) d) (confirmDispatched task c d ts st) (fun _ => anything).
Proof.
  unfold confirmDispatched. apply holds_then; [apply keeps_appendEvent|apply stable_confirmable|]. intros _.
  apply holds_then; [keeps|apply stable_confirmable|]. intros announced. case_match; [by apply holds_ret|].
  apply (holds_bind _ _ _ (fun _ => anything)); [|intros _; by apply holds_ret]. apply holds_call; [apply stable_confirmable|].
  intros s W [Hc Hd]. split; [by eapply permitted_setState_dispatched|done].
Qed.

(** Whether the queue confirmed the job. *)
Lemma enqueue_delivers id d : holds (claimed_as id d) (catch (_ ← enqueue_job (d_jobId d); mret true) (fun _ => mret false))
  (fun queued s => if queued : bool then confirmable id d s else True).
Proof.
  apply holds_catch; [|intros e; by apply holds_ret].
  eapply (holds_bind _ _ _ (fun _ => confirmable id d)); [|intros _; by apply holds_ret].
  unfold enqueue_job. eapply (holds_bind _ _ _ (fun a s => claimed_as id d s /\ (a = taken -> delivery_known d s))).
  - apply holds_call; [apply stable_claimed|]. intros s W Hs. simpl.
    assert (Hp : forall s', db s' = db s -> delivered s ⊆ delivered s' -> permitted s s') by (intros; by apply permitted_outside).
    destruct (v_enqueue (env s)) eqn:E; simpl; (split; [apply Hp; simpl; done || set_solver|split; [done|]]); [|done..].
    intros _. left. simpl. set_solver.
  - intros []; [apply holds_ret; intros s [? H]; split; auto|apply holds_throw|apply holds_throw].
Qed.

(** ** Entry points *)

Lemma dispatch_permitted req task L n max budget :
  holds (granted req (eligible task L n max budget)) (dispatch toISOString shortHash task L n max budget req) (fun _ => anything).
Proof.
  assert (Hst : stable (granted req (eligible task L n max budget))).
  { apply stable_and; [apply stable_snapshot|apply stable_pure]. }
  unfold dispatch. apply holds_then; [keeps|done|]. intros correlation. apply holds_then; [keeps|done|]. intros ts. cbv zeta.
  set (i := replacement_input _ _ _ _ _ _ _ _ _).
  eapply (holds_bind _ _ _ (fun claimed s => claimed = Ok true -> claimed_as (t_taskId task) (input_dispatch i) s)).
  - apply holds_call; [done|]. intros s W Hs. destruct (permitted_claim i s W) as [Hp Hc]; [by apply granted_claimable|].
    destruct (createReplacement i (db s)) as [a d] eqn:E. simpl in *. done.
  - intros [[]|e]; [|by apply holds_ret|apply holds_throw].
    apply (holds_weaken (claimed_as (t_taskId task) (input_dispatch i)) _ _ (fun _ => anything) _); [auto|done|].
    eapply holds_bind; [apply enqueue_delivers|]. intros []; [|by apply holds_ret].
    simpl negb. cbv beta iota. eapply holds_bind; [apply confirmDispatched_permitted|]. intros confirmed. case_match; by apply holds_ret.
Qed.

Lemma keeps_complete req : keeps (complete toISOString shortHash taskUrl req).
Proof.
  unfold keeps, complete. apply holds_then; [apply keeps_unbound|done|]. intros []; [by apply holds_ret|].
  eapply holds_bind; [apply evaluate_grants|]. intros [task L n max budget|reason task L max|].
  - apply dispatch_permitted.
  - apply keeps_from, keeps_recordSkip.
  - by apply holds_ret.
Qed.

Lemma keeps_prepare req : keeps (prepare toISOString req).
Proof. unfold prepare. pose proof keeps_evaluate. keeps. Qed.

Lemma resumeClaimed_permitted id c d : holds (claimed_as id d) (resumeClaimed toISOString taskUrl id c d) (fun _ => anything).
Proof.
  pose proof (stable_claimed id d) as Hst. unfold resumeClaimed.
  eapply (holds_bind _ _ _ (fun t s => claimed_as id d s /\ (forall t', t = Some t' -> t_taskId t' = id))).
  { apply holds_query; [done|]. intros s W Hs. split; [done|]. unfold loadTask. intros t' Ht. apply fmap_Some in Ht as (r & _ & ->). done. }
  intros task. apply holds_pure. intros Htask. eapply (holds_bind _ _ _ (fun t s => claimed_as id d s /\ (forall t', t = Some t' -> t_taskId t' = d_replacementTaskId d))).
  { apply holds_query; [done|]. intros s W Hs. split; [done|]. unfold loadTask. intros t' Ht. apply fmap_Some in Ht as (r & _ & ->). done. }
  intros repl. apply holds_pure. intros Hrepl. destruct task as [task|], repl as [repl|]; try by apply holds_ret.
  specialize (Htask _ eq_refl). specialize (Hrepl _ eq_refl). case_match; [by apply holds_ret|]. cbv zeta.
  assert (Hconf : holds (confirmable id d) (timestamp ← ask (fun e => toISOString (v_now e)); confirmDispatched task c d timestamp (announce_state (latestState repl))) (fun _ => anything)).
  { apply holds_then; [keeps|apply stable_confirmable|]. intros ts. rewrite <- Htask. apply confirmDispatched_permitted. }
  case_match.
  - eapply holds_bind; [apply enqueue_delivers|]. intros []; [done|by apply holds_ret].
  - eapply (holds_bind _ _ _ (fun ran s => if ran : bool then confirmable id d s else True)).
    + apply holds_query; [done|]. intros s W Hs. destruct (hasRunTransition _ _) eqn:E; [|done]. split; [done|]. right. by rewrite <- Hrepl.
    + intros []; [done|]. apply keeps_from. unfold releaseNotStarted. apply keeps_bind; [by apply keeps_release|intros _; apply keeps_ret].
Qed.

(** What recovery's worklist says of a claimed decision. *)
Definition entry_ok (e : PendingReplacementRequest) (s : site) : Prop :=
  forall b d, pr_replacedByTaskId e = Some b -> q_dispatch (pr_request e) = Some d -> claimed_as (pr_taskId e) d s.
Lemma stable_entry e : stable (entry_ok e).
Proof. intros s s' W H He b d Hb Hd. apply (pm_claimed _ _ H). by eapply He. Qed.
Lemma stable_entries l : stable (fun s => Forall (fun e => entry_ok e s) l).
Proof. intros s s' W H He. eapply Forall_impl; [exact He|]. intros e. by apply stable_entry. Qed.

Lemma listPendingRequests_ok cutoff limit s : Forall (fun e => entry_ok e s) (listPendingRequests cutoff limit (db s)).
Proof.
  apply Forall_forall. intros e He. unfold listPendingRequests in He. apply list_elem_of_omap in He as ([id r] & Hin & He).
  assert (Hr : task_rows (db s) !! id = Some r).
  { unfold select_rows in Hin. apply elem_of_take in Hin as (k & Hin & _). apply list_elem_of_lookup_2 in Hin. rewrite sort_by_perm in Hin.
    apply list_elem_of_filter in Hin as [_ Hin]. by apply elem_of_map_to_list in Hin. }
  intros b d Hb Hd. unfold pending_entry in He. simpl in He. destruct (replacement_request r) as [q|] eqn:Eq; [|done]. simpl in He.
  destruct (q_requestedAt q) as [t|]; [|done]. simpl in He. destruct (truthy_string (replaced_by_task_id r)) as [b'|] eqn:Eb.
  - destruct (q_dispatch q) as [d'|] eqn:Ed; [|done]. simpl in He. case_match eqn:Eg; [|done]. injection He as <-. simpl in Hd. simplify_eq. zb.
    exists r. split; [done|]. unfold dispatch_of. rewrite Eq. simpl. split; [|congruence]. case_bool_decide; [|done].
    destruct (replaced_by_task_id r) as [[|ch x]|]; simplify_eq; done.
  - case_match; [|done]. by injection He as <-.
Qed.

Lemma resume_entry_permitted e : holds (entry_ok e) (resume_entry toISOString shortHash taskUrl e) (fun _ => anything).
Proof.
  assert (Helse : keeps (if match truthy_string (q_finalizedBy (pr_request e)) with
         | Some f => is_terminal (pr_latestState e) && negb (bool_decide (pr_latestFinalizedBy e = Some f)) | None => false end
      then cleared ← withdraw toISOString taskUrl (pr_taskId e) (pr_request e); mret (if cleared : bool then (0, 1) else (0, 0))%nat
      else if bool_decide (pr_latestState e = Some "failed"%string) then
        _ ← complete toISOString shortHash taskUrl (Asked (pr_taskId e) (default infra_lost (q_cause (pr_request e))) (q_terminalReason (pr_request e)) None (truthy_string (q_finalizedBy (pr_request e))));
        mret (1, 0)%nat
      else if is_terminal (pr_latestState e) then _ ← execute (setState (pr_taskId e) None); mret (0, 1)%nat
      else mret (0, 0)%nat)).
  { pose proof keeps_withdraw. pose proof keeps_complete. keeps. }
  unfold resume_entry. destruct (pr_replacedByTaskId e) as [b|] eqn:Eb; [destruct (q_dispatch (pr_request e)) as [d|] eqn:Ed|]; [|by apply keeps_from..].
  apply (holds_bind _ _ _ (fun _ => anything)); [|intros a; by apply holds_ret].
  eapply holds_weaken; [| |apply resumeClaimed_permitted]; [|done]. intros s Hs. by eapply Hs.
Qed.

Lemma each_permitted {A B} (f : A -> M B) (I : A -> site -> Prop) (l : list A) :
  (forall a, stable (I a)) -> (forall a, holds (I a) (f a) (fun _ => anything)) ->
  holds (fun s => Forall (fun a => I a s) l) (each f l) (fun _ => anything).
Proof.
  intros HI Hf. assert (Hst : forall l, stable (fun s => Forall (fun a => I a s) l)).
  { intros l' s s' W Hp Hl. eapply Forall_impl; [exact Hl|]. intros a. by apply HI. }
  induction l as [|a l IH]; cbn [each]; [by apply holds_ret|].
  apply (holds_weaken (fun s => I a s /\ Forall (fun a => I a s) l) _ _ (fun _ => anything)); [intros s Hs; by inversion Hs|done|].
  eapply holds_bind; [by apply holds_frame|]. intros b. apply (holds_weaken (fun s => Forall (fun a => I a s) l) _ _ (fun _ => anything)); [by intros s []|done|].
  eapply holds_bind; [exact IH|]. intros bs. by apply holds_ret.
Qed.

Lemma keeps_resumePending limit : keeps (resumePending toISOString shortHash taskUrl limit).
Proof.
  unfold resumePending. apply keeps_bind; [keeps|]. intros cutoff.
  eapply (holds_bind _ _ _ (fun l s => Forall (fun e => entry_ok e s) l)).
  { apply holds_query; [done|]. intros s _ _. apply listPendingRequests_ok. }
  intros pending. eapply holds_bind; [apply (each_permitted _ entry_ok); [apply stable_entry|apply resume_entry_permitted]|].
  intros counts. apply keeps_bind; [keeps|]. intros notices. apply keeps_bind; [|intros; keeps].
  eapply holds_weaken; [| |apply (each_permitted _ (fun _ => anything))]; [|done|done|].
  - intros s _. by apply Forall_true.
  - intros [id n]. unfold resume_notice. pose proof keeps_load_task. pose proof keeps_deliver. change (keeps (resume_notice taskUrl (id, n))). unfold resume_notice. keeps.
Qed.

(** The entry points of the service. *)
Inductive entry_point :=
  | run_prepare (req : ReplacementRequest)
  | run_complete (req : ReplacementRequest)
  | run_withdraw (id : string) (request : ReplacementRequestRecord)
  | run_resumePending (limit : option nat)
  | run_awaitingDelivery (id : string)
  | run_lineage (id : string)
  | run_recordLineageCostCap (id : string) (capUsd : option Q)
  | run_recordPushedBranch (id branch : string).
Definition run_entry (p : entry_point) : M unit :=
  match p with
  | run_prepare req => _ ← prepare toISOString req; mret tt
  | run_complete req => _ ← complete toISOString shortHash taskUrl req; mret tt
  | run_withdraw id q => _ ← withdraw toISOString taskUrl id q; mret tt
  | run_resumePending limit => _ ← resumePending toISOString shortHash taskUrl limit; mret tt
  | run_awaitingDelivery id => _ ← awaitingDelivery id; mret tt
  | run_lineage id => _ ← lineage_of_task id; mret tt
  | run_recordLineageCostCap id cap => execute (recordLineageCostCap id cap)
  | run_recordPushedBranch id branch => execute (recordPushedBranch id branch)
  end.

Lemma permitted_recordLineageCostCap id cap s : permitted s (set_db (recordLineageCostCap id cap (db s)) s).
Proof. apply permitted_run. intros r. by eexists _, _, _. Qed.
Lemma permitted_recordPushedBranch id b s : permitted s (set_db (recordPushedBranch id b (db s)) s).
Proof. apply permitted_update. intros r Hr. by apply row_ok_same. Qed.

(** A worker that starts a dispatched replacement finds its row already stamped. *)
Definition dispatched_to (taskId replaces : string) (s : site) : Prop :=
  exists l, links (db s) !! replaces = Some l /\ child l = Some taskId.
Lemma stable_dispatched_to t a : stable (dispatched_to t a).
Proof.
  intros s s' W H (l & Hl & Hc). destruct (forest_step_keeps _ _ _ _ (pm_forest _ _ H) Hl) as (l' & Hl' & _ & _ & _ & _ & Hchild).
  exists l'. auto.
Qed.

Lemma recordReplayable_permitted t data :
  holds (fun s => forall a, truthy_string (text_value (field "replacesTaskId" data)) = Some a -> dispatched_to t a s)
    (recordReplayableIssueTask t data) (fun _ => anything).
Proof.
  unfold recordReplayableIssueTask. destruct (truthy_string _) as [a|].
  - apply (holds_weaken (dispatched_to t a) _ _ (fun _ => anything)); [auto|done|].
    apply holds_then; [|apply stable_dispatched_to|].
    + apply keeps_execute. intros s. apply permitted_run. intros r. by eexists _, _, _.
    + intros _. apply holds_call; [apply stable_dispatched_to|]. intros s W (l & Hl & Hc). split; [|done]. simpl.
      destruct (wl_child _ W _ _ _ Hl Hc) as (lb & Hb & Hp & _). apply links_lookup_Some in Hb as (r & Hr & <-). simpl in Hp.
      unfold stamp_replacement, update_where. rewrite Hr, Hp. simpl. rewrite set_db_id. apply permitted_refl.
  - apply keeps_from, keeps_bind; [|intros; keeps]. apply keeps_execute. intros s. apply permitted_run. intros r. by eexists _, _, _.
Qed.

Lemma keeps_run p : keeps (run_entry p).
Proof.
  pose proof keeps_load_task. pose proof keeps_load_lineage. pose proof keeps_prepare. pose proof keeps_complete. pose proof keeps_withdraw.
  pose proof keeps_resumePending. pose proof permitted_recordLineageCostCap. pose proof permitted_recordPushedBranch. destruct p; unfold run_entry, awaitingDelivery, lineage_of_task; keeps.
Qed.

Lemma run_permitted p w :
  Forall respectful (others w) -> linked (store w) ->
  linked (store (snd (run_entry p w))) /\ exists l, trace (snd (run_entry p w)) = trace w ++ l /\ Forall (fun ss => permitted ss.1 ss.2) l.
Proof.
  intros Hg W. destruct (keeps_run p anything stable_anything w Hg (conj W (conj I I))) as (l & Hl & HI & _ & Hend).
  split; [|by exists l]. destruct (fst (run_entry p w)); by destruct Hend.
Qed.
End Programs.
