(* ===== verification/ReplaceProps.v ===== *)
(** * Task replacement: properties

    Every interleaving of the replacement service refines the lineage forest, so lineages
    stay bounded chains; decisions are released as dispatched only after delivery; tasks
    stopped on purpose are never replaced; an interrupted dispatch is completed. *)

From S2P Require Import Prelude JsString Interleave Json TaskIds Replacement ReplaceService Lineage ReplaceFacts ReplaceRefine.

Open Scope Z_scope.
Open Scope list_scope.

Section Properties.
Variable toISOString : Z -> string.
Variable shortHash taskUrl : string -> string.
Abbreviation run_entry := (run_entry toISOString shortHash taskUrl).

(** C15. The service implements the lineage forest: run with other processes that respect it
    and from a well-linked database, every write of every entry point is a step of the
    forest - a new task, or one claim of a task without replacement within the caps - and
    the database ends well linked. *)
Theorem service_refines_forest p w :
  Forall respectful (others w) -> linked (store w) ->
  well_linked (links (db (store (snd (run_entry p w)))))
  /\ exists l, trace (snd (run_entry p w)) = trace w ++ l
       /\ Forall (fun ss => forest_step (links (db ss.1)) (links (db ss.2))) l.
Proof.
  intros Hg W. destruct (run_permitted toISOString shortHash taskUrl p w Hg W) as (Hend & l & Hl & HI).
  split; [exact Hend|]. exists l. split; [done|]. eapply Forall_impl; [exact HI|]. intros ss. apply pm_forest.
Qed.

(** C18. Automatic replacement always ends: whatever entry points run, concurrently and
    interrupted anywhere, an attempt's number is at most twelve, the lineage has exactly one
    attempt of each number up to it, at most one replaced a lost run and at most ten a
    provider failure. *)
Theorem lineages_are_bounded p w id r :
  Forall respectful (others w) -> linked (store w) ->
  let d := db (store (snd (run_entry p w))) in
  task_rows d !! id = Some r ->
  1 <= attempt_of r <= 12
  /\ (forall n, 1 <= n <= attempt_of r ->
        exists id' r', (task_rows d !! id' = Some r' /\ root_of id' r' = root_of id r /\ attempt_of r' = n)
          /\ forall id'' r'', task_rows d !! id'' = Some r'' -> root_of id'' r'' = root_of id r -> attempt_of r'' = n -> id'' = id')
  /\ cause_count (root_of id r) infra_lost (links d) <= 1
  /\ cause_count (root_of id r) provider_transient (links d) <= 10.
Proof.
  intros Hg W d Hr. destruct (run_permitted toISOString shortHash taskUrl p w Hg W) as [Hend _]. unfold linked in Hend. fold d in Hend.
  assert (Hlink : forall x y, task_rows d !! x = Some y -> links d !! x = Some (link_of x y)) by (intros x y Hx; by rewrite links_lookup, Hx).
  pose proof (attempt_bounded _ Hend _ _ (Hlink _ _ Hr)). pose proof (wl_positive _ Hend _ _ (Hlink _ _ Hr)).
  split; [done|]. split; [|split; [apply (wl_count _ Hend _ infra_lost)|apply (wl_count _ Hend _ provider_transient)]].
  intros n Hn. destruct (attempt_below _ Hend _ _ n (Hlink _ _ Hr) Hn) as (y & ly & Hy & Hroot & Ha).
  apply links_lookup_Some in Hy as (ry & Hy & <-). exists y, ry. split; [done|]. intros x rx Hx Hrx Hax.
  apply (attempt_injective _ Hend _ _ _ _ (Hlink _ _ Hx) (Hlink _ _ Hy)); simpl in *; congruence.
Qed.

(** C26. A failure is only superseded by a delivered replacement: in every interleaving, a
    write that turns a task's decision into [dispatched] is made when the task is claimed by
    the replacement its dispatch record names, and the queue accepted that replacement's job
    or it has already run. *)
Theorem dispatched_only_after_delivery p w s s' id r r' :
  Forall respectful (others w) -> linked (store w) ->
  (s, s') ∈ list.drop (length (trace w)) (trace (snd (run_entry p w))) ->
  task_rows (db s) !! id = Some r -> task_rows (db s') !! id = Some r' ->
  replacement_state r <> Some dispatched -> replacement_state r' = Some dispatched ->
  exists d, replaced_by_task_id r = Some (d_replacementTaskId d) /\ dispatch_of r = Some d
    /\ (d_jobId d ∈ delivered s \/ hasRunTransition (d_replacementTaskId d) (db s) = true).
Proof.
  intros Hg W Hin Hr Hr' Hs Hs'. destruct (run_permitted toISOString shortHash taskUrl p w Hg W) as (_ & l & Hl & HI).
  rewrite Hl, drop_app_length in Hin. apply (proj1 (Forall_forall _ _) HI) in Hin.
  simpl in Hin. destruct (pm_released _ _ Hin id r r' Hr Hr' Hs Hs') as (d & (x & Hx & Hb & Hd) & Hk). assert (x = r) as -> by congruence.
  exists d. split_and!; [done|done|exact Hk].
Qed.

(** ** Tasks stopped on purpose *)

Definition same_links (s s' : site) : Prop := links (db s') = links (db s).

Lemma neutral_same id f s : (forall r, link_of id (f r) = link_of id r) -> same_links s (set_db (update_row id f (db s)) s).
Proof. intros Hf. apply links_update_row. auto. Qed.
Lemma neutral_where_same id g f s : (forall r, link_of id (f r) = link_of id r) -> same_links s (set_db (snd (update_where id g f (db s))) s).
Proof.
  intros Hf. unfold update_where. destruct (task_rows (db s) !! id) as [r|]; [|done]. destruct (g r); [by apply neutral_same|done].
Qed.
Lemma steps_query {A} (f : database -> A) : steps same_links (query f).
Proof. by apply steps_call. Qed.
Lemma steps_ask {A} (f : SiteAnswers -> A) : steps same_links (ask f).
Proof. by apply steps_call. Qed.
Lemma steps_execute f : (forall s, same_links s (set_db (f (db s)) s)) -> steps same_links (execute f).
Proof. intros H. by apply steps_call. Qed.
Lemma steps_statement {A} (f : database -> A * database) : (forall s, same_links s (set_db (snd (f (db s))) s)) -> steps same_links (statement f).
Proof. intros H. apply steps_call. intros s. specialize (H s). by destruct (f (db s)). Qed.
Lemma same_transition t s : same_links s (set_db (insert_transition t (db s)) s).
Proof. done. Qed.

Ltac quiet :=
  repeat first
    [ solve [auto using steps_query, steps_ask, steps_ret, steps_throw]
    | apply steps_bind; [|intros ?]
    | apply steps_catch; [|intros ?]
    | apply steps_execute; intros ?
    | apply steps_statement; intros ?
    | apply neutral_same; intros ?
    | apply neutral_where_same; intros ?
    | apply same_transition
    | progress cbv beta iota zeta
    | case_match ];
  try done.

Lemma quiet_call {A} (f : site -> A * site) : (forall s, db (snd (f s)) = db s) -> steps same_links (call f).
Proof. intros H. apply steps_call. intros s. unfold same_links. by rewrite H. Qed.
Lemma quiet_publish u : steps same_links (publishTaskUpdate u).
Proof. unfold publishTaskUpdate. apply steps_bind; [|intros [[[]|]|]; quiet]. apply quiet_call. intros s. simpl. by repeat case_match. Qed.
Lemma quiet_post repo issue body : steps same_links (postIssueComment repo issue body).
Proof. unfold postIssueComment. apply steps_bind; [|intros; quiet]. apply quiet_call. intros s. simpl. by repeat case_match. Qed.
Lemma quiet_find repo issue marker : steps same_links (findIssueComment repo issue marker).
Proof. unfold findIssueComment. apply steps_bind; [|intros [[[]|] ?]; quiet]. by apply quiet_call. Qed.
Lemma quiet_comment task n c t : steps same_links (deliverExhaustedComment task n c t).
Proof. unfold deliverExhaustedComment. pose proof quiet_post. pose proof quiet_find. quiet. Qed.
Lemma quiet_event e o : steps same_links (appendEvent e o).
Proof. unfold appendEvent. quiet. Qed.
Lemma quiet_deliver task n l : steps same_links (deliverFailureNotice taskUrl task n l).
Proof.
  unfold deliverFailureNotice, publish_failure, announce_skip, load_lineage. pose proof quiet_event. pose proof quiet_comment. pose proof quiet_publish.
  quiet.
Qed.
Lemma quiet_recordSkip reason task L n req : steps same_links (recordSkip toISOString taskUrl reason task L n req).
Proof. unfold recordSkip, releaseSkipped. pose proof quiet_deliver. quiet. Qed.
Lemma quiet_unbound req : steps same_links (unbound toISOString taskUrl req).
Proof. unfold unbound, withdrawUnbound, withdraw, load_task. pose proof quiet_deliver. quiet. Qed.

(** [m] writes no lineage column, and returns only values satisfying [phi]. *)
Definition quietly {A} (m : M A) (phi : A -> Prop) : Prop :=
  etriple (fun _ => True) same_links (fun _ => True) m (fun a _ => phi a) (fun _ _ => True).

Lemma steps_quietly {A} (m : M A) : steps same_links m -> quietly m (fun _ => True).
Proof.
  intros H w _ _. destruct (H w) as (l & Hl & HI). exists l. split_and!; [done|done| |by destruct (fst (m w))].
  apply Forall_forall. done.
Qed.
Lemma quietly_steps {A} (m : M A) phi : quietly m phi -> steps same_links m.
Proof. intros H w. destruct (H w) as (l & Hl & HI & _); [by apply Forall_forall|done|]. by exists l. Qed.
Lemma quietly_then {A B} (m : M A) (f : A -> M B) phi : steps same_links m -> (forall a, quietly (f a) phi) -> quietly (m ≫= f) phi.
Proof. intros Hm Hf. eapply etriple_bind; [by apply steps_quietly|]. intros a. apply Hf. Qed.
Lemma quietly_ret {A} (a : A) (phi : A -> Prop) : phi a -> quietly (mret a) phi.
Proof. intros H. by apply etriple_ret. Qed.

Definition not_eligible (ev : ReplacementEvaluation) : Prop := match ev with eligible _ _ _ _ _ => False | _ => True end.

Lemma stopped_not_eligible req : stopReasonExclusion (k_terminalReason req) <> None -> quietly (evaluate req) not_eligible.
Proof.
  intros Hstop. unfold evaluate. apply quietly_then; [apply steps_query|]. intros [task|]; [|by apply quietly_ret].
  case_match; [by apply quietly_ret|]. apply quietly_then; [unfold load_lineage; quiet|]. intros L.
  apply quietly_then; [apply steps_ask|]. intros n.
  assert (E : exists reason, exclusionFor task req n = Some reason).
  { unfold exclusionFor. case_match; [by eexists|]. destruct (stopReasonExclusion (k_terminalReason req)) as [x|]; [by exists x|done]. }
  destruct E as [reason ->]. by apply quietly_ret.
Qed.

(** A task that a user, the watchdog or its cost cap stopped is never replaced: when the
    caller's terminal reason is such a stop, completing the decision writes no lineage
    column, whatever other processes do. *)
Theorem stopped_task_never_replaced req :
  stopReasonExclusion (k_terminalReason req) <> None ->
  steps same_links (complete toISOString shortHash taskUrl req).
Proof.
  intros Hstop. apply (quietly_steps _ (fun _ => True)). unfold complete. apply quietly_then; [apply quiet_unbound|].
  intros []; [by apply quietly_ret|]. eapply etriple_bind; [by apply stopped_not_eligible|]. intros [task L n max budget|reason task L max|].
  - intros w _ [].
  - intros w Hg _. exact (steps_quietly _ (quiet_recordSkip reason task L max req) w Hg I).
  - by apply etriple_ret.
Qed.

(** ** Recovery of an interrupted dispatch *)

Lemma runs_query {A} (f : database -> A) s : runs (query f) s (f (db s)) s.
Proof. by apply runs_call. Qed.
Lemma runs_ask {A} (f : SiteAnswers -> A) s : runs (ask f) s (f (env s)) s.
Proof. by apply runs_call. Qed.
Lemma runs_execute f s : runs (execute f) s tt (set_db (f (db s)) s).
Proof. by apply runs_call. Qed.

(** The event is recorded afterwards, once, and nothing else changes. *)
Definition recorded (e : TimelineEvent) (o : once) (d d' : database) : Prop :=
  task_rows d' = task_rows d /\ execution_costs d' = execution_costs d
  /\ exists l, transitions d' = transitions d ++ l /\ (length l <= 1)%nat /\ (event_recorded e o d = true -> l = []).

Lemma runs_appendEvent e o s : exists b d', runs (appendEvent e o) s b (set_db d' s) /\ recorded e o (db s) d'.
Proof.
  destruct (event_recorded e o (db s)) eqn:E.
  - exists false, (db s). rewrite set_db_id. split.
    + eapply runs_bind; [apply runs_query|]. rewrite E. apply runs_ret.
    + split_and!; [done|done|]. exists []. rewrite app_nil_r. split_and!; [done|simpl; lia|done].
  - exists true, (insert_event e (event_state (e_taskId e) (db s)) (db s)). split.
    + eapply runs_bind; [apply runs_query|]. rewrite E. eapply runs_bind; [apply runs_query|].
      eapply runs_bind; [apply runs_execute|]. apply runs_ret.
    + split_and!; [done|done|]. eexists. split_and!; [done|simpl; lia|congruence].
Qed.

(** The outside world works: the queue takes jobs and updates are published. *)
Definition working (e : SiteAnswers) : Prop := v_enqueue e = taken /\ (v_publish e = None \/ v_publish e = Some (Ok true)).

Lemma runs_publish u s : working (env s) -> exists a s', runs (publishTaskUpdate u) s a s' /\ db s' = db s /\ delivered s' = delivered s
  /\ match a with None => true | Some b => b end = true.
Proof.
  intros [_ [Hp|Hp]]; unfold publishTaskUpdate.
  - exists None, s. split; [|done]. eapply runs_bind; [apply runs_call; by rewrite Hp|]. apply runs_ret.
  - eexists (Some true), _. split; [eapply runs_bind; [apply runs_call; by rewrite Hp|apply runs_ret]|done].
Qed.

Lemma runs_confirmDispatched task c d ts st s : working (env s) ->
  exists s', runs (confirmDispatched task c d ts st) s true s' /\ delivered s' = delivered s
    /\ task_rows (db s') = alter (fun r => with_request (Some dispatched) (replacement_request r) r) (t_taskId task) (task_rows (db s)).
Proof.
  intros Hw. destruct (runs_appendEvent (dispatched_event task c d ts) once_ever s) as (b & d1 & Hrun & Hrows & _).
  set (s1 := set_db d1 s). unfold confirmDispatched. destruct (truthy_string st) as [state|].
  - destruct (runs_publish (Published (d_replacementTaskId d) state None (Some (t_taskId task))) s1 Hw) as (a & s2 & Hp & Hdb & Hdel & Ha).
    eexists. split; [|split].
    + eapply runs_bind; [exact Hrun|]. eapply runs_bind; [eapply runs_bind; [exact Hp|apply runs_ret]|]. rewrite Ha. cbn [negb].
      eapply runs_bind; [apply runs_execute|]. apply runs_ret.
    + done.
    + simpl. rewrite Hdb. simpl. by rewrite Hrows.
  - eexists. split; [|split].
    + eapply runs_bind; [exact Hrun|]. eapply runs_bind; [apply runs_ret|]. cbn [negb].
      eapply runs_bind; [apply runs_execute|]. apply runs_ret.
    + done.
    + simpl. by rewrite Hrows.
Qed.

(** C31. An interrupted dispatch is completed under the same identity: if a claim's
    replacement is still queued in the database and the queue and publisher work, recovery
    adds the recorded job, creates no second attempt, and releases the decision. *)
Theorem interrupted_dispatch_is_completed id c d s rb :
  linked s -> claimed_as id d s -> task_rows (db s) !! d_replacementTaskId d = Some rb ->
  latest_state (d_replacementTaskId d) (db s) = Some "pending"%string -> working (env s) ->
  exists s', runs (resumeClaimed toISOString taskUrl id c d) s true s'
    /\ d_jobId d ∈ delivered s' /\ same_links s s'
    /\ exists r, task_rows (db s') !! id = Some r /\ replacement_state r = Some dispatched.
Proof.
  intros W (r & Hr & Hb & Hd) Hrb Hst Hw. pose proof Hw as [Hq _].
  assert (Hne : truthy_string (Some (d_replacementTaskId d)) = Some (d_replacementTaskId d)).
  { apply truthy_nonempty. intros E. rewrite E in Hrb. pose proof (wl_named _ W) as Hn. by rewrite links_lookup, Hrb in Hn. }
  set (s1 := Site (db s) ({[d_jobId d]} ∪ delivered s) (updates s) (comments s) (env s)).
  destruct (runs_confirmDispatched (taskFromRow id r (db s)) c d (toISOString (v_now (env s))) (announce_state (Some "pending"%string)) s1 Hw)
    as (s2 & Hrun & Hdel & Hrows).
  exists s2. split_and!.
  - unfold resumeClaimed. eapply runs_bind; [apply runs_query|]. eapply runs_bind; [apply runs_query|].
    unfold loadTask. rewrite Hr, Hrb. simpl fmap. cbv beta iota. simpl replacedByTaskId. rewrite Hb, Hne, bool_decide_eq_true_2 by done. cbn [negb].
    simpl latestState. rewrite Hst, bool_decide_eq_true_2 by done.
    apply (runs_bind _ _ s true s1).
    + intros tr. unfold catch, enqueue_job, mbind, M_bind, call. simpl. rewrite Hq. simpl. by eexists.
    + eapply runs_bind; [apply runs_ask|]. exact Hrun.
  - rewrite Hdel. simpl. set_solver.
  - apply links_same. intros x. rewrite Hrows. simpl. destruct (decide (x = id)) as [->|]; [|by rewrite lookup_alter_ne].
    rewrite lookup_alter_eq, Hr. done.
  - rewrite Hrows. simpl. rewrite lookup_alter_eq, Hr. by eexists.
Qed.
End Properties.

(** ** Concrete runs *)

Definition demo_iso (t : Z) : string := ("T" ++ show t)%string.
Definition demo_hash (s : string) : string := take 4 s.
Definition demo_url (s : string) : string := ("http://localhost:5173/tasks/" ++ s)%string.

Definition demo_replay : object :=
  [("repoOwner", JStr "integry"); ("repoName", JStr "propr"); ("number", JNum 7); ("agentAlias", JStr "claude"); ("modelName", JStr "opus")]%string.
Definition demo_row : AttemptRow :=
  ARow "integry/propr" (Some 7) (Some "issue"%string) (Some "opus"%string) (Some "issue-7"%string) None None None None None None None (Some demo_replay) None.
Definition demo_env (q : delivery) : SiteAnswers :=
  Answers 1000 "c1" (Ok None) None None (Some (Ok (Some "open"%string))) q (Some (Ok true)) None None.
Definition failed_transition : TransitionRow := Transition "t1" "failed" "T900" "Task execution failed" (Some [("finalizedBy", JStr "orphan_reconciliation")]%string).
Definition demo_db : database := Database {["t1"%string := demo_row]} [failed_transition] ∅.
Definition demo_site (q : delivery) : site := Site demo_db ∅ [] [] (demo_env q).
Definition demo_request : ReplacementRequest := Asked "t1" infra_lost None (Some "lost"%string) None.
Definition demo_world (q : delivery) : world site := World (demo_site q) [] [].

Lemma well_linked_empty : well_linked ∅.
Proof. split; try done. intros r []; vm_compute; discriminate. Qed.
Lemma demo_linked q : linked (demo_site q).
Proof.
  unfold linked. assert (E : links demo_db = <["t1"%string := new_task "t1"]> ∅) by (vm_compute; reflexivity).
  unfold demo_site. simpl. rewrite E. by apply well_linked_create; [apply well_linked_empty|..].
Qed.

Abbreviation demo_run := (run_entry demo_iso demo_hash demo_url (run_complete demo_request)).

Lemma respectful_id : respectful (fun s => s).
Proof. intros s _. apply permitted_refl. Qed.

Lemma service_refines_forest_witness :
  Forall respectful (others (World (demo_site taken) [fun s => s; fun s => s] []))
  /\ well_linked (links (db (store (snd (demo_run (World (demo_site taken) [fun s => s; fun s => s] []))))))
  /\ attempt <$> links (db (store (snd (demo_run (World (demo_site taken) [fun s => s; fun s => s] []))))) !! "integry-propr-7-claude-opus-c1"%string = Some 2.
Proof.
  assert (Hg : Forall respectful (others (World (demo_site taken) [fun s => s; fun s => s] []))) by (apply Forall_forall; intros g Hin; simpl in Hin; set_unfold in Hin; destruct_or! Hin; subst; apply respectful_id).
  split; [exact Hg|]. split; [|vm_compute; reflexivity].
  exact (proj1 (service_refines_forest demo_iso demo_hash demo_url (run_complete demo_request) (World (demo_site taken) [fun s => s; fun s => s] []) Hg (demo_linked taken))).
Defined.

Lemma lineages_are_bounded_witness :
  exists r, task_rows (db (store (snd (demo_run (demo_world taken))))) !! "integry-propr-7-claude-opus-c1"%string = Some r
  /\ attempt_of r = 2 /\ 1 <= attempt_of r <= 12.
Proof.
  set (o := task_rows (db (store (snd (demo_run (demo_world taken))))) !! "integry-propr-7-claude-opus-c1"%string).
  assert (E : attempt_of <$> o = Some 2) by (vm_compute; reflexivity). destruct o as [r|] eqn:Er; [|discriminate E].
  exists r. split; [reflexivity|]. split; [by injection E|].
  refine (proj1 (lineages_are_bounded demo_iso demo_hash demo_url (run_complete demo_request) (demo_world taken) "integry-propr-7-claude-opus-c1" r _ (demo_linked taken) Er)).
  constructor.
Defined.

(** The last write of the run releases the decision. *)
Definition last_write : site * site := nth 13 (trace (snd (demo_run (demo_world taken)))) (demo_site taken, demo_site taken).
Definition row_in (s : site) (id : string) : AttemptRow := default demo_row (task_rows (db s) !! id).

Lemma dispatched_only_after_delivery_witness :
  replacement_state (row_in last_write.2 "t1") = Some dispatched
  /\ exists d, replaced_by_task_id (row_in last_write.1 "t1") = Some (d_replacementTaskId d) /\ dispatch_of (row_in last_write.1 "t1") = Some d
       /\ (d_jobId d ∈ delivered last_write.1 \/ hasRunTransition (d_replacementTaskId d) (db last_write.1) = true).
Proof.
  split; [vm_compute; reflexivity|].
  apply (dispatched_only_after_delivery demo_iso demo_hash demo_url (run_complete demo_request) (demo_world taken) last_write.1 last_write.2 "t1"
           (row_in last_write.1 "t1") (row_in last_write.2 "t1")).
  - constructor.
  - apply demo_linked.
  - apply (list_elem_of_lookup_2 _ 13). vm_compute. reflexivity.
  - vm_compute. reflexivity.
  - vm_compute. reflexivity.
  - vm_compute. discriminate.
  - vm_compute. reflexivity.
Defined.

Lemma stopped_task_never_replaced_witness :
  stopReasonExclusion (Some "user_cancelled"%string) = Some r_user_cancelled
  /\ steps same_links (complete demo_iso demo_hash demo_url (Asked "t1" provider_transient (Some "user_cancelled"%string) None None)).
Proof.
  split; [reflexivity|]. apply (stopped_task_never_replaced demo_iso demo_hash demo_url (Asked "t1" provider_transient (Some "user_cancelled"%string) None None)).
  vm_compute. discriminate.
Defined.

(** The site after a dispatch whose queue call failed, with the queue working again. *)
Definition interrupted_site : site :=
  let s := store (snd (demo_run (demo_world refused))) in Site (db s) (delivered s) (updates s) (comments s) (demo_env taken).
Definition demo_dispatch : ReplacementDispatchRecord :=
  default (Dispatch "" "" [] 0 0 None None "") (dispatch_of (row_in interrupted_site "t1")).

Lemma interrupted_dispatch_is_completed_witness :
  d_jobId demo_dispatch = "issue-integry-propr-7-replacement-inte"%string
  /\ (d_jobId demo_dispatch ∉ delivered interrupted_site)
  /\ exists s', runs (resumeClaimed demo_iso demo_url "t1" infra_lost demo_dispatch) interrupted_site true s'
       /\ d_jobId demo_dispatch ∈ delivered s' /\ same_links interrupted_site s'
       /\ exists r, task_rows (db s') !! "t1"%string = Some r /\ replacement_state r = Some dispatched.
Proof.
  split; [vm_compute; reflexivity|]. split; [vm_compute; intros H; inversion H|].
  apply (interrupted_dispatch_is_completed demo_iso demo_hash demo_url "t1" infra_lost demo_dispatch interrupted_site
           (row_in interrupted_site (d_replacementTaskId demo_dispatch))).
  - exact (proj1 (run_permitted demo_iso demo_hash demo_url (run_complete demo_request) (demo_world refused) (Forall_nil_2 _) (demo_linked refused))).
  - exists (row_in interrupted_site "t1"). split_and!; vm_compute; reflexivity.
  - vm_compute. reflexivity.
  - vm_compute. reflexivity.
  - split; [reflexivity|by right].
Defined.

(** A timeline event repeats a state it read in an earlier statement: a transition recorded
    in between is masked, and the task reads as failed again. *)
Definition cancelled_transition : TransitionRow := Transition "t1" "cancelled" "T999" "Cancelled by a user." None.
Definition demo_event : TimelineEvent := Event "t1" "replacement.skipped" "Replacement skipped" [("noticeId", JStr "n1")]%string "T1000".
Example stale_event_masks_transition :
  let w := snd (appendEvent demo_event (once_for "n1") (World (demo_site taken)
             [(fun s => s); (fun s => s); (fun s => set_db (insert_transition cancelled_transition (db s)) s)] [])) in
  latest_state "t1" (insert_transition cancelled_transition demo_db) = Some "cancelled"%string
  /\ latest_state "t1" (db (store w)) = Some "failed"%string.
Proof. vm_compute. done. Qed.
