(* ===== verification/AgentRuns.v ===== *)
(** * Agent runs and schedules: the store

    packages/core/src/services/agents/agentRunStore.ts (run receipts and their state
    machine), the scheduling statements of agentDefinitionStore.ts and the state names of
    packages/shared/src/automationDefinitions.ts. Each statement is one atomic function of
    the database. *)

From S2P Require Import Prelude JsString.

Open Scope Z_scope.
Open Scope list_scope.

(** ** Runs *)

Inductive AutomationRunState :=
  | queued | deferred | running | report_ready | awaiting_approval | acting
  | completed | failed | skipped | rejected | cancelled.
#[export] Instance AutomationRunState_eq_dec : EqDecision AutomationRunState.
Proof. solve_decision. Defined.

Definition TERMINAL_AUTOMATION_RUN_STATES : list AutomationRunState := [completed; failed; skipped; rejected; cancelled].
Definition isTerminalAutomationRunState (s : AutomationRunState) : bool := bool_decide (s ∈ TERMINAL_AUTOMATION_RUN_STATES).

Definition AGENT_RUN_TRANSITIONS (from : AutomationRunState) : list AutomationRunState :=
  match from with
  | queued => [running; deferred; skipped; cancelled; failed]
  | deferred => [queued; skipped; cancelled]
  | running => [report_ready; failed; cancelled]
  | report_ready => [completed; awaiting_approval; acting; failed]
  | awaiting_approval => [acting; rejected; cancelled]
  | acting => [completed; failed; cancelled; awaiting_approval]
  | completed | failed | skipped | rejected | cancelled => []
  end.
Definition isAgentRunTransitionAllowed (from to : AutomationRunState) : bool := bool_decide (to ∈ AGENT_RUN_TRANSITIONS from).

Inductive AutomationRunTrigger := manual | schedule | api | mcp | cli.
#[export] Instance AutomationRunTrigger_eq_dec : EqDecision AutomationRunTrigger.
Proof. solve_decision. Defined.

(** A definition, as the scheduler and the gate see it; [d_body] is everything else. *)
Record StoredAgentDefinition := Definition_ {
  d_id : string;
  d_ownerId : string;
  d_body : string;
  d_autonomyMode : string;
  scheduleCron : option string;
  scheduleEnabled : bool;
  nextRunAt : option Z;
  d_enabled : bool;
  d_revision : Z;
  d_updatedAt : Z;
}.
#[export] Instance StoredAgentDefinition_eq_dec : EqDecision StoredAgentDefinition.
Proof. solve_decision. Defined.

(** What a run keeps from its creation. *)
Record RunOrigin := Origin {
  r_definitionId : string;
  r_ownerId : string;
  r_trigger : AutomationRunTrigger;
  r_triggerSource : option string;
  r_idempotencyKey : option string;
  r_autonomyMode : string;
  r_definitionSnapshot : StoredAgentDefinition;
  r_createdAt : Z;
}.
#[export] Instance RunOrigin_eq_dec : EqDecision RunOrigin.
Proof. solve_decision. Defined.

Record StoredAgentRun := Run {
  r_id : string;
  origin : RunOrigin;
  r_state : AutomationRunState;
  reportTaskId : option string;
  actionTaskId : option string;
  r_report : option string;
  reportTruncated : bool;
  actionSummary : option string;
  skipReason : option string;
  failureReason : option string;
  approvedBy : option string;
  operatorNote : option string;
  deferredUntil : option Z;
  deferrals : Z;
  startedAt : option Z;
  reportedAt : option Z;
  finishedAt : option Z;
  r_updatedAt : Z;
}.
#[export] Instance StoredAgentRun_eq_dec : EqDecision StoredAgentRun.
Proof. solve_decision. Defined.

(** [AUTOMATION_REPORT_MAX_CHARS] *)
Definition AUTOMATION_REPORT_MAX_CHARS : Z := 100000.
Definition truncateAgentReport (report : string) : string * bool :=
  if Z.of_nat (String.length report) <=? AUTOMATION_REPORT_MAX_CHARS then (report, false)
  else (take (Z.to_nat AUTOMATION_REPORT_MAX_CHARS) report, true).

(** ** Definitions and their schedule columns *)

Record DefinitionRow := DRow {
  definition : StoredAgentDefinition;
  pending_schedule_slot : option Z;
  pending_schedule_attempted_at : option Z;
}.

Record agent_db := AgentDb {
  agent_runs : gmap string StoredAgentRun;
  definitions : gmap string DefinitionRow;
  latest_history : gmap string (string * option Z);
}.

Definition with_runs (f : gmap string StoredAgentRun -> gmap string StoredAgentRun) (s : agent_db) : agent_db :=
  AgentDb (f (agent_runs s)) (definitions s) (latest_history s).
Definition with_definitions (f : gmap string DefinitionRow -> gmap string DefinitionRow) (s : agent_db) : agent_db :=
  AgentDb (agent_runs s) (f (definitions s)) (latest_history s).

(** ** Creating a run *)

Inductive AgentRunInitialState := start_queued | start_deferred (until : option Z) | start_skipped.
Definition initial_state (i : AgentRunInitialState) : AutomationRunState :=
  match i with start_queued => queued | start_deferred _ => deferred | start_skipped => skipped end.

Record CreateAgentRunInput := CreateInput {
  c_definition : StoredAgentDefinition;
  c_trigger : AutomationRunTrigger;
  c_triggerSource : option string;
  c_idempotencyKey : option string;
  c_initialState : AgentRunInitialState;
  c_skipReason : option string;
}.

Definition new_run (i : CreateAgentRunInput) (id : string) (now : Z) : StoredAgentRun :=
  let state := initial_state (c_initialState i) in
  Run id
    (Origin (d_id (c_definition i)) (d_ownerId (c_definition i)) (c_trigger i) (c_triggerSource i) (c_idempotencyKey i)
       (d_autonomyMode (c_definition i)) (c_definition i) now)
    state None None None false None
    (match c_initialState i with start_queued => None | _ => c_skipReason i end)
    None None None
    (match c_initialState i with start_deferred until => until | _ => None end)
    (match c_initialState i with start_deferred _ => 1 | _ => 0 end)
    None None (if isTerminalAutomationRunState state then Some now else None) now.

Definition same_key (definitionId key : string) (r : StoredAgentRun) : bool :=
  bool_decide (r_definitionId (origin r) = definitionId) && bool_decide (r_idempotencyKey (origin r) = Some key).
Definition getAgentRunByIdempotencyKey (definitionId key : string) (s : agent_db) : option StoredAgentRun :=
  snd <$> find (fun p => same_key definitionId key p.2) (map_to_list (agent_runs s)).

(** [INSERT ... ON CONFLICT (definition_id, idempotency_key) DO NOTHING RETURNING *] *)
Definition insert_run (i : CreateAgentRunInput) (id : string) (now : Z) (s : agent_db) : result (option StoredAgentRun) * agent_db :=
  match c_idempotencyKey i ≫= fun key => getAgentRunByIdempotencyKey (d_id (c_definition i)) key s with
  | Some _ => (Ok None, s)
  | None =>
      match agent_runs s !! id with
      | Some _ => (Throw "UNIQUE constraint failed: agent_runs.id", s)
      | None => (Ok (Some (new_run i id now)), with_runs <[id := new_run i id now]> s)
      end
  end.

(** ** Transitions *)

(** Absent fields are left as they are. *)
Record AgentRunTransitionPatch := Patch {
  p_reportTaskId : option (option string);
  p_actionTaskId : option (option string);
  p_report : option (option string);
  p_actionSummary : option (option string);
  p_skipReason : option (option string);
  p_failureReason : option (option string);
  p_approvedBy : option (option string);
  p_operatorNote : option (option string);
  p_deferredUntil : option (option Z);
}.
Definition no_patch : AgentRunTransitionPatch := Patch None None None None None None None None None.
Definition skip_patch (reason : string) : AgentRunTransitionPatch := Patch None None None None (Some (Some reason)) None None None None.
Definition fail_patch (reason : string) : AgentRunTransitionPatch := Patch None None None None None (Some (Some reason)) None None None.

Definition moved (to : AutomationRunState) (p : AgentRunTransitionPatch) (now : Z) (r : StoredAgentRun) : StoredAgentRun :=
  let report := truncateAgentReport <$> default (r_report r) (p_report p) in
  Run (r_id r) (origin r) to
    (default (reportTaskId r) (p_reportTaskId p)) (default (actionTaskId r) (p_actionTaskId p))
    (match p_report p with None => r_report r | Some _ => fst <$> report end)
    (match p_report p with None => reportTruncated r | Some _ => default false (snd <$> report) end)
    (default (actionSummary r) (p_actionSummary p)) (default (skipReason r) (p_skipReason p))
    (default (failureReason r) (p_failureReason p)) (default (approvedBy r) (p_approvedBy p)) (default (operatorNote r) (p_operatorNote p))
    (default (deferredUntil r) (p_deferredUntil p))
    (if bool_decide (to = deferred) then deferrals r + 1 else deferrals r)
    (if bool_decide (to = running) then Some (default now (startedAt r)) else startedAt r)
    (if bool_decide (to = report_ready) then Some now else reportedAt r)
    (if isTerminalAutomationRunState to then Some now else finishedAt r) now.

(** [UPDATE agent_runs SET ... WHERE id = id AND guard RETURNING *] *)
Definition update_run (id : string) (guard : StoredAgentRun -> bool) (f : StoredAgentRun -> StoredAgentRun) (s : agent_db) : option StoredAgentRun * agent_db :=
  match agent_runs s !! id with
  | Some r => if guard r then (Some (f r), with_runs <[id := f r]> s) else (None, s)
  | None => (None, s)
  end.

Definition transition_checks (from : list AutomationRunState) (to : AutomationRunState) (p : AgentRunTransitionPatch) : option string :=
  if bool_decide (from = []) then Some "transitionAgentRun: at least one source state is required"
  else if negb (forallb (fun source => isAgentRunTransitionAllowed source to) from) then Some "transitionAgentRun: illegal agent run transition"
  else if bool_decide (to = deferred) && bool_decide (default None (p_deferredUntil p) = None) then Some "transitionAgentRun: deferredUntil is required when deferring a run"
  else None.

Definition applyAgentRunTransition (id : string) (from : list AutomationRunState) (to : AutomationRunState) (p : AgentRunTransitionPatch)
    (now : Z) (guard : StoredAgentRun -> bool) (s : agent_db) : result (option StoredAgentRun) * agent_db :=
  match transition_checks from to p with
  | Some e => (Throw e, s)
  | None => let '(r, s') := update_run id (fun r => guard r && bool_decide (r_state r ∈ from)) (moved to p now) s in (Ok r, s')
  end.
Definition transitionAgentRun id from to p now : agent_db -> result (option StoredAgentRun) * agent_db :=
  applyAgentRunTransition id from to p now (fun _ => true).
Definition transitionDeferredAgentRun id (evaluatedDeferredUntil : Z) to p now : agent_db -> result (option StoredAgentRun) * agent_db :=
  applyAgentRunTransition id [deferred] to p now (fun r => bool_decide (deferredUntil r = Some evaluatedDeferredUntil)).

(** The acting state's claim is its task. *)
Definition unclaimed_action (r : StoredAgentRun) : bool := bool_decide (r_state r = acting) && bool_decide (actionTaskId r = None).
Definition touched (state : AutomationRunState) (task skip failure : option string) (until : option Z) (count : Z) (finished : option Z) (now : Z) (r : StoredAgentRun) : StoredAgentRun :=
  Run (r_id r) (origin r) state (reportTaskId r) task (r_report r) (reportTruncated r) (actionSummary r) skip failure (approvedBy r) (operatorNote r)
    until count (startedAt r) (reportedAt r) finished now.

Definition claimAgentRunAction (id task : string) (now : Z) : agent_db -> option StoredAgentRun * agent_db :=
  update_run id unclaimed_action
    (fun r => touched (r_state r) (Some task) (skipReason r) (failureReason r) (deferredUntil r) (deferrals r) (finishedAt r) now r).
Definition failUnclaimedAgentRunAction (id reason : string) (now : Z) : agent_db -> option StoredAgentRun * agent_db :=
  update_run id unclaimed_action
    (fun r => touched failed (actionTaskId r) (skipReason r) (Some reason) (deferredUntil r) (deferrals r) (Some now) now r).
Definition pauseUnclaimedAgentRunAction (id reason : string) (now : Z) : agent_db -> option StoredAgentRun * agent_db :=
  update_run id (fun r => unclaimed_action r && bool_decide (approvedBy r = None))
    (fun r => touched awaiting_approval (actionTaskId r) (Some reason) (failureReason r) (deferredUntil r) (deferrals r) (finishedAt r) now r).
Definition redeferAgentRun (id : string) (evaluated until : Z) (reason : string) (now : Z) : agent_db -> option StoredAgentRun * agent_db :=
  update_run id (fun r => bool_decide (r_state r = deferred) && bool_decide (deferredUntil r = Some evaluated))
    (fun r => touched (r_state r) (actionTaskId r) (Some reason) (failureReason r) (Some until) (deferrals r + 1) (finishedAt r) now r).
(** Releases the dispatch obligation of an admitted run. *)
Definition markRetriedAgentRunDispatched (id : string) (admitted now : Z) : agent_db -> option StoredAgentRun * agent_db :=
  update_run id (fun r => bool_decide (deferredUntil r = Some admitted) && negb (bool_decide (r_state r = deferred)))
    (fun r => touched (r_state r) (actionTaskId r) (skipReason r) (failureReason r) None (deferrals r) (finishedAt r) now r).

(** ** Worklists *)

Definition due_before (r1 r2 : StoredAgentRun) : bool :=
  let u1 := default 0 (deferredUntil r1) in let u2 := default 0 (deferredUntil r2) in
  (u1 <? u2) || (u1 =? u2) && code_le (r_id r1) (r_id r2).
Definition select_runs (p : StoredAgentRun -> bool) (limit : Z) (s : agent_db) : list StoredAgentRun :=
  list.take (Z.to_nat (Z.max limit 1)) (sort_by due_before (filter (fun r => p r = true) (snd <$> map_to_list (agent_runs s)))).
Definition listDueDeferredRuns (now limit : Z) : agent_db -> list StoredAgentRun :=
  select_runs (fun r => bool_decide (r_state r = deferred) && match deferredUntil r with Some u => u <=? now | None => false end) limit.
Definition listUndispatchedRetriedRuns (limit : Z) : agent_db -> list StoredAgentRun :=
  select_runs (fun r => bool_decide (r_state r = queued) && negb (bool_decide (deferredUntil r = None))) limit.

(** ** Schedule slots *)

Record DueScheduledAgentDefinition := Due { due_definition : StoredAgentDefinition; pendingSlot : option Z }.

Definition attempted_before (a b : DefinitionRow) : bool :=
  match pending_schedule_attempted_at a, pending_schedule_attempted_at b with
  | None, Some _ => true
  | Some _, None => false
  | None, None => code_le (d_id (definition a)) (d_id (definition b))
  | Some x, Some y => (x <? y) || (x =? y) && code_le (d_id (definition a)) (d_id (definition b))
  end.
Definition next_before (a b : DefinitionRow) : bool :=
  let x := default 0 (nextRunAt (definition a)) in let y := default 0 (nextRunAt (definition b)) in
  (x <? y) || (x =? y) && code_le (d_id (definition a)) (d_id (definition b)).
Definition select_definitions (p : DefinitionRow -> bool) (le : DefinitionRow -> DefinitionRow -> bool) (size : nat) (s : agent_db) : list DefinitionRow :=
  list.take size (sort_by le (filter (fun r => p r = true) (snd <$> map_to_list (definitions s)))).
Definition has_pending (r : DefinitionRow) : bool := negb (bool_decide (pending_schedule_slot r = None)).
Definition is_due (now : Z) (r : DefinitionRow) : bool :=
  negb (has_pending r) && scheduleEnabled (definition r) && d_enabled (definition r)
  && match nextRunAt (definition r) with Some n => n <=? now | None => false end.
(** How many of the batch are pending slots. *)
Definition pending_share (size pending due : nat) : nat := Nat.min pending (Nat.max (Nat.div2 (S size)) (size - due)).
(** The two reads are separate statements: [pending] is the answer of the first. *)
Definition list_pending (size : nat) : agent_db -> list DefinitionRow := select_definitions has_pending attempted_before size.
Definition listDueScheduledAgentDefinitions (now : Z) (size : nat) (pending : list DefinitionRow) (s : agent_db) : list DueScheduledAgentDefinition :=
  let due := select_definitions (is_due now) next_before size s in
  let n := pending_share size (length pending) (length due) in
  (fun r => Due (definition r) (pending_schedule_slot r)) <$> (list.take n pending ++ list.take (size - n) due).

Definition update_definition (id : string) (guard : DefinitionRow -> bool) (f : DefinitionRow -> DefinitionRow) (s : agent_db) : option StoredAgentDefinition * agent_db :=
  match definitions s !! id with
  | Some r => if guard r then (Some (definition (f r)), with_definitions <[id := f r]> s) else (None, s)
  | None => (None, s)
  end.
Definition with_schedule (enabled : bool) (next : option Z) (revision updated : Z) (d : StoredAgentDefinition) : StoredAgentDefinition :=
  Definition_ (d_id d) (d_ownerId d) (d_body d) (d_autonomyMode d) (scheduleCron d) enabled next (d_enabled d) revision updated.

Definition claimAgentDefinitionScheduleSlot (id : string) (claimedNextRunAt nextRun slot : Z) : agent_db -> option StoredAgentDefinition * agent_db :=
  update_definition id
    (fun r => bool_decide (nextRunAt (definition r) = Some claimedNextRunAt) && scheduleEnabled (definition r) && d_enabled (definition r)
              && negb (has_pending r))
    (fun r => DRow (with_schedule (scheduleEnabled (definition r)) (Some nextRun) (d_revision (definition r)) (d_updatedAt (definition r)) (definition r))
                (Some slot) (pending_schedule_attempted_at r)).
Definition pending_is (slot : Z) (r : DefinitionRow) : bool := bool_decide (pending_schedule_slot r = Some slot).
Definition admitAgentDefinitionScheduleSlot (id : string) (slot now : Z) : agent_db -> option StoredAgentDefinition * agent_db :=
  update_definition id (pending_is slot) (fun r => DRow (definition r) (pending_schedule_slot r) (Some now)).
Definition releaseAgentDefinitionScheduleSlot (id : string) (slot : Z) : agent_db -> option StoredAgentDefinition * agent_db :=
  update_definition id (pending_is slot) (fun r => DRow (definition r) None None).
(** Turns the schedule off on the system's behalf, dropping any pending slot. *)
Definition disableAgentDefinitionSchedule (id : string) (now : Z) (s : agent_db) : bool * agent_db :=
  match definitions s !! id with
  | None => (false, s)
  | Some r =>
      let d := definition r in
      let d' := if scheduleEnabled d then with_schedule false None (d_revision d + 1) now d else d in
      let r' := if has_pending r then DRow d' None None else DRow d' (pending_schedule_slot r) (pending_schedule_attempted_at r) in
      (scheduleEnabled d, with_definitions <[id := r']> s)
  end.
