(* ===== verification/AgentSchedule.v ===== *)
(** * Agent runs and schedules: triggering, the schedule sweep and recovery

    packages/core/src/services/agents/agentRunTrigger.ts and agentRunDeferredRetry.ts, and
    the sweeps of src/agentRunScheduler.ts, as programs whose every statement may be
    preceded by steps of other processes (the API and the worker). The gate, the runtime
    validation of a definition and the membership check are answers of the site. *)

From S2P Require Import Prelude JsString Cron ScheduleSlot Interleave AgentRuns.

Open Scope Z_scope.
Open Scope list_scope.

Definition AGENT_SCHEDULE_SWEEP_BATCH_SIZE : nat := 50.
Definition DEFAULT_DEFERRED_AGENT_RUN_BATCH_SIZE : Z := 50.
Definition AGENT_RUN_STUCK_GRACE_MS : Z := 10 * 60000.
Definition AGENT_RUN_STUCK_FAILURE_REASON : string := "The worker stopped before recording the result.".
Definition STUCK_RUN_BATCH_SIZE : nat := 100.
Definition TERMINAL_TASK_STATES : list string := ["completed"; "failed"; "cancelled"]%string.

Inductive AgentRunGateDecision := gate_proceed | gate_skip (reason : string) | gate_defer (until : Z) (reason : string).
Inductive queue_answer := accepts | accepts_but_fails | refuses.

Record AgentAnswers := Answers {
  w_now : Z;
  w_uuid : string;
  w_gate : result AgentRunGateDecision;
  w_invalid : result (option string);
  w_isMember : result bool;
  w_queue : queue_answer;
}.

Record agents := Agents {
  adb : agent_db;
  accepted : gset string;
  answers : AgentAnswers;
}.
Abbreviation M := (Interleave.M agents).

Definition set_adb (d : agent_db) (s : agents) : agents := Agents d (accepted s) (answers s).
Definition read {A} (f : agent_db -> A) : M A := call (fun s => (f (adb s), s)).
Definition write {A} (f : agent_db -> A * agent_db) : M A := call (fun s => let '(a, d) := f (adb s) in (a, set_adb d s)).
Definition asks {A} (f : AgentAnswers -> A) : M A := call (fun s => (f (answers s), s)).
Definition or_throw {A} (r : result A) : M A := match r with Ok a => mret a | Throw e => throw e end.
(** A statement with the current time. *)
Definition write_now {A} (f : Z -> agent_db -> A * agent_db) : M A := now ← asks w_now; write (f now).

(** ** Triggering *)

Inductive AgentRunPhase := report | action.
Definition phase_text (p : AgentRunPhase) : string := match p with report => "report" | action => "action" end.
Definition agentRunJobId (runId : string) (phase : AgentRunPhase) : string := ("agent-run-" ++ runId ++ "-" ++ phase_text phase)%string.

(** The job id is deterministic: adding it again is a no-op of the queue. *)
Definition enqueueAgentRunPhase (run : StoredAgentRun) (phase : AgentRunPhase) : M string :=
  let jobId := agentRunJobId (r_id run) phase in
  answer ← call (fun s =>
    (w_queue (answers s), match w_queue (answers s) with refuses => s | _ => Agents (adb s) ({[jobId]} ∪ accepted s) (answers s) end));
  match answer with accepts => mret jobId | _ => throw "queue unavailable" end.

Definition createAgentRun (i : CreateAgentRunInput) : M (StoredAgentRun * bool) :=
  now ← asks w_now;
  match c_initialState i with
  | start_deferred None => throw "createAgentRun: deferredUntil is required for a deferred run"
  | _ =>
      id ← asks w_uuid;
      inserted ← write (insert_run i id now);
      inserted ← or_throw inserted;
      match inserted with
      | Some run => mret (run, true)
      | None =>
          match c_idempotencyKey i with
          | None => throw "createAgentRun: insert without an idempotency key was ignored"
          | Some key =>
              stored ← read (getAgentRunByIdempotencyKey (d_id (c_definition i)) key);
              match stored with Some run => mret (run, false) | None => throw "createAgentRun: run disappeared after insert" end
          end
      end
  end.

Definition transition (id : string) (from : list AutomationRunState) (to : AutomationRunState) (p : AgentRunTransitionPatch) : M (option StoredAgentRun) :=
  moved ← write_now (transitionAgentRun id from to p);
  or_throw moved.

Inductive triggered :=
  | fired (run : StoredAgentRun) (created enqueued : bool)
  | invalid_definition (message : string).

Record TriggerAgentRunInput := TriggerInput {
  t_definition : StoredAgentDefinition;
  t_trigger : AutomationRunTrigger;
  t_triggerSource : option string;
  t_idempotencyKey : option string;
  keepQueuedOnEnqueueFailure : bool;
}.

Definition trigger_create (i : TriggerAgentRunInput) (decision : AgentRunGateDecision) : M (StoredAgentRun * bool) :=
  let create state reason := createAgentRun (CreateInput (t_definition i) (t_trigger i) (t_triggerSource i) (t_idempotencyKey i) state reason) in
  match decision with
  | gate_skip reason => create start_skipped (Some reason)
  | gate_defer until reason => create (start_deferred (Some until)) (Some reason)
  | gate_proceed => create start_queued None
  end.

Definition triggerAgentRun (i : TriggerAgentRunInput) : M triggered :=
  existing ← match t_idempotencyKey i with
             | Some key => read (getAgentRunByIdempotencyKey (d_id (t_definition i)) key)
             | None => mret None
             end;
  match existing with
  | Some run => mret (fired run false false)
  | None =>
      if negb (d_enabled (t_definition i)) then mret (invalid_definition "Automation is disabled")
      else
        invalid ← asks w_invalid;
        invalid ← or_throw invalid;
        match invalid with
        | Some message => mret (invalid_definition message)
        | None =>
            decision ← asks w_gate;
            decision ← or_throw decision;
            '(run, created) ← trigger_create i decision;
            if negb created || negb (bool_decide (r_state run = queued)) then mret (fired run created false)
            else
              _ ← catch (enqueueAgentRunPhase run report)
                    (fun e =>
                       if keepQueuedOnEnqueueFailure i then throw e
                       else
                         _ ← catch (_ ← transition (r_id run) [queued] failed (fail_patch ("Failed to enqueue the automation run on the job queue: " ++ e)); mret tt)
                               (fun _ => mret tt);
                         throw e);
              mret (fired run created true)
        end
  end.

(** ** The schedule sweep *)

Inductive ScheduleOutcome := o_created | o_existing | o_invalid | o_disabled | o_lost.

Section Sweep.
Variable toISOString : Z -> string.

Definition slot_key (slot : Z) : string := ("schedule:" ++ toISOString slot)%string.

Definition disableSchedule (d : StoredAgentDefinition) : M (option ScheduleOutcome) :=
  disabled ← write_now (disableAgentDefinitionSchedule (d_id d));
  mret (if disabled : bool then Some o_disabled else None).

(** The next occurrence after [now] and the latest due slot. *)
Definition due_slots (d : StoredAgentDefinition) (claimedSlot now : Z) : result (Z * Z) :=
  cron ← parseCronExpression (default ""%string (scheduleCron d));
  next ← following cron now;
  slot ← latestDueSlot cron claimedSlot now;
  mret (next, slot).

Definition claimDueSlot (d : StoredAgentDefinition) (now : Z) : M (Z + option ScheduleOutcome) :=
  let claimedSlot := default 0 (nextRunAt d) in
  match due_slots d claimedSlot now with
  | Throw _ => outcome ← disableSchedule d; mret (inr outcome)
  | Ok (next, slot) =>
      claimed ← write (claimAgentDefinitionScheduleSlot (d_id d) claimedSlot next slot);
      mret (match claimed with Some _ => inl slot | None => inr (Some o_lost) end)
  end.

(** Moves a receipt that is still queued to skipped. *)
Definition skipQueuedReceipt (run : StoredAgentRun) (reason : string) : M StoredAgentRun :=
  if negb (bool_decide (r_state run = queued)) then mret run
  else
    moved ← transition (r_id run) [queued] skipped (skip_patch reason);
    match moved with
    | Some run' => mret run'
    | None =>
        stored ← read (getAgentRunByIdempotencyKey (r_definitionId (origin run)) (default ""%string (r_idempotencyKey (origin run))));
        mret (default run stored)
    end.

Definition recordSkippedSlot (d : StoredAgentDefinition) (slot : Z) (reason : string) : M (StoredAgentRun * bool) :=
  '(run, created) ← createAgentRun (CreateInput d schedule (Some ("schedule:" ++ default "null" (scheduleCron d))%string) (Some (slot_key slot)) start_skipped (Some reason));
  run ← (if created : bool then mret run else skipQueuedReceipt run reason);
  mret (run, created).

(** The receipt of the slot, whether it may be queued without having been enqueued, and
    the outcome. *)
Definition skipSlot (d : StoredAgentDefinition) (slot : Z) (reason : string) : M (StoredAgentRun * bool * ScheduleOutcome) :=
  '(run, created) ← recordSkippedSlot d slot ("The scheduled run was skipped: " ++ reason);
  mret (run, false, if created : bool then o_invalid else o_existing).

Definition fire_slot (d : StoredAgentDefinition) (slot : Z) : M (StoredAgentRun * bool * ScheduleOutcome) :=
  if negb (d_enabled d) then skipSlot d slot "Agent is disabled"
  else
    fired_ ← triggerAgentRun (TriggerInput d schedule (Some ("schedule:" ++ default "null" (scheduleCron d))%string) (Some (slot_key slot)) true);
    match fired_ with
    | fired run created enqueued => mret (run, negb enqueued, if created : bool then o_created else o_existing)
    | invalid_definition message => skipSlot d slot message
    end.

(** Dispatches the receipt where it may still need it, and releases the slot. *)
Definition settle_slot (d : StoredAgentDefinition) (slot : Z) (run : StoredAgentRun) (redispatch : bool) (outcome : ScheduleOutcome) : M (option ScheduleOutcome) :=
  _ ← (if bool_decide (r_state run = queued) && redispatch then _ ← enqueueAgentRunPhase run report; mret tt else mret tt);
  _ ← write (releaseAgentDefinitionScheduleSlot (d_id d) slot);
  mret (Some outcome).

Definition owner_left : string := "The scheduled run was skipped: the owner is no longer an instance member".

Definition fireClaimedSlot (d : StoredAgentDefinition) (slot : Z) : M (option ScheduleOutcome) :=
  if negb (scheduleEnabled d) then
    '(run, redispatch, outcome) ← skipSlot d slot "the schedule was turned off";
    settle_slot d slot run redispatch outcome
  else
    member ← asks w_isMember;
    member ← or_throw member;
    if negb member then
      existing ← read (getAgentRunByIdempotencyKey (d_id d) (slot_key slot));
      _ ← match existing with Some run => _ ← skipQueuedReceipt run owner_left; mret tt | None => mret tt end;
      disableSchedule d
    else
      '(run, redispatch, outcome) ← fire_slot d slot;
      settle_slot d slot run redispatch outcome.

Definition fireDueDefinition (due : DueScheduledAgentDefinition) (now : Z) : M (option ScheduleOutcome) :=
  claim ← match pendingSlot due with Some slot => mret (inl slot) | None => claimDueSlot (due_definition due) now end;
  match claim with
  | inr outcome => mret outcome
  | inl slot =>
      admitted ← write_now (admitAgentDefinitionScheduleSlot (d_id (due_definition due)) slot);
      match admitted with None => mret (Some o_lost) | Some d => fireClaimedSlot d slot end
  end.

(** Each definition on its own: [Throw] where it failed. *)
Definition fire_each (now : Z) (due : DueScheduledAgentDefinition) : M (result (option ScheduleOutcome)) :=
  catch (outcome ← fireDueDefinition due now; mret (Ok outcome)) (fun e => mret (Throw e)).
Definition runAgentScheduleSweep (batchSize : nat) : M (list (result (option ScheduleOutcome))) :=
  now ← asks w_now;
  let size := Nat.max batchSize 1 in
  pending ← read (list_pending size);
  due ← read (listDueScheduledAgentDefinitions now size pending);
  each (fire_each now) due.
End Sweep.

(** ** Deferred runs *)

Inductive RetryOutcome := retry_queued | retry_deferred | retry_skipped | retry_failed.
Definition outcome_if (o : RetryOutcome) (r : option StoredAgentRun) : option RetryOutcome := match r with Some _ => Some o | None => None end.

Definition transition_deferred (id : string) (evaluated : Z) (to : AutomationRunState) (p : AgentRunTransitionPatch) : M (option StoredAgentRun) :=
  moved ← write_now (transitionDeferredAgentRun id evaluated to p);
  or_throw moved.

(** The run's live definition: [getAgentDefinition] of the owner. *)
Definition live_definition (run : StoredAgentRun) (s : agent_db) : option StoredAgentDefinition :=
  match definitions s !! r_definitionId (origin run) with
  | Some r => if bool_decide (d_ownerId (definition r) = r_ownerId (origin run)) then Some (definition r) else None
  | None => None
  end.

Definition retryDeferredRun (run : StoredAgentRun) : M (option RetryOutcome) :=
  let evaluated := default 0 (deferredUntil run) in
  live ← read (live_definition run);
  if negb (match live with Some d => d_enabled d | None => false end) then
    moved ← transition_deferred (r_id run) evaluated skipped
              (skip_patch "The agent was disabled or deleted while this run was deferred, so the run was skipped.");
    mret (outcome_if retry_skipped moved)
  else
    decision ← asks w_gate;
    decision ← or_throw decision;
    match decision with
    | gate_skip reason => moved ← transition_deferred (r_id run) evaluated skipped (skip_patch reason); mret (outcome_if retry_skipped moved)
    | gate_defer until reason => moved ← write_now (redeferAgentRun (r_id run) evaluated until reason); mret (outcome_if retry_deferred moved)
    | gate_proceed =>
        moved ← transition_deferred (r_id run) evaluated queued no_patch;
        match moved with
        | None => mret None
        | Some queued_run =>
            enqueued ← catch (_ ← enqueueAgentRunPhase queued_run report; mret None) (fun e => mret (Some e));
            match enqueued with
            | Some e =>
                _ ← transition (r_id run) [queued] failed (fail_patch ("Failed to enqueue the agent run on the job queue: " ++ e));
                mret (Some retry_failed)
            | None =>
                _ ← write_now (markRetriedAgentRunDispatched (r_id run) evaluated);
                mret (Some retry_queued)
            end
        end
    end.

Definition redispatchRetriedRun (run : StoredAgentRun) : M unit :=
  _ ← enqueueAgentRunPhase run report;
  _ ← write_now (markRetriedAgentRunDispatched (r_id run) (default 0 (deferredUntil run)));
  mret tt.

Definition retryDueDeferredAgentRuns (batchSize : Z) : M (list bool * list (result (option RetryOutcome))) :=
  undispatched ← read (listUndispatchedRetriedRuns batchSize);
  redispatched ← each (fun run => catch (_ ← redispatchRetriedRun run; mret true) (fun _ => mret false)) undispatched;
  now ← asks w_now;
  due ← read (listDueDeferredRuns now batchSize);
  outcomes ← each (fun run => catch (outcome ← retryDeferredRun run; mret (Ok outcome)) (fun e => mret (Throw e))) due;
  mret (redispatched, outcomes).

(** ** Stuck runs *)

Definition activeTaskId (run : StoredAgentRun) : option string :=
  match r_state run with running => reportTaskId run | acting => actionTaskId run | _ => None end.

Definition after_id (afterId : option string) (id : string) : bool := match afterId with Some a => negb (code_le id a) | None => true end.
Definition listAgentRunsInStates (states : list AutomationRunState) (limit : nat) (afterId : option string) (s : agent_db) : list StoredAgentRun :=
  list.take limit (sort_by (fun x y => code_le (r_id x) (r_id y))
    (filter (fun r => (r_state r ∈ states) /\ after_id afterId (r_id r) = true) (snd <$> map_to_list (agent_runs s)))).

(** The task ended at or before the cutoff. *)
Definition ended_by (cutoff : Z) (latest : gmap string (string * option Z)) (task : string) : bool :=
  match latest !! task with Some (state, Some at_) => bool_decide (state ∈ TERMINAL_TASK_STATES) && (at_ <=? cutoff) | _ => false end.

Definition fail_stuck (cutoff : Z) (latest : gmap string (string * option Z)) (run : StoredAgentRun) : M nat :=
  match activeTaskId run with
  | None => mret 0%nat
  | Some task =>
      if negb (ended_by cutoff latest task) then mret 0%nat
      else
        catch (moved ← transition (r_id run) [r_state run] failed (fail_patch AGENT_RUN_STUCK_FAILURE_REASON);
               mret (match moved with Some _ => 1 | None => 0 end)%nat)
          (fun _ => mret 0%nat)
  end.

Definition failStuckRuns (runs : list StoredAgentRun) (cutoff : Z) : M nat :=
  match runs with
  | [] => mret 0%nat
  | _ => latest ← read latest_history; failed_ ← each (fail_stuck cutoff latest) runs; mret (sum_list failed_)
  end.

(** Pages through every candidate; [None] where the fuel runs out. *)
Fixpoint recover_pages (fuel : nat) (cutoff : Z) (afterId : option string) : M (option nat) :=
  match fuel with
  | O => mret None
  | S fuel =>
      page ← read (listAgentRunsInStates [running; acting] STUCK_RUN_BATCH_SIZE afterId);
      n ← failStuckRuns (filter (fun r => activeTaskId r <> None) page) cutoff;
      if (length page <? STUCK_RUN_BATCH_SIZE)%nat then mret (Some n)
      else
        rest ← recover_pages fuel cutoff (r_id <$> last page);
        mret ((fun k => n + k)%nat <$> rest)
  end.
Definition recoverStuckAgentRuns (fuel : nat) : M (option nat) :=
  now ← asks w_now;
  recover_pages fuel (now - AGENT_RUN_STUCK_GRACE_MS) None.

(** ** The state machine of runs, proved

    Every write of every operation, under any interference, keeps each run's identity and
    moves its state along [AGENT_RUN_TRANSITIONS]. *)

(** ** Moves of one run *)

Definition run_follows (r r' : StoredAgentRun) : Prop :=
  r_id r' = r_id r /\ origin r' = origin r /\ (r_state r' = r_state r \/ r_state r' ∈ AGENT_RUN_TRANSITIONS (r_state r)).

Definition runs_follow (s s' : agents) : Prop :=
  forall id r, agent_runs (adb s) !! id = Some r -> exists r', agent_runs (adb s') !! id = Some r' /\ run_follows r r'.

Lemma run_follows_refl r : run_follows r r.
Proof. split_and!; [done|done|by left]. Qed.

Lemma follow_same s s' : agent_runs (adb s') = agent_runs (adb s) -> runs_follow s s'.
Proof. intros H id r Hr. exists r. rewrite H. split; [done|apply run_follows_refl]. Qed.

Lemma follow_update id g f s :
  (forall r, g r = true -> run_follows r (f r)) -> runs_follow s (set_adb (snd (update_run id g f (adb s))) s).
Proof.
  intros Hf. unfold update_run. destruct (agent_runs (adb s) !! id) as [x|] eqn:Ex; [|by apply follow_same].
  destruct (g x) eqn:Eg; [|by apply follow_same]. intros id' r Hr. simpl. destruct (decide (id = id')) as [<-|].
  - rewrite lookup_insert_eq. simplify_eq. eexists. split; [done|by apply Hf].
  - rewrite lookup_insert_ne by done. exists r. split; [done|apply run_follows_refl].
Qed.

Lemma transition_allowed from to p r : transition_checks from to p = None -> r_state r ∈ from -> to ∈ AGENT_RUN_TRANSITIONS (r_state r).
Proof.
  unfold transition_checks. case_bool_decide; [done|]. destruct (forallb _ from) eqn:E; simpl; [|done]. intros _ Hin.
  assert (Hall := proj1 (forallb_forall _ _) E (r_state r) (proj1 (list_elem_of_In _ _) Hin)). by apply bool_decide_eq_true in Hall.
Qed.

Lemma follow_transition id from to p now g s : runs_follow s (set_adb (snd (applyAgentRunTransition id from to p now g (adb s))) s).
Proof.
  unfold applyAgentRunTransition. destruct (transition_checks from to p) eqn:E; [by apply follow_same|].
  pose proof (follow_update id (fun r => g r && bool_decide (r_state r ∈ from)) (moved to p now) s) as H.
  destruct (update_run _ _ _ _) as [a d]. apply H. intros r Hg. apply andb_prop in Hg as [_ Hin]. apply bool_decide_eq_true in Hin.
  split_and!; [done|done|]. right. by eapply transition_allowed.
Qed.

Lemma follow_insert i id now s : runs_follow s (set_adb (snd (insert_run i id now (adb s))) s).
Proof.
  unfold insert_run. destruct (c_idempotencyKey i ≫= _); [by apply follow_same|].
  destruct (agent_runs (adb s) !! id) eqn:E; [by apply follow_same|]. intros id' r Hr. exists r. simpl.
  rewrite lookup_insert_ne by congruence. split; [done|apply run_follows_refl].
Qed.

Lemma unclaimed_acting r : unclaimed_action r = true -> r_state r = acting.
Proof. unfold unclaimed_action. intros [H _]%andb_prop. by apply bool_decide_eq_true in H. Qed.

Lemma follow_claim id t now s : runs_follow s (set_adb (snd (claimAgentRunAction id t now (adb s))) s).
Proof. apply follow_update. intros r _. split_and!; [done|done|by left]. Qed.
Lemma follow_fail_unclaimed id t now s : runs_follow s (set_adb (snd (failUnclaimedAgentRunAction id t now (adb s))) s).
Proof. apply follow_update. intros r Hg. apply unclaimed_acting in Hg. split_and!; [done|done|]. right. simpl. rewrite Hg. set_solver. Qed.
Lemma follow_pause id t now s : runs_follow s (set_adb (snd (pauseUnclaimedAgentRunAction id t now (adb s))) s).
Proof. apply follow_update. intros r [Hg _]%andb_prop. apply unclaimed_acting in Hg. split_and!; [done|done|]. right. simpl. rewrite Hg. set_solver. Qed.
Lemma follow_redefer id e u t now s : runs_follow s (set_adb (snd (redeferAgentRun id e u t now (adb s))) s).
Proof. apply follow_update. intros r _. split_and!; [done|done|by left]. Qed.
Lemma follow_mark id a now s : runs_follow s (set_adb (snd (markRetriedAgentRunDispatched id a now (adb s))) s).
Proof. apply follow_update. intros r _. split_and!; [done|done|by left]. Qed.

Lemma follow_definition id g f s : runs_follow s (set_adb (snd (update_definition id g f (adb s))) s).
Proof. apply follow_same. unfold update_definition. destruct (definitions (adb s) !! id); [|done]. by case_match. Qed.
Lemma follow_disable id now s : runs_follow s (set_adb (snd (disableAgentDefinitionSchedule id now (adb s))) s).
Proof. apply follow_same. unfold disableAgentDefinitionSchedule. by destruct (definitions (adb s) !! id). Qed.

(** ** Programs *)

Lemma follow_read {A} (f : agent_db -> A) : steps runs_follow (read f).
Proof. apply steps_call. intros s. by apply follow_same. Qed.
Lemma follow_asks {A} (f : AgentAnswers -> A) : steps runs_follow (asks f).
Proof. apply steps_call. intros s. by apply follow_same. Qed.
Lemma follow_write {A} (f : agent_db -> A * agent_db) : (forall s, runs_follow s (set_adb (snd (f (adb s))) s)) -> steps runs_follow (write f).
Proof. intros H. apply steps_call. intros s. specialize (H s). by destruct (f (adb s)). Qed.
Lemma follow_write_now {A} (f : Z -> agent_db -> A * agent_db) :
  (forall now s, runs_follow s (set_adb (snd (f now (adb s))) s)) -> steps runs_follow (write_now f).
Proof. intros H. apply steps_bind; [apply follow_asks|]. intros now. by apply follow_write. Qed.
Lemma follow_or_throw {A} (r : result A) : steps runs_follow (or_throw r : M A).
Proof. destruct r; [apply steps_ret|apply steps_throw]. Qed.

Create HintDb follows.
#[export] Hint Resolve follow_read follow_asks follow_or_throw steps_ret steps_throw : follows.
#[export] Hint Resolve follow_transition follow_insert follow_claim follow_fail_unclaimed follow_pause follow_redefer follow_mark
  follow_definition follow_disable : follows.

Ltac follows :=
  repeat first
    [ solve [auto with follows]
    | apply steps_bind; [|intros ?]
    | apply steps_catch; [|intros ?]
    | apply steps_each; intros ?
    | apply follow_write; intros ?
    | apply follow_write_now; intros ? ?
    | progress cbv beta iota zeta
    | case_match ].

Lemma follow_enqueue r ph : steps runs_follow (enqueueAgentRunPhase r ph).
Proof.
  unfold enqueueAgentRunPhase. apply steps_bind; [|intros; follows]. apply steps_call. intros s. apply follow_same. simpl.
  by destruct (w_queue (answers s)).
Qed.
Lemma follow_create i : steps runs_follow (createAgentRun i).
Proof. unfold createAgentRun. follows. Qed.
Lemma follow_move id from to p : steps runs_follow (transition id from to p).
Proof. unfold transition, transitionAgentRun. follows. Qed.
Lemma follow_move_deferred id e to p : steps runs_follow (transition_deferred id e to p).
Proof. unfold transition_deferred, transitionDeferredAgentRun. follows. Qed.
#[export] Hint Resolve follow_enqueue follow_create follow_move follow_move_deferred : follows.

Lemma follow_trigger i : steps runs_follow (triggerAgentRun i).
Proof. unfold triggerAgentRun, trigger_create. follows. Qed.
#[export] Hint Resolve follow_trigger : follows.

Section Sweep.
Variable toISOString : Z -> string.

Lemma follow_skip d slot reason : steps runs_follow (skipSlot toISOString d slot reason).
Proof. unfold skipSlot, recordSkippedSlot, skipQueuedReceipt. follows. Qed.
Lemma follow_sweep n : steps runs_follow (runAgentScheduleSweep toISOString n).
Proof.
  unfold runAgentScheduleSweep, fire_each, fireDueDefinition, fireClaimedSlot, fire_slot, claimDueSlot, disableSchedule, settle_slot,
    admitAgentDefinitionScheduleSlot, claimAgentDefinitionScheduleSlot, releaseAgentDefinitionScheduleSlot, skipQueuedReceipt.
  pose proof follow_skip. follows.
Qed.
Lemma follow_retry n : steps runs_follow (retryDueDeferredAgentRuns n).
Proof. unfold retryDueDeferredAgentRuns, redispatchRetriedRun, retryDeferredRun. follows. Qed.
Lemma follow_recover fuel : steps runs_follow (recoverStuckAgentRuns fuel).
Proof.
  unfold recoverStuckAgentRuns. apply steps_bind; [follows|]. intros now. generalize (@None string) as after. revert now.
  induction fuel as [|fuel IH]; intros now after; cbn [recover_pages]; unfold failStuckRuns, fail_stuck; [follows|].
  apply steps_bind; [follows|]. intros page. apply steps_bind; [follows|]. intros n. case_match; [follows|].
  apply steps_bind; [apply IH|]. intros rest. apply steps_ret.
Qed.

(** Everything that writes [agent_runs]. *)
Inductive operation :=
  | op_trigger (i : TriggerAgentRunInput)
  | op_schedule_sweep (batchSize : nat)
  | op_deferred_retry (batchSize : Z)
  | op_stuck_recovery (fuel : nat)
  | op_transition (id : string) (from : list AutomationRunState) (to : AutomationRunState) (p : AgentRunTransitionPatch)
  | op_claim_action (id task : string)
  | op_fail_unclaimed (id reason : string)
  | op_pause_unclaimed (id reason : string).
Definition perform (o : operation) : M unit :=
  match o with
  | op_trigger i => _ ← triggerAgentRun i; mret tt
  | op_schedule_sweep n => _ ← runAgentScheduleSweep toISOString n; mret tt
  | op_deferred_retry n => _ ← retryDueDeferredAgentRuns n; mret tt
  | op_stuck_recovery fuel => _ ← recoverStuckAgentRuns fuel; mret tt
  | op_transition id from to p => _ ← transition id from to p; mret tt
  | op_claim_action id task => _ ← write_now (claimAgentRunAction id task); mret tt
  | op_fail_unclaimed id reason => _ ← write_now (failUnclaimedAgentRunAction id reason); mret tt
  | op_pause_unclaimed id reason => _ ← write_now (pauseUnclaimedAgentRunAction id reason); mret tt
  end.

(** Runs follow their state machine: under any interference, every write of every
    operation on agent runs leaves each stored run in place with its owner, definition, key
    and snapshot, and either keeps its state or moves it along [AGENT_RUN_TRANSITIONS]; in
    particular a finished run never changes state again. *)
Theorem runs_follow_state_machine o :
  steps (fun s s' => forall id r, agent_runs (adb s) !! id = Some r ->
    exists r', agent_runs (adb s') !! id = Some r' /\ origin r' = origin r
      /\ (r_state r' = r_state r \/ r_state r' ∈ AGENT_RUN_TRANSITIONS (r_state r))
      /\ (isTerminalAutomationRunState (r_state r) = true -> r_state r' = r_state r)) (perform o).
Proof.
  assert (H : steps runs_follow (perform o)).
  { pose proof follow_sweep. pose proof follow_retry. pose proof follow_recover. destruct o; unfold perform; follows. }
  intros w. destruct (H w) as (l & Hl & HP). exists l. split; [done|]. eapply Forall_impl; [exact HP|].
  intros ss Hss id r Hr. destruct (Hss id r Hr) as (r' & Hr' & _ & Ho & Hs). exists r'. split_and!; [done|done|done|].
  intros Ht. destruct Hs as [|Hin]; [done|]. exfalso. apply bool_decide_eq_true in Ht. destruct (r_state r); simpl in Hin; set_solver.
Qed.
End Sweep.
