(* ===== verification/AgentStranded.v ===== *)
(** * Agent schedules: a claimed slot is never lost

    A schedule sweep may stop between any two statements (its process dies, the queue or
    the database refuses). The slot it claimed stays recorded on the definition until its
    receipt is dispatched or will never need to be: so no scheduled run is left queued with
    neither a job nor a pending slot that brings the next sweep back to it. *)

From S2P Require Import Prelude JsString Cron ScheduleSlot Interleave AgentRuns AgentSchedule.

Open Scope Z_scope.
Open Scope list_scope.

Definition pending_of (id : string) (s : agents) : option Z := definitions (adb s) !! id ≫= pending_schedule_slot.

(** Queued by a schedule, with no job and not waiting for a retry. *)
Definition stranded (s : agents) (r : StoredAgentRun) : Prop :=
  r_trigger (origin r) = schedule /\ r_state r = queued /\ deferredUntil r = None /\ agentRunJobId (r_id r) report ∉ accepted s.

Section Stranded.
Variable toISOString : Z -> string.
Abbreviation slot_key := (slot_key toISOString).

(** The receipt of slot [S] of definition [d]. *)
Definition receipt_of (d : string) (S : Z) (r : StoredAgentRun) : Prop :=
  r_definitionId (origin r) = d /\ r_idempotencyKey (origin r) = Some (slot_key S).

(** The keys of the tables hold, and a stranded run is the receipt of the slot its
    definition still has pending. *)
Record covered (s : agents) : Prop := {
  runs_keyed id r : agent_runs (adb s) !! id = Some r -> r_id r = id;
  definitions_keyed id row : definitions (adb s) !! id = Some row -> d_id (definition row) = id;
  receipts_unique id1 id2 r1 r2 key : agent_runs (adb s) !! id1 = Some r1 -> agent_runs (adb s) !! id2 = Some r2 ->
    r_definitionId (origin r1) = r_definitionId (origin r2) -> r_idempotencyKey (origin r1) = Some key ->
    r_idempotencyKey (origin r2) = Some key -> id1 = id2;
  stranded_pending id r : agent_runs (adb s) !! id = Some r -> stranded s r ->
    exists S, pending_of (r_definitionId (origin r)) s = Some S /\ receipt_of (r_definitionId (origin r)) S r;
}.

(** What the other processes may do to schedules during a sweep: no pending slot changes
    and no scheduled run appears or becomes stranded. *)
Definition quiet (s s' : agents) : Prop :=
  (forall id, pending_of id s' = pending_of id s)
  /\ forall id r', agent_runs (adb s') !! id = Some r' -> r_trigger (origin r') = schedule ->
       exists r, agent_runs (adb s) !! id = Some r /\ r_id r' = r_id r /\ origin r' = origin r /\ (stranded s' r' -> stranded s r).
Definition respectful (g : agents -> agents) : Prop := forall s, covered s -> covered (g s) /\ quiet s (g s).

Lemma undisturbed_quiet s : quiet s s.
Proof. split; [done|]. intros id r Hr _. by exists r. Qed.

(** ** Rules *)

Definition stable (A : agents -> Prop) : Prop := forall s s', covered s -> covered s' -> quiet s s' -> A s -> A s'.

(** Every own step leaves a covered store; [F] holds when the program throws. *)
Definition hoare (F A : agents -> Prop) {T} (m : M T) (Q : T -> agents -> Prop) : Prop :=
  etriple respectful (fun _ s' => covered s') (fun s => covered s /\ A s) m (fun a s => covered s /\ Q a s) (fun _ s => covered s /\ F s).

Lemma h_ret F (A : agents -> Prop) {T} (a : T) (Q : T -> agents -> Prop) : (forall s, A s -> Q a s) -> hoare F A (mret a) Q.
Proof. intros H. apply etriple_ret. intros s [? ?]. split; auto. Qed.
Lemma h_throw (F A : agents -> Prop) {T} e (Q : T -> agents -> Prop) : (forall s, A s -> F s) -> hoare F A (throw e) Q.
Proof. intros H. apply etriple_throw. intros s [? ?]. split; auto. Qed.
Lemma h_bind F A {T U} (m : M T) (f : T -> M U) Q R : hoare F A m Q -> (forall a, hoare F (Q a) (f a) R) -> hoare F A (m ≫= f) R.
Proof. intros H1 H2. by eapply etriple_bind. Qed.
Lemma h_catch F F' A {T} (m : M T) h Q : hoare F A m Q -> (forall e, hoare F' F (h e) Q) -> hoare F' A (catch m h) Q.
Proof. intros H1 H2. by eapply etriple_catch. Qed.
Lemma h_call F A {T} (f : agents -> T * agents) (Q : T -> agents -> Prop) :
  stable A -> (forall s, covered s -> A s -> covered (snd (f s)) /\ Q (fst (f s)) (snd (f s))) -> hoare F A (call f) Q.
Proof.
  intros HA Hf. apply etriple_call.
  - intros g s Hg [Hc Hs]. destruct (Hg s Hc) as [Hc' Hq]. split; [done|]. exact (HA s (g s) Hc Hc' Hq Hs).
  - intros s [Hc Hs]. destruct (Hf s Hc Hs) as [H1 H2]. done.
Qed.
Lemma h_weaken F A' (A : agents -> Prop) {T} (m : M T) (Q' Q : T -> agents -> Prop) :
  (forall s, A s -> A' s) -> (forall a s, Q' a s -> Q a s) -> hoare F A' m Q' -> hoare F A m Q.
Proof. intros HA HQ. apply etriple_weaken; [|naive_solver|done]. intros s [? ?]. split; auto. Qed.
Lemma h_pure F (phi : Prop) (A : agents -> Prop) {T} (m : M T) Q : (phi -> hoare F A m Q) -> hoare F (fun s => phi /\ A s) m Q.
Proof. intros H w Hg (Hc & Hphi & HA). by apply (H Hphi w Hg). Qed.
Lemma h_read F A {T} (f : agent_db -> T) (Q : T -> agents -> Prop) :
  stable A -> (forall s, covered s -> A s -> Q (f (adb s)) s) -> hoare F A (read f) Q.
Proof. intros HA H. apply h_call; [done|]. intros s Hc Hs. split; [done|]. by apply H. Qed.
Lemma h_asks F A {T} (f : AgentAnswers -> T) : stable A -> hoare F A (asks f) (fun _ s => A s).
Proof. intros HA. apply h_call; [done|]. by intros s Hc Hs. Qed.
Lemma h_or_throw (F A : agents -> Prop) {T} (r : result T) : (forall s, A s -> F s) -> hoare F A (or_throw r) (fun _ s => A s).
Proof. intros H. destruct r; [by apply h_ret|by apply h_throw]. Qed.
Lemma h_write F A {T} (f : agent_db -> T * agent_db) (Q : T -> agents -> Prop) :
  stable A -> (forall s, covered s -> A s -> covered (set_adb (snd (f (adb s))) s) /\ Q (fst (f (adb s))) (set_adb (snd (f (adb s))) s)) ->
  hoare F A (write f) Q.
Proof. intros HA H. apply h_call; [done|]. intros s Hc Hs. specialize (H s Hc Hs). by destruct (f (adb s)). Qed.
Lemma h_write_now F A {T} (f : Z -> agent_db -> T * agent_db) (Q : T -> agents -> Prop) :
  stable A -> (forall now s, covered s -> A s -> covered (set_adb (snd (f now (adb s))) s) /\ Q (fst (f now (adb s))) (set_adb (snd (f now (adb s))) s)) ->
  hoare F A (write_now f) Q.
Proof. intros HA H. eapply h_bind; [by apply h_asks|]. intros now. apply h_write; auto. Qed.

(** ** Statements *)

Lemma set_adb_same s : set_adb (adb s) s = s.
Proof. by destruct s. Qed.

(** An update that keeps the identity and strands nothing. *)
Lemma covered_update id g f s :
  (forall r, r_id (f r) = r_id r /\ origin (f r) = origin r) -> (forall r, g r = true -> r_state (f r) <> queued) -> covered s ->
  covered (set_adb (snd (update_run id g f (adb s))) s) /\ quiet s (set_adb (snd (update_run id g f (adb s))) s).
Proof.
  intros Hid Hst Hc. unfold update_run. destruct (agent_runs (adb s) !! id) as [x|] eqn:Ex; [|simpl; rewrite set_adb_same; split; [done|apply undisturbed_quiet]].
  destruct (g x) eqn:Eg; [|simpl; rewrite set_adb_same; split; [done|apply undisturbed_quiet]].
  assert (Hback : forall i r', <[id := f x]> (agent_runs (adb s)) !! i = Some r' ->
    exists r, agent_runs (adb s) !! i = Some r /\ r_id r' = r_id r /\ origin r' = origin r /\ (r_state r' = queued -> r' = r)).
  { intros i r'. destruct (decide (id = i)) as [<-|]; [rewrite lookup_insert_eq|rewrite lookup_insert_ne by done; by eauto].
    intros [= <-]. exists x. destruct (Hid x) as [-> ->]. split_and!; [done..|]. intros H. by destruct (Hst x Eg). }
  split; [|split; [done|]].
  - constructor; simpl.
    + intros i r' Hr. destruct (Hback i r' Hr) as (r & Hr0 & -> & _). by apply (runs_keyed s Hc).
    + apply (definitions_keyed s Hc).
    + intros i1 i2 r1 r2 key H1 H2. destruct (Hback i1 r1 H1) as (r1' & H1' & _ & -> & _).
      destruct (Hback i2 r2 H2) as (r2' & H2' & _ & -> & _). by apply (receipts_unique s Hc).
    + intros i r' Hr Hs. destruct (Hback i r' Hr) as (r & Hr0 & _ & Ho & Hq). destruct Hs as (H1 & H2 & H3 & H4).
      specialize (Hq H2) as ->.
      apply (stranded_pending s Hc i r Hr0). by split_and!.
  - intros i r' Hr _. destruct (Hback i r' Hr) as (r & Hr0 & Hi & Ho & Hq). exists r. split_and!; [done..|].
    intros (H1 & H2 & H3 & H4).
    specialize (Hq H2) as ->. by split_and!.
Qed.

(** The queue took the run's report job. *)
Lemma covered_accept job s : covered s ->
  covered (Agents (adb s) ({[job]} ∪ accepted s) (answers s)) /\ quiet s (Agents (adb s) ({[job]} ∪ accepted s) (answers s)).
Proof.
  intros Hc. assert (Hst : forall r, stranded (Agents (adb s) ({[job]} ∪ accepted s) (answers s)) r -> stranded s r).
  { intros r (H1 & H2 & H3 & H4). split_and!; [done..|]. simpl in H4. set_solver. }
  split; [|split; [done|]].
  - constructor; simpl; [apply (runs_keyed s Hc)|apply (definitions_keyed s Hc)|apply (receipts_unique s Hc)|].
    intros i r Hr Hs. by apply (stranded_pending s Hc i r); [|apply Hst].
  - intros i r Hr _. exists r. auto.
Qed.

Lemma pending_update id g f s i : 
  pending_of i (set_adb (snd (update_definition id g f (adb s))) s)
  = match definitions (adb s) !! id with
    | Some r => if bool_decide (i = id) && g r then pending_schedule_slot (f r) else pending_of i s
    | None => pending_of i s
    end.
Proof.
  unfold pending_of, update_definition. destruct (definitions (adb s) !! id) as [r|] eqn:E; [|done].
  destruct (g r); [|by rewrite andb_false_r]. simpl. destruct (decide (i = id)) as [->|].
  - by rewrite lookup_insert_eq, bool_decide_eq_true_2.
  - by rewrite lookup_insert_ne, bool_decide_eq_false_2.
Qed.

Definition elsewhere (d : string) (s s' : agents) : Prop := forall i, i <> d -> pending_of i s' = pending_of i s.
Definition unstranded (d : string) (s : agents) : Prop :=
  forall i r, agent_runs (adb s) !! i = Some r -> stranded s r -> r_definitionId (origin r) <> d.
Definition settled (d : string) (S : Z) (s : agents) : Prop :=
  forall i r, agent_runs (adb s) !! i = Some r -> receipt_of d S r -> ~ stranded s r.

Lemma unstranded_idle d s : covered s -> pending_of d s = None -> unstranded d s.
Proof. intros Hc Hp i r Hr Hs <-. destruct (stranded_pending s Hc i r Hr Hs) as (S & HS & _). congruence. Qed.
Lemma unstranded_settled d S s : covered s -> pending_of d s = Some S -> settled d S s -> unstranded d s.
Proof.
  intros Hc Hp Hset i r Hr Hs <-. destruct (stranded_pending s Hc i r Hr Hs) as (S' & HS & Hrec).
  assert (S' = S) as -> by congruence. by apply (Hset i r).
Qed.

(** A statement on one definition's schedule columns. *)
Lemma covered_definition d (d' : agent_db) s : covered s -> agent_runs d' = agent_runs (adb s) ->
  (forall id row, definitions d' !! id = Some row -> d_id (definition row) = id) -> elsewhere d s (set_adb d' s) ->
  pending_of d (set_adb d' s) = pending_of d s \/ unstranded d s -> covered (set_adb d' s).
Proof.
  intros Hc Hruns Hkeys Helse Hown. constructor; simpl; rewrite ?Hruns.
  - apply (runs_keyed s Hc).
  - exact Hkeys.
  - apply (receipts_unique s Hc).
  - intros i r Hr Hs. destruct (stranded_pending s Hc i r Hr Hs) as (S & HS & Hrec). exists S. split; [|done].
    destruct (decide (r_definitionId (origin r) = d)) as [E|E]; [|by rewrite Helse].
    destruct Hown as [Hown|Hun]; [by rewrite E, Hown, <- E|]. by destruct (Hun i r Hr Hs).
Qed.

Lemma update_definition_shape d g f s :
  (forall r, d_id (definition (f r)) = d_id (definition r)) -> covered s ->
  let d' := snd (update_definition d g f (adb s)) in
  agent_runs d' = agent_runs (adb s) /\ (forall id row, definitions d' !! id = Some row -> d_id (definition row) = id)
  /\ elsewhere d s (set_adb d' s).
Proof.
  intros Hf Hc. simpl. split_and!.
  - unfold update_definition. destruct (definitions (adb s) !! d); [|done]. by case_match.
  - unfold update_definition. intros id row. destruct (definitions (adb s) !! d) as [r|] eqn:E; [|apply (definitions_keyed s Hc)].
    destruct (g r); [|apply (definitions_keyed s Hc)]. simpl. destruct (decide (d = id)) as [<-|].
    + rewrite lookup_insert_eq. intros [= <-]. rewrite Hf. by apply (definitions_keyed s Hc).
    + rewrite lookup_insert_ne by done. apply (definitions_keyed s Hc).
  - intros i Hi. rewrite pending_update. case_match; [|done]. by rewrite bool_decide_eq_false_2.
Qed.

Lemma pending_is_of d slot s r : definitions (adb s) !! d = Some r -> pending_is slot r = bool_decide (pending_of d s = Some slot).
Proof. intros Hr. unfold pending_is, pending_of. by rewrite Hr. Qed.

Lemma covered_admit d slot now s : covered s ->
  let s' := set_adb (snd (admitAgentDefinitionScheduleSlot d slot now (adb s))) s in
  covered s' /\ (forall i, pending_of i s' = pending_of i s)
  /\ (forall a, fst (admitAgentDefinitionScheduleSlot d slot now (adb s)) = Some a -> d_id a = d /\ pending_of d s = Some slot).
Proof.
  intros Hc. unfold admitAgentDefinitionScheduleSlot. simpl.
  destruct (update_definition_shape d (pending_is slot) (fun r => DRow (definition r) (pending_schedule_slot r) (Some now)) s (fun _ => eq_refl) Hc)
    as (Hr & Hk & He).
  assert (Hp : forall i, pending_of i (set_adb (snd (update_definition d (pending_is slot) (fun r => DRow (definition r) (pending_schedule_slot r) (Some now)) (adb s))) s) = pending_of i s).
  { intros i. rewrite pending_update. destruct (definitions (adb s) !! d) as [r|] eqn:E; [|done]. case_bool_decide; [subst|done].
    simpl. case_match; [|done]. unfold pending_of. by rewrite E. }
  split_and!; [by eapply covered_definition; eauto|exact Hp|]. intros a. unfold update_definition.
  destruct (definitions (adb s) !! d) as [r|] eqn:E; [|done]. rewrite (pending_is_of d slot s r E). case_bool_decide; [|done].
  intros [= <-]. simpl. split; [by apply (definitions_keyed s Hc)|done].
Qed.

Lemma covered_release d slot s : covered s -> settled d slot s ->
  let s' := set_adb (snd (releaseAgentDefinitionScheduleSlot d slot (adb s))) s in covered s' /\ elsewhere d s s'.
Proof.
  intros Hc Hset. unfold releaseAgentDefinitionScheduleSlot. simpl.
  destruct (update_definition_shape d (pending_is slot) (fun r => DRow (definition r) None None) s (fun _ => eq_refl) Hc) as (Hr & Hk & He).
  split; [|exact He]. eapply covered_definition; [done..|]. rewrite pending_update.
  destruct (definitions (adb s) !! d) as [r|] eqn:E; [|by left]. rewrite (pending_is_of d slot s r E), bool_decide_eq_true_2 by done.
  case_bool_decide; [right|by left]. by eapply unstranded_settled.
Qed.

Lemma covered_claim d claimed next slot s : covered s ->
  let s' := set_adb (snd (claimAgentDefinitionScheduleSlot d claimed next slot (adb s))) s in
  covered s' /\ elsewhere d s s'
  /\ (forall a, fst (claimAgentDefinitionScheduleSlot d claimed next slot (adb s)) = Some a -> pending_of d s' = Some slot).
Proof.
  intros Hc. unfold claimAgentDefinitionScheduleSlot. simpl.
  match goal with |- context [update_definition d ?g ?f] => set (guard := g); set (upd := f) end.
  destruct (update_definition_shape d guard upd s (fun _ => eq_refl) Hc) as (Hr & Hk & He).
  pose proof (pending_update d guard upd s d) as Hp. rewrite (bool_decide_eq_true_2 (d = d)) in Hp by done. simpl in Hp.
  split_and!; [|exact He|].
  - eapply covered_definition; [done..|]. rewrite Hp. destruct (definitions (adb s) !! d) as [r|] eqn:E; [|by left].
    destruct (guard r) eqn:Eg; [right|by left]. apply unstranded_idle; [done|]. unfold guard in Eg. apply andb_prop in Eg as [_ Eg].
    unfold pending_of. rewrite E. simpl. unfold has_pending in Eg. by case_bool_decide.
  - intros a. rewrite Hp. unfold update_definition. destruct (definitions (adb s) !! d) as [r|]; [|done]. by destruct (guard r).
Qed.

Lemma covered_disable d now s : covered s -> unstranded d s ->
  let s' := set_adb (snd (disableAgentDefinitionSchedule d now (adb s))) s in covered s' /\ elsewhere d s s'.
Proof.
  intros Hc Hun. simpl. unfold disableAgentDefinitionSchedule. destruct (definitions (adb s) !! d) as [r|] eqn:E; [|simpl; by rewrite set_adb_same].
  match goal with |- context [<[d := ?x]>] => set (r' := x) end. simpl.
  assert (He : elsewhere d s (set_adb (with_definitions <[d := r']> (adb s)) s)).
  { intros i Hi. unfold pending_of. simpl. by rewrite lookup_insert_ne. }
  split; [|exact He]. eapply covered_definition; [done..| |exact He|by right]. intros id row. simpl. destruct (decide (d = id)) as [<-|].
  - rewrite lookup_insert_eq. intros [= <-]. pose proof (definitions_keyed s Hc d r E). unfold r'. by destruct (has_pending r), (scheduleEnabled (definition r)).
  - rewrite lookup_insert_ne by done. apply (definitions_keyed s Hc).
Qed.

(** ** One claimed slot

    [F] is what holds of the other definitions' slots throughout. *)
Section Slot.
Variable d : string.
Variable F : agents -> Prop.
Hypothesis F_elsewhere : forall s s', elsewhere d s s' -> F s -> F s'.
Variable S : Z.

Definition own (s : agents) : Prop := pending_of d s = Some S /\ F s.
(** [run] is the slot's receipt, and where it was not queued the slot is settled. *)
Definition found (run : StoredAgentRun) (s : agents) : Prop :=
  (forall i r, agent_runs (adb s) !! i = Some r -> r_trigger (origin r) = schedule -> receipt_of d S r -> i = r_id run)
  /\ (r_state run <> queued -> settled d S s).
Definition held (run : StoredAgentRun) (s : agents) : Prop := own s /\ found run s.
Definition done_with (s : agents) : Prop := own s /\ settled d S s.

Lemma F_quiet s s' : quiet s s' -> F s -> F s'.
Proof. intros [Hp _]. apply F_elsewhere. intros i _. apply Hp. Qed.
Lemma own_quiet s s' : quiet s s' -> own s -> own s'.
Proof. intros Hq [H1 H2]. split; [by rewrite (proj1 Hq)|by eapply F_quiet]. Qed.
Lemma settled_quiet s s' : quiet s s' -> settled d S s -> settled d S s'.
Proof.
  intros [_ Hq] Hs i r' Hr Hrec Hst. destruct (Hq i r' Hr (proj1 Hst)) as (r & Hr0 & _ & Ho & Himp).
  unfold receipt_of in Hrec. rewrite Ho in Hrec. by apply (Hs i r Hr0 Hrec), Himp.
Qed.
Lemma found_quiet run s s' : quiet s s' -> found run s -> found run s'.
Proof.
  intros Hq [H1 H2]. split; [|intros H; eapply settled_quiet; eauto]. intros i r' Hr Ht Hrec.
  destruct (proj2 Hq i r' Hr Ht) as (r & Hr0 & _ & Ho & _). unfold receipt_of in Hrec. rewrite Ho in Ht, Hrec. by eapply H1.
Qed.

Lemma stable_F : stable F.
Proof. intros s s' _ _ Hq. by apply F_quiet. Qed.
Lemma stable_own : stable own.
Proof. intros s s' _ _ Hq. by apply own_quiet. Qed.
Lemma stable_held run : stable (held run).
Proof. intros s s' _ _ Hq [H1 H2]. split; [by eapply own_quiet|by eapply found_quiet]. Qed.
Lemma stable_done : stable done_with.
Proof. intros s s' _ _ Hq [H1 H2]. split; [by eapply own_quiet|by eapply settled_quiet]. Qed.

(** The run stored under the slot's key is its receipt. *)
Lemma found_stored run s : covered s -> getAgentRunByIdempotencyKey d (slot_key S) (adb s) = Some run -> found run s.
Proof.
  intros Hc Hf. unfold getAgentRunByIdempotencyKey in Hf. apply fmap_Some in Hf as ([i run'] & Hf & ->). simpl.
  apply find_some in Hf as [Hin Hk]. apply list_elem_of_In, elem_of_map_to_list in Hin. simpl in Hk.
  unfold same_key in Hk. apply andb_prop in Hk as [Hd%bool_decide_eq_true Hk%bool_decide_eq_true].
  assert (Hi : forall j r, agent_runs (adb s) !! j = Some r -> receipt_of d S r -> j = i).
  { intros j r Hr [Hrd Hrk]. eapply (receipts_unique s Hc); [exact Hr|exact Hin|congruence|exact Hrk|exact Hk]. }
  split.
  - intros j r Hr _ Hrec. rewrite (runs_keyed s Hc i run' Hin). by eapply Hi.
  - intros Hst j r Hr Hrec (_ & Hq & _). rewrite (Hi j r Hr Hrec) in Hr. congruence.
Qed.
Lemma fresh_receipt s : getAgentRunByIdempotencyKey d (slot_key S) (adb s) = None -> forall i r, agent_runs (adb s) !! i = Some r -> ~ receipt_of d S r.
Proof.
  intros Hf. unfold getAgentRunByIdempotencyKey in Hf. apply fmap_None in Hf. intros i r Hr [Hd Hk].
  assert (H := find_none _ _ Hf (i, r)). rewrite <- list_elem_of_In, elem_of_map_to_list in H. specialize (H Hr). simpl in H.
  unfold same_key in H. by rewrite Hd, Hk, !bool_decide_eq_true_2 in H.
Qed.
Lemma settled_absent s : getAgentRunByIdempotencyKey d (slot_key S) (adb s) = None -> settled d S s.
Proof. intros H i r Hr Hrec. by destruct (fresh_receipt s H i r Hr). Qed.
(** A receipt that is not stranded settles its slot. *)
Lemma settled_found run s : found run s -> (forall r, agent_runs (adb s) !! r_id run = Some r -> ~ stranded s r) -> settled d S s.
Proof. intros [H1 _] H i r Hr Hrec Hst. rewrite (H1 i r Hr (proj1 Hst) Hrec) in Hr. by apply (H r). Qed.

(** *** Dispatch and skipping *)

Lemma h_dispatch run : hoare F (held run) (enqueueAgentRunPhase run report) (fun _ => done_with).
Proof.
  unfold enqueueAgentRunPhase. eapply h_bind with (Q := fun answer s => held run s /\ (answer = accepts -> settled d S s)).
  - apply h_call; [apply stable_held|]. intros s Hc [Ho Hf]. simpl.
    destruct (covered_accept (agentRunJobId (r_id run) report) s Hc) as [Hc' Hq].
    assert (Hacc : settled d S (Agents (adb s) ({[agentRunJobId (r_id run) report]} ∪ accepted s) (answers s))).
    { eapply (settled_found run); [by eapply found_quiet|]. intros r Hr (_ & _ & _ & Hn). simpl in *.
      rewrite (runs_keyed s Hc _ r Hr) in Hn. set_solver. }
    pose proof (own_quiet _ _ Hq Ho). pose proof (found_quiet run _ _ Hq Hf). by destruct (w_queue (answers s)); simpl; unfold held; split_and!.
  - intros [| |]; [apply h_ret; intros s [[Ho _] Hs]; split; auto|..]; apply h_throw; intros s [[[_ HF] _] _]; done.
Qed.

Lemma h_skip_queued run reason : hoare F (held run) (skipQueuedReceipt run reason) (fun _ => done_with).
Proof.
  unfold skipQueuedReceipt. case_bool_decide as Hst; simpl; [|apply h_ret; intros s [Ho [_ Hf]]; split; auto].
  eapply h_bind with (Q := fun _ => done_with).
  - unfold transition. eapply h_bind with (Q := fun _ => done_with); [|intros r; by apply h_or_throw; intros s [[_ HF] _]].
    apply h_write_now; [apply stable_held|]. intros now s Hc [Ho Hf]. unfold transitionAgentRun, applyAgentRunTransition. simpl.
    match goal with |- context [update_run ?i ?g ?f ?s] => pose proof (covered_update i g f) as Hu end.
    destruct (update_run _ _ _ _) as [a db'] eqn:E. simpl.
    destruct (Hu s) as [Hc' Hq]; [done|done|done|]. rewrite E in Hc', Hq. simpl in Hc', Hq. split; [done|].
    split; [by eapply own_quiet|]. eapply (settled_found run); [by eapply found_quiet|]. intros r Hr (_ & Hqd & _).
    unfold update_run in E. simpl in Hr. destruct (agent_runs (adb s) !! r_id run) as [x|] eqn:Ex; [|by simplify_eq; congruence].
    case_bool_decide as Hx; injection E as <- <-; simpl in Hr; [rewrite lookup_insert_eq in Hr; by simplify_eq|].
    assert (r = x) as -> by congruence. apply Hx. rewrite Hqd. set_solver.
  - intros [run'|]; [by apply h_ret|]. eapply h_bind; [apply h_read with (Q := fun _ => done_with); [apply stable_done|done]|].
    intros stored. by apply h_ret.
Qed.

(** *** Creating the receipt *)

Definition receipt_input (i : CreateAgentRunInput) : Prop :=
  d_id (c_definition i) = d /\ c_trigger i = schedule /\ c_idempotencyKey i = Some (slot_key S).

Lemma covered_insert i id now s : receipt_input i -> covered s -> own s ->
  let s' := set_adb (snd (insert_run i id now (adb s))) s in
  covered s' /\ own s' /\ forall run, fst (insert_run i id now (adb s)) = Ok (Some run) -> found run s' /\ r_state run = initial_state (c_initialState i).
Proof.
  intros (Hd & Ht & Hk) Hc [Hp HF]. unfold insert_run. rewrite Hk, Hd. simpl.
  destruct (getAgentRunByIdempotencyKey d (slot_key S) (adb s)) as [x|] eqn:Eg; [simpl; by rewrite set_adb_same|].
  destruct (agent_runs (adb s) !! id) as [x|] eqn:Ei; [simpl; by rewrite set_adb_same|]. simpl.
  pose proof (fresh_receipt s Eg) as Hfresh. set (n := new_run i id now).
  assert (Hn : receipt_of d S n) by done.
  assert (Hcase : forall j r, <[id := n]> (agent_runs (adb s)) !! j = Some r -> j = id /\ r = n \/ agent_runs (adb s) !! j = Some r).
  { intros j r. destruct (decide (id = j)) as [<-|]; [rewrite lookup_insert_eq|rewrite lookup_insert_ne by done; by right]. intros [= <-]. by left. }
  split_and!.
  - constructor; simpl.
    + intros j r [[-> ->]|Hr]%Hcase; [done|by apply (runs_keyed s Hc)].
    + apply (definitions_keyed s Hc).
    + intros j1 j2 r1 r2 key [[-> ->]|H1]%Hcase [[-> ->]|H2]%Hcase Hdd Hk1 Hk2; [done| | |by eapply (receipts_unique s Hc)].
      * destruct (Hfresh j2 r2 H2). destruct Hn as [Hn1 Hn2]. split; congruence.
      * destruct (Hfresh j1 r1 H1). destruct Hn as [Hn1 Hn2]. split; congruence.
    + intros j r [[-> ->]|Hr]%Hcase Hst; [exists S; rewrite (proj1 Hn); by split|by apply (stranded_pending s Hc j r)].
  - split; [done|by eapply F_elsewhere; [|exact HF]].
  - intros run [= <-]. split; [|done]. split.
    + intros j r [[-> ->]|Hr]%Hcase _ Hrec; [done|by destruct (Hfresh j r Hr)].
    + intros Hq j r [[-> ->]|Hr]%Hcase Hrec (_ & Hq' & _); [done|by destruct (Hfresh j r Hr)].
Qed.

Lemma h_create i : receipt_input i ->
  hoare F own (createAgentRun i) (fun p s => held p.1 s /\ (p.2 = true -> r_state p.1 = initial_state (c_initialState i))).
Proof.
  intros Hi. unfold createAgentRun. eapply h_bind; [apply h_asks, stable_own|]. intros now. cbv beta.
  assert (Hgo : hoare F own
    (id ← asks w_uuid; inserted ← write (insert_run i id now); inserted ← or_throw inserted;
     match inserted with
     | Some run => mret (run, true)
     | None =>
         match c_idempotencyKey i with
         | None => throw "createAgentRun: insert without an idempotency key was ignored"
         | Some key =>
             stored ← read (getAgentRunByIdempotencyKey (d_id (c_definition i)) key);
             match stored with Some run => mret (run, false) | None => throw "createAgentRun: run disappeared after insert" end
         end
     end) (fun p s => held p.1 s /\ (p.2 = true -> r_state p.1 = initial_state (c_initialState i)))).
  { eapply h_bind; [apply h_asks, stable_own|]. intros id. cbv beta.
    eapply h_bind with (Q := fun res s => own s /\ forall run, res = Ok (Some run) -> found run s /\ r_state run = initial_state (c_initialState i)).
    { apply h_write; [apply stable_own|]. intros s Hc Ho. by apply covered_insert. }
    intros res. eapply h_bind with (Q := fun o s => own s /\ forall run, o = Some run -> found run s /\ r_state run = initial_state (c_initialState i)).
    { destruct res as [o|e]; [apply h_ret; intros s [Ho H]; split; [done|]; intros run ->; by apply H|apply h_throw; by intros s [[_ HF] _]]. }
    intros [run|].
    { apply h_ret. intros s [Ho H]. destruct (H run eq_refl) as [Hf Hst]. by split. }
    destruct Hi as (Hd & _ & Hk). rewrite Hk, Hd. apply h_weaken with (A' := own) (Q' := fun p s => held p.1 s /\ (p.2 = true -> r_state p.1 = initial_state (c_initialState i))).
    { by intros s [Ho _]. } { done. }
    eapply h_bind with (Q := fun o s => own s /\ forall run, o = Some run -> found run s).
    { apply h_read; [apply stable_own|]. intros s Hc Ho. split; [done|]. intros run. by apply found_stored. }
    intros [run|]; [apply h_ret; intros s [Ho H]; by split; [split; [|apply H]|]|apply h_throw; by intros s [[_ HF] _]]. }
  destruct (c_initialState i) as [|[u|]|]; try exact Hgo. apply h_throw. by intros s [_ HF].
Qed.

(** *** Firing the slot *)

Definition scheduled_input (i : TriggerAgentRunInput) : Prop :=
  d_id (t_definition i) = d /\ t_trigger i = schedule /\ t_idempotencyKey i = Some (slot_key S) /\ keepQueuedOnEnqueueFailure i = true.
Definition triggered_ok (t : triggered) (s : agents) : Prop :=
  match t with fired run _ enqueued => if enqueued then done_with s else held run s | invalid_definition _ => own s end.
(** The receipt still to be dispatched, or nothing. *)
Definition ready (run : StoredAgentRun) (redispatch : bool) (s : agents) : Prop :=
  own s /\ if bool_decide (r_state run = queued) && redispatch then found run s else settled d S s.

Lemma own_fails s : own s -> F s.
Proof. by intros [_ HF]. Qed.
Lemma held_fails run s : held run s -> F s.
Proof. by intros [[_ HF] _]. Qed.

Lemma h_existing : hoare F own (read (getAgentRunByIdempotencyKey d (slot_key S))) (fun o s => own s /\ match o with Some run => found run s | None => settled d S s end).
Proof.
  apply h_read; [apply stable_own|]. intros s Hc Ho. split; [done|].
  destruct (getAgentRunByIdempotencyKey _ _ _) eqn:E; [by apply found_stored|by apply settled_absent].
Qed.

Lemma h_trigger_create i decision : scheduled_input i -> hoare F own (trigger_create i decision) (fun p => held p.1).
Proof.
  intros (H1 & H2 & H3 & _). unfold trigger_create.
  destruct decision; (eapply h_weaken; [| |apply h_create; by split_and!]; [done|by intros p s [Hh _]]).
Qed.

Lemma h_trigger i : scheduled_input i -> hoare F own (triggerAgentRun i) triggered_ok.
Proof.
  intros Hi. pose proof Hi as (Hd & _ & Hk & Hkeep). unfold triggerAgentRun. rewrite Hk, Hd.
  eapply h_bind; [apply h_existing|]. intros [run|]; cbv beta iota.
  { apply h_ret. intros s [Ho Hf]. by split. }
  apply h_weaken with (A' := own) (Q' := triggered_ok); [by intros s [? _]|done|].
  destruct (d_enabled (t_definition i)); simpl; [|by apply h_ret].
  eapply h_bind; [apply h_asks, stable_own|]. intros r. eapply h_bind; [apply h_or_throw, own_fails|]. intros [m|]; [by apply h_ret|].
  eapply h_bind; [apply h_asks, stable_own|]. intros g. eapply h_bind; [apply h_or_throw, own_fails|]. intros decision.
  eapply h_bind; [by apply h_trigger_create|]. intros [run created]. cbv beta iota. simpl. case_match; [by apply h_ret|].
  rewrite Hkeep. eapply h_bind with (Q := fun _ => done_with); [|intros _; by apply h_ret].
  apply h_catch with (F := F); [apply h_dispatch|intros e; by apply h_throw].
Qed.

Lemma h_skip_slot d0 reason : d_id d0 = d -> hoare F own (skipSlot toISOString d0 S reason) (fun p => ready p.1.1 p.1.2).
Proof.
  intros Hd. unfold skipSlot. eapply h_bind with (Q := fun _ => done_with).
  - unfold recordSkippedSlot. eapply h_bind; [by apply h_create|]. intros [run created]. eapply h_bind with (Q := fun _ => done_with); [|intros r; by apply h_ret].
    destruct created; simpl.
    + apply h_ret. intros s [[Ho [_ Hf]] Hst]. split; [done|]. apply Hf. by rewrite Hst.
    + eapply h_weaken; [|exact (fun _ _ H => H)|apply h_skip_queued]. by intros s [Hh _].
  - intros [run created]. apply h_ret. intros s [Ho Hs]. split; [done|]. by rewrite andb_false_r.
Qed.

Lemma h_fire_slot d0 : d_id d0 = d -> hoare F own (fire_slot toISOString d0 S) (fun p => ready p.1.1 p.1.2).
Proof.
  intros Hd. unfold fire_slot. destruct (d_enabled d0); simpl; [|by apply h_skip_slot].
  eapply h_bind; [by apply h_trigger|]. intros [run created enqueued|message]; [|by apply h_skip_slot].
  apply h_ret. simpl. intros s Hs. destruct enqueued; simpl; [destruct Hs as [Ho Hset]; split; [done|]; by rewrite andb_false_r|].
  destruct Hs as [Ho Hf]. split; [done|]. rewrite andb_true_r. case_bool_decide; [done|]. by apply Hf.
Qed.

Lemma h_settle d0 run redispatch outcome : d_id d0 = d ->
  hoare F (ready run redispatch) (settle_slot d0 S run redispatch outcome) (fun _ => F).
Proof.
  intros Hd. unfold settle_slot. rewrite Hd. eapply h_bind with (Q := fun _ => done_with).
  - unfold ready. destruct (bool_decide _ && redispatch); [|by apply h_ret].
    eapply h_bind; [apply h_dispatch|]. intros j. by apply h_ret.
  - intros _. eapply h_bind with (Q := fun _ => F); [|intros o; by apply h_ret].
    apply h_write; [apply stable_done|]. intros s Hc [[Hp HF] Hset]. destruct (covered_release d S s Hc Hset) as [Hc' He]. split; [done|by eapply F_elsewhere].
Qed.

Lemma h_disable d0 (A : agents -> Prop) : d_id d0 = d -> stable A -> (forall s, covered s -> A s -> F s /\ unstranded d s) ->
  hoare F A (disableSchedule d0) (fun _ => F).
Proof.
  intros Hd HA HF. unfold disableSchedule. rewrite Hd. eapply h_bind with (Q := fun _ => F); [|intros b; by apply h_ret].
  apply h_write_now; [done|]. intros now s Hc Hs. destruct (HF s Hc Hs) as [Hs' Hun].
  destruct (covered_disable d now s Hc Hun) as [Hc' He]. split; [done|by eapply F_elsewhere].
Qed.

Lemma h_claimed d0 : d_id d0 = d -> hoare F own (fireClaimedSlot toISOString d0 S) (fun _ => F).
Proof.
  intros Hd. unfold fireClaimedSlot. destruct (scheduleEnabled d0); simpl.
  - eapply h_bind; [apply h_asks, stable_own|]. intros m. eapply h_bind; [apply h_or_throw, own_fails|]. intros [|]; simpl.
    + eapply h_bind; [by apply h_fire_slot|]. intros [[run redispatch] outcome]. by apply h_settle.
    + rewrite Hd. eapply h_bind; [apply h_existing|]. intros existing. eapply h_bind with (Q := fun _ => done_with).
      * destruct existing as [run|]; [|by apply h_ret]. eapply h_bind; [apply h_skip_queued|]. intros r. by apply h_ret.
      * intros _. apply h_disable; [done|apply stable_done|]. intros s Hc [[Hp HF] Hset]. split; [done|by eapply unstranded_settled].
  - eapply h_bind; [by apply h_skip_slot|]. intros [[run redispatch] outcome]. by apply h_settle.
Qed.
End Slot.

(** ** The batch *)

Section Batch.
Variable now : Z.

Definition as_listed (e : DueScheduledAgentDefinition) (s : agents) : Prop := pending_of (d_id (due_definition e)) s = pendingSlot e.
Definition all_listed (l : list DueScheduledAgentDefinition) (s : agents) : Prop := forall e, In e l -> as_listed e s.

Lemma h_due d F e : d_id (due_definition e) = d -> (forall s s', elsewhere d s s' -> F s -> F s') ->
  hoare F (fun s => as_listed e s /\ F s) (fireDueDefinition toISOString e now) (fun _ => F).
Proof.
  intros Hd HF. unfold fireDueDefinition, as_listed. rewrite Hd.
  assert (Hstable : forall o, stable (fun s => pending_of d s = o /\ F s)).
  { intros o s s' _ _ Hq [Hp Hs]. split; [by rewrite (proj1 Hq)|by eapply F_quiet]. }
  eapply h_bind with (Q := fun c s => match c with inl slot => own d F slot s | inr _ => F s end).
  - destruct (pendingSlot e) as [slot|]; [by apply h_ret|]. unfold claimDueSlot. destruct (due_slots _ _ now) as [[next slot]|err].
    + eapply h_bind with (Q := fun o s => F s /\ (o <> None -> pending_of d s = Some slot)).
      * apply h_write; [apply Hstable|]. intros s Hc [Hp Hs]. rewrite Hd.
        destruct (covered_claim d (default 0 (nextRunAt (due_definition e))) next slot s Hc) as (Hc' & He & Hcl). split; [done|]. split; [by eapply HF|].
        destruct (fst _) as [a|]; [|done]. intros _. by apply (Hcl a).
      * intros [a|]; apply h_ret; intros s [Hs Hp]; [split; auto|done].
    + eapply h_bind with (Q := fun _ => F); [|intros o; by apply h_ret]. apply (h_disable d F HF); [done|apply Hstable|]. intros s Hc [Hp Hs].
      split; [done|by apply unstranded_idle].
  - intros [slot|o]; [|by apply h_ret].
    eapply h_bind with (Q := fun a s => match a with Some d0 => d_id d0 = d /\ own d F slot s | None => F s end).
    + apply h_write_now; [by apply stable_own|]. intros t s Hc [Hp Hs].
      destruct (covered_admit d slot t s Hc) as (Hc' & Hsame & Ha). split; [done|]. assert (Hs' := HF _ _ (fun i _ => Hsame i) Hs).
      destruct (fst _) as [a|]; [|done]. split; [by apply (Ha a)|]. split; [by rewrite Hsame|done].
    + intros [d0|]; [|by apply h_ret]. apply h_pure. intros Hd0. by apply h_claimed.
Qed.

Lemma h_batch l : NoDup ((fun e => d_id (due_definition e)) <$> l) ->
  hoare (fun _ => True) (all_listed l) (each (fire_each toISOString now) l) (fun _ _ => True).
Proof.
  induction l as [|e l IH]; intros Hnd; cbn [each]; [by apply h_ret|]. inversion Hnd as [|x y Hnin Hnd']; subst.
  eapply h_bind with (Q := fun _ => all_listed l).
  - unfold fire_each. apply h_catch with (F := all_listed l); [|intros err; by apply h_ret].
    eapply h_bind with (Q := fun _ => all_listed l); [|intros o; by apply h_ret]. eapply h_weaken; [|exact (fun _ _ H => H)|apply h_due with (d := d_id (due_definition e)) (F := all_listed l); [done|]].
    + intros s Hs. split; [apply Hs; by left|]. intros e' He'. apply Hs. by right.
    + intros s s' He Hs e' He'. unfold as_listed. rewrite He; [by apply Hs|]. intros Heq. apply Hnin. rewrite <- Heq.
      apply list_elem_of_fmap. exists e'. split; [done|by apply list_elem_of_In].
  - intros r. eapply h_bind; [by apply IH|]. intros rs. by apply h_ret.
Qed.
End Batch.
End Stranded.

(** ** The sweep

    What the batch of a sweep lists, and that no sweep strands a scheduled run, whatever
    statement it stops after. *)

(** *** The listing *)

Definition row_id (row : DefinitionRow) : string := d_id (definition row).

Section Listing.
Variable toISOString : Z -> string.
Variable s : agents.
Hypothesis Hc : covered toISOString s.

Lemma row_stored row : row ∈ (map_to_list (definitions (adb s))).*2 -> definitions (adb s) !! row_id row = Some row.
Proof.
  intros ([id row'] & -> & Hin)%list_elem_of_fmap. apply elem_of_map_to_list in Hin. simpl. unfold row_id.
  by rewrite (definitions_keyed _ s Hc id row').
Qed.

Lemma selected_rows p le size row : row ∈ select_definitions p le size (adb s) -> definitions (adb s) !! row_id row = Some row /\ p row = true.
Proof.
  unfold select_definitions. intros Hin. apply elem_of_take in Hin as (i & Hi & _). apply list_elem_of_lookup_2 in Hi.
  rewrite sort_by_perm in Hi. apply list_elem_of_filter in Hi as [Hp Hi]. split; [by apply row_stored|done].
Qed.

Lemma selected_ids_NoDup p le size : NoDup (row_id <$> select_definitions p le size (adb s)).
Proof.
  apply NoDup_fmap_2_strong.
  - intros x y Hx Hy Hid. apply selected_rows in Hx as [Hx _]. apply selected_rows in Hy as [Hy _]. congruence.
  - unfold select_definitions. eapply sublist_NoDup; [|apply sublist_take]. rewrite sort_by_perm. apply NoDup_filter.
    apply NoDup_fmap_2_strong; [|apply NoDup_map_to_list]. intros [k1 r1] [k2 r2] H1 H2 Hr. simpl in Hr. subst r2.
    apply elem_of_map_to_list in H1, H2. f_equal. rewrite <- (definitions_keyed _ s Hc k1 r1 H1). by apply (definitions_keyed _ s Hc k2 r1).
Qed.
End Listing.

(** The rows listed first: each with a claimed slot, which it keeps. *)
Definition pending_rows (pending : list DefinitionRow) (s : agents) : Prop :=
  NoDup (row_id <$> pending) /\ forall row, row ∈ pending -> has_pending row = true /\ pending_of (row_id row) s = pending_schedule_slot row.

Lemma pending_rows_stable toISOString pending : stable toISOString (pending_rows pending).
Proof. intros s s' _ _ [Hq _] [Hn Hp]. split; [done|]. intros row Hr. rewrite Hq. by apply Hp. Qed.

Lemma pending_rows_listed toISOString size s : covered toISOString s -> pending_rows (list_pending size (adb s)) s.
Proof.
  intros Hc. split; [by eapply selected_ids_NoDup|]. intros row Hr. eapply selected_rows in Hr as [Hr Hp]; [|done]. split; [done|].
  unfold pending_of. by rewrite Hr.
Qed.

Lemma due_listed toISOString now size pending s : covered toISOString s -> pending_rows pending s ->
  let l := listDueScheduledAgentDefinitions now size pending (adb s) in
  NoDup ((fun e => d_id (due_definition e)) <$> l) /\ all_listed l s.
Proof.
  intros Hc [Hn Hp]. simpl. unfold listDueScheduledAgentDefinitions.
  set (due := select_definitions (is_due now) next_before size (adb s)). set (n := pending_share _ _ _).
  assert (Hdue : forall row, row ∈ due -> pending_of (row_id row) s = None /\ pending_schedule_slot row = None).
  { intros row Hr. eapply selected_rows in Hr as [Hr Hd]; [|done]. unfold pending_of. rewrite Hr. simpl. unfold is_due in Hd.
    assert (H : has_pending row = false) by by destruct (has_pending row). unfold has_pending in H. case_bool_decide; by rewrite ?H. }
  split.
  - rewrite <- list_fmap_compose. change (NoDup (row_id <$> (list.take n pending ++ list.take (size - n) due))). rewrite fmap_app. apply NoDup_app. split_and!.
    + rewrite fmap_take. eapply sublist_NoDup; [exact Hn|apply sublist_take].
    + intros id H1 H2. apply list_elem_of_fmap in H1 as (r1 & -> & H1). apply list_elem_of_fmap in H2 as (r2 & Hid & H2).
      apply elem_of_take in H1 as (i & H1 & _), H2 as (j & H2 & _). apply list_elem_of_lookup_2 in H1, H2.
      destruct (Hp r1 H1) as [Hh Hp1]. destruct (Hdue r2 H2) as [Hp2 _]. rewrite Hid, Hp2 in Hp1. unfold has_pending in Hh. by rewrite <- Hp1 in Hh.
    + rewrite fmap_take. eapply sublist_NoDup; [by eapply selected_ids_NoDup|apply sublist_take].
  - intros e He. apply list_elem_of_In, list_elem_of_fmap in He as (row & -> & Hr). unfold as_listed. simpl. apply elem_of_app in Hr as [Hr|Hr];
      apply elem_of_take in Hr as (i & Hi & _); apply list_elem_of_lookup_2 in Hi; [by apply Hp|].
    destruct (Hdue row Hi) as [H1 H2]. by rewrite H2.
Qed.

Lemma sweep_covers toISOString n : hoare toISOString (fun _ => True) (fun _ => True) (runAgentScheduleSweep toISOString n) (fun _ _ => True).
Proof.
  unfold runAgentScheduleSweep. assert (Htop : stable toISOString (fun _ => True)) by done.
  eapply h_bind; [by apply h_asks|]. intros now. eapply h_bind with (Q := pending_rows); [by apply h_read; [|intros s Hc _; eapply pending_rows_listed]|].
  intros pending. eapply h_bind with (Q := fun l s => NoDup ((fun e => d_id (due_definition e)) <$> l) /\ all_listed l s).
  - apply h_read; [apply pending_rows_stable|]. intros s Hc Hp. by eapply due_listed.
  - intros l. apply h_pure. intros Hnd. by apply h_batch.
Qed.

(** C24. No scheduled run is stranded: a schedule sweep, interleaved with processes that
    leave claimed slots alone and strand no scheduled run themselves, keeps after every
    one of its statements - so wherever it stops, the queue refuses or a statement fails -
    that a scheduled run that is queued without a job is the receipt of the slot its
    definition still records as pending, which the next sweep serves. *)
Theorem no_scheduled_run_is_stranded toISOString n w :
  Forall (respectful toISOString) (others w) -> covered toISOString (store w) ->
  exists l, trace (snd (runAgentScheduleSweep toISOString n w)) = trace w ++ l
    /\ Forall (fun ss => covered toISOString ss.2) l
    /\ covered toISOString (store (snd (runAgentScheduleSweep toISOString n w))).
Proof.
  intros Hg Hc. destruct (sweep_covers toISOString n w Hg (conj Hc I)) as (l & Hl & HI & _ & HQ).
  exists l. split_and!; [done..|]. by destruct (fst _) as [a|e], HQ.
Qed.

(** An hourly definition that is due, and a queue that refuses the job. *)
Definition an_hourly : StoredAgentDefinition :=
  Definition_ "d1" "o1" "{}" "report" (Some "0 * * * *"%string) true (Some 1767225600000) true 0 0.
Definition a_site : agents :=
  Agents (AgentDb ∅ {["d1"%string := DRow an_hourly None None]} ∅) ∅ (Answers 1767229200001 "run-1" (Ok gate_proceed) (Ok None) (Ok true) refuses).
(** A second passes. *)
Definition tick (s : agents) : agents :=
  let a := answers s in Agents (adb s) (accepted s) (Answers (w_now a + 1000) (w_uuid a) (w_gate a) (w_invalid a) (w_isMember a) (w_queue a)).
Definition a_world : world agents := World a_site [tick; tick; tick] [].

Lemma tick_respectful f : respectful f tick.
Proof.
  intros s Hc. split; [|split; [done|]; intros i r Hr _; by exists r].
  constructor; [apply (runs_keyed f s Hc)|apply (definitions_keyed f s Hc)|apply (receipts_unique f s Hc)|].
  intros i r Hr Hs. by apply (stranded_pending f s Hc i r).
Qed.
Lemma a_site_covered f : covered f a_site.
Proof.
  constructor; simpl; [intros i r H; by rewrite lookup_empty in H| |intros i j r1 r2 k H; by rewrite lookup_empty in H|intros i r H; by rewrite lookup_empty in H].
  intros id row H. by apply lookup_singleton_Some in H as [<- <-].
Qed.

Lemma no_scheduled_run_is_stranded_witness :
  (let '(outcomes, w) := runAgentScheduleSweep (fun _ => "slot"%string) 10 a_world in
   (outcomes, r_state <$> agent_runs (adb (store w)) !! "run-1"%string, pending_of "d1" (store w)))
  = (Ok [Throw "queue unavailable"%string], Some queued, Some 1767229200000)
  /\ exists l, trace (snd (runAgentScheduleSweep (fun _ => "slot"%string) 10 a_world)) = [] ++ l
       /\ Forall (fun ss => covered (fun _ => "slot"%string) ss.2) l
       /\ covered (fun _ => "slot"%string) (store (snd (runAgentScheduleSweep (fun _ => "slot"%string) 10 a_world))).
Proof.
  split; [vm_compute; reflexivity|].
  apply (no_scheduled_run_is_stranded (fun _ => "slot"%string) 10 a_world).
  - apply List.Forall_forall. simpl. intros g [<-|[<-|[<-|[]]]]; apply tick_respectful.
  - apply a_site_covered.
Defined.
