(* ===== verification/Handoff.v ===== *)
(** * Follow-up handoffs: the record of an owed publication

    src/jobs/followupHandoffStore.ts (the row of a pull request, its fenced writes, the
    claims of cancelled requests), followupHandoffMarker.ts and followupHandoffMessages.ts
    (markers and comment bodies), prPendingComments.ts (the Redis scripts of the pending
    list) and the requests of followupHandoffDeps.ts and followupHandoffGitOps.ts, as
    programs of one worker. Git, GitHub's pull requests, Docker and the
    database answer through [outside], which any other step may change; the comments of a
    pull request, the task states, the queue and the leases are state. A statement or a
    request may be refused, or land without its answer arriving. [log] is what this worker
    did and was told; no code reads it. A JSON column is the value it holds. Columns no
    decision reads (correlation, timestamps of creation, cost caps) are left out. *)

From S2P Require Import Prelude JsString Interleave PrLock.
From coqutil Require Export Datatypes.RecordSetters.
Export OCamlLikeNotations.

Open Scope string_scope.
Open Scope Z_scope.
Open Scope list_scope.

(** ** The row *)

Inductive HandoffStatus := HANDOFF_ACTIVE | HANDOFF_AWAITING_OPERATOR | HANDOFF_RELEASED.
#[export] Instance HandoffStatus_eq_dec : EqDecision HandoffStatus.
Proof. solve_decision. Defined.
Inductive Settlement := SETTLEMENT_RETURNED_TO_QUEUE | SETTLEMENT_RETRY_SCHEDULING | SETTLEMENT_RETRY_SCHEDULED.
#[export] Instance Settlement_eq_dec : EqDecision Settlement.
Proof. solve_decision. Defined.
Inductive FollowupHandoffPhase := agent_running | agent_exited | committed | pushed | comment_published | cleanup_pending.
#[export] Instance FollowupHandoffPhase_eq_dec : EqDecision FollowupHandoffPhase.
Proof. solve_decision. Defined.

Record UnprocessedComment := PrComment { c_id : Z; c_author : string; acceptedBodySha256 : option string; c_rest : string }.
#[export] Instance UnprocessedComment_eq_dec : EqDecision UnprocessedComment.
Proof. solve_decision. Defined.
Record CommentJobData := JobData {
  jd_owner : option string; jd_repo : option string; jd_branch : option string; jd_llm : option string; costBudgetTaskIds : list string;
}.
#[export] Instance CommentJobData_eq_dec : EqDecision CommentJobData.
Proof. solve_decision. Defined.

Record FollowupHandoffRecord := Handoff {
  repository : string;
  pull_request : Z;
  task_id : string;
  source_task_ids : list string;
  target_repository : string;
  branch_name : string;
  is_fork : bool;
  worktree_path : string;
  local_repo_path : string;
  claimed_comments : list UnprocessedComment;
  job_data : CommentJobData;
  llm : option string;
  phase : FollowupHandoffPhase;
  agent_completed : option bool;
  agent_summary : option string;
  status : HandoffStatus;
  status_reason : option string;
  settlement : option Settlement;
  operator_authorized : bool;
  starting_comment_id : option Z;
  commit_hash : option string;
  completion_comment_url : option string;
  head_ref : option string;
  base_ref : option string;
  head_sha : option string;
  container_id : option string;
  successor_task_id : option string;
  lock_key : string;
  lock_token : string;
  generation : Z;
  incarnation : string;
  updated_at : Z;
}.
#[export] Instance FollowupHandoffRecord_eq_dec : EqDecision FollowupHandoffRecord.
Proof. solve_decision. Defined.

(** [where({ repository, pull_request })] *)
Definition key : Type := string * Z.
Definition key_of (r : FollowupHandoffRecord) : key := (repository r, pull_request r).
(** [`${owner.trim()}/${repo.trim()}`.toLowerCase()] *)
Definition handoffRepositoryKey (owner repo : string) : string := to_lower (trim owner ++ "/" ++ trim repo).
(** [const [owner, repo] = repository.split('/')] *)
Definition splitHandoffRepository (repository : string) : string * string :=
  let parts := split_char (char 47) repository in (default "" (parts !! 0%nat), default "" (parts !! 1%nat)).

(** ** What the outside world answers *)

Inductive answer := works | refuses | loses_answer.
Inductive WorktreeAttachment := missing | not_on_branch | attached.
#[export] Instance WorktreeAttachment_eq_dec : EqDecision WorktreeAttachment.
Proof. solve_decision. Defined.
Inductive TaskStateName := COMPLETED | FAILED | CANCELLED | unfinished (name : string).
#[export] Instance TaskStateName_eq_dec : EqDecision TaskStateName.
Proof. solve_decision. Defined.
Record IssueComment := Comment { ic_id : Z; ic_body : option string; html_url : option string }.
#[export] Instance IssueComment_eq_dec : EqDecision IssueComment.
Proof. solve_decision. Defined.
Inductive PullState := pull_open | pull_closed | pull_merged.
#[export] Instance PullState_eq_dec : EqDecision PullState.
Proof. solve_decision. Defined.
Record PullRequest := Pull { p_head : option string; p_base : option string; p_state : PullState }.
(** The liveness found for a task, and the container it was found on *)
Record TaskContainerInspection := Inspection { liveness : string; container : option string }.

(** [followupHandoffGitOps.ts]: each operation may reject. *)
Record FollowupHandoffGitOps := GitOps {
  worktreeAttachment : string -> string -> result WorktreeAttachment;
  branchWorktreeRegistrations : string -> string -> result (list string);
  hasUncommittedChanges : string -> result bool;
  commitWork : string -> string -> result (option string);
  hasUnpushedCommits : string -> string -> result bool;
  head_ : string -> result string;
  remoteBranchHead : string -> string -> result (option string);
  isAncestorOfHead : string -> string -> result bool;
  push : string -> string -> string -> result (option string);
  releaseSettledWorktree : string -> string -> string -> result bool;
  detachWorktreeHead : string -> result unit;
  restartBranchFromRemoteHead : string -> string -> result bool;
  restoreMissingWorktree : option (string -> string -> string -> result bool);
}.
Record Outside := Answers {
  git : FollowupHandoffGitOps;
  database : answer;
  redis : answer;
  github : answer;
  job_queue : answer;
  task_store : answer;
  pull_requests : string -> Z -> result PullRequest;
  containers : string -> result TaskContainerInspection;
  octokit : result unit;
  continuation_retained : result bool;
  comment_url : Z -> option string;
}.

(** What this worker did and was told *)
Inductive Event :=
  | saw_task (id : string) (r : option TaskStateName)
  | saw_lease (lost : bool)
  | saw_attachment (path branch : string) (r : WorktreeAttachment)
  | saw_registrations (repo branch : string) (r : list string)
  | saw_dirty (path : string) (r : bool)
  | saw_unpushed (path branch : string) (r : bool)
  | saw_head (path sha : string)
  | saw_remote (path branch : string) (r : option string)
  | saw_ancestor (path sha : string) (r : bool)
  | saw_pull (k : key) (p : PullRequest)
  | saw_comments (k : key) (l : list IssueComment)
  | saw_continuation (k : key)
  | sent_commit (path : string) (r : result (option string))
  | sent_push (path target branch : string) (r : result (option string))
  | sent_patch (k : key) (id : Z) (body : string)
  | sent_post (k : key) (body : string)
  | restored_claims (pending_key : string) (l : list UnprocessedComment)
  | sent_job (id : string)
  | set_task (id : string) (st : TaskStateName).

Inductive Pending := entry (c : UnprocessedComment) | unreadable (json : string).
#[export] Instance Pending_eq_dec : EqDecision Pending.
Proof. solve_decision. Defined.
Record FollowupJob := FJob {
  fj_owner : string; fj_repo : string; fj_pr : Z; fj_branch : string; fj_llm : option string; fj_budget : list string;
}.
#[export] Instance FollowupJob_eq_dec : EqDecision FollowupJob.
Proof. solve_decision. Defined.

Record hub := Hub {
  rows : gmap key FollowupHandoffRecord;
  cancelled_claims : gmap (key * Z) string;
  pending : gmap string (list Pending);
  locks : PrLock.locks;
  lease_lost : bool;
  tasks : gmap string TaskStateName;
  comments : gmap key (gmap positive (option string * option string));
  issued : positive;
  queue : gmap string FollowupJob;
  now : Z;
  drawn : nat;
  log : list Event;
  outside : Outside;
}.
Abbreviation M := (Interleave.M hub).

Definition note (e : Event) (s : hub) : hub := { s with log := log s ++ [e] }.
Definition asks {A} (f : hub -> A) : M A := call (fun s => (f s, s)).
Definition or_throw {A} (r : result A) : M A := match r with Ok a => mret a | Throw e => throw e end.
(** A request whose answer is noted when it arrives *)
Definition observes {A} (f : hub -> result A) (e : A -> Event) : M A :=
  r ← call (fun s => match f s with Ok a => (Ok a, note (e a) s) | Throw x => (Throw x, s) end); or_throw r.
Definition requests {A} (f : hub -> result A) (e : result A -> Event) : M A :=
  r ← call (fun s => (f s, note (e (f s)) s)); or_throw r.
Definition external {A} (f : Outside -> result A) : M A := r ← asks (fun s => f (outside s)); or_throw r.
(** A change of state that may be refused, or land without its answer *)
Definition sends {A} (service : Outside -> answer) (error : string) (f : hub -> A * hub) : M A :=
  r ← call (fun s => match service (outside s) with
                     | works => let '(a, s') := f s in (Some a, s')
                     | refuses => (None, s)
                     | loses_answer => (None, snd (f s))
                     end);
  match r with Some a => mret a | None => throw error end.
(** [randomUUID()]: an identifier never drawn before. *)
Definition uuid (n : nat) : string := "uuid-" ++ pretty n.
Definition randomUUID : M string := call (fun s => (uuid (drawn s), { s with drawn := S (drawn s) })).

(** ** The table *)

Definition statement {A} (f : hub -> A * hub) : M A := sends database "database" f.
Definition set_row (k : key) (o : option FollowupHandoffRecord) (s : hub) : hub :=
  { s with rows := match o with Some r => <[k := r]> (rows s) | None => delete k (rows s) end }.

Definition loadFollowupHandoff (k : key) : M (option FollowupHandoffRecord) := statement (fun s => (rows s !! k, s)).
Definition loadFollowupHandoffs (where_ : FollowupHandoffRecord -> bool) : M (list FollowupHandoffRecord) :=
  statement (fun s => (filter (fun r => where_ r = true) (map_to_list (rows s)).*2, s)).

Definition same_attempt (record r : FollowupHandoffRecord) : bool :=
  bool_decide (task_id r = task_id record) && bool_decide (incarnation r = incarnation record).
Definition is_version (record r : FollowupHandoffRecord) : bool :=
  same_attempt record r && bool_decide (generation r = generation record).
(** [UPDATE ... WHERE key AND where_ SET set]; whether a row changed. *)
Definition update_row (k : key) (where_ : FollowupHandoffRecord -> bool) (set : FollowupHandoffRecord -> FollowupHandoffRecord) (s : hub) : bool * hub :=
  match rows s !! k with Some r => if where_ r then (true, set_row k (Some (set r)) s) else (false, s) | None => (false, s) end.
Definition delete_row (k : key) (where_ : FollowupHandoffRecord -> bool) (s : hub) : bool * hub :=
  match rows s !! k with Some r => if where_ r then (true, set_row k None s) else (false, s) | None => (false, s) end.

Definition handoffReplaceable (existing : FollowupHandoffRecord) (taskId : string) : bool :=
  bool_decide (status existing = HANDOFF_RELEASED)
  || (bool_decide (task_id existing = taskId) && bool_decide (status existing = HANDOFF_ACTIVE)).

(** [[...new Set(l)]] *)
Definition new_Set {A} `{!EqDecision A} (l : list A) : list A := reverse (remove_dups (reverse l)).
(** [new_row] is the row of the new attempt but for its generation, incarnation and instant. *)
Definition recorded (new_row : FollowupHandoffRecord) (generation_ : Z) (incarnation_ : string) (t : Z) : FollowupHandoffRecord :=
  { new_row with source_task_ids := new_Set (source_task_ids new_row); phase := agent_running; agent_completed := None; agent_summary := None;
    status := HANDOFF_ACTIVE; status_reason := None; settlement := None; operator_authorized := false; commit_hash := None;
    completion_comment_url := None; container_id := None; successor_task_id := None;
    generation := generation_; incarnation := incarnation_; updated_at := t }.
Definition takeOverHandoff (existing record : FollowupHandoffRecord) : M bool :=
  statement (update_row (key_of existing) (is_version existing) (fun _ => record)).
Definition insertHandoff (record : FollowupHandoffRecord) : M bool :=
  catch (_ ← (r ← statement (fun s => match rows s !! key_of record with
                                       | Some _ => (Throw "UNIQUE constraint failed", s)
                                       | None => (Ok tt, set_row (key_of record) (Some record) s)
                                       end);
              or_throw r);
         mret true)
        (fun e => conflicting ← loadFollowupHandoff (key_of record); match conflicting with Some _ => mret false | None => throw e end).
Definition recordFollowupHandoff (new_row : FollowupHandoffRecord) : M (option FollowupHandoffRecord) :=
  existing ← loadFollowupHandoff (key_of new_row);
  if match existing with Some e => negb (handoffReplaceable e (task_id new_row)) | None => false end then mret None
  else
    t ← asks now;
    id ← randomUUID;
    let record := recorded new_row (match existing with Some e => generation e | None => 0 end + 1) id t in
    written ← match existing with Some e => takeOverHandoff e record | None => insertHandoff record end;
    mret (if written : bool then Some record else None).

(** [changes] as a function: it sets the columns given and leaves the others. *)
Definition advanced (changes : FollowupHandoffRecord -> FollowupHandoffRecord) (generation_ t : Z) (r : FollowupHandoffRecord) : FollowupHandoffRecord :=
  { changes r with updated_at := t; generation := generation_ }.
Definition advance_tx (record : FollowupHandoffRecord) (changes : FollowupHandoffRecord -> FollowupHandoffRecord) (t : Z) : hub -> bool * hub :=
  update_row (key_of record) (is_version record) (advanced changes (generation record + 1) t).
Definition advanceFollowupHandoff (record : FollowupHandoffRecord) (changes : FollowupHandoffRecord -> FollowupHandoffRecord) : M (option FollowupHandoffRecord) :=
  t ← asks now;
  updated ← statement (advance_tx record changes t);
  mret (if updated : bool then Some (advanced changes (generation record + 1) t record) else None).
Definition recordFollowupHandoffDiagnostic (record : FollowupHandoffRecord) (reason : string) : M bool :=
  t ← asks now;
  statement (update_row (key_of record)
    (fun r => same_attempt record r && negb (bool_decide (status r = HANDOFF_AWAITING_OPERATOR))
              && negb (bool_decide (status_reason r = Some "publication_failed")))
    (fun r => { r with status_reason := Some reason; updated_at := t })).
Definition finalizeFollowupHandoff (record : FollowupHandoffRecord) : M bool :=
  statement (delete_row (key_of record) (is_version record)).

Definition retryOwnsClaims (record : FollowupHandoffRecord) : bool := bool_decide (settlement record = Some SETTLEMENT_RETRY_SCHEDULED).
Definition with_status (st : HandoffStatus) (reason : string) (r : FollowupHandoffRecord) : FollowupHandoffRecord :=
  { r with status := st; status_reason := Some reason }.

(** ** Claims of cancelled requests *)

Definition claim_ids (record : FollowupHandoffRecord) : list Z := c_id <$> claimed_comments record.
Definition suppress (record : FollowupHandoffRecord) (ids : list Z) (s : hub) : hub :=
  { s with cancelled_claims := foldr (fun id m => match m !! (key_of record, id) with Some _ => m | None => <[(key_of record, id) := task_id record]> m end)
                                     (cancelled_claims s) (new_Set ids) }.
Definition recordCancelledClaims (record : FollowupHandoffRecord) (ids : list Z) : M unit :=
  match ids with [] => mret tt | _ => statement (fun s => (tt, suppress record ids s)) end.
Definition revoke (record : FollowupHandoffRecord) (s : hub) : hub :=
  { s with cancelled_claims := filter (fun e => ~ (e.1.1 = key_of record /\ e.2 = task_id record)) (cancelled_claims s) }.
Definition loadCancelledClaimIds (k : key) : M (list Z) :=
  statement (fun s => ((fun e => e.1.2) <$> filter (fun e => e.1.1 = k) (map_to_list (cancelled_claims s)), s)).
(** [advanceFollowupHandoff] and [revokeCancelledClaims] in one transaction *)
Definition advance_and_revoke (record : FollowupHandoffRecord) (changes : FollowupHandoffRecord -> FollowupHandoffRecord) : M (option FollowupHandoffRecord) :=
  t ← asks now;
  updated ← statement (fun s => let '(b, s') := advance_tx record changes t s in (b, if b : bool then revoke record s' else s'));
  mret (if updated : bool then Some (advanced changes (generation record + 1) t record) else None).

(** ** The pending list of a pull request *)

Definition getPendingPrCommentsKey (owner repo : string) (pr : Z) : string :=
  ("pending-pr-comments:" ++ owner ++ ":" ++ repo ++ ":" ++ show pr)%string.
Definition pending_at (k : string) (s : hub) : list Pending := default [] (pending s !! k).
Definition set_pending (k : string) (l : list Pending) (s : hub) : hub :=
  { s with pending := match l with [] => delete k (pending s) | _ => <[k := l]> (pending s) end }.
Definition pending_ids (l : list Pending) : list Z := omap (fun p => match p with entry c => Some (c_id c) | unreadable _ => None end) l.

Definition CLAIM_PENDING_COMMENTS_SCRIPT (k : string) (s : hub) : list Pending * hub := (pending_at k s, set_pending k [] s).
(** From the last argument to the first, each new identifier is pushed to the head. *)
Definition restore_one (c : UnprocessedComment) (l : list Pending) : list Pending :=
  if bool_decide (c_id c ∈ pending_ids l) then l else entry c :: l.
Definition RESTORE_PENDING_COMMENTS_SCRIPT (k : string) (l : list UnprocessedComment) (s : hub) : hub :=
  set_pending k (foldr restore_one (pending_at k s) l) s.
Definition withdraws (ids : list Z) (p : Pending) : bool :=
  match p with entry c => bool_decide (c_id c ∈ ids) | unreadable _ => false end.
Definition WITHDRAW_PENDING_COMMENTS_SCRIPT (k : string) (ids : list Z) (s : hub) : hub :=
  set_pending k (filter (fun p => withdraws ids p = false) (pending_at k s)) s.

(** [comments.filter((c, i) => comments.findIndex(d => d.id === c.id) === i)] *)
Fixpoint first_of_id (seen : list Z) (l : list UnprocessedComment) : list UnprocessedComment :=
  match l with
  | [] => []
  | c :: l => if bool_decide (c_id c ∈ seen) then first_of_id seen l else c :: first_of_id (c_id c :: seen) l
  end.
Definition restorePendingComments (l : list UnprocessedComment) (owner repo : string) (pr : Z) : M unit :=
  match l with
  | [] => mret tt
  | _ => let k := getPendingPrCommentsKey owner repo pr in
         sends redis "redis" (fun s => (tt, note (restored_claims k l) (RESTORE_PENDING_COMMENTS_SCRIPT k (first_of_id [] l) s)))
  end.
Definition withdrawPendingComments (ids : list Z) (owner repo : string) (pr : Z) : M unit :=
  match ids with
  | [] => mret tt
  | _ => sends redis "redis" (fun s => (tt, WITHDRAW_PENDING_COMMENTS_SCRIPT (getPendingPrCommentsKey owner repo pr) ids s))
  end.
(** [pickUpPendingCommentsWithClaim]: the captured comments and those picked up here; a
    failure of Redis picks up none. *)
Definition pick_up (captured : list UnprocessedComment) (l : list Pending) : list UnprocessedComment :=
  foldl (fun acc p => match p with entry c => if bool_decide (c_id c ∈ (c_id <$> acc)) then acc else acc ++ [c] | unreadable _ => acc end) captured l.
Definition pickUpPendingCommentsWithClaim (captured : list UnprocessedComment) (owner repo : string) (pr : Z)
    : M (list UnprocessedComment * list UnprocessedComment) :=
  taken ← catch (sends redis "redis" (CLAIM_PENDING_COMMENTS_SCRIPT (getPendingPrCommentsKey owner repo pr))) (fun _ => mret []);
  let all := pick_up captured taken in
  mret (all, filter (fun c => c_id c ∉ (c_id <$> captured)) all).

(** ** Markers and bodies *)

Definition handoffCommentMarker (r : FollowupHandoffRecord) : string :=
  ("<!-- propr-followup-handoff:" ++ repository r ++ ":" ++ show (pull_request r) ++ ":" ++ incarnation r ++ " -->")%string.
Definition HANDOFF_NORMAL_COMPLETION_MARKER : string := "<!-- propr-followup-handoff-delivery:normal-completion -->".
Definition HANDOFF_NORMAL_FAILURE_MARKER : string := "<!-- propr-followup-handoff-delivery:normal-failure -->".

(** [filterRealComments], [normalizeWorkEvidenceCommentIds] and the markers of
    shared/workEvidenceMarker.ts *)
Definition filterRealComments : list UnprocessedComment -> list UnprocessedComment :=
  filter (fun c => c_author c <> "propr-ultrafix" /\ c_id c <> 0).
Definition safe_id (id : Z) : bool := (0 <? id) && (id <=? MAX_SAFE_INTEGER).
Definition normalizeWorkEvidenceCommentIds (ids : list Z) : list Z := list.take 100 (filter (fun id => safe_id id = true) (new_Set ids)).
Definition buildWorkEvidenceMarker (phase : string) (ids : list Z) : string :=
  match normalizeWorkEvidenceCommentIds ids with
  | [] => ""
  | l => ("<!-- propr:work-evidence phase=" ++ phase ++ " trigger-comment-ids=" ++ join "," (show <$> l) ++ " -->")%string
  end.
Definition is_digest (s : string) : bool :=
  (String.length s =? 64)%nat && forallb (fun c => is_digit c || ((97 <=? code c) && (code c <=? 102))) (chars s).
Definition buildAcceptedRequestMarkers (l : list UnprocessedComment) : string :=
  join (String newline "") (omap (fun c => match acceptedBodySha256 c with
    | Some d => if safe_id (c_id c) && is_digest d
                then Some ("<!-- propr:accepted-request comment-id=" ++ show (c_id c) ++ " body-sha256=" ++ d ++ " -->")%string else None
    | None => None end) l).

Definition blank_line : string := String newline (String newline "").
Definition sections (l : list string) : string := join blank_line (filter (fun s => s <> "") l).
Definition authors_of (l : list UnprocessedComment) : string := join ", " ((fun a => "@" ++ a)%string <$> new_Set (c_author <$> l)).
Definition when (s before after : string) : string := match s with "" => "" | _ => (before ++ s ++ after)%string end.
Definition plural (ids : list Z) : string := if (1 <? length ids)%nat then "s" else "".
Definition ticked_ids (ids : list Z) : string :=
  match ids with [] => "" | _ => ("---" ++ String newline ("Comment ID" ++ plural ids ++ ": " ++ join ", " ((fun id => show id ++ "✓") <$> ids)))%string end.
Definition recoveredCompletionBody (r : FollowupHandoffRecord) : string :=
  let l := filterRealComments (claimed_comments r) in let ids := c_id <$> l in
  sections [handoffCommentMarker r;
    ("✅ **Recovered and published follow-up changes**" ++ when (authors_of l) " requested by " "")%string;
    "A worker restart interrupted the original attempt after the agent produced work. ProPR adopted the retained worktree and published it.";
    when (default "" (commit_hash r)) "Commit: `" "`";
    ticked_ids ids; buildWorkEvidenceMarker "completed" ids;
    if bool_decide (agent_completed r = Some true) then buildAcceptedRequestMarkers l else ""].
Definition recoveredNoChangeCompletionBody (r : FollowupHandoffRecord) : string :=
  let l := filterRealComments (claimed_comments r) in let ids := c_id <$> l in
  sections [handoffCommentMarker r;
    ("ℹ️ **Analyzed the follow-up request**" ++ when (authors_of l) " by " "")%string;
    "A worker restart interrupted publication after the agent completed the request successfully. ProPR recovered the result from the retained worktree.";
    when (default "" (agent_summary r)) ("## Analysis Summary" ++ blank_line) "";
    "No code changes were necessary based on the current state of the branch.";
    ticked_ids ids; buildWorkEvidenceMarker "completed" ids; buildAcceptedRequestMarkers l].
Definition WORKTREE_LOST_REASON : string := "worktree_lost".
Definition worktreeWasLost (r : FollowupHandoffRecord) : bool := bool_decide (status_reason r = Some WORKTREE_LOST_REASON).
Definition interruptedWithoutChangesBody (r : FollowupHandoffRecord) : string :=
  let l := filterRealComments (claimed_comments r) in let ids := c_id <$> l in
  sections [handoffCommentMarker r;
    ("⚠️ **Follow-up interrupted before any changes were produced**" ++ when (authors_of l) " (requested by " ")")%string;
    (if worktreeWasLost r
     then "The agent run was interrupted and its worktree was deleted before any changes were committed, so nothing could be published. The request has been returned to the queue and will be picked up by the next follow-up on this pull request."
     else "A worker restart interrupted the agent run and its worktree holds no unpublished work. The request has been returned to the queue and will be picked up by the next follow-up on this pull request.");
    match ids with [] => "" | _ => ("Returned comment ID" ++ plural ids ++ ": " ++ join ", " (show <$> ids))%string end;
    buildWorkEvidenceMarker "failed" ids].

Inductive Delivery := normal_completion | normal_failure | recovery.
#[export] Instance Delivery_eq_dec : EqDecision Delivery.
Proof. solve_decision. Defined.
Definition normalDelivery (body : option string) : Delivery :=
  match body with
  | Some b => if includes HANDOFF_NORMAL_COMPLETION_MARKER b then normal_completion
              else if includes HANDOFF_NORMAL_FAILURE_MARKER b then normal_failure else recovery
  | None => recovery
  end.
Inductive RecoveredTaskOutcome := published | completion_delivered | completed_without_changes | failure_delivered | no_changes.
#[export] Instance RecoveredTaskOutcome_eq_dec : EqDecision RecoveredTaskOutcome.
Proof. solve_decision. Defined.
Definition failedOutcomes (o : RecoveredTaskOutcome) : bool := match o with failure_delivered | no_changes => true | _ => false end.
Definition deliveredOutcome (r : FollowupHandoffRecord) : RecoveredTaskOutcome :=
  match truthy_string (commit_hash r), truthy_string (completion_comment_url r) with
  | Some _, _ => published
  | None, Some _ => completion_delivered
  | None, None => no_changes
  end.
Definition marked (m : string) (c : IssueComment) : bool := match ic_body c with Some b => includes m b | None => false end.

(** ** Task states *)

Definition terminalStates (st : TaskStateName) : bool := match st with unfinished _ => false | _ => true end.
Definition getTaskState (id : string) : M (option TaskStateName) :=
  observes (fun s => match task_store (outside s) with works => Ok (tasks s !! id) | _ => Throw "redis" end) (saw_task id).
(** The state manager answers the state that results: a cancelled task, and one that ended
    otherwise, is answered unchanged (TaskState.v). *)
Definition updateTaskState (id : string) (st : TaskStateName) : M TaskStateName :=
  r ← sends task_store "redis" (fun s =>
    match tasks s !! id with
    | None => (Throw "Task state not found", s)
    | Some cur => if terminalStates cur && negb (bool_decide (cur = st)) then (Ok cur, s)
                  else (Ok st, note (set_task id st) { s with tasks := <[id := st]> (tasks s) })
    end);
  or_throw r.
(** Only the read of the task can be told from outside; a failure is logged. *)
Definition reportHandoffOnTaskTimeline (record : FollowupHandoffRecord) : M unit :=
  catch (_ ← getTaskState (task_id record); mret tt) (fun _ => mret tt).
Definition taskAttemptEnded (taskId : string) : M bool :=
  st ← getTaskState taskId;
  mret (match st with None => true | Some st => terminalStates st end).

(** ** The pull request on GitHub *)

(** Bodies and links by identifier, which GitHub numbers from 1; a listing is ordered by them. *)
Definition comments_at (k : key) (s : hub) : gmap positive (option string * option string) := default ∅ (comments s !! k).
Definition set_comment (k : key) (id : positive) (c : option string * option string) (s : hub) : hub :=
  { s with comments := <[k := <[id := c]> (comments_at k s)]> (comments s) }.
Definition listing (k : key) (s : hub) : list IssueComment :=
  (fun e => Comment (Zpos e.1) e.2.1 e.2.2) <$> sort_by (fun a b => Pos.leb a.1 b.1) (map_to_list (comments_at k s)).
Definition getPullRequest (record : FollowupHandoffRecord) : M PullRequest :=
  let '(owner, repo) := splitHandoffRepository (repository record) in
  observes (fun s => pull_requests (outside s) (owner ++ "/" ++ repo)%string (pull_request record)) (saw_pull (key_of record)).
(** The pages of the listing are read as one. *)
Definition listComments (record : FollowupHandoffRecord) : M (list IssueComment) :=
  observes (fun s => match github (outside s) with works => Ok (listing (key_of record) s) | _ => Throw "github" end)
           (saw_comments (key_of record)).
Definition NOT_FOUND : string := "404".
Definition patched (k : key) (id : Z) (body : string) (s : hub) : result (option string) * hub :=
  match id with
  | Zpos p =>
      match comments_at k s !! p with
      | None => (Throw NOT_FOUND, s)
      | Some c => (Ok c.2, note (sent_patch k id body) (set_comment k p (Some body, c.2) s))
      end
  | _ => (Throw NOT_FOUND, s)
  end.
Definition patchComment (record : FollowupHandoffRecord) (id : Z) (body : string) : M (option string) :=
  r ← sends github "github" (patched (key_of record) id body); or_throw r.
Definition posted (k : key) (body : string) (s : hub) : option string * hub :=
  let id := Pos.succ (issued s) in let url := comment_url (outside s) (Zpos id) in
  (url, note (sent_post k body) { (set_comment k id (Some body, url) s) with issued := id }).
Definition postComment (record : FollowupHandoffRecord) (body : string) : M (option string) := sends github "github" (posted (key_of record) body).

(** ** Git *)

Definition attachment_of (r : FollowupHandoffRecord) : M WorktreeAttachment :=
  observes (fun s => worktreeAttachment (git (outside s)) (worktree_path r) (branch_name r)) (saw_attachment (worktree_path r) (branch_name r)).
Definition registrations_of (r : FollowupHandoffRecord) : M (list string) :=
  observes (fun s => branchWorktreeRegistrations (git (outside s)) (local_repo_path r) (branch_name r)) (saw_registrations (local_repo_path r) (branch_name r)).
Definition dirty_of (r : FollowupHandoffRecord) : M bool :=
  observes (fun s => hasUncommittedChanges (git (outside s)) (worktree_path r)) (saw_dirty (worktree_path r)).
Definition unpushed_of (r : FollowupHandoffRecord) : M bool :=
  observes (fun s => hasUnpushedCommits (git (outside s)) (worktree_path r) (branch_name r)) (saw_unpushed (worktree_path r) (branch_name r)).
Definition head_of (r : FollowupHandoffRecord) : M string :=
  observes (fun s => head_ (git (outside s)) (worktree_path r)) (saw_head (worktree_path r)).
Definition remote_of (r : FollowupHandoffRecord) : M (option string) :=
  observes (fun s => remoteBranchHead (git (outside s)) (worktree_path r) (branch_name r)) (saw_remote (worktree_path r) (branch_name r)).
Definition ancestor_of (r : FollowupHandoffRecord) (sha : string) : M bool :=
  observes (fun s => isAncestorOfHead (git (outside s)) (worktree_path r) sha) (saw_ancestor (worktree_path r) sha).
Definition commit_work (r : FollowupHandoffRecord) (message : string) : M (option string) :=
  requests (fun s => commitWork (git (outside s)) (worktree_path r) message) (sent_commit (worktree_path r)).
Definition push_branch (r : FollowupHandoffRecord) : M (option string) :=
  requests (fun s => push (git (outside s)) (worktree_path r) (target_repository r) (branch_name r))
           (sent_push (worktree_path r) (target_repository r) (branch_name r)).
Definition release_worktree (r : FollowupHandoffRecord) : M bool :=
  external (fun o => releaseSettledWorktree (git o) (local_repo_path r) (branch_name r) (worktree_path r)).
Definition detach_worktree (r : FollowupHandoffRecord) : M unit := external (fun o => detachWorktreeHead (git o) (worktree_path r)).
Definition restart_branch (r : FollowupHandoffRecord) : M bool :=
  catch (external (fun o => restartBranchFromRemoteHead (git o) (local_repo_path r) (branch_name r))) (fun _ => mret false).

Definition isNonFastForwardPushError (message : string) : bool :=
  includes "[rejected] (fetch first)" message || includes "non-fast-forward" message
  || includes "Updates were rejected because the remote contains work that you do not" message.

(** ** The lease of the pull request *)

Definition on_locks {A} (f : PrLock.locks -> A * PrLock.locks) : M A :=
  sends redis "redis" (fun s => let '(a, l) := f (locks s) in (a, { s with locks := l })).
Definition adoptPRProcessingLock (k predecessor successor : string) : M PRProcessingLockAdoption :=
  on_locks (ADOPT_LOCK_SCRIPT k predecessor successor PR_PROCESSING_LOCK_TTL_SECONDS
    (PR_PROCESSING_LOCK_TTL_SECONDS - PR_PROCESSING_LOCK_FRESHNESS_SECONDS)).
Definition releasePRProcessingLock (k t : string) : M bool := on_locks (RELEASE_LOCK_SCRIPT k t).
(** [m finally { release }]: an error of the release replaces what [m] answered. *)
Definition finally {A} (m : M A) (done : M bool) : M A :=
  r ← catch (a ← m; mret (Ok a)) (fun e => mret (Throw e)); _ ← done; or_throw r.
(** [isOwnershipLost?.()]: what the heartbeat of this worker has reported by now *)
Definition isOwnershipLost : M bool := observes (fun s => Ok (lease_lost s)) saw_lease.

(** ** Liveness of the agent's container *)

Definition inspectLiveness (taskId : string) : M TaskContainerInspection := external (fun o => containers o taskId).
Definition containerIdentityConflict (record : FollowupHandoffRecord) (i : TaskContainerInspection) : bool :=
  match truthy_string (container_id record), container i with
  | Some c, Some c' => negb (bool_decide (c' = c))
  | _, _ => false
  end.
Definition exited (i : TaskContainerInspection) : bool := bool_decide (liveness i ∈ ["stopped"; "not_found"]).
Definition recordFailedClosed (record : FollowupHandoffRecord) (reason : string) : M unit :=
  if bool_decide (status record = HANDOFF_AWAITING_OPERATOR) || bool_decide (status_reason record = Some "publication_failed") then mret tt
  else if bool_decide (status_reason record = Some reason) then mret tt
  else _ ← recordFollowupHandoffDiagnostic record reason; mret tt.

(** ** The claims of a handoff *)

Definition restoreComments (record : FollowupHandoffRecord) : M unit :=
  let '(owner, repo) := splitHandoffRepository (repository record) in
  restorePendingComments (claimed_comments record) owner repo (pull_request record).
Definition withdrawRestoredComments (record : FollowupHandoffRecord) : M unit :=
  let '(owner, repo) := splitHandoffRepository (repository record) in
  withdrawPendingComments (claim_ids record) owner repo (pull_request record).
(** A job under an identifier the queue still holds is not added again. *)
Definition add_job (id : string) (j : FollowupJob) (s : hub) : hub :=
  note (sent_job id) match queue s !! id with Some _ => s | None => { s with queue := <[id := j]> (queue s) } end.
Definition queueRestoredCommentFollowup (record : FollowupHandoffRecord) : M unit :=
  let '(owner, repo) := splitHandoffRepository (repository record) in
  let d := job_data record in
  _ ← randomUUID;
  sends job_queue "queue" (fun s => (tt, add_job
    ("pr-comments-batch-" ++ owner ++ "-" ++ repo ++ "-" ++ show (pull_request record) ++ "-handoff-" ++ incarnation record)%string
    (FJob (default owner (jd_owner d)) (default repo (jd_repo d)) (pull_request record) (default (branch_name record) (jd_branch d))
       match jd_llm d with Some l => Some l | None => llm record end (new_Set (costBudgetTaskIds d ++ [task_id record]))) s)).
