(* ===== verification/HandoffResume.v ===== *)
(** * Follow-up handoffs: resuming an interrupted publication

    src/jobs/followupHandoffResume.ts and followupHandoffTaskState.ts: what recovery does
    with a handoff it has adopted, from the phase the row names. Log lines, and what the
    timeline of the task shows, are left out. [schedules] is whether the caller passed
    [scheduleRestoredComments]; [withdrawRestoredComments] always is passed. *)

From S2P Require Import Prelude JsString Interleave PrLock Handoff.

Open Scope string_scope.
Open Scope Z_scope.
Open Scope list_scope.

Inductive ResumeOutcome :=
  | r_published (commitHash : option string)
  | r_no_changes
  | r_settled
  | r_awaiting_operator (reason : string)
  | r_retry_pending
  | r_cleanup_pending
  | r_ownership_lost
  | r_superseded.
#[export] Instance ResumeOutcome_eq_dec : EqDecision ResumeOutcome.
Proof. solve_decision. Defined.
(** [{ record } | { done }] *)
Definition ResumeStep : Type := FollowupHandoffRecord + ResumeOutcome.
(** [advanced ? { record: advanced } : { done: superseded }] *)
Definition or_superseded (advanced : option FollowupHandoffRecord) : ResumeStep :=
  match advanced with Some r => inl r | None => inr r_superseded end.
(** [if ('done' in step) return step.done; record = step.record] *)
Definition continue_with (m : M ResumeStep) (f : FollowupHandoffRecord -> M ResumeOutcome) : M ResumeOutcome :=
  step ← m; match step with inl r => f r | inr o => mret o end.
(** [const hold = await m; if (hold) return hold] *)
Definition unless_held {A} (m : M (option ResumeOutcome)) (held : ResumeOutcome -> A) (f : M A) : M A :=
  hold ← m; match hold with Some o => mret (held o) | None => f end.
(** [await a ?? await b] *)
Definition or_else (a b : M (option ResumeOutcome)) : M (option ResumeOutcome) :=
  hold ← a; match hold with Some o => mret (Some o) | None => b end.

Definition holdForOperator (record : FollowupHandoffRecord) (reason : string) : M ResumeOutcome :=
  advanced ← advanceFollowupHandoff record (with_status HANDOFF_AWAITING_OPERATOR reason);
  match advanced with
  | None => mret r_superseded
  | Some r => _ ← reportHandoffOnTaskTimeline r; mret (r_awaiting_operator reason)
  end.
Definition withdrawCancelledClaims (record : FollowupHandoffRecord) : M unit :=
  catch (withdrawRestoredComments record) (fun _ => mret tt).
Definition holdCancelled (record : FollowupHandoffRecord) : M ResumeOutcome :=
  _ ← withdrawCancelledClaims record; holdForOperator record "cancelled_by_user".

Definition cancellationHold (record : FollowupHandoffRecord) : M (option ResumeOutcome) :=
  if operator_authorized record then
    lost ← isOwnershipLost; mret (if lost : bool then Some r_ownership_lost else None)
  else
    taskState ← getTaskState (task_id record);
    lost ← isOwnershipLost;
    if lost : bool then mret (Some r_ownership_lost)
    else if negb (bool_decide (taskState = Some CANCELLED)) then mret None
    else o ← holdCancelled record; mret (Some o).

(** [bound && actual !== bound] *)
Definition differs (bound actual : option string) : bool :=
  match truthy_string bound with Some b => negb (bool_decide (actual = Some b)) | None => false end.
Definition validate_remote (record : FollowupHandoffRecord) : M (option ResumeOutcome) :=
  remoteHead ← remote_of record;
  match truthy_string remoteHead with
  | None => mret None
  | Some h =>
      if bool_decide (Some h = head_sha record) then mret None
      else
        ours ← ancestor_of record h;
        if ours : bool then mret None else o ← holdForOperator record "head_advanced_externally"; mret (Some o)
  end.
Definition validatePublicationBinding (record : FollowupHandoffRecord) : M (option ResumeOutcome) :=
  match truthy_string (head_ref record), truthy_string (base_ref record) with
  | None, None => validate_remote record
  | _, _ =>
      pr ← getPullRequest record;
      if differs (head_ref record) (p_head pr) || differs (base_ref record) (p_base pr)
      then o ← holdForOperator record "pr_binding_mismatch"; mret (Some o)
      else validate_remote record
  end.

(** ** The owed comment *)

Definition Published : Type := (option string * Delivery) + ResumeOutcome.
Definition post_owed (record : FollowupHandoffRecord) (body : string) : M Published :=
  unless_held (cancellationHold record) inr (url ← postComment record body; mret (inl (url, recovery))).
Definition patch_or_post (record : FollowupHandoffRecord) (body : string) (patchTarget : option Z) : M Published :=
  match patchTarget with
  | None | Some 0 => post_owed record body
  | Some id =>
      unless_held (cancellationHold record) inr
        (patched ← catch (url ← patchComment record id body; mret (Some url))
                         (fun e => if bool_decide (e = NOT_FOUND) then mret None else throw e);
         match patched with Some url => mret (inl (url, recovery)) | None => post_owed record body end)
  end.
Definition publishOwedComment (record : FollowupHandoffRecord) (body : string) (supersedeFailure : bool) : M Published :=
  match truthy_string (completion_comment_url record) with
  | Some url => mret (inl (Some url, recovery))
  | None =>
      comments ← listComments record;
      let existing := List.find (marked (handoffCommentMarker record)) comments in
      match existing with
      | Some c =>
          let delivery := normalDelivery (ic_body c) in
          if negb (supersedeFailure && bool_decide (delivery = normal_failure)) then mret (inl (html_url c, delivery))
          else patch_or_post record body (Some (ic_id c))
      | None => patch_or_post record body (starting_comment_id record)
      end
  end.

(** ** Settling the task *)

Inductive Finalized := finalized | finalize_lost | finalize_cancelled.
#[export] Instance Finalized_eq_dec : EqDecision Finalized.
Proof. solve_decision. Defined.
Definition finalizeRecoveredTask (record : FollowupHandoffRecord) (outcome : RecoveredTaskOutcome) : M Finalized :=
  let returns_claims := bool_decide (outcome = no_changes) && negb (operator_authorized record) in
  current ← getTaskState (task_id record);
  lost ← isOwnershipLost;
  if lost : bool then mret finalize_lost
  else if returns_claims && bool_decide (current = Some CANCELLED) then mret finalize_cancelled
  else if match current with Some st => terminalStates st | None => false end then
    _ ← reportHandoffOnTaskTimeline record; mret finalized
  else
    updated ← updateTaskState (task_id record) (if failedOutcomes outcome then FAILED else COMPLETED);
    mret (if returns_claims && bool_decide (updated = CANCELLED) then finalize_cancelled else finalized).

(** ** Freeing the branch *)

Definition retiredOutcome (record : FollowupHandoffRecord) : ResumeOutcome :=
  match truthy_string (commit_hash record) with
  | Some c => r_published (Some c)
  | None => if bool_decide (settlement record = Some SETTLEMENT_RETURNED_TO_QUEUE) then r_no_changes else r_settled
  end.
Definition detachRetryOwnedWorktree (record : FollowupHandoffRecord) : M bool :=
  if negb (retryOwnsClaims record) then mret false else _ ← detach_worktree record; mret true.
(** What the attempt to free the branch found: lost ownership, or whether it is free. *)
Definition branch_release (record : FollowupHandoffRecord) : M (option bool) :=
  catch
    (attachment ← attachment_of record;
     lost ← isOwnershipLost;
     if lost : bool then mret None
     else
       freed ← (if negb (bool_decide (attachment = attached)) then mret true
                else settled ← release_worktree record; if settled : bool then mret true else detachRetryOwnedWorktree record);
       if freed : bool then holders ← registrations_of record; mret (Some (bool_decide (holders = []))) else mret (Some false))
    (fun _ => mret (Some false)).
Definition attemptHandoffCleanup (record : FollowupHandoffRecord) : M ResumeOutcome :=
  lost ← isOwnershipLost;
  if lost : bool then mret r_ownership_lost
  else
    released ← branch_release record;
    match released with
    | None => mret r_ownership_lost
    | Some false => _ ← reportHandoffOnTaskTimeline record; mret r_cleanup_pending
    | Some true =>
        lost ← isOwnershipLost;
        if lost : bool then mret r_ownership_lost
        else _ ← finalizeFollowupHandoff record; mret (retiredOutcome record)
    end.

(** ** Outcomes that publish nothing more *)

(** [advanceFollowupHandoff], then the cleanup of the advanced record *)
Definition advance_to_cleanup (record : FollowupHandoffRecord) (changes : FollowupHandoffRecord -> FollowupHandoffRecord) : M ResumeOutcome :=
  advanced ← advanceFollowupHandoff record changes;
  match advanced with Some r => attemptHandoffCleanup r | None => mret r_superseded end.
Definition finishDeliveredFailure (record : FollowupHandoffRecord) (url : option string) : M ResumeOutcome :=
  f ← finalizeRecoveredTask record failure_delivered;
  if negb (bool_decide (f = finalized)) then mret r_ownership_lost
  else advance_to_cleanup record (fun r => { r with phase := cleanup_pending; completion_comment_url := url; status_reason := Some "failure_delivered" }).
Definition finishRetryOwnedClaims (record : FollowupHandoffRecord) : M ResumeOutcome :=
  lost ← isOwnershipLost;
  if lost : bool then mret r_ownership_lost
  else
    advanced ← advanceFollowupHandoff record (fun r => { r with phase := cleanup_pending; status_reason := Some "usage_limit_retry" });
    match advanced with
    | None => mret r_superseded
    | Some r =>
        _ ← catch (current ← getTaskState (task_id record);
                   match current with
                   | Some st =>
                       if terminalStates st then mret tt
                       else lost ← isOwnershipLost;
                            if lost : bool then mret tt else _ ← updateTaskState (task_id record) CANCELLED; mret tt
                   | None => mret tt
                   end) (fun _ => mret tt);
        attemptHandoffCleanup r
    end.

Definition pendingRetryHold (record : FollowupHandoffRecord) : M (option ResumeOutcome) :=
  if negb (bool_decide (status_reason record = Some "publication_failed")) then mret None
  else
    st ← getTaskState (task_id record);
    mret (match st with Some st => if terminalStates st then None else Some r_retry_pending | None => None end).
Definition restoreDeletedWorktree (record : FollowupHandoffRecord) : M ResumeStep :=
  restorable ← asks (fun s => restoreMissingWorktree (git (outside s)));
  match restorable with
  | None => o ← holdForOperator record "worktree_missing"; mret (inr o)
  | Some _ =>
      unless_held (or_else (cancellationHold record) (pendingRetryHold record)) inr
        (marked ← advanceFollowupHandoff record
           (fun r => { r with agent_completed := None; agent_summary := None; status_reason := Some WORKTREE_LOST_REASON });
         match marked with
         | None => mret (inr r_superseded)
         | Some m =>
             restored ← catch (external (fun o => match restoreMissingWorktree (git o) with
                                 | Some f => f (local_repo_path record) (worktree_path record) (branch_name record) | None => Throw "TypeError" end))
                              (fun _ => mret false);
             if negb restored then o ← holdForOperator m "worktree_restore_failed"; mret (inr o)
             else _ ← reportHandoffOnTaskTimeline m; mret (inl m)
         end)
  end.

(** Finalizes the task of a recorded comment, then frees the branch. *)
Definition finishPublishedComment (record : FollowupHandoffRecord) (outcome : RecoveredTaskOutcome) : M ResumeOutcome :=
  if bool_decide (phase record = comment_published) then
    f ← finalizeRecoveredTask record outcome;
    if negb (bool_decide (f = finalized)) then mret r_ownership_lost
    else advance_to_cleanup record (fun r => { r with phase := cleanup_pending })
  else attemptHandoffCleanup record.
Definition with_comment (url : option string) (r : FollowupHandoffRecord) : FollowupHandoffRecord :=
  { r with phase := comment_published; completion_comment_url := url }.

Section Resume.
Variable schedules : bool.

(** The claims go back to the pending list, unless the request is cancelled meanwhile. *)
Definition return_claims (record : FollowupHandoffRecord) : M ResumeOutcome :=
  unless_held (cancellationHold record) id
    (_ ← restoreComments record;
     unless_held (cancellationHold record) id
       (_ ← (if schedules then queueRestoredCommentFollowup record else mret tt);
        f ← finalizeRecoveredTask record no_changes;
        match f with
        | finalize_lost => mret r_ownership_lost
        | finalize_cancelled => holdCancelled record
        | finalized =>
            advance_to_cleanup record (fun r => { r with phase := cleanup_pending; status_reason := Some "returned_to_queue";
                                                         settlement := Some SETTLEMENT_RETURNED_TO_QUEUE })
        end)).
Definition finishWithoutChanges (record : FollowupHandoffRecord) : M ResumeOutcome :=
  notice ← publishOwedComment record (interruptedWithoutChangesBody record) false;
  match notice with
  | inr o => mret o
  | inl (url, normal_completion) =>
      delivered ← advanceFollowupHandoff record (with_comment url);
      match delivered with Some r => finishPublishedComment r (deliveredOutcome r) | None => mret r_superseded end
  | inl (url, normal_failure) => finishDeliveredFailure record url
  | inl (_, recovery) => return_claims record
  end.
Definition finishCompletedWithoutChanges (record : FollowupHandoffRecord) : M ResumeOutcome :=
  delivered ← publishOwedComment record (recoveredNoChangeCompletionBody record) false;
  match delivered with
  | inr o => mret o
  | inl (url, normal_failure) => finishDeliveredFailure record url
  | inl (url, delivery) =>
      published ← advanceFollowupHandoff record (with_comment url);
      match published with
      | None => mret r_superseded
      | Some r => finishPublishedComment r (if bool_decide (delivery = recovery) then completed_without_changes else deliveredOutcome r)
      end
  end.
Definition recoveryCommitMessage (record : FollowupHandoffRecord) : string :=
  ("fix(ai): recover interrupted follow-up for PR #" ++ show (pull_request record) ++ blank_line
   ++ "The agent produced this work before a worker restart interrupted publication. "
   ++ "ProPR adopted the retained worktree and committed it during follow-up handoff recovery.")%string.

(** The checkout of the record: rebuilt when it is missing *)
Definition checkout (record : FollowupHandoffRecord) : M (ResumeOutcome + FollowupHandoffRecord * WorktreeAttachment) :=
  attachment ← attachment_of record;
  if bool_decide (attachment = missing) then
    restored ← restoreDeletedWorktree record;
    match restored with
    | inr o => mret (inl o)
    | inl r => attachment ← attachment_of r; mret (inr (r, attachment))
    end
  else mret (inr (record, attachment)).
(** The commit of the work left uncommitted, if any *)
Definition commit_left (record : FollowupHandoffRecord) : M (ResumeOutcome + option string) :=
  dirty ← dirty_of record;
  if dirty : bool then
    unless_held (cancellationHold record) inl (c ← commit_work record (recoveryCommitMessage record); mret (inr (truthy_string c)))
  else mret (inr None).
Definition work_left (record : FollowupHandoffRecord) (commitHash : option string) : M (option string) :=
  match commitHash with
  | Some c => mret (Some c)
  | None => unpushed ← unpushed_of record;
            if unpushed : bool then h ← head_of record; mret (truthy_string (Some h)) else mret None
  end.
Definition collect_left (record : FollowupHandoffRecord) (c : option string) : M ResumeStep :=
  commitHash ← work_left record c;
  match commitHash with
  | None => o ← (if bool_decide (agent_completed record = Some true) && negb (worktreeWasLost record)
                 then finishCompletedWithoutChanges record else finishWithoutChanges record);
            mret (inr o)
  | Some h => advanced ← advanceFollowupHandoff record (fun r => { r with phase := committed; commit_hash := Some h });
              mret (or_superseded advanced)
  end.
Definition collectAgentOutput (record : FollowupHandoffRecord) : M ResumeStep :=
  found ← checkout record;
  match found with
  | inl o => mret (inr o)
  | inr (record, missing) => o ← holdForOperator record "worktree_missing"; mret (inr o)
  | inr (record, not_on_branch) => o ← holdForOperator record "worktree_not_on_branch"; mret (inr o)
  | inr (record, attached) =>
      left_ ← commit_left record;
      match left_ with inl o => mret (inr o) | inr c => collect_left record c end
  end.

Definition push_recorded (record : FollowupHandoffRecord) : M ResumeStep :=
  pushed ← catch (c ← push_branch record; mret (Some c))
                 (fun e => if isNonFastForwardPushError e then mret None else throw e);
  match pushed with
  | None => o ← holdForOperator record "head_advanced_externally"; mret (inr o)
  | Some c =>
      let commitHash := match truthy_string c with Some c => Some c | None => commit_hash record end in
      advanced ← advanceFollowupHandoff record (fun r => { r with phase := Handoff.pushed; commit_hash := commitHash });
      mret (or_superseded advanced)
  end.
Definition push_checked (record : FollowupHandoffRecord) : M ResumeStep :=
  match truthy_string (commit_hash record) with
  | None => o ← holdForOperator record "recorded_commit_mismatch"; mret (inr o)
  | Some c =>
      h ← head_of record;
      if negb (bool_decide (h = c)) then o ← holdForOperator record "recorded_commit_mismatch"; mret (inr o)
      else unless_held (cancellationHold record) inr (push_recorded record)
  end.
Definition pushCommittedWork (record : FollowupHandoffRecord) : M ResumeStep :=
  unless_held (or_else (cancellationHold record) (validatePublicationBinding record)) inr
    (found ← checkout record;
     match found with
     | inl o => mret (inr o)
     | inr (record, missing) => o ← holdForOperator record "worktree_missing"; mret (inr o)
     | inr (record, not_on_branch) => o ← holdForOperator record "worktree_not_on_branch"; mret (inr o)
     | inr (record, attached) => push_checked record
     end).
Definition publishPushedCompletion (record : FollowupHandoffRecord) : M ResumeStep :=
  published ← publishOwedComment record (recoveredCompletionBody record) true;
  match published with
  | inr o => mret (inr o)
  | inl (url, _) => advanced ← advanceFollowupHandoff record (with_comment url); mret (or_superseded advanced)
  end.

(** ** The phases in order *)

Definition from_comment (record : FollowupHandoffRecord) : M ResumeOutcome :=
  if bool_decide (phase record ∈ [comment_published; cleanup_pending]) then finishPublishedComment record (deliveredOutcome record)
  else mret r_superseded.
Definition from_pushed (record : FollowupHandoffRecord) : M ResumeOutcome :=
  if bool_decide (phase record = pushed) then continue_with (publishPushedCompletion record) from_comment else from_comment record.
Definition from_committed (record : FollowupHandoffRecord) : M ResumeOutcome :=
  if bool_decide (phase record = committed) then continue_with (pushCommittedWork record) from_pushed else from_pushed record.
Definition from_agent (record : FollowupHandoffRecord) : M ResumeOutcome :=
  if bool_decide (phase record ∈ [agent_running; agent_exited]) then continue_with (collectAgentOutput record) from_committed
  else from_committed record.
Definition resumeFollowupHandoff (record : FollowupHandoffRecord) : M ResumeOutcome :=
  if bool_decide (phase record = cleanup_pending) then from_agent record
  else if retryOwnsClaims record then finishRetryOwnedClaims record
  else if bool_decide (settlement record = Some SETTLEMENT_RETRY_SCHEDULING) then holdForOperator record "usage_limit_retry_unconfirmed"
  else
    unless_held (cancellationHold record) id
      (if is_fork record then holdForOperator record "fork_publication_unsupported" else from_agent record).
End Resume.
