(* ===== verification/HandoffRecovery.v ===== *)
(** * Follow-up handoffs: passes of recovery, operators and new requests

    src/jobs/followupHandoffOperator.ts, followupHandoffAutoRelease.ts,
    followupHandoffRecovery.ts and closedPullRequestHandoffs.ts: who takes a handoff over,
    under which lease, and when it is released. The heartbeat of a held lease is one of the
    other steps; it sets [lease_lost]. Counters of a pass are its list of outcomes. *)

From S2P Require Import Prelude JsString Interleave PrLock Handoff HandoffResume.

Open Scope string_scope.
Open Scope Z_scope.
Open Scope list_scope.

(** ** Operators *)

Inductive Refusal := lease_held_by_live_writer | lease_superseded.
#[export] Instance Refusal_eq_dec : EqDecision Refusal.
Proof. solve_decision. Defined.
(** The row is still the one that was read. *)
Definition unmoved (record : FollowupHandoffRecord) (fresh : option FollowupHandoffRecord) : option FollowupHandoffRecord :=
  match fresh with Some r => if is_version record r then Some r else None | None => None end.
Definition underOperatorLease {A} (record : FollowupHandoffRecord) (action : string) (run : FollowupHandoffRecord -> M A) : M (Refusal + A) :=
  id ← randomUUID;
  let successorToken := ("handoff-" ++ action ++ ":" ++ incarnation record ++ ":" ++ id)%string in
  adoption ← adoptPRProcessingLock (lock_key record) (lock_token record) successorToken;
  match adoption with
  | adopted =>
      finally (fresh ← loadFollowupHandoff (key_of record);
               match unmoved record fresh with None => mret (inl lease_superseded) | Some r => v ← run r; mret (inr v) end)
              (releasePRProcessingLock (lock_key record) successorToken)
  | _ => mret (inl lease_held_by_live_writer)
  end.

Definition authorize_changes (fresh r : FollowupHandoffRecord) : FollowupHandoffRecord :=
  if retryOwnsClaims fresh then { r with status := HANDOFF_ACTIVE; status_reason := Some "usage_limit_retry" }
  else { r with status := HANDOFF_ACTIVE; status_reason := Some "operator_authorized"; operator_authorized := true }.
Definition authorizeCancelledFollowupHandoff (k : key) : M (option FollowupHandoffRecord) :=
  record ← loadFollowupHandoff k;
  match record with
  | Some record =>
      if negb (bool_decide (status record = HANDOFF_AWAITING_OPERATOR)) then mret None
      else
        r ← underOperatorLease record "authorize" (fun fresh => advance_and_revoke fresh (authorize_changes fresh));
        mret (match r with inr v => v | inl _ => None end)
  | None => mret None
  end.

Inductive ResumeRefusal := not_found | already_released | requires_cancellation_authorization | resume_superseded | resume_refused (r : Refusal).
Definition resume_changes (fresh r : FollowupHandoffRecord) : FollowupHandoffRecord :=
  { r with status := HANDOFF_ACTIVE; status_reason := Some "operator_resumed";
    settlement := if bool_decide (settlement fresh = Some SETTLEMENT_RETRY_SCHEDULING) then None else settlement r }.
(** [None] where it resumed *)
Definition resumeOperatorHeldFollowupHandoff (k : key) (automatic : bool) : M (option ResumeRefusal) :=
  record ← loadFollowupHandoff k;
  match record with
  | None => mret (Some not_found)
  | Some record =>
      if bool_decide (status record = HANDOFF_ACTIVE) then mret None
      else if negb (bool_decide (status record = HANDOFF_AWAITING_OPERATOR)) then mret (Some already_released)
      else if bool_decide (status_reason record = Some "cancelled_by_user") && negb (operator_authorized record) && negb (retryOwnsClaims record)
      then mret (Some requires_cancellation_authorization)
      else
        r ← underOperatorLease record "resume" (fun fresh =>
          blocked ← (if automatic then st ← getTaskState (task_id fresh);
                                       mret (match st with Some st => negb (bool_decide (st ∈ [COMPLETED; FAILED])) | None => false end)
                     else mret false);
          if blocked : bool then mret None else advanceFollowupHandoff fresh (resume_changes fresh));
        mret (match r with inl r => Some (resume_refused r) | inr None => Some resume_superseded | inr (Some _) => None end)
  end.

Inductive ReleaseRefusal :=
  | r_not_found | r_identity_mismatch | r_agent_still_running | r_liveness_unavailable | r_superseded_ | r_claims_withdrawal_failed
  | r_worktree_holds_unpublished_work | r_branch_still_registered | r_registrations_unavailable | r_unpublished_commits_still_on_branch
  | r_lease (r : Refusal).
#[export] Instance ReleaseRefusal_eq_dec : EqDecision ReleaseRefusal.
Proof. solve_decision. Defined.
Definition branchReleaseRefusal (record : FollowupHandoffRecord) : M (option ReleaseRefusal) :=
  catch (holders ← registrations_of record; mret (match holders with [] => None | _ => Some r_branch_still_registered end))
        (fun _ => mret (Some r_registrations_unavailable)).
Definition suppress_and_withdraw (record : FollowupHandoffRecord) : M unit :=
  _ ← recordCancelledClaims record (claim_ids record); withdrawRestoredComments record.
Definition cancelledClaimsRefusal (record : FollowupHandoffRecord) : M (option ReleaseRefusal) :=
  if operator_authorized record || retryOwnsClaims record then mret None
  else
    catch (task ← getTaskState (task_id record);
           if negb (bool_decide (status_reason record = Some "cancelled_by_user")) && negb (bool_decide (task = Some CANCELLED)) then mret None
           else _ ← suppress_and_withdraw record; mret None)
          (fun _ => mret (Some r_claims_withdrawal_failed)).
Definition confirmUnconfirmedRetryOwnership (record : FollowupHandoffRecord) : M (option FollowupHandoffRecord) :=
  if negb (bool_decide (settlement record = Some SETTLEMENT_RETRY_SCHEDULING)) then mret (Some record)
  else advance_and_revoke record (fun r => { r with settlement := Some SETTLEMENT_RETRY_SCHEDULED }).

(** [force], the reason recorded and [restartBranch]; [None] where it released. *)
Record ReleaseOptions := ReleaseOf { force : bool; reason_ : option string; restartBranch : bool }.
Definition release_reason (o : ReleaseOptions) : string :=
  match reason_ o with Some r => r | None => if force o then "released_by_operator_force" else "released_by_operator" end.
Definition release_checked (o : ReleaseOptions) (fresh : FollowupHandoffRecord) : M (option ReleaseRefusal) :=
  refusal ← branchReleaseRefusal fresh;
  match refusal with
  | Some r => mret (Some r)
  | None =>
      clean ← (if restartBranch o then restart_branch fresh else mret true);
      if negb clean then mret (Some r_unpublished_commits_still_on_branch)
      else
        advanced ← advanceFollowupHandoff fresh (with_status HANDOFF_RELEASED (release_reason o));
        mret (match advanced with Some _ => None | None => Some r_superseded_ end)
  end.
Definition release_fresh (o : ReleaseOptions) (read : FollowupHandoffRecord) : M (option ReleaseRefusal) :=
  fresh ← confirmUnconfirmedRetryOwnership read;
  match fresh with
  | None => mret (Some r_superseded_)
  | Some fresh =>
      claims ← cancelledClaimsRefusal fresh;
      match claims with
      | Some r => mret (Some r)
      | None =>
          settled ← release_worktree fresh;
          if settled : bool then release_checked o fresh
          else if negb (force o) then mret (Some r_worktree_holds_unpublished_work)
          else
            attachment ← attachment_of fresh;
            _ ← (if bool_decide (attachment = attached) then detach_worktree fresh else mret tt);
            release_checked o fresh
      end
  end.
Definition releaseFollowupHandoffRecord (k : key) (o : ReleaseOptions) : M (option ReleaseRefusal) :=
  record ← loadFollowupHandoff k;
  match record with
  | None => mret (Some r_not_found)
  | Some record =>
      if bool_decide (status record = HANDOFF_RELEASED) then mret None
      else
        inspection ← inspectLiveness (task_id record);
        if containerIdentityConflict record inspection then
          _ ← recordFailedClosed record "container_identity_mismatch"; mret (Some r_identity_mismatch)
        else if bool_decide (liveness inspection = "running") then mret (Some r_agent_still_running)
        else if negb (exited inspection) then mret (Some r_liveness_unavailable)
        else
          r ← underOperatorLease record "release" (release_fresh o);
          mret (match r with inr v => v | inl r => Some (r_lease r) end)
  end.

(** ** Automatic release *)

Definition WORKTREE_GAVE_UP_HOLDS : list string :=
  ["worktree_not_on_branch"; "worktree_missing"; "worktree_restore_failed"; "head_advanced_externally"; "recorded_commit_mismatch"].
Definition RELEASABLE_HOLDS : list string := WORKTREE_GAVE_UP_HOLDS ++ ["cancelled_by_user"].
Definition hold_reason (record : FollowupHandoffRecord) : string := default "" (status_reason record).

Definition predecessorReleasable (record : FollowupHandoffRecord) (currentTaskId : string) : M bool :=
  if operator_authorized record || retryOwnsClaims record then mret false
  else
    match status record with
    | HANDOFF_ACTIVE =>
        if bool_decide (task_id record = currentTaskId) && bool_decide (hold_reason record = "publication_failed")
        then attachment ← attachment_of record; mret (negb (bool_decide (attachment = attached)))
        else mret false
    | HANDOFF_RELEASED => mret false
    | HANDOFF_AWAITING_OPERATOR =>
        if bool_decide (task_id record = currentTaskId) then mret (bool_decide (hold_reason record ∈ WORKTREE_GAVE_UP_HOLDS))
        else if bool_decide (hold_reason record ∈ RELEASABLE_HOLDS) then taskAttemptEnded (task_id record) else mret false
    end.
(** The notice is posted without a marker and its failure swallowed. *)
Definition announceRelease (record : FollowupHandoffRecord) (body : string) : M unit :=
  _ ← reportHandoffOnTaskTimeline record;
  catch (_ ← external octokit;
         pull ← getPullRequest record;
         if negb (bool_decide (p_state pull = pull_open)) then mret tt else _ ← postComment record body; mret tt)
        (fun _ => mret tt).
Definition HOLD_EXPLANATIONS (reason : string) : string :=
  if bool_decide (reason = "cancelled_by_user") then "had been cancelled"
  else if bool_decide (reason = "worktree_not_on_branch") then "had already failed and given up its working copy"
  else if bool_decide (reason ∈ ["worktree_missing"; "worktree_restore_failed"]) then "had lost its working copy"
  else if bool_decide (reason ∈ ["head_advanced_externally"; "recorded_commit_mismatch"]) then "was overtaken by newer commits on the branch"
  else "could not publish anything more".
Definition release_notice (record : FollowupHandoffRecord) : string :=
  ("ℹ️ **Cleared a stuck follow-up** so new requests on this pull request can run." ++ blank_line
   ++ "An earlier follow-up (task `" ++ task_id record ++ "`) " ++ HOLD_EXPLANATIONS (hold_reason record)
   ++ ", so nothing more could be published from it. If its request still matters, comment again.")%string.

(** [cancelled] short-circuits: the task is read only where the reason does not decide. *)
Definition predecessor_cancelled (record : FollowupHandoffRecord) (currentTaskId : string) : M bool :=
  if bool_decide (task_id record = currentTaskId) then mret false
  else if bool_decide (status_reason record = Some "cancelled_by_user") then mret true
  else st ← getTaskState (task_id record); mret (bool_decide (st = Some CANCELLED)).
Definition free_branch (record : FollowupHandoffRecord) : M unit :=
  settled ← release_worktree record;
  if settled : bool then mret tt
  else attachment ← attachment_of record; if bool_decide (attachment = attached) then detach_worktree record else mret tt.
Definition releasePredecessorInline (record : FollowupHandoffRecord) (currentTaskId : string) : M (option (list Z)) :=
  cancelled ← predecessor_cancelled record currentTaskId;
  let claimIds := if cancelled : bool then claim_ids record else [] in
  _ ← (if cancelled : bool then suppress_and_withdraw record else mret tt);
  _ ← free_branch record;
  holders ← registrations_of record;
  match holders with
  | _ :: _ => mret None
  | [] =>
      restarted ← restart_branch record;
      if negb restarted then mret None
      else
        let ownRetry := bool_decide (task_id record = currentTaskId) in
        released ← advanceFollowupHandoff record
          (with_status HANDOFF_RELEASED (if ownRetry then "superseded_by_retry" else "auto_released_for_new_request"));
        match released with
        | None => mret None
        | Some _ => _ ← (if ownRetry then mret tt else announceRelease record (release_notice record)); mret (Some claimIds)
        end
  end.

Section Settle.
(** [FOLLOWUP_HOLD_AUTO_RELEASE_HOURS], in milliseconds *)
Variable staleHoldMs : Z.
Definition settle_hold (record : FollowupHandoffRecord) (t : Z) : M unit :=
  st ← getTaskState (task_id record);
  if bool_decide (status_reason record = Some "worktree_missing") && negb (bool_decide (st = Some CANCELLED)) then
    over ← taskAttemptEnded (task_id record);
    if negb over then mret tt else _ ← resumeOperatorHeldFollowupHandoff (key_of record) true; mret tt
  else if t - updated_at record <? staleHoldMs then mret tt
  else
    over ← taskAttemptEnded (task_id record);
    if negb over then mret tt
    else
      refusal ← releaseFollowupHandoffRecord (key_of record) (ReleaseOf true (Some "auto_released_stale_hold") true);
      match refusal with None => announceRelease record (release_notice record) | Some _ => mret tt end.
Definition settleStuckHolds : M unit :=
  held ← loadFollowupHandoffs (fun r => bool_decide (status r = HANDOFF_AWAITING_OPERATOR));
  t ← asks now;
  _ ← each (fun record => catch (settle_hold record t) (fun _ => mret tt))
        (filter (fun r => hold_reason r ∈ RELEASABLE_HOLDS /\ operator_authorized r = false /\ retryOwnsClaims r = false) held);
  mret tt.

(** ** A pass of recovery *)

Inductive PassOutcome := p_locked | p_resumed (o : ResumeOutcome).
Definition installs (token : string) (r : FollowupHandoffRecord) : FollowupHandoffRecord := { r with lock_token := token }.
(** The heartbeat starts: nothing is reported lost yet. *)
Definition startHeartbeat : M unit := call (fun s => (tt, { s with lease_lost := false })).
Definition adoptAndResume (record : FollowupHandoffRecord) : M PassOutcome :=
  id ← randomUUID;
  let successorToken := ("handoff-recovery:" ++ incarnation record ++ ":" ++ id)%string in
  adoption ← adoptPRProcessingLock (lock_key record) (lock_token record) successorToken;
  match adoption with
  | adopted =>
      finally
        (fresh ← loadFollowupHandoff (key_of record);
         match fresh with
         | Some fresh =>
             if negb (bool_decide (incarnation fresh = incarnation record)) || negb (bool_decide (generation fresh = generation record))
                || negb (bool_decide (status fresh = HANDOFF_ACTIVE)) then mret (p_resumed r_superseded)
             else
               owned ← advanceFollowupHandoff fresh (installs successorToken);
               match owned with
               | None => mret (p_resumed r_superseded)
               | Some owned => _ ← startHeartbeat; _ ← external octokit; o ← resumeFollowupHandoff true owned; mret (p_resumed o)
               end
         | None => mret (p_resumed r_superseded)
         end)
        (releasePRProcessingLock (lock_key record) successorToken)
  | _ => mret p_locked
  end.

Inductive HandoffOutcome := h_failed_closed | h_live_agent | h_pass (o : PassOutcome) | h_error.
Definition recover_one (record : FollowupHandoffRecord) : M HandoffOutcome :=
  catch (inspection ← inspectLiveness (task_id record);
         if containerIdentityConflict record inspection then
           _ ← recordFailedClosed record "container_identity_mismatch"; mret h_failed_closed
         else if bool_decide (liveness inspection = "running") then _ ← reportHandoffOnTaskTimeline record; mret h_live_agent
         else if negb (exited inspection) then _ ← recordFailedClosed record "liveness_unavailable"; mret h_failed_closed
         else o ← adoptAndResume record; mret (h_pass o))
        (fun _ => mret h_error).
Definition recoverInterruptedFollowupHandoffs (k : option key) : M (list HandoffOutcome) :=
  handoffs ← match k with
             | Some k => r ← loadFollowupHandoff k;
                         mret (match r with Some r => if bool_decide (status r = HANDOFF_ACTIVE) then [r] else [] | None => [] end)
             | None => _ ← settleStuckHolds; loadFollowupHandoffs (fun r => bool_decide (status r = HANDOFF_ACTIVE))
             end;
  each recover_one handoffs.
End Settle.

(** ** A new writer behind its predecessor *)

Inductive Blocked :=
  | predecessor_agent_still_running | predecessor_liveness_unavailable | predecessor_awaiting_operator
  | predecessor_container_identity_mismatch | predecessor_branch_still_held | predecessor_retry_pending.
Inductive PredecessorAdoption := a_none | a_blocked (b : Blocked) | a_resumed (o : ResumeOutcome) | a_released_claims (ids : list Z).

Definition releasedCancelledClaimIds (record : FollowupHandoffRecord) : M (list Z) :=
  if operator_authorized record || retryOwnsClaims record then mret []
  else task ← getTaskState (task_id record); mret (if bool_decide (task = Some CANCELLED) then claim_ids record else []).
Definition claims_found (ids : list Z) : PredecessorAdoption := match ids with [] => a_none | _ => a_released_claims ids end.
Definition releaseForWriter (record : FollowupHandoffRecord) (currentTaskId : string) : M PredecessorAdoption :=
  claimIds ← releasePredecessorInline record currentTaskId;
  mret (match claimIds with
        | None => a_blocked (if bool_decide (status record = HANDOFF_AWAITING_OPERATOR) then predecessor_awaiting_operator else predecessor_branch_still_held)
        | Some ids => claims_found ids
        end).
Definition pendingRetryOwnsMissingWorktree (record : FollowupHandoffRecord) : M bool :=
  if negb (bool_decide (status_reason record = Some "publication_failed")) then mret false
  else
    attachment ← attachment_of record;
    if negb (bool_decide (attachment = missing)) then mret false
    else hold ← pendingRetryHold record; mret (match hold with Some _ => true | None => false end).
Definition installs_successor (ownerToken : string) (recoveredBy : option string) (r : FollowupHandoffRecord) : FollowupHandoffRecord :=
  { r with lock_token := ownerToken; successor_task_id := match recoveredBy with Some s => Some s | None => successor_task_id r end }.
Definition adopt_recoverable (record : FollowupHandoffRecord) (currentTaskId lockToken : string) : M PredecessorAdoption :=
  owned ← pendingRetryOwnsMissingWorktree record;
  if owned : bool then mret (a_blocked predecessor_retry_pending)
  else
    let redelivery := bool_decide (task_id record = currentTaskId) in
    ownerToken ← (if redelivery then id ← randomUUID; mret (lockToken ++ "#redelivery:" ++ id)%string else mret lockToken);
    adopted ← advanceFollowupHandoff record (installs_successor ownerToken (if redelivery then None else Some currentTaskId));
    match adopted with
    | None => mret (a_resumed r_superseded)
    | Some r => _ ← external octokit; o ← resumeFollowupHandoff false r; mret (a_resumed o)
    end.
Definition adoptPredecessorFollowupHandoff (owner repo : string) (pr : Z) (currentTaskId lockToken : string) : M PredecessorAdoption :=
  record ← loadFollowupHandoff (handoffRepositoryKey owner repo, pr);
  match record with
  | None => mret a_none
  | Some record =>
      if bool_decide (status record = HANDOFF_RELEASED) then ids ← releasedCancelledClaimIds record; mret (claims_found ids)
      else
        releasable ← predecessorReleasable record currentTaskId;
        if bool_decide (status record = HANDOFF_AWAITING_OPERATOR) && negb releasable then mret (a_blocked predecessor_awaiting_operator)
        else
          inspection ← inspectLiveness (task_id record);
          if containerIdentityConflict record inspection then
            _ ← recordFailedClosed record "container_identity_mismatch"; mret (a_blocked predecessor_container_identity_mismatch)
          else if bool_decide (liveness inspection = "running") then mret (a_blocked predecessor_agent_still_running)
          else if negb (exited inspection) then
            _ ← recordFailedClosed record "liveness_unavailable"; mret (a_blocked predecessor_liveness_unavailable)
          else if releasable : bool then releaseForWriter record currentTaskId
          else adopt_recoverable record currentTaskId lockToken
  end.

(** ** Settlement after a handled failure *)

(** A failure to read counts as no checkpoint. *)
Definition publicationCheckpointRetained (k : key) : M bool :=
  catch (b ← external continuation_retained;
         if b : bool then _ ← call (fun s => (tt, note (saw_continuation k) s)); mret true else mret false)
        (fun _ => mret false).
Definition settleOwnershipElsewhere (record : FollowupHandoffRecord) (cancelled : bool) : M bool :=
  if retryOwnsClaims record then
    _ ← advanceFollowupHandoff record (fun r => { r with phase := cleanup_pending; status_reason := Some "usage_limit_retry" }); mret true
  else if negb cancelled then mret false
  else _ ← advanceFollowupHandoff record (with_status HANDOFF_AWAITING_OPERATOR "cancelled_by_user"); mret true.
(** Whether something is unpublished, and whether the branch is held *)
Definition publication_evidence (record : FollowupHandoffRecord) : M (bool * bool) :=
  let publicationPending := bool_decide (phase record ∈ [committed; pushed]) in
  catch (attachment ← attachment_of record;
         match attachment with
         | missing => holders ← registrations_of record; mret (publicationPending, negb (bool_decide (holders = [])))
         | not_on_branch => mret (true, true)
         | attached =>
             if publicationPending then mret (true, true)
             else dirty ← dirty_of record;
                  if dirty : bool then mret (true, true) else unpushed ← unpushed_of record; mret (unpushed, true)
         end)
        (fun _ => mret (true, true)).
Definition settle_by_evidence (record : FollowupHandoffRecord) : M unit :=
  evidence ← publication_evidence record;
  let '(unpublished, branchHeld) := evidence in
  if unpublished : bool then _ ← advanceFollowupHandoff record (fun r => { r with status_reason := Some "publication_failed" }); mret tt
  else if branchHeld : bool then
    _ ← advanceFollowupHandoff record (fun r => { r with phase := cleanup_pending; status_reason := Some "publication_settled" }); mret tt
  else _ ← finalizeFollowupHandoff record; mret tt.
Definition settleFollowupHandoffAfterFailure (owner repo : string) (pr : Z) (taskId : string) (cancelled : bool) : M unit :=
  let k := (handoffRepositoryKey owner repo, pr) in
  record ← loadFollowupHandoff k;
  match record with
  | None => mret tt
  | Some record =>
      if negb (bool_decide (task_id record = taskId)) || negb (bool_decide (status record = HANDOFF_ACTIVE)) then mret tt
      else
        retained ← publicationCheckpointRetained k;
        if retained : bool then _ ← finalizeFollowupHandoff record; mret tt
        else
          settled ← settleOwnershipElsewhere record cancelled;
          if settled : bool then mret tt
          else if bool_decide (phase record ∈ [comment_published; cleanup_pending]) then mret tt
          else settle_by_evidence record
  end.

(** ** Closed pull requests *)

Definition releaseClosedPullRequestHandoff (record : FollowupHandoffRecord) (merged : bool) : M (option ReleaseRefusal) :=
  refusal ← releaseFollowupHandoffRecord (key_of record)
    (ReleaseOf true (Some (if merged then "released_pr_merged" else "released_pr_closed")) false);
  match refusal with
  | Some r => mret (Some r)
  | None =>
      let '(owner, repo) := splitHandoffRepository (repository record) in
      let k := getPendingPrCommentsKey (default owner (jd_owner (job_data record))) (default repo (jd_repo (job_data record))) (pull_request record) in
      _ ← sends redis "redis" (fun s => (tt, set_pending k [] s)); mret None
  end.
(** [None]: not released *)
Definition releaseHeldHandoffOfClosedPullRequest (owner repo : string) (pr : Z) (merged : bool) : M bool :=
  catch (record ← loadFollowupHandoff (to_lower (owner ++ "/" ++ repo)%string, pr);
         match record with
         | Some record =>
             if bool_decide (status record = HANDOFF_AWAITING_OPERATOR)
             then refusal ← releaseClosedPullRequestHandoff record merged; mret (match refusal with None => true | Some _ => false end)
             else mret false
         | None => mret false
         end) (fun _ => mret false).
Definition CLOSED_PULL_REQUEST_CHECK_INTERVAL_MS : Z := 10 * 60000.
Definition check_key (r : FollowupHandoffRecord) : string := (repository r ++ "#" ++ show (pull_request r) ++ "#" ++ incarnation r)%string.
Inductive ClosedCheck := still_open | closed_released | closed_refused | check_error.
Definition check_closed (record : FollowupHandoffRecord) : M ClosedCheck :=
  catch (_ ← external octokit;
         pull ← getPullRequest record;
         match p_state pull with
         | pull_open => mret still_open
         | st => refusal ← releaseClosedPullRequestHandoff record (bool_decide (st = pull_merged));
                 mret (match refusal with None => closed_released | Some _ => closed_refused end)
         end) (fun _ => mret check_error).
(** [lastChecked] is the memory of this process. *)
Fixpoint check_held (lastChecked : gmap string Z) (held : list FollowupHandoffRecord) : M (gmap string Z * list ClosedCheck) :=
  match held with
  | [] => mret (lastChecked, [])
  | record :: held =>
      t ← asks now;
      if match lastChecked !! check_key record with Some at_ => t - at_ <? CLOSED_PULL_REQUEST_CHECK_INTERVAL_MS | None => false end
      then check_held lastChecked held
      else
        t ← asks now;
        c ← check_closed record;
        r ← check_held (<[check_key record := t]> lastChecked) held;
        mret (fst r, c :: snd r)
  end.
Definition releaseClosedPullRequestHandoffs (lastChecked : gmap string Z) : M (gmap string Z * list ClosedCheck) :=
  held ← loadFollowupHandoffs (fun r => bool_decide (status r = HANDOFF_AWAITING_OPERATOR));
  r ← check_held lastChecked held;
  mret (filter (fun e => e.1 ∈ (check_key <$> held)) (fst r), snd r).
