(* ===== verification/HandoffWriter.v ===== *)
(** * Follow-up handoffs: the writer's own checkpoints and its admission

    src/jobs/prCommentHandoffIntegration.ts: the handoff a pull request comment job records
    before its agent launches, the checkpoints it writes at every phase, its retirement
    after cleanup, and the gate that settles a predecessor before a new worktree is
    prepared. What the job does while it is blocked (waiting in place, a replacement job,
    the end of the wait on a closed pull request) is left out. *)

From S2P Require Import Prelude JsString Interleave Handoff HandoffResume HandoffRecovery.

Open Scope string_scope.
Open Scope Z_scope.
Open Scope list_scope.

Record HandoffCarrier := Carrier { followupHandoff : option FollowupHandoffRecord; followupHandoffOwnershipLost : bool }.
Definition carries (r : FollowupHandoffRecord) : HandoffCarrier := Carrier (Some r) false.
(** A checkpoint of the state a job carries, which a thrown error leaves changed *)
Abbreviation Step A := (@Local_ hub HandoffCarrier A).

Definition recordExecutionHandoff (new_row : FollowupHandoffRecord) : Step unit :=
  r ← lift (recordFollowupHandoff new_row);
  _ ← assign (fun c => Carrier r (followupHandoffOwnershipLost c));
  match r with Some _ => mret tt | None => raise "handoff could not be recorded" end.

Definition OWNERSHIP_LOST : string := "FollowupHandoffOwnershipLostError".
(** The re-read row is still this writer's: every adoption installs a new owner token. *)
Definition still_owned (record fresh : FollowupHandoffRecord) : bool :=
  same_attempt record fresh && bool_decide (status fresh = HANDOFF_ACTIVE)
  && bool_decide (lock_token fresh = lock_token record) && bool_decide (successor_task_id fresh = successor_task_id record).
Definition lose_ownership {A} : Step A := _ ← assign (fun _ => Carrier None true); raise OWNERSHIP_LOST.
Definition advanceExecutionHandoff (changes : FollowupHandoffRecord -> FollowupHandoffRecord) : Step unit :=
  c ← locals;
  if followupHandoffOwnershipLost c then raise OWNERSHIP_LOST
  else
    match followupHandoff c with
    | None => mret tt
    | Some record =>
        advanced ← lift (advanceFollowupHandoff record changes);
        match advanced with
        | Some r => assign (fun c => Carrier (Some r) (followupHandoffOwnershipLost c))
        | None =>
            fresh ← lift (loadFollowupHandoff (key_of record));
            match fresh with
            | Some fresh =>
                if still_owned record fresh then
                  retried ← lift (advanceFollowupHandoff fresh changes);
                  match retried with
                  | Some r => assign (fun c => Carrier (Some r) (followupHandoffOwnershipLost c))
                  | None => lose_ownership
                  end
                else lose_ownership
            | None => lose_ownership
            end
        end
    end.

Definition markExecutionHandoffContainer (containerId : string) : Step unit :=
  advanceExecutionHandoff (fun r => { r with container_id := Some containerId }).
Definition markExecutionHandoffAgentExited (agentCompleted : bool) (analysisSummary : option string) : Step unit :=
  advanceExecutionHandoff (fun r => { r with phase := agent_exited; agent_completed := Some agentCompleted;
    agent_summary := if agentCompleted then truthy_string analysisSummary else None }).
Definition markExecutionHandoffCommitted (commitHash : option string) : Step unit :=
  advanceExecutionHandoff (fun r => { r with phase := committed; commit_hash := commitHash }).
Definition markExecutionHandoffPushed (commitHash : option string) : Step unit :=
  advanceExecutionHandoff (fun r => { r with phase := pushed; commit_hash := commitHash }).
Definition markExecutionHandoffCommentPublished (commentUrl : option string) : Step unit :=
  advanceExecutionHandoff (fun r => { r with phase := comment_published; completion_comment_url := commentUrl }).
Definition checkpoint_scheduling : Step unit :=
  c ← locals;
  if followupHandoffOwnershipLost c then raise OWNERSHIP_LOST
  else advanceExecutionHandoff (fun r => { r with settlement := Some SETTLEMENT_RETRY_SCHEDULING }).
Definition checkpoint_scheduled : Step unit :=
  handle (advanceExecutionHandoff (fun r => { r with settlement := Some SETTLEMENT_RETRY_SCHEDULED }))
         (fun e => if bool_decide (e = OWNERSHIP_LOST) then raise e else mret tt).
Definition markExecutionHandoffCleanupPending : Step unit :=
  handle (advanceExecutionHandoff (fun r => { r with phase := cleanup_pending }))
         (fun e => if bool_decide (e = OWNERSHIP_LOST) then mret tt else raise e).

Definition retire_after_cleanup (record : FollowupHandoffRecord) : M unit :=
  catch (fresh ← loadFollowupHandoff (key_of record);
         match fresh with
         | Some fresh =>
             if negb (same_attempt record fresh) || negb (bool_decide (status fresh = HANDOFF_ACTIVE))
                || negb (bool_decide (phase fresh = cleanup_pending)) then mret tt
             else
               holders ← registrations_of fresh;
               match holders with [] => _ ← finalizeFollowupHandoff fresh; mret tt | _ => mret tt end
         | None => mret tt
         end) (fun _ => mret tt).
Definition retireExecutionHandoffAfterCleanup : Step unit :=
  c ← locals;
  match followupHandoff c with
  | None => mret tt
  | Some record => _ ← assign (fun c => Carrier None (followupHandoffOwnershipLost c)); lift (retire_after_cleanup record)
  end.
(** The worktree this writer may still clean up *)
Definition writerOwnedWorktree {A} (c : HandoffCarrier) (worktreeInfo : option A) : option A :=
  if followupHandoffOwnershipLost c then None else worktreeInfo.

(** ** Admission *)

Inductive Gate :=
  | admitted (commentsToProcess : list UnprocessedComment)
  | skipped_cancelled_claims
  | blocked_by (reason : string).

Definition blocked_reason (b : Blocked) : string :=
  match b with
  | predecessor_agent_still_running => "predecessor_agent_still_running"
  | predecessor_liveness_unavailable => "predecessor_liveness_unavailable"
  | predecessor_awaiting_operator => "predecessor_awaiting_operator"
  | predecessor_container_identity_mismatch => "predecessor_container_identity_mismatch"
  | predecessor_branch_still_held => "predecessor_branch_still_held"
  | predecessor_retry_pending => "predecessor_retry_pending"
  end.
Definition predecessorBlockReason (adoption : PredecessorAdoption) : option string :=
  match adoption with
  | a_blocked b => Some (blocked_reason b)
  | a_resumed (r_awaiting_operator _) => Some "predecessor_awaiting_operator"
  | a_resumed r_ownership_lost => Some "predecessor_ownership_lost"
  | a_resumed r_retry_pending => Some "predecessor_retry_pending"
  | a_resumed r_cleanup_pending => Some "predecessor_cleanup_pending"
  | a_resumed r_superseded => Some "predecessor_superseded"
  | _ => None
  end.
(** The comments left after the claims of cancelled predecessors are dropped *)
Definition drop_claims (ids : list Z) (l : list UnprocessedComment) : list UnprocessedComment := filter (fun c => c_id c ∉ ids) l.
Definition dropReleasedCancelledClaims (ids : list Z) (l : list UnprocessedComment) : Gate :=
  let kept := drop_claims ids l in
  if (length kept <? length l)%nat && bool_decide (kept = []) then skipped_cancelled_claims else admitted kept.
(** The row moved on meanwhile: at most two more attempts. *)
Fixpoint adopt_attempts (more : nat) (owner repo : string) (pr : Z) (taskId lockToken : string) : M PredecessorAdoption :=
  adoption ← adoptPredecessorFollowupHandoff owner repo pr taskId lockToken;
  match more, adoption with
  | S more, a_resumed r_superseded => adopt_attempts more owner repo pr taskId lockToken
  | _, _ => mret adoption
  end.
Definition adopted_claims (adoption : PredecessorAdoption) : list Z := match adoption with a_released_claims ids => ids | _ => [] end.
(** A job left without comments lets go of the lease. *)
Definition gatePredecessorHandoff (owner repo : string) (pr : Z) (taskId lockKey lockToken : string) (captured : list UnprocessedComment) : M Gate :=
  _ ← startHeartbeat;
  r ← catch (adoption ← adopt_attempts 2 owner repo pr taskId lockToken;
             ids ← loadCancelledClaimIds (handoffRepositoryKey owner repo, pr);
             mret (Some (adoption, ids)))
            (fun _ => mret None);
  let gate := match r with
              | None => blocked_by "predecessor_recovery_failed"
              | Some (adoption, ids) =>
                  match predecessorBlockReason adoption with
                  | Some reason => blocked_by reason
                  | None => dropReleasedCancelledClaims (ids ++ adopted_claims adoption) captured
                  end
              end in
  match gate with
  | skipped_cancelled_claims => _ ← releasePRProcessingLock lockKey lockToken; mret gate
  | _ => mret gate
  end.
