(* ===== verification/HandoffGuards.v ===== *)
(** * Follow-up handoffs: what recovery may publish

    Every request that publishes (a commit, a push, a comment, the return of claims and the
    job that picks them up) comes right after a look at the task and at the lease; a push
    comes with fresh evidence of checkout, commit, pull request and remote; and a handoff
    has at most one marked comment, however often and from wherever recovery repeats. *)

From S2P Require Import Prelude JsString Interleave Handoff HandoffResume.

Open Scope string_scope.
Open Scope Z_scope.
Open Scope list_scope.

(** ** Publications and their evidence *)

Definition publishes (e : Event) : bool :=
  match e with
  | sent_commit _ _ | sent_push _ _ _ _ | sent_patch _ _ _ | sent_post _ _ | restored_claims _ _ | sent_job _ => true
  | _ => false
  end.
(** The last two answers: the task is not cancelled (or an operator authorized it), and the
    lease is not known to be lost. *)
Definition permitted (r : FollowupHandoffRecord) (l : list Event) : Prop :=
  exists l', if operator_authorized r then l = l' ++ [saw_lease false]
             else exists st, l = l' ++ [saw_task (task_id r) st; saw_lease false] /\ st <> Some CANCELLED.

(** The newest answer to a question *)
Definition newest {A} (f : Event -> option A) (l : list Event) : option A := last (omap f l).
Lemma newest_snoc {A} (f : Event -> option A) l e : newest f (l ++ [e]) = match f e with Some a => Some a | None => newest f l end.
Proof. unfold newest. rewrite omap_app. cbn. destruct (f e); [by rewrite last_snoc|by rewrite app_nil_r]. Qed.

Section Evidence.
Variable r : FollowupHandoffRecord.
Definition here (path branch : string) : bool := bool_decide (path = worktree_path r) && bool_decide (branch = branch_name r).
Definition attachment_answer (e : Event) : option WorktreeAttachment :=
  match e with saw_attachment p b a => if here p b then Some a else None | _ => None end.
Definition head_answer (e : Event) : option string :=
  match e with saw_head p c => if bool_decide (p = worktree_path r) then Some c else None | _ => None end.
Definition remote_answer (e : Event) : option (option string) :=
  match e with saw_remote p b h => if here p b then Some h else None | _ => None end.
Definition pull_answer (e : Event) : option PullRequest :=
  match e with saw_pull k p => if bool_decide (k = key_of r) then Some p else None | _ => None end.
(** The pull request has the refs the handoff was bound to. *)
Definition bound (l : list Event) : Prop :=
  (truthy_string (head_ref r) = None /\ truthy_string (base_ref r) = None)
  \/ exists p, newest pull_answer l = Some p /\ differs (head_ref r) (p_head p) = false /\ differs (base_ref r) (p_base p) = false.
(** The remote head is the one the agent built on, or an ancestor of the work. *)
Definition remote_ours (l : list Event) : Prop :=
  exists h, newest remote_answer l = Some h
    /\ (truthy_string h = None \/ h = head_sha r \/ exists x, h = Some x /\ saw_ancestor (worktree_path r) x true ∈ l).
Definition push_evidence (l : list Event) : Prop :=
  bound l /\ remote_ours l /\ newest attachment_answer l = Some attached
  /\ exists c, newest head_answer l = Some c /\ (phase r = committed -> commit_hash r = Some c).
End Evidence.

(** ** Steps and assertions *)

Definition appends (ok : Event -> Prop) (s s' : hub) : Prop := log s' = log s \/ exists e, log s' = log s ++ [e] /\ ok e.
(** Looks at a task or at the lease *)
Definition minor (e : Event) : Prop := match e with saw_task _ _ | saw_lease _ => True | _ => False end.

Definition same_place (r r' : FollowupHandoffRecord) : Prop :=
  key_of r' = key_of r /\ task_id r' = task_id r /\ worktree_path r' = worktree_path r /\ branch_name r' = branch_name r
  /\ target_repository r' = target_repository r /\ head_ref r' = head_ref r /\ base_ref r' = base_ref r /\ head_sha r' = head_sha r
  /\ incarnation r' = incarnation r /\ operator_authorized r' = operator_authorized r.
Lemma same_place_refl r : same_place r r.
Proof. done. Qed.
Lemma same_place_trans r1 r2 r3 : same_place r1 r2 -> same_place r2 r3 -> same_place r1 r3.
Proof. unfold same_place. intuition congruence. Qed.
Lemma same_place_advanced r r' changes g t : same_place r r' -> same_place r' (changes r') -> same_place r (advanced changes g t r').
Proof. intros H Hc. eapply same_place_trans; [exact H|]. eapply same_place_trans; [exact Hc|done]. Qed.

(** *** Programs that publish nothing *)

Definition silent (e : Event) : Prop := publishes e = false.
(** Looks at tasks and at the lease are among the events allowed. *)
Class Looks (ok : Event -> Prop) : Prop := looks : forall e, minor e -> ok e.
#[export] Instance looks_minor : Looks minor.
Proof. by intros e. Qed.
#[export] Instance looks_silent : Looks silent.
Proof. by intros []. Qed.

(** Every own step appends at most one event, which is [ok]; so what such steps and those
    of other processes keep, the program keeps. *)
Definition keeps (good : (hub -> hub) -> Prop) (ok : Event -> Prop) (P : hub -> Prop) : Prop :=
  (forall f s, good f -> P s -> P (f s)) /\ (forall s s', appends ok s s' -> P s -> P s').
Definition discreet (ok : Event -> Prop) {A} (m : M A) : Prop := forall good P, keeps good ok P ->
  etriple good (appends ok) P m (fun _ => P) (fun _ => P).
Lemma discreet_ret ok {A} (a : A) : discreet ok (mret a).
Proof. intros good P _. by apply etriple_ret. Qed.
Lemma discreet_throw ok {A} e : discreet ok (throw e : M A).
Proof. intros good P _. by apply etriple_throw. Qed.
Lemma discreet_bind ok {A B} (m : M A) (f : A -> M B) : discreet ok m -> (forall a, discreet ok (f a)) -> discreet ok (m ≫= f).
Proof. intros Hm Hf good P HP. eapply etriple_bind; [by apply Hm|]. intros a. by apply Hf. Qed.
Lemma discreet_catch ok {A} (m : M A) h : discreet ok m -> (forall e, discreet ok (h e)) -> discreet ok (catch m h).
Proof. intros Hm Hh good P HP. eapply etriple_catch; [by apply Hm|]. intros e. by apply Hh. Qed.
Lemma discreet_call ok {A} (f : hub -> A * hub) : (forall s, appends ok s (snd (f s))) -> discreet ok (call f).
Proof. intros H good P [Hg Hk]. apply etriple_call; [apply Hg|]. intros s Hs. split; [done|]. by eapply Hk. Qed.

Section Steps.
Context {ok : Event -> Prop} `{!Looks ok}.
Abbreviation fine := (discreet ok).

Lemma st_same {A} (f : hub -> A * hub) : (forall s, log (snd (f s)) = log s) -> fine (call f).
Proof. intros H. apply discreet_call. intros s. by left. Qed.
Lemma st_asks {A} (f : hub -> A) : fine (asks f).
Proof. by apply st_same. Qed.
Lemma st_or_throw {A} (r : result A) : fine (or_throw r).
Proof. destruct r; [apply discreet_ret|apply discreet_throw]. Qed.
Lemma st_external {A} (f : Outside -> result A) : fine (external f).
Proof. apply discreet_bind; [apply st_asks|intros ?; apply st_or_throw]. Qed.
Lemma st_uuid : fine randomUUID.
Proof. by apply st_same. Qed.
Lemma st_sends {A} svc e (f : hub -> A * hub) : (forall s, appends ok s (snd (f s))) -> fine (sends svc e f).
Proof.
  intros H. unfold sends. apply discreet_bind; [|intros [?|]; [apply discreet_ret|apply discreet_throw]]. apply discreet_call. intros s.
  specialize (H s). destruct (svc (outside s)); [by destruct (f s)|by left|done].
Qed.
Lemma st_sends_same {A} svc e (f : hub -> A * hub) : (forall s, log (snd (f s)) = log s) -> fine (sends svc e f).
Proof. intros H. apply st_sends. intros s. by left. Qed.
Lemma st_observes {A} (f : hub -> result A) e : (forall a, ok (e a)) -> fine (observes f e).
Proof.
  intros H. unfold observes. apply discreet_bind; [|intros ?; apply st_or_throw]. apply discreet_call. intros s.
  destruct (f s); [right; by eexists|by left].
Qed.
Lemma log_update k w set s : log (snd (update_row k w set s)) = log s.
Proof. unfold update_row. destruct (rows s !! k); [|done]. by destruct (w _). Qed.
Lemma log_delete k w s : log (snd (delete_row k w s)) = log s.
Proof. unfold delete_row. destruct (rows s !! k); [|done]. by destruct (w _). Qed.
Lemma st_advance r changes : fine (advanceFollowupHandoff r changes).
Proof.
  apply discreet_bind; [apply st_asks|intros t]. apply discreet_bind; [|intros ?; apply discreet_ret]. apply st_sends_same. intros s. apply log_update.
Qed.
Lemma st_finalize r : fine (finalizeFollowupHandoff r).
Proof. apply st_sends_same. intros s. apply log_delete. Qed.
Lemma st_withdraw r : fine (withdrawRestoredComments r).
Proof.
  unfold withdrawRestoredComments, withdrawPendingComments. destruct (splitHandoffRepository _) as [owner repo]. destruct (claim_ids r); [apply discreet_ret|]. by apply st_sends_same.
Qed.
Lemma st_task id : fine (getTaskState id).
Proof. apply st_observes. intros a. by apply looks. Qed.
Lemma st_lease : fine isOwnershipLost.
Proof. apply st_observes. intros a. by apply looks. Qed.
Lemma st_report r : fine (reportHandoffOnTaskTimeline r).
Proof. apply discreet_catch; [|intros ?; apply discreet_ret]. apply discreet_bind; [apply st_task|intros ?; apply discreet_ret]. Qed.
End Steps.
Create HintDb handoff_steps.
#[export] Hint Resolve st_asks st_or_throw st_external st_uuid st_advance st_finalize st_withdraw st_task st_lease st_report discreet_ret discreet_throw : handoff_steps.
#[export] Hint Extern 1 (Looks _) => typeclasses eauto : handoff_steps.
(** A program none of whose calls but those proved already does anything new *)
Ltac st_program :=
  repeat first
    [ solve [eauto 2 with handoff_steps]
    | match goal with
      | |- discreet _ (_ ≫= _) => apply discreet_bind; [|intros ?]
      | |- discreet _ (catch _ _) => apply discreet_catch; [|intros ?]
      | |- discreet _ (unless_held _ _ _) => apply discreet_bind; [|intros ?]
      | |- discreet _ (or_else _ _) => apply discreet_bind; [|intros ?]
      | |- discreet _ (observes _ _) => apply st_observes; done
      | |- discreet _ (match ?x with _ => _ end) => destruct x
      end ].

Section Minor.
Context {ok : Event -> Prop} `{!Looks ok}.
Abbreviation fine := (discreet ok).
Lemma st_hold r reason : fine (holdForOperator r reason).
Proof. unfold holdForOperator. st_program. Qed.
Hint Resolve st_hold : handoff_steps.
Lemma st_hold_cancelled r : fine (holdCancelled r).
Proof. unfold holdCancelled, withdrawCancelledClaims. st_program. Qed.
Hint Resolve st_hold_cancelled : handoff_steps.
Lemma st_cancellation r : fine (cancellationHold r).
Proof. unfold cancellationHold. st_program. Qed.
Hint Resolve st_cancellation : handoff_steps.
Lemma st_pending_retry r : fine (pendingRetryHold r).
Proof. unfold pendingRetryHold. st_program. Qed.
Hint Resolve st_pending_retry : handoff_steps.
Lemma st_restore_worktree r : fine (restoreDeletedWorktree r).
Proof. unfold restoreDeletedWorktree. st_program. Qed.
End Minor.
#[export] Hint Resolve st_hold st_hold_cancelled st_cancellation st_pending_retry st_restore_worktree : handoff_steps.

Section Quiet.
Abbreviation fine := (discreet silent).
Lemma st_update id st : fine (updateTaskState id st).
Proof.
  unfold updateTaskState. st_program. apply st_sends. intros s. destruct (tasks s !! id) as [cur|]; [|by left].
  destruct (_ && _); [by left|]. right. by eexists.
Qed.
Hint Resolve st_update : handoff_steps.
Lemma st_finalize_task r o : fine (finalizeRecoveredTask r o).
Proof. unfold finalizeRecoveredTask. st_program. Qed.
Lemma st_release_branch r : fine (branch_release r).
Proof. unfold branch_release, detachRetryOwnedWorktree, attachment_of, registrations_of, release_worktree, detach_worktree. st_program. Qed.
Hint Resolve st_finalize_task st_release_branch : handoff_steps.
Lemma st_cleanup r : fine (attemptHandoffCleanup r).
Proof. unfold attemptHandoffCleanup. st_program. Qed.
Hint Resolve st_cleanup : handoff_steps.
Lemma st_to_cleanup r changes : fine (advance_to_cleanup r changes).
Proof. unfold advance_to_cleanup. st_program. Qed.
Hint Resolve st_to_cleanup : handoff_steps.
Lemma st_failure r url : fine (finishDeliveredFailure r url).
Proof. unfold finishDeliveredFailure. st_program. Qed.
Lemma st_retry_owned r : fine (finishRetryOwnedClaims r).
Proof. unfold finishRetryOwnedClaims. st_program. Qed.
Lemma st_finish_comment r o : fine (finishPublishedComment r o).
Proof. unfold finishPublishedComment. st_program. Qed.
Hint Resolve st_failure st_retry_owned st_finish_comment : handoff_steps.
Lemma st_from_comment r : fine (from_comment r).
Proof. unfold from_comment. st_program. Qed.
Lemma st_validate r : fine (validatePublicationBinding r).
Proof. unfold validatePublicationBinding, validate_remote, getPullRequest, remote_of, ancestor_of. st_program. Qed.
Lemma st_checkout r : fine (checkout r).
Proof. unfold checkout, attachment_of. st_program. Qed.
End Quiet.
#[export] Hint Resolve st_update st_finalize_task st_release_branch st_cleanup st_to_cleanup st_failure st_retry_owned st_finish_comment st_from_comment st_validate st_checkout : handoff_steps.

(** *** Rules for guarded programs *)

Definition keeps_log (f : hub -> hub) : Prop := forall s, log (f s) = log s.
Lemma etriple_step (I I' : hub -> hub -> Prop) good P {A} (m : M A) Q E : (forall s s', I s s' -> I' s s') -> etriple good I P m Q E -> etriple good I' P m Q E.
Proof.
  intros HI H w Hg Hw. destruct (H w Hg Hw) as (l & Hl & HF & ?). exists l. split; [done|]. split; [|done].
  eapply Forall_impl; [exact HF|]. intros x. apply HI.
Qed.
Lemma etriple_returns good I P {A} (m : M A) (Q : A -> hub -> Prop) E (R : A -> Prop) :
  returns m R -> etriple good I P m Q E -> etriple good I P m (fun a s => Q a s /\ R a) E.
Proof.
  intros HR H w Hg Hw. destruct (H w Hg Hw) as (l & ? & ? & ? & Ha). exists l. split_and!; [done..|].
  destruct (fst (m w)) as [a|e] eqn:Ea; [|done]. split; [done|]. by eapply HR.
Qed.

Section Guarded.
Variable r0 : FollowupHandoffRecord.
Variable l0 : list Event.
(** [l0] is what was noted before the pass on [r0] began. *)
Definition guarded (s s' : hub) : Prop := log s' = log s \/ exists e, log s' = log s ++ [e]
  /\ (publishes e = true -> permitted r0 (log s))
  /\ forall path target branch a, e = sent_push path target branch a ->
       path = worktree_path r0 /\ target = target_repository r0 /\ branch = branch_name r0
       /\ exists l, log s = l0 ++ l /\ push_evidence r0 l.
Abbreviation tri P m Q := (etriple keeps_log guarded P m Q (fun _ _ => True)).
Definition on (Phi : list Event -> Prop) (s : hub) : Prop := Phi (log s).
Definition anything : hub -> Prop := fun _ => True.
Definition ends {A} : A -> hub -> Prop := fun _ _ => True.

Lemma on_keeps ok Phi : (forall l e, ok e -> Phi l -> Phi (l ++ [e])) -> keeps keeps_log ok (on Phi).
Proof.
  intros H. split; [intros f s Hf Hs; unfold on; by rewrite Hf|]. intros s s' [E|(e & E & He)] Hs; unfold on; rewrite E; [done|by apply H].
Qed.
Lemma silent_guarded s s' : appends silent s s' -> guarded s s'.
Proof.
  intros [E|(e & E & He)]; [by left|]. right. exists e. unfold silent in He. split_and!; [done|congruence|]. intros ? ? ? ? ->. done.
Qed.
Lemma tri_discreet ok Phi {A} (m : M A) : (forall e, ok e -> silent e) -> (forall l e, ok e -> Phi l -> Phi (l ++ [e])) ->
  discreet ok m -> tri (on Phi) m (fun _ => on Phi).
Proof.
  intros Hs Hp Hm. eapply etriple_weaken with (P' := on Phi) (Q' := fun _ => on Phi) (E' := fun _ => on Phi); [done..|].
  eapply etriple_step; [|apply Hm, on_keeps, Hp]. intros s s' [E|(e & E & He)]; apply silent_guarded; [by left|]. right. exists e. auto.
Qed.
Lemma tri_silent P {A} (m : M A) : discreet silent m -> tri P m ends.
Proof.
  intros Hm. eapply etriple_weaken with (P' := on (fun _ => True)) (Q' := fun _ => on (fun _ => True)) (E' := ends); [done..|].
  by apply (tri_discreet silent).
Qed.
Lemma tri_ret P {A} (a : A) : tri P (mret a) ends.
Proof. by apply etriple_ret. Qed.
Lemma tri_seq P {A B} (m : M A) (f : A -> M B) R Q : tri P m R -> (forall a, tri (R a) (f a) Q) -> tri P (m ≫= f) Q.
Proof. apply etriple_bind. Qed.
Lemma tri_any P {A} (m : M A) Q : tri anything m Q -> tri P m Q.
Proof. intros H. by eapply etriple_weaken; [| | |exact H]. Qed.
Lemma tri_observes (Phi : list Event -> Prop) {A} (f : hub -> result A) e (Psi : A -> list Event -> Prop) : (forall a, silent (e a)) ->
  (forall l a, Phi l -> Psi a (l ++ [e a])) -> tri (on Phi) (observes f e) (fun a => on (Psi a)).
Proof.
  intros Hs H. unfold observes. eapply etriple_bind with (Q := fun r s => match r with Ok a => on (Psi a) s | Throw _ => True end).
  - apply etriple_call; [intros g s Hg; unfold on; by rewrite Hg|]. intros s Hp. destruct (f s) as [a|x]; cbn.
    + split; [apply silent_guarded; right; by exists (e a)|]. by apply H.
    + split; [by left|done].
  - intros [a|x]; [by apply etriple_ret|by apply etriple_throw].
Qed.

(** After a look that finds nothing to hold, the next request may publish. *)
Lemma tri_hold (Phi : list Event -> Prop) r : same_place r0 r -> (forall l e, minor e -> Phi l -> Phi (l ++ [e])) ->
  tri (on Phi) (cancellationHold r) (fun o s => on Phi s /\ (o = None -> permitted r0 (log s))).
Proof.
  intros (_&Ht&_&_&_&_&_&_&_&Ha) Hp. unfold cancellationHold. rewrite Ha, Ht. destruct (operator_authorized r0) eqn:Eo.
  - eapply tri_seq; [apply (tri_observes Phi) with (Psi := fun b l => Phi l /\ exists l', l = l' ++ [saw_lease b]); [done|]|].
    + intros l b Hl. split; [by apply Hp|by eexists].
    + intros [|]; apply etriple_ret; intros s [Hs [l' El]]; (split; [exact Hs|]); [done|]. intros _. exists l'. by rewrite Eo.
  - eapply tri_seq; [apply (tri_observes Phi) with (Psi := fun st l => exists l', l = l' ++ [saw_task (task_id r0) st] /\ Phi l); [done|]|].
    { intros l st Hl. eexists. split; [done|by apply Hp]. }
    intros st. eapply tri_seq; [apply tri_observes with (Psi := fun b l => Phi l /\ exists l', l = l' ++ [saw_task (task_id r0) st; saw_lease b]); [done|]|].
    { intros l b (l' & -> & Hl). split; [by apply Hp|]. exists l'. by rewrite <- app_assoc. }
    intros [|]; [apply etriple_ret; intros s [Hs _]; by split|]. destruct (bool_decide (st = Some CANCELLED)) eqn:Ec; cbn [negb].
    + eapply tri_seq with (R := fun _ => on Phi); [|intros o; apply etriple_ret; intros s Hs; by split].
      eapply etriple_weaken with (P' := on Phi) (Q' := fun _ => on Phi) (E' := fun _ _ => True); [intros s [Hs _]; exact Hs|done|done|]. apply (tri_discreet minor); [by intros []|done|]. apply st_hold_cancelled.
    + apply etriple_ret. intros s [Hs [l' El]]. split; [done|]. intros _. exists l'. rewrite Eo. exists st. split; [done|]. by apply bool_decide_eq_false in Ec.
Qed.
Lemma tri_unless P R {A} (m : M (option ResumeOutcome)) (h : ResumeOutcome -> A) f Q :
  tri P m (fun o s => R s /\ (o = None -> permitted r0 (log s))) -> (forall s o, Q (h o) s) ->
  tri (fun s => R s /\ permitted r0 (log s)) f Q -> tri P (unless_held m h f) Q.
Proof.
  intros Hm HQ Hf. eapply tri_seq; [exact Hm|]. intros [o|]; [by apply etriple_ret|]. eapply etriple_weaken; [| | |exact Hf]; [|done|done].
  intros s [Hs Hn]. auto.
Qed.
Lemma tri_guard {A} r (h : ResumeOutcome -> A) f : same_place r0 r -> tri (fun s => permitted r0 (log s)) f ends -> tri anything (unless_held (cancellationHold r) h f) ends.
Proof.
  intros Hr Hf. eapply tri_unless with (R := on (fun _ => True)); [by apply (tri_hold (fun _ => True) r)|done|]. eapply etriple_weaken; [| | |exact Hf]; [by intros s [_ ?]|done|done].
Qed.
(** A publication other than a push *)
Lemma tri_publish {A} svc err (f : hub -> A * hub) : (forall s, appends (fun e => forall path target branch a, e <> sent_push path target branch a) s (snd (f s))) ->
  tri (fun s => permitted r0 (log s)) (sends svc err f) ends.
Proof.
  intros H. unfold sends. eapply tri_seq with (R := ends); [|intros [a|]; [apply tri_ret|by apply etriple_throw]].
  apply etriple_call; [intros g s Hg; by rewrite Hg|]. intros s Hp. split; [|done]. destruct (svc (outside s)); [|by left|].
  all: specialize (H s); destruct (f s) as [a s']; destruct H as [E|(e & E & He)]; [by left|]; right; exists e; split; [done|]; split; [done|]; intros ? ? ? ? Ee; by destruct (He _ _ _ _ Ee).
Qed.

(** *** Comments, claims and commits *)

Lemma permits_anything {A} (m : M A) Q : tri anything m Q -> tri (fun s => permitted r0 (log s)) m Q.
Proof. apply tri_any. Qed.
Lemma tri_catch P {A} (m : M A) h : tri P m ends -> (forall e, tri anything (h e) ends) -> tri P (catch m h) ends.
Proof. intros Hm Hh. eapply etriple_catch; [exact Hm|exact Hh]. Qed.
Lemma tri_then P {A B} (m : M A) (f : A -> M B) : tri P m ends -> (forall a, tri anything (f a) ends) -> tri P (m ≫= f) ends.
Proof. intros Hm Hf. eapply tri_seq; [exact Hm|exact Hf]. Qed.
Lemma g_or_throw P {A} (x : result A) : tri P (or_throw x) ends.
Proof. destruct x; [apply tri_ret|by apply etriple_throw]. Qed.

Lemma g_post r body : same_place r0 r -> tri anything (post_owed r body) ends.
Proof.
  intros Hr. apply tri_guard; [done|]. apply tri_then; [|intros ?; apply tri_ret]. apply tri_publish. intros s. right. by eexists.
Qed.
Lemma g_patch r body target : same_place r0 r -> tri anything (patch_or_post r body target) ends.
Proof.
  intros Hr. assert (Hpost : tri anything (post_owed r body) ends) by by apply g_post.
  assert (Hp : forall id, tri (fun s => permitted r0 (log s)) (patchComment r id body) ends).
  { intros id. apply tri_then; [|intros ?; apply g_or_throw]. apply tri_publish. intros s. unfold patched.
    destruct id as [|i|]; [by left| |by left]. destruct (comments_at _ s !! i); [right; by eexists|by left]. }
  assert (Hg : forall id, tri anything (unless_held (cancellationHold r) inr
    (patched ← catch (url ← patchComment r id body; mret (Some url)) (fun e => if bool_decide (e = NOT_FOUND) then mret None else throw e);
     match patched with Some url => mret (inl (url, recovery)) | None => post_owed r body end)) ends).
  { intros id. apply tri_guard; [done|]. apply tri_then; [|intros [?|]; [apply tri_ret|done]].
    apply tri_catch; [apply tri_then; [apply Hp|intros ?; apply tri_ret]|]. intros e. destruct (bool_decide _); [apply tri_ret|by apply etriple_throw]. }
  unfold patch_or_post. destruct target as [[|?|?]|]; auto.
Qed.
Lemma g_publish r body b : same_place r0 r -> tri anything (publishOwedComment r body b) ends.
Proof.
  intros Hr. unfold publishOwedComment. destruct (truthy_string _); [apply tri_ret|].
  apply tri_then; [apply tri_silent; by apply st_observes|]. intros l. destruct (List.find _ l); [|by apply g_patch].
  destruct (negb _); [apply tri_ret|by apply g_patch].
Qed.
Lemma g_restore r : tri (fun s => permitted r0 (log s)) (restoreComments r) ends.
Proof.
  unfold restoreComments, restorePendingComments. destruct (splitHandoffRepository _) as [owner repo]. destruct (claimed_comments r); [apply tri_ret|].
  apply tri_publish. intros s. right. by eexists.
Qed.
Lemma g_job r : tri (fun s => permitted r0 (log s)) (queueRestoredCommentFollowup r) ends.
Proof.
  unfold queueRestoredCommentFollowup. destruct (splitHandoffRepository _) as [owner repo].
  eapply tri_seq with (R := fun _ => on (permitted r0)); [apply etriple_call; [intros f s Hf; unfold on; by rewrite Hf|]; intros s Hs; split; [by left|done]|].
  intros u. apply tri_publish. intros s'. right. eexists (sent_job _). split; [|by intros]. unfold add_job. destruct (queue s' !! _); reflexivity.
Qed.
Variable schedules : bool.
Lemma g_return r : same_place r0 r -> tri anything (return_claims schedules r) ends.
Proof.
  intros Hr. unfold return_claims. apply tri_guard; [done|]. apply tri_then; [apply g_restore|intros _]. apply tri_guard; [done|].
  apply tri_then; [destruct schedules; [apply g_job|apply tri_ret]|intros _]. apply tri_silent. st_program.
Qed.
Lemma g_without r : same_place r0 r -> tri anything (finishWithoutChanges schedules r) ends.
Proof.
  intros Hr. unfold finishWithoutChanges. apply tri_then; [by apply g_publish|]. intros [[url d]|o]; [|apply tri_ret].
  destruct d; [apply tri_silent; st_program..|by apply g_return].
Qed.
Lemma g_completed r : same_place r0 r -> tri anything (finishCompletedWithoutChanges r) ends.
Proof.
  intros Hr. unfold finishCompletedWithoutChanges. apply tri_then; [by apply g_publish|]. intros [[url d]|o]; [|apply tri_ret].
  destruct d; apply tri_silent; st_program.
Qed.
Lemma g_commit r : same_place r0 r -> tri anything (commit_left r) ends.
Proof.
  intros Hr. unfold commit_left. apply tri_then; [apply tri_silent; by apply st_observes|]. intros [|]; [|apply tri_ret].
  apply tri_guard; [done|]. apply tri_then; [|intros ?; apply tri_ret]. unfold commit_work, requests. apply tri_then; [|intros ?; apply g_or_throw].
  apply etriple_call; [intros f s Hf; by rewrite Hf|]. intros s Hs. split; [|done]. right. eexists. split_and!; [done|done|by intros].
Qed.

(** A step of the pass goes on with a record of the same place. *)
Definition onward (x : ResumeStep) : Prop := match x with inl r => same_place r0 r | inr _ => True end.
Lemma returns_mret {A} (a : A) (Q : A -> Prop) : Q a -> returns (mret a : M A) Q.
Proof. apply returns_ret. Qed.
Lemma returns_advance r changes (Q : option FollowupHandoffRecord -> Prop) :
  Q None -> (forall g t, Q (Some (advanced changes g t r))) -> returns (advanceFollowupHandoff r changes) Q.
Proof.
  intros H0 H1. unfold advanceFollowupHandoff. apply returns_bind. intros t. apply returns_bind. intros [|]; by apply returns_mret.
Qed.
Lemma returns_unless {A} (m : M (option ResumeOutcome)) (h : ResumeOutcome -> A) f (Q : A -> Prop) : (forall o, Q (h o)) -> returns f Q -> returns (unless_held m h f) Q.
Proof. intros Hh Hf. apply returns_bind. intros [o|]; [by apply returns_mret|done]. Qed.
Lemma returns_superseded r changes : same_place r0 r -> same_place r (changes r) -> returns (x ← advanceFollowupHandoff r changes; mret (or_superseded x)) onward.
Proof.
  intros Hr Hc. apply returns_bind_with with (R := fun x => onward (or_superseded x)); [|intros x Hx; by apply returns_mret].
  apply returns_advance; [done|]. intros g t. cbn. by apply same_place_advanced.
Qed.
Lemma returns_restored r : same_place r0 r -> returns (restoreDeletedWorktree r) (fun x => onward x /\ match x with inl r' => commit_hash r' = commit_hash r | inr _ => True end).
Proof.
  intros Hr. unfold restoreDeletedWorktree. apply returns_bind. intros [f|]; [|apply returns_bind; intros o; by apply returns_mret].
  apply returns_unless; [done|]. eapply returns_bind_with with (R := fun x => match x with Some m => same_place r0 m /\ commit_hash m = commit_hash r | None => True end).
  - apply returns_advance; [done|]. intros g t. split; [by apply same_place_advanced|done].
  - intros [m|] Hm; [|by apply returns_mret]. apply returns_bind. intros [|]; cbn [negb]; (apply returns_bind; intros ?; by apply returns_mret).
Qed.
Lemma g_collect_left r c : same_place r0 r -> tri anything (collect_left schedules r c) ends.
Proof.
  intros Hr. unfold collect_left. apply tri_then; [apply tri_silent; unfold work_left, unpushed_of, head_of; st_program|].
  intros [h|]; [apply tri_silent; st_program|]. apply tri_then; [|intros ?; apply tri_ret]. destruct (_ && _); [by apply g_completed|by apply g_without].
Qed.
Lemma returns_collect_left r c : same_place r0 r -> returns (collect_left schedules r c) onward.
Proof.
  intros Hr. unfold collect_left. apply returns_bind. intros [h|]; [by apply returns_superseded|]. apply returns_bind. intros ?. by apply returns_mret.
Qed.
Lemma returns_checkout r : same_place r0 r -> returns (checkout r) (fun x => match x with inr (r', _) => same_place r0 r' /\ commit_hash r' = commit_hash r | inl _ => True end).
Proof.
  intros Hr. unfold checkout. apply returns_bind. intros a. destruct (bool_decide _); [|by apply returns_mret].
  eapply returns_bind_with; [by apply returns_restored|]. intros [r'|o] [Hx Hc]; [|by apply returns_mret]. apply returns_bind. intros a'. by apply returns_mret.
Qed.
Lemma returns_collect r : same_place r0 r -> returns (collectAgentOutput schedules r) onward.
Proof.
  intros Hr. unfold collectAgentOutput. eapply returns_bind_with; [by apply returns_checkout|]. intros [o|[r' a]] Ha; [by apply returns_mret|].
  destruct a; [apply returns_bind; intros o; by apply returns_mret..|]. apply returns_bind. intros [o|c]; [by apply returns_mret|apply returns_collect_left, Ha].
Qed.
Lemma g_collect r : same_place r0 r -> tri anything (collectAgentOutput schedules r) (fun x _ => onward x).
Proof.
  intros Hr. unfold collectAgentOutput.
  eapply tri_seq; [apply etriple_returns; [by apply returns_checkout|apply tri_silent, st_checkout]|].
  intros [o|[r' a]]; [by apply etriple_ret|]. apply etriple_weaken with (P' := fun s => anything s /\ same_place r0 r') (Q' := fun x _ => onward x) (E' := fun _ _ => True);
    [by intros s [_ [? _]]|done|done|]. apply etriple_pure. intros Hr'.
  destruct a; [eapply tri_seq; [apply tri_silent; st_program|intros o; by apply etriple_ret]..|].
  eapply tri_seq; [by apply g_commit|]. intros [o|c]; [by apply etriple_ret|].
  apply etriple_weaken with (P' := anything) (Q' := fun x s => ends x s /\ onward x) (E' := fun _ _ => True); [done|by intros x s [_ ?]|done|].
  apply etriple_returns; [by apply returns_collect_left|by apply g_collect_left].
Qed.

(** *** The push *)

Definition since (Phi : list Event -> Prop) (l : list Event) : Prop := exists l', l = l0 ++ l' /\ Phi l'.
Lemma since_snoc (Phi Psi : list Event -> Prop) e : (forall l, Phi l -> Psi (l ++ [e])) -> forall l, since Phi l -> since Psi (l ++ [e]).
Proof. intros H l (l' & -> & Hl). exists (l' ++ [e]). split; [by rewrite app_assoc|auto]. Qed.
(** Kinds of events that leave the evidence of other kinds as it is *)
Definition spares {A} (f : Event -> option A) (e : Event) : Prop := f e = None.
Lemma newest_spared {A} (f : Event -> option A) l e : spares f e -> newest f (l ++ [e]) = newest f l.
Proof. intros H. rewrite newest_snoc. by rewrite H. Qed.
Lemma bound_spared l e : spares (pull_answer r0) e -> bound r0 l -> bound r0 (l ++ [e]).
Proof. intros H [Hb|(p & Hn & Hd)]; [by left|]. right. exists p. by rewrite newest_spared. Qed.
Lemma remote_spared l e : spares (remote_answer r0) e -> remote_ours r0 l -> remote_ours r0 (l ++ [e]).
Proof.
  intros H (h & Hn & Hd). exists h. rewrite newest_spared by done. split; [done|]. destruct Hd as [?|[?|(x & ? & ?)]]; [by left|by right; left|].
  right; right. exists x. split; [done|]. apply elem_of_app. by left.
Qed.
Definition tied (l : list Event) : Prop := bound r0 l /\ remote_ours r0 l.
Definition stands (l : list Event) : Prop := tied l /\ newest (attachment_answer r0) l = Some attached.
Definition points (c : string) (l : list Event) : Prop := stands l /\ newest (head_answer r0) l = Some c.
Lemma tied_spared l e : spares (pull_answer r0) e -> spares (remote_answer r0) e -> tied l -> tied (l ++ [e]).
Proof. intros H1 H2 [Hb Hr]. split; [by apply bound_spared|by apply remote_spared]. Qed.
Lemma tied_minor l e : minor e -> since tied l -> since tied (l ++ [e]).
Proof. intros He. apply since_snoc. intros l' H. destruct e; try done; by apply tied_spared. Qed.
Lemma points_minor c l e : minor e -> since (points c) l -> since (points c) (l ++ [e]).
Proof.
  intros He. apply since_snoc. intros l' [[H1 H2] H3]. assert (spares (attachment_answer r0) e /\ spares (head_answer r0) e) as [Ha Hh] by by destruct e.
  unfold points, stands. rewrite !newest_spared by done. split_and!; [|done..]. destruct e; try done; by apply tied_spared.
Qed.
Lemma here_refl : here r0 (worktree_path r0) (branch_name r0) = true.
Proof. unfold here. by rewrite !bool_decide_true. Qed.

Lemma g_remote r : same_place r0 r -> tri (on (since (bound r0))) (validate_remote r) (fun o s => o = None -> on (since tied) s).
Proof.
  intros (_&_&Hw&Hb&_&_&_&Hh&_). unfold validate_remote, remote_of. rewrite Hw, Hb, Hh.
  eapply tri_seq; [apply tri_observes with (Psi := fun h => since (fun l => bound r0 l /\ newest (remote_answer r0) l = Some h)); [done|]|].
  { intros l h. apply since_snoc. intros l' Hl. split; [by apply bound_spared|]. rewrite newest_snoc. cbn. by rewrite here_refl. }
  intros h. destruct (truthy_string h) as [x|] eqn:Ex.
  - assert (h = Some x) as ->. { unfold truthy_string in Ex. destruct h as [[|]|]; by simplify_eq. }
    destruct (bool_decide _) eqn:Es.
    { apply bool_decide_eq_true in Es. apply etriple_ret. intros s (l & El & Hl & Hn) _. exists l. split; [done|]. split; [done|]. exists (Some x). auto. }
    eapply tri_seq; [apply tri_observes with (Psi := fun b l => b = true -> since tied l); [done|]|].
    { intros l b (l' & -> & Hl & Hn) ->. exists (l' ++ [saw_ancestor (worktree_path r) x true]). rewrite Hw. split; [by rewrite app_assoc|].
      split; [by apply bound_spared|]. exists (Some x). rewrite newest_spared by done. split; [done|]. right; right. exists x. split; [done|].
      apply elem_of_app. right. by left. }
    intros [|]; [apply etriple_ret; intros s Hs _; by apply Hs|]. eapply tri_seq; [apply tri_silent; st_program|]. intros o. by apply etriple_ret.
  - apply etriple_ret. intros s (l & El & Hl & Hn) _. exists l. split; [done|]. split; [done|]. exists h. auto.
Qed.
Lemma g_validate r : same_place r0 r -> tri (on (since (fun _ => True))) (validatePublicationBinding r) (fun o s => o = None -> on (since tied) s).
Proof.
  intros Hr. pose proof (g_remote r Hr) as Hrem. destruct Hr as (Hk&_&_&_&_&Hhr&Hbr&_). unfold validatePublicationBinding.
  assert (Hcheck : tri (on (since (fun _ => True)))
    (pr ← getPullRequest r; if differs (head_ref r) (p_head pr) || differs (base_ref r) (p_base pr)
       then o ← holdForOperator r "pr_binding_mismatch"; mret (Some o) else validate_remote r) (fun o s => o = None -> on (since tied) s)).
  { unfold getPullRequest. destruct (splitHandoffRepository _) as [owner repo]. rewrite Hk.
    eapply tri_seq; [apply tri_observes with (Psi := fun p => since (fun l => newest (pull_answer r0) l = Some p)); [done|]|].
    { intros l p. apply since_snoc. intros l' _. rewrite newest_snoc. cbn. by rewrite bool_decide_true. }
    intros p. destruct (differs _ _ || _) eqn:Ed.
    { eapply tri_seq; [apply tri_silent; st_program|]. intros o. by apply etriple_ret. }
    apply orb_false_elim in Ed as [E1 E2]. eapply etriple_weaken; [| | |exact Hrem]; [|done|done].
    intros s (l & El & Hl). exists l. split; [done|]. right. exists p. by rewrite <- Hhr, <- Hbr. }
  destruct (truthy_string (head_ref r)) eqn:E1; [exact Hcheck|]. destruct (truthy_string (base_ref r)) eqn:E2; [exact Hcheck|].
  eapply etriple_weaken; [| | |exact Hrem]; [|done|done]. intros s (l & El & Hl). exists l. split; [done|]. left. by rewrite <- Hhr, <- Hbr.
Qed.

Definition in_checkout (x : ResumeOutcome + FollowupHandoffRecord * WorktreeAttachment) (s : hub) : Prop :=
  match x with inr (_, a) => on (since (fun l => tied l /\ newest (attachment_answer r0) l = Some a)) s | inl _ => True end.
Lemma g_attachment r : same_place r0 r -> tri (on (since tied)) (attachment_of r)
  (fun a => on (since (fun l => tied l /\ newest (attachment_answer r0) l = Some a))).
Proof.
  intros (_&_&Hw&Hb&_). unfold attachment_of. rewrite Hw, Hb. apply tri_observes; [done|]. intros l a. apply since_snoc. intros l' Hl.
  split; [by apply tied_spared|]. rewrite newest_snoc. cbn. by rewrite here_refl.
Qed.
Lemma g_checkout r : same_place r0 r -> tri (on (since tied)) (checkout r) in_checkout.
Proof.
  intros Hr. unfold checkout. eapply tri_seq; [by apply g_attachment|]. intros a. destruct (bool_decide _); [|apply etriple_ret; intros s Hs; exact Hs].
  eapply tri_seq with (R := fun x s => on (since tied) s /\ (onward x /\ match x with inl r' => commit_hash r' = commit_hash r | inr _ => True end)).
  - apply etriple_returns; [by apply returns_restored|].
    eapply etriple_weaken with (P' := on (since tied)) (Q' := fun _ => on (since tied)) (E' := fun _ _ => True); [|done|done|].
    + intros s (l & El & Hl & _). by exists l.
    + apply (tri_discreet minor); [by intros []|apply tied_minor|apply st_restore_worktree].
  - intros [r'|o]; [|by apply etriple_ret]. apply etriple_weaken with (P' := fun s => on (since tied) s /\ same_place r0 r') (Q' := in_checkout) (E' := fun _ _ => True);
      [by intros s [? [? _]]|done|done|]. apply etriple_pure. intros Hr'. eapply tri_seq; [by apply g_attachment|]. intros a'. apply etriple_ret. intros s Hs. exact Hs.
Qed.
Lemma returns_push_recorded r : same_place r0 r -> returns (push_recorded r) onward.
Proof.
  intros Hr. unfold push_recorded. apply returns_bind. intros [c|]; [|apply returns_bind; intros o; by apply returns_mret]. by apply returns_superseded.
Qed.
Lemma returns_push r : same_place r0 r -> returns (pushCommittedWork r) onward.
Proof.
  intros Hr. unfold pushCommittedWork. apply returns_unless; [done|]. eapply returns_bind_with; [by apply returns_checkout|]. intros [o|[r' a]] Ha; [by apply returns_mret|].
  destruct a; [apply returns_bind; intros o; by apply returns_mret..|]. unfold push_checked. destruct (truthy_string _); [|apply returns_bind; intros o; by apply returns_mret].
  apply returns_bind. intros h. destruct (negb _); [apply returns_bind; intros o; by apply returns_mret|]. apply returns_unless; [done|apply returns_push_recorded, Ha].
Qed.
Lemma g_push_recorded r c : same_place r0 r -> (phase r0 = committed -> commit_hash r0 = Some c) ->
  tri (fun s => on (since (points c)) s /\ permitted r0 (log s)) (push_recorded r) ends.
Proof.
  intros (_&_&Hw&Hb&Ht&_) Hc. unfold push_recorded. apply tri_then.
  - apply tri_catch; [|intros e; destruct (isNonFastForwardPushError e); [apply tri_ret|by apply etriple_throw]]. apply tri_then; [|intros ?; apply tri_ret].
    unfold push_branch, requests. apply tri_then; [|intros ?; apply g_or_throw]. rewrite Hw, Hb, Ht.
    apply etriple_call; [intros f s Hf [Hs Hp]; unfold on in *; by rewrite Hf|]. intros s [(l & El & [[[H1 H2] H3] H4]) Hp]. split; [|done]. right. eexists. split_and!; [done|done|].
    intros ? ? ? ? [= <- <- <- <-]. split_and!; [done..|]. exists l. split; [done|]. split_and!; [done..|]. by exists c.
  - intros [c'|]; apply tri_silent; st_program.
Qed.
Lemma g_push r : same_place r0 r -> (phase r0 = committed -> commit_hash r = commit_hash r0) ->
  tri (on (since (fun _ => True))) (pushCommittedWork r) (fun x _ => onward x).
Proof.
  intros Hr Hc. unfold pushCommittedWork. eapply tri_seq with (R := fun o s => o = None -> on (since tied) s).
  { eapply tri_seq; [apply (tri_hold (since (fun _ => True)) r Hr); intros l e _; by apply since_snoc|].
    intros [o|]; [by apply etriple_ret|]. eapply etriple_weaken; [| | |by apply g_validate]; [by intros s [? _]|done|done]. }
  intros [o|]; [by apply etriple_ret|]. eapply etriple_weaken with (P' := on (since tied)) (Q' := fun x _ => onward x) (E' := fun _ _ => True); [auto|done|done|].
  eapply tri_seq with (R := fun x s => in_checkout x s /\ match x with inr (r', _) => same_place r0 r' /\ commit_hash r' = commit_hash r | inl _ => True end).
  { apply etriple_returns; [by apply returns_checkout|by apply g_checkout]. }
  intros [o|[r' a]]; [by apply etriple_ret|]. apply etriple_pure. intros [Hr' Hc'].
  destruct a; [eapply tri_seq; [apply tri_silent; st_program|intros o; by apply etriple_ret]..|]. unfold push_checked.
  destruct (truthy_string (commit_hash r')) as [c|] eqn:Ec; [|eapply tri_seq; [apply tri_silent; st_program|intros o; by apply etriple_ret]].
  assert (Hcc : commit_hash r' = Some c). { unfold truthy_string in Ec. destruct (commit_hash r') as [[|]|]; by simplify_eq. }
  eapply tri_seq with (R := fun h => on (since (points h))).
  { unfold head_of. pose proof Hr' as (_&_&Hw&_). rewrite Hw. apply tri_observes; [done|]. intros l h. apply since_snoc. intros l' [Hl Hn].
    split; [split; [by apply tied_spared|by rewrite newest_spared]|]. rewrite newest_snoc. cbn. by rewrite bool_decide_true. }
  intros h. destruct (bool_decide (h = c)) eqn:Eh; cbn [negb]; [|eapply tri_seq; [apply tri_silent; st_program|intros o; by apply etriple_ret]].
  apply bool_decide_eq_true in Eh as ->. eapply tri_unless; [apply (tri_hold (since (points c)) r' Hr'); apply points_minor|done|].
  apply etriple_weaken with (P' := fun s => on (since (points c)) s /\ permitted r0 (log s)) (Q' := fun x s => ends x s /\ onward x) (E' := fun _ _ => True); [done|by intros x s [_ ?]|done|].
  apply etriple_returns; [by apply returns_push_recorded|]. apply g_push_recorded; [done|]. intros Hp. rewrite <- Hc by done. congruence.
Qed.
End Guarded.

(** *** The log only grows *)

Definition any_event (e : Event) : Prop := True.
#[export] Instance looks_any : Looks any_event.
Proof. by intros e. Qed.
Lemma discreet_weaken (ok ok' : Event -> Prop) {A} (m : M A) : (forall e, ok e -> ok' e) -> discreet ok m -> discreet ok' m.
Proof.
  intros H Hm good P [Hg Hk]. assert (Ha : forall s s', appends ok s s' -> appends ok' s s').
  { intros s s' [E|(e & E & He)]; [by left|]. right. exists e. auto. }
  eapply etriple_step; [exact Ha|]. apply Hm. split; [done|]. intros s s' Hs. by apply Hk, Ha.
Qed.
Lemma grows_silent {A} (m : M A) : discreet silent m -> discreet any_event m.
Proof. by apply discreet_weaken. Qed.
Lemma grows_sends {A} svc e (f : hub -> A * hub) : (forall s, appends any_event s (snd (f s))) -> discreet any_event (sends svc e f).
Proof. apply st_sends. Qed.
Lemma grows_post r body : discreet any_event (post_owed r body).
Proof. unfold post_owed, postComment. st_program. apply grows_sends. intros s. right. by eexists. Qed.
Lemma grows_patch r body target : discreet any_event (patch_or_post r body target).
Proof.
  pose proof (grows_post r body) as Hp. unfold patch_or_post, patchComment. assert (Hs : forall id, discreet any_event (sends github "github" (patched (key_of r) id body))).
  { intros id. apply grows_sends. intros s. unfold patched. destruct id as [|i|]; [by left| |by left]. destruct (comments_at _ s !! i); [right; by eexists|by left]. }
  destruct target as [[|?|?]|]; st_program; auto.
Qed.
Lemma grows_publish r body b : discreet any_event (publishOwedComment r body b).
Proof. pose proof (grows_patch r body) as Hp. unfold publishOwedComment, listComments. st_program; auto. Qed.
Lemma grows_collect schedules r : discreet any_event (collectAgentOutput schedules r).
Proof.
  assert (H1 : forall r, discreet any_event (restoreComments r)).
  { intros x. unfold restoreComments, restorePendingComments. destruct (splitHandoffRepository _) as [owner repo]. destruct (claimed_comments x); [apply discreet_ret|].
    apply grows_sends. intros s. right. by eexists. }
  assert (H2 : forall r, discreet any_event (queueRestoredCommentFollowup r)).
  { intros x. unfold queueRestoredCommentFollowup. destruct (splitHandoffRepository _) as [owner repo]. apply discreet_bind; [apply st_uuid|intros u].
    apply grows_sends. intros s. right. eexists (sent_job _). split; [|done]. unfold add_job. destruct (queue s !! _); reflexivity. }
  assert (H3 : forall r m, discreet any_event (commit_work r m)).
  { intros x m. unfold commit_work, requests. apply discreet_bind; [|intros ?; apply st_or_throw]. apply discreet_call. intros s. right. by eexists. }
  pose proof grows_publish as H4.
  assert (H5 : forall r o, discreet any_event (finishPublishedComment r o)) by (intros; apply grows_silent; auto with handoff_steps).
  assert (H6 : forall r u, discreet any_event (finishDeliveredFailure r u)) by (intros; apply grows_silent; auto with handoff_steps).
  assert (H7 : forall r o, discreet any_event (finalizeRecoveredTask r o)) by (intros; apply grows_silent; auto with handoff_steps).
  assert (H8 : forall r c, discreet any_event (advance_to_cleanup r c)) by (intros; apply grows_silent; auto with handoff_steps).
  assert (H9 : forall r, discreet any_event (checkout r)) by (intros; apply grows_silent; auto with handoff_steps).
  unfold collectAgentOutput, commit_left, collect_left, work_left, finishCompletedWithoutChanges, finishWithoutChanges, return_claims, dirty_of, unpushed_of, head_of.
  st_program; auto.
Qed.
Lemma etriple_and {A} good I I' (P P' : hub -> Prop) (m : M A) Q Q' E E' : etriple good I P m Q E -> etriple good I' P' m Q' E' ->
  etriple good I (fun s => P s /\ P' s) m (fun a s => Q a s /\ Q' a s) (fun e s => E e s /\ E' e s).
Proof.
  intros H1 H2 w Hg [HP HP']. destruct (H1 w Hg HP) as (l & Hl & HI & Hg' & HQ). destruct (H2 w Hg HP') as (_ & _ & _ & _ & HQ').
  exists l. split_and!; [done..|]. by destruct (fst (m w)).
Qed.

(** ** What a pass may publish *)

Section Passes.
Variable schedules : bool.

Lemma from_pushed_guarded r0 l0 r : same_place r0 r -> etriple keeps_log (guarded r0 l0) anything (from_pushed r) ends (fun _ _ => True).
Proof.
  intros Hr. unfold from_pushed. destruct (bool_decide _); [|apply tri_silent; auto with handoff_steps].
  apply tri_then; [|intros [r'|o]; [apply tri_silent; auto with handoff_steps|apply tri_ret]]. unfold publishPushedCompletion.
  apply tri_then; [by apply g_publish|]. intros [[url d]|o]; [|apply tri_ret]. apply tri_silent. st_program.
Qed.
Lemma from_committed_guarded r0 l0 r : same_place r0 r -> (phase r0 = committed -> commit_hash r = commit_hash r0) ->
  etriple keeps_log (guarded r0 l0) (on (since l0 (fun _ => True))) (from_committed r) ends (fun _ _ => True).
Proof.
  intros Hr Hc. unfold from_committed. destruct (bool_decide _); [|by eapply tri_any, from_pushed_guarded].
  eapply tri_seq; [by apply g_push|]. intros [r'|o]; [|apply tri_ret].
  eapply etriple_weaken with (P' := fun s => anything s /\ same_place r0 r') (Q' := ends) (E' := ends); [done|done|done|]. apply etriple_pure. intros Hr'. by apply from_pushed_guarded.
Qed.
Lemma from_agent_guarded r0 l0 : etriple keeps_log (guarded r0 l0) (on (since l0 (fun _ => True))) (from_agent schedules r0) ends (fun _ _ => True).
Proof.
  unfold from_agent. destruct (bool_decide (phase r0 ∈ _)) eqn:Ep; [|by apply from_committed_guarded].
  assert (Hn : phase r0 <> committed). { intros E. rewrite E in Ep. by vm_compute in Ep. }
  eapply etriple_bind; [eapply etriple_weaken with (P' := fun s => anything s /\ on (since l0 (fun _ => True)) s) (E' := fun e s => True /\ on (since l0 (fun _ => True)) s); [|done| |]|].
  - by intros s Hs.
  - done.
  - eapply etriple_and; [by apply g_collect|]. apply (grows_collect schedules r0 keeps_log (on (since l0 (fun _ => True)))). apply on_keeps. intros l e _. by apply since_snoc.
  - intros [r'|o]; [|by apply etriple_ret]. eapply etriple_weaken with (P' := fun s => on (since l0 (fun _ => True)) s /\ same_place r0 r') (Q' := ends) (E' := ends); [by intros s [? ?]|done|done|].
    apply etriple_pure. intros Hr'. by apply from_committed_guarded.
Qed.

(** C5. In a pass of recovery on a handoff, under any interleaving: every commit, push,
    comment, return of claims and job is sent right after a look that found the task not
    cancelled (unless an operator authorized the work) and the lease not known to be lost;
    and a push goes from the handoff's checkout to its branch, after this pass has last seen
    the checkout on that branch with the recorded commit as its head, the pull request bound
    as before, and a remote head that is the agent's baseline or an ancestor of the work. *)
Theorem publication_is_guarded r l0 :
  triple keeps_log (guarded r l0) (fun s => log s = l0) (resumeFollowupHandoff schedules r) (fun _ _ => True).
Proof.
  eapply etriple_weaken with (P' := on (since l0 (fun _ => True))) (Q' := ends) (E' := ends); [intros s Hs; exists []; by rewrite app_nil_r|done|done|].
  unfold resumeFollowupHandoff. destruct (bool_decide _); [apply from_agent_guarded|].
  destruct (retryOwnsClaims r); [apply tri_silent; auto with handoff_steps|]. destruct (bool_decide _); [apply tri_silent; auto with handoff_steps|].
  eapply tri_unless with (R := on (since l0 (fun _ => True))); [apply (tri_hold r l0 (since l0 (fun _ => True)) r); [done|]; intros l e _; by apply since_snoc|done|].
  eapply etriple_weaken with (P' := on (since l0 (fun _ => True))) (Q' := ends) (E' := ends); [by intros s [? _]|done|done|].
  destruct (is_fork r); [apply tri_silent; auto with handoff_steps|apply from_agent_guarded].
Qed.

Definition keeps_cancelled (id : string) (f : hub -> hub) : Prop := forall s, tasks s !! id = Some CANCELLED -> tasks (f s) !! id = Some CANCELLED.
Lemma cancelled_is_held r : operator_authorized r = false ->
  triple (keeps_cancelled (task_id r)) (appends silent) (fun s => tasks s !! task_id r = Some CANCELLED) (cancellationHold r) (fun o _ => o <> None).
Proof.
  intros Ha. unfold cancellationHold. rewrite Ha. eapply triple_bind with (Q := fun st _ => st = Some CANCELLED).
  - unfold getTaskState, observes. eapply etriple_bind with (Q := fun x _ => forall a, x = Ok a -> a = Some CANCELLED).
    + apply etriple_call; [intros f s Hf; apply Hf|]. intros s Hs. rewrite Hs. destruct (task_store (outside s)); cbn; (split; [|by intros a [= <-]]); [right; by eexists|by left..].
    + intros [a|e]; [apply etriple_ret; intros s Hs; by apply Hs|by apply etriple_throw].
  - intros st. eapply etriple_weaken with (P' := fun s => True /\ st = Some CANCELLED) (E' := fun _ _ => True); [by intros s ->|intros o s H; exact H|done|].
    apply etriple_pure. intros ->. eapply triple_bind with (Q := fun _ _ => True); [apply (st_lease (ok := silent)); by split|]. intros [|]; [by apply triple_ret|]. rewrite bool_decide_true by done. cbn [negb].
    eapply triple_bind with (Q := fun _ _ => True); [apply (st_hold_cancelled (ok := silent)); by split|]. intros o. by apply triple_ret.
Qed.

(** Nothing is published for a request that is not this handoff's to run: in a pass on a
    handoff no operator authorized, once its task is cancelled; and in any pass on a handoff
    whose claims a usage-limit retry owns, or may own. No commit, push or comment is sent, and
    the claims are not returned to the pending list. *)
Theorem disowned_request_publishes_nothing r :
  (operator_authorized r = false ->
     triple (keeps_cancelled (task_id r)) (appends silent) (fun s => tasks s !! task_id r = Some CANCELLED) (resumeFollowupHandoff schedules r) (fun _ _ => True))
  /\ (settlement r ∈ [Some SETTLEMENT_RETRY_SCHEDULING; Some SETTLEMENT_RETRY_SCHEDULED] ->
     triple (fun _ => True) (appends silent) (fun _ => True) (resumeFollowupHandoff schedules r) (fun _ _ => True)).
Proof.
  assert (Hq : forall good P A (m : M A), discreet silent m -> triple good (appends silent) P m (fun _ _ => True)).
  { intros good P A m Hm. eapply etriple_weaken with (P' := fun _ => True); [done| | |apply Hm; by split]; done. }
  assert (Hclean : forall r, phase r = cleanup_pending -> discreet silent (from_agent schedules r)).
  { intros x Hx. assert (E1 : bool_decide (phase x ∈ [agent_running; agent_exited]) = false) by by rewrite Hx.
    assert (E2 : bool_decide (phase x = committed) = false) by by rewrite Hx. assert (E3 : bool_decide (phase x = pushed) = false) by by rewrite Hx.
    unfold from_agent, from_committed, from_pushed. rewrite E1, E2, E3. auto with handoff_steps. }
  unfold resumeFollowupHandoff. split.
  - intros Ha. destruct (bool_decide (phase r = cleanup_pending)) eqn:Ep; [apply bool_decide_eq_true in Ep; by apply Hq, Hclean|].
    destruct (retryOwnsClaims r); [apply Hq; auto with handoff_steps|]. destruct (bool_decide (settlement r = _)); [apply Hq; auto with handoff_steps|].
    eapply triple_bind; [by apply cancelled_is_held|]. intros [o|]; [by apply triple_ret|]. intros w _ Hn. done.
  - intros Hs. destruct (bool_decide (phase r = cleanup_pending)) eqn:Ep; [apply bool_decide_eq_true in Ep; by apply Hq, Hclean|]. apply Hq.
    unfold retryOwnsClaims. apply elem_of_cons in Hs as [->|Hs]; [|apply list_elem_of_singleton in Hs as ->]; [rewrite bool_decide_false, bool_decide_true by done|rewrite bool_decide_true by done]; auto with handoff_steps.
Qed.
End Passes.

(** ** One marked comment *)

Section Once.
Variable r0 : FollowupHandoffRecord.
Abbreviation k := (key_of r0).
Abbreviation m := (handoffCommentMarker r0).
Definition carries_marker (s : hub) (id : positive) : Prop := exists b u, comments_at k s !! id = Some (Some b, u) /\ includes m b = true.
Definition at_most_one (s : hub) : Prop := forall i j, carries_marker s i -> carries_marker s j -> i = j.
(** Other processes put no marker of this handoff in a comment. *)
Definition adds_no_marker (f : hub -> hub) : Prop := forall s i, carries_marker (f s) i -> carries_marker s i.
(** A step leaves at most one marked comment, and touches no other than one it marks. *)
Definition marks_once (s s' : hub) : Prop := at_most_one s'
  /\ (comments s' = comments s \/ exists id, carries_marker s' id /\ forall j, j <> id -> comments_at k s' !! j = comments_at k s !! j).
(** Assertions on the comments that hold of at most one marked comment, and survive others *)
Record steady (P : hub -> Prop) : Prop := Steady {
  steady_others : forall f s, adds_no_marker f -> P s -> P (f s);
  steady_same : forall s s', comments s' = comments s -> P s -> P s';
  steady_one : forall s, P s -> at_most_one s;
}.
Abbreviation tri P x Q E := (etriple adds_no_marker marks_once P x Q E).
(** A program that leaves every such assertion as it is *)
Definition once {A} (x : M A) : Prop := forall P, steady P -> tri P x (fun _ => P) (fun _ => P).

Lemma steady_at_most_one : steady at_most_one.
Proof.
  split; [intros f s Hf Hs i j Hi Hj; apply Hs; by apply Hf| |done]. intros s s' E. unfold at_most_one, carries_marker, comments_at. by rewrite E.
Qed.
Lemma once_ret {A} (a : A) : once (mret a).
Proof. intros P _. by apply etriple_ret. Qed.
Lemma once_throw {A} e : once (throw e : M A).
Proof. intros P _. by apply etriple_throw. Qed.
Lemma once_bind {A B} (x : M A) (f : A -> M B) : once x -> (forall a, once (f a)) -> once (x ≫= f).
Proof. intros Hx Hf P HP. eapply etriple_bind; [by apply Hx|intros a; by apply Hf]. Qed.
Lemma once_catch {A} (x : M A) h : once x -> (forall e, once (h e)) -> once (catch x h).
Proof. intros Hx Hh P HP. eapply etriple_catch; [by apply Hx|intros e; by apply Hh]. Qed.
Lemma once_call {A} (f : hub -> A * hub) : (forall s, comments (snd (f s)) = comments s) -> once (call f).
Proof.
  intros H P HP. apply etriple_call; [apply HP|]. intros s Hs. assert (Hs' : P (snd (f s))) by (eapply (steady_same P HP); [apply H|exact Hs]).
  split; [|exact Hs']. split; [by apply (steady_one P HP)|by left].
Qed.
Lemma once_or_throw {A} (x : result A) : once (or_throw x).
Proof. destruct x; [apply once_ret|apply once_throw]. Qed.
Lemma once_asks {A} (f : hub -> A) : once (asks f).
Proof. by apply once_call. Qed.
Lemma once_external {A} (f : Outside -> result A) : once (external f).
Proof. apply once_bind; [apply once_asks|intros ?; apply once_or_throw]. Qed.
Lemma once_observes {A} (f : hub -> result A) e : once (observes f e).
Proof. apply once_bind; [|intros ?; apply once_or_throw]. apply once_call. intros s. by destruct (f s). Qed.
Lemma once_requests {A} (f : hub -> result A) e : once (requests f e).
Proof. apply once_bind; [|intros ?; apply once_or_throw]. by apply once_call. Qed.
Lemma once_sends {A} svc err (f : hub -> A * hub) : (forall s, comments (snd (f s)) = comments s) -> once (sends svc err f).
Proof.
  intros H. apply once_bind; [|intros [?|]; [apply once_ret|apply once_throw]]. apply once_call. intros s. specialize (H s).
  destruct (svc (outside s)); [by destruct (f s)|done|done].
Qed.
Lemma once_update j w set : once (statement (update_row j w set)).
Proof. apply once_sends. intros s. unfold update_row. destruct (rows s !! j); [|done]. by destruct (w _). Qed.
Lemma once_delete j w : once (statement (delete_row j w)).
Proof. apply once_sends. intros s. unfold delete_row. destruct (rows s !! j); [|done]. by destruct (w _). Qed.
Lemma once_job r : once (queueRestoredCommentFollowup r).
Proof.
  unfold queueRestoredCommentFollowup. destruct (splitHandoffRepository _) as [owner repo]. apply once_bind; [by apply once_call|intros u].
  apply once_sends. intros s. unfold add_job. destruct (queue s !! _); reflexivity.
Qed.
Lemma once_task id st : once (updateTaskState id st).
Proof.
  apply once_bind; [|intros ?; apply once_or_throw]. apply once_sends. intros s. destruct (tasks s !! id) as [c|]; [|done]. by destruct (_ && _).
Qed.

(** *** A body starts with the marker *)

Lemma starts_app (p t : string) : starts_with p (p ++ t)%string = true.
Proof. induction p as [|c p IH]; [done|]. cbn. rewrite bool_decide_true by done. exact IH. Qed.
Lemma starts_self (p : string) : starts_with p p = true.
Proof. induction p as [|c p IH]; [done|]. cbn. by rewrite bool_decide_true. Qed.
Lemma includes_start p s : starts_with p s = true -> includes p s = true.
Proof. intros H. destruct s; cbn [includes]; by rewrite H. Qed.
Lemma includes_sections p l : p <> "" -> includes p (sections (p :: l)) = true.
Proof.
  intros Hp. unfold sections. rewrite filter_cons_True by done. apply includes_start. destruct (filter _ l) as [|x l']; [apply starts_self|apply starts_app].
Qed.
Definition mine (r : FollowupHandoffRecord) : Prop := key_of r = k /\ incarnation r = incarnation r0.
Lemma mine_marker r : mine r -> handoffCommentMarker r = m.
Proof. intros [[= E1 E2] E3]. unfold handoffCommentMarker. by rewrite E1, E2, E3. Qed.
Definition marking (body : string) : Prop := includes m body = true.
Lemma marker_nonempty r : handoffCommentMarker r <> "".
Proof. done. Qed.
Lemma bodies_mark r : mine r -> marking (recoveredCompletionBody r) /\ marking (recoveredNoChangeCompletionBody r) /\ marking (interruptedWithoutChangesBody r).
Proof. intros Hr. unfold marking. rewrite <- (mine_marker r Hr). split_and!; by apply includes_sections. Qed.

(** *** The owed comment *)

(** After the listing: no comment but the one found carries the marker. *)
Definition only (o : option positive) (s : hub) : Prop := forall i, carries_marker s i -> o = Some i.
Lemma steady_only o : steady (only o).
Proof.
  split; [intros f s Hf Hs i Hi; by apply Hs, Hf| |intros s Hs i j Hi%Hs Hj%Hs; congruence]. intros s s' E. unfold only, carries_marker, comments_at. by rewrite E.
Qed.
Lemma only_set o id b u s s' : marking b -> only o s -> (o = None \/ o = Some id) -> comments s' = comments (set_comment k id (Some b, u) s) ->
  marks_once s s'.
Proof.
  intros Hb Hs Ho E. assert (L : forall j, comments_at k s' !! j = if decide (j = id) then Some (Some b, u) else comments_at k s !! j).
  { intros j. unfold comments_at at 1. rewrite E. change (comments (set_comment k id (Some b, u) s)) with (<[k := <[id := (Some b, u)]> (comments_at k s)]> (comments s)).
    rewrite lookup_insert_eq. cbn. destruct (decide (j = id)) as [->|]; [apply lookup_insert_eq|by apply lookup_insert_ne]. }
  assert (Hm : forall i, carries_marker s' i -> i = id).
  { intros i (b' & u' & Hi & Hb'). rewrite L in Hi. destruct (decide (i = id)); [done|]. assert (Hc : carries_marker s i) by by exists b', u'.
    apply Hs in Hc. destruct Ho; congruence. }
  split; [intros i j Hi Hj; by rewrite (Hm i), (Hm j)|]. right. exists id. split; [exists b, u; rewrite L; by rewrite decide_True|]. intros j Hj. rewrite L. by rewrite decide_False.
Qed.

(** A program none of whose calls touches a comment *)
Ltac once_program :=
  repeat first
    [ solve [auto using once_ret, once_throw, once_or_throw, once_asks, once_external, once_observes, once_requests, once_update, once_delete, once_job, once_task]
    | match goal with
      | |- once (_ ≫= _) => apply once_bind; [|intros ?]
      | |- once (catch _ _) => apply once_catch; [|intros ?]
      | |- once (unless_held _ _ _) => apply once_bind; [|intros ?]
      | |- once (or_else _ _) => apply once_bind; [|intros ?]
      | |- once (call _) => by apply once_call
      | |- once (sends _ _ _) => by apply once_sends
      | |- once (match ?x with _ => _ end) => destruct x
      end ].
Lemma once_advance r changes : once (advanceFollowupHandoff r changes).
Proof. unfold advanceFollowupHandoff, advance_tx. once_program. Qed.
Lemma once_finalize r : once (finalizeFollowupHandoff r).
Proof. unfold finalizeFollowupHandoff. once_program. Qed.
Lemma once_restore r : once (restoreComments r).
Proof. unfold restoreComments, restorePendingComments. once_program. Qed.
Lemma once_report r : once (reportHandoffOnTaskTimeline r).
Proof. unfold reportHandoffOnTaskTimeline, getTaskState. once_program. Qed.
Hint Resolve once_advance once_finalize once_restore once_report : core.
Lemma once_held r reason : once (holdForOperator r reason).
Proof. unfold holdForOperator. once_program. Qed.
Hint Resolve once_held : core.
Lemma once_hold r : once (cancellationHold r).
Proof.
  unfold cancellationHold, holdCancelled, withdrawCancelledClaims, withdrawRestoredComments, withdrawPendingComments, getTaskState, isOwnershipLost. once_program.
Qed.
Hint Resolve once_hold : core.
Lemma once_finalize_task r o : once (finalizeRecoveredTask r o).
Proof. unfold finalizeRecoveredTask, getTaskState, isOwnershipLost. once_program. Qed.
Lemma once_cleanup r : once (attemptHandoffCleanup r).
Proof. unfold attemptHandoffCleanup, branch_release, detachRetryOwnedWorktree, isOwnershipLost, attachment_of, registrations_of, release_worktree, detach_worktree. once_program. Qed.
Hint Resolve once_finalize_task once_cleanup : core.
Lemma once_checkout r : once (checkout r).
Proof. unfold checkout, restoreDeletedWorktree, pendingRetryHold, attachment_of, getTaskState. once_program. Qed.
Lemma once_finish r o : once (finishPublishedComment r o).
Proof. unfold finishPublishedComment, advance_to_cleanup. once_program. Qed.
Lemma once_failure r url : once (finishDeliveredFailure r url).
Proof. unfold finishDeliveredFailure, advance_to_cleanup. once_program. Qed.
Lemma once_return b r : once (return_claims b r).
Proof. unfold return_claims, advance_to_cleanup, holdCancelled, withdrawCancelledClaims, withdrawRestoredComments, withdrawPendingComments. once_program. Qed.
Lemma once_commit r : once (commit_left r).
Proof. unfold commit_left, commit_work, dirty_of. once_program. Qed.
Lemma once_work_left r c : once (work_left r c).
Proof. unfold work_left, unpushed_of, head_of. once_program. Qed.
Hint Resolve once_checkout once_finish once_failure once_return once_commit once_work_left : core.
Lemma once_push r : once (pushCommittedWork r).
Proof. unfold pushCommittedWork, validatePublicationBinding, validate_remote, getPullRequest, remote_of, ancestor_of, push_checked, push_recorded, push_branch, head_of. once_program. Qed.
Lemma once_retry_owned r : once (finishRetryOwnedClaims r).
Proof. unfold finishRetryOwnedClaims, getTaskState, isOwnershipLost. once_program. Qed.
Lemma once_from_comment r : once (from_comment r).
Proof. unfold from_comment. once_program. Qed.
Hint Resolve once_push once_retry_owned once_from_comment : core.

Lemma tri_then_one {A B} P (x : M A) (f : A -> M B) : tri P x (fun _ => at_most_one) (fun _ => at_most_one) -> (forall a, once (f a)) -> tri P (x ≫= f) (fun _ => at_most_one) (fun _ => at_most_one).
Proof. intros Hx Hf. eapply etriple_bind; [exact Hx|]. intros a. apply Hf, steady_at_most_one. Qed.
Lemma once_post r body : mine r -> marking body -> tri (only None) (post_owed r body) (fun _ => at_most_one) (fun _ => at_most_one).
Proof.
  intros [Hk _] Hb. unfold post_owed. eapply etriple_bind with (Q := fun _ => only None).
  - eapply etriple_weaken; [| | |apply (once_hold r (only None)), steady_only]; [done|done|intros e s; apply (steady_one _ (steady_only None))].
  - intros [o|]; [apply etriple_ret; intros s; apply (steady_one _ (steady_only None))|]. apply tri_then_one; [|intros ?; apply once_ret].
    unfold postComment, sends. apply tri_then_one; [|intros [?|]; [apply once_ret|apply once_throw]]. rewrite Hk.
    apply etriple_call; [intros f s; apply (steady_others _ (steady_only None))|]. intros s Hs. pose proof (steady_one _ (steady_only None) s Hs) as H1.
    destruct (github (outside s)); [|split; [by split; [|left]|done]|].
    all: match goal with |- marks_once _ ?s' /\ _ => assert (H : marks_once s s') end;
      [by apply (only_set None (Pos.succ (issued s)) body (comment_url (outside s) (Zpos (Pos.succ (issued s))))); [|done|left|]|split; [exact H|apply H]].
Qed.
Abbreviation one x := (tri at_most_one x (fun _ => at_most_one) (fun _ => at_most_one)).
Lemma one_once {A} (x : M A) : once x -> one x.
Proof. intros H. apply H, steady_at_most_one. Qed.
Lemma one_bind {A B} (x : M A) (f : A -> M B) : one x -> (forall a, one (f a)) -> one (x ≫= f).
Proof. apply etriple_bind. Qed.
(** The comment found (or the starting one) is replaced; a missing one shows that no other is marked. *)
Lemma patched_once o id body s : marking body -> only o s -> (o = None \/ exists p, o = Some p /\ id = Zpos p) ->
  marks_once s (snd (patched k id body s)) /\ (fst (patched k id body s) = Throw NOT_FOUND -> only None (snd (patched k id body s))).
Proof.
  intros Hb Hs Ho. pose proof (steady_one _ (steady_only o) s Hs) as H1. assert (Hkeep : marks_once s s) by (split; [done|by left]).
  destruct id as [|p|p]; [split; [done|]; intros _; by destruct Ho as [->|(? & ? & ?)]| |split; [done|]; intros _; by destruct Ho as [->|(? & ? & ?)]].
  cbn [patched]. destruct (comments_at k s !! p) as [c|] eqn:Ec; cbn [fst snd]; (split; [|done || intros _]).
  - apply (only_set o p body c.2); [done..| |done]. destruct Ho as [|(q & -> & [= ->])]; auto.
  - done.
  - intros i Hi. pose proof (Hs i Hi) as E. destruct Ho as [->|(q & -> & [= ->])]; [done|]. injection E as <-. destruct Hi as (b & u & Hi & _). by rewrite Ec in Hi.
Qed.
Lemma once_patching r body o id : mine r -> marking body -> (o = None \/ exists p, o = Some p /\ id = Zpos p) ->
  tri (only o) (patchComment r id body) (fun _ => at_most_one) (fun e s => at_most_one s /\ (e = NOT_FOUND -> only None s)).
Proof.
  intros Hr Hb Ho. unfold patchComment, sends. rewrite (proj1 Hr). pose proof (steady_one _ (steady_only o)) as H1.
  eapply etriple_bind with (Q := fun x s => at_most_one s /\ (x = Throw NOT_FOUND -> only None s)).
  - eapply etriple_bind with (Q := fun x s => at_most_one s /\ (x = Some (Throw NOT_FOUND) -> only None s)).
    + apply etriple_call; [intros f s; apply (steady_others _ (steady_only o))|]. intros s Hs. destruct (patched_once o id body s Hb Hs Ho) as [Hm Hn].
      destruct (patched k id body s) as [x s']. cbn [fst snd] in *.
      destruct (github (outside s)); cbn [fst snd]; [split; [done|split; [apply Hm|intros [= ->]; auto]]|split; [split; [by apply H1|by left]|split; [by apply H1|done]]|split; [done|split; [apply Hm|done]]].
    + intros [x|]; [|apply etriple_throw; intros s [H _]; by split]. apply etriple_ret. intros s [H H2]. split; [done|]. intros ->. auto.
  - intros [url|e]; [apply etriple_ret; by intros s [? _]|]. apply etriple_throw. intros s [H H2]. split; [done|]. intros ->. auto.
Qed.
Lemma once_patch r body o target : mine r -> marking body -> (o = None \/ exists p, o = Some p /\ target = Some (Zpos p)) ->
  tri (only o) (patch_or_post r body target) (fun _ => at_most_one) (fun _ => at_most_one).
Proof.
  intros Hr Hb Ho. pose proof (steady_one _ (steady_only o)) as H1.
  assert (Hpost : o = None -> tri (only o) (post_owed r body) (fun _ => at_most_one) (fun _ => at_most_one)) by (intros ->; by apply once_post).
  assert (Hpatch : forall id, (o = None \/ exists p, o = Some p /\ id = Zpos p) -> tri (only o) (unless_held (cancellationHold r) inr
    (patched ← catch (url ← patchComment r id body; mret (Some url)) (fun e => if bool_decide (e = NOT_FOUND) then mret None else throw e);
     match patched with Some url => mret (inl (url, recovery)) | None => post_owed r body end)) (fun _ => at_most_one) (fun _ => at_most_one)).
  { intros id Hid. eapply etriple_bind with (Q := fun _ => only o).
    { eapply etriple_weaken; [| | |apply (once_hold r (only o)), steady_only]; [done|done|intros e s; apply H1]. }
    intros [h|]; [apply etriple_ret; intros s; apply H1|].
    eapply etriple_bind with (Q := fun x s => match x with Some _ => at_most_one s | None => only None s end).
    + eapply etriple_catch with (E := fun e s => at_most_one s /\ (e = NOT_FOUND -> only None s)).
      * eapply etriple_bind; [by apply once_patching|]. intros url. by apply etriple_ret.
      * intros e. destruct (bool_decide (e = NOT_FOUND)) eqn:Ee; [apply bool_decide_eq_true in Ee as ->; apply etriple_ret; intros s [_ H]; auto|apply etriple_throw; by intros s [? _]].
    + intros [url|]; [by apply etriple_ret|by apply once_post]. }
  unfold patch_or_post. destruct target as [[|p|p]|];
    [apply Hpost; by destruct Ho as [|(? & ? & ?)]|apply Hpatch|apply Hpatch|apply Hpost; by destruct Ho as [|(? & ? & ?)]].
  - destruct Ho as [|(q & ? & [= ->])]; [by left|right; by exists q].
  - destruct Ho as [|(q & ? & ?)]; [by left|done].
Qed.
Lemma listed s c : c ∈ listing k s <-> exists p, ic_id c = Zpos p /\ comments_at k s !! p = Some (ic_body c, html_url c).
Proof.
  unfold listing. rewrite list_elem_of_fmap. setoid_rewrite (sort_by_perm _ (map_to_list (comments_at k s))). split.
  - intros ([p [b u]] & -> & H). apply elem_of_map_to_list in H. by exists p.
  - intros (p & Ep & H). exists (p, (ic_body c, html_url c)). split; [|by apply elem_of_map_to_list]. destruct c. cbn in *. by subst.
Qed.
(** What the listing shows of the marked comments *)
Lemma listing_only s : at_most_one s -> match List.find (marked m) (listing k s) with
  | Some c => exists p, ic_id c = Zpos p /\ only (Some p) s | None => only None s end.
Proof.
  intros H1. destruct (List.find _ _) as [c|] eqn:Ef.
  - apply find_some in Ef as [Hin%list_elem_of_In Hm]. apply listed in Hin as (p & Ep & Hp). exists p. split; [done|]. intros i Hi.
    f_equal. apply H1; [|done]. unfold marked in Hm. destruct (ic_body c) as [b|] eqn:Eb; [|done]. by exists b, (html_url c).
  - intros i (b & u & Hi & Hb). exfalso. eapply find_none with (x := Comment (Zpos i) (Some b) u) in Ef; [unfold marked in Ef; cbn [ic_body] in Ef; by rewrite Hb in Ef|].
    apply list_elem_of_In, listed. by exists i.
Qed.
Lemma once_publish r body b : mine r -> marking body -> one (publishOwedComment r body b).
Proof.
  intros Hr Hb. unfold publishOwedComment. destruct (truthy_string _); [apply one_once, once_ret|].
  eapply etriple_bind with (Q := fun l s => match List.find (marked m) l with Some c => exists p, ic_id c = Zpos p /\ only (Some p) s | None => only None s end).
  - unfold listComments, observes. eapply etriple_bind with (Q := fun x s => at_most_one s /\ match x with Ok l => match List.find (marked m) l with Some c => exists p, ic_id c = Zpos p /\ only (Some p) s | None => only None s end | _ => True end).
    + apply etriple_call; [intros f s; apply (steady_others _ steady_at_most_one)|]. intros s Hs. rewrite (proj1 Hr).
      destruct (github (outside s)); cbn; (split; [split; [done|by left]|split; [done|]]); [|done..]. exact (listing_only s Hs).
    + intros [l|e]; [apply etriple_ret; by intros s [? ?]|apply etriple_throw; by intros s [? ?]].
  - intros l. cbv zeta. rewrite (mine_marker r Hr). destruct (List.find _ l) as [c|]; [|apply once_patch; [done..|by left]].
    apply etriple_ex. intros p. eapply etriple_weaken with (P' := fun s => only (Some p) s /\ ic_id c = Zpos p); [by intros s [? ?]|intros x s Hx; exact Hx|intros e s Hx; exact Hx|].
    apply etriple_pure. intros ->. destruct (negb _); [apply etriple_ret; intros s; apply (steady_one _ (steady_only _))|].
    apply once_patch; [done..|]. right. by exists p.
Qed.
Lemma place_mine r : same_place r0 r -> mine r.
Proof. by intros (?&_&_&_&_&_&_&_&?&_). Qed.
Lemma one_without b r : mine r -> one (finishWithoutChanges b r).
Proof.
  intros Hr. destruct (bodies_mark r Hr) as (_ & _ & Hb). unfold finishWithoutChanges. apply one_bind; [by apply once_publish|].
  intros [[url []]|o]; apply one_once; [|auto..|apply once_ret]. apply once_bind; [auto|]. intros [r'|]; [auto|apply once_ret].
Qed.
Lemma one_completed r : mine r -> one (finishCompletedWithoutChanges r).
Proof.
  intros Hr. destruct (bodies_mark r Hr) as (_ & Hb & _). unfold finishCompletedWithoutChanges. apply one_bind; [by apply once_publish|].
  assert (Hf : forall c (o : FollowupHandoffRecord -> RecoveredTaskOutcome),
    once (published ← advanceFollowupHandoff r c; match published with None => mret r_superseded | Some r => finishPublishedComment r (o r) end)).
  { intros c o. apply once_bind; [auto|]. intros [r'|]; [auto|apply once_ret]. }
  intros [[url []]|o]; apply one_once; [apply (Hf _ deliveredOutcome)|auto|apply (Hf _ (fun _ => completed_without_changes))|apply once_ret].
Qed.
Lemma one_collect b r : same_place r0 r -> one (collectAgentOutput b r).
Proof.
  intros Hr. unfold collectAgentOutput. eapply etriple_bind; [apply etriple_returns; [by apply (returns_checkout r0)|by apply one_once]|].
  intros [o|[r' a]]; [apply etriple_ret; by intros s [? _]|]. apply etriple_pure. intros [Hr' _].
  destruct a; [apply one_once, once_bind; [auto|intros ?; apply once_ret]..|]. apply one_bind; [by apply one_once|]. intros [o|c]; [apply one_once, once_ret|].
  unfold collect_left. apply one_bind; [by apply one_once|]. intros [h|]; [apply one_once; once_program|].
  apply one_bind; [|intros o; apply one_once, once_ret]. apply place_mine in Hr'. destruct (_ && _); [by apply one_completed|by apply one_without].
Qed.
Lemma one_pushed r : mine r -> one (publishPushedCompletion r).
Proof.
  intros Hr. unfold publishPushedCompletion. apply one_bind; [apply once_publish; [done|apply (bodies_mark r Hr)]|].
  intros [[url d]|o]; apply one_once; once_program.
Qed.
Lemma one_step x f : one x -> returns x (onward r0) -> (forall r, same_place r0 r -> one (f r)) -> one (continue_with x f).
Proof.
  intros Hx HR Hf. unfold continue_with. eapply etriple_bind; [apply etriple_returns; [exact HR|exact Hx]|].
  intros [r|o]; [|apply etriple_ret; by intros s [? _]]. apply etriple_pure. apply Hf.
Qed.
Lemma one_from_pushed r : same_place r0 r -> one (from_pushed r).
Proof.
  intros Hr. unfold from_pushed. destruct (bool_decide _); [|by apply one_once]. apply one_step; [by apply one_pushed, place_mine| |intros r' _; by apply one_once].
  unfold publishPushedCompletion. apply returns_bind. intros [[url d]|o]; [by apply returns_superseded|by apply returns_mret].
Qed.
Lemma one_from_committed r : same_place r0 r -> one (from_committed r).
Proof.
  intros Hr. unfold from_committed. destruct (bool_decide _); [|by apply one_from_pushed]. apply one_step; [by apply one_once| |apply one_from_pushed].
  by apply returns_push.
Qed.
Lemma one_from_agent b r : same_place r0 r -> one (from_agent b r).
Proof.
  intros Hr. unfold from_agent. destruct (bool_decide _); [|by apply one_from_committed]. apply one_step; [by apply one_collect| |apply one_from_committed].
  by apply returns_collect.
Qed.

(** C7. A handoff's comment is published once: while other processes put its marker in no
    comment, a pass of recovery from a state with at most one comment that carries the marker
    leaves at most one after each of its requests (posted, patched, or lost with its answer),
    and touches no comment but the marked one. *)
Theorem completion_published_once schedules :
  triple adds_no_marker marks_once at_most_one (resumeFollowupHandoff schedules r0) (fun _ => at_most_one).
Proof.
  eapply etriple_weaken with (P' := at_most_one) (Q' := fun _ => at_most_one) (E' := fun _ => at_most_one); [done|done|done|].
  unfold resumeFollowupHandoff. destruct (bool_decide _); [apply one_from_agent, same_place_refl|].
  destruct (retryOwnsClaims r0); [by apply one_once|]. destruct (bool_decide _); [by apply one_once|].
  apply one_bind; [by apply one_once|]. intros [o|]; [apply one_once, once_ret|].
  destruct (is_fork r0); [by apply one_once|apply one_from_agent, same_place_refl].
Qed.
End Once.
