(* ===== verification/HandoffRows.v ===== *)
(** * Follow-up handoffs: what a checkpoint of recovery means

    The row of a handoff moves through its phases in order, and a pass of recovery writes
    each phase only on evidence of this pass: a commit made or found, an accepted push, a
    comment with the handoff's marker, an ended task. It deletes the row only in the last
    phase, after it saw no worktree hold the branch. *)

From S2P Require Import Prelude JsString Interleave Handoff HandoffResume HandoffGuards.

Open Scope string_scope.
Open Scope Z_scope.
Open Scope list_scope.

(** What no pass changes of a handoff *)
Definition identity (r : FollowupHandoffRecord) :=
  (key_of r, task_id r, incarnation r, (worktree_path r, branch_name r, target_repository r, local_repo_path r), (claimed_comments r, job_data r)).
(** What a version of the row says of the progress made *)
Definition content (r : FollowupHandoffRecord) := (identity r, phase r, settlement r, completion_comment_url r).
(** A version of a row, but for what a diagnostic overwrites *)
Definition version (r : FollowupHandoffRecord) : FollowupHandoffRecord := { r with status_reason := None; updated_at := 0 }.
Lemma version_content x y : version x = version y -> content x = content y.
Proof. intros H. exact (f_equal content H). Qed.
Lemma version_status x y : version x = version y -> status x = status y.
Proof. intros H. exact (f_equal status H). Qed.

Create HintDb stable.

Section Attempt.
Variable r0 : FollowupHandoffRecord.
Variable l0 : list Event.
Abbreviation k := (key_of r0).
Abbreviation i := (incarnation r0).

(** ** What other processes do *)

(** A row of this attempt comes from an older version of it, or repeats it. *)
Definition attempt_write (s s' : hub) : Prop := forall row', rows s' !! k = Some row' -> incarnation row' = i ->
  exists row, rows s !! k = Some row /\ incarnation row = i
    /\ identity row' = identity row /\ (generation row < generation row' \/ generation row' = generation row /\ version row' = version row).
(** The task of the handoff has ended. *)
Definition over (s : hub) : Prop := exists st, tasks s !! task_id r0 = Some st /\ terminalStates st = true.
(** Every row is found by its own key columns. *)
Definition keyed (s : hub) : Prop := map_Forall (fun key r => key_of r = key) (rows s).
Definition moves_on (s s' : hub) : Prop := attempt_write s s' /\ (exists l, log s' = log s ++ l) /\ (over s -> over s') /\ (keyed s -> keyed s') /\ (drawn s <= drawn s')%nat.
Definition others_do (f : hub -> hub) : Prop := forall s, moves_on s (f s) /\ log (f s) = log s.

(** ** Evidence and moves *)

(** Seen or sent in this pass *)
Definition seen (e : Event) (s : hub) : Prop := exists l, log s = l0 ++ l /\ e ∈ l.
Definition listed_comment (c : IssueComment) (s : hub) : Prop := exists l, seen (saw_comments k l) s /\ c ∈ l /\ marked (handoffCommentMarker r0) c = true.
(** A comment with the handoff's marker is known, was found or was sent. *)
Definition delivered (s : hub) (url : option string) : Prop := truthy_string url <> None
  \/ (exists c, listed_comment c s) \/ (exists id b, marking r0 b /\ seen (sent_patch k id b) s) \/ (exists b, marking r0 b /\ seen (sent_post k b) s).
Definition failure_reported (s : hub) : Prop := exists c, listed_comment c s /\ normalDelivery (ic_body c) = normal_failure.
Definition claims_returned (s : hub) : Prop := claimed_comments r0 = [] \/ exists key, seen (restored_claims key (claimed_comments r0)) s.
Definition work_made (c : string) (s : hub) : Prop := seen (sent_commit (worktree_path r0) (Ok (Some c))) s \/ seen (saw_head (worktree_path r0) c) s.
Definition work_pushed (s : hub) : Prop := exists a, seen (sent_push (worktree_path r0) (target_repository r0) (branch_name r0) (Ok a)) s.
Definition branch_free (s : hub) : Prop := seen (saw_registrations (local_repo_path r0) (branch_name r0) []) s.

(** Every change a pass may make to the row, with its evidence *)
Inductive moves (s : hub) (r r' : FollowupHandoffRecord) : Prop :=
  | stays : content r' = content r -> moves s r r'
  | to_committed c : phase r ∈ [agent_running; agent_exited] -> phase r' = committed -> commit_hash r' = Some c -> work_made c s -> moves s r r'
  | to_pushed : phase r = committed -> phase r' = pushed -> work_pushed s -> moves s r r'
  | to_comment : phase r ∈ [agent_running; agent_exited; pushed] -> phase r' = comment_published -> delivered s (completion_comment_url r) -> moves s r r'
  | to_cleanup : phase r = comment_published -> phase r' = cleanup_pending -> over s -> moves s r r'
  | to_failure : phase r' = cleanup_pending -> failure_reported s -> over s -> moves s r r'
  | to_returned : phase r' = cleanup_pending -> settlement r' = Some SETTLEMENT_RETURNED_TO_QUEUE -> claims_returned s -> over s -> moves s r r'
  | to_retry : retryOwnsClaims r = true -> phase r' = cleanup_pending -> settlement r' = settlement r -> moves s r r'.
Definition checkpoints (s s' : hub) : Prop := moves_on s s' /\ (rows s' = rows s \/ exists row, rows s !! k = Some row /\ incarnation row = i
  /\ ((exists row', rows s' = <[k := row']> (rows s) /\ identity row' = identity row /\ generation row' = generation row + 1 /\ moves s row row'
          /\ (status row' = HANDOFF_RELEASED -> status row = HANDOFF_RELEASED))
      \/ rows s' = delete k (rows s) /\ phase row = cleanup_pending /\ branch_free s)).

(** ** Assertions that hold on *)

Definition stable (P : hub -> Prop) : Prop := forall s s', moves_on s s' -> P s -> P s'.
(** The log holds what it held when the pass began. *)
Definition begun (s : hub) : Prop := exists l, log s = l0 ++ l.
Lemma stable_begun : stable begun.
Proof. intros s s' (_ & (l & El) & _) (l' & E). exists (l' ++ l). by rewrite El, E, app_assoc. Qed.
(** The row is the version in hand, or a later one. *)
Definition tracks (r : FollowupHandoffRecord) (s : hub) : Prop := begun s /\ forall row, rows s !! k = Some row -> incarnation row = i ->
  generation r < generation row \/ generation row = generation r /\ version row = version r.
Lemma stable_tracks r : stable (tracks r).
Proof.
  intros s s' H [Hb Ht]. split; [by eapply stable_begun|]. destruct H as (Hw & _ & _). intros row' Hr' Hi. destruct (Hw row' Hr' Hi) as (row & Hr & Hir & _ & Hd). specialize (Ht row Hr Hir).
  destruct Hd as [?|[-> ->]]; [left; destruct Ht as [?|[? _]]; lia|done].
Qed.
Lemma stable_seen e : stable (seen e).
Proof. intros s s' (_ & (l & El) & _) (l' & E & He). exists (l' ++ l). rewrite El, E, app_assoc. split; [done|]. apply elem_of_app. by left. Qed.
Lemma stable_over : stable over.
Proof. by intros s s' (_ & _ & H & _). Qed.
Lemma stable_keyed : stable keyed.
Proof. by intros s s' (_ & _ & _ & H & _). Qed.
Lemma stable_conj P Q : stable P -> stable Q -> stable (fun s => P s /\ Q s).
Proof. intros HP HQ s s' H [? ?]. split; [by eapply HP|by eapply HQ]. Qed.
Lemma stable_or P Q : stable P -> stable Q -> stable (fun s => P s \/ Q s).
Proof. intros HP HQ s s' H [?|?]; [left; by eapply HP|right; by eapply HQ]. Qed.
Lemma stable_ex {X} (P : X -> hub -> Prop) : (forall x, stable (P x)) -> stable (fun s => exists x, P x s).
Proof. intros HP s s' H [x Hx]. exists x. by eapply HP. Qed.
Lemma stable_const (phi : Prop) : stable (fun _ => phi).
Proof. by intros s s' _. Qed.
Lemma stable_impl (phi : Prop) P : stable P -> stable (fun s => phi -> P s).
Proof. intros HP s s' H Hs Hphi. by eapply HP, Hs. Qed.
Lemma seen_now e s s' : begun s -> log s' = log s ++ [e] -> seen e s'.
Proof. intros (l & E) E'. exists (l ++ [e]). rewrite E', E, app_assoc. split; [done|]. apply elem_of_app. right. by left. Qed.
Lemma good_stable P f s : stable P -> others_do f -> P s -> P (f s).
Proof. intros HP Hf. apply HP, Hf. Qed.

(** ** Steps that leave the rows alone *)

Definition silent_change (s s' : hub) : Prop := rows s' = rows s /\ (exists l, log s' = log s ++ l) /\ (over s -> over s') /\ (drawn s <= drawn s')%nat.
Lemma same_change s s' : rows s' = rows s -> log s' = log s -> tasks s' = tasks s -> (drawn s <= drawn s')%nat -> silent_change s s'.
Proof. intros Hr Hl Ht Hd. split_and!; [done|exists []; by rewrite app_nil_r| |done]. unfold over. by rewrite Ht. Qed.
Lemma note_change e s s' : rows s' = rows s -> log s' = log s ++ [e] -> tasks s' = tasks s -> (drawn s <= drawn s')%nat -> silent_change s s'.
Proof. intros Hr Hl Ht Hd. split_and!; [done|by exists [e]| |done]. unfold over. by rewrite Ht. Qed.
Lemma over_change s s' id st : rows s' = rows s -> (exists l, log s' = log s ++ l) -> tasks s' = <[id := st]> (tasks s) -> terminalStates st = true ->
  (drawn s <= drawn s')%nat -> silent_change s s'.
Proof.
  intros Hr Hl Ht Hst Hd. split_and!; [done..| |done]. intros (st' & H & H'). unfold over. rewrite Ht.
  destruct (decide (id = task_id r0)) as [->|]; [exists st; by rewrite lookup_insert_eq|]. exists st'. by rewrite lookup_insert_ne.
Qed.
Lemma silent_moves s s' : silent_change s s' -> moves_on s s'.
Proof.
  intros (Hr & Hl & Ho & Hd). split_and!; [|done..|by unfold keyed; rewrite Hr|done]. intros row' H Hi. rewrite Hr in H. exists row'. split_and!; auto.
Qed.
Lemma silent_step s s' : silent_change s s' -> checkpoints s s'.
Proof. intros H. split; [by apply silent_moves|left; apply H]. Qed.
Lemma observed_change {A} (f : hub -> result A) (e : A -> Event) s :
  silent_change s (snd (match f s with Ok a => (Ok a, note (e a) s) | Throw x => (Throw x, s) end)).
Proof. destruct (f s) as [a|x]; cbn [snd]; [by eapply note_change|by apply same_change]. Qed.
Lemma sent_change {A} (svc : answer) (f : hub -> A * hub) s : silent_change s (snd (f s)) ->
  silent_change s (snd match svc with works => let '(a, s') := f s in (Some a, s') | refuses => (None, s) | loses_answer => (None, snd (f s)) end).
Proof. intros H. destruct svc; [by destruct (f s)|by apply same_change|done]. Qed.
Lemma updated_change id st s : terminalStates st = true -> silent_change s (snd match tasks s !! id with
    | None => (Throw "Task state not found", s)
    | Some cur => if terminalStates cur && negb (bool_decide (cur = st)) then (Ok cur, s)
                  else (Ok st, note (set_task id st) { s with tasks := <[id := st]> (tasks s) })
    end).
Proof.
  intros Hst. destruct (tasks s !! id) as [cur|]; [|by apply same_change]. destruct (_ && _); [by apply same_change|].
  eapply over_change; [done|by exists [set_task id st]|done|done|done].
Qed.

(** [own] is what the program's own steps do; steps that leave the rows alone are among them. *)
Section Frame.
Variable own : hub -> hub -> Prop.
Hypothesis own_silent : forall s s', silent_change s s' -> own s s'.

(** A program that keeps every assertion which holds on *)
Definition quiet {A} (m : M A) : Prop := forall P, stable P -> etriple others_do own P m (fun _ => P) (fun _ => P).
Lemma quiet_ret {A} (a : A) : quiet (mret a).
Proof. intros P _. by apply etriple_ret. Qed.
Lemma quiet_throw {A} e : quiet (throw e : M A).
Proof. intros P _. by apply etriple_throw. Qed.
Lemma quiet_bind {A B} (m : M A) (f : A -> M B) : quiet m -> (forall a, quiet (f a)) -> quiet (m ≫= f).
Proof. intros Hm Hf P HP. eapply etriple_bind; [by apply Hm|]. intros a. by apply Hf. Qed.
Lemma quiet_catch {A} (m : M A) h : quiet m -> (forall e, quiet (h e)) -> quiet (catch m h).
Proof. intros Hm Hh P HP. eapply etriple_catch; [by apply Hm|]. intros e. by apply Hh. Qed.
Lemma quiet_or_throw {A} (x : result A) : quiet (or_throw x).
Proof. destruct x; [apply quiet_ret|apply quiet_throw]. Qed.
Lemma own_call P {A} (f : hub -> A * hub) (Q : A -> hub -> Prop) : stable P -> (forall s, silent_change s (snd (f s))) ->
  (forall s, P s -> Q (fst (f s)) (snd (f s))) -> etriple others_do own P (call f) (fun a s => P s /\ Q a s) (fun _ => P).
Proof.
  intros HP Hc HQ. apply etriple_call; [intros g s Hg Hs; exact (good_stable _ g s HP Hg Hs)|]. intros s Hs. split; [by apply own_silent|].
  split; [|by apply HQ]. eapply HP; [apply silent_moves, Hc|exact Hs].
Qed.
Lemma quiet_calls {A} (f : hub -> A * hub) : (forall s, silent_change s (snd (f s))) -> quiet (call f).
Proof. intros H P HP. eapply etriple_weaken; [done| | |apply (own_call P f (fun _ _ => True) HP H)]; [by intros a s [? _]|done|done]. Qed.
(** An answer that arrived, by its event *)
Lemma own_observes P {A} (f : hub -> result A) e : stable P -> (forall s, P s -> begun s) ->
  etriple others_do own P (observes f e) (fun a s => P s /\ seen (e a) s) (fun _ => P).
Proof.
  intros HP Hb. unfold observes. eapply etriple_bind with (Q := fun x s => P s /\ match x with Ok a => seen (e a) s | Throw _ => True end).
  - apply (own_call P _ (fun x s => match x with Ok a => seen (e a) s | Throw _ => True end) HP); [apply observed_change|].
    intros s Hs. destruct (f s) as [a|x]; cbn [fst snd]; [|done]. by eapply seen_now; [apply Hb|].
  - intros [a|x]; [by apply etriple_ret|apply etriple_throw; by intros s [? _]].
Qed.
Lemma own_requests P {A} (f : hub -> result A) e : stable P -> (forall s, P s -> begun s) ->
  etriple others_do own P (requests f e) (fun a s => P s /\ seen (e (Ok a)) s) (fun _ => P).
Proof.
  intros HP Hb. unfold requests. eapply etriple_bind with (Q := fun x s => P s /\ seen (e x) s).
  - apply (own_call P _ (fun x s => seen (e x) s) HP); [intros s; by eapply note_change|]. intros s Hs. by eapply seen_now; [apply Hb|].
  - intros [a|x]; [by apply etriple_ret|apply etriple_throw; by intros s [? _]].
Qed.
(** A change of state whose answer arrived *)
Lemma own_sends P {A} svc err (f : hub -> A * hub) (Q : A -> hub -> Prop) : stable P -> (forall s, silent_change s (snd (f s))) ->
  (forall s, P s -> Q (fst (f s)) (snd (f s))) -> etriple others_do own P (sends svc err f) (fun a s => P s /\ Q a s) (fun _ => P).
Proof.
  intros HP Hc HQ. unfold sends. eapply etriple_bind with (Q := fun o s => P s /\ match o with Some a => Q a s | None => True end).
  - apply (own_call P _ (fun o s => match o with Some a => Q a s | None => True end) HP); [intros s; by apply sent_change|].
    intros s Hs. specialize (HQ s Hs). destruct (svc (outside s)); [by destruct (f s)|done|done].
  - intros [a|]; [by apply etriple_ret|apply etriple_throw; by intros s [? _]].
Qed.
(** The task has ended where its state says so, and after it was set. *)
Definition ended (st : option TaskStateName) : Prop := match st with Some st => terminalStates st = true | None => False end.
Lemma own_task P : stable P -> etriple others_do own P (getTaskState (task_id r0)) (fun st s => P s /\ (ended st -> over s)) (fun _ => P).
Proof.
  intros HP. unfold getTaskState, observes. eapply etriple_bind with (Q := fun x s => P s /\ match x with Ok st => ended st -> over s | Throw _ => True end).
  - apply (own_call P _ (fun x s => match x with Ok st => ended st -> over s | Throw _ => True end) HP); [intros s; destruct (task_store (outside s)); [by eapply note_change|by apply same_change..]|].
    intros s _. destruct (task_store (outside s)); cbn [fst snd]; [|done..]. destruct (tasks s !! task_id r0) as [st|] eqn:Et; [|done]. intros Hst. by exists st.
  - intros [a|x]; [by apply etriple_ret|apply etriple_throw; by intros s [? _]].
Qed.
Lemma own_update P st : stable P -> terminalStates st = true -> etriple others_do own P (updateTaskState (task_id r0) st) (fun _ s => P s /\ over s) (fun _ => P).
Proof.
  intros HP Hst. unfold updateTaskState. eapply etriple_bind with (Q := fun x s => P s /\ match x with Ok _ => over s | Throw _ => True end).
  - apply (own_sends P _ _ _ (fun x s => match x with Ok _ => over s | Throw _ => True end) HP); [intros s; by apply updated_change|].
    intros s _. destruct (tasks s !! task_id r0) as [cur|] eqn:Et; [|done]. destruct (_ && _) eqn:Ec; cbn [fst snd].
    + apply andb_true_iff in Ec as [Ec _]. by exists cur.
    + exists st. split; [apply lookup_insert_eq|done].
  - intros [a|x]; [by apply etriple_ret|apply etriple_throw; by intros s [? _]].
Qed.
Lemma quiet_asks {A} (f : hub -> A) : quiet (asks f).
Proof. apply quiet_calls. intros s. by apply same_change. Qed.
Lemma quiet_external {A} (f : Outside -> result A) : quiet (external f).
Proof. apply quiet_bind; [apply quiet_asks|intros ?; apply quiet_or_throw]. Qed.
Lemma quiet_observes {A} (f : hub -> result A) e : quiet (observes f e).
Proof. apply quiet_bind; [|intros ?; apply quiet_or_throw]. apply quiet_calls, observed_change. Qed.
Lemma quiet_requests {A} (f : hub -> result A) e : quiet (requests f e).
Proof. apply quiet_bind; [|intros ?; apply quiet_or_throw]. apply quiet_calls. intros s. by eapply note_change. Qed.
Lemma quiet_sends {A} svc err (f : hub -> A * hub) : (forall s, silent_change s (snd (f s))) -> quiet (sends svc err f).
Proof. intros H. apply quiet_bind; [|intros [?|]; [apply quiet_ret|apply quiet_throw]]. apply quiet_calls. intros s. by apply sent_change. Qed.
Lemma quiet_update id st : terminalStates st = true -> quiet (updateTaskState id st).
Proof. intros Hst. apply quiet_bind; [|intros ?; apply quiet_or_throw]. apply quiet_sends. intros s. by apply updated_change. Qed.
Lemma quiet_withdraw r : quiet (withdrawRestoredComments r).
Proof.
  unfold withdrawRestoredComments, withdrawPendingComments. destruct (splitHandoffRepository _) as [owner repo]. destruct (claim_ids r); [apply quiet_ret|].
  apply quiet_sends. intros s. by apply same_change.
Qed.
Lemma quiet_claims r : quiet (restoreComments r).
Proof.
  unfold restoreComments, restorePendingComments. destruct (splitHandoffRepository _) as [owner repo]. destruct (claimed_comments r); [apply quiet_ret|].
  apply quiet_sends. intros s. by eapply note_change.
Qed.
Lemma quiet_job r : quiet (queueRestoredCommentFollowup r).
Proof.
  unfold queueRestoredCommentFollowup. destruct (splitHandoffRepository _) as [owner repo]. apply quiet_bind; [apply quiet_calls; intros s; apply same_change; [done..|exact (le_S _ _ (le_n _))]|intros u].
  apply quiet_sends. intros s. unfold add_job. destruct (queue s !! _); by eapply note_change.
Qed.
Lemma quiet_task id : quiet (getTaskState id).
Proof. apply quiet_observes. Qed.
Lemma quiet_lease : quiet isOwnershipLost.
Proof. apply quiet_observes. Qed.
Lemma quiet_report r : quiet (reportHandoffOnTaskTimeline r).
Proof. apply quiet_catch; [|intros ?; apply quiet_ret]. apply quiet_bind; [apply quiet_task|intros ?; apply quiet_ret]. Qed.
End Frame.

(** ** Programs that leave the content of the row *)

(** A program that, while it holds the version [r], keeps every such assertion *)
Definition tame (r : FollowupHandoffRecord) {A} (m : M A) : Prop := forall P, stable P ->
  etriple others_do checkpoints (fun s => P s /\ tracks r s) m (fun _ s => P s /\ tracks r s) (fun _ s => P s /\ tracks r s).
Lemma tame_quiet r {A} (m : M A) : quiet checkpoints m -> tame r m.
Proof. intros H P HP. apply (H (fun s => P s /\ tracks r s)). apply stable_conj; [done|apply stable_tracks]. Qed.
Lemma tame_ret r {A} (a : A) : tame r (mret a).
Proof. intros P _. by apply etriple_ret. Qed.
Lemma tame_throw r {A} e : tame r (throw e : M A).
Proof. intros P _. by apply etriple_throw. Qed.
Lemma tame_bind r {A B} (m : M A) (f : A -> M B) : tame r m -> (forall a, tame r (f a)) -> tame r (m ≫= f).
Proof. intros Hm Hf P HP. eapply etriple_bind; [by apply Hm|]. intros a. by apply Hf. Qed.
Lemma tame_catch r {A} (m : M A) h : tame r m -> (forall e, tame r (h e)) -> tame r (catch m h).
Proof. intros Hm Hh P HP. eapply etriple_catch; [by apply Hm|]. intros e. by apply Hh. Qed.
Lemma tame_asks r {A} (f : hub -> A) : tame r (asks f).
Proof. by apply tame_quiet, quiet_asks, silent_step. Qed.
Lemma tame_external r {A} (f : Outside -> result A) : tame r (external f).
Proof. by apply tame_quiet, quiet_external, silent_step. Qed.
Lemma tame_observes r {A} (f : hub -> result A) e : tame r (observes f e).
Proof. by apply tame_quiet, quiet_observes, silent_step. Qed.
Lemma tame_update r id st : terminalStates st = true -> tame r (updateTaskState id st).
Proof. intros H. apply tame_quiet. by apply quiet_update; [apply silent_step|]. Qed.
Lemma tame_withdraw r r' : tame r (withdrawRestoredComments r').
Proof. by apply tame_quiet, quiet_withdraw, silent_step. Qed.
Lemma tame_job r r' : tame r (queueRestoredCommentFollowup r').
Proof. by apply tame_quiet, quiet_job, silent_step. Qed.
Lemma tame_task r id : tame r (getTaskState id).
Proof. apply tame_observes. Qed.
Lemma tame_lease r : tame r isOwnershipLost.
Proof. apply tame_observes. Qed.
Lemma tame_report r r' : tame r (reportHandoffOnTaskTimeline r').
Proof. by apply tame_quiet, quiet_report, silent_step. Qed.

(** *** Writes of the row *)

Definition in_attempt (r : FollowupHandoffRecord) : Prop := identity r = identity r0.
Lemma in_attempt_key r : in_attempt r -> key_of r = k.
Proof. intros H. exact (f_equal (fun x => x.1.1.1.1) H). Qed.
Lemma in_attempt_incarnation r : in_attempt r -> incarnation r = i.
Proof. intros H. exact (f_equal (fun x => x.1.1.2) H). Qed.
(** [changes] read nothing a diagnostic overwrites, and keep the identity. *)
Record regular (changes : FollowupHandoffRecord -> FollowupHandoffRecord) : Prop := Regular {
  regular_identity : forall x, identity (changes x) = identity x;
  regular_version : forall x y g t, version x = version y -> version (advanced changes g t x) = version (advanced changes g t y);
  regular_status : forall x, status (changes x) = HANDOFF_RELEASED -> status x = HANDOFF_RELEASED;
}.
Lemma is_version_same r row : is_version r row = true -> incarnation row = incarnation r /\ generation row = generation r.
Proof. unfold is_version, same_attempt. rewrite !andb_true_iff, !bool_decide_eq_true. naive_solver. Qed.
Lemma write_step s row row' : rows s !! k = Some row -> incarnation row = i -> rows (set_row k (Some row') s) = <[k := row']> (rows s) ->
  identity row' = identity row -> generation row' = generation row + 1 -> moves s row row' -> (status row' = HANDOFF_RELEASED -> status row = HANDOFF_RELEASED) ->
  checkpoints s (set_row k (Some row') s).
Proof.
  intros Hr Hi E Hid Hg Hm Hst. split; [split_and!; [|by exists []; rewrite app_nil_r|done| |done]|right; exists row; split_and!; [done..|left; by exists row']].
  2: { intros Hk. unfold keyed. rewrite E. apply map_Forall_insert_2; [|done]. rewrite <- (Hk _ _ Hr). exact (f_equal (fun x => x.1.1.1.1) Hid). }
  intros x Hx Hix. rewrite E, lookup_insert_eq in Hx. injection Hx as <-. exists row. split_and!; [done..|]. left. lia.
Qed.
Lemma tri_advance P r changes : stable P -> in_attempt r -> regular changes ->
  (forall s row g t, P s -> content row = content r -> moves s row (advanced changes g t row)) ->
  etriple others_do checkpoints (fun s => P s /\ tracks r s) (advanceFollowupHandoff r changes)
    (fun o s => P s /\ match o with Some r' => tracks r' s /\ exists g t, r' = advanced changes g t r | None => True end) (fun _ s => P s /\ tracks r s).
Proof.
  intros HP Hr [Hid Hc Hst] Hm. assert (HJ : stable (fun s => P s /\ tracks r s)) by (apply stable_conj; [done|apply stable_tracks]).
  unfold advanceFollowupHandoff. eapply etriple_bind with (Q := fun t s => P s /\ tracks r s); [apply (tame_asks r now P HP)|]. intros t.
  assert (H : forall s, P s /\ tracks r s -> checkpoints s (snd (advance_tx r changes t s)) /\ (fst (advance_tx r changes t s) = true -> tracks (advanced changes (generation r + 1) t r) (snd (advance_tx r changes t s)))).
  { intros s [Hs Ht]. unfold advance_tx, update_row. rewrite (in_attempt_key r Hr). destruct (rows s !! k) as [row|] eqn:Er; [|split; [by apply silent_step, same_change|done]].
    destruct (is_version r row) eqn:Ev; [|split; [by apply silent_step, same_change|done]]. apply is_version_same in Ev as [Ei Eg]. rewrite (in_attempt_incarnation r Hr) in Ei.
    destruct (proj2 Ht row Er Ei) as [?|[_ Hv]]; [lia|]. pose proof (version_content _ _ Hv) as Hcr. cbn [fst snd]. split.
    - apply (write_step s row); [done..|apply Hid|change (generation r + 1 = generation row + 1); lia|by apply Hm|apply Hst].
    - intros _. split; [apply Ht|]. intros x Hx _. cbn in Hx. rewrite lookup_insert_eq in Hx. injection Hx as <-. right. split; [done|]. by apply Hc. }
  eapply etriple_bind with (Q := fun b s => P s /\ (b = true -> tracks (advanced changes (generation r + 1) t r) s)).
  - unfold statement, sends. eapply etriple_bind with (Q := fun o s => (P s /\ match o with Some b => b = true -> tracks (advanced changes (generation r + 1) t r) s | None => tracks r s end)).
    + apply etriple_call; [intros f s Hf Hs; exact (good_stable _ f s HJ Hf Hs)|]. intros s Hs. destruct (H s Hs) as [H1 H2].
      destruct (database (outside s)); cbn; [| split; [by apply silent_step, same_change|done]|].
      * destruct (advance_tx r changes t s) as [b s'] eqn:E. cbn in *. split; [done|]. split; [eapply HP; [apply H1|apply Hs]|done].
      * split; [done|]. eapply HJ; [apply H1|done].
    + intros [b|]; [by apply etriple_ret|by apply etriple_throw].
  - intros [|]; [|by apply etriple_ret; intros s [? _]]. apply etriple_ret. intros s [Hs Ht]. split; [done|]. split; [auto|]. by eexists _, _.
Qed.
Lemma rule_advance P r changes : stable P -> in_attempt r -> regular changes ->
  (forall s row g t, P s -> content row = content r -> moves s row (advanced changes g t row)) ->
  etriple others_do checkpoints (fun s => P s /\ tracks r s) (advanceFollowupHandoff r changes)
    (fun o s => (P s /\ tracks r s) /\ match o with Some r' => tracks r' s /\ exists g t, r' = advanced changes g t r | None => True end) (fun _ s => P s /\ tracks r s).
Proof.
  intros HP Hr Hc Hm. eapply etriple_weaken; [| | |apply (tri_advance (fun s => P s /\ tracks r s)); [|done..|]].
  - by intros s [? ?].
  - intros o s H. exact H.
  - by intros e s [? _].
  - apply stable_conj; [done|apply stable_tracks].
  - intros s row g t [Hs _]. by apply Hm.
Qed.
Lemma content_eq x y : content x = content y <-> identity x = identity y /\ phase x = phase y /\ settlement x = settlement y /\ completion_comment_url x = completion_comment_url y.
Proof. unfold content. rewrite !pair_equal_spec. tauto. Qed.
Ltac regular := split; [done|intros [] [] ? ? [=]; by subst|done].

Hint Resolve tame_ret tame_throw tame_asks tame_external tame_observes tame_withdraw tame_job tame_task tame_lease tame_report : core.
Ltac tame_program :=
  repeat first
    [ solve [auto]
    | match goal with
      | |- tame _ (_ ≫= _) => apply tame_bind; [|intros ?]
      | |- tame _ (catch _ _) => apply tame_catch; [|intros ?]
      | |- tame _ (unless_held _ _ _) => apply tame_bind; [|intros ?]
      | |- tame _ (or_else _ _) => apply tame_bind; [|intros ?]
      | |- tame _ (match ?x with _ => _ end) => destruct x
      end ].
(** A checkpoint that leaves phase, settlement and comment *)
Lemma tame_stays r changes : in_attempt r -> regular changes -> (forall x, content (changes x) = content x) -> tame r (advanceFollowupHandoff r changes).
Proof.
  intros Hr Hg Hc P HP.
  eapply etriple_weaken; [intros s H; exact H| | |apply rule_advance; [exact HP|done..|]]; [intros o s H; exact (proj1 H)|intros e s H; exact H|]. intros s row g t _ _. apply stays, (Hc row).
Qed.
Lemma tame_held r reason : in_attempt r -> tame r (holdForOperator r reason).
Proof.
  intros Hr. unfold holdForOperator. apply tame_bind; [apply tame_stays; [done|regular|done]|]. intros [r'|]; tame_program.
Qed.
Lemma tame_hold_cancelled r : in_attempt r -> tame r (holdCancelled r).
Proof. intros Hr. unfold holdCancelled, withdrawCancelledClaims. pose proof (tame_held r) as H. tame_program. Qed.
Lemma tame_hold r : in_attempt r -> tame r (cancellationHold r).
Proof. intros Hr. unfold cancellationHold. pose proof (tame_hold_cancelled r Hr) as H. tame_program. Qed.
Lemma tame_pending_retry r r' : tame r (pendingRetryHold r').
Proof. unfold pendingRetryHold. tame_program. Qed.
Lemma tame_validate r : in_attempt r -> tame r (validatePublicationBinding r).
Proof.
  intros Hr. pose proof (tame_held r) as H. unfold validatePublicationBinding, validate_remote, getPullRequest, remote_of, ancestor_of. tame_program.
Qed.

(** ** What a request or an answer shows *)

Abbreviation tri P m Q := (etriple others_do checkpoints P m Q (fun _ _ => True)).
Abbreviation J r P := (fun s => P s /\ tracks r s).
Lemma J_stable r P : stable P -> stable (J r P).
Proof. intros HP. apply stable_conj; [done|apply stable_tracks]. Qed.
Lemma tri_seq_ P {A B} (m : M A) (f : A -> M B) R Q : tri P m R -> (forall a, tri (R a) (f a) Q) -> tri P (m ≫= f) Q.
Proof. apply etriple_bind. Qed.
Lemma tri_weak P P' {A} (m : M A) (Q Q' : A -> hub -> Prop) : tri P' m Q' -> (forall s, P s -> P' s) -> (forall a s, Q' a s -> Q a s) -> tri P m Q.
Proof. intros H HP HQ. by eapply etriple_weaken; [| | |exact H]. Qed.
Lemma tri_tame r {A} (m : M A) P : tame r m -> stable P -> tri (J r P) m (fun _ => J r P).
Proof. intros Hm HP. eapply etriple_weaken; [| | |apply (Hm P HP)]; [intros s H; exact H|intros a s H; exact H|done]. Qed.
Lemma J_begun r P s : J r P s -> begun s.
Proof. by intros [_ [? _]]. Qed.
Lemma rule_observes_ r P {A} (f : hub -> result A) e : stable P ->
  etriple others_do checkpoints (J r P) (observes f e) (fun a s => J r P s /\ seen (e a) s) (fun _ => J r P).
Proof. intros HP. apply (own_observes checkpoints silent_step (J r P)); [by apply J_stable|apply J_begun]. Qed.
Lemma rule_observes r P {A} (f : hub -> result A) e : stable P -> tri (J r P) (observes f e) (fun a s => J r P s /\ seen (e a) s).
Proof. intros HP. eapply etriple_weaken; [| | |by apply rule_observes_]; [intros s H; exact H|intros a s H; exact H|done]. Qed.
Lemma rule_requests r P {A} (f : hub -> result A) e : stable P ->
  etriple others_do checkpoints (J r P) (requests f e) (fun a s => J r P s /\ seen (e (Ok a)) s) (fun _ => J r P).
Proof. intros HP. apply (own_requests checkpoints silent_step (J r P)); [by apply J_stable|apply J_begun]. Qed.
Lemma rule_sends r P {A} svc err (f : hub -> A * hub) (Q : A -> hub -> Prop) : stable P -> (forall s, silent_change s (snd (f s))) ->
  (forall s, P s -> begun s -> Q (fst (f s)) (snd (f s))) ->
  etriple others_do checkpoints (J r P) (sends svc err f) (fun a s => J r P s /\ Q a s) (fun _ => J r P).
Proof. intros HP Hf HQ. apply (own_sends checkpoints silent_step (J r P)); [by apply J_stable|done|]. intros s Hs. apply HQ; [apply Hs|by eapply J_begun]. Qed.
Lemma rule_task r P : stable P -> tri (J r P) (getTaskState (task_id r0)) (fun st s => J r P s /\ (ended st -> over s)).
Proof. intros HP. eapply etriple_weaken; [| | |apply (own_task checkpoints silent_step (J r P)), J_stable, HP]; [intros s H; exact H|intros a s H; exact H|done]. Qed.
Lemma rule_update r P st : stable P -> terminalStates st = true -> tri (J r P) (updateTaskState (task_id r0) st) (fun _ s => J r P s /\ over s).
Proof. intros HP Hst. eapply etriple_weaken; [| | |apply (own_update checkpoints silent_step (J r P)); [by apply J_stable|exact Hst]]; [intros s H; exact H|intros a s H; exact H|done]. Qed.

(** *** The owed comment *)

Lemma in_attempt_mine r : in_attempt r -> mine r0 r.
Proof. intros H. split; [by apply in_attempt_key|by apply in_attempt_incarnation]. Qed.
Definition answered (r : FollowupHandoffRecord) (P : hub -> Prop) (x : Published) (s : hub) : Prop :=
  match x with
  | inl (_, d) => J r P s /\ delivered s (completion_comment_url r) /\ (d = normal_failure -> failure_reported s)
  | inr _ => True
  end.
Lemma rule_hold r P {A} (h : ResumeOutcome -> A) (f : M A) Q : in_attempt r -> stable P -> (forall o s, Q (h o) s) -> tri (J r P) f Q -> tri (J r P) (unless_held (cancellationHold r) h f) Q.
Proof.
  intros Hr HP HQ Hf. eapply tri_seq_; [apply (tri_tame r _ P (tame_hold r Hr) HP)|]. intros [o|]; [by apply etriple_ret|done].
Qed.
Lemma rule_post r P body : in_attempt r -> stable P -> marking r0 body -> tri (J r P) (post_owed r body) (answered r P).
Proof.
  intros Hr HP Hb. unfold post_owed. apply rule_hold; [done..|]. unfold postComment. rewrite (in_attempt_key r Hr).
  eapply tri_seq_ with (R := fun _ s => J r P s /\ exists b, marking r0 b /\ seen (sent_post k b) s).
  - eapply etriple_weaken; [| | |apply (rule_sends r P _ _ _ (fun _ s => exists b, marking r0 b /\ seen (sent_post k b) s) HP)]; [done|intros a s H; exact H|done|intros s; by eapply note_change|].
    intros s _ Hs. exists body. split; [done|]. by eapply seen_now.
  - intros url. apply etriple_ret. intros s [Hs Hp]. split; [exact Hs|split; [by right; right; right|done]].
Qed.
Lemma rule_patching r P id body : in_attempt r -> stable P -> marking r0 body ->
  etriple others_do checkpoints (J r P) (patchComment r id body) (fun _ s => J r P s /\ exists id b, marking r0 b /\ seen (sent_patch k id b) s) (fun _ => J r P).
Proof.
  intros Hr HP Hb. unfold patchComment. rewrite (in_attempt_key r Hr).
  eapply etriple_bind with (Q := fun x s => J r P s /\ match x with Ok _ => exists id b, marking r0 b /\ seen (sent_patch k id b) s | Throw _ => True end).
  - apply (rule_sends r P _ _ _ (fun x s => match x with Ok _ => exists id b, marking r0 b /\ seen (sent_patch k id b) s | Throw _ => True end) HP).
    + intros s. destruct id as [|p|p]; [by apply same_change| |by apply same_change]. cbn [patched]. destruct (comments_at k s !! p); [by eapply note_change|by apply same_change].
    + intros s _ Hs. destruct id as [|p|p]; [done| |done]. cbn [patched]. destruct (comments_at k s !! p); [|done]. exists (Zpos p), body. split; [done|]. by eapply seen_now.
  - intros [a|e]; [by apply etriple_ret|apply etriple_throw; by intros s [? _]].
Qed.
Lemma rule_patch r P body target : in_attempt r -> stable P -> marking r0 body -> tri (J r P) (patch_or_post r body target) (answered r P).
Proof.
  intros Hr HP Hb. pose proof (rule_post r P body Hr HP Hb) as Hpost.
  assert (Hpatch : forall id, tri (J r P) (unless_held (cancellationHold r) inr
    (patched ← catch (url ← patchComment r id body; mret (Some url)) (fun e => if bool_decide (e = NOT_FOUND) then mret None else throw e);
     match patched with Some url => mret (inl (url, recovery)) | None => post_owed r body end)) (answered r P)).
  { intros id. apply rule_hold; [done..|].
    eapply tri_seq_ with (R := fun x s => J r P s /\ match x with Some _ => exists id b, marking r0 b /\ seen (sent_patch k id b) s | None => True end).
    - eapply etriple_catch with (E := fun _ => J r P).
      + eapply etriple_bind; [by apply rule_patching|]. intros url. by apply etriple_ret.
      + intros e. destruct (bool_decide _); [by apply etriple_ret|by apply etriple_throw].
    - intros [url|]; [|eapply tri_weak; [exact Hpost|by intros s [? _]|done]]. apply etriple_ret. intros s [Hs Hp]. split; [exact Hs|split; [by right; right; left|done]]. }
  unfold patch_or_post. destruct target as [[|p|p]|]; auto.
Qed.
Lemma rule_publish r P body b : in_attempt r -> stable P -> marking r0 body -> tri (J r P) (publishOwedComment r body b) (answered r P).
Proof.
  intros Hr HP Hb. unfold publishOwedComment. destruct (truthy_string _) as [url|] eqn:Eu; [apply etriple_ret; intros s Hs; split; [exact Hs|split; [left; by rewrite Eu|done]]|].
  eapply tri_seq_; [unfold listComments; rewrite (in_attempt_key r Hr); by apply rule_observes|]. intros l. cbn beta zeta.
  rewrite (mine_marker r0 r (in_attempt_mine r Hr)). destruct (List.find _ l) as [c|] eqn:Ef; [|eapply tri_weak; [by apply rule_patch|by intros s [? _]|done]].
  destruct (negb _); [|eapply tri_weak; [by apply rule_patch|by intros s [? _]|done]]. apply find_some in Ef as [Hin%list_elem_of_In Hm].
  apply etriple_ret. intros s [Hs Hl]. assert (Hc : listed_comment c s) by by exists l. split; [exact Hs|split; [right; left; by exists c|]]. intros Hd. by exists c.
Qed.

(** *** Ending the task, freeing the branch *)

Lemma in_attempt_task r : in_attempt r -> task_id r = task_id r0.
Proof. intros H. exact (f_equal (fun x => x.1.1.1.2) H). Qed.
Lemma in_attempt_place r : in_attempt r -> worktree_path r = worktree_path r0 /\ branch_name r = branch_name r0 /\ target_repository r = target_repository r0 /\ local_repo_path r = local_repo_path r0.
Proof. intros H. pose proof (f_equal (fun x => x.1.2) H) as E. cbn in E. by injection E. Qed.
Lemma in_attempt_claims r : in_attempt r -> claimed_comments r = claimed_comments r0.
Proof. intros H. exact (f_equal (fun x => x.2.1) H). Qed.
Lemma rule_finalize_task r P o : in_attempt r -> stable P ->
  tri (J r P) (finalizeRecoveredTask r o) (fun x s => J r P s /\ (x = finalized -> over s)).
Proof.
  intros Hr HP. unfold finalizeRecoveredTask. rewrite (in_attempt_task r Hr). eapply tri_seq_; [by apply rule_task|]. intros st. cbn beta zeta.
  assert (HP' : stable (fun s => P s /\ (ended st -> over s))) by (apply stable_conj; [done|apply stable_impl, stable_over]).
  eapply tri_weak; [|intros s H; exact (conj (conj (proj1 (proj1 H)) (proj2 H)) (proj2 (proj1 H)))|intros a s H; exact H].
  eapply tri_seq_; [apply (tri_tame r _ _ (tame_lease r) HP')|]. intros lost. cbn beta. destruct lost; [by apply etriple_ret; intros s [[? _] ?]|].
  destruct (_ && _); [by apply etriple_ret; intros s [[? _] ?]|].
  destruct (match st with Some st => terminalStates st | None => false end) eqn:Et.
  - eapply tri_seq_; [apply (tri_tame r _ _ (tame_report r r) HP')|]. intros u. apply etriple_ret. intros s [[Hs Ho] Ht]. split; [by split|]. intros _. apply Ho.
    unfold ended. by destruct st.
  - eapply tri_seq_; [eapply tri_weak; [apply (rule_update r P _ HP)|by intros s [[? _] ?]|intros a s H; exact H]; by destruct (failedOutcomes o)|].
    intros x. apply etriple_ret. intros s [Hs Ho]. by split.
Qed.
Lemma tame_free r a : tame r (if negb (bool_decide (a = attached)) then mret true
                else settled ← release_worktree r; if settled : bool then mret true else detachRetryOwnedWorktree r).
Proof. unfold detachRetryOwnedWorktree, release_worktree, detach_worktree. tame_program. Qed.
Lemma rule_release r P : in_attempt r -> stable P -> tri (J r P) (branch_release r) (fun x s => J r P s /\ (x = Some true -> branch_free s)).
Proof.
  intros Hr HP. destruct (in_attempt_place r Hr) as (_ & Hb & _ & Hl). unfold branch_release. eapply etriple_catch with (E := fun _ => J r P); [|intros e; by apply etriple_ret].
  eapply etriple_bind; [apply (tame_observes r _ _ P HP)|]. intros a. eapply etriple_bind; [apply (tame_lease r P HP)|]. intros [|]; [by apply etriple_ret|].
  eapply etriple_bind; [apply (tame_free r a P HP)|]. intros [|]; [|by apply etriple_ret].
  eapply etriple_bind; [unfold registrations_of; rewrite Hl, Hb; by apply rule_observes_|]. intros holders. apply etriple_ret. intros s [Hs Hh]. split; [exact Hs|].
  intros [= Eh%bool_decide_eq_true]. by rewrite Eh in Hh.
Qed.
Lemma delete_step s row : rows s !! k = Some row -> incarnation row = i -> phase row = cleanup_pending -> branch_free s -> checkpoints s (set_row k None s).
Proof.
  intros Hr Hi Hp Hf. split; [split_and!; [|by exists []; rewrite app_nil_r|done|intros Hk; by apply map_Forall_delete|done]|right; exists row; split_and!; [done..|by right]].
  intros x Hx _. cbn in Hx. by rewrite lookup_delete_eq in Hx.
Qed.
Lemma rule_retire r P : in_attempt r -> phase r = cleanup_pending -> stable P -> (forall s, P s -> branch_free s) -> tri (J r P) (finalizeFollowupHandoff r) (fun _ _ => True).
Proof.
  intros Hr Hp HP Hf. unfold finalizeFollowupHandoff. rewrite (in_attempt_key r Hr). apply tri_seq_ with (R := fun _ _ => True); [|intros [?|]; [by apply etriple_ret|by apply etriple_throw]].
  apply etriple_call; [intros g s Hg Hs; exact (good_stable _ g s (J_stable r P HP) Hg Hs)|]. intros s [Hs [_ Ht]]. split; [|done].
  assert (H : checkpoints s (snd (delete_row k (is_version r) s))).
  { unfold delete_row. destruct (rows s !! k) as [row|] eqn:Er; [|by apply silent_step, same_change]. destruct (is_version r row) eqn:Ev; [|by apply silent_step, same_change].
    apply is_version_same in Ev as [Ei Eg]. rewrite (in_attempt_incarnation r Hr) in Ei. destruct (Ht row eq_refl Ei) as [?|[_ Hc]]; [lia|].
    apply version_content, content_eq in Hc as (_ & Hpr & _). apply (delete_step s row); [done..|congruence|by apply Hf]. }
  destruct (database (outside s)); [by destruct (delete_row k (is_version r) s)|by apply silent_step, same_change|done].
Qed.
Lemma rule_cleanup r P : in_attempt r -> phase r = cleanup_pending -> stable P -> tri (J r P) (attemptHandoffCleanup r) (fun _ _ => True).
Proof.
  intros Hr Hp HP. unfold attemptHandoffCleanup. eapply tri_seq_; [apply (tri_tame r _ P (tame_lease r) HP)|]. intros [|]; [by apply etriple_ret|].
  eapply tri_seq_; [by apply rule_release|]. intros x. cbn beta.
  assert (HP' : stable (fun s => P s /\ (x = Some true -> branch_free s))) by (apply stable_conj; [done|apply stable_impl, stable_seen]).
  eapply tri_weak with (Q' := fun _ _ => True); [|intros s H; exact (conj (conj (proj1 (proj1 H)) (proj2 H)) (proj2 (proj1 H)))|done].
  destruct x as [[|]|]; [|eapply tri_seq_; [apply (tri_tame r _ _ (tame_report r r) HP')|intros u; by apply etriple_ret]|by apply etriple_ret].
  eapply tri_seq_; [apply (tri_tame r _ _ (tame_lease r) HP')|]. intros [|]; [by apply etriple_ret|].
  eapply tri_seq_; [apply rule_retire; [done..|]; intros s [_ H]; by apply H|]. intros u. by apply etriple_ret.
Qed.
Lemma in_attempt_changed r changes g t : in_attempt r -> regular changes -> in_attempt (advanced changes g t r).
Proof. intros Hr Hi. etrans; [exact (regular_identity _ Hi r)|exact Hr]. Qed.
Lemma rule_to_cleanup r P changes : in_attempt r -> stable P -> regular changes -> (forall x, phase (changes x) = cleanup_pending) ->
  (forall s row g t, P s -> content row = content r -> moves s row (advanced changes g t row)) -> tri (J r P) (advance_to_cleanup r changes) (fun _ _ => True).
Proof.
  intros Hr HP Hc Hp Hm. unfold advance_to_cleanup. eapply tri_seq_; [eapply etriple_weaken; [| | |by apply rule_advance]; [intros s H; exact H|intros o s H; exact H|done]|].
  intros [r'|]; [|by apply etriple_ret]. eapply tri_weak with (P' := fun s => J r' P s /\ exists g t, r' = advanced changes g t r); [|intros s [[Hs _] [Ht He]]; by split; [split|]|done].
  apply etriple_pure. intros (g & t & ->). apply rule_cleanup; [by apply in_attempt_changed|exact (Hp r)|done].
Qed.

(** ** The phases *)

Lemma content_phase x y : content x = content y -> phase x = phase y.
Proof. by intros (_ & ? & _)%content_eq. Qed.
(** A fact that lasts joins the assertion. *)
Lemma tri_fact r P F {A} (m : M A) Q : tri (J r (fun s => P s /\ F s)) m Q -> tri (fun s => J r P s /\ F s) m Q.
Proof. intros H. eapply tri_weak; [exact H|intros s [[? ?] ?]; by split|by intros a s ?]. Qed.
Hint Resolve stable_conj stable_impl stable_or stable_ex stable_const stable_seen stable_over : stable.

Lemma stable_listed c : stable (listed_comment c).
Proof. apply stable_ex. intros l. auto with stable. Qed.
Lemma stable_delivered url : stable (fun s => delivered s url).
Proof. unfold delivered. apply stable_or; [auto with stable|]. apply stable_or; [apply stable_ex, stable_listed|]. apply stable_or; repeat (apply stable_ex; intros ?); auto with stable. Qed.
Lemma stable_failure : stable failure_reported.
Proof. apply stable_ex. intros c. apply stable_conj; [apply stable_listed|apply stable_const]. Qed.
Hint Resolve stable_listed stable_delivered stable_failure : stable.

Lemma rule_finish r P o : in_attempt r -> stable P -> phase r ∈ [comment_published; cleanup_pending] -> tri (J r P) (finishPublishedComment r o) (fun _ _ => True).
Proof.
  intros Hr HP Hp. unfold finishPublishedComment. destruct (bool_decide _) eqn:Ec; [apply bool_decide_eq_true in Ec|apply bool_decide_eq_false in Ec].
  - eapply tri_seq_; [by apply rule_finalize_task|]. intros x. apply tri_fact. destruct (bool_decide (x = finalized)) eqn:Ex; cbn [negb]; [|by apply etriple_ret].
    apply bool_decide_eq_true in Ex. apply rule_to_cleanup; [done|auto with stable|regular|done|].
    intros s row g t [_ Ho] Hc%content_phase. apply to_cleanup; [congruence|done|auto].
  - apply rule_cleanup; [done| |done]. apply elem_of_cons in Hp as [?|Hp%list_elem_of_singleton]; [done|exact Hp].
Qed.
Lemma rule_failure r P url : in_attempt r -> stable P -> (forall s, P s -> failure_reported s) -> tri (J r P) (finishDeliveredFailure r url) (fun _ _ => True).
Proof.
  intros Hr HP Hf. unfold finishDeliveredFailure. eapply tri_seq_; [by apply rule_finalize_task|]. intros x. apply tri_fact.
  destruct (bool_decide (x = finalized)) eqn:Ex; cbn [negb]; [apply bool_decide_eq_true in Ex|by apply etriple_ret].
  apply rule_to_cleanup; [done|auto with stable|regular|done|]. intros s row g t [Hs Ho] _. apply to_failure; auto.
Qed.
Lemma rule_restore_claims r P : in_attempt r -> stable P -> tri (J r P) (restoreComments r) (fun _ s => J r P s /\ claims_returned s).
Proof.
  intros Hr HP. unfold restoreComments, restorePendingComments. rewrite (in_attempt_claims r Hr). destruct (splitHandoffRepository _) as [owner repo].
  unfold claims_returned. destruct (claimed_comments r0) as [|c l] eqn:Ec; [apply etriple_ret; intros s Hs; split; [exact Hs|by left]|].
  eapply etriple_weaken; [| | |apply (rule_sends r P _ _ _ (fun _ s => exists key, seen (restored_claims key (c :: l)) s) HP)].
  - intros s Hs. exact Hs.
  - intros u s [Hs Hk]. split; [exact Hs|]. by right.
  - done.
  - intros s. by eapply note_change.
  - intros s _ Hb. eexists. by eapply seen_now.
Qed.
Lemma stable_claims : stable claims_returned.
Proof. apply stable_or; [apply stable_const|]. apply stable_ex. auto with stable. Qed.
Hint Resolve stable_claims : stable.
Variable schedules : bool.
Lemma rule_return r P : in_attempt r -> stable P -> tri (J r P) (return_claims schedules r) (fun _ _ => True).
Proof.
  intros Hr HP. unfold return_claims. apply rule_hold; [done..|]. eapply tri_seq_; [by apply rule_restore_claims|]. intros u. apply tri_fact.
  apply rule_hold; [done|auto with stable|done|].
  eapply tri_seq_; [apply tri_tame; [destruct schedules; [apply tame_job|apply tame_ret]|auto with stable]|]. intros u'.
  eapply tri_seq_; [apply rule_finalize_task; [done|auto with stable]|]. intros x. apply tri_fact. destruct x; [|by apply etriple_ret|].
  - apply rule_to_cleanup; [done|auto with stable|regular|done|]. intros s row g t [[_ Hcl] Ho] _. apply to_returned; auto.
  - eapply tri_weak; [apply tri_tame; [by apply tame_hold_cancelled|]|intros s H; exact H|done]. auto with stable.
Qed.

(** *** Collecting the agent's output *)

Definition onto (r : FollowupHandoffRecord) (P : hub -> Prop) (x : ResumeStep) (s : hub) : Prop :=
  match x with inl r' => J r' P s /\ content r' = content r | inr _ => True end.
Lemma rule_restore_worktree r P : in_attempt r -> stable P -> tri (J r P) (restoreDeletedWorktree r) (onto r P).
Proof.
  intros Hr HP. unfold restoreDeletedWorktree. eapply tri_seq_; [apply (tri_tame r _ P (tame_asks r _) HP)|]. intros [f|].
  2: { eapply tri_seq_; [apply (tri_tame r _ P (tame_held r _ Hr) HP)|]. intros o. by apply etriple_ret. }
  eapply tri_seq_; [apply tri_tame; [|done]; apply tame_bind; [by apply tame_hold|]; intros [o|]; [apply tame_ret|apply tame_pending_retry]|]. intros [o|]; [by apply etriple_ret|].
  eapply tri_seq_; [eapply etriple_weaken; [| | |apply rule_advance; [exact HP|done|regular|]]; [intros s H; exact H|intros o s H; exact H|done|]; intros s row g t _ _; by apply stays|].
  intros [m|]; [|by apply etriple_ret]. eapply tri_weak with (P' := fun s => J m P s /\ exists g t, m = advanced (fun r => _) g t r); [|intros s [[Hs _] [Ht He]]; split; [by split|exact He]|intros x s Hx; exact Hx].
  apply etriple_pure. intros (g & t & Em). assert (Hm : content m = content r) by by rewrite Em. assert (Hma : in_attempt m) by (rewrite Em; exact Hr).
  eapply tri_seq_; [apply tri_tame; [|done]; apply tame_catch; [apply tame_external|intros e; apply tame_ret]|]. intros [|]; cbn [negb].
  - eapply tri_seq_; [apply (tri_tame m _ P (tame_report m m) HP)|]. intros u. apply etriple_ret. intros s Hs. by split.
  - eapply tri_seq_; [apply (tri_tame m _ P (tame_held m _ Hma) HP)|]. intros o. by apply etriple_ret.
Qed.
Lemma rule_checkout r P : in_attempt r -> stable P -> tri (J r P) (checkout r) (fun x s => match x with inr (r', _) => J r' P s /\ content r' = content r | inl _ => True end).
Proof.
  intros Hr HP. unfold checkout. eapply tri_seq_; [apply (tri_tame r _ P (tame_observes r _ _) HP)|]. intros a. destruct (bool_decide _); [|by apply etriple_ret].
  eapply tri_seq_; [by apply rule_restore_worktree|]. intros [r'|o]; [|by apply etriple_ret]. apply etriple_pure. intros Hc.
  eapply tri_seq_; [apply (tri_tame r' _ P (tame_observes r' _ _) HP)|]. intros a'. apply etriple_ret. intros s Hs. by split.
Qed.
Definition at_agent (r : FollowupHandoffRecord) : Prop := phase r ∈ [agent_running; agent_exited].
Lemma at_agent_published r : at_agent r -> phase r ∈ [agent_running; agent_exited; pushed].
Proof. unfold at_agent. rewrite !elem_of_cons. tauto. Qed.
Lemma in_attempt_bodies r : in_attempt r -> marking r0 (recoveredCompletionBody r) /\ marking r0 (recoveredNoChangeCompletionBody r) /\ marking r0 (interruptedWithoutChangesBody r).
Proof. intros Hr. by apply bodies_mark, in_attempt_mine. Qed.
(** The comment's checkpoint, then what is left *)
Lemma rule_with_comment r P url (o : FollowupHandoffRecord -> RecoveredTaskOutcome) : in_attempt r -> stable P -> phase r ∈ [agent_running; agent_exited; pushed] ->
  (forall s, P s -> delivered s (completion_comment_url r)) ->
  tri (J r P) (published ← advanceFollowupHandoff r (with_comment url); match published with Some x => finishPublishedComment x (o x) | None => mret r_superseded end) (fun _ _ => True).
Proof.
  intros Hr HP Hp Hd. eapply tri_seq_; [eapply etriple_weaken; [| | |apply rule_advance; [exact HP|done|regular|]]; [intros s H; exact H|intros x s H; exact H|done|]|].
  - intros s row g t Hs (_ & Ep & _ & Eu)%content_eq. apply to_comment; [congruence|done|]. rewrite Eu. auto.
  - intros [r'|]; [|by apply etriple_ret]. eapply tri_weak with (P' := fun s => J r' P s /\ exists g t, r' = advanced (with_comment url) g t r); [|intros s [[Hs _] [Ht He]]; split; [by split|exact He]|done].
    apply etriple_pure. intros (g & t & ->). apply rule_finish; [exact Hr|done|]. apply elem_of_cons. by left.
Qed.
Lemma rule_without r P : in_attempt r -> stable P -> at_agent r -> tri (J r P) (finishWithoutChanges schedules r) (fun _ _ => True).
Proof.
  intros Hr HP Hp. unfold finishWithoutChanges. eapply tri_seq_; [apply rule_publish; [done..|exact (proj2 (proj2 (in_attempt_bodies r Hr)))]|]. intros [[url d]|o]; [|by apply etriple_ret].
  unfold answered. apply tri_fact. assert (HP' : stable (fun s => P s /\ delivered s (completion_comment_url r) /\ (d = normal_failure -> failure_reported s))) by auto with stable.
  destruct d.
  - apply (rule_with_comment r _ url deliveredOutcome); [done..|by apply at_agent_published|by intros s (_ & ? & _)].
  - apply rule_failure; [done..|]. intros s (_ & _ & H). auto.
  - by apply rule_return.
Qed.
Lemma rule_completed r P : in_attempt r -> stable P -> at_agent r -> tri (J r P) (finishCompletedWithoutChanges r) (fun _ _ => True).
Proof.
  intros Hr HP Hp. unfold finishCompletedWithoutChanges. eapply tri_seq_; [apply rule_publish; [done..|exact (proj1 (proj2 (in_attempt_bodies r Hr)))]|]. intros [[url d]|o]; [|by apply etriple_ret].
  unfold answered. apply tri_fact. assert (HP' : stable (fun s => P s /\ delivered s (completion_comment_url r) /\ (d = normal_failure -> failure_reported s))) by auto with stable.
  assert (Hd : forall s, P s /\ delivered s (completion_comment_url r) /\ (d = normal_failure -> failure_reported s) -> delivered s (completion_comment_url r)) by by intros s (_ & ? & _).
  assert (Hq : phase r ∈ [agent_running; agent_exited; pushed]) by by apply at_agent_published.
  destruct d; [apply (rule_with_comment r _ url deliveredOutcome); done| |apply (rule_with_comment r _ url (fun _ => completed_without_changes)); done].
  apply rule_failure; [done..|]. intros s (_ & _ & H). auto.
Qed.
Definition made (x : option string) (s : hub) : Prop := forall c, x = Some c -> work_made c s.
Lemma stable_made x : stable (made x).
Proof. intros s s' H Hs c Hc. specialize (Hs c Hc). destruct Hs; [left|right]; by eapply stable_seen. Qed.
Hint Resolve stable_made : stable.
Lemma truthy_some o c : truthy_string o = Some c -> o = Some c.
Proof. unfold truthy_string. destruct o as [[|]|]; by intros ?; simplify_eq. Qed.
Lemma rule_commit r P : in_attempt r -> stable P -> tri (J r P) (commit_left r) (fun x s => match x with inr c => J r P s /\ made c s | inl _ => True end).
Proof.
  intros Hr HP. destruct (in_attempt_place r Hr) as (Hw & _). unfold commit_left. eapply tri_seq_; [apply (tri_tame r _ P (tame_observes r _ _) HP)|].
  intros [|]; [|by apply etriple_ret; intros s Hs; split]. apply rule_hold; [done..|]. unfold commit_work. rewrite Hw.
  eapply tri_seq_; [eapply etriple_weaken; [| | |by apply rule_requests]; [intros s Hs; exact Hs|intros a s H; exact H|done]|].
  intros c. apply etriple_ret. intros s [Hs Hc]. split; [exact Hs|]. intros c' ->%truthy_some. by left.
Qed.
Lemma rule_work_left r P c : in_attempt r -> stable P -> tri (J r (fun s => P s /\ made c s)) (work_left r c) (fun x s => J r P s /\ made x s).
Proof.
  intros Hr HP. assert (HP' : stable (fun s => P s /\ made c s)) by auto with stable. destruct (in_attempt_place r Hr) as (Hw & _). unfold work_left.
  destruct c as [c|]; [apply etriple_ret; intros s [[? ?] ?]; by split|]. eapply tri_seq_; [apply (tri_tame r _ _ (tame_observes r _ _) HP')|].
  intros [|]; [|apply etriple_ret; by intros s [[? ?] ?]]. unfold head_of. rewrite Hw. eapply tri_seq_; [by apply rule_observes|]. intros h. apply etriple_ret.
  intros s [[[Hs _] Ht] Hh]. split; [by split|]. intros c' [= ->]%truthy_some. by right.
Qed.
Lemma onto_superseded r P changes : in_attempt r -> stable P -> regular changes ->
  (forall s row g t, P s -> content row = content r -> moves s row (advanced changes g t row)) ->
  tri (J r P) (x ← advanceFollowupHandoff r changes; mret (or_superseded x)) (fun x s => match x with inl r' => J r' P s /\ in_attempt r' | inr _ => True end).
Proof.
  intros Hr HP Hc Hm. eapply tri_seq_; [eapply etriple_weaken; [| | |by apply rule_advance]; [intros s H; exact H|intros o s H; exact H|done]|].
  intros [r'|]; apply etriple_ret; [|done]. intros s [[Hs _] [Ht (g & t & ->)]]. split; [by split|by apply in_attempt_changed].
Qed.
Lemma rule_collect_left r P c : in_attempt r -> stable P -> at_agent r -> tri (J r (fun s => P s /\ made c s)) (collect_left schedules r c) (fun x s => match x with inl r' => J r' P s /\ in_attempt r' | inr _ => True end).
Proof.
  intros Hr HP Hp. unfold collect_left. eapply tri_seq_; [by apply rule_work_left|]. intros [h|]; apply tri_fact; (assert (HP' : forall x, stable (fun s => P s /\ made x s)) by auto with stable).
  - eapply tri_weak; [apply onto_superseded; [done|apply HP'|regular|]|intros s Hs; exact Hs|intros [r'|o] s Hs; [destruct Hs as [[[? _] ?] ?]; by split|done]].
    intros s row g t [_ Hm] Hc%content_phase. unfold at_agent in Hp. eapply to_committed; [by rewrite Hc|done|done|by apply Hm].
  - apply tri_seq_ with (R := fun _ _ => True); [|intros o; by apply etriple_ret]. destruct (_ && _); [by apply rule_completed|by apply rule_without].
Qed.
Lemma rule_collect r P : in_attempt r -> stable P -> at_agent r -> tri (J r P) (collectAgentOutput schedules r) (fun x s => match x with inl r' => J r' P s /\ in_attempt r' | inr _ => True end).
Proof.
  intros Hr HP Hp. unfold collectAgentOutput. eapply tri_seq_; [by apply rule_checkout|]. intros [o|[r' a]]; [by apply etriple_ret|].
  apply etriple_pure. intros Hc. assert (Hr' : in_attempt r') by (etrans; [exact (f_equal (fun c => c.1.1.1) Hc)|exact Hr]).
  destruct a; [eapply tri_seq_; [apply (tri_tame r' _ P (tame_held r' _ Hr') HP)|intros o; by apply etriple_ret]..|].
  eapply tri_seq_; [by apply rule_commit|]. intros [o|c]; [by apply etriple_ret|]. apply tri_fact. apply rule_collect_left; [done..|]. unfold at_agent. by rewrite (content_phase _ _ Hc).
Qed.

(** *** The push and the comment *)

Lemma rule_push_recorded r P : in_attempt r -> stable P -> phase r = committed -> tri (J r P) (push_recorded r) (fun x s => match x with inl r' => J r' P s /\ in_attempt r' | inr _ => True end).
Proof.
  intros Hr HP Hp. destruct (in_attempt_place r Hr) as (Hw & Hb & Ht & _). unfold push_recorded.
  eapply tri_seq_ with (R := fun x s => J r P s /\ (x <> None -> work_pushed s)).
  - eapply etriple_catch with (E := fun _ => J r P).
    + eapply etriple_bind; [unfold push_branch; rewrite Hw, Hb, Ht; by apply rule_requests|]. intros a. apply etriple_ret. intros s [Hs Ha]. split; [exact Hs|]. intros _. by exists a.
    + intros e. destruct (isNonFastForwardPushError e); [by apply etriple_ret|by apply etriple_throw].
  - assert (HP' : stable (fun s => P s /\ work_pushed s)) by (apply stable_conj; [done|apply stable_ex; auto with stable]).
    intros [c|].
    + eapply tri_weak; [apply (onto_superseded r (fun s => P s /\ work_pushed s)); [done..|regular|]|intros s [[? ?] Hx]; split; [split; [done|by apply Hx]|done]|intros [r'|o] s Hs; [destruct Hs as [[[? _] ?] ?]; by split|done]].
      intros s row g t [_ Hs] Hc%content_phase. apply to_pushed; [congruence|done..].
    + eapply tri_weak; [|intros s Hs; exact (proj1 Hs)|intros x s Hs; exact Hs]. eapply tri_seq_; [apply (tri_tame r _ P (tame_held r _ Hr) HP)|]. intros o. by apply etriple_ret.
Qed.
Lemma content_attempt r r' : in_attempt r -> content r' = content r -> in_attempt r'.
Proof. intros Hr Hc. etrans; [exact (f_equal (fun c => c.1.1.1) Hc)|exact Hr]. Qed.
Abbreviation goes m r P := (tri (J r P) m (fun x s => match x with inl r' => J r' P s /\ in_attempt r' | inr _ => True end)).
Lemma rule_stop r P (m : M ResumeOutcome) : tame r m -> stable P -> goes (o ← m; mret (inr o)) r P.
Proof. intros Hm HP. eapply tri_seq_; [by apply (tri_tame r m P)|]. intros o. by apply etriple_ret. Qed.
Lemma rule_push r P : in_attempt r -> stable P -> phase r = committed -> goes (pushCommittedWork r) r P.
Proof.
  intros Hr HP Hp. unfold pushCommittedWork.
  eapply tri_seq_; [apply tri_tame; [|done]; apply tame_bind; [by apply tame_hold|]; intros [o|]; [apply tame_ret|by apply tame_validate]|]. intros [o|]; [by apply etriple_ret|].
  eapply tri_seq_; [by apply rule_checkout|]. intros [o|[r' a]]; [by apply etriple_ret|]. apply etriple_pure. intros Hc. assert (Hr' := content_attempt r r' Hr Hc).
  destruct a; [apply rule_stop; [by apply tame_held|done]..|]. unfold push_checked. destruct (truthy_string _) as [c|]; [|apply rule_stop; [by apply tame_held|done]].
  eapply tri_seq_; [apply (tri_tame r' _ P (tame_observes r' _ _) HP)|]. intros h. destruct (negb _); [apply rule_stop; [by apply tame_held|done]|].
  apply rule_hold; [done..|]. apply rule_push_recorded; [done..|]. by rewrite (content_phase _ _ Hc).
Qed.
Lemma rule_pushed r P : in_attempt r -> stable P -> phase r = pushed -> goes (publishPushedCompletion r) r P.
Proof.
  intros Hr HP Hp. unfold publishPushedCompletion. eapply tri_seq_; [apply rule_publish; [done..|exact (proj1 (in_attempt_bodies r Hr))]|]. intros [[url d]|o]; [|by apply etriple_ret].
  unfold answered. apply tri_fact. eapply tri_weak; [apply (onto_superseded r (fun s => P s /\ delivered s (completion_comment_url r) /\ (d = normal_failure -> failure_reported s)) (with_comment url)); [done|auto with stable|regular|]|intros s Hs; exact Hs|intros [r'|o] s Hs; [destruct Hs as [[[? _] ?] ?]; by split|done]].
  intros s row g t (_ & Hd & _) (_ & Ep & _ & Eu)%content_eq. apply to_comment; [rewrite Ep, Hp; set_solver|done|by rewrite Eu].
Qed.
Lemma rule_step r P (m : M ResumeStep) f : goes m r P -> (forall r', in_attempt r' -> tri (J r' P) (f r') (fun _ _ => True)) -> tri (J r P) (continue_with m f) (fun _ _ => True).
Proof.
  intros Hm Hf. unfold continue_with. eapply tri_seq_; [exact Hm|]. intros [r'|o]; [|by apply etriple_ret]. apply etriple_pure. apply Hf.
Qed.
Lemma rule_from_comment r P : in_attempt r -> stable P -> tri (J r P) (from_comment r) (fun _ _ => True).
Proof.
  intros Hr HP. unfold from_comment. destruct (bool_decide _) eqn:E; [apply bool_decide_eq_true in E|by apply etriple_ret]. by apply rule_finish.
Qed.
Lemma rule_from_pushed r P : in_attempt r -> stable P -> tri (J r P) (from_pushed r) (fun _ _ => True).
Proof.
  intros Hr HP. unfold from_pushed. destruct (bool_decide _) eqn:E; [apply bool_decide_eq_true in E|by apply rule_from_comment].
  apply rule_step; [by apply rule_pushed|]. intros r' Hr'. by apply rule_from_comment.
Qed.
Lemma rule_from_committed r P : in_attempt r -> stable P -> tri (J r P) (from_committed r) (fun _ _ => True).
Proof.
  intros Hr HP. unfold from_committed. destruct (bool_decide _) eqn:E; [apply bool_decide_eq_true in E|by apply rule_from_pushed].
  apply rule_step; [by apply rule_push|]. intros r' Hr'. by apply rule_from_pushed.
Qed.
Lemma rule_from_agent r P : in_attempt r -> stable P -> tri (J r P) (from_agent schedules r) (fun _ _ => True).
Proof.
  intros Hr HP. unfold from_agent. destruct (bool_decide _) eqn:E; [apply bool_decide_eq_true in E|by apply rule_from_committed].
  apply rule_step; [by apply rule_collect|]. intros r' Hr'. by apply rule_from_committed.
Qed.
Lemma rule_retry_owned r P : in_attempt r -> stable P -> retryOwnsClaims r = true -> tri (J r P) (finishRetryOwnedClaims r) (fun _ _ => True).
Proof.
  intros Hr HP Ho. unfold finishRetryOwnedClaims. eapply tri_seq_; [apply (tri_tame r _ P (tame_lease r) HP)|]. intros [|]; [by apply etriple_ret|].
  eapply tri_seq_; [eapply etriple_weaken; [| | |apply rule_advance; [exact HP|done|regular|]]; [intros s H; exact H|intros o s H; exact H|done|]|].
  - intros s row g t _ (_ & _ & Es & _)%content_eq. apply to_retry; [by unfold retryOwnsClaims in *; rewrite Es|done..].
  - intros [r'|]; [|by apply etriple_ret]. eapply tri_weak with (P' := fun s => J r' P s /\ exists g t, r' = advanced _ g t r) (Q' := fun _ _ => True); [|intros s [[Hs _] [Ht He]]; split; [by split|exact He]|done].
    apply etriple_pure. intros (g & t & E). assert (Hr' : in_attempt r') by (rewrite E; exact Hr).
    eapply tri_seq_; [apply (tri_tame r'); [|done]|intros u; apply rule_cleanup; [done|by rewrite E|done]].
    pose proof (fun id => tame_update r' id CANCELLED eq_refl) as Hu. tame_program.
Qed.

Lemma rule_resume r P : in_attempt r -> stable P -> tri (J r P) (resumeFollowupHandoff schedules r) (fun _ _ => True).
Proof.
  intros Hr HP. unfold resumeFollowupHandoff. destruct (bool_decide _); [by apply rule_from_agent|]. destruct (retryOwnsClaims r) eqn:Eo; [by apply rule_retry_owned|].
  assert (Hheld : forall reason, tri (J r P) (holdForOperator r reason) (fun _ _ => True)).
  { intros reason. eapply tri_weak; [apply (tri_tame r _ P (tame_held r reason Hr) HP)|intros s Hs; exact Hs|done]. }
  destruct (bool_decide _); [apply Hheld|]. apply rule_hold; [done..|]. destruct (is_fork r); [apply Hheld|by apply rule_from_agent].
Qed.

(** C11. Checkpoints follow the work. In a pass of recovery, while other processes write the
    row of this attempt only with later versions: every write of the pass advances the row by
    one generation, keeps the attempt, does not release it, and moves its phase in order and
    on evidence of this pass: committed with a commit made or found in the checkout, pushed
    after the push of the checkout was accepted, comment_published with a marked comment found
    or sent, and cleanup_pending once the task ended (with the failure notice found, or the
    claims returned), or for a retry that owns the claims. The row is deleted only from
    cleanup_pending, after this pass saw no worktree hold the branch. *)
Theorem checkpoints_follow_the_work :
  triple others_do checkpoints (fun s => log s = l0 /\ tracks r0 s) (resumeFollowupHandoff schedules r0) (fun _ _ => True).
Proof.
  eapply tri_weak; [apply (rule_resume r0 (fun _ => True)); [done|apply stable_const]|by intros s [_ ?]|done].
Qed.
End Attempt.
