(* ===== verification/HandoffOwed.v ===== *)
(** * Follow-up handoffs: an owed publication is not erased

    Every program that writes the table of handoffs treats the row of an attempt in one of a
    few ways: it advances it, replaces it by a new attempt only where that is allowed,
    releases it only with the branch seen free, and deletes it only when nothing is owed.
    Each program respects what the others rely on. *)

From S2P Require Import Prelude JsString Interleave PrLock Handoff HandoffResume HandoffRecovery HandoffWriter HandoffGuards HandoffRows.

Open Scope string_scope.
Open Scope Z_scope.
Open Scope list_scope.

(** What is written leaves the attempt, and releases nothing. *)
Record ordinary (changes : FollowupHandoffRecord -> FollowupHandoffRecord) : Prop := Ordinary {
  ordinary_identity : forall x, identity (changes x) = identity x;
  ordinary_status : forall x, status (changes x) = HANDOFF_RELEASED -> status x = HANDOFF_RELEASED;
}.
Ltac ordinary := split; [done|intros x; cbn; try done; congruence].

Ltac regular := split; [done|intros [] [] ? ? [=]; by subst|done].

Create HintDb abides.
Create HintDb kept.

(** ** A pass on a handoff, whatever its own steps guarantee *)

Section Pass.
Variable r0 : FollowupHandoffRecord.
(** What the own steps do, and the handoffs it is written of *)
Variable own : hub -> hub -> Prop.
Variable Fam : FollowupHandoffRecord -> Prop.
Hypothesis own_silent : forall s s', silent_change r0 s s' -> own s s'.
Hypothesis own_moves : forall s s', own s s' -> moves_on r0 s s'.
Hypothesis Fam_identity : forall r r', identity r' = identity r -> Fam r -> Fam r'.
Hypothesis own_advance : forall r changes t s, Fam r -> ordinary changes -> own s (snd (advance_tx r changes t s)).
Hypothesis own_delete : forall r s, Fam r -> own s (snd (delete_row (key_of r) (is_version r) s)).

(** A program that keeps every assertion which holds on, and whose answers are [ok] *)
Definition abides {A} (m : M A) (ok : A -> Prop) : Prop := forall P, stable r0 P ->
  etriple (others_do r0) own P m (fun a s => P s /\ ok a) (fun _ => P).
Abbreviation keeping m := (abides m (fun _ => True)).
Lemma abides_ret {A} (a : A) ok : ok a -> abides (mret a) ok.
Proof. intros H P _. by apply etriple_ret. Qed.
Lemma abides_throw {A} e ok : abides (throw e : M A) ok.
Proof. intros P _. by apply etriple_throw. Qed.
Lemma abides_bind {A B} (m : M A) (f : A -> M B) R ok : abides m R -> (forall a, R a -> abides (f a) ok) -> abides (m ≫= f) ok.
Proof. intros Hm Hf P HP. eapply etriple_bind; [by apply Hm|]. intros a. apply etriple_pure. intros Ha. by apply Hf. Qed.
Lemma abides_catch {A} (m : M A) h ok : abides m ok -> (forall e, abides (h e) ok) -> abides (catch m h) ok.
Proof. intros Hm Hh P HP. eapply etriple_catch; [by apply Hm|]. intros e. by apply Hh. Qed.
Lemma abides_quiet {A} (m : M A) : quiet r0 own m -> keeping m.
Proof. intros H P HP. eapply etriple_weaken; [| | |by apply H]; [done|by intros a s ?|done]. Qed.
Lemma abides_statement {A} (f : hub -> A * hub) : (forall s, own s (snd (f s))) -> keeping (statement f).
Proof.
  intros Hf. apply abides_bind with (R := fun _ => True); [|intros [a|] _; [by apply abides_ret|apply abides_throw]]. intros P HP.
  assert (H : forall s s', P s -> own s s' -> own s s' /\ P s' /\ True) by (intros s s' Hs Ho; split; [done|split; [by eapply HP; [apply own_moves|]|done]]).
  apply etriple_call; [intros g s Hg Hs; exact (good_stable _ _ g s HP Hg Hs)|]. intros s Hs. specialize (Hf s).
  destruct (database (outside s)); [destruct (f s)|..]; cbn [fst snd] in *; apply (H s); auto. by apply own_silent, same_change.
Qed.
Lemma abides_asks {A} (f : hub -> A) : keeping (asks f).
Proof. by apply abides_quiet, quiet_asks. Qed.
Definition fam_option (o : option FollowupHandoffRecord) : Prop := match o with Some r => Fam r | None => True end.
Definition fam_step (x : ResumeStep) : Prop := match x with inl r => Fam r | inr _ => True end.
Lemma abides_advance r changes : Fam r -> ordinary changes -> abides (advanceFollowupHandoff r changes) fam_option.
Proof.
  intros Hr Hc. eapply abides_bind; [apply abides_asks|]. intros t _. eapply abides_bind; [apply abides_statement; intros s; by apply own_advance|].
  intros [|] _; apply abides_ret; [|done]. eapply Fam_identity; [|exact Hr]. exact (ordinary_identity _ Hc r).
Qed.
Lemma abides_finalize r : Fam r -> keeping (finalizeFollowupHandoff r).
Proof. intros Hr. apply abides_statement. intros s. by apply own_delete. Qed.

Ltac quietly := apply abides_quiet; first
  [ by apply quiet_observes | by apply quiet_requests | by apply quiet_external | by apply quiet_report | by apply quiet_withdraw | by apply quiet_claims
  | by apply quiet_job | by apply quiet_lease | by apply quiet_task | by apply quiet_or_throw | by apply quiet_update ].
Lemma abides_task id : keeping (getTaskState id). Proof. quietly. Qed.
Lemma abides_lease : keeping isOwnershipLost. Proof. quietly. Qed.
Lemma abides_report r : keeping (reportHandoffOnTaskTimeline r). Proof. quietly. Qed.
Lemma abides_withdraw r : keeping (withdrawRestoredComments r). Proof. quietly. Qed.
Lemma abides_claims r : keeping (restoreComments r). Proof. quietly. Qed.
Lemma abides_job r : keeping (queueRestoredCommentFollowup r). Proof. quietly. Qed.
Lemma abides_observes {A} (f : hub -> result A) e : keeping (observes f e). Proof. quietly. Qed.
Lemma abides_requests {A} (f : hub -> result A) e : keeping (requests f e). Proof. quietly. Qed.
Lemma abides_external {A} (f : Outside -> result A) : keeping (external f). Proof. quietly. Qed.
Lemma abides_failed id (b : bool) : keeping (updateTaskState id (if b then FAILED else COMPLETED)).
Proof. apply abides_quiet, quiet_update; [done|by destruct b]. Qed.
Lemma abides_cancels id : keeping (updateTaskState id CANCELLED). Proof. quietly. Qed.
Lemma abides_post r body : keeping (postComment r body).
Proof. apply abides_quiet, quiet_sends; [done|]. intros s. by eapply note_change. Qed.
Lemma abides_patch r id body : keeping (patchComment r id body).
Proof.
  eapply abides_bind; [|intros x _; apply abides_quiet, quiet_or_throw]. apply abides_quiet, quiet_sends; [done|]. intros s. unfold patched. destruct id; [by apply same_change| |by apply same_change].
  destruct (comments_at _ s !! p); [by eapply note_change|by apply same_change].
Qed.
Hint Resolve abides_task abides_lease abides_report abides_withdraw abides_claims abides_job abides_observes abides_requests abides_external abides_failed abides_cancels abides_post
  abides_patch abides_asks abides_advance abides_finalize abides_throw : abides.
Hint Extern 1 (ordinary _) => ordinary : abides.
Ltac abides_program :=
  repeat first
    [ assumption | solve [auto with abides]
    | match goal with
      | |- abides (mret _) _ => apply abides_ret; solve [done | cbn in *; auto]
      | |- abides (unless_held _ _ _) _ => unfold unless_held
      | |- abides (or_else _ _) _ => unfold or_else
      | |- abides (catch _ _) _ => apply abides_catch; [|intros ?]
      | |- abides (_ ≫= _) _ => eapply abides_bind; [solve [eauto with abides]|cbn beta; intros ? ?]
      | |- abides (_ ≫= _) _ => apply abides_bind with (R := fun _ => True); [|intros ? _]
      | |- abides (match ?x with _ => _ end) _ => destruct x
      end ].

Lemma abides_held r reason : Fam r -> keeping (holdForOperator r reason).
Proof. intros Hr. unfold holdForOperator. abides_program. Qed.
Hint Resolve abides_held : abides.
Lemma abides_hold_cancelled r : Fam r -> keeping (holdCancelled r).
Proof. intros Hr. unfold holdCancelled, withdrawCancelledClaims. abides_program. Qed.
Hint Resolve abides_hold_cancelled : abides.
Lemma abides_hold r : Fam r -> keeping (cancellationHold r).
Proof. intros Hr. unfold cancellationHold. abides_program. Qed.
Hint Resolve abides_hold : abides.
Lemma abides_validate r : Fam r -> keeping (validatePublicationBinding r).
Proof. intros Hr. unfold validatePublicationBinding, validate_remote, getPullRequest, remote_of, ancestor_of. abides_program. Qed.
Lemma abides_publish r body b : Fam r -> keeping (publishOwedComment r body b).
Proof.
  intros Hr. assert (Hp : keeping (post_owed r body)) by (unfold post_owed; abides_program).
  assert (Hq : forall t, keeping (patch_or_post r body t)) by (intros [[]|]; unfold patch_or_post; abides_program).
  unfold publishOwedComment, listComments. abides_program.
Qed.
Hint Resolve abides_validate abides_publish : abides.
Lemma abides_finalize_task r o : keeping (finalizeRecoveredTask r o).
Proof. unfold finalizeRecoveredTask. abides_program. Qed.
Lemma abides_release r : keeping (branch_release r).
Proof. unfold branch_release, attachment_of, release_worktree, detachRetryOwnedWorktree, detach_worktree, registrations_of. abides_program. Qed.
Hint Resolve abides_finalize_task abides_release : abides.
Lemma abides_cleanup r : Fam r -> keeping (attemptHandoffCleanup r).
Proof. intros Hr. unfold attemptHandoffCleanup. abides_program. Qed.
Hint Resolve abides_cleanup : abides.
Lemma abides_to_cleanup r changes : Fam r -> ordinary changes -> keeping (advance_to_cleanup r changes).
Proof. intros Hr Hc. unfold advance_to_cleanup. abides_program. Qed.
Hint Resolve abides_to_cleanup : abides.

Lemma abides_failure r url : Fam r -> keeping (finishDeliveredFailure r url).
Proof. intros Hr. unfold finishDeliveredFailure. abides_program. Qed.
Lemma abides_retry_owned r : Fam r -> keeping (finishRetryOwnedClaims r).
Proof. intros Hr. unfold finishRetryOwnedClaims. abides_program. Qed.
Lemma abides_pending_retry r : keeping (pendingRetryHold r).
Proof. unfold pendingRetryHold. abides_program. Qed.
Lemma abides_published r o : Fam r -> keeping (finishPublishedComment r o).
Proof. intros Hr. unfold finishPublishedComment. abides_program. Qed.
Hint Resolve abides_failure abides_retry_owned abides_pending_retry abides_published : abides.
Lemma abides_restore r : Fam r -> abides (restoreDeletedWorktree r) fam_step.
Proof. intros Hr. unfold restoreDeletedWorktree. abides_program. Qed.
Hint Resolve abides_restore : abides.
Lemma abides_checkout r : Fam r -> abides (checkout r) (fun x => match x with inr (r', _) => Fam r' | inl _ => True end).
Proof. intros Hr. unfold checkout, attachment_of. abides_program. Qed.
Hint Resolve abides_checkout : abides.
Lemma abides_without b r : Fam r -> keeping (finishWithoutChanges b r).
Proof. intros Hr. assert (Hc : keeping (return_claims b r)) by (unfold return_claims; abides_program). unfold finishWithoutChanges. abides_program. Qed.
Lemma abides_completed r : Fam r -> keeping (finishCompletedWithoutChanges r).
Proof. intros Hr. unfold finishCompletedWithoutChanges. abides_program. Qed.
Hint Resolve abides_without abides_completed : abides.
Lemma abides_or_superseded r changes : Fam r -> ordinary changes -> abides (x ← advanceFollowupHandoff r changes; mret (or_superseded x)) fam_step.
Proof. intros Hr Hc. eapply abides_bind; [by apply abides_advance|]. intros [r'|] Hx; by apply abides_ret. Qed.
Hint Resolve abides_or_superseded : abides.
Lemma abides_collect b r : Fam r -> abides (collectAgentOutput b r) fam_step.
Proof.
  intros Hr. unfold collectAgentOutput. eapply abides_bind; [by apply abides_checkout|]. intros [o|[r' []]] Hx; [by apply abides_ret|abides_program..|].
  assert (Hw : forall c, keeping (work_left r' c)) by (intros [c|]; unfold work_left, unpushed_of, head_of; abides_program).
  assert (Hl : keeping (commit_left r')) by (unfold commit_left, dirty_of, commit_work; abides_program).
  assert (Hc : forall c, abides (collect_left b r' c) fam_step) by (intros c; unfold collect_left; abides_program). abides_program.
Qed.
Lemma abides_push r : Fam r -> abides (pushCommittedWork r) fam_step.
Proof.
  intros Hr. assert (Hp : forall r', Fam r' -> abides (push_recorded r') fam_step) by (intros r' Hr'; unfold push_recorded, push_branch; abides_program).
  assert (Hq : forall r', Fam r' -> abides (push_checked r') fam_step) by (intros r' Hr'; unfold push_checked, head_of; abides_program).
  unfold pushCommittedWork. abides_program.
Qed.
Lemma abides_pushed r : Fam r -> abides (publishPushedCompletion r) fam_step.
Proof. intros Hr. unfold publishPushedCompletion. abides_program. Qed.
Hint Resolve abides_collect abides_push abides_pushed : abides.
Lemma abides_continue m f : abides m fam_step -> (forall r, Fam r -> keeping (f r)) -> keeping (continue_with m f).
Proof. intros Hm Hf. eapply abides_bind; [exact Hm|]. intros [r|o] Hx; [by apply Hf|by apply abides_ret]. Qed.
Hint Resolve abides_continue : abides.
Lemma abides_resume b r : Fam r -> keeping (resumeFollowupHandoff b r).
Proof.
  intros Hr. assert (H1 : forall r, Fam r -> keeping (from_comment r)) by (intros x Hx; unfold from_comment; abides_program).
  assert (H2 : forall r, Fam r -> keeping (from_pushed r)) by (intros x Hx; unfold from_pushed; abides_program).
  assert (H3 : forall r, Fam r -> keeping (from_committed r)) by (intros x Hx; unfold from_committed; abides_program).
  assert (H4 : forall r, Fam r -> keeping (from_agent b r)) by (intros x Hx; unfold from_agent; abides_program).
  unfold resumeFollowupHandoff. abides_program.
Qed.
End Pass.

(** One run has both triples. *)
Lemma etriple_both {S_ A} (good : (S_ -> S_) -> Prop) I1 I2 P (m : Interleave.M S_ A) Q Q' E E' :
  etriple good I1 P m Q' E' -> etriple good I2 P m Q E -> etriple good I1 P m Q E.
Proof.
  intros H1 H2 w Hg HP. destruct (H1 w Hg HP) as (l & Hl & HI & _). destruct (H2 w Hg HP) as (l' & Hl' & _ & Hg' & Ha).
  exists l. split_and!; [exact Hl|exact HI|exact Hg'|exact Ha].
Qed.
Section Owed.
(** The attempt, and what was noted before the program began *)
Variable r0 : FollowupHandoffRecord.
Variable l0 : list Event.
Abbreviation k := (key_of r0).
Abbreviation i := (incarnation r0).

(** What may become of the row of the attempt *)
Inductive treats (s : hub) (row : FollowupHandoffRecord) : option FollowupHandoffRecord -> Prop :=
  | t_kept : treats s row (Some row)
  | t_diagnosed row' : version row' = version row -> treats s row (Some row')
  | t_advanced row' : identity row' = identity row -> generation row' = generation row + 1 ->
      (status row' = HANDOFF_RELEASED -> status row = HANDOFF_RELEASED \/ branch_free r0 l0 s) -> treats s row (Some row')
  | t_replaced row' : handoffReplaceable row (task_id row') = true -> generation row' = generation row + 1 -> treats s row (Some row')
  | t_retired : phase row = cleanup_pending -> branch_free r0 l0 s -> treats s row None
  | t_continued : seen l0 (saw_continuation k) s -> treats s row None
  | t_nothing_owed : phase row ∉ [committed; pushed] -> seen l0 (saw_attachment (worktree_path r0) (branch_name r0) missing) s -> branch_free r0 l0 s -> treats s row None.
Definition owed_step (s s' : hub) : Prop := moves_on r0 s s' /\ forall row, rows s !! k = Some row -> incarnation row = i -> treats s row (rows s' !! k).
Lemma owed_moves s s' : owed_step s s' -> moves_on r0 s s'.
Proof. by intros [? _]. Qed.
Lemma owed_silent s s' : silent_change r0 s s' -> owed_step s s'.
Proof. intros H. split; [by apply silent_moves|]. destruct H as (Hr & _). intros row Hrow _. rewrite Hr, Hrow. apply t_kept. Qed.
Lemma owed_checkpoint s s' : checkpoints r0 l0 s s' -> owed_step s s'.
Proof.
  intros [Hm [Hr|(row & Hrow & Hi & [(row' & E & Hid & Hg & _ & Hst)|(E & Hp & Hf)])]]; (split; [done|]); intros x Hx _.
  - rewrite Hr, Hx. apply t_kept.
  - rewrite E, lookup_insert_eq. assert (x = row) as -> by congruence. apply t_advanced; [done..|]. intros Hs. left. auto.
  - rewrite E, lookup_delete_eq. assert (x = row) as -> by congruence. by apply t_retired.
Qed.

(** ** The statements *)

(** [row'] may stand where [row] stood, for the rows of the attempt. *)
Definition older (row row' : FollowupHandoffRecord) : Prop := incarnation row' = i ->
  incarnation row = i /\ identity row' = identity row /\ (generation row < generation row' \/ generation row' = generation row /\ version row' = version row).
Lemma moves_set k' o s : (forall row', o = Some row' -> (keyed s -> key_of row' = k') /\ (k' = k -> exists row, rows s !! k = Some row /\ older row row' \/ incarnation row' <> i)) ->
  moves_on r0 s (set_row k' o s).
Proof.
  intros H. split_and!; [|by exists []; rewrite app_nil_r|done| |done].
  - intros row' Hr Hi. destruct (decide (k' = k)) as [->|Hne].
    + destruct o as [x|]; cbn in Hr; [|by rewrite lookup_delete_eq in Hr]. rewrite lookup_insert_eq in Hr. injection Hr as ->.
      destruct (H row' eq_refl) as [_ H']. destruct (H' eq_refl) as [row [[Hrow Ho]|?]]; [|done]. exists row. destruct (Ho Hi) as (? & ? & ?). by split_and!.
    + exists row'. split_and!; [|done..|by right]. destruct o; cbn in Hr; [by rewrite lookup_insert_ne in Hr|by rewrite lookup_delete_ne in Hr].
  - intros Hk. unfold keyed. destruct o as [x|]; cbn; [|by apply map_Forall_delete]. apply map_Forall_insert_2; [|done]. by apply (H x eq_refl).
Qed.
Lemma owed_set k' o s : (forall row', o = Some row' -> (keyed s -> key_of row' = k') /\ (k' = k -> exists row, rows s !! k = Some row /\ older row row' \/ incarnation row' <> i)) ->
  (k' = k -> forall row, rows s !! k = Some row -> incarnation row = i -> treats s row o) -> owed_step s (set_row k' o s).
Proof.
  intros Hm Ht. split; [by apply moves_set|]. intros row Hr Hi. destruct (decide (k' = k)) as [->|Hne].
  - destruct o as [x|]; cbn; [rewrite lookup_insert_eq|rewrite lookup_delete_eq]; by apply Ht.
  - replace (rows (set_row k' o s) !! k) with (Some row); [apply t_kept|]. destruct o; cbn; [by rewrite lookup_insert_ne|by rewrite lookup_delete_ne].
Qed.
Lemma owed_update k' where_ set s :
  (forall row, rows s !! k' = Some row -> where_ row = true -> (keyed s -> key_of (set row) = k') /\ older row (set row) /\ (k' = k -> incarnation row = i -> treats s row (Some (set row)))) ->
  owed_step s (snd (update_row k' where_ set s)).
Proof.
  intros H. unfold update_row. destruct (rows s !! k') as [row|] eqn:Er; [|by apply owed_silent, same_change]. destruct (where_ row) eqn:Ew; [|by apply owed_silent, same_change].
  destruct (H row eq_refl Ew) as (Hk & Ho & Ht). cbn [snd]. apply owed_set.
  - intros row' [= <-]. split; [done|]. intros ->. exists row. by left.
  - intros -> x Hx. assert (x = row) as -> by congruence. auto.
Qed.
Lemma owed_delete k' where_ s : (forall row, rows s !! k' = Some row -> where_ row = true -> k' = k -> incarnation row = i -> treats s row None) ->
  owed_step s (snd (delete_row k' where_ s)).
Proof.
  intros H. unfold delete_row. destruct (rows s !! k') as [row|] eqn:Er; [|by apply owed_silent, same_change]. destruct (where_ row) eqn:Ew; [|by apply owed_silent, same_change].
  cbn [snd]. apply owed_set; [done|]. intros -> x Hx. assert (x = row) as -> by congruence. auto.
Qed.
Lemma moves_delete k' where_ s : moves_on r0 s (snd (delete_row k' where_ s)).
Proof.
  unfold delete_row. destruct (rows s !! k'); [|by apply silent_moves, same_change]. destruct (where_ f); [|by apply silent_moves, same_change]. by apply moves_set.
Qed.
(** A write by [advanced], where what it releases is seen free *)
Lemma owed_write r changes t s : (forall x, identity (changes x) = identity x) ->
  (forall row, is_version r row = true -> key_of r = k -> incarnation row = i -> status (changes row) = HANDOFF_RELEASED -> status row = HANDOFF_RELEASED \/ branch_free r0 l0 s) ->
  owed_step s (snd (advance_tx r changes t s)).
Proof.
  intros Hid Hst. apply owed_update. intros row Hr Hv. destruct (is_version_same r row Hv) as [Hi Hg]. split_and!.
  - intros Hk. rewrite <- (Hk _ _ Hr). exact (f_equal (fun x => x.1.1.1.1) (Hid row)).
  - intros Hx. split_and!; [|exact (Hid row)|left; change (generation row < generation r + 1); lia]. rewrite <- Hx. symmetry. exact (f_equal (fun x => x.1.1.2) (Hid row)).
  - intros Hk Hi'. apply t_advanced; [exact (Hid row)|change (generation r + 1 = generation row + 1); lia|]. by apply Hst.
Qed.
Lemma owed_advance r changes t s : ordinary changes -> owed_step s (snd (advance_tx r changes t s)).
Proof. intros [Hid Hst]. apply owed_write; [done|]. intros row _ _ _ H. left. auto. Qed.

(** ** What programs rely on *)

(** The rows of the attempt are its own, and its identifier will not be drawn again. *)
Definition sound (s : hub) : Prop := begun l0 s /\ keyed s /\ (forall row, rows s !! k = Some row -> incarnation row = i -> identity row = identity r0)
  /\ (forall n, (drawn s <= n)%nat -> uuid n <> i).
Lemma stable_sound : stable r0 sound.
Proof.
  intros s s' H (Hb & Hk & Hm & Hu). split_and!; [by eapply stable_begun|by apply H| |].
  - intros row' Hr' Hi. destruct (proj1 H row' Hr' Hi) as (row & Hr & Hir & -> & _). by apply Hm.
  - intros n Hn. apply Hu. destruct H as (_ & _ & _ & _ & Hd). lia.
Qed.
(** A version that was read: the row of the attempt is it, or a later one. *)
Definition of_attempt (r : FollowupHandoffRecord) : Prop := key_of r = k /\ incarnation r = i.
Definition held (r : FollowupHandoffRecord) (s : hub) : Prop := of_attempt r -> identity r = identity r0 /\ tracks r0 l0 r s.
Lemma stable_in_hand r : stable r0 (held r).
Proof. intros s s' H Hh Hk. destruct (Hh Hk) as [? Ht]. split; [done|]. by eapply stable_tracks. Qed.
Lemma identity_attempt r r' : identity r = identity r' -> of_attempt r -> of_attempt r'.
Proof. intros H [Hk Hi]. split; [etrans; [exact (eq_sym (f_equal (fun x => x.1.1.1.1) H))|exact Hk]|etrans; [exact (eq_sym (f_equal (fun x => x.1.1.2) H))|exact Hi]]. Qed.
(** No worktree holds the branch of the attempt; its checkout is gone. *)
Definition freed (r : FollowupHandoffRecord) (s : hub) : Prop := of_attempt r -> branch_free r0 l0 s.
Definition gone (r : FollowupHandoffRecord) (s : hub) : Prop := of_attempt r -> seen l0 (saw_attachment (worktree_path r0) (branch_name r0) missing) s.
Lemma stable_freed r : stable r0 (freed r).
Proof. apply stable_impl, stable_seen. Qed.
Lemma stable_gone r : stable r0 (gone r).
Proof. apply stable_impl, stable_seen. Qed.
Definition settled_ (r : FollowupHandoffRecord) (s : hub) : Prop := of_attempt r ->
  phase r = cleanup_pending /\ branch_free r0 l0 s \/ seen l0 (saw_continuation k) s
  \/ (phase r ∉ [committed; pushed]) /\ seen l0 (saw_attachment (worktree_path r0) (branch_name r0) missing) s /\ branch_free r0 l0 s.

(** A program run where [Pre] holds beside any lasting assertion *)
Definition kept (Pre : hub -> Prop) {A} (m : M A) (ok : A -> hub -> Prop) : Prop := forall P, stable r0 P -> (forall s, P s -> sound s /\ Pre s) ->
  etriple (others_do r0) owed_step P m (fun a s => P s /\ ok a s) (fun _ => P).
Abbreviation kept_ Pre m := (kept Pre m (fun _ _ => True)).
Lemma kept_ret Pre {A} (a : A) (ok : A -> hub -> Prop) : (forall s, sound s -> Pre s -> ok a s) -> kept Pre (mret a) ok.
Proof. intros H P _ HP. apply etriple_ret. intros s Hs. destruct (HP s Hs). auto. Qed.
Lemma kept_throw Pre {A} e (ok : A -> hub -> Prop) : kept Pre (throw e) ok.
Proof. intros P _ _. by apply etriple_throw. Qed.
Lemma kept_bind Pre {A B} (m : M A) (f : A -> M B) R ok : kept Pre m R -> (forall a, stable r0 (R a)) -> (forall a, kept (fun s => Pre s /\ R a s) (f a) ok) -> kept Pre (m ≫= f) ok.
Proof.
  intros Hm HR Hf P HP HPre. eapply etriple_bind; [by apply Hm|]. intros a.
  eapply etriple_weaken; [| | |apply (Hf a (fun s => P s /\ R a s))]; [done|by intros b s [[? _] ?]|by intros e s [? _]|by apply stable_conj|].
  intros s [Hs Ha]. destruct (HPre s Hs). by split_and!.
Qed.
Lemma kept_seq Pre {A B} (m : M A) (f : A -> M B) R ok : kept Pre m R -> (forall a, kept Pre (f a) ok) -> kept Pre (m ≫= f) ok.
Proof.
  intros Hm Hf P HP HPre. eapply etriple_bind; [by apply Hm|]. intros a. eapply etriple_weaken; [| | |by apply (Hf a P)]; [by intros s [? _]|done..].
Qed.
Lemma kept_catch Pre {A} (m : M A) h ok : kept Pre m ok -> (forall e, kept Pre (h e) ok) -> kept Pre (catch m h) ok.
Proof. intros Hm Hh P HP HPre. eapply etriple_catch; [by apply Hm|]. intros e. by apply Hh. Qed.
Lemma kept_weak Pre Pre' {A} (m : M A) (ok ok' : A -> hub -> Prop) : kept Pre' m ok' -> (forall s, Pre s -> Pre' s) -> (forall a s, ok' a s -> ok a s) -> kept Pre m ok.
Proof.
  intros H HPre Hok P HP HP'. eapply etriple_weaken; [| | |apply (H P HP)]; [done|intros a s [? ?]; split; [done|by apply Hok]|done|].
  intros s Hs. destruct (HP' s Hs). auto.
Qed.
Lemma kept_pure Pre (phi : Prop) {A} (m : M A) ok : (forall s, Pre s -> phi) -> (phi -> kept Pre m ok) -> kept Pre m ok.
Proof.
  intros Hphi H P HP HPre. eapply etriple_weaken with (P' := fun s => P s /\ phi); [|intros a s Hs; exact Hs|intros e s Hs; exact Hs|].
  - intros s Hs. split; [done|]. by eapply Hphi, HPre.
  - apply etriple_pure. intros Hp. by apply H.
Qed.
Lemma kept_keeps Pre {A} (m : M A) ok : abides r0 owed_step m ok -> kept Pre m (fun a _ => ok a).
Proof. intros H P HP _. exact (H P HP). Qed.
Lemma kept_call Pre {A} (f : hub -> A * hub) (ok : A -> hub -> Prop) : (forall s, sound s -> Pre s -> owed_step s (snd (f s)) /\ ok (fst (f s)) (snd (f s))) -> kept Pre (call f) ok.
Proof.
  intros H P HP HPre. apply etriple_call; [intros g s Hg Hs; exact (good_stable _ _ g s HP Hg Hs)|]. intros s Hs. destruct (HPre s Hs) as [H1 H2].
  destruct (H s H1 H2) as [Ho Ha]. split; [exact Ho|]. split; [eapply HP; [apply owed_moves, Ho|done]|done].
Qed.
Lemma kept_statement Pre {A} (f : hub -> A * hub) (ok : A -> hub -> Prop) : (forall a, stable r0 (ok a)) ->
  (forall s, sound s -> Pre s -> owed_step s (snd (f s)) /\ ok (fst (f s)) (snd (f s))) -> kept Pre (statement f) ok.
Proof.
  intros Hok H. apply kept_bind with (R := fun o s => match o with Some a => ok a s | None => True end); [|intros [a|]; [apply Hok|apply stable_const]|].
  - apply kept_call. intros s Hs HP. destruct (H s Hs HP) as [Ho Ha]. destruct (database (outside s)); [by destruct (f s)| |by split].
    split; [by apply owed_silent, same_change|done].
  - intros [a|]; [|apply kept_throw]. apply kept_ret. by intros s _ [_ ?].
Qed.

(** ** The table *)

Lemma load_held s r : sound s -> rows s !! key_of r = Some r -> held r s.
Proof.
  intros (Hb & _ & Hm & _) Hr [Ek Ei]. rewrite Ek in Hr. split; [by apply Hm|]. split; [done|]. intros row Hrow _. right. assert (row = r) as -> by congruence. done.
Qed.
Definition loaded (k' : key) (o : option FollowupHandoffRecord) (s : hub) : Prop := match o with Some r => key_of r = k' /\ held r s | None => True end.
Lemma stable_loaded k' o : stable r0 (loaded k' o).
Proof. destruct o; [|apply stable_const]. apply stable_conj; [apply stable_const|apply stable_in_hand]. Qed.
Lemma kept_load Pre k' : kept Pre (loadFollowupHandoff k') (loaded k').
Proof.
  apply kept_statement; [apply stable_loaded|]. intros s Hs _. split; [by apply owed_silent, same_change|]. cbn [fst snd].
  destruct (rows s !! k') as [r|] eqn:Er; [|done]. assert (Hk : key_of r = k') by by apply (proj1 (proj2 Hs)) in Er. split; [done|]. apply load_held; [done|by rewrite Hk].
Qed.
Definition all_held (l : list FollowupHandoffRecord) (s : hub) : Prop := forall r, r ∈ l -> held r s.
Lemma stable_all l : stable r0 (all_held l).
Proof. intros s s' H Hs r Hr. eapply stable_in_hand; [exact H|by apply Hs]. Qed.
Lemma kept_loads Pre f : kept Pre (loadFollowupHandoffs f) all_held.
Proof.
  apply kept_statement; [apply stable_all|]. intros s Hs _. split; [by apply owed_silent, same_change|]. cbn [fst snd]. intros r [_ Hr]%list_elem_of_filter.
  apply list_elem_of_fmap in Hr as ((k' & r') & -> & Hin%elem_of_map_to_list). cbn. apply load_held; [done|]. by rewrite (proj1 (proj2 Hs) _ _ Hin).
Qed.
Lemma kept_asks Pre {A} (f : hub -> A) : kept_ Pre (asks f).
Proof. apply (kept_keeps Pre _ (fun _ => True)). by apply abides_asks, owed_silent. Qed.
Lemma kept_advance Pre r changes : ordinary changes -> kept_ Pre (advanceFollowupHandoff r changes).
Proof.
  intros Hc. apply (kept_weak _ Pre _ _ (fun o _ => fam_option (fun _ => True) o)); [|done..].
  apply kept_keeps, abides_advance; [apply owed_silent|apply owed_moves|done| |done|done]. intros r' ch t s _ Hch. by apply owed_advance.
Qed.
Definition same_identity (r : FollowupHandoffRecord) (o : option FollowupHandoffRecord) : Prop := match o with Some r' => identity r' = identity r | None => True end.
Lemma kept_written Pre r changes (tx : Z -> hub -> bool * hub) : (forall x, identity (changes x) = identity x) -> (forall t s, Pre s -> owed_step s (snd (tx t s))) ->
  kept Pre (t ← asks now; updated ← statement (tx t); mret (if updated : bool then Some (advanced changes (generation r + 1) t r) else None)) (fun o _ => same_identity r o).
Proof.
  intros Hid H. eapply kept_seq; [apply kept_asks|]. intros t. eapply kept_seq; [|intros b; apply kept_ret; intros s _ _; destruct b; [exact (Hid r)|done]].
  apply kept_statement; [intros ?; apply stable_const|]. intros s _ HP. split; [by apply H|done].
Qed.
Lemma kept_release Pre r reason : (forall s, Pre s -> freed r s) -> kept_ Pre (advanceFollowupHandoff r (with_status HANDOFF_RELEASED reason)).
Proof.
  intros Hf. eapply kept_weak; [apply kept_written; [done|]|intros s Hs; exact Hs|done]. intros t s HP. apply owed_write; [done|]. intros row Hv Hk Hi _. right. apply (Hf s HP). split; [done|]. by destruct (is_version_same r row Hv) as [<- _].
Qed.
(** What a transaction does beside the table *)
Lemma owed_beside s s' s'' : owed_step s s' -> silent_change r0 s' s'' -> owed_step s s''.
Proof.
  intros [(Hw & [l' El'] & Ho' & Hk' & Hd') Ht] Hb. destruct (silent_moves r0 _ _ Hb) as (_ & _ & _ & Hk & _). destruct Hb as (Er & [l El] & Ho & Hd). split.
  - split_and!; [|exists (l' ++ l); by rewrite El, El', app_assoc|auto|auto|lia]. intros row' Hr'. rewrite Er in Hr'. by apply Hw.
  - intros row Hr Hi. rewrite Er. by apply Ht.
Qed.
Lemma kept_revoked Pre r changes : ordinary changes -> kept Pre (advance_and_revoke r changes) (fun o _ => same_identity r o).
Proof.
  intros Hc. apply kept_written; [apply Hc|]. intros t s _. pose proof (owed_advance r changes t s Hc) as H. destruct (advance_tx r changes t s) as [[|] s']; [|done].
  eapply owed_beside; [exact H|by apply same_change].
Qed.
Lemma kept_revoke Pre r changes : ordinary changes -> kept_ Pre (advance_and_revoke r changes).
Proof. intros Hc. eapply kept_weak; [by apply kept_revoked|intros s H; exact H|done]. Qed.
(** A version that is advanced is held again. *)
Lemma kept_takes Pre r changes : regular changes -> (forall x, content (changes x) = content x) -> (forall s, Pre s -> held r s) ->
  kept Pre (advanceFollowupHandoff r changes) (fun o s => match o with Some r' => held r' s | None => True end).
Proof.
  intros Hc Hn Hr P HP HPre. destruct (decide (of_attempt r)) as [Ha|Ha].
  - eapply etriple_weaken with (P' := fun s => (P s /\ tracks r0 l0 r s) /\ in_attempt r0 r); [|intros a s Hs; exact Hs|intros e s Hs; exact Hs|].
    + intros s Hs. destruct (Hr s (proj2 (HPre s Hs)) Ha). by split_and!.
    + apply etriple_pure. intros Hin. eapply etriple_step; [apply owed_checkpoint|]. eapply etriple_weaken; [| | |apply (rule_advance r0 l0 P r changes HP Hin Hc)].
      * done.
      * intros [r'|] s [[Hs _] H]; (split; [done|]); [|done]. destruct H as [Ht (g & t & ->)]. intros _. split; [|done]. by apply in_attempt_changed.
      * by intros e s [? _].
      * intros s row g t _ _. apply stays, (Hn row).
  - pose proof (abides_advance r0 owed_step (fun x => identity x = identity r)) as H.
    eapply etriple_weaken; [| | |refine (H _ _ _ _ r changes eq_refl _ P HP)]; [done| |done|apply owed_silent|apply owed_moves|congruence|intros x ch t s _; apply owed_advance|].
    + intros [r'|] s [Hs Hi]; (split; [done|]); [|done]. intros Ha'. destruct Ha. by apply (identity_attempt r').
    + destruct Hc as [Hid _ Hst]. by split.
Qed.

Lemma kept_finalize Pre r : (forall s, Pre s -> held r s /\ settled_ r s) -> kept_ Pre (finalizeFollowupHandoff r).
Proof.
  intros H. apply kept_statement; [intros ?; apply stable_const|]. intros s _ [Hh Hs]%H. split; [|done]. apply owed_delete. intros row Hr Hv Hk Hi.
  destruct (is_version_same r row Hv) as [Ei Eg]. assert (Ha : of_attempt r) by (split; [done|congruence]). destruct (Hh Ha) as [_ [_ Ht]]. rewrite Hk in Hr.
  destruct (Ht row Hr Hi) as [?|[_ Hc]]; [lia|]. apply version_content, content_eq in Hc as (_ & Hp & _).
  destruct (Hs Ha) as [[Hph Hf]|[Hc|(Hph & Hg & Hf)]]; [apply t_retired; [congruence|done]|by apply t_continued|apply t_nothing_owed; [by rewrite Hp|done..]].
Qed.
Lemma kept_diagnostic Pre r reason : kept_ Pre (recordFollowupHandoffDiagnostic r reason).
Proof.
  eapply kept_seq; [apply kept_asks|]. intros t. apply kept_statement; [intros ?; apply stable_const|]. intros s _ _. split; [|done]. apply owed_update.
  intros row Hr _. split_and!; [intros Hk; exact (Hk _ _ Hr)| |].
  - intros Hi. split_and!; [exact Hi|done|by right].
  - intros _ _. by apply t_diagnosed.
Qed.
Lemma kept_closed Pre r reason : kept_ Pre (recordFailedClosed r reason).
Proof.
  unfold recordFailedClosed. destruct (_ || _); [by apply kept_ret|]. destruct (bool_decide _); [by apply kept_ret|].
  eapply kept_seq; [apply kept_diagnostic|]. intros b. by apply kept_ret.
Qed.
(** An identifier that is drawn is not the attempt's. *)
Lemma kept_uuid Pre : kept Pre randomUUID (fun id _ => id <> i).
Proof.
  apply kept_call. intros s (_ & _ & _ & Hu) _. split; [apply owed_silent, same_change; [done..|exact (le_S _ _ (le_n _))]|]. by apply Hu.
Qed.
Lemma kept_taken Pre e r : incarnation r <> i -> key_of r = key_of e -> generation r = generation e + 1 -> handoffReplaceable e (task_id r) = true ->
  (forall s, Pre s -> held e s) -> kept_ Pre (takeOverHandoff e r).
Proof.
  intros Hr Hk Hg Hp He. apply kept_statement; [intros ?; apply stable_const|]. intros s _ Hs%He. split; [|done]. apply owed_update. intros row Hrow Hv.
  destruct (is_version_same e row Hv) as [Ei Eg]. split_and!; [done|done|]. intros Hek Hi. assert (Ha : of_attempt e) by (split; [done|congruence]).
  destruct (Hs Ha) as [_ [_ Ht]]. rewrite Hek in Hrow. destruct (Ht row Hrow Hi) as [?|[_ Hver]]; [lia|].
  apply t_replaced; [|lia]. unfold handoffReplaceable in *. rewrite (version_status _ _ Hver).
  apply version_content, content_eq in Hver as [Hid _]. by rewrite (f_equal (fun x => x.1.1.1.2) Hid : task_id row = task_id e).
Qed.
Lemma kept_inserted Pre r : incarnation r <> i -> kept_ Pre (insertHandoff r).
Proof.
  intros Hr. unfold insertHandoff. apply kept_catch.
  - apply kept_seq with (R := fun _ _ => True); [|intros u; by apply kept_ret]. apply kept_seq with (R := fun _ _ => True).
    + apply kept_statement; [intros ?; apply stable_const|]. intros s _ _. split; [|done]. destruct (rows s !! key_of r) as [x|] eqn:Ex; [by apply owed_silent, same_change|].
      apply owed_set.
      * intros row' [= <-]. split; [done|]. intros _. exists r. by right.
      * intros Hk row Hrow. congruence.
    + intros [a|x]; [by apply kept_ret|apply kept_throw].
  - intros e. eapply kept_seq; [apply kept_load|]. intros [c|]; [by apply kept_ret|apply kept_throw].
Qed.
Lemma kept_record Pre r : kept_ Pre (recordFollowupHandoff r).
Proof.
  unfold recordFollowupHandoff. eapply kept_bind; [apply kept_load|apply stable_loaded|]. intros o. destruct (match o with Some e => _ | None => false end) eqn:Ee; [by apply kept_ret|].
  eapply kept_seq; [apply kept_asks|]. intros t. eapply kept_bind; [apply kept_uuid|intros id; apply (stable_const r0 (id <> i))|]. intros id.
  apply (kept_pure _ (id <> i)); [by intros s [_ ?]|]. intros Hid. eapply kept_seq; [|intros b; by apply kept_ret].
  destruct o as [e|]; [|by apply kept_inserted]. apply (kept_pure _ (key_of e = key_of r)); [by intros s [[_ [? _]] _]|]. intros Hk.
  apply kept_taken; [done|done|done|by apply negb_false_iff in Ee|by intros s [[_ [_ ?]] _]].
Qed.

(** ** What is seen, and quiet programs *)

Lemma kept_quietly Pre {A} (m : M A) : quiet r0 owed_step m -> kept_ Pre m.
Proof. intros H. apply (kept_keeps Pre _ (fun _ => True)). by apply abides_quiet. Qed.
Lemma kept_observed Pre {A} (f : hub -> result A) e : kept Pre (observes f e) (fun a => seen l0 (e a)).
Proof.
  intros P HP HPre. apply (own_observes r0 l0 owed_step (owed_silent) P f e HP). intros s Hs. by destruct (HPre s Hs) as [[? _] _].
Qed.
Definition known (r : FollowupHandoffRecord) : Prop := of_attempt r -> identity r = identity r0.
Lemma held_known r s : held r s -> known r.
Proof. intros H Ha. by apply H. Qed.
Lemma identity_known r r' : identity r' = identity r -> known r -> known r'.
Proof. intros E H Ha. rewrite E. apply H. by eapply identity_attempt. Qed.
Lemma known_place r : known r -> of_attempt r -> worktree_path r = worktree_path r0 /\ branch_name r = branch_name r0 /\ local_repo_path r = local_repo_path r0.
Proof. intros H Ha. destruct (in_attempt_place r0 r (H Ha)) as (? & ? & _ & ?). done. Qed.
Lemma stable_unheld r l : stable r0 (fun s => l = ([] : list string) -> freed r s).
Proof. apply stable_impl, stable_freed. Qed.
Lemma kept_registrations Pre r : known r -> kept Pre (registrations_of r) (fun l s => l = [] -> freed r s).
Proof.
  intros Hr P HP HPre. eapply etriple_weaken; [intros s Hs; exact Hs| |intros e s Hs; exact Hs|apply (kept_observed Pre _ _ P HP HPre)].
  intros l s [Hs Hl]. split; [done|]. intros -> Ha. destruct (known_place r Hr Ha) as (_ & Eb & El). unfold branch_free. by rewrite <- El, <- Eb.
Qed.
Lemma stable_lost r a : stable r0 (fun s => a = missing -> gone r s).
Proof. apply stable_impl, stable_gone. Qed.
Lemma kept_attachment Pre r : known r -> kept Pre (attachment_of r) (fun a s => a = missing -> gone r s).
Proof.
  intros Hr P HP HPre. eapply etriple_weaken; [intros s Hs; exact Hs| |intros e s Hs; exact Hs|apply (kept_observed Pre _ _ P HP HPre)].
  intros a s [Hs Hl]. split; [done|]. intros -> Ha. destruct (known_place r Hr Ha) as (Ew & Eb & _). by rewrite <- Ew, <- Eb.
Qed.

(** A pass on a held handoff, of this attempt or of another *)
Lemma kept_resume Pre b r : (forall s, Pre s -> held r s) -> kept_ Pre (resumeFollowupHandoff b r).
Proof.
  intros Hr. destruct (decide (of_attempt r)) as [Ha|Ha].
  - intros P HP HPre. eapply etriple_weaken with (P' := fun s => (P s /\ tracks r0 l0 r s) /\ in_attempt r0 r);
      [|intros a s Hs; exact Hs|intros e s Hs; exact Hs|apply etriple_pure; intros Hin].
    + intros s Hs. destruct (Hr s (proj2 (HPre s Hs)) Ha). by split_and!.
    + eapply etriple_step; [apply owed_checkpoint|]. apply etriple_both with (I2 := moves_on r0) (Q' := fun _ _ => True) (E' := fun _ _ => True); [by apply rule_resume|].
      eapply etriple_weaken; [| | |apply (abides_resume r0 (moves_on r0) (fun _ => True)); [apply silent_moves|done|done| | |exact I|exact HP]].
      * by intros s [? _].
      * by intros a s ?.
      * done.
      * intros x ch t s _ Hc. apply owed_moves, owed_advance, Hc.
      * intros x s _. apply moves_delete.
  - apply (kept_keeps Pre _ (fun _ => True)). apply abides_resume with (Fam := fun x => ~ of_attempt x); [apply owed_silent|apply owed_moves| | | |done].
    + intros x x' Hid Hx Hx'. by eapply Hx, identity_attempt.
    + intros x ch t s _. apply owed_advance.
    + intros x s Hx. apply owed_delete. intros row _ Hv Hk Hi. destruct Hx. destruct (is_version_same x row Hv) as [Ei _]. split; [done|congruence].
Qed.

Ltac quietly := apply kept_quietly; first
  [ by apply quiet_observes, owed_silent | by apply quiet_external, owed_silent | by apply quiet_report, owed_silent | by apply quiet_withdraw, owed_silent
  | by apply quiet_lease, owed_silent | by apply quiet_task, owed_silent | by apply quiet_or_throw
  | apply quiet_sends; [apply owed_silent|intros s; try (by apply same_change)] ].
Lemma kept_observes Pre {A} (f : hub -> result A) e : kept_ Pre (observes f e). Proof. quietly. Qed.
Lemma kept_external Pre {A} (f : Outside -> result A) : kept_ Pre (external f). Proof. quietly. Qed.
Lemma kept_report Pre r : kept_ Pre (reportHandoffOnTaskTimeline r). Proof. quietly. Qed.
Lemma kept_withdraw Pre r : kept_ Pre (withdrawRestoredComments r). Proof. quietly. Qed.
Lemma kept_task Pre id : kept_ Pre (getTaskState id). Proof. quietly. Qed.
Lemma kept_or_throw Pre {A} (x : result A) : kept_ Pre (or_throw x). Proof. quietly. Qed.
Lemma kept_lock Pre {A} (f : PrLock.locks -> A * PrLock.locks) : kept_ Pre (on_locks f).
Proof. quietly. destruct (f (locks s)). by apply same_change. Qed.
Lemma kept_post Pre r body : kept_ Pre (postComment r body).
Proof. quietly. by eapply note_change. Qed.
Lemma kept_suppressed Pre r ids : kept_ Pre (recordCancelledClaims r ids).
Proof. unfold recordCancelledClaims. destruct ids; [by apply kept_ret|]. quietly. Qed.
Lemma kept_claim_ids Pre k' : kept_ Pre (loadCancelledClaimIds k').
Proof. quietly. Qed.
Lemma kept_heartbeat Pre : kept_ Pre startHeartbeat.
Proof. apply kept_quietly, quiet_calls; [apply owed_silent|]. intros s. by apply same_change. Qed.
Lemma kept_drawn Pre : kept_ Pre randomUUID.
Proof. eapply kept_weak; [apply kept_uuid|intros s H; exact H|done]. Qed.
Lemma kept_loading Pre k' : kept_ Pre (loadFollowupHandoff k').
Proof. eapply kept_weak; [apply kept_load|intros s H; exact H|done]. Qed.
Lemma kept_released_lease Pre k' t : kept_ Pre (releasePRProcessingLock k' t).
Proof. apply kept_lock. Qed.
Hint Resolve kept_asks kept_observes kept_external kept_report kept_withdraw kept_task kept_or_throw kept_lock kept_post kept_suppressed kept_claim_ids kept_heartbeat
  kept_drawn kept_loading kept_released_lease kept_advance kept_revoke kept_closed kept_record kept_throw : kept.
Hint Extern 1 (ordinary _) => ordinary : kept.
Ltac kept_program :=
  repeat first
    [ assumption | solve [auto with kept]
    | match goal with
      | |- kept _ (mret _) _ => apply kept_ret; done
      | |- kept _ (catch _ _) _ => apply kept_catch; [|intros ?]
      | |- kept _ (_ ≫= _) _ => apply kept_seq with (R := fun _ _ => True); [|intros ?]
      | |- kept _ (match ?x with _ => _ end) _ => destruct x
      end ].
Lemma kept_finally Pre {A} (m : M A) done_ : kept_ Pre m -> kept_ Pre done_ -> kept_ Pre (finally m done_).
Proof. intros Hm Hd. unfold finally. kept_program. Qed.
Lemma kept_loaded Pre k' {B} (f : option FollowupHandoffRecord -> M B) : (forall r, kept_ (fun s => Pre s /\ held r s) (f (Some r))) -> kept_ Pre (f None) ->
  kept_ Pre (o ← loadFollowupHandoff k'; f o).
Proof.
  intros Hs Hn. eapply kept_bind; [apply kept_load|apply stable_loaded|]. intros [r|]; [|by eapply kept_weak; [exact Hn|intros s [? _]|]].
  eapply kept_weak; [apply Hs|by intros s [? [_ ?]]|done].
Qed.

(** ** Operators *)

Lemma kept_leased Pre {A} r action (run : FollowupHandoffRecord -> M A) : (forall r', kept_ (fun s => Pre s /\ held r' s) (run r')) -> kept_ Pre (underOperatorLease r action run).
Proof.
  intros Hr. unfold underOperatorLease. eapply kept_seq; [apply kept_drawn|]. intros id. eapply kept_seq; [apply kept_lock|]. intros []; try by apply kept_ret.
  apply kept_finally; [|apply kept_lock]. apply kept_loaded; [|by apply kept_ret]. intros x. cbn. destruct (is_version r x); [|by apply kept_ret].
  eapply kept_seq; [apply Hr|]. intros v. by apply kept_ret.
Qed.
Lemma kept_authorize Pre k' : kept_ Pre (authorizeCancelledFollowupHandoff k').
Proof.
  unfold authorizeCancelledFollowupHandoff. apply kept_loaded; [|by apply kept_ret]. intros r. destruct (negb _); [by apply kept_ret|].
  eapply kept_seq; [apply kept_leased|intros x; by apply kept_ret]. intros r'. apply kept_revoke. unfold authorize_changes. split; intros x; by destruct (retryOwnsClaims r').
Qed.
Lemma kept_operator_resume Pre k' b : kept_ Pre (resumeOperatorHeldFollowupHandoff k' b).
Proof.
  unfold resumeOperatorHeldFollowupHandoff. apply kept_loaded; [|by apply kept_ret]. intros r. destruct (bool_decide _); [by apply kept_ret|]. destruct (negb _); [by apply kept_ret|].
  destruct (_ && _); [by apply kept_ret|]. eapply kept_seq; [apply kept_leased|intros x; by apply kept_ret]. intros r'. unfold resume_changes. kept_program.
Qed.
Lemma kept_cancelled_claims Pre r : kept_ Pre (cancelledClaimsRefusal r).
Proof. unfold cancelledClaimsRefusal, suppress_and_withdraw. kept_program. Qed.
Lemma kept_announce Pre r body : kept_ Pre (announceRelease r body).
Proof. unfold announceRelease, getPullRequest. destruct (splitHandoffRepository _) as [owner repo]. kept_program. Qed.
Lemma kept_branch_refusal Pre r : known r -> kept Pre (branchReleaseRefusal r) (fun o s => o = None -> freed r s).
Proof.
  intros Hr. unfold branchReleaseRefusal. apply kept_catch; [|intros e; by apply kept_ret]. eapply kept_bind; [by apply kept_registrations|intros l; apply stable_unheld|].
  intros l. apply kept_ret. intros s _ [_ Hl]. destruct l; [auto|done].
Qed.
Lemma kept_release_checked Pre o r : known r -> kept_ Pre (release_checked o r).
Proof.
  intros Hr. unfold release_checked. eapply kept_bind; [by apply kept_branch_refusal|intros x; apply stable_impl, stable_freed|]. intros [x|]; [by apply kept_ret|].
  eapply kept_seq; [unfold restart_branch; kept_program|]. intros clean. destruct (negb clean); [by apply kept_ret|].
  eapply kept_seq; [apply kept_release; intros s [_ H]; by apply H|]. intros a. by apply kept_ret.
Qed.
Lemma kept_release_fresh Pre o r : known r -> kept_ Pre (release_fresh o r).
Proof.
  intros Hr. unfold release_fresh. eapply kept_bind with (R := fun x _ => same_identity r x).
  - unfold confirmUnconfirmedRetryOwnership. destruct (negb _); [by apply kept_ret|]. apply kept_revoked. ordinary.
  - intros x. apply (stable_const r0 (same_identity r x)).
  - intros [x|]; [|by apply kept_ret]. apply (kept_pure _ (identity x = identity r)); [by intros s [_ ?]|]. intros Ex. assert (Hx : known x) by by eapply identity_known.
    pose proof (fun P => kept_release_checked P o x Hx) as Hc. pose proof (fun P => kept_cancelled_claims P x) as Hd.
    unfold release_worktree, attachment_of, detach_worktree. kept_program.
Qed.
Lemma kept_release_record Pre k' o : kept_ Pre (releaseFollowupHandoffRecord k' o).
Proof.
  unfold releaseFollowupHandoffRecord. apply kept_loaded; [|by apply kept_ret]. intros r. destruct (bool_decide _); [by apply kept_ret|].
  eapply kept_seq; [unfold inspectLiveness; apply kept_external|]. intros x. destruct (containerIdentityConflict r x); [kept_program|]. destruct (bool_decide _); [by apply kept_ret|].
  destruct (negb _); [by apply kept_ret|]. eapply kept_seq; [apply kept_leased|intros y; by apply kept_ret]. intros r'.
  eapply (kept_pure _ (known r')); [intros s [_ H]; by eapply held_known|]. intros Hk. by apply kept_release_fresh.
Qed.
Lemma kept_release_inline Pre r id : known r -> kept_ Pre (releasePredecessorInline r id).
Proof.
  intros Hr. unfold releasePredecessorInline. apply kept_seq with (R := fun _ _ => True); [unfold predecessor_cancelled; kept_program|]. intros cancelled. cbn zeta.
  apply kept_seq with (R := fun _ _ => True); [unfold suppress_and_withdraw; kept_program|]. intros u. apply kept_seq with (R := fun _ _ => True); [unfold free_branch, release_worktree, attachment_of, detach_worktree; kept_program|]. intros u'.
  eapply kept_bind; [by apply kept_registrations|intros l; apply stable_unheld|]. intros [|]; [|by apply kept_ret].
  apply kept_seq with (R := fun _ _ => True); [unfold restart_branch; kept_program|]. intros [|]; [|by apply kept_ret]. cbn [negb].
  apply kept_seq with (R := fun _ _ => True); [apply kept_release; intros s [_ H]; by apply H|]. pose proof (fun P => kept_announce P r) as Ha. intros [a|]; kept_program.
Qed.
Lemma kept_each Pre {A B} (f : A -> M B) l : (forall x, x ∈ l -> kept_ Pre (f x)) -> kept_ Pre (each f l).
Proof.
  induction l as [|x l IH]; intros H; [by apply kept_ret|]. apply kept_seq with (R := fun _ _ => True); [apply H; by left|]. intros y.
  apply kept_seq with (R := fun _ _ => True); [apply IH; intros z Hz; apply H; by right|]. intros ys. by apply kept_ret.
Qed.
Hint Resolve kept_operator_resume kept_release_record kept_announce : kept.

(** ** A pass of recovery *)

Lemma kept_settle_holds Pre ms : kept_ Pre (settleStuckHolds ms).
Proof.
  assert (H : forall r t, kept_ Pre (settle_hold ms r t)) by (intros r t; unfold settle_hold, taskAttemptEnded; kept_program).
  unfold settleStuckHolds. apply kept_seq with (R := fun _ _ => True); [eapply kept_weak; [apply kept_loads|intros s Hs; exact Hs|done]|]. intros l.
  apply kept_seq with (R := fun _ _ => True); [apply kept_asks|]. intros t. apply kept_seq with (R := fun _ _ => True); [|intros u; by apply kept_ret].
  apply kept_each. intros r _. apply kept_catch; [apply H|intros e; by apply kept_ret].
Qed.
Lemma kept_adopting Pre r b t : kept_ (fun s => Pre s /\ held r s) (owned ← advanceFollowupHandoff r (installs t);
  match owned with None => mret (p_resumed r_superseded) | Some o => _ ← startHeartbeat; _ ← external octokit; x ← resumeFollowupHandoff b o; mret (p_resumed x) end).
Proof.
  eapply kept_bind; [apply kept_takes; [regular|done|by intros s [_ ?]]|intros [o|]; [apply stable_in_hand|apply stable_const]|]. intros [o|]; [|by apply kept_ret].
  apply kept_seq with (R := fun _ _ => True); [apply kept_heartbeat|]. intros u. apply kept_seq with (R := fun _ _ => True); [apply kept_external|]. intros u'.
  apply kept_seq with (R := fun _ _ => True); [apply kept_resume; by intros s [_ ?]|]. intros x. by apply kept_ret.
Qed.
Lemma kept_adopt_and_resume Pre r : kept_ Pre (adoptAndResume r).
Proof.
  unfold adoptAndResume. apply kept_seq with (R := fun _ _ => True); [apply kept_drawn|]. intros id. apply kept_seq with (R := fun _ _ => True); [apply kept_lock|]. intros []; try by apply kept_ret.
  apply kept_finally; [|apply kept_lock]. apply kept_loaded; [|by apply kept_ret]. intros x. destruct (_ || _); [by apply kept_ret|]. apply kept_adopting.
Qed.
Hint Resolve kept_settle_holds kept_adopt_and_resume : kept.
Lemma kept_recover Pre ms k' : kept_ Pre (recoverInterruptedFollowupHandoffs ms k').
Proof.
  assert (H : forall r, kept_ Pre (recover_one r)) by (intros r; unfold recover_one, inspectLiveness; kept_program).
  unfold recoverInterruptedFollowupHandoffs. apply kept_seq with (R := fun _ _ => True); [|intros l; apply kept_each; intros r _; apply H].
  destruct k' as [k'|]; [kept_program|]. apply kept_seq with (R := fun _ _ => True); [apply kept_settle_holds|]. intros u.
  eapply kept_weak; [apply kept_loads|intros s Hs; exact Hs|done].
Qed.

(** ** A new writer, and a failure *)

Lemma kept_adopt_recoverable Pre r id t : (forall s, Pre s -> held r s) -> kept_ Pre (adopt_recoverable r id t).
Proof.
  intros Hr. unfold adopt_recoverable. apply kept_seq with (R := fun _ _ => True); [unfold pendingRetryOwnsMissingWorktree, pendingRetryHold, attachment_of; kept_program|]. intros [|]; [by apply kept_ret|].
  apply kept_seq with (R := fun _ _ => True); [kept_program|]. intros owner.
  eapply kept_bind; [apply kept_takes; [|done|exact Hr]|intros [o|]; [apply stable_in_hand|apply stable_const]|].
  - destruct (bool_decide _); regular.
  - intros [o|]; [|by apply kept_ret]. apply kept_seq with (R := fun _ _ => True); [apply kept_external|]. intros u.
    apply kept_seq with (R := fun _ _ => True); [apply kept_resume; by intros s [_ ?]|]. intros x. by apply kept_ret.
Qed.
Lemma kept_adopt Pre owner repo pr id t : kept_ Pre (adoptPredecessorFollowupHandoff owner repo pr id t).
Proof.
  unfold adoptPredecessorFollowupHandoff. apply kept_loaded; [|by apply kept_ret]. intros r.
  destruct (bool_decide _); [unfold releasedCancelledClaimIds; kept_program|]. apply kept_seq with (R := fun _ _ => True); [unfold predecessorReleasable, taskAttemptEnded, attachment_of; kept_program|]. intros releasable.
  destruct (_ && _); [by apply kept_ret|]. apply kept_seq with (R := fun _ _ => True); [unfold inspectLiveness; kept_program|]. intros x. destruct (containerIdentityConflict r x); [kept_program|].
  destruct (bool_decide _); [by apply kept_ret|]. destruct (negb _); [kept_program|]. destruct releasable; [|by apply kept_adopt_recoverable; intros s [_ ?]].
  apply kept_seq with (R := fun _ _ => True); [|intros o; by apply kept_ret]. eapply (kept_pure _ (known r)); [intros s [_ H]; by eapply held_known|]. intros Hk. by apply kept_release_inline.
Qed.
Lemma kept_gate Pre owner repo pr id lk t l : kept_ Pre (gatePredecessorHandoff owner repo pr id lk t l).
Proof.
  assert (H : forall n, kept_ Pre (adopt_attempts n owner repo pr id t)).
  { pose proof (kept_adopt Pre owner repo pr id t) as Ha. induction n as [|n IH]; cbn [adopt_attempts]; (apply kept_seq with (R := fun _ _ => True); [exact Ha|]); intros a; kept_program. }
  unfold gatePredecessorHandoff. kept_program.
Qed.
Definition nothing_owed (r : FollowupHandoffRecord) (e : bool * bool) (s : hub) : Prop := e = (false, false) -> (phase r ∉ [committed; pushed]) /\ gone r s /\ freed r s.
Lemma stable_nothing r e : stable r0 (nothing_owed r e).
Proof. apply stable_impl, stable_conj; [apply stable_const|]. apply stable_conj; [apply stable_gone|apply stable_freed]. Qed.
Lemma kept_evidence Pre r : known r -> kept Pre (publication_evidence r) (nothing_owed r).
Proof.
  intros Hr. assert (Hn : forall Pre e, e <> (false, false) -> kept Pre (mret e) (nothing_owed r)) by (intros Q e He; apply kept_ret; intros s _ _; by intros ?).
  unfold publication_evidence. cbn zeta. apply kept_catch; [|intros e; by apply Hn]. eapply kept_bind; [by apply kept_attachment|intros a; apply stable_lost|]. intros [].
  - eapply kept_bind; [by apply kept_registrations|intros l; apply stable_unheld|]. intros l. apply kept_ret. intros s _ [[_ Hg] Hf] [= Hp%bool_decide_eq_false Hl].
    apply negb_false_iff, bool_decide_eq_true in Hl. split_and!; auto.
  - by apply Hn.
  - destruct (bool_decide _); [by apply Hn|]. unfold dirty_of, unpushed_of. eapply kept_seq; [apply kept_observes|]. intros [|]; [by apply Hn|].
    eapply kept_seq; [apply kept_observes|]. intros u. apply Hn. by intros [=].
Qed.
Lemma kept_by_evidence Pre r : (forall s, Pre s -> held r s) -> known r -> kept_ Pre (settle_by_evidence r).
Proof.
  intros Hr Hk. unfold settle_by_evidence. eapply kept_bind; [by apply kept_evidence|apply stable_nothing|]. intros [u b].
  destruct u; [kept_program|]. destruct b; [kept_program|]. eapply kept_seq; [apply kept_finalize|intros x; by apply kept_ret].
  intros s [Hs He]. split; [by apply Hr|]. destruct (He eq_refl) as (Hp & Hg & Hf). intros Ha. right. right. auto.
Qed.
Lemma kept_continuation Pre k' : kept Pre (publicationCheckpointRetained k') (fun b s => b = true -> seen l0 (saw_continuation k') s).
Proof.
  unfold publicationCheckpointRetained. apply kept_catch; [|intros e; by apply kept_ret]. eapply kept_seq; [apply kept_external|]. intros [|]; [|by apply kept_ret].
  eapply kept_bind with (R := fun _ s => seen l0 (saw_continuation k') s); [|intros u; apply stable_seen|intros u; apply kept_ret; by intros s _ [_ ?]].
  apply kept_call. intros s Hs _. split; [by apply owed_silent; eapply note_change|]. eapply seen_now; [apply Hs|done].
Qed.
Lemma kept_failure Pre owner repo pr id c : kept_ Pre (settleFollowupHandoffAfterFailure owner repo pr id c).
Proof.
  unfold settleFollowupHandoffAfterFailure. eapply kept_bind; [apply kept_load|apply stable_loaded|]. intros [r|]; [|by apply kept_ret]. destruct (_ || _); [by apply kept_ret|].
  eapply (kept_pure _ (key_of r = (handoffRepositoryKey owner repo, pr) /\ known r)); [intros s [_ [Hk H]]; split; [done|by eapply held_known]|]. intros [Hk Hn].
  eapply kept_bind; [apply kept_continuation|intros b; apply stable_impl, stable_seen|]. intros [|].
  - eapply kept_seq; [apply kept_finalize|intros x; by apply kept_ret]. intros s [[_ [_ Hh]] Hs]. split; [done|]. intros [Ha _]. right. left. rewrite <- Ha, Hk. by apply Hs.
  - apply kept_seq with (R := fun _ _ => True); [unfold settleOwnershipElsewhere; kept_program|]. intros [|]; [by apply kept_ret|]. destruct (bool_decide _); [by apply kept_ret|].
    apply kept_by_evidence; [by intros s [[_ [_ ?]] _]|done].
Qed.

(** ** Closed pull requests *)

Lemma kept_closed_release Pre r b : kept_ Pre (releaseClosedPullRequestHandoff r b).
Proof.
  unfold releaseClosedPullRequestHandoff. apply kept_seq with (R := fun _ _ => True); [apply kept_release_record|]. intros [x|]; [by apply kept_ret|].
  destruct (splitHandoffRepository _) as [owner repo]. apply kept_seq with (R := fun _ _ => True); [|intros u; by apply kept_ret].
  quietly.
Qed.
Hint Resolve kept_closed_release : kept.
Lemma kept_held_closed Pre owner repo pr b : kept_ Pre (releaseHeldHandoffOfClosedPullRequest owner repo pr b).
Proof. unfold releaseHeldHandoffOfClosedPullRequest. kept_program. Qed.
Lemma kept_closed_pulls Pre m : kept_ Pre (releaseClosedPullRequestHandoffs m).
Proof.
  assert (H : forall l m, kept_ Pre (check_held m l)).
  { induction l as [|r l IH]; intros m'; cbn [check_held]; [by apply kept_ret|]. unfold check_closed, getPullRequest. destruct (splitHandoffRepository _) as [o p]. kept_program. }
  unfold releaseClosedPullRequestHandoffs. apply kept_seq with (R := fun _ _ => True); [eapply kept_weak; [apply kept_loads|intros s Hs; exact Hs|done]|]. intros l.
  apply kept_seq with (R := fun _ _ => True); [apply H|]. intros x. by apply kept_ret.
Qed.

(** ** The writer *)

(** A checkpoint, whatever the job carries *)
Definition writes Pre {A} (m : Local_ hub HandoffCarrier A) : Prop := forall c, kept_ Pre (m c).
Lemma writes_ret Pre {A} (a : A) : writes Pre (mret a).
Proof. intros c. by apply kept_ret. Qed.
Lemma writes_raise Pre {A} e : writes Pre (raise e : Local_ hub HandoffCarrier A).
Proof. intros c. by apply kept_ret. Qed.
Lemma writes_bind Pre {A B} (m : Local_ hub HandoffCarrier A) (f : A -> Local_ hub HandoffCarrier B) : writes Pre m -> (forall a, writes Pre (f a)) -> writes Pre (m ≫= f).
Proof. intros Hm Hf c. eapply kept_seq; [apply Hm|]. intros [l [a|e]]; lazy beta iota; [apply Hf|by apply kept_ret]. Qed.
Lemma writes_handle Pre {A} (m : Local_ hub HandoffCarrier A) h : writes Pre m -> (forall e, writes Pre (h e)) -> writes Pre (handle m h).
Proof. intros Hm Hh c. eapply kept_seq; [apply Hm|]. intros [l [a|e]]; lazy beta iota; [by apply kept_ret|apply Hh]. Qed.
Lemma writes_lift Pre {A} (m : M A) : kept_ Pre m -> writes Pre (lift m).
Proof.
  intros H c P HP HPre w Hg Hw. destruct (H P HP HPre w Hg Hw) as (t & Ht & HI & Hg' & HQ). exists t. unfold lift. destruct (m w) as [r w']. cbn in *.
  split; [done|split; [done|split; [done|split; [|done]]]]. by destruct r as [a|e]; [destruct HQ|].
Qed.
Lemma writes_locals Pre : writes Pre locals.
Proof. intros c. by apply kept_ret. Qed.
Lemma writes_assign Pre f : writes Pre (assign f).
Proof. intros c. by apply kept_ret. Qed.
Hint Resolve writes_ret writes_raise writes_locals writes_assign writes_lift : kept.
Ltac writes_program :=
  repeat first
    [ assumption | solve [auto with kept]
    | match goal with
      | |- writes _ (handle _ _) => apply writes_handle; [|intros ?]
      | |- writes _ (_ ≫= _) => apply writes_bind; [|intros ?]
      | |- writes _ (match ?x with _ => _ end) => destruct x
      end ].
Lemma writes_advance Pre changes : ordinary changes -> writes Pre (advanceExecutionHandoff changes).
Proof. intros Hc. unfold advanceExecutionHandoff, lose_ownership. writes_program. Qed.
Hint Resolve writes_advance : kept.
Lemma kept_retire Pre r : kept_ Pre (retire_after_cleanup r).
Proof.
  unfold retire_after_cleanup. apply kept_catch; [|intros e; by apply kept_ret]. apply kept_loaded; [|by apply kept_ret]. intros x. destruct (_ || _) eqn:Eg; [by apply kept_ret|].
  eapply (kept_pure _ (known x)); [intros s [_ H]; by eapply held_known|]. intros Hk. eapply kept_bind; [by apply kept_registrations|intros l; apply stable_unheld|]. intros [|]; [|by apply kept_ret].
  eapply kept_seq; [apply kept_finalize|intros b; by apply kept_ret]. intros s [[_ Hh] Hf]. split; [done|]. intros Ha. left. split; [|by apply Hf].
  apply orb_false_iff in Eg as [_ Eg]. by apply negb_false_iff, bool_decide_eq_true in Eg.
Qed.
Hint Resolve kept_retire : kept.
Lemma writes_record Pre r : writes Pre (recordExecutionHandoff r).
Proof. unfold recordExecutionHandoff. writes_program. Qed.
Lemma writes_scheduling Pre : writes Pre checkpoint_scheduling.
Proof. unfold checkpoint_scheduling. writes_program. Qed.
Lemma writes_scheduled Pre : writes Pre checkpoint_scheduled.
Proof. unfold checkpoint_scheduled. writes_program. Qed.
Lemma writes_cleanup Pre : writes Pre markExecutionHandoffCleanupPending.
Proof. unfold markExecutionHandoffCleanupPending. writes_program. Qed.
Lemma writes_retire Pre : writes Pre retireExecutionHandoffAfterCleanup.
Proof. unfold retireExecutionHandoffAfterCleanup. writes_program. Qed.
End Owed.

(** ** The programs that write the table *)

Inductive operation :=
  | o_record (new_row : FollowupHandoffRecord)
  | o_container (id : string)
  | o_exited (completed : bool) (summary : option string)
  | o_committed (c : option string)
  | o_pushed (c : option string)
  | o_commented (url : option string)
  | o_scheduling
  | o_scheduled
  | o_cleanup
  | o_retire
  | o_gate (owner repo : string) (pr : Z) (taskId lockKey lockToken : string) (captured : list UnprocessedComment)
  | o_failure (owner repo : string) (pr : Z) (taskId : string) (cancelled : bool)
  | o_recover (staleHoldMs : Z) (only : option key)
  | o_authorize (k : key)
  | o_resume (k : key)
  | o_release (k : key) (o : ReleaseOptions)
  | o_closed (owner repo : string) (pr : Z) (merged : bool)
  | o_closed_checks (lastChecked : gmap string Z).
(** A job's own operations run on what the job carries. *)
Definition perform (c : HandoffCarrier) (o : operation) : M unit :=
  let job {A} (m : Local_ hub HandoffCarrier A) : M unit := _ ← m c; mret tt in
  let run {A} (m : M A) : M unit := _ ← m; mret tt in
  match o with
  | o_record r => job (recordExecutionHandoff r)
  | o_container id => job (markExecutionHandoffContainer id)
  | o_exited b s => job (markExecutionHandoffAgentExited b s)
  | o_committed x => job (markExecutionHandoffCommitted x)
  | o_pushed x => job (markExecutionHandoffPushed x)
  | o_commented u => job (markExecutionHandoffCommentPublished u)
  | o_scheduling => job checkpoint_scheduling
  | o_scheduled => job checkpoint_scheduled
  | o_cleanup => job markExecutionHandoffCleanupPending
  | o_retire => job retireExecutionHandoffAfterCleanup
  | o_gate owner repo pr id k t l => run (gatePredecessorHandoff owner repo pr id k t l)
  | o_failure owner repo pr id b => run (settleFollowupHandoffAfterFailure owner repo pr id b)
  | o_recover ms k => run (recoverInterruptedFollowupHandoffs ms k)
  | o_authorize k => run (authorizeCancelledFollowupHandoff k)
  | o_resume k => run (resumeOperatorHeldFollowupHandoff k false)
  | o_release k o => run (releaseFollowupHandoffRecord k o)
  | o_closed owner repo pr b => run (releaseHeldHandoffOfClosedPullRequest owner repo pr b)
  | o_closed_checks m => run (releaseClosedPullRequestHandoffs m)
  end.
Lemma performs r0 l0 c o : kept r0 l0 (fun _ => True) (perform c o) (fun _ _ => True).
Proof.
  assert (Hjob : forall A (m : Local_ hub HandoffCarrier A), writes r0 l0 (fun _ => True) m -> kept r0 l0 (fun _ => True) (_ ← m c; mret tt) (fun _ _ => True)).
  { intros A m Hm. eapply kept_seq; [apply Hm|]. intros x. by apply kept_ret. }
  assert (Hrun : forall A (m : M A), kept r0 l0 (fun _ => True) m (fun _ _ => True) -> kept r0 l0 (fun _ => True) (_ ← m; mret tt) (fun _ _ => True)).
  { intros A m Hm. eapply kept_seq; [exact Hm|]. intros x. by apply kept_ret. }
  destruct o; cbn [perform]; (apply Hjob || apply Hrun); clear Hjob Hrun.
  - apply writes_record.
  - apply writes_advance. ordinary.
  - apply writes_advance. ordinary.
  - apply writes_advance. ordinary.
  - apply writes_advance. ordinary.
  - apply writes_advance. ordinary.
  - apply writes_scheduling.
  - apply writes_scheduled.
  - apply writes_cleanup.
  - apply writes_retire.
  - apply kept_gate.
  - apply kept_failure.
  - apply kept_recover.
  - apply kept_authorize.
  - apply kept_operator_resume.
  - apply kept_release_record.
  - apply kept_held_closed.
  - apply kept_closed_pulls.
Qed.

(** ** Two runs *)

Section Runs.
(** A worktree with uncommitted work, where nothing fails *)
Definition calm_git (dirty : bool) : FollowupHandoffGitOps := GitOps
  (fun _ _ => Ok attached) (fun _ _ => Ok []) (fun _ => Ok dirty) (fun _ _ => Ok (Some "abc")) (fun _ _ => Ok false) (fun _ => Ok "abc")
  (fun _ _ => Ok (Some "base")) (fun _ _ => Ok false) (fun _ _ _ => Ok (Some "abc")) (fun _ _ _ => Ok true) (fun _ => Ok tt) (fun _ _ => Ok true)
  (Some (fun _ _ _ => Ok true)).
Definition calm (dirty : bool) : Outside := {|
  git := calm_git dirty; database := works; redis := works; github := works; job_queue := works; task_store := works;
  pull_requests _ _ := Ok (Pull (Some "fix") (Some "main") pull_open); containers _ := Ok (Inspection "stopped" None); octokit := Ok tt;
  continuation_retained := Ok false; comment_url id := Some ("https://c/" ++ show id)%string |}.
Definition request : UnprocessedComment := PrComment 11 "ann" None "please".
(** A request on Integry/propr: the row has the name in lower case, the job as GitHub has it. *)
Definition sample : FollowupHandoffRecord := {|
  repository := handoffRepositoryKey "Integry" "propr"; pull_request := 7; task_id := "t1"; source_task_ids := []; target_repository := "integry/propr"; branch_name := "fix";
  is_fork := false; worktree_path := "/w"; local_repo_path := "/r"; claimed_comments := [request];
  job_data := JobData (Some "Integry") (Some "propr") None None []; llm := None; phase := agent_running; agent_completed := None; agent_summary := None;
  status := HANDOFF_ACTIVE; status_reason := None; settlement := None; operator_authorized := false; starting_comment_id := Some 12;
  commit_hash := None; completion_comment_url := None; head_ref := Some "fix"; base_ref := Some "main"; head_sha := Some "base"; container_id := None;
  successor_task_id := None; lock_key := "lock"; lock_token := "dead"; generation := 3; incarnation := uuid 0; updated_at := 0 |}.
Definition interrupted (dirty : bool) : hub := {|
  rows := {[key_of sample := sample]}; cancelled_claims := ∅; pending := ∅; locks := PrLock.Locks 0 ∅; lease_lost := false; tasks := {["t1" := unfinished "agent_running"]};
  comments := {[key_of sample := {[12%positive := (Some "started", Some "https://c/12")]}]}; issued := 12; queue := ∅; now := 1000; drawn := 1; log := []; outside := calm dirty |}.
Definition after_recovery (dirty : bool) : result (list HandoffOutcome) * hub :=
  let '(r, w) := recoverInterruptedFollowupHandoffs 1000 None (World (interrupted dirty) [] []) in (r, store w).
Definition queued_job (s : hub) : option FollowupJob := snd <$> head (map_to_list (queue s)).

(** The assumptions of the theorem below hold where an attempt was interrupted. *)
Example interrupted_is_sound dirty : sound sample [] (interrupted dirty).
Proof.
  split_and!; [by exists []|by apply map_Forall_singleton| |].
  - intros row H _. change (({[key_of sample := sample]} : gmap key FollowupHandoffRecord) !! key_of sample = Some row) in H. rewrite lookup_singleton_eq in H. by injection H as <-.
  - intros n Hn. cbn in Hn. intros H%(inj (String.append "uuid-"))%(inj pretty). lia.
Qed.
(** The work is committed, pushed and answered for, and nothing is owed any more. *)
Example work_is_published :
  fst (after_recovery true) = Ok [h_pass (p_resumed (r_published (Some "abc")))]
  /\ rows (snd (after_recovery true)) = ∅ /\ tasks (snd (after_recovery true)) !! "t1" = Some COMPLETED
  /\ (fst <$> comments_at (key_of sample) (snd (after_recovery true)) !! 12%positive) = Some (Some (recoveredCompletionBody { sample with commit_hash := Some "abc" })).
Proof. vm_compute. auto. Qed.
(** Without work the claims are returned under the name in lower case, and the job that is
    queued for them reads another list. *)
Example returned_claims_miss_the_queue : let s := snd (after_recovery false) in
  fst (after_recovery false) = Ok [h_pass (p_resumed r_no_changes)]
  /\ pending_at (getPendingPrCommentsKey "integry" "propr" 7) s = [entry request]
  /\ (fj_owner <$> queued_job s, fj_repo <$> queued_job s, fj_pr <$> queued_job s) = (Some "Integry", Some "propr", Some 7)
  /\ pending_at (getPendingPrCommentsKey "Integry" "propr" 7) s = [].
Proof. vm_compute. auto. Qed.
End Runs.

(** C6. An owed publication is not erased. Let the rows of an attempt be its own, and other
    processes write them only with later versions. Then every program that writes the table
    (the job's checkpoints and its retirement, the gate before a new worktree, the settlement
    after a failure, a pass of recovery, the operators' actions, the checks on closed pull
    requests) keeps to that with each of its own writes, and each write treats the row of the
    attempt in one of these ways: it leaves it, records a diagnostic, or advances it by one
    generation as the same attempt; releases it only after this program saw no worktree hold
    the branch; replaces it only where the row is released, or is the active row of the same
    task; and deletes it only in cleanup_pending with the branch seen free, or where the
    continuation of the publication was seen retained, or where no commit or push is recorded,
    the checkout was seen gone and the branch seen free. *)
Theorem owed_publication_survives r0 l0 c o :
  triple (others_do r0) (owed_step r0 l0) (sound r0 l0) (perform c o) (fun _ => sound r0 l0).
Proof.
  eapply etriple_weaken; [| | |apply (performs r0 l0 c o (sound r0 l0)); [apply stable_sound|done]]; [done|by intros a s [? _]|done].
Qed.
