(* ===== verification/Push.v ===== *)
(** * Web push: the delivery schema and its dispatcher

    The tables of push deliveries with the triggers and checks that guard them
    (packages/core/src/db/migrations/20260802000000_create_notification_schema.js,
    20260802010000_add_notification_preference_apis.js and
    20260824000000_allow_push_delivery_job_lease_renewal.js), and the dispatcher of
    packages/api/services/webPushDispatcher.ts. A statement checks every row it changes
    and aborts as a whole where a trigger or a check refuses one; its nested triggers are
    part of it. Timestamps are milliseconds: the canonical text orders like them.
    Comparisons with NULL are false here; the checks refuse the rows where SQL's third
    value would matter. An option of the dispatcher is the one given or the environment's.
    Text limits, titles and bodies of events, and the dispatcher's timer are left out. *)

From S2P Require Import Prelude JsString Interleave.
From coqutil Require Export Datatypes.RecordSetters.
Export OCamlLikeNotations.

Open Scope string_scope.
Open Scope Z_scope.
Open Scope list_scope.

(** ** The tables *)

Inductive PushDeliveryStatus := pending | processing | retryable | delivered | failed | cancelled.
#[export] Instance PushDeliveryStatus_eq_dec : EqDecision PushDeliveryStatus.
Proof. solve_decision. Defined.
Record PushJob := Job {
  job_event : string;
  job_user : string;
  job_subscription : string;
  attempt_count : Z;
  status : PushDeliveryStatus;
  next_retry_at : option Z;
  claim_token : option string;
  claimed_at : option Z;
  lease_expires_at : option Z;
  created_at : Z;
}.
Record PushAttempt := Attempt {
  a_status : PushDeliveryStatus;
  response_status : option Z;
  error_code : option string;
  error_message : option string;
  attempted_at : Z;
  a_next_retry_at : option Z;
  a_claim_token : string;
  a_created_at : Z;
}.
Record PushSubscriptionRow := Subscription {
  sub_user : string;
  endpoint : string;
  keys : option (string * string);
  expires_at : option Z;
  user_agent : option string;
  last_used_at : option Z;
  revoked_at : option Z;
  sub_created_at : Z;
  updated_at : Z;
}.
Record Recipient := Receipt { inbox_enabled : bool; push_enabled : bool; read_at : option Z; dismissed_at : option Z; assigned_at : Z }.
Record NotificationEvent := Notified { kind : string; severity : string }.
Record PreferenceSettings := Settings { quiet_hours_start : option string; quiet_hours_end : option string; timezone : string; badge_enabled : bool }.

(** What a push provider answers: a response, or an error with the status it carries *)
Inductive push_reply := answered (statusCode : Z) | rejected (statusCode : option Z).
Record Live := LiveDelivery {
  l_job : string; l_event : string; l_user : string; l_subscription : string; l_attempt_count : Z; l_token : string;
  l_endpoint : string; l_keys : string * string; l_updated_at : Z; l_kind : string; l_severity : string; l_settings : option PreferenceSettings;
}.
(** What this dispatcher was told and did *)
Inductive Event :=
  | saw_live (l : Live)
  | renewed (job token : string) (at_ lease : Z)
  | sent (job token : string) (number : Z) (endpoint : string)
  | recorded (job token : string) (number : Z) (outcome : PushDeliveryStatus).
Record Outside := Answers { database : bool; provider : string -> string -> push_reply }.

Record push_tables := Push {
  jobs : gmap string PushJob;
  attempts : gmap (string * Z) PushAttempt;
  subscriptions : gmap string PushSubscriptionRow;
  recipients : gmap (string * string) Recipient;
  events : gmap string NotificationEvent;
  preferences : gmap (string * string) bool;
  settings : gmap string PreferenceSettings;
  clock : Z;
  drawn : nat;
  log : list Event;
  outside : Outside;
}.

(** ** Statements *)

(** [a <= b] and [a < b] where either may be NULL *)
Definition le_ (a b : option Z) : bool := match a, b with Some a, Some b => a <=? b | _, _ => false end.
Definition lt_ (a b : option Z) : bool := match a, b with Some a, Some b => a <? b | _, _ => false end.
Definition live_until (s : push_tables) (expires : option Z) : bool := match expires with None => true | Some e => clock s <? e end.
Definition active (s : push_tables) (x : PushSubscriptionRow) : bool := bool_decide (revoked_at x = None) && live_until s (expires_at x).
(** The job's subscription, of the job's user *)
Definition subscription_of (s : push_tables) (j : PushJob) : option PushSubscriptionRow :=
  match subscriptions s !! job_subscription j with Some x => if bool_decide (sub_user x = job_user j) then Some x else None | None => None end.
Definition opted_in (s : push_tables) (event user : string) : bool :=
  match events s !! event with Some e => default false (preferences s !! (user, kind e)) | None => false end.
(** The recipient, the subscription and the preference a claim needs *)
Definition eligible (s : push_tables) (j : PushJob) : bool :=
  match recipients s !! (job_event j, job_user j), subscription_of s j with
  | Some r, Some x => push_enabled r && active s x && opted_in s (job_event j) (job_user j)
  | _, _ => false
  end.
Definition due (s : push_tables) (j : PushJob) : bool :=
  match status j with
  | pending => created_at j <=? clock s
  | retryable => le_ (next_retry_at j) (Some (clock s))
  | processing => le_ (lease_expires_at j) (Some (clock s))
  | _ => false
  end.
Definition push_delivery_claimable_jobs (s : push_tables) (j : PushJob) : bool := eligible s j && due s j.
(** A job that may still be dropped: no owner is working on it. *)
Definition droppable (s : push_tables) (j : PushJob) : bool :=
  bool_decide (status j ∈ [pending; retryable]) || (bool_decide (status j = processing) && le_ (lease_expires_at j) (Some (clock s))).
Definition push_delivery_jobs_requiring_cancellation (s : push_tables) (j : PushJob) : bool :=
  match subscription_of s j with
  | Some x => negb (active s x && opted_in s (job_event j) (job_user j)) && droppable s j
  | None => false
  end.

Definition attempted (s : push_tables) (id : string) (n : Z) : bool := bool_decide (is_Some (attempts s !! (id, n))).
Definition same_claim (old new : PushJob) : bool :=
  bool_decide (attempt_count new = attempt_count old) && bool_decide (next_retry_at new = next_retry_at old)
  && bool_decide (claim_token new = claim_token old) && bool_decide (claimed_at new = claimed_at old).
(** The attempt that explains the outcome of a job *)
Definition explained (s : push_tables) (id : string) (old new : PushJob) : bool :=
  match attempts s !! (id, attempt_count new) with
  | Some a => bool_decide (claim_token old = Some (a_claim_token a)) && bool_decide (a_status a = status new)
              && (negb (bool_decide (status new = retryable)) || bool_decide (is_Some (next_retry_at new) /\ a_next_retry_at a = next_retry_at new))
  | None => false
  end.
Definition dropped_retry (s : push_tables) (id : string) (old new : PushJob) : bool :=
  match attempts s !! (id, attempt_count new) with
  | Some a => bool_decide (claim_token old = Some (a_claim_token a)) && bool_decide (a_status a = retryable)
  | None => false
  end && negb (match subscription_of s old with Some x => active s x | None => false end).
(** [push_delivery_jobs_valid_transition] *)
Definition valid_transition (s : push_tables) (id : string) (old new : PushJob) : bool :=
  let now := Some (clock s) in
  let same_count := bool_decide (attempt_count new = attempt_count old) in
  let unattempted := negb (attempted s id (attempt_count old + 1)) in
  let from := fun l => bool_decide (status old ∈ l) in
  let to := fun l => bool_decide (status new ∈ l) in
  (bool_decide (status new = status old) && same_claim old new && bool_decide (lease_expires_at new = lease_expires_at old))
  || (from [pending; retryable] && to [processing] && same_count && le_ (claimed_at new) now && lt_ now (lease_expires_at new)
      && ((from [pending] && (created_at old <=? clock s) && le_ (Some (created_at old)) (claimed_at new))
          || (from [retryable] && le_ (next_retry_at old) now && le_ (next_retry_at old) (claimed_at new)))
      && unattempted)
  || (from [processing] && to [processing] && same_claim old new && lt_ now (lease_expires_at old) && lt_ (lease_expires_at old) (lease_expires_at new))
  || (from [processing] && to [processing] && same_count && negb (bool_decide (claim_token new = claim_token old)) && le_ (lease_expires_at old) now
      && le_ (lease_expires_at old) (claimed_at new) && le_ (claimed_at new) now && lt_ now (lease_expires_at new) && unattempted)
  || (from [processing] && to [delivered; retryable; failed] && bool_decide (attempt_count new = attempt_count old + 1) && explained s id old new)
  || (from [pending; retryable] && to [cancelled] && same_count && unattempted)
  || (from [processing] && to [cancelled] && same_count && le_ (lease_expires_at old) now && unattempted)
  || (from [processing] && to [cancelled] && bool_decide (attempt_count new = attempt_count old + 1) && dropped_retry s id old new).
(** [push_delivery_jobs_identity_immutable], [push_delivery_jobs_claim_eligibility] and
    [push_delivery_jobs_state_check] *)
Definition same_identity (old new : PushJob) : bool :=
  bool_decide (job_event new = job_event old) && bool_decide (job_user new = job_user old)
  && bool_decide (job_subscription new = job_subscription old) && bool_decide (created_at new = created_at old).
Definition claims_anew (old new : PushJob) : bool :=
  bool_decide (status new = processing) && (negb (bool_decide (status old = processing)) || negb (bool_decide (claim_token new = claim_token old))).
Definition unclaimed (j : PushJob) : bool :=
  bool_decide (claim_token j = None) && bool_decide (claimed_at j = None) && bool_decide (lease_expires_at j = None).
Definition state_check (j : PushJob) : bool :=
  match status j with
  | pending => bool_decide (next_retry_at j = None) && unclaimed j
  | processing => bool_decide (next_retry_at j = None) && bool_decide (is_Some (claim_token j)) && le_ (Some (created_at j)) (claimed_at j)
                  && lt_ (claimed_at j) (lease_expires_at j)
  | retryable => (0 <? attempt_count j) && bool_decide (is_Some (next_retry_at j)) && unclaimed j
  | delivered | failed => (0 <? attempt_count j) && bool_decide (next_retry_at j = None) && unclaimed j
  | cancelled => bool_decide (next_retry_at j = None) && unclaimed j
  end && (0 <=? attempt_count j).
Definition job_update_allowed (s : push_tables) (id : string) (old new : PushJob) : bool :=
  same_identity old new && valid_transition s id old new && (negb (claims_anew old new) || eligible s new) && state_check new.

(** [UPDATE push_delivery_jobs SET set WHERE where_]: the rows as updated *)
Definition hit {A} (where_ : string -> A -> bool) (set : A -> A) (m : gmap string A) : gmap string A :=
  map_imap (fun id x => if where_ id x then Some (set x) else None) m.
Definition update_jobs (where_ : string -> PushJob -> bool) (set : PushJob -> PushJob) (s : push_tables) : result (gmap string PushJob * push_tables) :=
  if bool_decide (map_Forall (fun id j => where_ id j = true -> job_update_allowed s id j (set j) = true) (jobs s))
  then let h := hit where_ set (jobs s) in Ok (h, { s with jobs := h ∪ jobs s })
  else Throw "invalid push delivery job transition".

Definition released (st : PushDeliveryStatus) (count : Z) (next : option Z) (j : PushJob) : PushJob :=
  { j with status := st; attempt_count := count; next_retry_at := next; claim_token := None; claimed_at := None; lease_expires_at := None }.
Definition cancels (j : PushJob) : PushJob := released cancelled (attempt_count j) None j.
(** [push_delivery_attempts_outcome_check] and the number's check *)
Definition attempt_check (n : Z) (a : PushAttempt) : bool :=
  let failure := bool_decide (is_Some (response_status a)) || match error_code a with Some c => negb (bool_decide (trim c = "")) | None => false end in
  let unsuccessful := match response_status a with Some r => negb ((200 <=? r) && (r <=? 299)) | None => true end in
  (0 <? n) && (n <=? MAX_SAFE_INTEGER) && (attempted_at a <=? a_created_at a)
  && match response_status a with Some r => (100 <=? r) && (r <=? 599) | None => true end
  && match a_status a with
     | delivered => match response_status a with Some r => (200 <=? r) && (r <=? 299) | None => false end
                    && bool_decide (error_code a = None) && bool_decide (error_message a = None) && bool_decide (a_next_retry_at a = None)
     | retryable => failure && unsuccessful && lt_ (Some (attempted_at a)) (a_next_retry_at a)
     | failed => failure && unsuccessful && bool_decide (a_next_retry_at a = None)
     | _ => false
     end.
(** [push_delivery_attempts_valid_claim] *)
Definition valid_claim (n : Z) (a : PushAttempt) (j : PushJob) : bool :=
  bool_decide (status j = processing) && bool_decide (claim_token j = Some (a_claim_token a)) && bool_decide (n = attempt_count j + 1)
  && le_ (claimed_at j) (Some (attempted_at a)).
(** [push_delivery_attempts_apply_outcome] *)
Definition applies (s : push_tables) (n : Z) (a : PushAttempt) (j : PushJob) : PushJob :=
  if bool_decide (a_status a = retryable) && negb (match subscription_of s j with Some x => active s x | None => false end)
  then released cancelled n None j else released (a_status a) n (a_next_retry_at a) j.
Definition insert_attempt (id : string) (n : Z) (a : PushAttempt) (s : push_tables) : result (unit * push_tables) :=
  match jobs s !! id with
  | Some j =>
      if valid_claim n a j && (a_created_at a <=? clock s) && attempt_check n a && bool_decide (attempts s !! (id, n) = None)
      then
        let s1 := { s with attempts := <[(id, n) := a]> (attempts s) } in
        r ← update_jobs (fun id' j => bool_decide (id' = id) && bool_decide (status j = processing) && bool_decide (claim_token j = Some (a_claim_token a))) (applies s1 n a) s1;
        mret (tt, snd r)
      else Throw "push delivery attempt does not own the active claim"
  | None => Throw "push delivery attempt does not own the active claim"
  end.
(** A new job, for a recipient who may get it; a second one of an event and subscription is ignored. *)
Definition insert_job (id : string) (j : PushJob) (s : push_tables) : result (unit * push_tables) :=
  if bool_decide (map_Exists (fun _ x => job_event x = job_event j /\ job_subscription x = job_subscription j) (jobs s)) then Ok (tt, s)
  else if bool_decide (status j = pending) && (attempt_count j =? 0) && state_check j && bool_decide (jobs s !! id = None) && eligible s j && (created_at j <=? clock s)
       && match recipients s !! (job_event j, job_user j), subscriptions s !! job_subscription j with
          | Some r, Some x => (assigned_at r <=? created_at j) && (sub_created_at x <=? created_at j)
          | _, _ => false
          end
  then Ok (tt, { s with jobs := <[id := j]> (jobs s) })
  else Throw "push delivery requires an eligible recipient and active subscription".

(** *** Subscriptions *)

(** The instant the database writes into [updated_at] *)
Definition managed (s : push_tables) (old : PushSubscriptionRow) : Z := if updated_at old <? clock s then clock s else updated_at old + 1.
Definition within_life (s : push_tables) (old new : PushSubscriptionRow) (t : option Z) : bool :=
  match t with Some t => (sub_created_at new <=? t) && (t <=? managed s old) | None => true end.
Definition rest_same (old new : PushSubscriptionRow) : bool :=
  bool_decide (expires_at new = expires_at old) && bool_decide (user_agent new = user_agent old) && bool_decide (last_used_at new = last_used_at old).
(** [push_subscriptions_version_identity_immutable], [_lifecycle_update_valid] and
    [_revoked_keys_guard], with the checks on keys and order *)
Definition subscription_update_allowed (s : push_tables) (old new : PushSubscriptionRow) : bool :=
  bool_decide (sub_user new = sub_user old) && bool_decide (endpoint new = endpoint old) && bool_decide (sub_created_at new = sub_created_at old)
  && match revoked_at old, revoked_at new with
     | None, Some _ => bool_decide (keys new = keys old) && rest_same old new
     | Some r, Some r' => rest_same old new && bool_decide (r' = r) && bool_decide (keys new = None)
     | _, None => match expires_at new with Some e => clock s <? e | None => true end && bool_decide (is_Some (keys new))
     end
  && within_life s old new (last_used_at new) && within_life s old new (revoked_at new)
  && match expires_at new with Some e => sub_created_at new <=? e | None => true end.
(** What the database makes of the row: a revocation erases the keys. *)
Definition touched_subscription (s : push_tables) (old new : PushSubscriptionRow) : PushSubscriptionRow :=
  let erased := match revoked_at old, revoked_at new with None, Some _ => { new with keys := None } | _, _ => new end in
  { erased with updated_at := managed s old }.
Definition unique_endpoints (m : gmap string PushSubscriptionRow) : Prop :=
  map_Forall (fun id x => revoked_at x = None -> map_Forall (fun id' y => revoked_at y = None -> endpoint y = endpoint x -> id' = id) m) m.
Definition update_subscriptions (where_ : string -> PushSubscriptionRow -> bool) (set : PushSubscriptionRow -> PushSubscriptionRow) (s : push_tables)
    : result (gmap string PushSubscriptionRow * push_tables) :=
  if bool_decide (map_Forall (fun id x => where_ id x = true -> subscription_update_allowed s x (set x) = true) (subscriptions s)) then
    let h := hit where_ (fun x => touched_subscription s x (set x)) (subscriptions s) in
    let s1 := { s with subscriptions := h ∪ subscriptions s } in
    if bool_decide (unique_endpoints (subscriptions s1)) then
      let revoked := fun id => match subscriptions s !! id, h !! id with
                               | Some x, Some y => bool_decide (revoked_at x = None) && bool_decide (is_Some (revoked_at y)) | _, _ => false end in
      r ← update_jobs (fun _ j => revoked (job_subscription j) && droppable s1 j) cancels s1;
      mret (h, snd r)
    else Throw "UNIQUE constraint failed: push_subscriptions.endpoint"
  else Throw "invalid push subscription lifecycle update".
(** A row may be inserted used or revoked; a revoked one loses its keys at once. *)
Definition between (low : Z) (t : option Z) (high : Z) : bool := match t with Some t => (low <=? t) && (t <=? high) | None => true end.
Definition insertable (s : push_tables) (x : PushSubscriptionRow) : bool :=
  (sub_created_at x <=? updated_at x) && (updated_at x <=? clock s)
  && between (sub_created_at x) (last_used_at x) (updated_at x) && between (sub_created_at x) (revoked_at x) (updated_at x)
  && (bool_decide (is_Some (revoked_at x)) || (live_until s (expires_at x) && bool_decide (is_Some (keys x))))
  && match expires_at x with Some e => sub_created_at x <=? e | None => true end.
Definition enrolled (s : push_tables) (x : PushSubscriptionRow) : PushSubscriptionRow :=
  if bool_decide (is_Some (revoked_at x)) && bool_decide (is_Some (keys x)) then { x with keys := None; updated_at := managed s x } else x.
Definition insert_subscription (id : string) (x : PushSubscriptionRow) (s : push_tables) : result (unit * push_tables) :=
  if bool_decide (subscriptions s !! id = None) && insertable s x
  then let s1 := { s with subscriptions := <[id := enrolled s x]> (subscriptions s) } in
       if bool_decide (unique_endpoints (subscriptions s1)) then Ok (tt, s1) else Throw "UNIQUE constraint failed: push_subscriptions.endpoint"
  else Throw "invalid push subscription lifecycle timestamps".
(** Only revoked rows that no job refers to can be deleted. *)
Definition delete_subscriptions (where_ : string -> PushSubscriptionRow -> bool) (s : push_tables) : result (nat * push_tables) :=
  let gone := filter (fun e => where_ e.1 e.2 = true) (subscriptions s) in
  if bool_decide (map_Forall (fun id x => is_Some (revoked_at x) /\ map_Forall (fun _ j => job_subscription j <> id) (jobs s)) gone)
  then Ok (size gone, { s with subscriptions := subscriptions s ∖ gone })
  else Throw "only unreferenced revoked push subscriptions can be deleted".
(** A category set off drops its jobs that nobody works on. *)
Definition set_preference (user k : string) (b : bool) (s : push_tables) : result (unit * push_tables) :=
  let off := match preferences s !! (user, k) with Some true | None => negb b | Some false => false end in
  let s1 := { s with preferences := <[(user, k) := b]> (preferences s) } in
  if off then
    r ← update_jobs (fun _ j => bool_decide (job_user j = user) && bool_decide (kind <$> events s1 !! job_event j = Some k) && droppable s1 j) cancels s1;
    mret (tt, snd r)
  else Ok (tt, s1).

(** ** The dispatcher *)

Abbreviation M := (Interleave.M push_tables).
Definition note (e : Event) (s : push_tables) : push_tables := { s with log := log s ++ [e] }.
Definition asks {A} (f : push_tables -> A) : M A := call (fun s => (f s, s)).
Definition or_throw {A} (r : result A) : M A := match r with Ok a => mret a | Throw e => throw e end.
(** A statement, or a transaction: it takes place as a whole or throws. *)
Definition statement {A} (f : push_tables -> result (A * push_tables)) : M A :=
  r ← call (fun s => if database (outside s) then match f s with Ok (a, s') => (Ok a, s') | Throw e => (Throw e, s) end
                     else (Throw "SQLITE_BUSY", s));
  or_throw r.
Definition drawn_id (n : nat) : string := "uuid-" ++ pretty n.
Definition generateId : M string := call (fun s => (drawn_id (drawn s), { s with drawn := S (drawn s) })).

Record WebPushDispatcherOptions := DispatcherOptions {
  o_intervalMs : option Z; o_batchSize : option Z; o_leaseMs : option Z; o_requestTimeoutMs : option Z; o_ttlSeconds : option Z; o_maxAttempts : option Z; o_retryBaseMs : option Z; o_retryCapMs : option Z;
}.
Record WebPushDispatcher := Dispatcher { intervalMs : Z; batchSize : Z; leaseMs : Z; requestTimeoutMs : Z; ttlSeconds : Z; maxAttempts : Z; retryBaseMs : Z; retryCapMs : Z }.
Definition DEFAULT_INTERVAL_MS : Z := 5000.
Definition DEFAULT_BATCH_SIZE : Z := 20.
Definition DEFAULT_SCAN_MULTIPLIER : Z := 20.
Definition DEFAULT_LEASE_MS : Z := 60000.
Definition DEFAULT_REQUEST_TIMEOUT_MS : Z := 15000.
Definition REQUEST_LEASE_SAFETY_MARGIN_MS : Z := 5000.
Definition DEFAULT_TTL_SECONDS : Z := 5 * 60.
Definition DEFAULT_MAX_ATTEMPTS : Z := 5.
Definition DEFAULT_RETRY_BASE_MS : Z := 30000.
Definition DEFAULT_RETRY_CAP_MS : Z := 15 * 60 * 1000.
Definition positiveInteger (value : option Z) (fallback : Z) (name : string) : result Z :=
  let resolved := default fallback value in
  if negb ((resolved <=? MAX_SAFE_INTEGER) && (- MAX_SAFE_INTEGER <=? resolved)) || (resolved <=? 0) then Throw (name ++ " must be a positive integer") else Ok resolved.
Definition construct (o : WebPushDispatcherOptions) : result WebPushDispatcher :=
  i ← positiveInteger (o_intervalMs o) DEFAULT_INTERVAL_MS "intervalMs";
  b ← positiveInteger (o_batchSize o) DEFAULT_BATCH_SIZE "batchSize";
  l ← positiveInteger (o_leaseMs o) DEFAULT_LEASE_MS "leaseMs";
  t ← positiveInteger (o_requestTimeoutMs o) DEFAULT_REQUEST_TIMEOUT_MS "requestTimeoutMs";
  ttl ← positiveInteger (o_ttlSeconds o) DEFAULT_TTL_SECONDS "ttlSeconds";
  m ← positiveInteger (o_maxAttempts o) DEFAULT_MAX_ATTEMPTS "maxAttempts";
  r ← positiveInteger (o_retryBaseMs o) DEFAULT_RETRY_BASE_MS "retryBaseMs";
  c ← positiveInteger (o_retryCapMs o) DEFAULT_RETRY_CAP_MS "retryCapMs";
  if c <? r then Throw "retryCapMs must be at least retryBaseMs"
  else if l <=? t then Throw "leaseMs must exceed requestTimeoutMs"
  else Ok (Dispatcher i b l t ttl m r c).

(** *** Outcomes *)

(** The instants that have a canonical text: the years 0 to 9999 *)
Definition FIRST_INSTANT : Z := - 62167219200000.
Definition LAST_INSTANT : Z := 253402300799999.
Definition normalizeISO8601Timestamp (t : Z) : result Z :=
  if 8640000000000000 <? Z.abs t then Throw "Expected a valid timestamp"
  else if (t <? FIRST_INSTANT) || (LAST_INSTANT <? t) then Throw "Expected a timestamp in the four-digit-year range"
  else Ok t.

Record AttemptOutcome := Outcome {
  o_status : PushDeliveryStatus; o_response : option Z; o_code : option string; o_message : option string; o_next : option Z; revokeSubscription : bool;
}.
Definition statusFromError (statusCode : option Z) : option Z :=
  match statusCode with Some c => if (100 <=? c) && (c <=? 599) then Some c else None | None => None end.
Definition isTransientStatus (st : option Z) : bool :=
  match st with None => true | Some c => (c =? 408) || (c =? 425) || (c =? 429) || ((500 <=? c) && (c <=? 599)) end.
Definition safeFailureSummary (st : option Z) (transient : bool) : string * string :=
  match st with
  | Some c => (("http_" ++ show c)%string, if transient then "Push provider returned a transient HTTP status" else "Push provider rejected the delivery request")
  | None => ("network_error", "Push delivery failed before a provider response was received")
  end.
Definition retry_delay (d : WebPushDispatcher) (attemptNumber : Z) : Z := Z.min (retryCapMs d) (retryBaseMs d * 2 ^ Z.min (attemptNumber - 1) 30).
Definition failureOutcome (d : WebPushDispatcher) (responseStatus : option Z) (attemptNumber attemptedAt : Z) : result AttemptOutcome :=
  let revoke := bool_decide (responseStatus = Some 404 \/ responseStatus = Some 410) in
  let transient := negb revoke && isTransientStatus responseStatus in
  let again := transient && (attemptNumber <? maxAttempts d) in
  let '(code, message) := safeFailureSummary responseStatus transient in
  next ← (if again then Some <$> normalizeISO8601Timestamp (attemptedAt + retry_delay d attemptNumber) else Ok None);
  mret (Outcome (if again then retryable else failed) responseStatus
    (Some (if again || negb transient then code else "retry_exhausted"))
    (Some (if again || negb transient then message else "Push delivery stopped after the retry limit was reached"))
    next revoke).
Definition payload_too_large : AttemptOutcome :=
  Outcome failed None (Some "payload_too_large") (Some "Safe push payload exceeded the delivery size limit") None false.
Definition delivered_outcome (c : Z) : AttemptOutcome := Outcome delivered (Some c) None None None false.
(** What [failureOutcome] throws on a response is caught as an error without a status. *)
Definition outcome_of (d : WebPushDispatcher) (r : push_reply) (attemptNumber attemptedAt : Z) : result AttemptOutcome :=
  match r with
  | answered c =>
      if (200 <=? c) && (c <=? 299) then Ok (delivered_outcome c)
      else match failureOutcome d (Some c) attemptNumber attemptedAt with Ok o => Ok o | Throw _ => failureOutcome d None attemptNumber attemptedAt end
  | rejected c => failureOutcome d (statusFromError c) attemptNumber attemptedAt
  end.

(** *** Recording *)

Definition is_subscription (l : Live) (id : string) (x : PushSubscriptionRow) : bool :=
  bool_decide (id = l_subscription l) && bool_decide (sub_user x = l_user l) && bool_decide (revoked_at x = None).
Definition is_live_version (l : Live) (id : string) (x : PushSubscriptionRow) : bool :=
  is_subscription l id x && bool_decide (endpoint x = l_endpoint l) && bool_decide (keys x = Some (l_keys l)) && bool_decide (updated_at x = l_updated_at l).
Definition outcome_row (l : Live) (attemptedAt : Z) (o : AttemptOutcome) : PushAttempt :=
  Attempt (o_status o) (o_response o) (o_code o) (o_message o) attemptedAt (o_next o) (l_token l) attemptedAt.
Definition record_tx (l : Live) (attemptedAt attemptNumber : Z) (o : AttemptOutcome) (s : push_tables) : result (unit * push_tables) :=
  r ← (if revokeSubscription o then update_subscriptions (is_live_version l) (fun x => { x with revoked_at := Some attemptedAt }) s
       else if bool_decide (o_status o = delivered) then update_subscriptions (is_subscription l) (fun x => { x with last_used_at := Some attemptedAt }) s
       else Ok (∅, s));
  r' ← insert_attempt (l_job l) attemptNumber (outcome_row l attemptedAt o) (snd r);
  mret (tt, note (recorded (l_job l) (l_token l) attemptNumber (o_status o)) (snd r')).
Definition recordOutcome (l : Live) (attemptedAt attemptNumber : Z) (o : AttemptOutcome) : M unit := statement (record_tx l attemptedAt attemptNumber o).

(** *** Quiet hours *)

Definition quietHourMinutes (value : string) : Z :=
  let parts := split_char (Ascii.ascii_of_nat 58) value in number_of_digits (default "" (parts !! 0%nat)) * 60 + number_of_digits (default "" (parts !! 1%nat)).
Definition in_interval (current start end_ : Z) : bool :=
  if start <? end_ then (start <=? current) && (current <? end_) else (start <=? current) || (current <? end_).
Section Dispatch.
(** [Intl.DateTimeFormat]: hour and minute of an instant in a time zone, unless it throws *)
Variable local_time : string -> Z -> option (Z * Z).
Definition isInNotificationQuietHours (at_ : Z) (start end_ timezone_ : option string) : bool :=
  match start, end_ with
  | Some a, Some b =>
      if bool_decide (a = b) then false
      else match local_time (default "UTC" timezone_) at_ with
           | Some (hour, minute) => in_interval (hour * 60 + minute) (quietHourMinutes a) (quietHourMinutes b)
           | None => true
           end
  | _, _ => false
  end.
Definition quiet_for (o : option PreferenceSettings) (at_ : Z) : bool :=
  isInNotificationQuietHours at_ (o ≫= quiet_hours_start) (o ≫= quiet_hours_end) (timezone <$> o).

(** [parsePushSubscriptionEndpoint] and [buildSafePayload]: any functions of the row *)
Variable parse_endpoint : string -> result string.
Variable safe_payload : Live -> option Z -> result string.
Variable d : WebPushDispatcher.

(** *** Claims *)

Record ClaimedJob := Claimed { c_job : string; c_token : string }.
Definition claims (token : string) (at_ lease : Z) (j : PushJob) : PushJob :=
  { j with status := processing; next_retry_at := None; claim_token := Some token; claimed_at := Some at_; lease_expires_at := Some lease }.
Definition claim (jobId : string) (at_ : Z) : M (option ClaimedJob) :=
  claimedAt ← or_throw (normalizeISO8601Timestamp at_);
  lease ← or_throw (normalizeISO8601Timestamp (at_ + leaseMs d));
  token ← generateId;
  rows ← statement (fun s => update_jobs (fun id j => bool_decide (id = jobId) && push_delivery_claimable_jobs s j) (claims token claimedAt lease) s);
  mret (match rows !! jobId with Some _ => Some (Claimed jobId token) | None => None end).
(** The joined row of a claim that still holds, at the instant [t] read by the process *)
Definition live_row (s : push_tables) (c : ClaimedJob) (t : Z) : option Live :=
  match jobs s !! c_job c with
  | Some j =>
      match recipients s !! (job_event j, job_user j), events s !! job_event j, subscription_of s j with
      | Some r, Some e, Some x =>
          match keys x with
          | Some ks =>
              if bool_decide (status j = processing) && bool_decide (claim_token j = Some (c_token c)) && push_enabled r
                 && default false (preferences s !! (job_user j, kind e)) && bool_decide (revoked_at x = None)
                 && match expires_at x with None => true | Some e => t <? e end
              then Some (LiveDelivery (c_job c) (job_event j) (job_user j) (job_subscription j) (attempt_count j) (c_token c) (endpoint x) ks (updated_at x)
                           (kind e) (severity e) (settings s !! job_user j))
              else None
          | None => None
          end
      | _, _, _ => None
      end
  | None => None
  end.
Definition liveDelivery (c : ClaimedJob) : M (option Live) :=
  now ← asks clock;
  t ← or_throw (normalizeISO8601Timestamp now);
  statement (fun s => Ok (live_row s c t, match live_row s c t with Some l => note (saw_live l) s | None => s end)).
Definition request_lease (at_ : Z) : Z := at_ + Z.max (leaseMs d) (requestTimeoutMs d + REQUEST_LEASE_SAFETY_MARGIN_MS).
Definition renew_tx (l : Live) (at_ lease : Z) (s : push_tables) : result (bool * push_tables) :=
  r ← update_jobs (fun id j => bool_decide (id = l_job l) && bool_decide (status j = processing) && bool_decide (claim_token j = Some (l_token l))
                               && lt_ (Some at_) (lease_expires_at j))
        (fun j => { j with lease_expires_at := Some lease }) s;
  match fst r !! l_job l with
  | Some _ => mret (true, note (renewed (l_job l) (l_token l) at_ lease) (snd r))
  | None => mret (false, snd r)
  end.
Definition renewClaimForRequest (l : Live) (at_ : Z) : M bool :=
  renewedAt ← or_throw (normalizeISO8601Timestamp at_);
  lease ← or_throw (normalizeISO8601Timestamp (request_lease at_));
  statement (renew_tx l renewedAt lease).
Definition unreadCount (userId : string) : M Z :=
  statement (fun s => Ok (Z.of_nat (size (filter (fun e => e.1.2 = userId /\ inbox_enabled e.2 = true /\ read_at e.2 = None /\ dismissed_at e.2 = None) (recipients s))), s)).

(** *** Delivery *)

Definition prepared (l : Live) : M (string * string) :=
  ep ← or_throw (parse_endpoint (l_endpoint l));
  unread ← (if match l_settings l with Some o => badge_enabled o | None => true end then n ← unreadCount (l_user l); mret (Some n) else mret None);
  payload ← or_throw (safe_payload l unread);
  mret (ep, payload).
Definition sendNotification (l : Live) (number : Z) (ep payload : string) : M push_reply :=
  call (fun s => (provider (outside s) ep payload, note (sent (l_job l) (l_token l) number ep) s)).
Definition send_request (l : Live) (ep payload : string) : M unit :=
  let number := l_attempt_count l + 1 in
  at_ ← asks clock;
  ours ← renewClaimForRequest l at_;
  if negb ours then mret tt
  else
    attemptedAt ← or_throw (normalizeISO8601Timestamp at_);
    r ← sendNotification l number ep payload;
    o ← or_throw (outcome_of d r number at_);
    recordOutcome l attemptedAt number o.
Definition deliver (c : ClaimedJob) : M unit :=
  live ← liveDelivery c;
  match live with
  | None => mret tt
  | Some l =>
      checkedAt ← asks clock;
      if quiet_for (l_settings l) checkedAt then mret tt
      else
        p ← catch (x ← prepared l; mret (Ok x)) (fun e => mret (Throw e));
        match p with
        | Ok (ep, payload) => send_request l ep payload
        | Throw e =>
            let number := l_attempt_count l + 1 in
            attemptedAt ← or_throw (normalizeISO8601Timestamp checkedAt);
            o ← or_throw (if bool_decide (e = "safe_payload_too_large") then Ok payload_too_large else failureOutcome d None number checkedAt);
            recordOutcome l attemptedAt number o
        end
  end.

(** *** A batch *)

Definition claimable_at (j : PushJob) : Z := if bool_decide (status j = retryable) then default 0 (next_retry_at j) else created_at j.
Record Candidate := CandidateRow { cand_job : string; cand_at : Z; cand_settings : option PreferenceSettings }.
Definition earlier (a b : Z * string) : bool := (a.1 <? b.1) || ((a.1 =? b.1) && code_le a.2 b.2).
Definition after_cursor (cursor : option (Z * string)) (c : Candidate) : bool :=
  match cursor with Some k => negb (earlier (cand_at c, cand_job c) k) | None => true end.
Definition scanSize : nat := Z.to_nat (batchSize d * DEFAULT_SCAN_MULTIPLIER).
Definition candidates_of (cursor : option (Z * string)) (s : push_tables) : list Candidate :=
  list.take scanSize (sort_by (fun a b => earlier (cand_at a, cand_job a) (cand_at b, cand_job b))
    (filter (fun c => after_cursor cursor c = true)
      ((fun e => CandidateRow e.1 (claimable_at e.2) (settings s !! job_user e.2)) <$> map_to_list (filter (fun e => push_delivery_claimable_jobs s e.2 = true) (jobs s))))).
Definition cancelIneligibleJobs : M unit :=
  ids ← statement (fun s => Ok (list.take scanSize (map_to_list (filter (fun e => push_delivery_jobs_requiring_cancellation s e.2 = true) (jobs s))).*1, s));
  match ids with
  | [] => mret tt
  | _ => _ ← statement (update_jobs (fun id _ => bool_decide (id ∈ ids)) cancels); mret tt
  end.
(** Candidates in order, until the batch is full *)
Fixpoint offer (delivered_ : Z) (l : list Candidate) : M Z :=
  match l with
  | [] => mret delivered_
  | c :: l =>
      if batchSize d <=? delivered_ then mret delivered_
      else
        now ← asks clock;
        if quiet_for (cand_settings c) now then offer delivered_ l
        else
          claimed ← claim (cand_job c) now;
          match claimed with None => offer delivered_ l | Some j => _ ← deliver j; offer (delivered_ + 1) l end
  end.
(** [None] where the pages given run out *)
Fixpoint dispatch_pages (fuel : nat) (cursor : option (Z * string)) (delivered_ : Z) : M (option Z) :=
  if batchSize d <=? delivered_ then mret (Some delivered_)
  else
    match fuel with
    | O => mret None
    | S fuel =>
        l ← statement (fun s => Ok (candidates_of cursor s, s));
        match last l with
        | None => mret (Some delivered_)
        | Some c =>
            n ← offer delivered_ l;
            if (length l <? scanSize)%nat then mret (Some n) else dispatch_pages fuel (Some (cand_at c, cand_job c)) n
        end
    end.
Definition dispatchBatch (fuel : nat) : M (option Z) := _ ← cancelIneligibleJobs; dispatch_pages fuel None 0.
Definition runOnce (fuel : nat) : M (option Z) := catch (dispatchBatch fuel) (fun _ => mret (Some 0)).
End Dispatch.
