(* ===== verification/PushProps.v ===== *)
(** * Web push: the audit trail, the lease and the outcome of a delivery

    What the schema and the dispatcher of Push.v promise while any other process runs any
    statements the schema lets through: the invariant of the tables and every statement of
    the dispatcher, the claim behind a request, the outcome that settles a job, and concrete
    deliveries. *)

From stdpp Require Import relations.
From S2P Require Import Prelude JsString Interleave Push.

Open Scope string_scope.
Open Scope Z_scope.
Open Scope list_scope.

(** ** What a statement can do *)

(** One statement; [allowed] are the attempts that may be inserted. *)
Inductive db_step (allowed : Z -> PushAttempt -> Prop) (s : push_tables) : push_tables -> Prop :=
  | st_jobs where_ set h s' : update_jobs where_ set s = Ok (h, s') -> db_step allowed s s'
  | st_attempt id n a s' : allowed n a -> insert_attempt id n a s = Ok (tt, s') -> db_step allowed s s'
  | st_job id j s' : insert_job id j s = Ok (tt, s') -> db_step allowed s s'
  | st_subscriptions where_ set h s' : update_subscriptions where_ set s = Ok (h, s') -> db_step allowed s s'
  | st_enrolled id x s' : insert_subscription id x s = Ok (tt, s') -> db_step allowed s s'
  | st_deleted where_ n s' : delete_subscriptions where_ s = Ok (n, s') -> db_step allowed s s'
  | st_preference user k b s' : set_preference user k b s = Ok (tt, s') -> db_step allowed s s'
  | st_preferences m : db_step allowed s { s with preferences := m }
  | st_recipients m : db_step allowed s { s with recipients := m }
  | st_events m : db_step allowed s { s with events := m }
  | st_settings m : db_step allowed s { s with settings := m }
  | st_time t : clock s <= t -> db_step allowed s { s with clock := t }
  | st_drawn n : db_step allowed s { s with drawn := n }
  | st_outside o : db_step allowed s { s with outside := o }.
(** Other processes run any statements, in transactions or not; [log] is this process's. *)
Definition others_do (allowed : Z -> PushAttempt -> Prop) (f : push_tables -> push_tables) : Prop := forall s, rtc (db_step allowed) s (f s) /\ log (f s) = log s.

Lemma jobs_with m s : jobs { s with jobs := m } = m.
Proof. done. Qed.
Lemma update_jobs_inv where_ set s h s' : update_jobs where_ set s = Ok (h, s') ->
  s' = { s with jobs := h ∪ jobs s } /\ h = hit where_ set (jobs s)
  /\ (forall id j, jobs s !! id = Some j -> where_ id j = true -> job_update_allowed s id j (set j) = true).
Proof.
  unfold update_jobs. case_bool_decide as H; [|done]. intros [= <- <-]. split_and!; [done..|]. intros id j Hj. by apply (H id j).
Qed.
Lemma hit_lookup {A} (where_ : string -> A -> bool) set (m : gmap string A) id :
  (hit where_ set m ∪ m) !! id = (fun x => if where_ id x then set x else x) <$> m !! id.
Proof.
  unfold hit. rewrite lookup_union, map_lookup_imap. destruct (m !! id) as [x|]; [|done]. cbn. by destruct (where_ id x).
Qed.
Lemma hit_some {A} (where_ : string -> A -> bool) set (m : gmap string A) id y : hit where_ set m !! id = Some y ->
  exists x, m !! id = Some x /\ where_ id x = true /\ y = set x /\ (hit where_ set m ∪ m) !! id = Some y.
Proof.
  intros H. assert (Hu : (hit where_ set m ∪ m) !! id = Some y) by by apply lookup_union_Some_l. unfold hit in H. rewrite map_lookup_imap in H.
  destruct (m !! id) as [x|]; [|done]. cbn in H. destruct (where_ id x) eqn:E; [|done]. injection H as <-. by exists x.
Qed.
(** What may become of the row of a job *)
Definition kept_job (s : push_tables) (id : string) (j j' : PushJob) : Prop := j' = j \/ job_update_allowed s id j j' = true.
Lemma updated_job where_ set s h s' id j : update_jobs where_ set s = Ok (h, s') -> jobs s !! id = Some j ->
  exists j', jobs s' !! id = Some j' /\ kept_job s id j j'.
Proof.
  intros (-> & -> & H)%update_jobs_inv Hj. eexists. rewrite jobs_with, hit_lookup, Hj. split; [done|]. destruct (where_ id j) eqn:Ew; [right; by apply H|by left].
Qed.
Lemma updated_from where_ set s h s' id j' : update_jobs where_ set s = Ok (h, s') -> jobs s' !! id = Some j' ->
  exists j, jobs s !! id = Some j /\ kept_job s id j j'.
Proof.
  intros (-> & -> & H)%update_jobs_inv. rewrite jobs_with, hit_lookup. destruct (jobs s !! id) as [j|] eqn:Hj; cbn; [|done]. intros [= <-].
  exists j. split; [done|]. destruct (where_ id j) eqn:Ew; [right; by apply H|by left].
Qed.

(** ** The audit trail *)

(** The attempts of a job are numbered up to its count, every one but the last was to be
    retried, and the last says what became of the job. *)
Record trail_of (s : push_tables) (id : string) (j : PushJob) : Prop := Trail {
  trail_numbers : forall n, is_Some (attempts s !! (id, n)) <-> 1 <= n <= attempt_count j;
  trail_earlier : forall n a, attempts s !! (id, n) = Some a -> n < attempt_count j -> a_status a = retryable;
  trail_last : forall a, attempts s !! (id, attempt_count j) = Some a -> a_status a = match status j with delivered => delivered | failed => failed | _ => retryable end;
  trail_retry : status j = retryable -> exists a, attempts s !! (id, attempt_count j) = Some a /\ a_next_retry_at a = next_retry_at j;
  trail_ended : status j ∈ [delivered; failed] -> 0 < attempt_count j;
  trail_count : 0 <= attempt_count j;
}.
Definition audited (s : push_tables) : Prop := (forall id j, jobs s !! id = Some j -> trail_of s id j) /\ (forall id n a, attempts s !! (id, n) = Some a -> is_Some (jobs s !! id)).
Lemma trail_next s id j : trail_of s id j -> attempts s !! (id, attempt_count j + 1) = None.
Proof.
  intros H. apply eq_None_not_Some. rewrite (trail_numbers _ _ _ H). lia.
Qed.
Lemma allowed_inv s id j j' : job_update_allowed s id j j' = true ->
  same_identity j j' = true /\ valid_transition s id j j' = true /\ (claims_anew j j' = true -> eligible s j' = true) /\ state_check j' = true.
Proof.
  unfold job_update_allowed. rewrite !andb_true_iff, orb_true_iff, negb_true_iff. intros [[[Hi Hv] H] Hc]. split_and!; [done..| |done]. intros E. destruct H as [H|H]; [congruence|done].
Qed.
(** Where no attempt is recorded beyond the count, a transition keeps it. *)
Inductive moves (s : push_tables) (j j' : PushJob) : Prop :=
  | m_same : status j' = status j -> same_claim j j' = true -> lease_expires_at j' = lease_expires_at j -> moves s j j'
  | m_claimed : status j ∈ [pending; retryable] -> status j' = processing -> attempt_count j' = attempt_count j -> moves s j j'
  | m_renewed : status j = processing -> status j' = processing -> same_claim j j' = true -> lt_ (Some (clock s)) (lease_expires_at j) = true ->
      lt_ (lease_expires_at j) (lease_expires_at j') = true -> moves s j j'
  | m_taken : status j = processing -> status j' = processing -> attempt_count j' = attempt_count j -> le_ (lease_expires_at j) (Some (clock s)) = true -> moves s j j'
  | m_dropped : status j ∈ [pending; retryable] -> status j' = cancelled -> attempt_count j' = attempt_count j -> moves s j j'
  | m_expired : status j = processing -> status j' = cancelled -> attempt_count j' = attempt_count j -> le_ (lease_expires_at j) (Some (clock s)) = true -> moves s j j'.
Lemma transition_moves s id j j' : attempts s !! (id, attempt_count j + 1) = None -> valid_transition s id j j' = true -> moves s j j'.
Proof.
  intros Hn. unfold valid_transition, explained, dropped_retry. rewrite !orb_true_iff, !andb_true_iff, !bool_decide_eq_true. intros H.
  destruct H as [[[[[[[H|H]|H]|H]|H]|H]|H]|H]; destruct_and! H.
  - by apply m_same.
  - apply m_claimed; [done|by apply list_elem_of_singleton|done].
  - apply m_renewed; [by apply list_elem_of_singleton|by apply list_elem_of_singleton|done..].
  - apply m_taken; [by apply list_elem_of_singleton|by apply list_elem_of_singleton|done..].
  - by match goal with E : attempt_count j' = _, X : _ |- _ => rewrite E, Hn in X end.
  - apply m_dropped; [done|by apply list_elem_of_singleton|done].
  - apply m_expired; [by apply list_elem_of_singleton|by apply list_elem_of_singleton|done..].
  - by match goal with E : attempt_count j' = _, X : _ |- _ => rewrite E, Hn in X end.
Qed.
Lemma trail_same s s' id j : (forall n, attempts s' !! (id, n) = attempts s !! (id, n)) -> trail_of s id j -> trail_of s' id j.
Proof. intros E []. split; try done; setoid_rewrite E; done. Qed.
Lemma trail_ext s s' id j : attempts s' = attempts s -> trail_of s id j -> trail_of s' id j.
Proof. intros E. apply trail_same. by rewrite E. Qed.
Lemma audited_ext s s' : jobs s' = jobs s -> attempts s' = attempts s -> audited s -> audited s'.
Proof. intros Ej Ea [H1 H2]. split; rewrite ?Ej, ?Ea; [|done]. intros id j Hj. by eapply trail_ext, H1. Qed.
Lemma same_claim_inv j j' : same_claim j j' = true -> attempt_count j' = attempt_count j /\ next_retry_at j' = next_retry_at j /\ claim_token j' = claim_token j /\ claimed_at j' = claimed_at j.
Proof. unfold same_claim. rewrite !andb_true_iff, !bool_decide_eq_true. tauto. Qed.
Lemma trail_kept s id j j' : trail_of s id j -> job_update_allowed s id j j' = true -> trail_of s id j'.
Proof.
  intros H (_ & Hv & _ & _)%allowed_inv. pose proof (trail_next _ _ _ H) as Hn. apply transition_moves in Hv; [|done].
  assert (Hc : attempt_count j' = attempt_count j) by (destruct Hv as [_ Hc _|? ? ?|_ _ Hc _ _|? ? ?|? ? ?|? ? ?]; try done; apply (same_claim_inv _ _ Hc)).
  assert (Hl : forall a, attempts s !! (id, attempt_count j) = Some a -> (status j' = status j /\ next_retry_at j' = next_retry_at j) \/ (status j' ∈ [processing; cancelled] /\ a_status a = retryable)).
  { intros a Ha. pose proof (trail_last _ _ _ H a Ha) as Hs. destruct Hv as [Es Hs'|Hj ->|Hj -> _|Hj -> _|Hj -> _|Hj -> _].
    - left. split; [done|]. apply (same_claim_inv _ _ Hs').
    - right. split; [set_solver|]. rewrite Hs. apply elem_of_cons in Hj as [->|Hj%list_elem_of_singleton]; [done|by rewrite Hj].
    - right. split; [set_solver|]. by rewrite Hs, Hj.
    - right. split; [set_solver|]. by rewrite Hs, Hj.
    - right. split; [set_solver|]. rewrite Hs. apply elem_of_cons in Hj as [->|Hj%list_elem_of_singleton]; [done|by rewrite Hj].
    - right. split; [set_solver|]. by rewrite Hs, Hj. }
  destruct H as [Hnum He Hla Hre Hen Hco]. split; rewrite ?Hc; [done|done| | | |done].
  - intros a Ha. rewrite (Hla a Ha). destruct (Hl a Ha) as [[-> _]|[Hs Hr]]; [done|]. rewrite (Hla a Ha) in Hr. rewrite Hr.
    apply elem_of_cons in Hs as [->|Hs%list_elem_of_singleton]; [done|by rewrite Hs].
  - intros Hr. destruct Hv as [Es Hs'|Hj Es|Hj Es|Hj Es|Hj Es|Hj Es]; try congruence. rewrite Es in Hr. destruct (Hre Hr) as (a & Ha & Hx). exists a. split; [done|]. apply same_claim_inv in Hs'. destruct Hs' as (_ & -> & _). done.
  - intros Hd. destruct Hv as [Es Hs'|Hj Es|Hj Es|Hj Es|Hj Es|Hj Es]; rewrite Es in Hd; [by apply Hen|set_solver..].
Qed.
Lemma audited_jobs where_ set s h s' : update_jobs where_ set s = Ok (h, s') -> audited s -> audited s'.
Proof.
  intros H [Ha Hb]. destruct (update_jobs_inv _ _ _ _ _ H) as (E & _ & _). assert (Ea : attempts s' = attempts s) by by rewrite E. split.
  - intros id j' Hj'. destruct (updated_from _ _ _ _ _ _ _ H Hj') as (j & Hj & [->|Hk]); (eapply trail_ext; [exact Ea|]); [by apply Ha|]. eapply trail_kept; [by apply Ha|done].
  - intros id n a Hn. rewrite Ea in Hn. destruct (Hb id n a Hn) as [j Hj]. by destruct (updated_job _ _ _ _ _ _ _ H Hj) as (j' & ? & _).
Qed.
(** A job that is released with an outcome *)
Lemma released_count st c next j : attempt_count (released st c next j) = c. Proof. done. Qed.
Lemma released_status st c next j : status (released st c next j) = st. Proof. done. Qed.
Lemma released_next st c next j : next_retry_at (released st c next j) = next. Proof. done. Qed.
Lemma released_trail s s1 id j n a st : trail_of s id j -> n = attempt_count j + 1 -> attempts s1 = <[(id, n) := a]> (attempts s) ->
  (forall b, attempts s !! (id, attempt_count j) = Some b -> a_status b = retryable) -> a_status a ∈ [delivered; retryable; failed] ->
  st = a_status a \/ st = cancelled /\ a_status a = retryable -> trail_of s1 id (released st n (if bool_decide (st = cancelled) then None else a_next_retry_at a) j).
Proof.
  intros [Hnum He Hla Hre Hen Hco] -> Ea Hlast Hst Hs. split; rewrite ?released_count, ?released_status, ?released_next.
  - intros m. rewrite Ea. destruct (decide (m = attempt_count j + 1)) as [->|Hne].
    + rewrite lookup_insert_eq. split; [intros _; lia|by exists a].
    + rewrite lookup_insert_ne by congruence. rewrite Hnum. lia.
  - intros m b. rewrite Ea. destruct (decide (m = attempt_count j + 1)) as [->|Hne]; [lia|]. rewrite lookup_insert_ne by congruence. intros Hb Hm.
    destruct (decide (m = attempt_count j)) as [->|]; [by apply Hlast|]. apply (He m b Hb). assert (1 <= m <= attempt_count j) by (apply Hnum; by exists b). lia.
  - intros b. rewrite Ea, lookup_insert_eq. intros [= <-]. destruct Hs as [->|[-> ->]]; [|done].
    repeat (apply elem_of_cons in Hst as [Hst|Hst]; [by rewrite Hst|]). by apply not_elem_of_nil in Hst.
  - intros ->. exists a. by rewrite Ea, lookup_insert_eq.
  - intros _. lia.
  - lia.
Qed.
Lemma bind_ok {A B} (r : result A) (f : A -> result B) b : r ≫= f = Ok b -> exists a, r = Ok a /\ f a = Ok b.
Proof. destruct r as [a|]; [|done]. by exists a. Qed.
Lemma insert_attempt_inv id n a s s' : insert_attempt id n a s = Ok (tt, s') -> exists j h,
  jobs s !! id = Some j /\ valid_claim n a j = true /\ attempt_check n a = true /\ a_created_at a <= clock s /\ attempts s !! (id, n) = None
  /\ let s1 := { s with attempts := <[(id, n) := a]> (attempts s) } in
     update_jobs (fun id' j => bool_decide (id' = id) && bool_decide (status j = processing) && bool_decide (claim_token j = Some (a_claim_token a))) (applies s1 n a) s1 = Ok (h, s').
Proof.
  unfold insert_attempt. destruct (jobs s !! id) as [j|]; [|done]. destruct (_ && _ && _ && _) eqn:E; [|done]. rewrite !andb_true_iff, bool_decide_eq_true, Z.leb_le in E.
  destruct E as [[[Hv Hc] Hk] Hn]. intros ([h s2] & Hu & [= <-])%bind_ok. exists j, h. by split_and!.
Qed.
Lemma check_status n a : attempt_check n a = true -> a_status a ∈ [delivered; retryable; failed].
Proof. unfold attempt_check. rewrite andb_true_iff. intros [_ H]. destruct (a_status a); try done; set_solver. Qed.
Lemma audited_attempt id n a s s' : insert_attempt id n a s = Ok (tt, s') -> audited s -> audited s'.
Proof.
  intros (j & h & Hj & Hv & Hk%check_status & _ & Hn & Hu)%insert_attempt_inv [Ha Hb]. cbn zeta in Hu. set (s1 := { s with attempts := _ }) in *.
  destruct (update_jobs_inv _ _ _ _ _ Hu) as (E & Eh & _). assert (Ea : attempts s' = <[(id, n) := a]> (attempts s)) by by rewrite E.
  unfold valid_claim in Hv. rewrite !andb_true_iff, !bool_decide_eq_true in Hv. destruct Hv as [[[Hst Htok] Hnum] _].
  assert (Hlook : forall id', jobs s' !! id' = (fun x => if bool_decide (id' = id) && bool_decide (status x = processing) && bool_decide (claim_token x = Some (a_claim_token a)) then applies s1 n a x else x) <$> jobs s !! id').
  { intros id'. rewrite E, jobs_with, Eh, hit_lookup. done. }
  split.
  - intros id' j' Hj'. rewrite Hlook in Hj'. destruct (decide (id' = id)) as [->|Hne].
    + rewrite Hj in Hj'. cbn in Hj'. rewrite !bool_decide_eq_true_2 in Hj' by done. injection Hj' as <-. unfold applies.
      assert (Hlast : forall b, attempts s !! (id, attempt_count j) = Some b -> a_status b = retryable) by (intros b Hb'; rewrite (trail_last _ _ _ (Ha id j Hj) b Hb'); by rewrite Hst).
      destruct (_ && _) eqn:Er.
      * apply andb_true_iff in Er as [Er%bool_decide_eq_true _]. apply (released_trail s s' id j n a cancelled (Ha id j Hj) Hnum Ea Hlast Hk). by right.
      * pose proof (released_trail s s' id j n a (a_status a) (Ha id j Hj) Hnum Ea Hlast Hk (or_introl eq_refl)) as Ht.
        rewrite bool_decide_eq_false_2 in Ht; [exact Ht|]. intros Hc. rewrite Hc in Hk. set_solver.
    + destruct (jobs s !! id') as [x|] eqn:Ex; [|done]. cbn in Hj'. rewrite (bool_decide_eq_false_2 (id' = id)) in Hj' by done. injection Hj' as <-.
      apply (trail_same s); [|by apply Ha]. intros m. rewrite Ea. apply lookup_insert_ne. congruence.
  - intros id' m b. rewrite Ea. destruct (decide ((id', m) = (id, n))) as [[= -> ->]|Hne].
    + intros _. rewrite Hlook, Hj. by eexists.
    + rewrite lookup_insert_ne by done. intros Hb'. destruct (Hb _ _ _ Hb') as [x Hx]. rewrite Hlook, Hx. by eexists.
Qed.
(** Every other statement leaves the attempts, and the jobs but for drops. *)
Lemma insert_job_inv id j s s' : insert_job id j s = Ok (tt, s') -> s' = s \/ status j = pending /\ attempt_count j = 0 /\ jobs s !! id = None /\ s' = { s with jobs := <[id := j]> (jobs s) }.
Proof.
  unfold insert_job. case_bool_decide as H; [intros [= <-]; by left|]. destruct (_ && _) eqn:E; [|done]. intros [= <-]. rewrite !andb_true_iff, !bool_decide_eq_true, Z.eqb_eq in E. right. by destruct_and! E.
Qed.
Lemma audited_job id j s s' : insert_job id j s = Ok (tt, s') -> audited s -> audited s'.
Proof.
  intros [->|(Hs & Hc & Hn & ->)]%insert_job_inv; [done|]. intros [Ha Hb].
  assert (Hnone : forall n, attempts s !! (id, n) = None) by (intros n; apply eq_None_not_Some; intros [a Hx]; destruct (Hb _ _ _ Hx); congruence). split.
  - intros id' j'. rewrite jobs_with. destruct (decide (id' = id)) as [->|Hne]; [|rewrite lookup_insert_ne by done; intros Hj; by apply (trail_ext s), Ha].
    rewrite lookup_insert_eq. intros [= <-]. apply (trail_ext s); [done|]. split; rewrite ?Hs, ?Hc; try done.
    + intros n. rewrite Hnone. split; [by intros []|lia].
    + intros n a. by rewrite Hnone.
    + intros a. by rewrite Hnone.
    + set_solver.
  - intros id' n a Hx. rewrite jobs_with. destruct (decide (id' = id)) as [->|]; [rewrite lookup_insert_eq|rewrite lookup_insert_ne by done]; [by eexists|by eapply Hb].
Qed.
(** What is left when a statement on another table ends *)
Definition drops (s s' : push_tables) : Prop := attempts s' = attempts s /\ (jobs s' = jobs s \/ exists s1 where_ set h, clock s1 = clock s /\ jobs s1 = jobs s /\ attempts s1 = attempts s /\ update_jobs where_ set s1 = Ok (h, s')).
Lemma drops_here s s' : jobs s' = jobs s -> attempts s' = attempts s -> drops s s'.
Proof. intros Hj Ha. split; [done|by left]. Qed.
Lemma drops_then s s1 where_ set h s' : clock s1 = clock s -> jobs s1 = jobs s -> attempts s1 = attempts s -> update_jobs where_ set s1 = Ok (h, s') -> drops s s'.
Proof. intros Hc Hj Ha H. split; [|right; by exists s1, where_, set, h]. destruct (update_jobs_inv _ _ _ _ _ H) as (-> & _). exact Ha. Qed.
Lemma update_subscriptions_drops where_ set s h s' : update_subscriptions where_ set s = Ok (h, s') -> drops s s'.
Proof.
  unfold update_subscriptions. case_bool_decide as H1; [|done]. case_bool_decide as H2; [|done].
  intros ([h' s2] & Hu & [= <- <-])%bind_ok. by eapply drops_then; [| | |exact Hu].
Qed.
Lemma insert_subscription_drops id x s s' : insert_subscription id x s = Ok (tt, s') -> drops s s'.
Proof. unfold insert_subscription. destruct (_ && _); [|done]. case_bool_decide; [|done]. intros [= <-]. by apply drops_here. Qed.
Lemma delete_subscriptions_drops where_ n s s' : delete_subscriptions where_ s = Ok (n, s') -> drops s s'.
Proof. unfold delete_subscriptions. case_bool_decide; [|done]. intros [= _ <-]. by apply drops_here. Qed.
Lemma set_preference_drops user k b s s' : set_preference user k b s = Ok (tt, s') -> drops s s'.
Proof.
  unfold set_preference. destruct (match preferences s !! (user, k) with Some true | None => negb b | Some false => false end); [|intros [= <-]; by apply drops_here].
  intros ([h s2] & Hu & [= <-])%bind_ok. by eapply drops_then; [| | |exact Hu].
Qed.
Lemma audited_drops s s' : drops s s' -> audited s -> audited s'.
Proof.
  intros [Ha [Hj|(s1 & w & set & h & _ & Hj & Ha1 & Hu)]] H; [by eapply audited_ext|]. eapply audited_jobs; [exact Hu|]. by eapply audited_ext.
Qed.
(** *** The stored subscriptions *)

Lemma unique_kept (m m' : gmap string PushSubscriptionRow) : unique_endpoints m ->
  (forall id y, m' !! id = Some y -> revoked_at y = None -> exists x, m !! id = Some x /\ revoked_at x = None /\ endpoint y = endpoint x) -> unique_endpoints m'.
Proof.
  intros Hu H id y Hy Hr id' y' Hy' Hr' He. destruct (H _ _ Hy Hr) as (x & Hx & Hrx & Ex). destruct (H _ _ Hy' Hr') as (x' & Hx' & Hrx' & Ex').
  apply (Hu id x Hx Hrx id' x' Hx' Hrx'). congruence.
Qed.
Lemma touched_revoked s x y : revoked_at (touched_subscription s x y) = revoked_at y.
Proof. unfold touched_subscription. by destruct (revoked_at x), (revoked_at y) eqn:E. Qed.
Lemma touched_endpoint s x y : endpoint (touched_subscription s x y) = endpoint y.
Proof. unfold touched_subscription. by destruct (revoked_at x), (revoked_at y) eqn:E. Qed.
(** What the table's checks say of a row that is not revoked *)
Definition row_stored (x : PushSubscriptionRow) : Prop := revoked_at x = None ->
  is_Some (keys x) /\ match expires_at x with Some e => sub_created_at x <= e | None => True end
  /\ match last_used_at x with Some u => sub_created_at x <= u <= updated_at x | None => True end.
Definition stored (s : push_tables) : Prop := unique_endpoints (subscriptions s) /\ map_Forall (fun _ x => row_stored x) (subscriptions s).
Lemma touched_stored s x y : subscription_update_allowed s x y = true -> row_stored (touched_subscription s x y).
Proof.
  intros H Hr. rewrite touched_revoked in Hr. assert (E : touched_subscription s x y = { y with updated_at := managed s x }) by (unfold touched_subscription; rewrite Hr; by destruct (revoked_at x)). rewrite E.
  unfold subscription_update_allowed in H. rewrite Hr in H. assert (Hk : is_Some (keys y)) by (destruct (revoked_at x); rewrite !andb_true_iff, !bool_decide_eq_true in H; by destruct_and! H).
  rewrite !andb_true_iff in H. destruct H as [[[_ Hl] _] He]. split; [exact Hk|]. split.
  - change (match expires_at y with Some e => sub_created_at y <= e | None => True end). revert He. destruct (expires_at y); [lia|done].
  - change (match last_used_at y with Some u => sub_created_at y <= u <= managed s x | None => True end). revert Hl. unfold within_life. destruct (last_used_at y); [|done]. rewrite andb_true_iff. lia.
Qed.
Lemma stored_update where_ set s h s' : update_subscriptions where_ set s = Ok (h, s') -> stored s -> stored s'.
Proof.
  unfold update_subscriptions. case_bool_decide as Hok; [|done]. case_bool_decide as Hu; [|done]. intros ([h' s2] & H & [= _ <-])%bind_ok [_ Hs]. cbn [snd].
  destruct (update_jobs_inv _ _ _ _ _ H) as (-> & _). split; [exact Hu|]. intros id y Hy. change (((hit where_ (fun x => touched_subscription s x (set x)) (subscriptions s)) ∪ subscriptions s) !! id = Some y) in Hy.
  rewrite hit_lookup in Hy. destruct (subscriptions s !! id) as [x|] eqn:Hx; [|done]. cbn -[touched_subscription] in Hy. destruct (where_ id x) eqn:Ew; injection Hy as <-; [apply touched_stored; by apply (Hok id)|by apply (Hs id)].
Qed.
Lemma stored_insert id x s s' : insert_subscription id x s = Ok (tt, s') -> stored s -> stored s'.
Proof.
  unfold insert_subscription. intros H [_ Hs]. destruct (_ && _) eqn:E in H; [|done]. case_bool_decide as Hu; [|done]. injection H as <-. split; [exact Hu|].
  apply map_Forall_insert_2; [|done]. unfold enrolled. destruct (bool_decide (is_Some (revoked_at x)) && bool_decide (is_Some (keys x))) eqn:Er.
  { apply andb_true_iff in Er as [Er%bool_decide_eq_true _]. intros Hr. change (revoked_at x = None) in Hr. rewrite Hr in Er. by destruct Er. }
  intros Hr. apply andb_true_iff in E as [_ E]. unfold insertable, between in E. rewrite Hr, (bool_decide_eq_false_2 (is_Some None)), !andb_true_iff in E by (by intros []). destruct E as [[[[_ Hl] _] Hk] He].
  cbn [orb] in Hk. apply andb_true_iff in Hk as [_ Hk%bool_decide_eq_true]. split; [done|]. split; [by destruct (expires_at x); [lia|]|]. destruct (last_used_at x); [|done]. rewrite andb_true_iff in Hl. lia.
Qed.
Lemma stored_delete where_ n s s' : delete_subscriptions where_ s = Ok (n, s') -> stored s -> stored s'.
Proof.
  unfold delete_subscriptions. case_bool_decide; [|done]. intros [= _ <-] [Hu Hs].
  assert (Hsub : forall id y, (subscriptions s ∖ filter (fun e => where_ e.1 e.2 = true) (subscriptions s)) !! id = Some y -> subscriptions s !! id = Some y) by (intros id y Hy; by apply lookup_difference_Some in Hy as [? _]).
  split; [apply (unique_kept (subscriptions s)); [done|]; intros id y Hy Hr; exists y; split; [by apply Hsub|done]|]. intros id y Hy. by apply (Hs id), Hsub.
Qed.
Lemma stored_same s s' : subscriptions s' = subscriptions s -> stored s -> stored s'.
Proof. unfold stored. by intros ->. Qed.
Lemma step_stored allowed s s' : db_step allowed s s' -> stored s -> stored s'.
Proof.
  intros H. destruct H as [w set h s' H|id n a s' Hb H|id j s' H|w set h s' H|id x s' H|w n s' H|u k b s' H|x|x|x|x|t _|n|o]; try by apply stored_same.
  - apply stored_same. by destruct (update_jobs_inv _ _ _ _ _ H) as (-> & _).
  - apply stored_same. destruct (insert_attempt_inv _ _ _ _ _ H) as (j & h & _ & _ & _ & _ & _ & Hu). by destruct (update_jobs_inv _ _ _ _ _ Hu) as (-> & _).
  - apply stored_same. by destruct (insert_job_inv _ _ _ _ H) as [->|(_ & _ & _ & ->)].
  - by eapply stored_update.
  - by eapply stored_insert.
  - by eapply stored_delete.
  - apply stored_same. unfold set_preference in H. destruct (match preferences s !! (u, k) with Some true | None => negb b | Some false => false end); [|by injection H as <-].
    apply bind_ok in H as ([h' s2] & Hu & [= <-]). by destruct (update_jobs_inv _ _ _ _ _ Hu) as (-> & _).
Qed.
(** Every attempt that is to be retried is below the limit, where there is one. *)
Definition below (cap : option Z) (n : Z) (a : PushAttempt) : Prop := forall m, cap = Some m -> a_status a = retryable -> n < m.
Definition capped (cap : option Z) (s : push_tables) : Prop := forall id n a, attempts s !! (id, n) = Some a -> below cap n a.
Definition agrees (m : option Z) (s : push_tables) : Prop := audited s /\ capped m s /\ stored s.
Lemma step_audited allowed s s' : db_step allowed s s' -> audited s -> audited s'.
Proof.
  intros H Ha. assert (Hsame : drops s s' -> audited s') by (intros Hd; by eapply audited_drops).
  destruct H as [w set h s' H|id n a s' Hb H|id j s' H|w set h s' H|id x s' H|w n s' H|u k b s' H|x|x|x|x|t _|n|o]; try by apply Hsame, drops_here.
  - by eapply audited_jobs.
  - by eapply audited_attempt.
  - by eapply audited_job.
  - by apply Hsame, (update_subscriptions_drops w set s h).
  - by apply Hsame, (insert_subscription_drops id x).
  - by apply Hsame, (delete_subscriptions_drops w n).
  - by apply Hsame, (set_preference_drops u k b).
Qed.
(** What a statement does to the attempts *)
Lemma step_attempts allowed s s' : db_step allowed s s' -> attempts s' = attempts s \/ exists id n a, allowed n a /\ attempts s' = <[(id, n) := a]> (attempts s).
Proof.
  intros H. assert (Hsame : drops s s' -> attempts s' = attempts s \/ exists id n a, allowed n a /\ attempts s' = <[(id, n) := a]> (attempts s)) by (intros [? _]; by left).
  destruct H as [w set h s' H|id n a s' Hb H|id j s' H|w set h s' H|id x s' H|w n s' H|u k b s' H|x|x|x|x|t _|n|o]; try by left.
  - left. by destruct (update_jobs_inv _ _ _ _ _ H) as (-> & _).
  - right. exists id, n, a. split; [done|]. destruct (insert_attempt_inv _ _ _ _ _ H) as (j & h & _ & _ & _ & _ & _ & Hu). by destruct (update_jobs_inv _ _ _ _ _ Hu) as (-> & _).
  - left. by destruct (insert_job_inv _ _ _ _ H) as [->|(_ & _ & _ & ->)].
  - by apply Hsame, (update_subscriptions_drops w set s h).
  - by apply Hsame, (insert_subscription_drops id x).
  - by apply Hsame, (delete_subscriptions_drops w n).
  - by apply Hsame, (set_preference_drops u k b).
Qed.
Lemma step_agrees m s s' : db_step (below m) s s' -> agrees m s -> agrees m s'.
Proof.
  intros H (Ha & Hc & Hs). split; [by eapply step_audited|]. split; [|by eapply step_stored]. unfold capped. destruct (step_attempts _ _ _ H) as [->|(id & n & a & Hb & ->)]; [exact Hc|].
  intros id' n' a'. destruct (decide ((id', n') = (id, n))) as [[= -> ->]|Hne].
  - rewrite lookup_insert_eq. intros [= <-]. exact Hb.
  - rewrite lookup_insert_ne by done. apply Hc.
Qed.
Lemma steps_agree m s s' : rtc (db_step (below m)) s s' -> agrees m s -> agrees m s'.
Proof. induction 1 as [|? ? ? H _ IH]; [done|]. intros Hs. by eapply IH, step_agrees. Qed.
Lemma agrees_bounded m s id j : agrees (Some m) s -> jobs s !! id = Some j -> attempt_count j <= Z.max 1 m.
Proof.
  intros ([Ha _] & Hc & _) Hj. destruct (Ha id j Hj) as [Hnum He _ _ _ Hco]. destruct (decide (attempt_count j <= 1)); [lia|].
  destruct (proj2 (Hnum (attempt_count j - 1))) as [a Hx]; [lia|]. assert (attempt_count j - 1 < m); [|lia]. apply (Hc _ _ _ Hx m eq_refl). apply (He _ _ Hx). lia.
Qed.

(** A job that ended stays as it ended. *)
Definition ended (j : PushJob) : Prop := status j ∈ [delivered; failed; cancelled].
Definition stays_ended (s s' : push_tables) : Prop := forall id j, jobs s !! id = Some j -> ended j -> exists j', jobs s' !! id = Some j' /\ status j' = status j /\ attempt_count j' = attempt_count j.
Lemma not_both (x : PushDeliveryStatus) (l l' : list PushDeliveryStatus) : x ∈ l -> x ∈ l' -> forallb (fun y => negb (bool_decide (y ∈ l'))) l = true -> False.
Proof. intros H1 H2 H. rewrite forallb_forall in H. specialize (H x (proj1 (list_elem_of_In _ _) H1)). by rewrite bool_decide_eq_true_2 in H. Qed.
Lemma ended_not j l : ended j -> status j ∈ l -> forallb (fun y => negb (bool_decide (y ∈ [delivered; failed; cancelled]))) l = true -> False.
Proof. intros He Hl. by apply (not_both (status j) l). Qed.
Lemma kept_ended s id j j' : trail_of s id j -> kept_job s id j j' -> ended j -> status j' = status j /\ attempt_count j' = attempt_count j.
Proof.
  intros Ht [->|Hk] He; [done|]. apply allowed_inv in Hk as (_ & Hv & _). apply transition_moves in Hv; [|by apply trail_next]. 
  destruct Hv as [Hs Hc _|Hj _ _|Hj _ _ _ _|Hj _ _ _|Hj _ _|Hj _ _ _]; [split; [done|apply (same_claim_inv _ _ Hc)]|exfalso..].
  all: first [rewrite <- (list_elem_of_singleton (status j)) in Hj|idtac]; exact (ended_not j _ He Hj eq_refl).
Qed.
Lemma stays_ended_jobs where_ set s h s' : update_jobs where_ set s = Ok (h, s') -> audited s -> stays_ended s s'.
Proof.
  intros H [Ha _] id j Hj He. destruct (updated_job _ _ _ _ _ _ _ H Hj) as (j' & Hj' & Hk). exists j'. split; [done|]. eapply kept_ended; [by apply Ha|done..].
Qed.
Lemma stays_ended_drops s s' : drops s s' -> audited s -> stays_ended s s'.
Proof.
  intros [_ [Hj|(s1 & w & set & h & _ & Hj & Ha1 & Hu)]] H id j Hid He; [exists j; by rewrite Hj|].
  eapply stays_ended_jobs; [exact Hu|by eapply audited_ext|by rewrite Hj|done].
Qed.
Lemma stays_ended_attempt id n a s s' : insert_attempt id n a s = Ok (tt, s') -> stays_ended s s'.
Proof.
  intros (j & h & Hj & _ & _ & _ & _ & Hu)%insert_attempt_inv id' j' Hj' He. cbn zeta in Hu. set (s1 := { s with attempts := _ }) in *. destruct (update_jobs_inv _ _ _ _ _ Hu) as (E & Eh & _).
  exists j'. split; [|done]. rewrite E, jobs_with, Eh, hit_lookup. change (jobs s1) with (jobs s). rewrite Hj'. cbn.
  rewrite (bool_decide_eq_false_2 (status j' = processing)); [|intros Hp; apply (ended_not j' [processing] He); [by apply list_elem_of_singleton|done]]. by rewrite andb_false_r.
Qed.
Lemma step_stays_ended allowed s s' : db_step allowed s s' -> audited s -> stays_ended s s'.
Proof.
  intros H Ha. assert (Hsame : drops s s' -> stays_ended s s') by (intros Hd; by apply stays_ended_drops).
  destruct H as [w set h s' H|id n a s' Hb H|id j s' H|w set h s' H|id x s' H|w n s' H|u k b s' H|x|x|x|x|t _|n|o]; try by apply Hsame, drops_here.
  - by eapply stays_ended_jobs.
  - by eapply stays_ended_attempt.
  - destruct (insert_job_inv _ _ _ _ H) as [->|(_ & _ & Hn & ->)]; [by intros id' j' ? ?; exists j'|]. intros id' j' Hj' _. exists j'. rewrite jobs_with, lookup_insert_ne by congruence. done.
  - by apply Hsame, (update_subscriptions_drops w set s h).
  - by apply Hsame, (insert_subscription_drops id x).
  - by apply Hsame, (delete_subscriptions_drops w n).
  - by apply Hsame, (set_preference_drops u k b).
Qed.
Lemma stays_ended_trans s1 s2 s3 : stays_ended s1 s2 -> stays_ended s2 s3 -> stays_ended s1 s3.
Proof.
  intros H1 H2 id j Hj He. destruct (H1 id j Hj He) as (j2 & Hj2 & Es & Ec). destruct (H2 id j2 Hj2) as (j3 & Hj3 & Es' & Ec'); [unfold ended; by rewrite Es|].
  exists j3. split_and!; [done|congruence..].
Qed.
Lemma steps_stay_ended m s s' : rtc (db_step (below m)) s s' -> agrees m s -> stays_ended s s'.
Proof.
  induction 1 as [s|s1 s2 s3 H _ IH]; intros Ha; [by intros id j ? ?; exists j|]. eapply stays_ended_trans; [eapply step_stays_ended; [exact H|apply Ha]|]. by eapply IH, step_agrees.
Qed.

(** ** The lease of a request *)

(** What a statement makes of the row of a job *)
Inductive fate (allowed : Z -> PushAttempt -> Prop) (s : push_tables) (j j' : PushJob) : Prop :=
  | f_same : j' = j -> fate allowed s j j'
  | f_moved : moves s j j' -> fate allowed s j j'
  | f_recorded n a : allowed n a -> status j = processing -> claim_token j = Some (a_claim_token a) -> claim_token j' = None -> fate allowed s j j'.
Lemma moves_clock s s1 j j' : clock s1 = clock s -> moves s1 j j' -> moves s j j'.
Proof. intros E [H1 H2 H3|H1 H2 H3|H1 H2 H3 H4 H5|H1 H2 H3 H4|H1 H2 H3|H1 H2 H3 H4]; rewrite ?E in *; [by apply m_same|by apply m_claimed|by apply m_renewed|by apply m_taken|by apply m_dropped|by apply m_expired]. Qed.
Lemma moves_count s j j' : moves s j j' -> attempt_count j' = attempt_count j.
Proof. intros [_ H _|_ _ H|_ _ H _ _|_ _ H _|_ _ H|_ _ H _]; [apply (same_claim_inv _ _ H)|done|apply (same_claim_inv _ _ H)|done..]. Qed.
Lemma update_fate allowed where_ set s h s' id j : update_jobs where_ set s = Ok (h, s') -> audited s -> jobs s !! id = Some j ->
  exists j', jobs s' !! id = Some j' /\ fate allowed s j j'.
Proof.
  intros H [Ha _] Hj. destruct (updated_job _ _ _ _ _ _ _ H Hj) as (j' & Hj' & Hk). exists j'. split; [done|]. destruct Hk as [->|Hk]; [by apply f_same|].
  apply f_moved. apply allowed_inv in Hk as (_ & Hv & _). eapply transition_moves; [|exact Hv]. by apply trail_next, Ha.
Qed.
Lemma drops_fate allowed s s' id j : drops s s' -> audited s -> jobs s !! id = Some j -> exists j', jobs s' !! id = Some j' /\ fate allowed s j j'.
Proof.
  intros [_ [Hj|(s1 & w & set & h & Hc & Hj & Ha1 & Hu)]] Ha Hid; [exists j; rewrite Hj; split; [done|by apply f_same]|].
  destruct (update_fate allowed w set s1 h s' id j Hu) as (j' & Hj' & Hf); [by eapply audited_ext|by rewrite Hj|]. exists j'. split; [done|].
  destruct Hf as [->|Hm|n a H1 H2 H3 H4]; [by apply f_same|by eapply f_moved, moves_clock|by eapply f_recorded].
Qed.
Lemma applies_token s n a j : claim_token (applies s n a j) = None.
Proof. unfold applies. by destruct (_ && _). Qed.
Lemma attempt_fate (allowed : Z -> PushAttempt -> Prop) id n a s s' id' j : insert_attempt id n a s = Ok (tt, s') -> allowed n a -> jobs s !! id' = Some j ->
  exists j', jobs s' !! id' = Some j' /\ fate allowed s j j'.
Proof.
  intros (x & h & _ & _ & _ & _ & _ & Hu)%insert_attempt_inv Hn Hj. cbn zeta in Hu. set (s1 := { s with attempts := _ }) in *. destruct (update_jobs_inv _ _ _ _ _ Hu) as (E & Eh & _).
  rewrite E, jobs_with, Eh, hit_lookup. change (jobs s1) with (jobs s). rewrite Hj. cbn. eexists. split; [done|].
  destruct (_ && _ && _) eqn:Ew; [|by apply f_same]. rewrite !andb_true_iff, !bool_decide_eq_true in Ew. destruct Ew as [[-> Hs] Ht].
  eapply f_recorded; [exact Hn|done|done|apply applies_token].
Qed.
Lemma row_fate allowed s s' id j : db_step allowed s s' -> audited s -> jobs s !! id = Some j -> exists j', jobs s' !! id = Some j' /\ fate allowed s j j'.
Proof.
  intros H Ha Hj. assert (Hsame : drops s s' -> exists j', jobs s' !! id = Some j' /\ fate allowed s j j') by (intros Hd; by apply drops_fate).
  destruct H as [w set h s' H|i n a s' Hb H|i x s' H|w set h s' H|i x s' H|w n s' H|u k b s' H|x|x|x|x|t _|n|o]; try by apply Hsame, drops_here.
  - by eapply update_fate.
  - by eapply attempt_fate.
  - exists j. split; [|by apply f_same]. destruct (insert_job_inv _ _ _ _ H) as [->|(_ & _ & Hn & ->)]; [done|]. rewrite jobs_with, lookup_insert_ne by congruence. done.
  - by apply Hsame, (update_subscriptions_drops w set s h).
  - by apply Hsame, (insert_subscription_drops i x).
  - by apply Hsame, (delete_subscriptions_drops w n).
  - by apply Hsame, (set_preference_drops u k b).
Qed.
(** No statement turns the clock back or writes this process's log. *)
Definition frame (s s' : push_tables) : Prop := clock s <= clock s' /\ log s' = log s.
Lemma frame_same s s' : clock s' = clock s -> log s' = log s -> frame s s'.
Proof. intros H1 H2. split; [by rewrite H1|done]. Qed.
Lemma frame_updated where_ set s s1 h s' : update_jobs where_ set s1 = Ok (h, s') -> clock s1 = clock s -> log s1 = log s -> frame s s'.
Proof. intros (-> & _)%update_jobs_inv H1 H2. by apply frame_same. Qed.
Lemma step_frame allowed s s' : db_step allowed s s' -> frame s s'.
Proof.
  intros [w set h s1 H|i n a s1 Hb H|i x s1 H|w set h s1 H|i x s1 H|w n s1 H|u k b s1 H|x|x|x|x|t Ht|n|o]; try by apply frame_same.
  - by eapply frame_updated.
  - destruct (insert_attempt_inv _ _ _ _ _ H) as (? & ? & _ & _ & _ & _ & _ & Hu). by eapply frame_updated.
  - by destruct (insert_job_inv _ _ _ _ H) as [->|(_ & _ & _ & ->)]; apply frame_same.
  - unfold update_subscriptions in H. case_bool_decide; [|done]. case_bool_decide; [|done]. apply bind_ok in H as ([h' s2] & Hu & [= _ <-]). by eapply frame_updated.
  - unfold insert_subscription in H. destruct (_ && _); [|done]. case_bool_decide; [|done]. injection H as <-. by apply frame_same.
  - unfold delete_subscriptions in H. case_bool_decide; [|done]. injection H as _ <-. by apply frame_same.
  - unfold set_preference in H. destruct (match preferences s !! (u, k) with Some true | None => negb b | Some false => false end); [|injection H as <-; by apply frame_same].
    apply bind_ok in H as ([h' s2] & Hu & [= <-]). by eapply frame_updated.
  - exact (conj Ht eq_refl).
Qed.
(** Other processes draw other tokens: they neither write nor use this one. *)
Definition stranger (token : string) (s s' : push_tables) : Prop :=
  db_step (fun _ a => a_claim_token a <> token) s s'
  /\ (forall id j', jobs s' !! id = Some j' -> claim_token j' = Some token -> exists j, jobs s !! id = Some j /\ claim_token j = Some token).
Definition strangers (token : string) (f : push_tables -> push_tables) : Prop := forall s, rtc (stranger token) s (f s) /\ log (f s) = log s.
(** The claim: an attempt number that is not used up, and a row no one else may take *)
Definition ours (l : Live) (s : push_tables) : Prop := forall j, jobs s !! l_job l = Some j -> claim_token j = Some (l_token l) -> attempt_count j = l_attempt_count l.
Definition holds (l : Live) (lease : Z) (s : push_tables) : Prop := clock s < lease -> exists j e,
  jobs s !! l_job l = Some j /\ status j = processing /\ claim_token j = Some (l_token l) /\ attempt_count j = l_attempt_count l /\ lease_expires_at j = Some e /\ lease <= e.
Lemma stranger_ours l s s' : stranger (l_token l) s s' -> audited s -> ours l s -> ours l s'.
Proof.
  intros [H Hn] Ha Ho j' Hj' Ht. destruct (Hn _ _ Hj' Ht) as (j & Hj & Htj). destruct (row_fate _ _ _ _ _ H Ha Hj) as (j1 & Hj1 & Hf). rewrite Hj' in Hj1. injection Hj1 as <-.
  destruct Hf as [->|Hm|n a _ _ _ Hx]; [by apply Ho|rewrite (moves_count _ _ _ Hm); by apply Ho|congruence].
Qed.
Lemma stranger_holds l lease s s' : stranger (l_token l) s s' -> audited s -> holds l lease s -> holds l lease s'.
Proof.
  intros [H _] Ha Ho Hc. pose proof (proj1 (step_frame _ _ _ H)) as Hcl. destruct Ho as (j & e & Hj & Hs & Ht & Hn & He & Hle); [lia|].
  destruct (row_fate _ _ _ _ _ H Ha Hj) as (j' & Hj' & Hf). destruct Hf as [->|Hm|n a Hx _ Hy _]; [by exists j, e| |congruence].
  destruct Hm as [H1 H2 H3|H1 _ _|_ H1 H2 H3 H4|_ _ _ H1|H1 _ _|_ _ _ H1].
  - destruct (same_claim_inv _ _ H2) as (E1 & _ & E2 & _). exists j', e. by rewrite H1, H3, E1, E2.
  - exfalso. eapply (not_both (status j) _ [processing]); [exact H1|by apply list_elem_of_singleton|done].
  - destruct (same_claim_inv _ _ H2) as (E1 & _ & E2 & _). rewrite He in H4. destruct (lease_expires_at j') as [e'|] eqn:E'; [|done]. cbn in H4. apply Z.ltb_lt in H4.
    exists j', e'. rewrite H1, E1, E2. split_and!; [done..|lia].
  - rewrite He in H1. cbn in H1. apply Z.leb_le in H1. lia.
  - exfalso. eapply (not_both (status j) _ [processing]); [exact H1|by apply list_elem_of_singleton|done].
  - rewrite He in H1. cbn in H1. apply Z.leb_le in H1. lia.
Qed.
Lemma strangers_keep (P : push_tables -> Prop) token f s : (forall s s', stranger token s s' -> audited s -> P s -> P s') -> strangers token f -> audited s /\ P s -> audited (f s) /\ P (f s).
Proof.
  intros H Hf. destruct (Hf s) as [Hr _]. revert Hr. generalize (f s). induction 1 as [|s1 s2 s3 Hs _ IH]; [done|]. intros [Ha HP]. apply IH. split; [|by eapply H].
  destruct Hs as [Hs _]. by eapply step_audited.
Qed.

(** ** Programs of statements *)

(** What a program's own call does to the tables *)
Definition sql (allowed : Z -> PushAttempt -> Prop) (s s' : push_tables) : Prop :=
  exists s1, rtc (db_step allowed) s s1 /\ jobs s' = jobs s1 /\ attempts s' = attempts s1 /\ subscriptions s' = subscriptions s1.
Lemma sql_steps allowed s s' : rtc (db_step allowed) s s' -> sql allowed s s'.
Proof. intros H. by exists s'. Qed.
Lemma sql_same allowed s s' : jobs s' = jobs s -> attempts s' = attempts s -> subscriptions s' = subscriptions s -> sql allowed s s'.
Proof. intros. exists s. split_and!; [apply rtc_refl|done..]. Qed.
Lemma sql_agrees m s s' : sql (below m) s s' -> agrees m s -> agrees m s' /\ stays_ended s s'.
Proof.
  intros (s1 & Hs & Hj & Ha & Hsub) H. pose proof (steps_agree m s s1 Hs H) as (H1 & H2 & H3).
  split; [split; [by eapply audited_ext|split; [unfold capped; by rewrite Ha|by eapply stored_same]]|].
  intros id j. rewrite Hj. by eapply steps_stay_ended.
Qed.
Section Trail.
Variable d : WebPushDispatcher.
(** The limit of this dispatcher and of the others, where these have one *)
Variable others_limit : option Z.
Definition common_limit : option Z := Z.max (maxAttempts d) <$> others_limit.
Abbreviation limit := common_limit.
Definition trail_step (s s' : push_tables) : Prop := agrees limit s' /\ stays_ended s s'.
Abbreviation fine m := (etriple (others_do (below limit)) trail_step (agrees limit) m (fun _ => agrees limit) (fun _ => agrees limit)).
Lemma fine_call {A} (f : push_tables -> A * push_tables) : (forall s, sql (below limit) s (snd (f s))) -> fine (call f).
Proof.
  intros H. apply etriple_call; [intros g s Hg Hs; eapply steps_agree; [apply Hg|done]|]. intros s Hs. destruct (sql_agrees _ _ _ (H s) Hs). by split.
Qed.
Lemma fine_or_throw {A} (r : result A) : fine (or_throw r).
Proof. destruct r; [by apply etriple_ret|by apply etriple_throw]. Qed.
Lemma fine_statement {A} (f : push_tables -> result (A * push_tables)) : (forall s a s', f s = Ok (a, s') -> sql (below limit) s s') -> fine (statement f).
Proof.
  intros H. eapply etriple_bind; [|intros x; apply fine_or_throw]. apply fine_call. intros s. destruct (database (outside s)); [|by apply sql_same].
  destruct (f s) as [[a s']|e] eqn:E; [by eapply H|by apply sql_same].
Qed.
Lemma fine_read {A} (f : push_tables -> A) : fine (statement (fun s => Ok (f s, s))).
Proof. apply fine_statement. intros s a s' [= _ <-]. by apply sql_same. Qed.
Lemma fine_asks {A} (f : push_tables -> A) : fine (asks f).
Proof. apply fine_call. intros s. by apply sql_same. Qed.
Lemma fine_update where_ set : fine (statement (update_jobs where_ set)).
Proof. apply fine_statement. intros s h s' H. apply sql_steps, rtc_once. by eapply st_jobs. Qed.
Lemma fine_bind {A B} (m : M A) (f : A -> M B) : fine m -> (forall a, fine (f a)) -> fine (m ≫= f).
Proof. intros Hm Hf. eapply etriple_bind; [exact Hm|exact Hf]. Qed.
Lemma fine_ret {A} (a : A) : fine (mret a).
Proof. by apply etriple_ret. Qed.
(** Outcomes are retried below the limit only. *)
Definition within_limit (n : Z) (o : AttemptOutcome) : Prop := o_status o = retryable -> n < maxAttempts d.
Lemma failure_inv st n t o : failureOutcome d st n t = Ok o ->
  o_status o = (if isTransientStatus st && (n <? maxAttempts d) then retryable else failed)
  /\ (if isTransientStatus st && (n <? maxAttempts d) then normalizeISO8601Timestamp (t + retry_delay d n) = Ok (t + retry_delay d n) /\ o_next o = Some (t + retry_delay d n) else o_next o = None)
  /\ o_response o = st /\ revokeSubscription o = bool_decide (st = Some 404 \/ st = Some 410)
  /\ (st = None -> exists c, o_code o = Some c /\ trim c <> "").
Proof.
  unfold failureOutcome. assert (Ht : negb (bool_decide (st = Some 404 \/ st = Some 410)) && isTransientStatus st = isTransientStatus st).
  { case_bool_decide as H; [|done]. destruct H as [-> | ->]; done. }
  rewrite Ht. destruct (safeFailureSummary st (isTransientStatus st)) as [code msg] eqn:Es. intros (next & Hn & [= <-])%bind_ok. cbn [o_status o_next o_response revokeSubscription o_code].
  split_and!; [done| |done|done|].
  - destruct (isTransientStatus st && (n <? maxAttempts d)); [|by injection Hn as <-]. destruct (normalizeISO8601Timestamp _) as [x|] eqn:E; [|done]. injection Hn as <-.
    assert (x = t + retry_delay d n) as -> by (unfold normalizeISO8601Timestamp in E; repeat case_match; by simplify_eq). done.
  - intros ->. injection Es as <- _. eexists. split; [done|]. by destruct (_ || _).
Qed.
Lemma failure_within st n t o : failureOutcome d st n t = Ok o -> within_limit n o.
Proof. intros (Hs & _)%failure_inv. unfold within_limit. rewrite Hs. destruct (_ && _) eqn:E; [|done]. apply andb_true_iff in E as [_ E]. intros _. by apply Z.ltb_lt. Qed.
Lemma outcome_within r n t o : outcome_of d r n t = Ok o -> within_limit n o.
Proof.
  destruct r as [c|c]; unfold outcome_of; [|apply failure_within]. destruct (_ && _); [by intros [= <-]|].
  destruct (failureOutcome d (Some c) n t) eqn:E; [intros [= <-]; by eapply failure_within|apply failure_within].
Qed.
Lemma limit_below n o l t : within_limit n o -> below limit n (outcome_row l t o).
Proof. intros H m Hm Hs. unfold common_limit in Hm. destruct others_limit as [k|]; [|done]. injection Hm as <-. specialize (H Hs). lia. Qed.
Lemma record_sql l t n o s u s' : within_limit n o -> record_tx l t n o s = Ok (u, s') -> sql (below limit) s s'.
Proof.
  intros Hw. unfold record_tx. intros ([h s1] & H1 & ([[] s2] & H2 & [= _ <-])%bind_ok)%bind_ok. cbn [snd] in *. exists s2. split; [|by split].
  transitivity s1; [clear H2|eapply rtc_once, st_attempt; [|exact H2]; by apply limit_below].
  destruct (revokeSubscription o); [by eapply rtc_once, st_subscriptions|]. case_bool_decide; [by eapply rtc_once, st_subscriptions|]. injection H1 as _ <-. apply rtc_refl.
Qed.
(** What a step before it returned may be used of a value. *)
Lemma fine_pick {A B} (r : result A) (f : A -> M B) : (forall a, r = Ok a -> fine (f a)) -> fine (or_throw r ≫= f).
Proof.
  intros H. destruct r as [a|e]; [exact (H a eq_refl)|]. change (fine (throw e : M B)). by apply etriple_throw.
Qed.
Lemma fine_record l t n o : within_limit n o -> fine (recordOutcome l t n o).
Proof. intros H. apply fine_statement. intros s u s'. by apply record_sql. Qed.
Section Runs.
Variable local_time : string -> Z -> option (Z * Z).
Variable parse_endpoint : string -> result string.
Variable safe_payload : Live -> option Z -> result string.
Lemma fine_prepared l : fine (prepared parse_endpoint safe_payload l).
Proof.
  apply fine_bind; [apply fine_or_throw|]. intros ep. apply fine_bind.
  - destruct (match l_settings l with Some o => _ | None => _ end); [|apply fine_ret]. apply fine_bind; [apply fine_read|]. intros n. apply fine_ret.
  - intros u. apply fine_bind; [apply fine_or_throw|]. intros p. apply fine_ret.
Qed.
Lemma renew_sql l t lease s b s' : renew_tx l t lease s = Ok (b, s') -> sql (below limit) s s'.
Proof.
  intros ([h s1] & H1 & H)%bind_ok. exists s1. split; [by eapply rtc_once, st_jobs|]. cbn in H. destruct (h !! l_job l); injection H as _ <-; done.
Qed.
Lemma fine_request l ep payload : fine (send_request d l ep payload).
Proof.
  apply fine_bind; [apply fine_asks|]. intros t. apply fine_bind.
  - apply fine_bind; [apply fine_or_throw|]. intros at_. apply fine_bind; [apply fine_or_throw|]. intros lease. apply fine_statement. intros s b s'. apply renew_sql.
  - intros b. destruct (negb b); [apply fine_ret|]. apply fine_bind; [apply fine_or_throw|]. intros at_.
    apply fine_bind; [apply fine_call; intros s; by apply sql_same|]. intros r. apply fine_pick. intros o Ho. by eapply fine_record, outcome_within.
Qed.
Lemma fine_deliver c : fine (deliver local_time parse_endpoint safe_payload d c).
Proof.
  apply fine_bind.
  - apply fine_bind; [apply fine_asks|]. intros now. apply fine_bind; [apply fine_or_throw|]. intros t. apply fine_statement. intros s a s' [= _ <-]. destruct (live_row s c t); by apply sql_same.
  - intros [l|]; [|apply fine_ret]. apply fine_bind; [apply fine_asks|]. intros t. destruct (quiet_for _ _ _); [apply fine_ret|]. apply fine_bind.
    + eapply etriple_catch; [apply fine_bind; [apply fine_prepared|]; intros x; apply fine_ret|]. intros e. apply fine_ret.
    + intros [[ep p]|e]; [apply fine_request|]. apply fine_bind; [apply fine_or_throw|]. intros at_. apply fine_pick. intros o Ho. apply fine_record.
      case_bool_decide; [by injection Ho as <-|by eapply failure_within].
Qed.
Lemma fine_claim id t : fine (claim d id t).
Proof.
  do 2 (apply fine_bind; [apply fine_or_throw|]; intros ?). apply fine_bind; [apply fine_call; intros s; by apply sql_same|]. intros token. apply fine_bind.
  - apply fine_statement. intros s h s' H. by eapply sql_steps, rtc_once, st_jobs.
  - intros rows. apply fine_ret.
Qed.
Abbreviation offer := (offer local_time parse_endpoint safe_payload d).
Lemma fine_offer l : forall n, fine (offer n l).
Proof.
  induction l as [|c l IH]; intros n; cbn [Push.offer]; [apply fine_ret|]. destruct (_ <=? _); [apply fine_ret|]. apply fine_bind; [apply fine_asks|]. intros now.
  destruct (quiet_for _ _ _); [apply IH|]. apply fine_bind; [apply fine_claim|]. intros [j|]; [|apply IH]. apply fine_bind; [apply fine_deliver|]. intros _. apply IH.
Qed.
Lemma fine_pages fuel : forall cursor n, fine (dispatch_pages local_time parse_endpoint safe_payload d fuel cursor n).
Proof.
  induction fuel as [|fuel IH]; intros cursor n; cbn [dispatch_pages]; (destruct (_ <=? _); [apply fine_ret|]); [apply fine_ret|].
  apply fine_bind; [apply fine_read|]. intros l. destruct (last l); [|apply fine_ret]. apply fine_bind; [apply fine_offer|]. intros k. destruct (_ <? _)%nat; [apply fine_ret|apply IH].
Qed.
Lemma fine_cancels : fine (cancelIneligibleJobs d).
Proof.
  apply fine_bind; [apply fine_read|]. intros [|i ids]; [apply fine_ret|]. apply fine_bind; [|intros _; apply fine_ret]. apply fine_update.
Qed.

(** C12. Whatever statements other processes run on these tables, and whatever a provider
    answers, every statement of a dispatcher's run keeps the audit trail: the attempts of a
    job are numbered from one to its count, all but the last were to be retried and the last
    explains the job's state, no two subscriptions that are not revoked share an endpoint,
    and a job that was delivered, failed or cancelled stays so with the same count. Where
    the other dispatchers have a limit, no attempt at or above the larger of it and this
    dispatcher's is to be retried; the tables themselves enforce none. *)
Theorem attempts_are_audited fuel :
  etriple (others_do (below common_limit)) trail_step (agrees common_limit) (runOnce local_time parse_endpoint safe_payload d fuel)
    (fun _ => agrees common_limit) (fun _ _ => False).
Proof.
  eapply (etriple_catch _ _ _ _ _ _ (fun _ => agrees common_limit)); [|intros e; by apply etriple_ret]. apply fine_bind; [apply fine_cancels|]. intros _. apply fine_pages.
Qed.
End Runs.
End Trail.

(** ** A request *)

Section Owner.
Variable d : WebPushDispatcher.
Variable local_time : string -> Z -> option (Z * Z).
Variable parse_endpoint : string -> result string.
Variable safe_payload : Live -> option Z -> result string.
Variable token : string.
(** What is read was allowed: the subscription had not expired at an instant [t] between the
    start [t0] of the delivery and the reading. *)
Variable t0 : Z.
Definition seen_allowed (s s' : push_tables) : Prop := forall l, log s' = log s ++ [saw_live l] -> exists r x t,
  recipients s !! (l_event l, l_user l) = Some r /\ push_enabled r = true /\ opted_in s (l_event l) (l_user l) = true
  /\ subscriptions s !! l_subscription l = Some x /\ sub_user x = l_user l /\ endpoint x = l_endpoint l /\ keys x = Some (l_keys l)
  /\ revoked_at x = None /\ t0 <= t <= clock s /\ match expires_at x with Some e => t < e | None => True end.
(** The last thing done before a request is the renewal of its claim. *)
Definition sent_owned (s s' : push_tables) : Prop := forall id tok n ep, log s' = log s ++ [sent id tok n ep] -> exists l t,
  l_job l = id /\ l_token l = tok /\ n = l_attempt_count l + 1 /\ saw_live l ∈ log s /\ parse_endpoint (l_endpoint l) = Ok ep
  /\ t0 <= t <= clock s /\ exists lease, t + requestTimeoutMs d + REQUEST_LEASE_SAFETY_MARGIN_MS <= lease /\ t + leaseMs d <= lease
  /\ last (log s) = Some (renewed id tok t lease) /\ holds l lease s.
Definition own_step (s s' : push_tables) : Prop := seen_allowed s s' /\ sent_owned s s'.
Definition stable (P : push_tables -> Prop) : Prop := forall f s, strangers token f -> P s -> P (f s).
Abbreviation own P m Q E := (etriple (strangers token) own_step P m Q E).
Lemma silent s s' e : log s' = log s \/ log s' = log s ++ [e] /\ match e with saw_live _ | sent _ _ _ _ => False | _ => True end -> own_step s s'.
Proof.
  intros H. split.
  - intros l Hl. exfalso. destruct H as [E|[E He]]; rewrite E in Hl; [|by apply app_inj_tail in Hl as [_ ->]]. apply (f_equal length) in Hl. rewrite length_app in Hl. cbn in Hl. lia.
  - intros id tok n ep Hl. exfalso. destruct H as [E|[E He]]; rewrite E in Hl; [|by apply app_inj_tail in Hl as [_ ->]]. apply (f_equal length) in Hl. rewrite length_app in Hl. cbn in Hl. lia.
Qed.
Lemma own_silent s s' : log s' = log s -> own_step s s'.
Proof. intros H. apply (silent s s' (renewed "" "" 0 0)). by left. Qed.
Lemma own_read {A} (P : push_tables -> Prop) (f : push_tables -> A) : stable P -> own P (asks f) (fun _ => P) (fun _ => P).
Proof. intros H. apply etriple_call; [by intros; apply H|]. intros s HP. split; [by apply own_silent|done]. Qed.
Lemma own_or_throw {A} (P : push_tables -> Prop) (r : result A) : own P (or_throw r) (fun a s => P s /\ r = Ok a) (fun _ => P).
Proof. destruct r; [by apply etriple_ret|by apply etriple_throw]. Qed.
Lemma own_statement {A} (P : push_tables -> Prop) (f : push_tables -> result (A * push_tables)) (Q : A -> push_tables -> Prop) : stable P ->
  (forall s a s', P s -> f s = Ok (a, s') -> own_step s s' /\ Q a s') -> own P (statement f) Q (fun _ => P).
Proof.
  intros H Hf. apply (etriple_bind _ _ _ _ _ (fun r s => match r with Ok a => Q a s | Throw _ => P s end)).
  - apply etriple_call; [by intros; apply H|]. intros s HP. destruct (database (outside s)); [|split; [by apply own_silent|done]].
    destruct (f s) as [[a s']|e] eqn:E; [by apply Hf|split; [by apply own_silent|done]].
  - intros [a|e]; [by apply etriple_ret|by apply etriple_throw].
Qed.
Lemma stable_kept (P : push_tables -> Prop) : (forall s s', stranger token s s' -> audited s -> P s -> P s') -> stable (fun s => audited s /\ P s).
Proof. intros H f s Hf. by apply (strangers_keep P token). Qed.
Lemma stable_both P Q : stable P -> stable Q -> stable (fun s => P s /\ Q s).
Proof. intros HP HQ f s Hf [? ?]. split; [by apply HP|by apply HQ]. Qed.
Lemma stable_log e : stable (fun s => e ∈ log s).
Proof. intros f s Hf. by rewrite (proj2 (Hf s)). Qed.
Lemma stable_true : stable (fun _ => True).
Proof. done. Qed.
Lemma stable_after t : stable (fun s => t <= clock s).
Proof.
  intros f s Hf Ht. destruct (Hf s) as [Hr _]. revert Hr. generalize (f s). intros s' Hr. revert Ht. induction Hr as [|s1 s2 s3 [Hs _] _ IH]; [done|].
  intros Ht. apply IH. destruct (step_frame _ _ _ Hs). lia.
Qed.
Lemma stable_last o : stable (fun s => last (log s) = o).
Proof. intros f s Hf. by rewrite (proj2 (Hf s)). Qed.
Definition claimed_live (l : Live) (s : push_tables) : Prop := (audited s /\ ours l s) /\ saw_live l ∈ log s /\ t0 <= clock s.
Definition request_held (l : Live) (t : Z) (s : push_tables) : Prop :=
  (audited s /\ holds l (request_lease d t) s) /\ saw_live l ∈ log s /\ t <= clock s /\ last (log s) = Some (renewed (l_job l) (l_token l) t (request_lease d t)).
Lemma stable_live l : l_token l = token -> stable (claimed_live l).
Proof. intros H. apply stable_both; [|apply stable_both; [apply stable_log|apply stable_after]]. apply stable_kept. intros s s' Hs. apply (stranger_ours l). by rewrite H. Qed.
Lemma stable_request l t : l_token l = token -> stable (request_held l t).
Proof. intros H. apply stable_both; [|apply stable_both; [apply stable_log|apply stable_both; [apply stable_after|apply stable_last]]]. apply stable_kept. intros s s' Hs. apply (stranger_holds l). by rewrite H. Qed.
Lemma stable_audited : stable audited.
Proof. intros f s Hf H. by destruct (stable_kept (fun _ => True) (fun _ _ _ _ _ => I) f s Hf (conj H I)). Qed.
Lemma frame_sub where_ set s h s' : update_subscriptions where_ set s = Ok (h, s') -> log s' = log s.
Proof. intros H. by apply (step_frame (fun _ _ => True)), (st_subscriptions _ s where_ set h). Qed.
Lemma record_log l t n o s u s' : record_tx l t n o s = Ok (u, s') -> log s' = log s ++ [recorded (l_job l) (l_token l) n (o_status o)].
Proof.
  intros ([h s1] & H1 & ([[] s2] & H2 & [= _ <-])%bind_ok)%bind_ok. cbn [snd] in *. change (log (note _ s2)) with (log s2 ++ [recorded (l_job l) (l_token l) n (o_status o)]).
  rewrite (proj2 (step_frame (fun _ _ => True) _ _ (st_attempt (fun _ _ => True) _ _ _ _ _ I H2))). f_equal.
  destruct (revokeSubscription o); [by eapply frame_sub|]. case_bool_decide; [by eapply frame_sub|]. by injection H1 as _ <-.
Qed.
Lemma own_record l t n o : own (fun _ => True) (recordOutcome l t n o) (fun _ _ => True) (fun _ _ => True).
Proof.
  apply own_statement; [apply stable_true|]. intros s u s' _ H. split; [|done]. eapply silent. right. split; [by eapply record_log|done].
Qed.
Lemma own_weak {A} (P : push_tables -> Prop) (m : M A) : own (fun _ => True) m (fun _ _ => True) (fun _ _ => True) -> own P m (fun _ _ => True) (fun _ _ => True).
Proof. by apply etriple_weaken. Qed.
(** The same, where nothing is asked of what is thrown *)
Lemma own_any {A} (P : push_tables -> Prop) (m : M A) Q E : own P m Q E -> own P m Q (fun _ _ => True).
Proof. by apply etriple_weaken. Qed.
Lemma own_prepared l : l_token l = token ->
  own (claimed_live l) (prepared parse_endpoint safe_payload l) (fun p s => claimed_live l s /\ parse_endpoint (l_endpoint l) = Ok p.1) (fun _ => claimed_live l).
Proof.
  intros Ht. pose proof (stable_live l Ht) as Hst. eapply etriple_bind; [apply own_or_throw|]. intros ep. apply etriple_pure. intros Hep.
  apply (etriple_bind _ _ _ _ _ (fun _ => claimed_live l)).
  - destruct (match l_settings l with Some o => _ | None => _ end); [|by apply etriple_ret]. apply (etriple_bind _ _ _ _ _ (fun _ => claimed_live l)); [|intros n; by apply etriple_ret].
    apply own_statement; [done|]. intros s a s' HP [= _ <-]. split; [by apply own_silent|done].
  - intros u. eapply etriple_bind; [apply own_or_throw|]. intros p. apply etriple_ret. intros s [HP _]. done.
Qed.
Lemma normalized t a : normalizeISO8601Timestamp t = Ok a -> a = t.
Proof. unfold normalizeISO8601Timestamp. intros H. repeat case_match; by simplify_eq. Qed.
(** An instant the process reads is not before the delivery and not after what follows. *)
Lemma own_clock (P : push_tables -> Prop) : stable P -> (forall s, P s -> t0 <= clock s) -> own P (asks clock) (fun t s => (P s /\ t <= clock s) /\ t0 <= t) (fun _ _ => True).
Proof. intros H Ht. apply etriple_call; [by intros; apply H|]. intros s HP. split; [by apply own_silent|]. cbn. split; [split; [done|lia]|by apply Ht]. Qed.
Lemma renew_held l t s b s' : claimed_live l s /\ t <= clock s -> renew_tx l t (request_lease d t) s = Ok (b, s') -> own_step s s' /\ (if b then request_held l t s' else True).
Proof.
  intros [[[Ha Ho] [Hs _]] Hle] ([h s1] & H1 & H2)%bind_ok. cbn [fst snd] in H2. destruct (update_jobs_inv _ _ _ _ _ H1) as (E & Eh & _).
  destruct (h !! l_job l) as [j'|] eqn:Ej; injection H2 as <- <-; [|split; [apply own_silent; by rewrite E|done]].
  split; [eapply silent; right; split; [unfold note; cbn; by rewrite E|done]|]. split; [split|split_and!].
  - eapply audited_ext; [..|by eapply audited_jobs]; done.
  - intros _. rewrite Eh in Ej. apply hit_some in Ej as (j & Hj & Ew & -> & Ej). rewrite !andb_true_iff, !bool_decide_eq_true in Ew. destruct Ew as [[[_ Hst] Htk] _].
    exists { j with lease_expires_at := Some (request_lease d t) }, (request_lease d t). split_and!; [|exact Hst|exact Htk|by apply (Ho j)|done|lia].
    change (jobs (note _ s1)) with (jobs s1). rewrite E, jobs_with, Eh. exact Ej.
  - unfold note. cbn. rewrite E. apply elem_of_app. by left.
  - unfold note. cbn. by rewrite E.
  - unfold note. cbn. apply last_snoc.
Qed.
Lemma own_renew l t : l_token l = token -> own (fun s => claimed_live l s /\ t <= clock s) (renewClaimForRequest d l t) (fun b s => if b then request_held l t s else True) (fun _ _ => True).
Proof.
  intros Ht. unfold renewClaimForRequest. eapply etriple_bind; [eapply own_any, own_or_throw|]. intros a. apply etriple_pure. intros ->%normalized.
  eapply etriple_bind; [eapply own_any, own_or_throw|]. intros lease. apply etriple_pure. intros ->%normalized.
  eapply own_any, own_statement; [apply stable_both; [by apply stable_live|apply stable_after]|apply renew_held].
Qed.
Lemma own_request l ep payload : l_token l = token -> parse_endpoint (l_endpoint l) = Ok ep ->
  own (claimed_live l) (send_request d l ep payload) (fun _ _ => True) (fun _ _ => True).
Proof.
  intros Ht Hep. eapply etriple_bind; [apply (own_clock (claimed_live l)); [by apply stable_live|by intros s (_ & _ & ?)]|]. intros t. apply etriple_pure. intros Ht0.
  eapply etriple_bind; [by apply own_renew|]. intros [|]; cbn [negb]; [|by apply etriple_ret].
  eapply (etriple_bind _ _ _ _ _ (fun _ => request_held l t)); [destruct (normalizeISO8601Timestamp t); [by apply etriple_ret|by apply etriple_throw]|]. intros at_.
  apply (etriple_bind _ _ _ _ _ (fun _ _ => True)); [|intros r; eapply etriple_bind; [eapply own_any, own_or_throw|]; intros o; eapply own_weak, own_record].
  apply etriple_call; [intros g s Hg; by apply (stable_request l t Ht)|]. intros s ([_ Hh] & Hs & Hle & Hr). split; [|done]. cbn [snd]. split.
  - intros l'. cbn. intros Hl. by apply app_inj_tail in Hl as [_ ?].
  - intros id tok n ep'. cbn. intros Hl. apply app_inj_tail in Hl as [_ [= <- <- <- <-]]. exists l, t. split_and!; [done..|]. exists (request_lease d t). unfold request_lease. split_and!; [lia|lia|done|done].
Qed.
Lemma live_row_read s c t l : live_row s c t = Some l -> l_token l = c_token c /\ ours l s /\ exists r x,
  recipients s !! (l_event l, l_user l) = Some r /\ push_enabled r = true /\ opted_in s (l_event l) (l_user l) = true
  /\ subscriptions s !! l_subscription l = Some x /\ sub_user x = l_user l /\ endpoint x = l_endpoint l /\ keys x = Some (l_keys l)
  /\ revoked_at x = None /\ match expires_at x with Some e => t < e | None => True end.
Proof.
  unfold live_row, opted_in, ours. destruct (jobs s !! c_job c) as [j|] eqn:Hj; [|done]. destruct (recipients s !! _) as [r|] eqn:Hr; [|done].
  destruct (events s !! _) as [e|] eqn:He; [|done]. unfold subscription_of. destruct (subscriptions s !! job_subscription j) as [x|] eqn:Hx; [|done].
  case_bool_decide as Hu; [|done]. destruct (keys x) as [ks|] eqn:Hk; [|done]. destruct (_ && _) eqn:E; [|done]. rewrite !andb_true_iff, !bool_decide_eq_true in E.
  destruct_and! E. intros [= <-]. cbn [l_job l_event l_user l_subscription l_attempt_count l_token l_endpoint l_keys]. split; [done|]. split; [|exists r, x; rewrite He; split_and!; try done; by destruct (expires_at x); [lia|]].
  intros j' Hj'. rewrite Hj in Hj'. by injection Hj' as <-.
Qed.
Definition begun (s : push_tables) : Prop := audited s /\ t0 <= clock s.
Lemma stable_started : stable begun.
Proof. apply stable_both; [apply stable_audited|apply stable_after]. Qed.
Lemma own_live c : c_token c = token ->
  own begun (liveDelivery c) (fun o s => match o with Some l => l_token l = token /\ claimed_live l s | None => True end) (fun _ _ => True).
Proof.
  intros Hc. eapply etriple_bind; [apply (own_clock begun); [apply stable_started|by intros s []]|]. intros now. apply etriple_pure. intros Ht0.
  eapply etriple_bind; [eapply own_any, own_or_throw|]. intros t. apply etriple_pure. intros ->%normalized.
  eapply own_any, own_statement; [apply stable_both; [apply stable_started|apply stable_after]|].
  intros s o s' [[Ha Hb] Hnow] [= <- <-]. destruct (live_row s c now) as [l|] eqn:El; [|split; [by apply own_silent|done]]. destruct (live_row_read _ _ _ _ El) as (Htok & Ho & r & x & Hr).
  destruct_and! Hr. split; [split|split; [congruence|]].
  - intros l'. cbn. intros Hl. apply app_inj_tail in Hl as [_ [= <-]]. exists r, x, now. by split_and!.
  - intros id tok n ep. cbn. intros Hl. by apply app_inj_tail in Hl as [_ ?].
  - split; [split; [by apply (audited_ext s)|exact Ho]|]. split; [|done]. cbn. apply elem_of_app. right. by apply list_elem_of_singleton.
Qed.
End Owner.
(** C14. In a delivery that starts at [t0], while the other processes draw tokens of their
    own, a request goes to the endpoint of a row read under the claim, when recipient and
    category had push enabled and the subscription was neither revoked nor expired at an
    instant of the delivery. The last thing done before it is the renewal of the claim, to
    a lease that covers the time the request may take from then: until that lease ends the
    job stays claimed by this delivery with the attempt number it records, so that no one
    else sends or drops it. (Whether the lease still runs when the request leaves is up to
    the time between the two statements; the code does not look again.) *)
Theorem request_is_owned d local_time parse_endpoint safe_payload c t0 :
  etriple (strangers (c_token c)) (own_step d parse_endpoint t0) (fun s => audited s /\ t0 <= clock s)
    (deliver local_time parse_endpoint safe_payload d c) (fun _ _ => True) (fun _ _ => True).
Proof.
  eapply etriple_bind; [by apply own_live|]. intros [l|]; [|by apply etriple_ret]. cbn beta iota.
  apply (etriple_weaken (fun s => claimed_live t0 l s /\ l_token l = c_token c) _ _ _ _ (fun _ _ => True) _ (fun _ _ => True)); [by intros s [? ?]|done|done|]. apply etriple_pure. intros Ht.
  pose proof (stable_live (c_token c) t0 l Ht) as Hst. apply (etriple_bind _ _ _ _ _ (fun _ => claimed_live t0 l)); [by eapply own_any, own_read|].
  intros t. destruct (quiet_for _ _ _); [by apply etriple_ret|].
  apply (etriple_bind _ _ _ _ _ (fun p s => claimed_live t0 l s /\ match p with Ok p => parse_endpoint (l_endpoint l) = Ok p.1 | Throw _ => True end)).
  - apply (etriple_catch _ _ _ _ _ _ (fun _ => claimed_live t0 l)); [|intros e; by apply etriple_ret].
    eapply etriple_bind; [by apply own_prepared|]. intros p. by apply etriple_ret.
  - intros [[ep p]|e]; apply etriple_pure; [intros Hep; by apply own_request|]. intros _.
    eapply etriple_bind; [eapply own_any, own_or_throw|]. intros at_. eapply etriple_bind; [eapply own_any, own_or_throw|]. intros o. eapply own_weak, own_record.
Qed.

(** ** Recording an outcome *)

Lemma update_jobs_ok where_ set s : (forall id j, jobs s !! id = Some j -> where_ id j = true -> job_update_allowed s id j (set j) = true) ->
  update_jobs where_ set s = Ok (hit where_ set (jobs s), { s with jobs := hit where_ set (jobs s) ∪ jobs s }).
Proof. intros H. unfold update_jobs. by rewrite bool_decide_eq_true_2. Qed.
Lemma same_identity_released st n next j : same_identity j (released st n next j) = true.
Proof. unfold same_identity. cbn. by rewrite !bool_decide_eq_true_2. Qed.
Lemma not_anew st n next j : st <> processing -> claims_anew j (released st n next j) = false.
Proof. intros H. unfold claims_anew. rewrite released_status. by rewrite bool_decide_eq_false_2. Qed.
Lemma allowed_of s id j st n next : st <> processing -> valid_transition s id j (released st n next j) = true -> state_check (released st n next j) = true ->
  job_update_allowed s id j (released st n next j) = true.
Proof. intros Hs Hv Hc. unfold job_update_allowed. by rewrite same_identity_released, Hv, (not_anew _ _ _ _ Hs), Hc. Qed.
Lemma unclaimed_released st n next j : unclaimed (released st n next j) = true.
Proof. done. Qed.
(** A job nobody works on may be dropped. *)
Lemma cancel_allowed s id j : trail_of s id j -> droppable s j = true -> job_update_allowed s id j (cancels j) = true.
Proof.
  intros Ht Hd. pose proof (trail_next _ _ _ Ht) as Hn. assert (Hu : negb (attempted s id (attempt_count j + 1)) = true).
  { unfold attempted. rewrite Hn, bool_decide_eq_false_2; [done|]. by intros []. }
  apply allowed_of; [done| |].
  - unfold valid_transition. rewrite released_status, released_count, Hu. rewrite !orb_true_iff, !andb_true_iff, !bool_decide_eq_true.
    unfold droppable in Hd. rewrite orb_true_iff, andb_true_iff, !bool_decide_eq_true in Hd. destruct Hd as [Hd|[Hd Hl]].
    + left; left; right. split_and!; [done|by apply list_elem_of_singleton|done..].
    + left; right. split_and!; [by apply list_elem_of_singleton|by apply list_elem_of_singleton|done..].
  - unfold state_check. rewrite released_status, released_next, released_count, unclaimed_released. rewrite (bool_decide_eq_true_2 (None = None)) by done. cbn [andb]. apply Z.leb_le. apply (trail_count _ _ _ Ht).
Qed.
(** A checked attempt of the claim's owner decides the job. *)
Lemma applied_allowed s id j n a : trail_of s id j -> status j = processing -> claim_token j = Some (a_claim_token a) -> n = attempt_count j + 1 -> attempt_check n a = true ->
  let s1 := { s with attempts := <[(id, n) := a]> (attempts s) } in job_update_allowed s1 id j (applies s1 n a j) = true.
Proof.
  intros Ht Hs Htk Hn Hk s1. assert (Ha : attempts s1 !! (id, n) = Some a) by apply lookup_insert_eq. pose proof (check_status _ _ Hk) as Hst.
  assert (Hpos : (0 <? n) = true) by (pose proof (trail_count _ _ _ Ht); lia). assert (Hnn : (0 <=? n) = true) by lia.
  assert (Hnext : match a_status a with retryable => is_Some (a_next_retry_at a) | _ => a_next_retry_at a = None end).
  { unfold attempt_check in Hk. apply andb_true_iff in Hk as [_ Hk]. destruct (a_status a); try done; rewrite !andb_true_iff, ?bool_decide_eq_true in Hk.
    - destruct Hk as [_ Hk]. by destruct (a_next_retry_at a).
    - by destruct Hk as [_ ?].
    - by destruct Hk as [_ ?]. }
  unfold applies. destruct (bool_decide (a_status a = retryable) && _) eqn:Er.
  - apply andb_true_iff in Er as [Er%bool_decide_eq_true Hna]. apply allowed_of; [done| |].
    + unfold valid_transition, dropped_retry. rewrite released_status, released_count, Ha, Hna, Hs. rewrite !orb_true_iff, !andb_true_iff, !bool_decide_eq_true. right.
      split_and!; [by apply list_elem_of_singleton|by apply list_elem_of_singleton|done..].
    + unfold state_check. rewrite released_status, released_next, released_count, unclaimed_released, Hnn. by rewrite bool_decide_eq_true_2.
  - apply allowed_of; [intros Hp; rewrite Hp in Hst; by eapply (not_both processing [processing]); [apply list_elem_of_singleton|exact Hst|]| |].
    + unfold valid_transition, explained. rewrite released_status, released_count, released_next, Ha, Hs. do 3 (apply orb_true_iff; left). apply orb_true_iff. right.
      rewrite !andb_true_iff, !bool_decide_eq_true, orb_true_iff, negb_true_iff, bool_decide_eq_true. split_and!; [by apply list_elem_of_singleton|done..|]. destruct (a_status a); [by left; apply bool_decide_eq_false_2|by left; apply bool_decide_eq_false_2| |by left; apply bool_decide_eq_false_2..]. by right.
    + unfold state_check. rewrite released_status, released_next, released_count, unclaimed_released, Hnn, Hpos.
      destruct (a_status a) eqn:Es; try (exfalso; by eapply (not_both (a_status a) [pending; processing; cancelled]); [rewrite Es; set_solver|rewrite Es; exact Hst|]); by rewrite bool_decide_eq_true_2.
Qed.
Lemma insert_attempt_ok id n a s j : audited s -> jobs s !! id = Some j -> valid_claim n a j = true -> attempt_check n a = true -> a_created_at a <= clock s ->
  let s1 := { s with attempts := <[(id, n) := a]> (attempts s) } in
  exists s', insert_attempt id n a s = Ok (tt, s') /\ jobs s' !! id = Some (applies s1 n a j) /\ attempts s' = attempts s1 /\ subscriptions s' = subscriptions s.
Proof.
  intros [Ha _] Hj Hv Hk Hc s1. pose proof Hv as Hv2. unfold valid_claim in Hv2. rewrite !andb_true_iff, !bool_decide_eq_true in Hv2. destruct Hv2 as [[[Hs Htk] Hn] _].
  pose proof (trail_next _ _ _ (Ha id j Hj)) as Hnone. rewrite <- Hn in Hnone. unfold insert_attempt. rewrite Hj, Hv, Hk, (bool_decide_eq_true_2 _ Hnone), (proj2 (Z.leb_le _ _) Hc). cbn [andb].
  fold s1. rewrite update_jobs_ok.
  - eexists. split; [done|]. cbn [snd]. split; [|done]. rewrite jobs_with, hit_lookup. change (jobs s1) with (jobs s). rewrite Hj. cbn. by rewrite !bool_decide_eq_true_2.
  - intros id' j' Hj' Hw. rewrite !andb_true_iff, !bool_decide_eq_true in Hw. destruct Hw as [[-> _] _]. change (jobs s1) with (jobs s) in Hj'. rewrite Hj in Hj'. injection Hj' as <-. by apply applied_allowed; [apply Ha|..].
Qed.

(** *** The subscription of a delivery *)

Lemma managed_now s x : clock s <= managed s x.
Proof. unfold managed. destruct (updated_at x <? clock s) eqn:E; lia. Qed.
Lemma hit_nothing {A} (where_ : string -> A -> bool) set (m : gmap string A) : (forall id x, m !! id = Some x -> where_ id x = false) -> hit where_ set m ∪ m = m.
Proof. intros H. apply map_eq. intros id. rewrite hit_lookup. destruct (m !! id) as [x|] eqn:E; [|done]. cbn. by rewrite (H id x E). Qed.
(** A statement that revokes or stamps rows that are not revoked *)
Definition fresh_rows (where_ : string -> PushSubscriptionRow -> bool) : Prop := forall id x, where_ id x = true -> revoked_at x = None.
Lemma update_subscriptions_ok where_ set s : unique_endpoints (subscriptions s) -> audited s -> fresh_rows where_ -> (forall x, endpoint (set x) = endpoint x) ->
  (forall id x, subscriptions s !! id = Some x -> where_ id x = true -> subscription_update_allowed s x (set x) = true) ->
  exists h s', update_subscriptions where_ set s = Ok (h, s') /\ attempts s' = attempts s /\ clock s' = clock s
    /\ subscriptions s' = hit where_ (fun x => touched_subscription s x (set x)) (subscriptions s) ∪ subscriptions s
    /\ (forall id j, jobs s !! id = Some j -> droppable s j = false -> jobs s' !! id = Some j)
    /\ ((forall x, revoked_at (set x) = revoked_at x) -> jobs s' = jobs s).
Proof.
  intros Hu Ha Hf He Hok. unfold update_subscriptions. rewrite bool_decide_eq_true_2 by exact Hok. set (h := hit _ _ (subscriptions s)). set (s1 := { s with subscriptions := _ }).
  rewrite bool_decide_eq_true_2.
  - set (w := fun (_ : string) (j : PushJob) => _). rewrite (update_jobs_ok w cancels s1).
    + eexists h, _. split; [done|]. cbn [snd]. split_and!; [done..| |].
      * intros id j Hj Hd. rewrite jobs_with, hit_lookup. change (jobs s1) with (jobs s). rewrite Hj. cbn. unfold w. change (droppable s1 j) with (droppable s j). by rewrite Hd, andb_false_r.
      * intros Hr. rewrite jobs_with. apply hit_nothing. intros id j _. unfold w. destruct (subscriptions s !! job_subscription j) as [x|] eqn:Ex; [|done].
        destruct (h !! job_subscription j) as [y|] eqn:Ey; [|done]. apply hit_some in Ey as (x' & Ex' & Hw & -> & _). rewrite Ex in Ex'. injection Ex' as <-.
        rewrite (bool_decide_eq_false_2 (is_Some _)); [by rewrite andb_false_r|]. rewrite touched_revoked, Hr, (Hf _ _ Hw). by intros [].
    + intros id j Hj Hw. apply cancel_allowed; [apply (trail_ext s); [done|by apply Ha]|]. unfold w in Hw. by apply andb_true_iff in Hw as [_ ?].
  - apply (unique_kept (subscriptions s)); [done|]. intros id y. change (subscriptions s1) with (h ∪ subscriptions s). unfold h. rewrite hit_lookup.
    destruct (subscriptions s !! id) as [x|] eqn:Ex; [|done]. cbn. destruct (where_ id x) eqn:Ew; [|intros [= <-] Hr; by exists x]. intros [= <-] _. exists x.
    split_and!; [done|by eapply Hf|]. change (endpoint (touched_subscription s x (set x)) = endpoint x). by rewrite touched_endpoint, He.
Qed.

(** *** The outcome *)

(** What a response or an error can be: the library rejects what is no success. *)
Definition success (c : Z) : bool := (200 <=? c) && (c <=? 299).
Definition reply_ok (r : push_reply) : Prop := match r with answered c => 100 <= c <= 599 | rejected (Some c) => success c = false | rejected None => True end.
(** The HTTP status an answer carries; an error may carry a number that is none. *)
Definition status_of (r : push_reply) : option Z :=
  match r with answered c => Some c | rejected o => o ≫= (fun c => if bool_decide (100 <= c <= 599) then Some c else None) end.
Definition accepted (r : push_reply) : bool := match r with answered c => success c | rejected _ => false end.
Definition gone (r : push_reply) : Prop := status_of r = Some 404 \/ status_of r = Some 410.
(** No status, a timeout, too early, too many requests, or a server error *)
Definition transient (r : push_reply) : bool :=
  match status_of r with None => true | Some c => bool_decide (c ∈ [408; 425; 429]) || bool_decide (500 <= c <= 599) end.
(** The base, doubled for each attempt before this one but at most 30 times, and capped *)
Definition backoff (d : WebPushDispatcher) (n : Z) : Z := Z.min (retryCapMs d) (Nat.iter (Nat.min (Z.to_nat (n - 1)) 30) (Z.mul 2) (retryBaseMs d)).
Definition again (d : WebPushDispatcher) (n : Z) (r : push_reply) : bool := transient r && (n <? maxAttempts d).

Lemma status_error o : statusFromError o = status_of (rejected o).
Proof. destruct o as [c|]; [|done]. cbn. repeat case_match; repeat case_bool_decide; try done; lia. Qed.
Lemma transient_of r : isTransientStatus (status_of r) = transient r.
Proof.
  unfold transient, isTransientStatus. destruct (status_of r) as [c|]; [|done]. apply eq_true_iff_eq.
  rewrite !orb_true_iff, andb_true_iff, !bool_decide_eq_true, !elem_of_cons, elem_of_nil. lia.
Qed.
Lemma iter_double k b : Nat.iter k (Z.mul 2) b = b * 2 ^ Z.of_nat k.
Proof. induction k as [|k IH]; [cbn; lia|]. change (Nat.iter (S k) (Z.mul 2) b) with (2 * Nat.iter k (Z.mul 2) b). rewrite IH, Nat2Z.inj_succ, Z.pow_succ_r by lia. lia. Qed.
Lemma backoff_of d n : 1 <= n -> retry_delay d n = backoff d n.
Proof. intros Hn. unfold backoff, retry_delay. rewrite iter_double. do 3 f_equal. lia. Qed.
Lemma backoff_bounds d n : 0 < retryBaseMs d -> 0 < retryCapMs d -> 0 < backoff d n <= retryCapMs d.
Proof. intros Hb Hc. unfold backoff. rewrite iter_double. set (k := Z.of_nat _). assert (0 < 2 ^ k) by (apply Z.pow_pos_nonneg; lia). nia. Qed.
Lemma status_in_range r c : reply_ok r -> status_of r = Some c -> 100 <= c <= 599 /\ success c = accepted r.
Proof.
  destruct r as [a|[a|]]; cbn [reply_ok status_of accepted].
  - by intros H [= <-].
  - cbn. case_bool_decide; [|done]. by intros H' [= <-].
  - done.
Qed.

(** What the outcome of an answer holds *)
Record says (d : WebPushDispatcher) (n t : Z) (r : push_reply) (o : AttemptOutcome) : Prop := {
  says_status : o_status o = if accepted r then delivered else if again d n r then retryable else failed;
  says_next : o_next o = if negb (accepted r) && again d n r then Some (t + backoff d n) else None;
  says_response : o_response o = status_of r;
  says_revokes : revokeSubscription o = bool_decide (accepted r = false /\ gone r);
  says_clean : accepted r = true -> o_code o = None /\ o_message o = None;
  says_code : status_of r = None -> exists c, o_code o = Some c /\ trim c <> "";
}.
Lemma failure_says d n t r o : 1 <= n -> accepted r = false -> failureOutcome d (status_of r) n t = Ok o -> says d n t r o.
Proof.
  intros Hn Ea (H1 & H2 & H3 & H4 & H5)%failure_inv. unfold again. rewrite transient_of in *. rewrite (backoff_of d n Hn) in *.
  split; rewrite ?Ea; unfold again; cbn [negb andb]; [done| |done| |done|done].
  - by destruct (transient r && _); [apply H2|].
  - rewrite H4. apply bool_decide_ext. unfold gone. by split; [|intros []].
Qed.
Lemma failure_ok d st n t : FIRST_INSTANT <= t -> 0 < retry_delay d n -> t + retry_delay d n <= LAST_INSTANT -> exists o, failureOutcome d st n t = Ok o.
Proof.
  intros H1 Hd H2. assert (Hok : normalizeISO8601Timestamp (t + retry_delay d n) = Ok (t + retry_delay d n)).
  { unfold normalizeISO8601Timestamp, FIRST_INSTANT, LAST_INSTANT in *. repeat case_match; try done; lia. }
  unfold failureOutcome. destruct (safeFailureSummary _ _). rewrite Hok. by destruct (_ && _); eexists.
Qed.
(** Within the years the timestamps can name, every answer has its outcome. *)
Lemma outcome_says d r n t : 1 <= n -> 0 < retryBaseMs d -> 0 < retryCapMs d -> FIRST_INSTANT <= t -> t + retryCapMs d <= LAST_INSTANT ->
  exists o, outcome_of d r n t = Ok o /\ says d n t r o.
Proof.
  intros Hn Hb Hc Ht Hl. pose proof (backoff_bounds d n Hb Hc) as Hbo. pose proof (backoff_of d n Hn) as Eb.
  destruct (failure_ok d (status_of r) n t) as [o Ho]; [lia..|]. destruct (accepted r) eqn:Ea.
  - destruct r as [c|]; [|done]. cbn [accepted] in Ea. exists (delivered_outcome c). unfold outcome_of. unfold success in Ea. rewrite Ea. split; [done|].
    split; cbn [accepted]; unfold success; by rewrite ?Ea.
  - exists o. split; [|by apply failure_says]. destruct r as [c|c].
    + cbn [accepted status_of] in *. unfold outcome_of. unfold success in Ea. by rewrite Ea, Ho.
    + unfold outcome_of. by rewrite status_error.
Qed.
Lemma says_checked d l r n t o : says d n t r o -> reply_ok r -> 0 < n <= MAX_SAFE_INTEGER -> 0 < retryBaseMs d -> 0 < retryCapMs d -> attempt_check n (outcome_row l t o) = true.
Proof.
  intros [H1 H2 H3 _ H5 H6] Hr Hn Hb Hc. assert (Hn1 : (0 <? n) = true) by lia. assert (Hn2 : (n <=? MAX_SAFE_INTEGER) = true) by lia. pose proof (backoff_bounds d n Hb Hc).
  unfold attempt_check, outcome_row. cbn [attempted_at a_created_at a_status response_status error_code error_message a_next_retry_at]. rewrite Hn1, Hn2, Z.leb_refl, H1, H2, H3.
  destruct (accepted r) eqn:Ea; cbn [negb andb].
  - destruct r as [c|c]; [|done]. destruct (status_in_range (answered c) c Hr eq_refl) as [Hc' Es]. rewrite Ea in Es. cbn [status_of]. unfold success in Es. rewrite Es.
    destruct (H5 eq_refl) as [-> ->]. assert ((100 <=? c) && (c <=? 599) = true) as -> by (apply andb_true_iff; split; lia). by rewrite !bool_decide_eq_true_2.
  - destruct (status_of r) as [c|] eqn:E.
    + destruct (status_in_range r c Hr E) as [Hc' Es]. unfold success in Es. rewrite Es, Ea. assert ((100 <=? c) && (c <=? 599) = true) as -> by (apply andb_true_iff; split; lia).
      rewrite (bool_decide_eq_true_2 (is_Some (Some c))) by by eexists. destruct (again d n r); cbn [andb orb negb]; [|by rewrite bool_decide_eq_true_2]. cbn [lt_]. apply Z.ltb_lt. lia.
    + destruct (H6 eq_refl) as (c & -> & Hne). rewrite (bool_decide_eq_false_2 (is_Some None)) by by intros []. rewrite (bool_decide_eq_false_2 (trim c = "")) by done.
      destruct (again d n r); cbn [andb orb negb]; [|by rewrite bool_decide_eq_true_2]. cbn [lt_]. apply Z.ltb_lt. lia.
Qed.

(** The job's subscription, still of its user, neither revoked nor expired *)
Definition alive (s : push_tables) (j : PushJob) : bool :=
  match subscriptions s !! job_subscription j with
  | Some x => bool_decide (sub_user x = job_user j /\ revoked_at x = None) && match expires_at x with Some e => clock s <? e | None => true end
  | None => false
  end.
Lemma alive_of s j : match subscription_of s j with Some x => active s x | None => false end = alive s j.
Proof.
  unfold subscription_of, active, alive, live_until. destruct (subscriptions s !! job_subscription j) as [x|]; [|done]. case_bool_decide as E1.
  - rewrite (bool_decide_ext (revoked_at x = None) (sub_user x = job_user j /\ revoked_at x = None)); [done|]. split; [by split|by intros []].
  - rewrite bool_decide_eq_false_2; [by destruct (expires_at x)|by intros []].
Qed.
(** What becomes of a job, by the class of its answer *)
Definition settled (d : WebPushDispatcher) (alive : bool) (n t : Z) (r : push_reply) (j : PushJob) : PushJob :=
  if accepted r then released delivered n None j
  else if again d n r then
    if alive then released retryable n (Some (t + backoff d n)) j else released cancelled n None j
  else released failed n None j.
(** The attempt that a claim's owner keeps of it *)
Record records (d : WebPushDispatcher) (l : Live) (n t : Z) (r : push_reply) (a : PushAttempt) : Prop := {
  records_status : a_status a = if accepted r then delivered else if again d n r then retryable else failed;
  records_response : response_status a = status_of r;
  records_next : a_next_retry_at a = if negb (accepted r) && again d n r then Some (t + backoff d n) else None;
  records_owner : a_claim_token a = l_token l /\ attempted_at a = t;
}.
(** The subscription a delivery read, unrevoked and in the version it read *)
Definition same_version (l : Live) (id : string) (x : PushSubscriptionRow) : Prop :=
  id = l_subscription l /\ sub_user x = l_user l /\ revoked_at x = None /\ endpoint x = l_endpoint l /\ keys x = Some (l_keys l) /\ updated_at x = l_updated_at l.
Definition same_subscription (l : Live) (id : string) (x : PushSubscriptionRow) : Prop := id = l_subscription l /\ sub_user x = l_user l /\ revoked_at x = None.
(** What becomes of a subscription *)
Record told (l : Live) (t : Z) (r : push_reply) (id : string) (x y : PushSubscriptionRow) : Prop := {
  told_gone : accepted r = false -> gone r -> same_version l id x -> revoked_at y = Some t /\ keys y = None;
  told_used : accepted r = true -> same_subscription l id x -> last_used_at y = Some t /\ revoked_at y = None /\ keys y = keys x;
  told_nothing : ~ (accepted r = false /\ gone r /\ same_version l id x) -> ~ (accepted r = true /\ same_subscription l id x) -> y = x;
}.
(** The claim of an outcome that arrives in time *)
Record claim_held (s : push_tables) (l : Live) (t : Z) (j : PushJob) : Prop := {
  held_audited : audited s;
  held_stored : stored s;
  held_row : jobs s !! l_job l = Some j;
  held_claim : status j = processing /\ claim_token j = Some (l_token l) /\ attempt_count j = l_attempt_count l;
  held_time : le_ (claimed_at j) (Some t) = true /\ t <= clock s;
  held_lease : lt_ (Some (clock s)) (lease_expires_at j) = true;
  held_subscription : forall x, subscriptions s !! l_subscription l = Some x -> revoked_at x = None ->
    sub_created_at x <= t;
}.
Section Settles.
Context (s : push_tables) (l : Live) (t : Z) (j : PushJob) (H : claim_held s l t j).
Lemma held_droppable : droppable s j = false.
Proof.
  destruct H as [_ _ _ [Hs _] _ Hl _]. unfold droppable. rewrite Hs. rewrite (bool_decide_eq_false_2 (processing ∈ [pending; retryable])); [|intros Hp; by eapply (not_both processing [processing]); [apply list_elem_of_singleton|exact Hp|]].
  destruct (lease_expires_at j) as [e|]; [|by rewrite andb_false_r]. cbn in *. rewrite bool_decide_eq_true_2 by done. cbn. lia.
Qed.
Lemma held_valid o n : n = l_attempt_count l + 1 -> valid_claim n (outcome_row l t o) j = true.
Proof.
  intros ->. destruct H as [_ _ _ (Hs & Ht & Hn) [Hc _] _ _]. unfold valid_claim, outcome_row. cbn [a_claim_token attempted_at].
  rewrite Hs, Ht, Hn, Hc. by rewrite !bool_decide_eq_true_2.
Qed.
(** The attempt, where the statement before it left the row alone *)
Lemma held_insert s1 o n : audited s1 -> jobs s1 !! l_job l = Some j -> clock s1 = clock s -> n = l_attempt_count l + 1 -> attempt_check n (outcome_row l t o) = true ->
  let s2 := { s1 with attempts := <[(l_job l, n) := outcome_row l t o]> (attempts s1) } in
  exists s', insert_attempt (l_job l) n (outcome_row l t o) s1 = Ok (tt, s') /\ jobs s' !! l_job l = Some (applies s2 n (outcome_row l t o) j)
    /\ attempts s' = attempts s2 /\ subscriptions s' = subscriptions s1.
Proof.
  intros Ha Hj Hc Hn Hk. apply insert_attempt_ok; [done|done|by apply held_valid|done|]. cbn. rewrite Hc. apply H.
Qed.
Lemma within_now s0 x x' : clock s0 = clock s -> sub_created_at x' <= t -> within_life s0 x x' (Some t) = true.
Proof.
  intros Hc Hx. destruct H as [_ _ _ _ [_ Ht] _ _]. unfold within_life. pose proof (managed_now s0 x). apply andb_true_iff. split; lia.
Qed.
Lemma within_before s0 x x' u : match u with Some u => sub_created_at x' <= u <= updated_at x | None => True end -> within_life s0 x x' u = true.
Proof. unfold within_life, managed. destruct u as [u|]; [|done]. intros Hu. apply andb_true_iff. destruct (updated_at x <? clock s0) eqn:E; split; lia. Qed.
Lemma held_revoke : exists h s1, update_subscriptions (is_live_version l) (fun x => { x with revoked_at := Some t }) s = Ok (h, s1)
  /\ audited s1 /\ jobs s1 !! l_job l = Some j /\ clock s1 = clock s /\ attempts s1 = attempts s
  /\ subscriptions s1 = hit (is_live_version l) (fun x => touched_subscription s x { x with revoked_at := Some t }) (subscriptions s) ∪ subscriptions s.
Proof.
  destruct (update_subscriptions_ok (is_live_version l) (fun x => { x with revoked_at := Some t }) s) as (h & s1 & Hu & Ha & Hc & Hs & Hj & _); [apply H|apply H| |done| |].
  - intros id x Hx. unfold is_live_version, is_subscription in Hx. rewrite !andb_true_iff, !bool_decide_eq_true in Hx. by destruct_and! Hx.
  - intros id x Hx Hw. unfold is_live_version, is_subscription in Hw. rewrite !andb_true_iff, !bool_decide_eq_true in Hw. destruct Hw as [[[[[-> _] Hr] _] _] _].
    pose proof (held_subscription _ _ _ _ H x Hx Hr) as H1. destruct (proj2 (held_stored _ _ _ _ H) _ x Hx Hr) as (H2 & H3 & H4). set (x' := { x with revoked_at := Some t }). assert (Ew : within_life s x x' (revoked_at x') = true) by exact (within_now s x x' eq_refl H1).
    assert (El : within_life s x x' (last_used_at x') = true) by exact (within_before s x x' _ H4). unfold subscription_update_allowed, rest_same. rewrite Hr, Ew, El.
    change (revoked_at x') with (Some t). change (expires_at x') with (expires_at x). change (sub_created_at x') with (sub_created_at x). rewrite !bool_decide_eq_true_2 by done.
    destruct (expires_at x); [|done]. cbn. lia.
  - exists h, s1. split_and!; [done|eapply audited_drops; [by eapply update_subscriptions_drops|apply H]|apply Hj; [apply H|apply held_droppable]|done|done|done].
Qed.
Lemma held_used : (forall x, subscriptions s !! l_subscription l = Some x -> revoked_at x = None -> live_until s (expires_at x) = true) ->
  exists h s1, update_subscriptions (is_subscription l) (fun x => { x with last_used_at := Some t }) s = Ok (h, s1)
  /\ audited s1 /\ jobs s1 !! l_job l = Some j /\ clock s1 = clock s /\ attempts s1 = attempts s
  /\ subscriptions s1 = hit (is_subscription l) (fun x => touched_subscription s x { x with last_used_at := Some t }) (subscriptions s) ∪ subscriptions s.
Proof.
  intros Hlive. destruct (update_subscriptions_ok (is_subscription l) (fun x => { x with last_used_at := Some t }) s) as (h & s1 & Hu & Ha & Hc & Hs & Hj & _); [apply H|apply H| |done| |].
  - intros id x Hx. unfold is_subscription in Hx. rewrite !andb_true_iff, !bool_decide_eq_true in Hx. by destruct_and! Hx.
  - intros id x Hx Hw. unfold is_subscription in Hw. rewrite !andb_true_iff, !bool_decide_eq_true in Hw. destruct Hw as [[-> _] Hr].
    pose proof (held_subscription _ _ _ _ H x Hx Hr) as H1. destruct (proj2 (held_stored _ _ _ _ H) _ x Hx Hr) as (H2 & H3 & _). pose proof (Hlive x Hx Hr) as Hl. set (x' := { x with last_used_at := Some t }). assert (El : within_life s x x' (last_used_at x') = true) by exact (within_now s x x' eq_refl H1).
    unfold subscription_update_allowed. rewrite Hr, El. change (revoked_at x') with (revoked_at x). rewrite Hr. change (expires_at x') with (expires_at x). change (sub_created_at x') with (sub_created_at x).
    rewrite !bool_decide_eq_true_2 by done. unfold live_until in Hl. destruct (expires_at x) as [e|]; [|done]. rewrite Hl. cbn. lia.
  - exists h, s1. split_and!; [done|eapply audited_drops; [by eapply update_subscriptions_drops|apply H]|apply Hj; [apply H|apply held_droppable]|done|done|done].
Qed.
End Settles.

Lemma applies_decided s n a j x : a_status a = x -> (x = retryable -> alive s j = true) -> applies s n a j = released x n (a_next_retry_at a) j.
Proof. intros <- H. unfold applies. rewrite alive_of. case_bool_decide as E; [|done]. by rewrite (H E). Qed.
Lemma applies_dropped s n a j : a_status a = retryable -> alive s j = false -> applies s n a j = released cancelled n None j.
Proof. intros E H. unfold applies. by rewrite alive_of, E, H, bool_decide_eq_true_2. Qed.
Lemma is_subscription_iff l id x : is_subscription l id x = true <-> same_subscription l id x.
Proof. unfold is_subscription, same_subscription. rewrite !andb_true_iff, !bool_decide_eq_true. tauto. Qed.
Lemma is_live_version_iff l id x : is_live_version l id x = true <-> same_version l id x.
Proof. unfold is_live_version, same_version. rewrite !andb_true_iff, is_subscription_iff, !bool_decide_eq_true. unfold same_subscription. tauto. Qed.
(** Each statement on the subscriptions tells them what the answer says. *)
Section Told.
Context (s : push_tables) (l : Live) (t : Z) (ans : push_reply).
Definition tells (m : gmap string PushSubscriptionRow) : Prop := forall id x, subscriptions s !! id = Some x -> exists y, m !! id = Some y /\ told l t ans id x y.
Lemma tells_revoked : accepted ans = false -> gone ans -> tells (hit (is_live_version l) (fun x => touched_subscription s x { x with revoked_at := Some t }) (subscriptions s) ∪ subscriptions s).
Proof.
  intros Ea Hg id x Hx. rewrite hit_lookup, Hx. cbn -[touched_subscription]. eexists. split; [done|]. split; rewrite ?Ea; [|done|].
  - intros _ _ Hv. rewrite (proj2 (is_live_version_iff l id x) Hv), touched_revoked. split; [done|]. unfold touched_subscription. by rewrite (proj1 (proj2 (proj2 Hv))).
  - intros Hn _. destruct (is_live_version l id x) eqn:E; [|done]. apply is_live_version_iff in E. tauto.
Qed.
Lemma tells_used : accepted ans = true -> tells (hit (is_subscription l) (fun x => touched_subscription s x { x with last_used_at := Some t }) (subscriptions s) ∪ subscriptions s).
Proof.
  intros Ea id x Hx. rewrite hit_lookup, Hx. cbn -[touched_subscription]. eexists. split; [done|]. split; rewrite ?Ea; [done| |].
  - intros _ Hv. rewrite (proj2 (is_subscription_iff l id x) Hv), touched_revoked. destruct Hv as (_ & _ & Hr). unfold touched_subscription. destruct x. cbn in *. by subst.
  - intros _ Hn. destruct (is_subscription l id x) eqn:E; [|done]. apply is_subscription_iff in E. tauto.
Qed.
Lemma tells_nothing : accepted ans = false -> ~ gone ans -> tells (subscriptions s).
Proof. intros Ea Hg id x Hx. exists x. split; [done|]. by split; rewrite ?Ea. Qed.
End Told.

(** The statement before the attempt *)
Definition first_statement (l : Live) (t : Z) (o : AttemptOutcome) (s : push_tables) : result (gmap string PushSubscriptionRow * push_tables) :=
  if revokeSubscription o then update_subscriptions (is_live_version l) (fun x => { x with revoked_at := Some t }) s
  else if bool_decide (o_status o = delivered) then update_subscriptions (is_subscription l) (fun x => { x with last_used_at := Some t }) s
  else Ok (∅, s).
Lemma record_after s l t j o n h s1 : claim_held s l t j -> first_statement l t o s = Ok (h, s1) -> audited s1 -> jobs s1 !! l_job l = Some j -> clock s1 = clock s ->
  n = l_attempt_count l + 1 -> attempt_check n (outcome_row l t o) = true ->
  let s2 := { s1 with attempts := <[(l_job l, n) := outcome_row l t o]> (attempts s1) } in
  exists s', record_tx l t n o s = Ok (tt, s') /\ jobs s' !! l_job l = Some (applies s2 n (outcome_row l t o) j) /\ attempts s' = attempts s2 /\ subscriptions s' = subscriptions s1.
Proof.
  intros H H1 Ha Hj Hc Hn Hk s2. destruct (held_insert s l t j H s1 o n Ha Hj Hc Hn Hk) as (s' & Hi & Hj' & Ha' & Hs').
  exists (note (recorded (l_job l) (l_token l) n (o_status o)) s'). split; [|done]. unfold record_tx. unfold first_statement in H1. rewrite H1. cbn [mbind result_bind snd]. unfold mbind, result_bind. cbn [snd]. by rewrite Hi.
Qed.

(** The statement before the attempt succeeds and tells the subscriptions. *)
Lemma first_ok d s l t j n r o : claim_held s l t j -> says d n t r o ->
  (accepted r = true -> forall x, subscriptions s !! l_subscription l = Some x -> revoked_at x = None -> live_until s (expires_at x) = true) ->
  exists h s1, first_statement l t o s = Ok (h, s1) /\ audited s1 /\ jobs s1 !! l_job l = Some j /\ clock s1 = clock s /\ attempts s1 = attempts s
    /\ tells s l t r (subscriptions s1) /\ (o_status o = retryable -> alive s1 j = alive s j).
Proof.
  intros H Ho Hlive. unfold first_statement. rewrite (says_revokes _ _ _ _ _ Ho), (says_status _ _ _ _ _ Ho). destruct (accepted r) eqn:Ea.
  - destruct (held_used s l t j H (Hlive eq_refl)) as (h & s1 & H1 & Ha & Hj & Hc & Hat & Hs). rewrite bool_decide_eq_false_2 by by intros [].
    exists h, s1. split_and!; [done..|rewrite Hs; by apply tells_used|done].
  - case_bool_decide as Eg; [destruct Eg as [_ Eg]|].
    + destruct (held_revoke s l t j H) as (h & s1 & H1 & Ha & Hj & Hc & Hat & Hs). exists h, s1. split_and!; [done..|rewrite Hs; by apply tells_revoked|].
      unfold again, transient. by destruct Eg as [-> | ->].
    + rewrite bool_decide_eq_false_2 by by destruct (again d n r). exists ∅, s. split_and!; [done|apply H|apply H|done|done| |done]. apply tells_nothing; [done|]. intros Hg. by apply Eg.
Qed.

(** C21. The outcome of a request that arrives within its lease is recorded, as one attempt
    with the status the provider gave, and settles the job: delivered where the provider
    accepted it; to be retried (or dropped, where the subscription is no longer active) on a
    failure below the limit that has no status or a transient one; failed otherwise. A retry
    waits the base delay, doubled for every attempt before this one and capped. A
    subscription the provider no longer knows (404 or 410) is revoked and loses its keys,
    if it is still the version that was read; an accepting one is stamped as used; no other
    row of the subscriptions changes. Asked of the surroundings: the instants are ones a
    timestamp can name, and a delivered outcome comes before its subscription expires. *)
Theorem outcome_is_recorded d l r t s j : claim_held s l t j -> reply_ok r -> 0 < retryBaseMs d -> 0 < retryCapMs d -> l_attempt_count l < MAX_SAFE_INTEGER ->
  FIRST_INSTANT <= t -> t + retryCapMs d <= LAST_INSTANT ->
  (accepted r = true -> forall x, subscriptions s !! l_subscription l = Some x -> revoked_at x = None -> live_until s (expires_at x) = true) ->
  let n := l_attempt_count l + 1 in
  exists o s' a, outcome_of d r n t = Ok o /\ record_tx l t n o s = Ok (tt, s')
    /\ jobs s' !! l_job l = Some (settled d (alive s j) n t r j)
    /\ attempts s' = <[(l_job l, n) := a]> (attempts s) /\ records d l n t r a
    /\ (forall id x, subscriptions s !! id = Some x -> exists y, subscriptions s' !! id = Some y /\ told l t r id x y)
    /\ 0 < backoff d n <= retryCapMs d.
Proof.
  intros H Hr Hb Hc Hmax Ht Hl Hlive n. assert (Hn : 0 < n <= MAX_SAFE_INTEGER).
  { destruct (held_claim _ _ _ _ H) as (_ & _ & E). pose proof (trail_count _ _ _ (proj1 (held_audited _ _ _ _ H) _ _ (held_row _ _ _ _ H))). unfold n. lia. }
  destruct (outcome_says d r n t) as (o & Eo & Ho); [lia|done..|]. pose proof (says_checked d l r n t o Ho Hr Hn Hb Hc) as Hk.
  destruct (first_ok d s l t j n r o H Ho Hlive) as (h & s1 & H1 & Ha & Hj & Hcl & Hat & Htold & Hal).
  destruct (record_after s l t j o n h s1 H H1 Ha Hj Hcl eq_refl Hk) as (s' & Hx & Hj' & Ha' & Hs').
  exists o, s', (outcome_row l t o). split_and!; [done|done| |by rewrite Ha', <- Hat| |by rewrite Hs'|by apply backoff_bounds..].
  - rewrite Hj'. f_equal. unfold settled. set (s2 := { s1 with attempts := _ }). change (alive s1 j) with (alive s2 j) in Hal.
    assert (Hst : a_status (outcome_row l t o) = o_status o) by done. assert (Hne : a_next_retry_at (outcome_row l t o) = o_next o) by done.
    rewrite (says_status _ _ _ _ _ Ho) in *. rewrite (says_next _ _ _ _ _ Ho) in Hne. destruct (accepted r); cbn [negb andb] in Hne; [by rewrite (applies_decided _ _ _ _ delivered), Hne|].
    destruct (again d n r); [|by rewrite (applies_decided _ _ _ _ failed), Hne]. rewrite <- (Hal eq_refl).
    destruct (alive s2 j) eqn:El; [by rewrite (applies_decided _ _ _ _ retryable), Hne|by rewrite applies_dropped].
  - split; [apply Ho|apply Ho|apply Ho|done].
Qed.

(** ** Quiet hours *)

(** Quiet hours are an interval on the clock face, across midnight or not. *)
Lemma in_interval_on_clock c a b : 0 <= c < 1440 -> 0 <= a < 1440 -> 0 <= b < 1440 -> a <> b ->
  in_interval c a b = true <-> (c - a) mod 1440 < (b - a) mod 1440.
Proof.
  intros Hc Ha Hb Hne. unfold in_interval. rewrite (Z.mod_eq (c - a)), (Z.mod_eq (b - a)) by lia.
  assert (Hd : forall x, -1440 < x < 1440 -> x / 1440 = if x <? 0 then -1 else 0) by (intros x Hx; destruct (x <? 0) eqn:E; [symmetry; apply Z.div_unique with (x + 1440); lia|apply Z.div_small; lia]).
  rewrite !Hd by lia. destruct (a <? b) eqn:E1, (c - a <? 0) eqn:E2, (b - a <? 0) eqn:E3; rewrite ?andb_true_iff, ?orb_true_iff; lia.
Qed.

(** ** Concrete deliveries *)

Definition defaults : WebPushDispatcher := Dispatcher 5000 20 60000 15000 300 5 30000 900000.
Lemma defaults_ok : construct (DispatcherOptions None None None None None None None None) = Ok defaults.
Proof. by vm_compute. Qed.
Definition row : PushSubscriptionRow := Subscription "ann" "https://push.example/1" (Some ("p256dh", "auth")) None None None None 10 10.
Definition claimed_row : PushJob := Job "e1" "ann" "s1" 0 processing None (Some "token") (Some 100) (Some 60100) 50.
Definition scene (x : PushSubscriptionRow) (r : push_reply) : push_tables :=
  Push {["j1" := claimed_row]} ∅ {["s1" := x]} {[("e1", "ann") := Receipt true true None None 20]} {["e1" := Notified "task" "info"]} {[("ann", "task") := true]}
    ∅ 200 0 [] (Answers true (fun _ _ => r)).
Definition live_scene : Live := LiveDelivery "j1" "e1" "ann" "s1" 0 "token" "https://push.example/1" ("p256dh", "auth") 10 "task" "info" None.
Lemma scene_audited x r : audited (scene x r).
Proof.
  split; [|done]. intros id j Hj. change (({["j1" := claimed_row]} : gmap string PushJob) !! id = Some j) in Hj. apply lookup_singleton_Some in Hj as [<- <-]. split; try done; [|set_solver]. intros n. split; [by intros []|cbn; lia].
Qed.
Lemma scene_held r : claim_held (scene row r) live_scene 150 claimed_row.
Proof.
  split; try done; [apply scene_audited| |].
  - unfold stored. change (subscriptions (scene row r)) with ({["s1" := row]} : gmap string PushSubscriptionRow). split; [|by apply map_Forall_singleton]. intros id x Hx _ id' y Hy _ _. apply lookup_singleton_Some in Hx as [<- _]. by apply lookup_singleton_Some in Hy as [<- _].
  - intros x Hx _. change (({["s1" := row]} : gmap string PushSubscriptionRow) !! "s1" = Some x) in Hx. apply lookup_singleton_Some in Hx as [_ <-]. cbn. lia.
Qed.
Lemma outcome_is_recorded_witness : exists o s',
  outcome_of defaults (rejected (Some 503)) 1 150 = Ok o /\ record_tx live_scene 150 1 o (scene row (answered 201)) = Ok (tt, s')
  /\ jobs s' !! "j1" = Some (released retryable 1 (Some 30150) claimed_row).
Proof.
  destruct (outcome_is_recorded defaults live_scene (rejected (Some 503)) 150 (scene row (answered 201)) claimed_row (scene_held _)) as (o & s' & a & Ho & Hx & Hj & _);
    [done..|by vm_compute|by vm_compute|done|].
  exists o, s'. exact (conj Ho (conj Hx Hj)).
Defined.
(** A claimed delivery whose provider accepts it *)
Example delivery_is_recorded :
  let s' := store (snd (deliver (fun _ _ => None) Ok (fun _ _ => Ok "payload") defaults (Claimed "j1" "token") (World (scene row (answered 201)) [] []))) in
  jobs s' !! "j1" = Some (released delivered 1 None claimed_row).
Proof. by vm_compute. Qed.
(** A subscription that expires while its request is on the way: the success cannot be
    recorded, and the job is cancelled later with no attempt to show for it. *)
Definition expiring : PushSubscriptionRow := { row with expires_at := Some 180 }.
Example expired_delivery_is_lost :
  outcome_of defaults (answered 201) 1 150 = Ok (delivered_outcome 201)
  /\ record_tx live_scene 150 1 (delivered_outcome 201) (scene expiring (answered 201)) = Throw "invalid push subscription lifecycle update"
  /\ let later := { scene expiring (answered 201) with clock := 70000 } in
     match update_jobs (fun _ j => push_delivery_jobs_requiring_cancellation later j) cancels later with
     | Ok (_, s') => jobs s' !! "j1" = Some (cancels claimed_row) /\ attempts s' = ∅ | Throw _ => False end.
Proof. by vm_compute. Qed.
